(* ===== verification/_CoqProject ===== *)
-Q . S2P
Prelude.v
Blocks.v
Frame.v
Channel.v
SystemConfig.v
Types.v
FrameQueue.v
ChannelBank.v
ChannelAssembler.v
ChannelProvider.v
SingleBatch.v
SpanBits.v
Reader.v
SpanBatch.v
Batch.v
BatchStream.v
BatchQueue.v
BatchValidator.v
AttributesQueue.v
Pipeline.v
Sources.v
L1Traversal.v
L1Retrieval.v
TxData.v
SpanTxs.v
RawSpan.v
Inflate.v
ChannelReader.v
Rlp.v
Mpt.v
MptReveal.v
MptUpdate.v
MptMap.v
NodeCodec.v
ListWalker.v
TrieDB.v
Executor.v
Offchain.v
Cursor.v
Driver.v
Guarded.v
Builder.v
Preimage.v
ProgramCodec.v
Blobs.v
Comp.v
L1BlockInfo.v
BridgeInstruction.v
BridgeAccounts.v
Bridge.v
Native.v
Deposits.v
Attributes.v
Hint.v
Providers.v
L1Provider.v
Host.v
OracleBlobs.v
Entries.v
Blockhashes.v
SvmAccounts.v
Svm.v
SvmExamples.v
SvmExecutor.v
