(* ===== verification/Prelude.v ===== *)
(** * A verification of kona-soon

    kona-soon derives the blocks of the SOON rollup (an L2 whose execution layer is a Solana
    virtual machine) from its L1 chain, and proves the derivation: the proof program reads
    everything it needs through a preimage oracle, derives the L2 payloads, executes them
    statelessly over Merkle Patricia tries and answers an output root.

    The library models this path from the bytes of an L1 frame to the output root.  Rust code is
    embedded shallowly: a pure function becomes a function, a method taking [&mut self] a function
    of the state monad [ST], a [Result] or a panic a value of [outcome], a trait a class of
    operations, and what an implementation promises through it a second class of laws; the
    theorems of a component are proved over the laws of the components it calls.  Code that is not
    in the repository (hash functions, RLP, compression, signatures, Solana's runtime) is a
    parameter; every theorem about it has a witness with a concrete instance.

    ** Files, in the order of the data

    This file: [outcome], [ST] and their lemmas, machine integers as [Z] with their wrap-around,
    bytes, slices, and the logic [safe] in which panic freedom is proved (hint database [safe]).

    - primitives: Blocks.v (primitives/src/blocks.rs, rollup_config.rs), SystemConfig.v
      (primitives/src/system/, system_update/), Frame.v (primitives/src/da/frame.rs), Channel.v
      (primitives/src/da/channel.rs).
    - derive/src/: Types.v (errors, signals, stage interfaces and their laws), Sources.v
      (sources/calldata.rs, da_server.rs, ethereum.rs), and a file per stage of
      stages/: L1Traversal.v, L1Retrieval.v, FrameQueue.v, ChannelBank.v, ChannelAssembler.v,
      ChannelProvider.v, ChannelReader.v (over Inflate.v, the decompressing loop of
      utilities/miniz_oxide/src/inflate/mod.rs), BatchStream.v, BatchQueue.v, BatchValidator.v,
      AttributesQueue.v; the pipeline that drives them in Pipeline.v (pipeline/core.rs), their
      composition in Builder.v (pipeline/builder.rs; Guarded.v carries the panics of one stage
      through the stages above it), the attributes builder in Attributes.v
      (attributes/stateful.rs).
    - batches (derive/src/batch/): SingleBatch.v, Batch.v, SpanBatch.v, and the wire format of span
      batches in SpanBits.v, Reader.v, TxData.v, SpanTxs.v, RawSpan.v.
    - deposits: Deposits.v (primitives/src/deposit.rs), Native.v (primitives/src/native_tx/,
      l2blocks.rs).
    - compression: Comp.v (protocol/comp/src/: the compressors and the channel they fill).
    - blobs: Blobs.v (derive/src/sources/blob_data.rs, blobs.rs), OracleBlobs.v
      (proof/proof/src/l1/blob_provider.rs).
    - tries: Rlp.v, Mpt.v, MptReveal.v, MptUpdate.v, MptMap.v, NodeCodec.v (proof/mpt/src/node.rs),
      ListWalker.v (proof/mpt/src/list_walker.rs).
    - execution: TrieDB.v (proof/executor/src/db/), Executor.v (proof/executor/src/builder/core.rs,
      executor/fraud/, proof/proof/src/executor.rs), Offchain.v (proof/executor/src/builder/offchain.rs,
      executor/fraud/src/accounts.rs).
    - the virtual machine (executor/svm/src/): Entries.v (entry/, block.rs), Blockhashes.v
      (blockhash_queue.rs, sysvar/recent_blockhashes.rs, leader_schedule.rs), SvmAccounts.v
      (accounts_db.rs, accounts_callback.rs, utils/rent.rs), Svm.v (lib.rs, types.rs), SvmExamples.v (a
      small runtime and the witnesses), SvmExecutor.v (genesis.rs, builtin.rs, and the machine behind the
      interface the executor is written against).
    - the driver: Cursor.v and Driver.v (protocol/driver/src/, proof/proof/src/l1/pipeline.rs).
    - the oracle: Preimage.v (proof/preimage/src/, proof/std-fpvm/src/channel.rs,
      proof/proof/src/caching_oracle.rs), Hint.v (proof/preimage/src/hint.rs,
      proof/proof/src/hint.rs), Providers.v (proof/proof/src/l1/chain_provider.rs,
      l2/chain_provider.rs, l2provider/src/chain_provider.rs), L1Provider.v (l1provider/src/),
      Host.v (bin/host/src/: key-value
      stores, local inputs, the backends and the hint handler; proof/proof/src/boot.rs).
    - on-chain programs: ProgramCodec.v (what the programs share), L1BlockInfo.v
      (programs/l1-block-info-program/), and of programs/bridge-program/src/ BridgeInstruction.v
      (instruction.rs), BridgeAccounts.v (pda.rs, state.rs, the instruction makers) and Bridge.v
      (processor.rs, utils.rs).

    A definition has the name of the Rust item it translates wherever that is possible; a method
    of a state record updates it through the setters [set_field] of its file.

    ** What the theorems show

    - the whole program: [Driver.driver_proves_chain] (the driver answers the output root of the
      last derived block, which commits to the state with the changes of all executed blocks),
      [Builder.derivation_panics_only_decoding] (the composed pipeline answers payloads or
      errors, and panics only on channel data that the batch decoder panics on),
      [Driver.produce_payload_first] (how producing a payload ends).
    - what enters an L2 block: [Attributes.payload_attributes_spec], [Deposits.derive_deposits_spec],
      [Deposits.deposit_event_parsed], [Attributes.large_deposit_halts] (a deposit that stops the
      derivation), [BatchQueue.expired_epoch_filled] (an epoch without batches is filled).
    - reassembly: [Channel.channel_any_order], [ChannelBank.channel_bank_reassembles] and the
      contracts of the stages: what each hands out, once and in order, and that none panics
      ([*_safe], [*_spec], [*_delivers_*]).
    - codecs: frames, span batches ([RawSpan.span_batch_roundtrip], [SpanTxs.span_txs_roundtrip]),
      trie nodes ([NodeCodec.node_codec_roundtrip]), blobs ([Blobs.blob_roundtrip]), preimage keys,
      program instructions.
    - tries: [insert], [delete] and [open] are the operations of a finite map, over tries of which
      any part is still to be fetched ([MptMap]); equal maps have equal roots.
    - the oracle: [Preimage.client_gets_preimages] (client and host interleave in any way),
      [Preimage.cache_transparent], [L1Provider.l1_provider_transparent] (the caches of the node, for
      calls and background turns that interleave lock by lock), [L1Provider.background_progress],
      [Host.preimages_stay_sound] (what the host stores is what its
      key commits to), [Providers.receipts_of_root], [Providers.block_read_back].
    - the two block builders: [Executor.executor_commits_block], [Offchain.offchain_root_agrees] (their state
      roots agree on blocks that destroy no account).
    - the virtual machine: [Svm.executed_block_hash] and [SvmExecutor.built_block_hash] (the blockhash chains
      the batches of the payload), [Svm.simulation_predicts], [Svm.failed_program_commits] and
      [Svm.failed_transaction_changes_nothing] (which failures leave a trace), [Svm.fees_go_to_leader],
      [Entries.merkle_root_binds], [Blockhashes.rebuilt_queue_ages].
    - the bridge on L2: [Bridge.withdraw_eth_spec], [Bridge.deposit_eth_spec] (what moves and what is
      recorded), [Bridge.admin_changes_only_by_admin], [Bridge.token_amounts_roundtrip].

    ** Bounds and fuel

    Loops and recursions that are not structural take fuel; each file says how much and proves it
    enough: the frame parser (a frame takes 23 bytes at least), [prune] (two passes over the
    queue), the trie operations (whatever suffices to reveal the trie; running out is the stack
    overflow of an endless recursion).  The loops of the driver poll an external world and may run
    forever: [Diverging] answers [None] without enough fuel, and the theorems say which fuel
    suffices.  Integers are kept at their width and wrap, as the
    workspace is built, except in the on-chain programs, which are built with overflow checks and panic;
    [usize] lengths are taken to be exact.

    ** Not modelled

    The DEFLATE state machines of the vendored miniz_oxide and the utilities crates (not the
    program's own logic); Solana's runtime,
    which executor/svm embeds (message processor, rent collector, fee structure, program cache: parameters
    of SvmAccounts.v and Svm.v); the reports of executor/fraud/src/utils.rs; the
    online providers, the host's server, its disk store and its command line, and the node's L2 JSON-RPC
    client (network and file I/O); the node's shared state and its scheduler's types
    (primitives/src/state.rs, scheduler/); the
    operating-system calls of std-fpvm; logging, metrics and configuration files. *)
From stdpp Require Export base list gmap numbers strings.
From Stdlib Require Export ZArith Lia.
From Stdlib Require Strings.Byte.

Declare Scope kona_scope.
Delimit Scope kona_scope with kona.
#[local] Open Scope Z_scope.

(** * Outcomes: values, errors and panics *)

(** A Rust computation returns [Ok], returns [Err], or panics (an index out of
    range, [expect] on [None], [unimplemented!], ...). *)
Inductive outcome (E A : Type) : Type :=
| Ok (a : A)
| Err (e : E)
| Panic.
Arguments Ok {E A} a.
Arguments Err {E A} e.
Arguments Panic {E A}.

#[global] Instance outcome_eq_dec {E A} `{EqDecision E} `{EqDecision A} :
  EqDecision (outcome E A).
Proof. solve_decision. Defined.

#[global] Instance outcome_ret E : MRet (outcome E) := λ A a, Ok a.
#[global] Instance outcome_bind E : MBind (outcome E) := λ A B k m,
  match m with Ok a => k a | Err e => Err e | Panic => Panic end.
#[global] Instance outcome_fmap E : FMap (outcome E) := λ A B f m,
  match m with Ok a => Ok (f a) | Err e => Err e | Panic => Panic end.

(** [Option::ok_or], [Option::expect] and [Result::map_err]. *)
Definition ok_or {E A} (o : option A) (e : E) : outcome E A :=
  match o with Some a => Ok a | None => Err e end.
Definition expect {E A} (o : option A) : outcome E A :=
  match o with Some a => Ok a | None => Panic end.
Definition map_err {E E' A} (f : E → E') (m : outcome E A) : outcome E' A :=
  match m with Ok a => Ok a | Err e => Err (f e) | Panic => Panic end.
Definition is_ok {E A} (m : outcome E A) : bool :=
  match m with Ok _ => true | _ => false end.
Definition is_err {E A} (m : outcome E A) : bool :=
  match m with Err _ => true | _ => false end.

(** * The state monad of [&mut self] methods *)

(** A method taking [&mut self] maps the state before the call to its outcome
    and the state after it; [?] is the monadic bind. *)
Definition ST (S E A : Type) : Type := S → outcome E A * S.

#[global] Instance st_ret S E : MRet (ST S E) := λ A a s, (Ok a, s).
#[global] Instance st_bind S E : MBind (ST S E) := λ A B k m s,
  match m s with
  | (Ok a, s') => k a s'
  | (Err e, s') => (Err e, s')
  | (Panic, s') => (Panic, s')
  end.

Definition fail {S E A} (e : E) : ST S E A := λ s, (Err e, s).
Definition panic {S E A} : ST S E A := λ s, (Panic, s).
Definition lift {S E A} (m : outcome E A) : ST S E A := λ s, (m, s).
Definition gets {S E A} (f : S → A) : ST S E A := λ s, (Ok (f s), s).
Definition modify {S E} (f : S → S) : ST S E unit := λ s, (Ok tt, f s).
Definition run {S E A} (m : ST S E A) (s : S) : outcome E A := (m s).1.
Definition exec {S E A} (m : ST S E A) (s : S) : S := (m s).2.

(** Handing the whole outcome of a call to its caller ([match m.await {..}]). *)
Definition catch {S E A B} (m : ST S E A) (k : outcome E A → ST S E B) : ST S E B :=
  λ s, match m s with
       | (Panic, s') => (Panic, s')
       | (r, s') => k r s'
       end.

(** A call that cannot fail, made from a method that can. *)
Definition infallible {S E A} (m : ST S Empty_set A) : ST S E A := λ s,
  match m s with
  | (Ok a, s') => (Ok a, s')
  | (Err e, _) => match e with end
  | (Panic, s') => (Panic, s')
  end.

(** A [for] loop whose body may return early with an error. *)
Fixpoint for_each {S E A} (f : A → ST S E unit) (l : list A) : ST S E unit :=
  match l with
  | [] => mret tt
  | x :: l => _ ← f x; for_each f l
  end.

(** A call on a field of [self], such as [self.prev.next_frame()]. *)
Definition zoom {S P E A} (get : S → P) (set : P → S → S) (m : ST P E A) : ST S E A :=
  λ s, let '(r, p) := m (get s) in (r, set p s).

(** * Machine integers *)

(** A [w]-bit unsigned integer is a [Z]; arithmetic wraps (the profiles of the workspace
    compile without overflow checks). *)
Definition wrap (w z : Z) : Z := z mod 2 ^ w.
Definition u64_add (a b : Z) : Z := wrap 64 (a + b).
Definition u64_sub (a b : Z) : Z := wrap 64 (a - b).
Definition u64_mul (a b : Z) : Z := wrap 64 (a * b).
Definition in_width (w z : Z) : Prop := 0 ≤ z < 2 ^ w.
Abbreviation is_u8 := (in_width 8).
Abbreviation is_u16 := (in_width 16).
Abbreviation is_u32 := (in_width 32).
Abbreviation is_u64 := (in_width 64).

(** The on-chain programs (src/crates/programs) are compiled with overflow checks: a result
    out of range panics. *)
Definition in_range {E} (w z : Z) : outcome E Z := if decide (0 ≤ z < 2 ^ w) then Ok z else Panic.

(** [u64::checked_add]. *)
Definition u64_checked_add (a b : Z) : option Z :=
  if decide (a + b < 2 ^ 64) then Some (a + b) else None.

Lemma wrap_range w z : 0 ≤ w → in_width w (wrap w z).
Proof. intros. unfold in_width, wrap. apply Z.mod_pos_bound. lia. Qed.
Lemma wrap_small w z : in_width w z → wrap w z = z.
Proof. apply Z.mod_small. Qed.
Lemma in_range_Ok {E} w z z' : in_range (E:=E) w z = Ok z' ↔ 0 ≤ z < 2 ^ w ∧ z' = z.
Proof. unfold in_range. case_decide; naive_solver. Qed.
Lemma in_range_in {E} w z : 0 ≤ z < 2 ^ w → in_range (E:=E) w z = Ok z.
Proof. intros. unfold in_range. by rewrite decide_True. Qed.
Lemma u64_add_small a b : 0 ≤ a → 0 ≤ b → a + b < 2 ^ 64 → u64_add a b = a + b.
Proof. intros. apply wrap_small. unfold in_width. lia. Qed.
Lemma u64_sub_small a b : 0 ≤ b ≤ a → a < 2 ^ 64 → u64_sub a b = a - b.
Proof. intros. apply wrap_small. unfold in_width. lia. Qed.

(** * Bytes *)

Abbreviation byte := Init.Byte.byte.
Abbreviation bytes := (list byte).

#[global] Instance byte_eq_dec : EqDecision byte := Strings.Byte.byte_eq_dec.
#[global] Program Instance byte_countable : Countable byte :=
  {| encode b := encode (Strings.Byte.to_N b);
     decode p := decode p ≫= Strings.Byte.of_N |}.
Next Obligation.
  intros b. cbn. rewrite decode_encode. apply Strings.Byte.of_to_N.
Qed.

Definition b2z (b : byte) : Z := Z.of_N (Strings.Byte.to_N b).
Definition z2b (z : Z) : byte :=
  match Strings.Byte.of_N (Z.to_N (z mod 256)) with
  | Some b => b
  | None => Init.Byte.x00
  end.
Abbreviation byte0 := Init.Byte.x00.
Abbreviation byte1 := Init.Byte.x01.

Lemma b2z_range b : 0 ≤ b2z b < 256.
Proof.
  unfold b2z. pose proof (Strings.Byte.to_N_bounded b). lia.
Qed.
Lemma z2b_b2z b : z2b (b2z b) = b.
Proof.
  unfold z2b. rewrite Z.mod_small by apply b2z_range.
  unfold b2z. rewrite N2Z.id, Strings.Byte.of_to_N. done.
Qed.
Lemma b2z_z2b z : b2z (z2b z) = z mod 256.
Proof.
  unfold z2b. pose proof (Z.mod_pos_bound z 256 ltac:(lia)) as Hb.
  destruct (Strings.Byte.of_N (Z.to_N (z mod 256))) as [b|] eqn:Hof.
  - apply Strings.Byte.to_of_N in Hof. unfold b2z. rewrite Hof. lia.
  - apply Strings.Byte.of_N_None_iff in Hof. lia.
Qed.
#[global] Instance b2z_inj : Inj (=) (=) b2z.
Proof. intros a b H. by rewrite <- (z2b_b2z a), H, z2b_b2z. Qed.

(** Lengths and sizes ([usize]) are integers. *)
Definition len {A} (l : list A) : Z := Z.of_nat (length l).

Lemma len_nonneg {A} (l : list A) : 0 ≤ len l.
Proof. unfold len. lia. Qed.
Lemma len_nil {A} : len (@nil A) = 0.
Proof. done. Qed.
Lemma len_cons {A} (x : A) l : len (x :: l) = 1 + len l.
Proof. unfold len. cbn [length]. lia. Qed.
Lemma len_app {A} (l k : list A) : len (l ++ k) = len l + len k.
Proof. unfold len. rewrite length_app. lia. Qed.
Lemma len_zero_nil {A} (l : list A) : len l = 0 ↔ l = [].
Proof. destruct l; [done|]. rewrite len_cons. pose proof (len_nonneg l). split; [lia|done]. Qed.

(** [l[a..b]]: panics when [a > b] or [b > l.len()]. *)
Definition slice {E A} (l : list A) (a b : Z) : outcome E (list A) :=
  if decide (0 ≤ a ≤ b ∧ b ≤ len l)
  then Ok (take (Z.to_nat (b - a)) (drop (Z.to_nat a) l))
  else Panic.
(** [l[i]]: panics out of range. *)
Definition index {E A} (l : list A) (i : Z) : outcome E A :=
  if decide (0 ≤ i) then expect (l !! Z.to_nat i) else Panic.

(** Sizes: [usize::MAX], and [isize::MAX], the largest size in bytes of a vector. *)
Definition USIZE_MAX : Z := 2 ^ 64 - 1.
Definition ISIZE_MAX : Z := 2 ^ 63 - 1.
(** [Vec::with_capacity(n)] for elements of [size] bytes panics ("capacity overflow") beyond
    it; that the allocator may refuse less is not modelled. *)
Definition with_capacity {E} (size n : Z) : outcome E unit := if decide (n * size ≤ ISIZE_MAX) then Ok tt else Panic.

(** Big-endian integers: [to_be_bytes] and [from_be_bytes]. *)
Fixpoint be_bytes (n : nat) (z : Z) : bytes :=
  match n with
  | O => []
  | S n => z2b (z / 256 ^ Z.of_nat n) :: be_bytes n z
  end.
Fixpoint be_val (l : bytes) : Z :=
  match l with
  | [] => 0
  | b :: l => b2z b * 256 ^ len l + be_val l
  end.

Lemma be_val_cons b l : be_val (b :: l) = b2z b * 256 ^ len l + be_val l.
Proof. done. Qed.
Lemma length_be_bytes n z : length (be_bytes n z) = n.
Proof. induction n; cbn; congruence. Qed.
Lemma be_val_range l : 0 ≤ be_val l < 256 ^ len l.
Proof.
  induction l as [|b l IH]; [done|]. cbn [be_val]. rewrite len_cons.
  rewrite Z.pow_add_r, Z.pow_1_r by (try apply len_nonneg; lia).
  pose proof (b2z_range b). nia.
Qed.
Lemma be_val_bytes n z : be_val (be_bytes n z) = z mod 256 ^ Z.of_nat n.
Proof.
  induction n as [|n IH]; [by rewrite Z.mod_1_r|].
  cbn [be_bytes be_val]. unfold len. rewrite length_be_bytes, IH, b2z_z2b.
  rewrite Nat2Z.inj_succ, Z.pow_succ_r by lia.
  rewrite (Z.mul_comm 256), Z.rem_mul_r by lia. lia.
Qed.
Lemma be_bytes_val l : be_bytes (length l) (be_val l) = l.
Proof.
  induction l as [|b l IH]; [done|]. cbn [be_bytes be_val length]. f_equal.
  - fold (len l). rewrite Z.div_add_l by (pose proof (len_nonneg l); lia).
    rewrite Z.div_small by apply be_val_range. by rewrite Z.add_0_r, z2b_b2z.
  - transitivity (be_bytes (length l) (be_val l)); [|done]. clear IH.
    assert (∀ n k, be_bytes n (k * 256 ^ Z.of_nat n + be_val l) = be_bytes n (be_val l)) as Hk.
    { induction n as [|n IHn]; intros k; [done|]. cbn [be_bytes].
      rewrite Nat2Z.inj_succ, Z.pow_succ_r, Z.mul_assoc by lia. rewrite IHn. f_equal.
      apply (inj b2z). rewrite !b2z_z2b, Z.div_add_l by lia.
      rewrite <- Z.add_mod_idemp_l, Z.mod_mul, Z.add_0_l by lia. done. }
    apply Hk.
Qed.

Lemma slice_app_r {E A} (l k m : list A) a b :
  a = len l → b = len l + len k → slice (E:=E) (l ++ k ++ m) a b = Ok k.
Proof.
  intros -> ->. unfold slice, len. rewrite decide_True by (rewrite !length_app; lia).
  f_equal. rewrite Nat2Z.id, drop_app_length.
  replace (Z.to_nat _) with (length k) by lia. apply take_app_length.
Qed.
Lemma slice_app {E A} (k m : list A) b : b = len k → slice (E:=E) (k ++ m) 0 b = Ok k.
Proof. intros ->. by apply (slice_app_r [] k m). Qed.
Lemma slice_Ok {E A} (l k : list A) a b :
  slice (E:=E) l a b = Ok k →
  ∃ l1 l2, l = l1 ++ k ++ l2 ∧ len l1 = a ∧ len k = b - a.
Proof.
  unfold slice, len. case_decide as H; [|done]. intros [= <-].
  exists (take (Z.to_nat a) l), (drop (Z.to_nat b) l). split; [|split].
  - replace (Z.to_nat b) with (Z.to_nat a + Z.to_nat (b - a))%nat by lia.
    by rewrite <- drop_drop, !take_drop.
  - rewrite length_take. lia.
  - rewrite length_take, length_drop. lia.
Qed.
Lemma slice_total {E A} (l : list A) a b :
  0 ≤ a ≤ b → b ≤ len l → ∃ k, slice (E:=E) l a b = Ok k ∧ len k = b - a.
Proof.
  intros. unfold slice, len in *. rewrite decide_True by lia. eexists; split; [done|].
  rewrite length_take, length_drop. lia.
Qed.
Lemma index_app {E A} (l m : list A) x i : i = len l → index (E:=E) (l ++ x :: m) i = Ok x.
Proof.
  intros ->. unfold index, len. rewrite decide_True by lia.
  rewrite Nat2Z.id. by rewrite list_lookup_middle.
Qed.
Lemma index_head {E A} (l : list A) x : index (E:=E) (x :: l) 0 = Ok x.
Proof. by apply (index_app []). Qed.
Lemma slice_suffix {E A} (pre rest : list A) :
  slice (E:=E) (pre ++ rest) (len pre) (len (pre ++ rest)) = Ok rest.
Proof.
  rewrite <- (app_nil_r rest) at 1. apply slice_app_r; [done|]. apply len_app.
Qed.
Lemma slice_tail {E A} (l : list A) x : slice (E:=E) (x :: l) 1 (len (x :: l)) = Ok l.
Proof. apply (slice_suffix [x]). Qed.
Lemma index_Ok {E A} (l : list A) x i :
  index (E:=E) l i = Ok x ↔ 0 ≤ i ∧ l !! Z.to_nat i = Some x.
Proof.
  unfold index. case_decide; [|naive_solver lia].
  destruct (l !! Z.to_nat i); cbn; naive_solver.
Qed.
Lemma index_total {E A} (l : list A) i : 0 ≤ i < len l → ∃ x, index (E:=E) l i = Ok x.
Proof.
  intros. unfold index, len in *. rewrite decide_True by lia.
  destruct (lookup_lt_is_Some_2 l (Z.to_nat i)) as [x ->]; [lia|]. by exists x.
Qed.
Lemma index_not_Err {E A} (l : list A) i (e : E) : index l i ≠ Err e.
Proof. unfold index. case_decide; [|done]. by destruct (l !! _). Qed.

(** [<[u8; n]>::try_from(slice)]. *)
Definition try_array (n : Z) (l : bytes) : option bytes :=
  if decide (len l = n) then Some l else None.

Lemma be_val_be_bytes_small n z :
  0 ≤ z < 256 ^ Z.of_nat n → be_val (be_bytes n z) = z.
Proof. intros. rewrite be_val_bytes. by apply Z.mod_small. Qed.

Lemma len_be_bytes n z : len (be_bytes n z) = Z.of_nat n.
Proof. unfold len. by rewrite length_be_bytes. Qed.

Lemma try_array_Some n l : len l = n → try_array n l = Some l.
Proof. intros. unfold try_array. by rewrite decide_True. Qed.

(** * Program logic *)

(** [triple P m Q]: from a state satisfying [P], the outcome and the final state
    of [m] satisfy [Q].  [Q] sees errors and panics too, so a triple states the
    error paths, and panic freedom when [Q Panic] is false. *)
Definition triple {S E A} (P : S → Prop) (m : ST S E A)
    (Q : outcome E A → S → Prop) : Prop :=
  ∀ s, P s → Q (m s).1 (m s).2.

Lemma triple_ret {S E A} (P : S → Prop) (a : A) (Q : outcome E A → S → Prop) :
  (∀ s, P s → Q (Ok a) s) → triple P (mret a) Q.
Proof. intros H s Hs. by apply H. Qed.
Lemma triple_bind {S E A B} (P : S → Prop) (m : ST S E A) (k : A → ST S E B)
    (R : A → S → Prop) (Q : outcome E B → S → Prop) :
  triple P m (λ r s, match r with
                     | Ok a => R a s
                     | Err e => Q (Err e) s
                     | Panic => Q Panic s
                     end) →
  (∀ a, triple (R a) (k a) Q) →
  triple P (m ≫= k) Q.
Proof.
  intros Hm Hk s Hs. specialize (Hm s Hs). unfold mbind, st_bind.
  destruct (m s) as [[a|e|] s']; cbn in *; [by apply Hk|done|done].
Qed.
Lemma triple_conseq {S E A} (P P' : S → Prop) (m : ST S E A)
    (Q Q' : outcome E A → S → Prop) :
  triple P' m Q' → (∀ s, P s → P' s) → (∀ r s, Q' r s → Q r s) → triple P m Q.
Proof. intros H HP HQ s Hs. apply HQ, H, HP, Hs. Qed.

Lemma bind_run {S E A B} (m : ST S E A) (k : A → ST S E B) s :
  (m ≫= k) s = match m s with
               | (Ok a, s') => k a s'
               | (Err e, s') => (Err e, s')
               | (Panic, s') => (Panic, s')
               end.
Proof. done. Qed.
Lemma run_lift {S E A B} (m : outcome E A) (k : A → ST S E B) s :
  (lift m ≫= k) s = match m with Ok a => k a s | Err e => (Err e, s) | Panic => (Panic, s) end.
Proof. done. Qed.
Lemma run_lift_Ok {S E A B} (m : outcome E A) (k : A → ST S E B) s a :
  m = Ok a → (lift m ≫= k) s = k a s.
Proof. by intros ->. Qed.
Lemma run_gets {S E A B} (f : S → A) (k : A → ST S E B) s : (gets f ≫= k) s = k (f s) s.
Proof. done. Qed.
Lemma run_modify {S E B} (f : S → S) (k : unit → ST S E B) s : (modify f ≫= k) s = k tt (f s).
Proof. done. Qed.
Lemma run_op {S E A B} (m : ST S E A) (k : A → ST S E B) s a s' :
  m s = (Ok a, s') → (m ≫= k) s = k a s'.
Proof. intros Hm. by rewrite bind_run, Hm. Qed.
Lemma bind_Ok {S E A B} (m : ST S E A) (k : A → ST S E B) s b s' :
  (m ≫= k) s = (Ok b, s') ↔ ∃ a s1, m s = (Ok a, s1) ∧ k a s1 = (Ok b, s').
Proof.
  unfold mbind, st_bind. destruct (m s) as [[a|e|] s1]; naive_solver.
Qed.
Lemma for_each_app {S E A} (f : A → ST S E unit) l k s :
  for_each f (l ++ k) s = (_ ← for_each f l; for_each f k) s.
Proof.
  revert s. induction l as [|x l IH]; intros s; [done|]. cbn [for_each app].
  unfold mbind, st_bind. destruct (f x s) as [[a|e|] s1]; [|done|done]. rewrite IH. done.
Qed.
Lemma obind_Ok {E A B} (m : outcome E A) (k : A → outcome E B) b :
  m ≫= k = Ok b ↔ ∃ a, m = Ok a ∧ k a = Ok b.
Proof. unfold mbind, outcome_bind. destruct m; naive_solver. Qed.
Lemma ok_or_Ok {E A} (o : option A) (e : E) a : ok_or o e = Ok a ↔ o = Some a.
Proof. destruct o; naive_solver. Qed.

(** * Safety of methods *)

(** [safe I F Q m]: from a state satisfying the invariant [I], [m] does not panic and
    restores [I]; a returned value satisfies [Q], a returned error satisfies [F]. *)
Definition safe {S E A} (I : S → Prop) (F : E → Prop) (Q : A → Prop) (m : ST S E A) : Prop :=
  ∀ s, I s → match m s with
             | (Ok a, s') => Q a ∧ I s'
             | (Err e, s') => F e ∧ I s'
             | (Panic, _) => False
             end.

Create HintDb safe.

Section safe.
Context {S E : Type} (I : S → Prop) (F : E → Prop).

Lemma safe_ret {A} (Q : A → Prop) (a : A) : Q a → safe I F Q (mret a).
Proof. intros Ha s Hs. done. Qed.
Lemma safe_fail {A} (Q : A → Prop) (e : E) : F e → safe I F Q (fail e).
Proof. intros He s Hs. done. Qed.
Lemma safe_bind {A B} (Q : A → Prop) (R : B → Prop) (m : ST S E A) (k : A → ST S E B) :
  safe I F Q m → (∀ a, Q a → safe I F R (k a)) → safe I F R (m ≫= k).
Proof.
  intros Hm Hk s Hs. specialize (Hm s Hs). rewrite bind_run.
  destruct (m s) as [[a|e|] s']; [|done..]. destruct Hm as [Ha Hs']. by apply Hk.
Qed.
Lemma safe_gets {A} (Q : A → Prop) (f : S → A) : (∀ s, I s → Q (f s)) → safe I F Q (gets f).
Proof. intros Hf s Hs. split; [by apply Hf|done]. Qed.
Lemma safe_modify (f : S → S) : (∀ s, I s → I (f s)) → safe I F (λ _, True) (modify f).
Proof. intros Hf s Hs. split; [done|by apply Hf]. Qed.
Lemma safe_lift {A} (Q : A → Prop) (m : outcome E A) :
  match m with Ok a => Q a | Err e => F e | Panic => False end → safe I F Q (lift m).
Proof. intros Hm s Hs. unfold lift. by destruct m. Qed.
Lemma safe_catch {A B} (Q : A → Prop) (G : E → Prop) (R : B → Prop) (m : ST S E A)
    (k : outcome E A → ST S E B) :
  safe I G Q m → (∀ a, Q a → safe I F R (k (Ok a))) → (∀ e, G e → safe I F R (k (Err e))) →
  safe I F R (catch m k).
Proof.
  intros Hm Hok Herr s Hs. specialize (Hm s Hs). unfold catch.
  destruct (m s) as [[a|e|] s']; [| |done]; destruct Hm as [Ha Hs'];
    [by apply Hok|by apply Herr].
Qed.
Lemma safe_conseq {A} (Q Q' : A → Prop) (m : ST S E A) :
  safe I F Q m → (∀ a, Q a → Q' a) → safe I F Q' m.
Proof. intros Hm HQ s Hs. specialize (Hm s Hs). destruct (m s) as [[a|e|] s']; naive_solver. Qed.
Lemma safe_for_each {A} (f : A → ST S E unit) (l : list A) :
  (∀ x, x ∈ l → safe I F (λ _, True) (f x)) → safe I F (λ _, True) (for_each f l).
Proof.
  induction l as [|x l IH]; intros Hf; [by apply safe_ret|]. cbn [for_each].
  apply (safe_bind (λ _, True)); [apply Hf, list_elem_of_here|].
  intros _ _. apply IH. intros y Hy. by apply Hf, list_elem_of_further.
Qed.
Lemma safe_zoom {T A} (J : T → Prop) (G : E → Prop) (Q : A → Prop) (get : S → T)
    (set : T → S → S) (m : ST T E A) :
  safe J G Q m → (∀ s, I s → J (get s)) → (∀ s t, I s → J t → I (set t s)) →
  (∀ e, G e → F e) → safe I F Q (zoom get set m).
Proof.
  intros Hm Hget Hset HF s Hs. specialize (Hm (get s) (Hget s Hs)). unfold zoom.
  destruct (m (get s)) as [[a|e|] t]; [..|done]; destruct Hm; auto.
Qed.
Lemma safe_infallible {A} (Q : A → Prop) (m : ST S Empty_set A) :
  safe I (λ _, False) Q m → safe I F Q (infallible m).
Proof. intros Hm s Hs. specialize (Hm s Hs). unfold infallible. by destruct (m s) as [[a|[]|] s']. Qed.
(** The rules above, read off a run. *)
Lemma safe_run {A} (Q : A → Prop) (m : ST S E A) s r s' :
  safe I F Q m → I s → m s = (r, s') →
  I s' ∧ match r with Ok a => Q a | Err e => F e | Panic => False end.
Proof. intros Hm Hs Hr. specialize (Hm s Hs). rewrite Hr in Hm. destruct r; naive_solver. Qed.
End safe.

#[export] Hint Resolve safe_ret safe_fail safe_gets safe_modify safe_lift : safe.

#[global] Arguments be_bytes : simpl never.
#[global] Arguments be_val : simpl never.
#[global] Arguments slice : simpl never.
#[global] Arguments index : simpl never.
#[global] Arguments wrap : simpl never.
#[global] Arguments len : simpl never.
