(* ===== verification/Blocks.v ===== *)
(** Block references and the rollup configuration
    (src/crates/primitives/src/blocks.rs, rollup_config.rs).

    Hashes and addresses are byte strings; [BlockNumHash] is alloy's pair of a
    block number and hash. *)
From S2P Require Import Prelude.
#[local] Open Scope Z_scope.

Abbreviation B256 := bytes (only parsing).
Abbreviation Address := bytes (only parsing).
Abbreviation Pubkey := bytes (only parsing).

Definition B256_ZERO : B256 := replicate 32 byte0.
Definition Address_ZERO : Address := replicate 20 byte0.

Record BlockNumHash := mkBlockNumHash {
  bnh_number : Z;
  bnh_hash : B256;
}.

Record BlockInfo := mkBlockInfo {
  bi_hash : B256;
  bi_number : Z;
  bi_parent_hash : B256;
  bi_timestamp : Z;
}.

(** [BlockInfo::id]. *)
Definition bi_id (self : BlockInfo) : BlockNumHash :=
  mkBlockNumHash (bi_number self) (bi_hash self).

Definition BlockInfo_default : BlockInfo := mkBlockInfo B256_ZERO 0 B256_ZERO 0.

Record L2BlockInfo := mkL2BlockInfo {
  l2_block_info : BlockInfo;
  l2_l1_origin : BlockNumHash;
  l2_seq_num : Z;
}.

(** The fields of an L1 transaction the data source reads. *)
Record L1Transaction := mkL1Transaction {
  l1tx_hash : B256;
  l1tx_from : Address;
  l1tx_input : bytes;
  l1tx_to : option Address;
}.

#[global] Instance block_num_hash_eq_dec : EqDecision BlockNumHash.
Proof. solve_decision. Defined.
#[global] Instance block_info_eq_dec : EqDecision BlockInfo.
Proof. solve_decision. Defined.
#[global] Instance l2_block_info_eq_dec : EqDecision L2BlockInfo.
Proof. solve_decision. Defined.

Record SoonRollupConfig := mkSoonRollupConfig {
  cfg_l1_chain_id : Z;
  cfg_max_sequencer_drift : Z;
  cfg_seq_window_size : Z;
  cfg_channel_timeout : Z;
  cfg_batch_inbox_address : Address;
  cfg_optimism_portal_address : Address;
  cfg_l1_system_config_address : Address;
  cfg_l1_standard_bridge : Address;
  cfg_l1_cross_domain_messenger : Address;
  cfg_derive_delay_l1_block_num : Z;
  cfg_max_frame_size : Z;
  cfg_channel_size : Z;
  cfg_block_time : Z;
  cfg_shred_version : option Z;
  cfg_genesis_hash : option bytes;
  cfg_upgrade_schedules : gmap string (option Z);
  cfg_sequencer_schedules : list (Z * Pubkey);
}.

(** [SoonRollupConfig::new_for_genesis]. *)
Definition new_for_genesis (l1_chain_id : Z) (l1_system_config_address : Address)
    (derive_delay_l1_block_num : Z) : SoonRollupConfig :=
  {| cfg_l1_chain_id := l1_chain_id;
     cfg_max_sequencer_drift := 86400;
     cfg_seq_window_size := 604800;
     cfg_channel_timeout := 1800;
     cfg_batch_inbox_address := Address_ZERO;
     cfg_optimism_portal_address := Address_ZERO;
     cfg_l1_system_config_address := l1_system_config_address;
     cfg_l1_standard_bridge := Address_ZERO;
     cfg_l1_cross_domain_messenger := Address_ZERO;
     cfg_derive_delay_l1_block_num := derive_delay_l1_block_num;
     cfg_max_frame_size := 2000000;
     cfg_channel_size := 30000000;
     cfg_block_time := 0;
     cfg_shred_version := None;
     cfg_genesis_hash := None;
     cfg_upgrade_schedules := ∅;
     cfg_sequencer_schedules := [] |}.

(** [mock_roll_up_config], the configuration of the repository's tests. *)
Definition mock_roll_up_config : SoonRollupConfig :=
  {| cfg_l1_chain_id := 11155111;
     cfg_max_sequencer_drift := 1800;
     cfg_seq_window_size := 1000;
     cfg_channel_timeout := 1800;
     cfg_batch_inbox_address := Address_ZERO;
     cfg_optimism_portal_address := Address_ZERO;
     cfg_l1_system_config_address := Address_ZERO;
     cfg_l1_standard_bridge := Address_ZERO;
     cfg_l1_cross_domain_messenger := Address_ZERO;
     cfg_derive_delay_l1_block_num := 0;
     cfg_max_frame_size := 0;
     cfg_channel_size := 300;
     cfg_block_time := 0;
     cfg_shred_version := None;
     cfg_genesis_hash := None;
     cfg_upgrade_schedules := ∅;
     cfg_sequencer_schedules := [] |}.
