(* ===== verification/Frame.v ===== *)
(** Channel frames and their wire format
    (src/crates/primitives/src/da/frame.rs).

    [Frame] is the record of the source, [encode], [decode] and [parse_frames]
    its codec.  The parser's loop runs with fuel one more than the length of its
    input; every decoded frame consumes at least 23 bytes, so the fuel is never
    exhausted ([parse_frames_iff] and [parse_frames_total]). *)
From S2P Require Import Prelude.
#[local] Open Scope Z_scope.

(** * Data *)

Definition DERIVATION_VERSION_0 : Z := 0.
Definition FRAME_OVERHEAD : Z := 200.
Definition BASE_FRAME_LEN : Z := 16 + 2 + 4 + 1.
Definition MAX_FRAME_LEN : Z := 10 * 1024 * 1024.

Abbreviation ChannelId := bytes (only parsing).

Inductive FrameDecodingError :=
| DataTooLarge (size : Z)
| DataTooShort (size : Z)
| InvalidId
| InvalidNumber
| InvalidDataLength.

Inductive FrameParseError :=
| FrameDecodingErr (e : FrameDecodingError)
| NoFrames
| UnsupportedVersion
| DataLengthMismatch
| NoFramesDecoded.

Record Frame := mkFrame {
  f_id : ChannelId;
  f_number : Z;
  f_data : bytes;
  f_is_last : bool;
}.

#[global] Instance frame_eq_dec : EqDecision Frame.
Proof. solve_decision. Defined.
#[global] Instance frame_decoding_error_eq_dec : EqDecision FrameDecodingError.
Proof. solve_decision. Defined.
#[global] Instance frame_parse_error_eq_dec : EqDecision FrameParseError.
Proof. solve_decision. Defined.

(** The values of the Rust type: a 16-byte identifier and a [u16] number. *)
Record frame_wf (f : Frame) : Prop := {
  frame_wf_id : len (f_id f) = 16;
  frame_wf_number : is_u16 (f_number f);
}.

(** A frame as the parser produces it. *)
Definition frame_valid (f : Frame) : Prop :=
  frame_wf f ∧ len (f_data f) <= MAX_FRAME_LEN.

(** * Operations *)

(** [bool as u8]. *)
Definition u8_of_bool (b : bool) : byte := if b then byte1 else byte0.

Definition encode (self : Frame) : bytes :=
  f_id self
  ++ be_bytes 2 (f_number self)
  ++ be_bytes 4 (wrap 32 (len (f_data self)))
  ++ f_data self
  ++ [u8_of_bool (f_is_last self)].

Definition decode (encoded : bytes) : outcome FrameDecodingError (Z * Frame) :=
  if decide (len encoded < BASE_FRAME_LEN) then Err (DataTooShort (len encoded))
  else
    id_slice ← slice encoded 0 16;
    id ← ok_or (try_array 16 id_slice) InvalidId;
    number_slice ← slice encoded 16 18;
    number ← ok_or (try_array 2 number_slice) InvalidNumber;
    data_len_slice ← slice encoded 18 22;
    data_len_bytes ← ok_or (try_array 4 data_len_slice) InvalidDataLength;
    let data_len := be_val data_len_bytes in
    if decide (data_len > MAX_FRAME_LEN ∨ data_len >= len encoded - (BASE_FRAME_LEN - 1))
    then Err (DataTooLarge data_len)
    else
      data ← slice encoded 22 (22 + data_len);
      last ← index encoded (22 + data_len);
      Ok (BASE_FRAME_LEN + data_len,
          mkFrame id (be_val number) data (bool_decide (b2z last = 1))).

Definition parse_frame (data : bytes) (start : Z) : outcome FrameDecodingError (Z * Frame) :=
  rest ← slice data start (len data);
  '(frame_len, frame) ← decode rest;
  Ok (frame_len, frame).

(** The [while offset < data.len()] loop; [frames] is the vector built so far. *)
Fixpoint parse_frames_loop (fuel : nat) (data : bytes) (offset : Z) (frames : list Frame)
    : outcome FrameParseError (Z * list Frame) :=
  match fuel with
  | O => Panic
  | S fuel =>
      if decide (offset < len data) then
        rest ← slice data offset (len data);
        '(frame_length, frame) ← map_err FrameDecodingErr (decode rest);
        parse_frames_loop fuel data (offset + frame_length) (frames ++ [frame])
      else Ok (offset, frames)
  end.

Definition parse_frames (encoded : bytes) : outcome FrameParseError (list Frame) :=
  if decide (encoded = []) then Err NoFrames
  else
    version ← index encoded 0;
    if decide (b2z version ≠ DERIVATION_VERSION_0) then Err UnsupportedVersion
    else
      data ← slice encoded 1 (len encoded);
      '(offset, frames) ← parse_frames_loop (S (length data)) data 0 [];
      if decide (offset ≠ len data) then Err DataLengthMismatch
      else if decide (frames = []) then Err NoFramesDecoded
      else Ok frames.

Definition size (self : Frame) : Z := len (f_data self) + FRAME_OVERHEAD.

(** * The wire format as a relation *)

(** [frame_chunk c f]: the bytes [c] are an encoding of [f].  The closing byte of
    a frame that is not the last one may be any byte other than 1. *)
Record frame_chunk (c : bytes) (f : Frame) : Prop := {
  chunk_wf : frame_wf f;
  chunk_len : len (f_data f) ≤ MAX_FRAME_LEN;
  chunk_bytes : ∃ b, c = f_id f ++ be_bytes 2 (f_number f)
                         ++ be_bytes 4 (len (f_data f)) ++ f_data f ++ [b]
                     ∧ f_is_last f = bool_decide (b2z b = 1);
}.

Lemma chunk_size c f : frame_chunk c f → len c = BASE_FRAME_LEN + len (f_data f).
Proof.
  intros [[Hid _] _ (b & -> & _)]. rewrite !len_app, Hid, !len_cons, len_nil.
  unfold len. rewrite !length_be_bytes. unfold BASE_FRAME_LEN. lia.
Qed.

Lemma encode_chunk f :
  frame_wf f → len (f_data f) ≤ MAX_FRAME_LEN → frame_chunk (encode f) f.
Proof.
  intros Hwf Hlen. split; [done..|]. exists (u8_of_bool (f_is_last f)). split.
  - unfold encode. rewrite wrap_small; [done|].
    unfold in_width, MAX_FRAME_LEN in *. pose proof (len_nonneg (f_data f)). lia.
  - by destruct (f_is_last f).
Qed.

(** The pieces of [decode], as one equation. *)
Lemma decode_eq (id number dlen rest : bytes) :
  len id = 16 → len number = 2 → len dlen = 4 → rest ≠ [] →
  decode (id ++ number ++ dlen ++ rest) =
    if decide (be_val dlen > MAX_FRAME_LEN ∨ be_val dlen >= len rest)
    then Err (DataTooLarge (be_val dlen))
    else
      data ← slice rest 0 (be_val dlen);
      last ← index rest (be_val dlen);
      Ok (BASE_FRAME_LEN + be_val dlen,
          mkFrame id (be_val number) data (bool_decide (b2z last = 1))).
Proof.
  intros Hid Hnum Hdlen Hrest. unfold decode.
  assert (0 < len rest) as Hpos.
  { destruct rest; [done|]. rewrite len_cons. pose proof (len_nonneg rest). lia. }
  assert (len (id ++ number ++ dlen ++ rest) = 22 + len rest) as Hlen.
  { rewrite !len_app. lia. }
  rewrite decide_False by (unfold BASE_FRAME_LEN; lia).
  rewrite (slice_app id _ 16) by lia. cbn. rewrite (try_array_Some 16 id) by done. cbn.
  rewrite (slice_app_r id number _ 16 18) by lia. cbn. rewrite (try_array_Some 2 number) by done. cbn.
  rewrite (app_assoc id number (dlen ++ rest)).
  rewrite (slice_app_r (id ++ number) dlen _ 18 22) by (rewrite ?len_app; lia).
  cbn. rewrite (try_array_Some 4 dlen) by done. cbn.
  replace (len ((id ++ number) ++ dlen ++ rest) - (BASE_FRAME_LEN - 1)) with (len rest)
    by (rewrite <- app_assoc, Hlen; unfold BASE_FRAME_LEN; lia).
  case_decide as Hc; [done|].
  pose proof (be_val_range dlen) as Hv.
  assert (be_val dlen < len rest) as Hb by lia.
  rewrite (app_assoc _ dlen rest).
  set (pre := (id ++ number) ++ dlen).
  assert (len pre = 22) as Hpre by (unfold pre; rewrite !len_app; lia).
  assert (slice (E:=FrameDecodingError) (pre ++ rest) 22 (22 + be_val dlen)
          = slice rest 0 (be_val dlen)) as ->.
  { unfold slice. rewrite len_app. rewrite !decide_True by lia. do 2 f_equal.
    - lia.
    - rewrite drop_0. unfold len in Hpre. rewrite drop_app_ge by lia.
      replace (Z.to_nat 22 - length pre)%nat with 0%nat by lia. by rewrite drop_0. }
  assert (index (E:=FrameDecodingError) (pre ++ rest) (22 + be_val dlen)
          = index rest (be_val dlen)) as ->; [|done].
  unfold index. rewrite !decide_True by lia. f_equal. unfold len in Hpre.
  rewrite lookup_app_r by lia. f_equal. lia.
Qed.

Lemma decode_chunk_app c f rest :
  frame_chunk c f → decode (c ++ rest) = Ok (len c, f).
Proof.
  intros Hc. pose proof (chunk_size c f Hc) as Hsz.
  destruct Hc as [[Hid Hnum] Hlen (b & -> & Hlast)].
  rewrite Hsz. clear Hsz.
  repeat rewrite <- app_assoc.
  pose proof (len_nonneg (f_data f)).
  assert (be_val (be_bytes 4 (len (f_data f))) = len (f_data f)) as Hbv.
  { apply be_val_be_bytes_small. unfold MAX_FRAME_LEN in *. change (256 ^ Z.of_nat 4) with 4294967296. lia. }
  rewrite decode_eq by (rewrite ?len_be_bytes; try done; destruct (f_data f); done).
  rewrite Hbv. rewrite decide_False.
  2:{ rewrite !len_app, len_cons. pose proof (len_nonneg rest). rewrite len_nil. lia. }
  rewrite slice_app by done. cbn.
  change ([b] ++ rest) with (b :: rest). rewrite index_app by done. cbn.
  rewrite be_val_be_bytes_small by (unfold in_width in Hnum; change (256 ^ Z.of_nat 2) with (2 ^ 16); lia).
  rewrite <- Hlast. by destruct f.
Qed.

Lemma decode_Ok_chunk e n f :
  decode e = Ok (n, f) → ∃ c rest, e = c ++ rest ∧ frame_chunk c f ∧ n = len c.
Proof.
  intros Hd. assert (22 < len e) as Hlen.
  { unfold decode in Hd. case_decide; [done|]. unfold BASE_FRAME_LEN in *. lia. }
  destruct (slice_total (E:=unit) e 0 16) as (id & Hid & Hidl); [lia..|].
  apply slice_Ok in Hid as (l0 & e1 & -> & Hl0 & _). apply len_zero_nil in Hl0 as ->.
  cbn [app] in *. rewrite len_app in Hlen.
  destruct (slice_total (E:=unit) e1 0 2) as (nu & Hnu & Hnul); [lia..|].
  apply slice_Ok in Hnu as (l0 & e2 & -> & Hl0 & _). apply len_zero_nil in Hl0 as ->.
  cbn [app] in *. rewrite len_app in Hlen.
  destruct (slice_total (E:=unit) e2 0 4) as (dl & Hdl & Hdll); [lia..|].
  apply slice_Ok in Hdl as (l0 & e3 & -> & Hl0 & _). apply len_zero_nil in Hl0 as ->.
  cbn [app] in *. rewrite len_app in Hlen.
  rewrite decode_eq in Hd by (try lia; intros ->; rewrite len_nil in Hlen; lia).
  case_decide as Hc; [done|].
  apply obind_Ok in Hd as (data & Hdata & Hd).
  apply obind_Ok in Hd as (last & Hlast & [= <- <-]).
  pose proof (be_val_range dl). pose proof (be_val_range nu).
  apply slice_Ok in Hdata as (l0 & e4 & -> & Hl0 & Hdlen). apply len_zero_nil in Hl0 as ->.
  cbn [app] in *. apply index_Ok in Hlast as [_ Hlast].
  assert (∃ e5, e4 = last :: e5) as [e5 ->].
  { rewrite lookup_app_r in Hlast by (unfold len in *; lia).
    replace (_ - _)%nat with 0%nat in Hlast by (unfold len in *; lia).
    destruct e4; naive_solver. }
  assert (len data = be_val dl) as Hdata by lia.
  exists (id ++ nu ++ dl ++ data ++ [last]), e5. split; [|split].
  - by rewrite <- !app_assoc.
  - split; cbn.
    + split; cbn; [lia|]. unfold in_width. change (2 ^ 16) with (256 ^ 2).
      rewrite Hnul in *. done.
    + lia.
    + exists last. split; [|done]. rewrite Hdata.
      replace (be_bytes 2 (be_val nu)) with nu
        by (rewrite <- (be_bytes_val nu) at 1; f_equal; unfold len in *; lia).
      replace (be_bytes 4 (be_val dl)) with dl
        by (rewrite <- (be_bytes_val dl) at 1; f_equal; unfold len in *; lia).
      done.
  - rewrite !len_app, len_cons, len_nil. unfold BASE_FRAME_LEN. lia.
Qed.

Lemma decode_not_Panic e : decode e ≠ Panic.
Proof.
  unfold decode. case_decide as Hs; [done|]. unfold BASE_FRAME_LEN in *.
  destruct (slice_total (E:=FrameDecodingError) e 0 16) as (? & -> & ?); [lia..|].
  cbn. rewrite try_array_Some by lia. cbn.
  destruct (slice_total (E:=FrameDecodingError) e 16 18) as (? & -> & ?); [lia..|].
  cbn. rewrite try_array_Some by lia. cbn.
  destruct (slice_total (E:=FrameDecodingError) e 18 22) as (dl & -> & ?); [lia..|].
  cbn. rewrite try_array_Some by lia. cbn.
  case_decide; [done|]. pose proof (be_val_range dl).
  destruct (slice_total (E:=FrameDecodingError) e 22 (22 + be_val dl)) as (? & -> & ?); [lia..|].
  cbn. destruct (index_total (E:=FrameDecodingError) e (22 + be_val dl)) as (? & ->); [lia|]. done.
Qed.

(** * The parser's loop *)

Lemma parse_frames_loop_chunks fuel pre chunks fs acc :
  Forall2 frame_chunk chunks fs →
  (length (concat chunks) < fuel)%nat →
  parse_frames_loop fuel (pre ++ concat chunks) (len pre) acc
  = Ok (len (pre ++ concat chunks), acc ++ fs).
Proof.
  intros Hall. revert fuel pre acc.
  induction Hall as [|c f chunks fs Hc Hall IH]; intros fuel pre acc Hfuel;
    (destruct fuel as [|fuel]; [lia|]); cbn [parse_frames_loop concat].
  - rewrite decide_False by (rewrite len_app, len_nil; lia). by rewrite !app_nil_r.
  - pose proof (chunk_size c f Hc) as Hsz. pose proof (len_nonneg (f_data f)).
    pose proof (len_nonneg (concat chunks)). unfold BASE_FRAME_LEN in Hsz.
    rewrite decide_True by (rewrite !len_app; lia).
    rewrite slice_suffix. cbn. rewrite (decode_chunk_app c f) by done. cbn.
    rewrite (app_assoc pre c), <- len_app. rewrite IH.
    + by rewrite <- !app_assoc.
    + cbn in Hfuel. rewrite length_app in Hfuel. unfold len in *. lia.
Qed.

Lemma parse_frames_loop_Ok fuel pre rest acc n fs :
  parse_frames_loop fuel (pre ++ rest) (len pre) acc = Ok (n, fs) →
  ∃ chunks fs', rest = concat chunks ∧ fs = acc ++ fs' ∧ Forall2 frame_chunk chunks fs'.
Proof.
  revert pre rest acc. induction fuel as [|fuel IH]; intros pre rest acc; [done|].
  cbn [parse_frames_loop]. case_decide as Hlt.
  - rewrite slice_suffix. cbn. destruct (decode rest) as [[m f]|e|] eqn:Hd; cbn; [|done|done].
    apply decode_Ok_chunk in Hd as (c & rest' & -> & Hc & ->).
    rewrite app_assoc, <- len_app. intros HH. apply IH in HH as (chunks & fs' & -> & -> & Hall).
    exists (c :: chunks), (f :: fs'). rewrite <- app_assoc. split_and!; [done|done|].
    by constructor.
  - intros [= <- <-]. exists [], []. split_and!; [|by rewrite app_nil_r|done].
    rewrite len_app in Hlt. pose proof (len_nonneg rest). apply len_zero_nil. lia.
Qed.

Lemma parse_frames_loop_not_Panic fuel pre rest acc :
  (length rest < fuel)%nat → parse_frames_loop fuel (pre ++ rest) (len pre) acc ≠ Panic.
Proof.
  revert pre rest acc. induction fuel as [|fuel IH]; intros pre rest acc Hf; [lia|].
  cbn [parse_frames_loop]. case_decide as Hlt; [|done].
  rewrite slice_suffix. cbn. destruct (decode rest) as [[m f]|e|] eqn:Hd; cbn.
  - apply decode_Ok_chunk in Hd as (c & rest' & -> & Hc & ->).
    rewrite app_assoc, <- len_app. apply IH. rewrite length_app in Hf.
    pose proof (chunk_size c f Hc). pose proof (len_nonneg (f_data f)).
    unfold BASE_FRAME_LEN, len in *. lia.
  - done.
  - by apply decode_not_Panic in Hd.
Qed.

(** [decode] fails only on inputs shorter than an empty frame and on length
    fields that exceed the limit or the input. *)
Definition decode_error (e : bytes) (err : FrameDecodingError) : Prop :=
  match err with
  | DataTooShort n => n = len e ∧ len e < BASE_FRAME_LEN
  | DataTooLarge n =>
      ∃ pre dlen rest, e = pre ++ dlen ++ rest ∧ len pre = 18 ∧ len dlen = 4 ∧ rest ≠ []
        ∧ n = be_val dlen ∧ (MAX_FRAME_LEN < n ∨ len rest <= n)
  | _ => False
  end.

Lemma decode_Err e err : decode e = Err err → decode_error e err.
Proof.
  unfold decode. case_decide as Hs; [by intros [= <-]|]. unfold BASE_FRAME_LEN in *.
  destruct (slice_total (E:=FrameDecodingError) e 0 16) as (? & -> & ?); [lia..|].
  cbn. rewrite try_array_Some by lia. cbn.
  destruct (slice_total (E:=FrameDecodingError) e 16 18) as (? & -> & ?); [lia..|].
  cbn. rewrite try_array_Some by lia. cbn.
  destruct (slice_total (E:=FrameDecodingError) e 18 22) as (dl & Hdl & ?); [lia..|].
  rewrite Hdl. cbn. rewrite try_array_Some by lia. cbn.
  apply slice_Ok in Hdl as (pre & rest & -> & Hpre & _). rewrite !len_app in *.
  pose proof (be_val_range dl).
  case_decide as Hc.
  - intros [= <-]. exists pre, dl, rest. split_and!; [done|done|lia| |done|lia].
    intros ->. rewrite len_nil in *. lia.
  - rewrite !app_assoc in *.
    destruct (slice_total (E:=FrameDecodingError) ((pre ++ dl) ++ rest) 22 (22 + be_val dl))
      as (? & -> & ?); [rewrite ?len_app; lia..|].
    cbn. destruct (index_total (E:=FrameDecodingError) ((pre ++ dl) ++ rest) (22 + be_val dl))
      as (? & ->); [rewrite ?len_app; lia|]. done.
Qed.

Lemma parse_frames_loop_offset fuel pre rest acc n fs :
  parse_frames_loop fuel (pre ++ rest) (len pre) acc = Ok (n, fs) → n = len (pre ++ rest).
Proof.
  revert pre rest acc. induction fuel as [|fuel IH]; intros pre rest acc; [done|].
  cbn [parse_frames_loop]. case_decide as Hlt.
  - rewrite slice_suffix. cbn. destruct (decode rest) as [[m f]|e|] eqn:Hd; cbn; [|done|done].
    apply decode_Ok_chunk in Hd as (c & rest' & -> & Hc & ->).
    rewrite app_assoc, <- len_app. apply IH.
  - intros [= <- _]. rewrite len_app in *. pose proof (len_nonneg rest). lia.
Qed.

Lemma parse_frames_loop_Err fuel pre rest acc err :
  parse_frames_loop fuel (pre ++ rest) (len pre) acc = Err err →
  ∃ chunks fs rest' d, rest = concat chunks ++ rest' ∧ Forall2 frame_chunk chunks fs
    ∧ rest' ≠ [] ∧ err = FrameDecodingErr d ∧ decode_error rest' d.
Proof.
  revert pre rest acc. induction fuel as [|fuel IH]; intros pre rest acc; [done|].
  cbn [parse_frames_loop]. case_decide as Hlt; [|done].
  rewrite slice_suffix. cbn. destruct (decode rest) as [[m f]|e|] eqn:Hd; cbn; [| |done].
  - apply decode_Ok_chunk in Hd as (c & rest' & -> & Hc & ->).
    rewrite app_assoc, <- len_app. intros HH.
    apply IH in HH as (chunks & fs & r & d & -> & Hall & Hr & -> & Hdec).
    exists (c :: chunks), (f :: fs), r, d. cbn. rewrite app_assoc.
    split_and!; [done|by constructor|done..].
  - intros [= <-]. exists [], [], rest, e. split_and!; [done..| |done|by apply decode_Err].
    intros ->. rewrite app_nil_r in Hlt. lia.
Qed.

(** After the version byte, [parse_frames] is its loop. *)
Lemma parse_frames_version data :
  parse_frames (byte0 :: data) =
    '(offset, frames) ← parse_frames_loop (S (length data)) data 0 [];
    if decide (offset ≠ len data) then Err DataLengthMismatch
    else if decide (frames = []) then Err NoFramesDecoded
    else Ok frames.
Proof.
  unfold parse_frames. rewrite decide_False by done.
  rewrite index_head. cbn. rewrite decide_False by (intros Hn; by apply Hn).
  rewrite slice_tail.
  done.
Qed.

Lemma b2z_zero b : b2z b = 0 ↔ b = byte0.
Proof. split; [|by intros ->]. intros H. by apply (inj b2z). Qed.

(** * Theorems *)

Lemma parse_frames_chunks (encoded : bytes) (frames : list Frame) :
  parse_frames encoded = Ok frames ↔
  frames ≠ [] ∧
  ∃ chunks, encoded = byte0 :: concat chunks ∧ Forall2 frame_chunk chunks frames.
Proof.
  split.
  - intros Hp. assert (∃ data, encoded = byte0 :: data) as [data ->].
    { unfold parse_frames in Hp. case_decide; [done|]. destruct encoded as [|b e]; [done|].
      rewrite index_head in Hp. cbn in Hp.
      case_decide as Hv; [done|]. apply b2z_zero in Hv as ->. by exists e. }
    rewrite parse_frames_version in Hp.
    apply obind_Ok in Hp as ([n fs] & Hloop & Hp).
    apply (parse_frames_loop_Ok _ []) in Hloop as (chunks & fs' & -> & -> & Hall).
    case_decide; [done|]. case_decide as Hne; [done|]. injection Hp as <-.
    split; [done|]. by exists chunks.
  - intros (Hne & chunks & -> & Hall). rewrite parse_frames_version.
    rewrite (parse_frames_loop_chunks _ [] chunks frames []) by (done || lia). cbn.
    rewrite decide_False by lia. by rewrite decide_False.
Qed.

(** [parse_frames] accepts exactly the byte strings that are the version byte 0
    followed by the encodings of at least one well-formed frame of at most 10 MB,
    back to back with nothing left over, and returns those frames in order. *)
Theorem parse_frames_iff (encoded : bytes) (frames : list Frame) :
  parse_frames encoded = Ok frames ↔
  frames ≠ [] ∧
  ∃ chunks, encoded = byte0 :: concat chunks ∧ Forall2 frame_chunk chunks frames.
Proof. apply parse_frames_chunks. Qed.

Lemma parse_frames_valid encoded frames :
  parse_frames encoded = Ok frames → Forall frame_valid frames.
Proof.
  intros (_ & chunks & _ & Hall)%parse_frames_chunks. clear encoded.
  induction Hall as [|c fr cs fs [Hwf Hlen _] _ IH]; constructor; done.
Qed.

(** Round trip: the frames a batcher encodes after the version byte are parsed
    back unchanged, in order, whatever their contents, as long as they respect the
    10 MB limit. *)
Theorem parse_frames_encode (frames : list Frame) :
  frames ≠ [] →
  Forall (λ f, frame_wf f ∧ len (f_data f) <= MAX_FRAME_LEN) frames →
  parse_frames (z2b DERIVATION_VERSION_0 :: concat (map encode frames)) = Ok frames.
Proof.
  intros Hne Hall. apply parse_frames_chunks. split; [done|].
  exists (map encode frames). split; [done|]. clear Hne.
  induction Hall as [|f fs [Hwf Hlen] _ IH]; constructor; [by apply encode_chunk|done].
Qed.

Lemma parse_frames_outcome (encoded : bytes) :
  match parse_frames encoded with
  | Ok frames => frames ≠ []
  | Err NoFrames => encoded = []
  | Err UnsupportedVersion => ∃ b rest, encoded = b :: rest ∧ b2z b ≠ DERIVATION_VERSION_0
  | Err NoFramesDecoded => encoded = [byte0]
  | Err DataLengthMismatch => False
  | Err (FrameDecodingErr d) =>
      ∃ chunks frames rest, encoded = byte0 :: concat chunks ++ rest
        ∧ Forall2 frame_chunk chunks frames ∧ rest ≠ [] ∧ decode_error rest d
  | Panic => False
  end.
Proof.
  destruct encoded as [|b data]; [done|].
  destruct (decide (b = byte0)) as [->|Hb].
  2:{ assert (parse_frames (b :: data) = Err UnsupportedVersion) as ->.
      { unfold parse_frames. rewrite decide_False by done.
        rewrite index_head. cbn. rewrite decide_True; [done|].
        unfold DERIVATION_VERSION_0. by rewrite b2z_zero. }
      exists b, data. unfold DERIVATION_VERSION_0. by rewrite b2z_zero. }
  rewrite parse_frames_version.
  destruct (parse_frames_loop _ data 0 []) as [[n fs]|err|] eqn:Hloop; cbn.
  - pose proof (parse_frames_loop_offset _ [] _ _ _ _ Hloop) as ->. cbn.
    rewrite decide_False by lia.
    apply (parse_frames_loop_Ok _ []) in Hloop as (chunks & fs' & -> & -> & Hall).
    case_decide as Hfs; cbn in *; [|done]. subst. by inversion Hall.
  - apply (parse_frames_loop_Err _ []) in Hloop
      as (chunks & fs & rest & d & -> & Hall & Hr & -> & Hdec). by exists chunks, fs, rest.
  - revert Hloop. apply (parse_frames_loop_not_Panic _ []). lia.
Qed.

Lemma parse_frames_not_Panic encoded : parse_frames encoded ≠ Panic.
Proof. intros H. pose proof (parse_frames_outcome encoded) as Hp. by rewrite H in Hp. Qed.

(** [parse_frames] is total: it never panics and its loop always terminates
    within its fuel.  Each error value says what is wrong with the input, and
    [DataLengthMismatch] is never returned. *)
Theorem parse_frames_total (encoded : bytes) :
  match parse_frames encoded with
  | Ok frames => frames ≠ []
  | Err NoFrames => encoded = []
  | Err UnsupportedVersion => ∃ b rest, encoded = b :: rest ∧ b2z b ≠ DERIVATION_VERSION_0
  | Err NoFramesDecoded => encoded = [byte0]
  | Err DataLengthMismatch => False
  | Err (FrameDecodingErr d) =>
      ∃ chunks frames rest, encoded = byte0 :: concat chunks ++ rest
        ∧ Forall2 frame_chunk chunks frames ∧ rest ≠ [] ∧ decode_error rest d
  | Panic => False
  end.
Proof. apply parse_frames_outcome. Qed.

(** ** Witnesses *)

Definition example_frames : list Frame :=
  [ mkFrame (replicate 16 (z2b 255)) 57005 [z2b 171; byte0; z2b 255] false;
    mkFrame (replicate 16 (z2b 255)) 57006 [] true ].

Lemma parse_frames_encode_witness :
  example_frames ≠ []
  ∧ parse_frames (z2b DERIVATION_VERSION_0 :: concat (map encode example_frames))
    = Ok example_frames.
Proof.
  split; [done|]. apply parse_frames_encode; [done|].
  repeat constructor; vm_compute; congruence.
Defined.
