(* ===== verification/Channel.v ===== *)
(** Channels: sets of frames that are reassembled out of order
    (src/crates/primitives/src/da/channel.rs).

    [Channel] is the record of the source with its [HashMap<u16, Frame>] as a
    [gmap]; [add_frame], [is_ready] and [frame_data] are its operations.
    [channel_wf] is the invariant of every reachable channel, and
    [channel_any_order] the end-to-end contract of the component. *)
From S2P Require Import Prelude Blocks Frame.
#[local] Open Scope Z_scope.

(** * Data *)

Definition CHANNEL_ID_LENGTH : Z := 16.
Definition MAX_RLP_BYTES_PER_CHANNEL : Z := 10000000.
Definition FJORD_MAX_RLP_BYTES_PER_CHANNEL : Z := 100000000.

Inductive ChannelError :=
| FrameIdMismatch
| ChannelClosed
| FrameNumberExists (n : Z)
| FrameBeyondEndFrame (n : Z).

#[global] Instance channel_error_eq_dec : EqDecision ChannelError.
Proof. solve_decision. Defined.

Record Channel := mkChannel {
  c_id : ChannelId;
  c_open_block : BlockInfo;
  c_estimated_size : Z;
  c_closed : bool;
  c_highest_frame_number : Z;
  c_last_frame_number : Z;
  c_inputs : gmap Z Frame;
  c_highest_l1_inclusion_block : BlockInfo;
}.

(** * Operations *)

Definition new (id : ChannelId) (open_block : BlockInfo) : Channel :=
  {| c_id := id;
     c_open_block := open_block;
     c_estimated_size := 0;
     c_closed := false;
     c_highest_frame_number := 0;
     c_last_frame_number := 0;
     c_inputs := ∅;
     c_highest_l1_inclusion_block := BlockInfo_default |}.

(** The [retain] closure run on every buffered frame when the closing frame is
    below the highest one: it subtracts the size of each frame it visits from the
    estimate and keeps the frames below the closing one. *)
Definition retain_below (last : Z) (self : Channel) : Channel :=
  {| c_id := c_id self;
     c_open_block := c_open_block self;
     c_estimated_size :=
       map_fold (λ _ frame acc, wrap 64 (acc - Frame.size frame))
                (c_estimated_size self) (c_inputs self);
     c_closed := c_closed self;
     c_highest_frame_number := last;
     c_last_frame_number := c_last_frame_number self;
     c_inputs := filter (λ kv, kv.1 < last) (c_inputs self);
     c_highest_l1_inclusion_block := c_highest_l1_inclusion_block self |}.

(** The [if frame.is_last] block of [add_frame]. *)
Definition close_at (number : Z) (self : Channel) : Channel :=
  let self :=
    {| c_id := c_id self;
       c_open_block := c_open_block self;
       c_estimated_size := c_estimated_size self;
       c_closed := true;
       c_highest_frame_number := c_highest_frame_number self;
       c_last_frame_number := number;
       c_inputs := c_inputs self;
       c_highest_l1_inclusion_block := c_highest_l1_inclusion_block self |} in
  if decide (c_last_frame_number self < c_highest_frame_number self)
  then retain_below (c_last_frame_number self) self
  else self.

(** The rest of [add_frame], on an admissible frame. *)
Definition buffer_frame (frame : Frame) (l1_inclusion_block : BlockInfo) (self : Channel)
    : Channel :=
  {| c_id := c_id self;
     c_open_block := c_open_block self;
     c_estimated_size := wrap 64 (c_estimated_size self + Frame.size frame);
     c_closed := c_closed self;
     c_highest_frame_number :=
       if decide (f_number frame > c_highest_frame_number self)
       then f_number frame else c_highest_frame_number self;
     c_last_frame_number := c_last_frame_number self;
     c_inputs := <[f_number frame := frame]> (c_inputs self);
     c_highest_l1_inclusion_block :=
       if decide (bi_number (c_highest_l1_inclusion_block self) < bi_number l1_inclusion_block)
       then l1_inclusion_block else c_highest_l1_inclusion_block self |}.

Definition add_frame (frame : Frame) (l1_inclusion_block : BlockInfo)
    : ST Channel ChannelError unit := λ self,
  if decide (f_id frame ≠ c_id self) then (Err FrameIdMismatch, self)
  else if f_is_last frame && c_closed self then (Err ChannelClosed, self)
  else if decide (is_Some (c_inputs self !! f_number frame))
  then (Err (FrameNumberExists (f_number frame)), self)
  else if c_closed self && bool_decide (f_number frame >= c_last_frame_number self)
  then (Err (FrameBeyondEndFrame (f_number frame)), self)
  else
    let self := if f_is_last frame then close_at (f_number frame) self else self in
    (Ok tt, buffer_frame frame l1_inclusion_block self).

Definition open_block_number (self : Channel) : Z := bi_number (c_open_block self).

Definition size (self : Channel) : Z := c_estimated_size self.

(** [self.last_frame_number + 1] is computed in [u16]. *)
Definition is_ready (self : Channel) : bool :=
  if negb (c_closed self) then false
  else if decide (Z.of_nat (base.size (c_inputs self)) ≠ wrap 16 (c_last_frame_number self + 1))
  then false
  else forallb (λ i, bool_decide (is_Some (c_inputs self !! i)))
               (seqZ 0 (c_last_frame_number self + 1)).

Definition frame_data (self : Channel) : option bytes :=
  foldl (λ acc i, data ← acc; frame ← c_inputs self !! i; Some (data ++ f_data frame))
        (Some []) (seqZ 0 (c_last_frame_number self + 1)).

(** * The invariant *)

(** What the buffered frames actually occupy. *)
Definition total_size (m : gmap Z Frame) : Z :=
  map_fold (λ _ f acc, acc + Frame.size f) 0 m.

Record channel_wf (c : Channel) : Prop := {
  wf_inputs : ∀ n f, c_inputs c !! n = Some f →
    f_number f = n ∧ f_id f = c_id c ∧ frame_valid f;
  wf_highest : ∀ n f, c_inputs c !! n = Some f → n <= c_highest_frame_number c;
  wf_open : c_closed c = false →
    c_last_frame_number c = 0 ∧
    (∀ n f, c_inputs c !! n = Some f → f_is_last f = false);
  wf_closed : c_closed c = true →
    (∀ n f, c_inputs c !! n = Some f →
       n <= c_last_frame_number c ∧ f_is_last f = bool_decide (n = c_last_frame_number c)) ∧
    is_Some (c_inputs c !! c_last_frame_number c);
  wf_size_open : c_closed c = false → c_estimated_size c = total_size (c_inputs c);
  wf_size_le : 0 <= c_estimated_size c <= total_size (c_inputs c);
}.

(** ** Sizes *)

Lemma frame_size_range f : frame_valid f → FRAME_OVERHEAD <= Frame.size f <= MAX_FRAME_LEN + FRAME_OVERHEAD.
Proof. intros [_ H]. unfold Frame.size. pose proof (len_nonneg (f_data f)). lia. Qed.

Lemma total_size_empty : total_size ∅ = 0.
Proof. apply map_fold_empty. Qed.

Lemma total_size_insert m n f :
  m !! n = None → total_size (<[n := f]> m) = Frame.size f + total_size m.
Proof.
  intros Hn. unfold total_size. rewrite map_fold_insert_L; [lia|intros; lia|done].
Qed.

Lemma wrap_sub_comm y a b : wrap 64 (wrap 64 (y - a) - b) = wrap 64 (wrap 64 (y - b) - a).
Proof.
  unfold wrap. rewrite !Zminus_mod_idemp_l. f_equal. lia.
Qed.

Lemma map_fold_sub m z0 : is_u64 z0 →
  map_fold (λ _ frame acc, wrap 64 (acc - Frame.size frame)) z0 m = wrap 64 (z0 - total_size m).
Proof.
  intros Hz0. induction m as [|n f m Hn IH] using map_ind.
  - rewrite map_fold_empty, total_size_empty, Z.sub_0_r. symmetry. by apply wrap_small.
  - rewrite map_fold_insert_L, IH, total_size_insert by (done || (intros; apply wrap_sub_comm)).
    unfold wrap. rewrite Zminus_mod_idemp_l. f_equal. lia.
Qed.

Lemma total_size_bound m :
  (∀ n f, m !! n = Some f → frame_valid f) →
  0 <= total_size m <= Z.of_nat (base.size m) * (MAX_FRAME_LEN + FRAME_OVERHEAD).
Proof.
  induction m as [|n f m Hn IH] using map_ind; intros Hm.
  - rewrite total_size_empty, map_size_empty. unfold MAX_FRAME_LEN, FRAME_OVERHEAD. lia.
  - rewrite total_size_insert, map_size_insert_None by done.
    assert (frame_valid f) as Hf by (eapply (Hm n), lookup_insert_eq).
    apply frame_size_range in Hf. unfold FRAME_OVERHEAD, MAX_FRAME_LEN in *.
    assert (∀ n' f', m !! n' = Some f' → frame_valid f') as Hm'.
    { intros n' f' Hf'. apply (Hm n'). rewrite lookup_insert_ne; [done|congruence]. }
    specialize (IH Hm'). lia.
Qed.

Lemma keys_u16_size {A} (m : gmap Z A) :
  (∀ n a, m !! n = Some a → is_u16 n) → Z.of_nat (base.size m) <= 65536.
Proof.
  intros Hm. rewrite <- size_dom.
  transitivity (Z.of_nat (base.size (list_to_set (C:=gset Z) (seqZ 0 65536)))).
  - apply inj_le, subseteq_size. intros n [a Ha]%elem_of_dom. apply Hm in Ha.
    apply elem_of_list_to_set, elem_of_seqZ. unfold in_width in Ha. lia.
  - rewrite size_list_to_set by apply NoDup_seqZ. rewrite length_seqZ. lia.
Qed.

Lemma channel_wf_keys c n f : channel_wf c → c_inputs c !! n = Some f → is_u16 n.
Proof. intros Hwf Hf. apply Hwf in Hf as (<- & _ & [] & _). done. Qed.

Lemma channel_wf_total c :
  channel_wf c → 0 <= total_size (c_inputs c) <= 65536 * (MAX_FRAME_LEN + FRAME_OVERHEAD).
Proof.
  intros Hwf.
  assert (∀ n f, c_inputs c !! n = Some f → frame_valid f) as Hv by (intros; by eapply Hwf).
  pose proof (total_size_bound _ Hv).
  pose proof (keys_u16_size (c_inputs c) (λ n f H, channel_wf_keys c n f Hwf H)).
  unfold MAX_FRAME_LEN, FRAME_OVERHEAD in *. lia.
Qed.

Lemma total_size_filter m (P : Z * Frame → Prop) `{∀ x, Decision (P x)} :
  (∀ n f, m !! n = Some f → frame_valid f) → 0 <= total_size (filter P m) <= total_size m.
Proof.
  induction m as [|n f m Hn IH] using map_ind; intros Hm.
  - rewrite map_filter_empty, total_size_empty. lia.
  - assert (frame_valid f) as Hf by (eapply (Hm n), lookup_insert_eq).
    apply frame_size_range in Hf. unfold FRAME_OVERHEAD in Hf.
    destruct IH as [IH0 IH1].
    { intros n' f' Hf'. apply (Hm n'). rewrite lookup_insert_ne; [done|congruence]. }
    rewrite (total_size_insert m) by done. destruct (decide (P (n, f))).
    + rewrite map_filter_insert_True, total_size_insert by (done || (apply map_lookup_filter_None; by left)).
      lia.
    + rewrite map_filter_insert_False, delete_id by done. lia.
Qed.

(** ** [add_frame] *)

(** The frames [add_frame] admits. *)
Definition accepts (c : Channel) (f : Frame) : Prop :=
  f_id f = c_id c ∧ c_inputs c !! f_number f = None ∧
  (c_closed c = true → f_is_last f = false ∧ f_number f < c_last_frame_number c).

(** The buffered frames after admitting [f]: a closing frame evicts the frames
    above it. *)
Definition inputs_after (c : Channel) (f : Frame) : gmap Z Frame :=
  <[f_number f := f]>
    (if f_is_last f then filter (λ kv, kv.1 < f_number f) (c_inputs c) else c_inputs c).

Lemma add_frame_Err f b c e c' : add_frame f b c = (Err e, c') → ¬ accepts c f ∧ c' = c.
Proof.
  unfold add_frame, accepts. intros H.
  case_decide as Hid; [naive_solver|]. destruct (f_is_last f && c_closed c) eqn:Hlc.
  { apply andb_true_iff in Hlc as [Hl Hc]. injection H as _ <-. split; [|done].
    intros (_ & _ & Ha). destruct (Ha Hc). congruence. }
  case_decide as Hin.
  { injection H as _ <-. split; [|done]. intros (_ & Ha & _). rewrite Ha in Hin.
    by destruct Hin. }
  destruct (c_closed c && _) eqn:Hcn; [|done].
  apply andb_true_iff in Hcn as [Hc Hn]. apply bool_decide_eq_true in Hn.
  injection H as _ <-. split; [|done]. intros (_ & _ & Ha). destruct (Ha Hc). lia.
Qed.

Lemma filter_below_id c n :
  channel_wf c → c_inputs c !! n = None → c_highest_frame_number c <= n →
  filter (λ kv, kv.1 < n) (c_inputs c) = c_inputs c.
Proof.
  intros Hwf Hn Hh. apply map_filter_id. intros k f Hk. cbn.
  pose proof (wf_highest c Hwf k f Hk). assert (k ≠ n) by congruence. lia.
Qed.

Lemma add_frame_Ok_state f b c r c' :
  add_frame f b c = (Ok r, c') →
  c' = buffer_frame f b (if f_is_last f then close_at (f_number f) c else c).
Proof.
  unfold add_frame. case_decide; [done|]. destruct (f_is_last f && c_closed c); [done|].
  case_decide; [done|]. destruct (c_closed c && _); [done|]. by intros [= _ <-].
Qed.

Lemma add_frame_not_Panic f b c c' : add_frame f b c ≠ (Panic, c').
Proof.
  unfold add_frame. case_decide; [done|]. destruct (f_is_last f && c_closed c); [done|].
  case_decide; [done|]. by destruct (c_closed c && _).
Qed.

Lemma add_frame_Ok f b c r c' :
  channel_wf c → add_frame f b c = (Ok r, c') →
  accepts c f ∧ c_inputs c' = inputs_after c f ∧ c_closed c' = c_closed c || f_is_last f
  ∧ c_last_frame_number c' = (if f_is_last f then f_number f else c_last_frame_number c)
  ∧ c_highest_frame_number c' = (if f_is_last f then f_number f
                                 else Z.max (c_highest_frame_number c) (f_number f))
  ∧ c_id c' = c_id c ∧ c_open_block c' = c_open_block c.
Proof.
  intros Hwf H. unfold add_frame in H.
  case_decide as Hid; [done|]. destruct (f_is_last f && c_closed c) eqn:Hlc; [done|].
  case_decide as Hin; [done|]. apply eq_None_not_Some in Hin.
  destruct (c_closed c && _) eqn:Hcn; [done|]. injection H as _ <-.
  assert (accepts c f) as Hacc.
  { split; [done|]. split; [done|]. intros Hc. rewrite Hc in *.
    rewrite andb_true_r in Hlc. apply bool_decide_eq_false in Hcn. split; [done|lia]. }
  split; [done|]. destruct Hacc as (_ & _ & Hacc). clear Hcn. unfold inputs_after.
  destruct (f_is_last f) eqn:Hl.
  - rewrite andb_true_l in Hlc. unfold close_at. cbn.
    destruct (decide (f_number f < c_highest_frame_number c)) as [Hlt|Hlt]; cbn; rewrite ?Hlc.
    + case_decide; [lia|]. done.
    + rewrite (filter_below_id c (f_number f)) by (done || lia).
      case_decide; split_and!; done || lia.
  - cbn. rewrite orb_false_r. case_decide; split_and!; done || lia.
Qed.

Lemma inputs_after_lookup c f n g :
  inputs_after c f !! n = Some g →
  (n = f_number f ∧ g = f) ∨ (n ≠ f_number f ∧ c_inputs c !! n = Some g
    ∧ (f_is_last f = true → n < f_number f)).
Proof.
  unfold inputs_after. rewrite lookup_insert. case_decide as Hn; [naive_solver|].
  intros H. right. split; [done|]. destruct (f_is_last f); [|done].
  apply map_lookup_filter_Some in H as [H Hlt]. done.
Qed.

Lemma inputs_after_fresh c f :
  c_inputs c !! f_number f = None →
  (if f_is_last f then filter (λ kv, kv.1 < f_number f) (c_inputs c) else c_inputs c)
    !! f_number f = None.
Proof.
  intros H. destruct (f_is_last f); [|done]. apply map_lookup_filter_None. by left.
Qed.

(** The estimate after an admission never exceeds the buffered bytes, and is exact
    while the channel is open. *)
Lemma add_frame_size f b c r c' :
  channel_wf c → frame_valid f → add_frame f b c = (Ok r, c') →
  0 <= c_estimated_size c' <= total_size (c_inputs c')
  ∧ (c_closed c' = false → c_estimated_size c' = total_size (c_inputs c')).
Proof.
  intros Hwf Hf H. pose proof (add_frame_Ok f b c r c' Hwf H) as (Hacc & Hin & Hcl & _).
  destruct Hacc as (_ & Hfresh & Hacc).
  pose proof (wf_size_le c Hwf) as Hle. pose proof (channel_wf_total c Hwf) as Htot.
  pose proof (frame_size_range f Hf) as Hfs. unfold FRAME_OVERHEAD, MAX_FRAME_LEN in *.
  rewrite Hin, Hcl. unfold inputs_after.
  rewrite total_size_insert by (by apply inputs_after_fresh).
  apply add_frame_Ok_state in H as ->. cbn. destruct (f_is_last f) eqn:Hl; cbn.
  - assert (c_closed c = false) as Ho by (destruct (c_closed c); [naive_solver|done]).
    pose proof (wf_size_open c Hwf Ho) as Heq. rewrite Ho. cbn.
    pose proof (total_size_filter (c_inputs c) (λ kv, kv.1 < f_number f)
                  (λ n g Hg, proj2 (proj2 (wf_inputs c Hwf n g Hg)))) as Hfil.
    unfold close_at. cbn.
    destruct (decide (f_number f < c_highest_frame_number c)) as [Hlt|Hlt]; cbn.
    + rewrite map_fold_sub by (unfold in_width; lia).
      rewrite Heq, Z.sub_diag. rewrite !wrap_small; unfold in_width; [|lia..|].
      all: rewrite ?wrap_small; unfold in_width; lia.
    + rewrite wrap_small by (unfold in_width; lia).
      rewrite filter_below_id by (done || lia). lia.
  - rewrite orb_false_r. rewrite wrap_small by (unfold in_width; lia).
    split; [lia|]. intros Ho. pose proof (wf_size_open c Hwf Ho). lia.
Qed.

Lemma new_wf id blk : channel_wf (new id blk).
Proof.
  split; cbn; try done; intros; rewrite ?lookup_empty in *; try done.
Qed.

Lemma add_frame_wf f b c :
  channel_wf c → frame_valid f → channel_wf (add_frame f b c).2.
Proof.
  intros Hwf Hf. destruct (add_frame f b c) as [[r|e|] c'] eqn:H.
  2:{ by apply add_frame_Err in H as [_ ->]. }
  2:{ by apply add_frame_not_Panic in H. }
  pose proof (add_frame_size f b c r c' Hwf Hf H) as [Hle Hopen].
  pose proof (add_frame_Ok f b c r c' Hwf H) as ((Hid & Hfresh & Hacc) & Hin & Hcl & Hlast & Hhigh & Hid' & _).
  cbn. split; try done.
  - intros n g. rewrite Hin, Hid'. intros [[-> ->]|(Hn & Hg & _)]%inputs_after_lookup; [done|].
    by apply Hwf.
  - intros n g. rewrite Hin, Hhigh. intros [[-> ->]|(Hn & Hg & Hlt)]%inputs_after_lookup.
    + destruct (f_is_last f); lia.
    + pose proof (wf_highest c Hwf n g Hg). destruct (f_is_last f); [|lia].
      specialize (Hlt eq_refl). lia.
  - rewrite Hcl, Hlast, Hin. intros [Ho Hl]%orb_false_iff. rewrite Hl.
    destruct (wf_open c Hwf Ho) as [Hz Hall]. split; [done|].
    intros n g [[-> ->]|(Hn & Hg & _)]%inputs_after_lookup; [done|]. by eapply Hall.
  - rewrite Hcl, Hlast, Hin. intros Hc. destruct (f_is_last f) eqn:Hl.
    + assert (c_closed c = false) as Ho by (destruct (c_closed c); [naive_solver|done]).
      destruct (wf_open c Hwf Ho) as [_ Hall]. split.
      * intros n g [[-> ->]|(Hn & Hg & Hlt)]%inputs_after_lookup.
        -- split; [lia|]. by rewrite bool_decide_true.
        -- specialize (Hlt Hl). split; [lia|]. rewrite bool_decide_false by lia. by eapply Hall.
      * unfold inputs_after. by rewrite lookup_insert_eq.
    + rewrite orb_false_r in Hc. destruct (wf_closed c Hwf Hc) as [Hall [g Hg]].
      destruct (Hacc Hc) as [_ Hlt]. split.
      * intros n g' [[-> ->]|(Hn & Hg' & _)]%inputs_after_lookup; [|by apply Hall].
        rewrite Hl. split; [lia|]. by rewrite bool_decide_false by lia.
      * unfold inputs_after. rewrite Hl, lookup_insert_ne by lia. by eexists.
Qed.

(** ** Reading a channel *)

(** All frames up to the closing one are buffered. *)
Definition complete (c : Channel) : Prop :=
  c_closed c = true ∧ ∀ i, 0 <= i <= c_last_frame_number c → is_Some (c_inputs c !! i).

Lemma complete_size c :
  channel_wf c → complete c → Z.of_nat (base.size (c_inputs c)) = c_last_frame_number c + 1.
Proof.
  intros Hwf [Hc Hall]. destruct (wf_closed c Hwf Hc) as [Hmax [g Hg]].
  pose proof (channel_wf_keys c _ g Hwf Hg) as Hlast. unfold in_width in Hlast.
  rewrite <- size_dom.
  replace (dom (c_inputs c)) with (list_to_set (C:=gset Z) (seqZ 0 (c_last_frame_number c + 1))).
  - rewrite size_list_to_set by apply NoDup_seqZ. rewrite length_seqZ. lia.
  - apply set_eq. intros n. rewrite elem_of_list_to_set, elem_of_seqZ, elem_of_dom. split.
    + intros. apply Hall. lia.
    + intros [f Hf]. pose proof (Hmax n f Hf) as [? _].
      pose proof (channel_wf_keys c n f Hwf Hf) as Hn. unfold in_width in Hn. lia.
Qed.

Lemma is_ready_iff c :
  channel_wf c → is_ready c = true ↔ complete c ∧ c_last_frame_number c < 65535.
Proof.
  intros Hwf. unfold is_ready. destruct (c_closed c) eqn:Hc; cbn.
  2:{ split; [done|]. intros [[Hc' _] _]. congruence. }
  destruct (wf_closed c Hwf Hc) as [_ [g Hg]].
  pose proof (channel_wf_keys c _ g Hwf Hg) as Hlast. unfold in_width in Hlast.
  assert (0 < Z.of_nat (base.size (c_inputs c))) as Hpos.
  { destruct (decide (base.size (c_inputs c) = 0%nat)) as [H0|]; [|lia].
    apply map_size_empty_iff in H0. rewrite H0 in Hg. by rewrite lookup_empty in Hg. }
  destruct (decide (c_last_frame_number c < 65535)) as [Hlt|Hge].
  - rewrite wrap_small by (unfold in_width; lia).
    assert (forallb (λ i, bool_decide (is_Some (c_inputs c !! i)))
              (seqZ 0 (c_last_frame_number c + 1)) = true ↔ complete c) as Hfa.
    { rewrite forallb_forall. unfold complete. split.
      - intros H. split; [done|]. intros i Hi. apply (bool_decide_eq_true _), H.
        apply list_elem_of_In, elem_of_seqZ. lia.
      - intros [_ H] i Hi%list_elem_of_In%elem_of_seqZ. apply bool_decide_eq_true, H. lia. }
    case_decide as Hsz.
    + split; [done|]. intros [Hcomp _]. by rewrite complete_size in Hsz.
    + rewrite Hfa. naive_solver.
  - replace (c_last_frame_number c) with 65535 by lia.
    replace (wrap 16 (65535 + 1)) with 0 by done. rewrite decide_True by lia.
    split; [done|]. intros [_ ?]. lia.
Qed.

Lemma foldl_None (m : gmap Z Frame) l :
  foldl (λ acc i, data ← acc; frame ← m !! i; Some (data ++ f_data frame)) None l = None.
Proof. by induction l. Qed.

Lemma foldl_frames (m : gmap Z Frame) l acc :
  (∀ i, i ∈ l → is_Some (m !! i)) →
  foldl (λ acc i, data ← acc; frame ← m !! i; Some (data ++ f_data frame)) (Some acc) l
  = Some (acc ++ concat (map (λ i, default [] (f_data <$> m !! i)) l)).
Proof.
  revert acc. induction l as [|i l IH]; intros acc Hl; cbn; [by rewrite app_nil_r|].
  destruct (Hl i) as [f Hf]; [set_solver|]. rewrite Hf. cbn.
  rewrite IH by set_solver. by rewrite app_assoc.
Qed.

Lemma frame_data_complete c :
  complete c →
  frame_data c = Some (concat (map (λ i, default [] (f_data <$> c_inputs c !! i))
                                   (seqZ 0 (c_last_frame_number c + 1)))).
Proof.
  intros [_ Hall]. unfold frame_data. rewrite foldl_frames; [done|].
  intros i Hi%elem_of_seqZ. apply Hall. lia.
Qed.

(** * Reassembly in any order *)

(** [channel_frames id fs]: [fs] are the frames of one channel, numbered from 0, the
    last one and only it marked as closing. *)
Record channel_frames (id : ChannelId) (fs : list Frame) : Prop := {
  cf_valid : Forall frame_valid fs;
  cf_frame : ∀ i f, fs !! i = Some f →
    f_number f = Z.of_nat i ∧ f_id f = id ∧ f_is_last f = bool_decide (S i = length fs);
  cf_nonempty : fs ≠ [];
}.

Definition add_frames (l : list (Frame * BlockInfo)) : ST Channel ChannelError unit :=
  for_each (λ '(f, blk), add_frame f blk) l.

(** What a list of frames occupies. *)
Definition frames_size (fs : list Frame) : Z := foldr (λ f acc, Frame.size f + acc) 0 fs.

Lemma frames_size_app fs gs : frames_size (fs ++ gs) = frames_size fs + frames_size gs.
Proof.
  unfold frames_size. induction fs as [|f fs IH]; cbn [foldr app]; [done|]. rewrite IH. lia.
Qed.
Lemma frames_size_nonneg fs : 0 <= frames_size fs.
Proof.
  unfold frames_size. induction fs as [|f fs IH]; cbn [foldr]; [done|].
  assert (0 <= Frame.size f) by (unfold Frame.size, FRAME_OVERHEAD; pose proof (len_nonneg (f_data f)); lia).
  lia.
Qed.
#[export] Instance frames_size_perm : Proper (Permutation ==> eq) frames_size.
Proof. unfold frames_size. induction 1; cbn [foldr]; lia. Qed.

(** The state of a channel that has received exactly the frames [got] of [fs]. *)
Record assembling (id : ChannelId) (fs got : list Frame) (c : Channel) : Prop := {
  asm_wf : channel_wf c;
  asm_id : c_id c = id;
  asm_inputs : ∀ n g, c_inputs c !! n = Some g ↔ g ∈ got ∧ f_number g = n;
  asm_closed : c_closed c = true ↔ ∃ g, g ∈ got ∧ f_is_last g = true;
  asm_last : c_closed c = true → c_last_frame_number c = len fs - 1;
  asm_highest : c_highest_frame_number c <= len fs - 1;
  asm_size : c_estimated_size c = total_size (c_inputs c);
  asm_sum : total_size (c_inputs c) = frames_size got;
}.

Lemma channel_frames_number id fs f :
  channel_frames id fs → f ∈ fs →
  0 <= f_number f < len fs ∧ fs !! Z.to_nat (f_number f) = Some f ∧ f_id f = id ∧ frame_valid f
  ∧ f_is_last f = bool_decide (f_number f = len fs - 1).
Proof.
  intros Hcf [i Hi]%list_elem_of_lookup. pose proof (cf_frame _ _ Hcf i f Hi) as (Hn & Hid & Hl).
  pose proof (lookup_lt_Some _ _ _ Hi). unfold len. rewrite Hn, Nat2Z.id.
  split_and!; [lia|lia|done|done| |].
  - pose proof (cf_valid _ _ Hcf) as Hv. rewrite Forall_lookup in Hv. by eapply Hv.
  - rewrite Hl. apply bool_decide_ext. lia.
Qed.

Lemma channel_frames_inj id fs f g :
  channel_frames id fs → f ∈ fs → g ∈ fs → f_number f = f_number g → f = g.
Proof.
  intros Hcf Hf Hg Hn. apply (channel_frames_number id fs) in Hf as (_ & Hf & _), Hg as (_ & Hg & _);
    [|done..]. rewrite Hn in Hf. congruence.
Qed.

Section assembling.
Context (id : ChannelId) (fs got : list Frame) (f : Frame) (blk : BlockInfo) (c : Channel).
Hypothesis (Hcf : channel_frames id fs) (Hasm : assembling id fs got c).
Hypothesis (Hsub : got ⊆ fs) (Hf : f ∈ fs) (Hnot : f ∉ got).

Lemma assembling_accepts : accepts c f.
Proof.
  pose proof (channel_frames_number id fs f Hcf Hf) as (Hn & _ & Hid & Hv & Hl).
  split; [by rewrite Hid, (asm_id _ _ _ _ Hasm)|]. split.
  - apply eq_None_not_Some. intros [g Hg]. apply (asm_inputs _ _ _ _ Hasm) in Hg as [Hg Hgn].
    assert (g = f) as -> by (eapply channel_frames_inj; eauto). done.
  - intros Hc. assert (f_is_last f = false) as Hlf.
    { apply not_true_iff_false. intros Hlf.
      apply (asm_closed _ _ _ _ Hasm) in Hc as (g & Hg & Hgl).
      pose proof (channel_frames_number id fs g Hcf (Hsub g Hg)) as (_ & _ & _ & _ & Hgl').
      rewrite Hlf in Hl. rewrite Hgl in Hgl'. symmetry in Hl, Hgl'.
      apply bool_decide_eq_true in Hl, Hgl'.
      assert (g = f) as -> by (eapply channel_frames_inj; eauto; lia). done. }
    split; [done|]. rewrite Hlf in Hl. symmetry in Hl. apply bool_decide_eq_false in Hl.
    rewrite (asm_last _ _ _ _ Hasm Hc). lia.
Qed.

Lemma assembling_last_highest : f_is_last f = true → f_number f = len fs - 1.
Proof.
  intros Hlf. pose proof (channel_frames_number id fs f Hcf Hf) as (_ & _ & _ & _ & Hl).
  rewrite Hlf in Hl. symmetry in Hl. by apply bool_decide_eq_true in Hl.
Qed.

(** No frame is evicted: none is above the closing one. *)
Lemma assembling_no_eviction : inputs_after c f = <[f_number f := f]> (c_inputs c).
Proof.
  unfold inputs_after. destruct (f_is_last f) eqn:Hlf; [|done]. f_equal.
  pose proof assembling_accepts as (_ & Hfresh & _). pose proof (assembling_last_highest Hlf).
  pose proof (asm_highest _ _ _ _ Hasm). pose proof (asm_wf _ _ _ _ Hasm) as Hwf.
  apply filter_below_id; [done|done|lia].
Qed.

Lemma assembling_estimate c' :
  add_frame f blk c = (Ok tt, c') → c_estimated_size c' = c_estimated_size c + Frame.size f.
Proof.
  intros Hadd. apply add_frame_Ok_state in Hadd as ->. cbn.
  pose proof (channel_frames_number id fs f Hcf Hf) as (_ & _ & _ & Hv & _).
  pose proof (asm_wf _ _ _ _ Hasm) as Hwf. pose proof (asm_highest _ _ _ _ Hasm).
  pose proof (channel_wf_total c Hwf) as Htot. pose proof (frame_size_range f Hv) as Hfs.
  pose proof (wf_size_le c Hwf). unfold FRAME_OVERHEAD, MAX_FRAME_LEN in *.
  destruct (f_is_last f) eqn:Hlf; [|apply wrap_small; unfold in_width; lia].
  pose proof (assembling_last_highest Hlf). unfold close_at. cbn.
  rewrite decide_False by lia. apply wrap_small. unfold in_width. lia.
Qed.

Lemma assembling_step :
  ∃ c', add_frame f blk c = (Ok tt, c') ∧ assembling id fs (got ++ [f]) c'.
Proof.
  pose proof (channel_frames_number id fs f Hcf Hf) as (Hn & _ & Hid & Hv & Hl).
  pose proof (asm_wf _ _ _ _ Hasm) as Hwf. pose proof assembling_accepts as Hacc.
  destruct (add_frame f blk c) as [[[]|e|] c'] eqn:Hadd.
  2:{ by apply add_frame_Err in Hadd as [? _]. }
  2:{ by apply add_frame_not_Panic in Hadd. }
  exists c'. split; [done|]. destruct Hacc as (_ & Hfresh & _).
  pose proof (assembling_estimate c' Hadd) as Hest.
  pose proof (add_frame_Ok _ _ _ _ _ Hwf Hadd) as (_ & Hin & Hcl & Hlast & Hhigh & Hid' & _).
  rewrite assembling_no_eviction in Hin.
  assert (total_size (c_inputs c') = Frame.size f + total_size (c_inputs c)) as Htot.
  { rewrite Hin. by apply total_size_insert. }
  split.
  - pose proof (add_frame_wf f blk c Hwf Hv) as H. by rewrite Hadd in H.
  - by rewrite Hid', (asm_id _ _ _ _ Hasm).
  - intros n g. rewrite Hin, lookup_insert, elem_of_app, list_elem_of_singleton.
    pose proof (asm_inputs _ _ _ _ Hasm n g) as Hng.
    destruct (decide (f_number f = n)) as [Hfn|Hfn]; [|naive_solver].
    split; [naive_solver|]. intros [[Hg| ->] Hgn]; [|done].
    rewrite Hfn in Hfresh. assert (c_inputs c !! n = Some g) by (by apply Hng). congruence.
  - rewrite Hcl, orb_true_iff, (asm_closed _ _ _ _ Hasm). set_solver.
  - rewrite Hcl, Hlast. intros Hc. destruct (f_is_last f) eqn:Hlf.
    + by apply assembling_last_highest.
    + rewrite orb_false_r in Hc. by apply (asm_last _ _ _ _ Hasm).
  - rewrite Hhigh. pose proof (asm_highest _ _ _ _ Hasm). destruct (f_is_last f); lia.
  - rewrite Hest, Htot, (asm_size _ _ _ _ Hasm). lia.
  - rewrite Htot, (asm_sum _ _ _ _ Hasm), frames_size_app. cbn. lia.
Qed.
End assembling.

Lemma channel_frames_NoDup id fs : channel_frames id fs → NoDup fs.
Proof.
  intros Hcf. apply NoDup_alt. intros i j f Hi Hj.
  apply (cf_frame _ _ Hcf) in Hi as [Hi _], Hj as [Hj _]. lia.
Qed.

Lemma assembling_new id fs blk : channel_frames id fs → assembling id fs [] (new id blk).
Proof.
  intros Hcf. split; cbn; try done.
  - intros n g. rewrite lookup_empty. set_solver.
  - set_solver.
  - destruct fs; [by destruct (cf_nonempty _ _ Hcf)|]. rewrite len_cons.
    pose proof (len_nonneg fs). lia.
Qed.

Lemma assembling_run id fs got todo blks c :
  channel_frames id fs → assembling id fs got c →
  NoDup (got ++ todo) → got ++ todo ⊆ fs → length blks = length todo →
  ∃ c', add_frames (zip todo blks) c = (Ok tt, c') ∧ assembling id fs (got ++ todo) c'.
Proof.
  intros Hcf. revert got blks c.
  induction todo as [|f todo IH]; intros got blks c Hasm Hnd Hsub Hlen.
  { exists c. by rewrite app_nil_r. }
  destruct blks as [|blk blks]; [done|]. cbn in Hlen.
  destruct (assembling_step id fs got f blk c) as (c1 & Hadd & Hasm1); [done|done| | | |].
  - intros g Hg. apply Hsub, elem_of_app. by left.
  - apply Hsub, elem_of_app. right. apply elem_of_cons. by left.
  - intros Hf. apply NoDup_app in Hnd as (_ & Hnd & _). apply (Hnd f Hf), elem_of_cons. by left.
  - destruct (IH (got ++ [f]) blks c1) as (c' & Hrun & Hasm'); [done| | |lia|].
    + by rewrite <- app_assoc.
    + by rewrite <- app_assoc.
    + exists c'. rewrite <- app_assoc in Hasm'. split; [|done].
      unfold add_frames in *. cbn [zip zip_with for_each]. unfold mbind, st_bind.
      by rewrite Hadd, Hrun.
Qed.

Lemma assembling_complete id fs got c :
  channel_frames id fs → assembling id fs got c → got ⊆ fs →
  complete c ↔ fs ⊆ got.
Proof.
  intros Hcf Hasm Hsub. split.
  - intros [Hc Hall] f Hf.
    pose proof (channel_frames_number id fs f Hcf Hf) as (Hn & Hfs & _).
    destruct (Hall (f_number f)) as [g Hg].
    { rewrite (asm_last _ _ _ _ Hasm Hc). lia. }
    apply (asm_inputs _ _ _ _ Hasm) in Hg as [Hg Hgn].
    assert (g = f) as <-; [|done]. eapply channel_frames_inj; eauto.
  - intros Hall.
    assert (∀ i, 0 <= i < len fs → ∃ g, g ∈ got ∧ c_inputs c !! i = Some g ∧ fs !! Z.to_nat i = Some g)
      as Hi.
    { intros i Hi. unfold len in Hi.
      destruct (lookup_lt_is_Some_2 fs (Z.to_nat i)) as [g Hg]; [lia|]. exists g.
      assert (g ∈ got) as Hgot by (apply Hall, list_elem_of_lookup; eauto).
      split_and!; [done| |done]. apply (asm_inputs _ _ _ _ Hasm). split; [done|].
      apply (cf_frame _ _ Hcf) in Hg as [Hg _]. lia. }
    assert (0 < len fs) as Hpos.
    { pose proof (cf_nonempty _ _ Hcf). rewrite <- len_zero_nil in H. pose proof (len_nonneg fs). lia. }
    assert (c_closed c = true) as Hc.
    { apply (asm_closed _ _ _ _ Hasm). destruct (Hi (len fs - 1)) as (g & Hg & _ & Hfs); [lia|].
      exists g. split; [done|]. apply (cf_frame _ _ Hcf) in Hfs as (_ & _ & ->).
      apply bool_decide_eq_true. unfold len in *. lia. }
    split; [done|]. rewrite (asm_last _ _ _ _ Hasm Hc). intros i ?.
    destruct (Hi i) as (g & _ & Hg & _); [lia|]. by exists g.
Qed.

Lemma assembling_inputs id fs got c i :
  channel_frames id fs → assembling id fs got c → fs ⊆ got → got ⊆ fs →
  c_inputs c !! Z.of_nat i = fs !! i.
Proof.
  intros Hcf Hasm Hall Hsub. apply option_eq. intros g. rewrite (asm_inputs _ _ _ _ Hasm). split.
  - intros [Hg Hn]. apply Hsub in Hg. apply (channel_frames_number id fs) in Hg as (_ & Hg & _); [|done].
    by rewrite Hn, Nat2Z.id in Hg.
  - intros Hg. split; [apply Hall, list_elem_of_lookup; eauto|].
    by apply (cf_frame _ _ Hcf) in Hg as [Hg _].
Qed.

Lemma assembling_data id fs got c :
  channel_frames id fs → assembling id fs got c → fs ⊆ got → got ⊆ fs →
  frame_data c = Some (concat (map f_data fs)).
Proof.
  intros Hcf Hasm Hall Hsub.
  assert (complete c) as Hcomp by (by eapply assembling_complete).
  rewrite frame_data_complete by done. do 2 f_equal.
  rewrite (asm_last _ _ _ _ Hasm) by apply Hcomp.
  change (map f_data fs) with (f_data <$> fs).
  change (map ?f ?l) with (f <$> l).
  apply list_eq. intros i. rewrite !list_lookup_fmap.
  destruct (decide (i < length fs)%nat) as [Hlt|Hge].
  - rewrite lookup_seqZ_lt by (unfold len; lia). cbn. rewrite Z.add_0_l.
    rewrite (assembling_inputs id fs got) by done.
    destruct (lookup_lt_is_Some_2 fs i Hlt) as [g ->]. done.
  - rewrite lookup_seqZ_ge by (unfold len; lia). by rewrite lookup_ge_None_2 by lia.
Qed.

(** A channel that lacks some frame is not ready. *)
Lemma assembling_not_ready id fs got c :
  channel_frames id fs → assembling id fs got c → got ⊆ fs →
  (length got < length fs)%nat → is_ready c = false.
Proof.
  intros Hcf Hasm Hsub Hlt. apply not_true_iff_false. intros Hr.
  apply is_ready_iff in Hr as [Hr _]; [|apply Hasm].
  apply (assembling_complete id fs got) in Hr; [|done..].
  assert (length fs <= length got)%nat as Hle; [|lia].
  apply submseteq_length, NoDup_submseteq; [by eapply channel_frames_NoDup|done].
Qed.

Lemma assembling_ready id fs got c :
  channel_frames id fs → assembling id fs got c → got ⊆ fs → fs ⊆ got →
  is_ready c = bool_decide (len fs <= 65535).
Proof.
  intros Hcf Hasm Hsub Hall.
  assert (complete c) as Hcomp by (by eapply assembling_complete).
  pose proof (asm_last _ _ _ _ Hasm (proj1 Hcomp)) as Hlast.
  destruct (is_ready c) eqn:Hr.
  - apply is_ready_iff in Hr as [_ Hr]; [|apply Hasm]. symmetry. apply bool_decide_eq_true. lia.
  - symmetry. apply bool_decide_eq_false. intros Hle.
    apply not_true_iff_false in Hr. apply Hr, is_ready_iff; [apply Hasm|]. split; [done|]. lia.
Qed.

(** ** Theorems *)

(** C26. Reassembly is independent of the order of arrival: when the frames of a
    channel (numbered 0.., the last one marked closing) are added in any order, each
    from any L1 block, every [add_frame] succeeds, the data read back is the
    concatenation of the frames' data in number order, and the channel is never
    ready before the last frame has arrived.  With all frames in, it is ready exactly
    when it has at most 65535 frames: the count of a 65536-frame channel wraps to 0 in
    [u16], and such a channel is never ready. *)
Theorem channel_any_order (id : ChannelId) (open : BlockInfo) (fs order : list Frame)
    (blks : list BlockInfo) :
  channel_frames id fs → Permutation order fs → length blks = length order →
  ∃ c, add_frames (zip order blks) (new id open) = (Ok tt, c)
    ∧ is_ready c = bool_decide (len fs <= 65535)
    ∧ frame_data c = Some (concat (map f_data fs))
    ∧ size c = total_size (c_inputs c)
    ∧ ∀ k, (k < length order)%nat →
        is_ready (add_frames (zip (take k order) (take k blks)) (new id open)).2 = false.
Proof.
  intros Hcf Hperm Hlen.
  pose proof (channel_frames_NoDup id fs Hcf) as Hnd.
  assert (order ⊆ fs ∧ fs ⊆ order) as [Hsub Hall].
  { split; intros f; by rewrite Hperm. }
  rewrite <- Hperm in Hnd.
  destruct (assembling_run id fs [] order blks (new id open)) as (c & Hrun & Hasm);
    [done|by apply assembling_new|done|done|done|]. cbn [app] in Hasm.
  exists c. split_and!; [done|by eapply assembling_ready|by eapply assembling_data|by eapply asm_size|].
  intros k Hk.
  assert (take k order ⊆ fs) as Hsubk.
  { intros f Hf. apply Hsub. rewrite <- (take_drop k order), elem_of_app. by left. }
  destruct (assembling_run id fs [] (take k order) (take k blks) (new id open)) as (ck & Hk' & Hasmk);
    [done|by apply assembling_new| |done|rewrite !length_take; lia|].
  { rewrite <- (take_drop k order) in Hnd. by apply NoDup_app in Hnd as (Hnd & _). }
  rewrite Hk'. eapply assembling_not_ready; [done..|].
  cbn. rewrite length_take, <- (Permutation_length Hperm). lia.
Qed.

(** [add_frame] on every branch, from any well-formed channel: it succeeds exactly
    on the admissible frames (same channel, number not buffered yet and, on a closed
    channel, below the closing frame and not closing again); then the frame is
    buffered and a closing frame evicts the frames above it.  On an error the channel
    is unchanged, the invariant holds after either, and there is no panic. *)
Theorem add_frame_spec (c : Channel) (frame : Frame) (blk : BlockInfo) :
  channel_wf c → frame_valid frame →
  channel_wf (add_frame frame blk c).2 ∧
  match add_frame frame blk c with
  | (Ok _, c') => accepts c frame ∧ c_inputs c' = inputs_after c frame
      ∧ c_closed c' = c_closed c || f_is_last frame ∧ c_id c' = c_id c
      ∧ c_open_block c' = c_open_block c
  | (Err _, c') => ¬ accepts c frame ∧ c' = c
  | (Panic, _) => False
  end.
Proof.
  intros Hwf Hf. split; [by apply add_frame_wf|].
  destruct (add_frame frame blk c) as [[r|e|] c'] eqn:H.
  - apply add_frame_Ok in H as (? & ? & ? & _ & _ & ? & ?); done.
  - by apply add_frame_Err in H.
  - by apply add_frame_not_Panic in H.
Qed.

(** A well-formed channel that reports ready is closed, holds every frame up to the
    closing one, and [frame_data] returns their data in number order; one that holds
    them all is ready unless its closing frame has number 65535. *)
Theorem is_ready_spec (c : Channel) :
  channel_wf c →
  (is_ready c = true ↔ complete c ∧ c_last_frame_number c ≠ 65535) ∧
  (is_ready c = true →
     frame_data c = Some (concat (map (λ i, default [] (f_data <$> c_inputs c !! i))
                                      (seqZ 0 (c_last_frame_number c + 1))))).
Proof.
  intros Hwf. rewrite is_ready_iff by done. split.
  - split; [intros [? ?]; split; [done|lia]|]. intros [[Hc Hall] Hne]. split; [done|].
    destruct (wf_closed c Hwf Hc) as [_ [g Hg]].
    pose proof (channel_wf_keys c _ g Hwf Hg) as Hl. unfold in_width in Hl. lia.
  - intros [Hcomp _]. by apply frame_data_complete.
Qed.

Lemma add_frame_same f blk c :
  f_id f = c_id c →
  add_frame f blk c =
    if f_is_last f && c_closed c then (Err ChannelClosed, c)
    else if decide (is_Some (c_inputs c !! f_number f))
    then (Err (FrameNumberExists (f_number f)), c)
    else if c_closed c && bool_decide (f_number f >= c_last_frame_number c)
    then (Err (FrameBeyondEndFrame (f_number f)), c)
    else (Ok tt, buffer_frame f blk (if f_is_last f then close_at (f_number f) c else c)).
Proof. intros Hid. unfold add_frame. by rewrite decide_False by naive_solver. Qed.

Lemma add_frames_wf c l :
  channel_wf c → Forall (λ fb, frame_valid fb.1) l →
  channel_wf (foldl (λ c fb, (add_frame fb.1 fb.2 c).2) c l).
Proof.
  intros Hwf Hl. revert c Hwf. induction Hl as [|fb l Hf _ IH]; intros c Hwf; [done|].
  cbn. by apply IH, add_frame_wf.
Qed.

(** The size estimate the channel bank prunes by: over any sequence of [add_frame]
    calls it is exact while the channel is open and never above the bytes buffered
    (so the bank's subtractions cannot underflow).  It can be strictly below them:
    the eviction of a closing frame also subtracts the frames it keeps. *)
Theorem channel_estimate (id : ChannelId) (open : BlockInfo) :
  (∀ l, Forall (λ fb, frame_valid fb.1) l →
     let c := foldl (λ c fb, (add_frame fb.1 fb.2 c).2) (new id open) l in
     0 <= size c <= total_size (c_inputs c)
     ∧ (c_closed c = false → size c = total_size (c_inputs c))) ∧
  (len id = 16 → ∃ l, Forall (λ fb, frame_valid fb.1) l ∧
     let c := foldl (λ c fb, (add_frame fb.1 fb.2 c).2) (new id open) l in
     size c < total_size (c_inputs c)).
Proof.
  split.
  - intros l Hl. pose proof (add_frames_wf (new id open) l (new_wf id open) Hl) as Hwf.
    split; apply Hwf.
  - intros Hid.
    exists [(mkFrame id 0 [byte1] false, open); (mkFrame id 10 [byte1] false, open);
            (mkFrame id 2 [byte1] true, open)].
    split.
    { repeat constructor; cbn; rewrite ?Hid; unfold len, MAX_FRAME_LEN; cbn; lia. }
    cbn [foldl fst snd]. rewrite (add_frame_same (mkFrame id 0 _ _)) by done.
    rewrite (add_frame_same (mkFrame id 10 _ _)) by done.
    rewrite (add_frame_same (mkFrame id 2 _ _)) by done. done.
Qed.

(** ** Witnesses *)

Definition example_id : ChannelId := replicate 16 (z2b 7).
Definition example_frame (n : Z) (last : bool) : Frame := mkFrame example_id n [z2b n; byte1] last.
Definition example_channel_frames : list Frame :=
  [example_frame 0 false; example_frame 1 false; example_frame 2 true].
Definition example_order : list Frame :=
  [example_frame 2 true; example_frame 0 false; example_frame 1 false].

Lemma example_channel_frames_ok : channel_frames example_id example_channel_frames.
Proof.
  split; [|by intros [|[|[|i]]] f ?; simplify_eq/=|done].
  repeat constructor; vm_compute; congruence.
Qed.

Lemma example_frame_valid n last : is_u16 n → frame_valid (example_frame n last).
Proof. intros Hn. split; [split; [done|exact Hn]|]. vm_compute. congruence. Qed.

Lemma channel_any_order_witness :
  Permutation example_order example_channel_frames
  ∧ ∃ c, add_frames (zip example_order (replicate 3 BlockInfo_default))
           (new example_id BlockInfo_default) = (Ok tt, c)
      ∧ is_ready c = true.
Proof.
  assert (Permutation example_order example_channel_frames) as Hp.
  { unfold example_order, example_channel_frames.
    etransitivity; [apply perm_swap|apply perm_skip, perm_swap]. }
  split; [done|].
  destruct (channel_any_order example_id BlockInfo_default example_channel_frames example_order
              (replicate 3 BlockInfo_default)) as (c & Hc & Hr & _);
    [apply example_channel_frames_ok|done|done|].
  exists c. split; [done|]. rewrite Hr. reflexivity.
Defined.

Lemma add_frame_spec_witness :
  channel_wf (add_frame (example_frame 1 true) BlockInfo_default
                (new example_id BlockInfo_default)).2.
Proof.
  apply (add_frame_spec (new example_id BlockInfo_default) (example_frame 1 true) BlockInfo_default).
  - apply new_wf.
  - apply example_frame_valid. vm_compute. split; congruence.
Defined.

Lemma is_ready_spec_witness :
  let c := (add_frame (example_frame 0 true) BlockInfo_default
              (new example_id BlockInfo_default)).2 in
  frame_data c = Some [byte0; byte1].
Proof.
  intros c. destruct (is_ready_spec c) as [_ H].
  - apply add_frame_wf; [apply new_wf|]. apply example_frame_valid. vm_compute. split; congruence.
  - rewrite H; reflexivity.
Defined.
