(* ===== verification/SystemConfig.v ===== *)
(** The system configuration and its updates from L1 receipts
    (src/crates/primitives/src/system/ and system_update/).

    One Module per update type, then the log decoder [build] and
    [update_with_receipts].  ABI decoding is alloy's: the class [AbiDecoder] stands
    for its three [abi_decode_validate] instances.  [update_with_receipts_spec]
    reduces the two nested loops to the last batcher update of the block. *)
From S2P Require Import Prelude Blocks.
#[local] Open Scope Z_scope.

(** * ABI decoding and receipts (alloy) *)

(** [<sol!(T)>::abi_decode_validate] for [uint64], [uint256] and [address]; [None]
    is its error, whose value the code drops. *)
Class AbiDecoder := {
  abi_uint64 : bytes → option Z;
  abi_uint256 : bytes → option Z;
  abi_address : bytes → option Address;
}.

Record Log := mkLog {
  log_address : Address;
  log_topics : list B256;
  log_data : bytes;
}.

Inductive Eip658Value :=
| Eip658 (success : bool)
| PostState (root : B256).

#[global] Instance eip658_eq_dec : EqDecision Eip658Value.
Proof. solve_decision. Defined.

Record Receipt := mkReceipt {
  receipt_status : Eip658Value;
  receipt_logs : list Log;
}.

(** * Data *)

(** [CONFIG_UPDATE_TOPIC]: keccak256 of [ConfigUpdate(uint256,uint8,bytes)]. *)
Definition CONFIG_UPDATE_TOPIC : B256 :=
  be_bytes 32 0x1d2b0bda21d56b8bd12d4f94ebacffdfb35f5e226f84b461103bb8beab6353be.
Definition CONFIG_UPDATE_EVENT_VERSION_0 : B256 := B256_ZERO.

Record SystemConfig := mkSystemConfig {
  batcher_address : Address;
  overhead : Z;
  scalar : Z;
  gas_limit : Z;
  base_fee_scalar : option Z;
  blob_base_fee_scalar : option Z;
  eip1559_denominator : option Z;
  eip1559_elasticity : option Z;
  operator_fee_scalar : option Z;
  operator_fee_constant : option Z;
}.

#[global] Instance system_config_eq_dec : EqDecision SystemConfig.
Proof. solve_decision. Defined.

Definition SystemConfig_default : SystemConfig :=
  mkSystemConfig Address_ZERO 0 0 0 None None None None None None.

Inductive SystemConfigUpdateKind :=
| KBatcher | KGasConfig | KGasLimit | KUnsafeBlockSigner | KEip1559 | KOperatorFee.

Inductive LogProcessingError :=
| InvalidTopicLen (n : Z)
| InvalidTopic
| UnsupportedVersion (version : B256)
| UpdateTypeDecodingError
| InvalidSystemConfigUpdateType (ty : Z).

#[global] Instance update_kind_eq_dec : EqDecision SystemConfigUpdateKind.
Proof. solve_decision. Defined.
#[global] Instance log_processing_error_eq_dec : EqDecision LogProcessingError.
Proof. solve_decision. Defined.

(** * The update types *)

Module BatcherUpdate.
Inductive BatcherUpdateError :=
| InvalidDataLen (n : Z)
| PointerDecodingError
| InvalidDataPointer (p : Z)
| LengthDecodingError
| InvalidDataLength (n : Z)
| BatcherAddressDecodingError.

#[global] Instance error_eq_dec : EqDecision BatcherUpdateError.
Proof. solve_decision. Defined.

Record BatcherUpdate := mk { upd_batcher_address : Address }.

Definition apply (self : BatcherUpdate) (config : SystemConfig) : SystemConfig :=
  {| batcher_address := upd_batcher_address self;
     overhead := overhead config;
     scalar := scalar config;
     gas_limit := gas_limit config;
     base_fee_scalar := base_fee_scalar config;
     blob_base_fee_scalar := blob_base_fee_scalar config;
     eip1559_denominator := eip1559_denominator config;
     eip1559_elasticity := eip1559_elasticity config;
     operator_fee_scalar := operator_fee_scalar config;
     operator_fee_constant := operator_fee_constant config |}.

Definition try_from `{AbiDecoder} (log : Log) : outcome BatcherUpdateError BatcherUpdate :=
  let data := log_data log in
  if decide (len data ≠ 96) then Err (InvalidDataLen (len data)) else
  pointer_bytes ← slice data 0 32;
  pointer ← ok_or (abi_uint64 pointer_bytes) PointerDecodingError;
  if decide (pointer ≠ 32) then Err (InvalidDataPointer pointer) else
  length_bytes ← slice data 32 64;
  length ← ok_or (abi_uint64 length_bytes) LengthDecodingError;
  if decide (length ≠ 32) then Err (InvalidDataLength length) else
  address_bytes ← slice data 64 96;
  address ← ok_or (abi_address address_bytes) BatcherAddressDecodingError;
  Ok (mk address).
End BatcherUpdate.

Module GasConfigUpdate.
Inductive GasConfigUpdateError :=
| InvalidDataLen (n : Z)
| PointerDecodingError
| InvalidDataPointer (p : Z)
| LengthDecodingError
| InvalidDataLength (n : Z)
| OverheadDecodingError
| ScalarDecodingError.

#[global] Instance error_eq_dec : EqDecision GasConfigUpdateError.
Proof. solve_decision. Defined.

Record GasConfigUpdate := mk { upd_scalar : option Z; upd_overhead : option Z }.

Definition apply (self : GasConfigUpdate) (config : SystemConfig) : SystemConfig :=
  {| batcher_address := batcher_address config;
     overhead := default (overhead config) (upd_overhead self);
     scalar := default (scalar config) (upd_scalar self);
     gas_limit := gas_limit config;
     base_fee_scalar := base_fee_scalar config;
     blob_base_fee_scalar := blob_base_fee_scalar config;
     eip1559_denominator := eip1559_denominator config;
     eip1559_elasticity := eip1559_elasticity config;
     operator_fee_scalar := operator_fee_scalar config;
     operator_fee_constant := operator_fee_constant config |}.

Definition try_from `{AbiDecoder} (log : Log)
    : outcome GasConfigUpdateError GasConfigUpdate :=
  let data := log_data log in
  if decide (len data ≠ 128) then Err (InvalidDataLen (len data)) else
  pointer_bytes ← slice data 0 32;
  pointer ← ok_or (abi_uint64 pointer_bytes) PointerDecodingError;
  if decide (pointer ≠ 32) then Err (InvalidDataPointer pointer) else
  length_bytes ← slice data 32 64;
  length ← ok_or (abi_uint64 length_bytes) LengthDecodingError;
  if decide (length ≠ 64) then Err (InvalidDataLength length) else
  overhead_bytes ← slice data 64 96;
  overhead ← ok_or (abi_uint256 overhead_bytes) OverheadDecodingError;
  scalar_bytes ← slice data 96 (len data);
  scalar ← ok_or (abi_uint256 scalar_bytes) ScalarDecodingError;
  Ok (mk (Some scalar) (Some overhead)).
End GasConfigUpdate.

Module GasLimitUpdate.
Inductive GasLimitUpdateError :=
| InvalidDataLen (n : Z)
| PointerDecodingError
| InvalidDataPointer (p : Z)
| LengthDecodingError
| InvalidDataLength (n : Z)
| GasLimitDecodingError.

#[global] Instance error_eq_dec : EqDecision GasLimitUpdateError.
Proof. solve_decision. Defined.

Record GasLimitUpdate := mk { upd_gas_limit : Z }.

Definition apply (self : GasLimitUpdate) (config : SystemConfig) : SystemConfig :=
  {| batcher_address := batcher_address config;
     overhead := overhead config;
     scalar := scalar config;
     gas_limit := upd_gas_limit self;
     base_fee_scalar := base_fee_scalar config;
     blob_base_fee_scalar := blob_base_fee_scalar config;
     eip1559_denominator := eip1559_denominator config;
     eip1559_elasticity := eip1559_elasticity config;
     operator_fee_scalar := operator_fee_scalar config;
     operator_fee_constant := operator_fee_constant config |}.

(** [U64::from(gas_limit).saturating_to::<u64>()] is the identity below [max]. *)
Definition try_from `{AbiDecoder} (log : Log) : outcome GasLimitUpdateError GasLimitUpdate :=
  let data := log_data log in
  if decide (len data ≠ 96) then Err (InvalidDataLen (len data)) else
  pointer_bytes ← slice data 0 32;
  pointer ← ok_or (abi_uint64 pointer_bytes) PointerDecodingError;
  if decide (pointer ≠ 32) then Err (InvalidDataPointer pointer) else
  length_bytes ← slice data 32 64;
  length ← ok_or (abi_uint64 length_bytes) LengthDecodingError;
  if decide (length ≠ 32) then Err (InvalidDataLength length) else
  limit_bytes ← slice data 64 (len data);
  gas_limit ← ok_or (abi_uint256 limit_bytes) GasLimitDecodingError;
  let max := 2 ^ 64 - 1 in
  if decide (gas_limit > max) then Err GasLimitDecodingError else
  Ok (mk (Z.min gas_limit max)).
End GasLimitUpdate.

Module Eip1559Update.
Inductive EIP1559UpdateError :=
| InvalidDataLen (n : Z)
| PointerDecodingError
| InvalidDataPointer (p : Z)
| LengthDecodingError
| InvalidDataLength (n : Z)
| EIP1559DecodingError.

#[global] Instance error_eq_dec : EqDecision EIP1559UpdateError.
Proof. solve_decision. Defined.

Record Eip1559Update := mk { upd_denominator : Z; upd_elasticity : Z }.

Definition apply (self : Eip1559Update) (config : SystemConfig) : SystemConfig :=
  {| batcher_address := batcher_address config;
     overhead := overhead config;
     scalar := scalar config;
     gas_limit := gas_limit config;
     base_fee_scalar := base_fee_scalar config;
     blob_base_fee_scalar := blob_base_fee_scalar config;
     eip1559_denominator := Some (upd_denominator self);
     eip1559_elasticity := Some (upd_elasticity self);
     operator_fee_scalar := operator_fee_scalar config;
     operator_fee_constant := operator_fee_constant config |}.

Definition try_from `{AbiDecoder} (log : Log) : outcome EIP1559UpdateError Eip1559Update :=
  let data := log_data log in
  if decide (len data ≠ 96) then Err (InvalidDataLen (len data)) else
  pointer_bytes ← slice data 0 32;
  pointer ← ok_or (abi_uint64 pointer_bytes) PointerDecodingError;
  if decide (pointer ≠ 32) then Err (InvalidDataPointer pointer) else
  length_bytes ← slice data 32 64;
  length ← ok_or (abi_uint64 length_bytes) LengthDecodingError;
  if decide (length ≠ 32) then Err (InvalidDataLength length) else
  params_bytes ← slice data 64 96;
  eip1559_params ← ok_or (abi_uint64 params_bytes) EIP1559DecodingError;
  Ok (mk (wrap 32 (Z.shiftr eip1559_params 32)) (wrap 32 eip1559_params)).
End Eip1559Update.

Module OperatorFeeUpdate.
Inductive OperatorFeeUpdateError :=
| InvalidDataLen (n : Z)
| PointerDecodingError
| InvalidDataPointer (p : Z)
| LengthDecodingError
| InvalidDataLength (n : Z)
| ScalarDecodingError
| ConstantDecodingError.

#[global] Instance error_eq_dec : EqDecision OperatorFeeUpdateError.
Proof. solve_decision. Defined.

Record OperatorFeeUpdate := mk { upd_operator_fee_scalar : Z; upd_operator_fee_constant : Z }.

Definition apply (self : OperatorFeeUpdate) (config : SystemConfig) : SystemConfig :=
  {| batcher_address := batcher_address config;
     overhead := overhead config;
     scalar := scalar config;
     gas_limit := gas_limit config;
     base_fee_scalar := base_fee_scalar config;
     blob_base_fee_scalar := blob_base_fee_scalar config;
     eip1559_denominator := eip1559_denominator config;
     eip1559_elasticity := eip1559_elasticity config;
     operator_fee_scalar := Some (upd_operator_fee_scalar self);
     operator_fee_constant := Some (upd_operator_fee_constant self) |}.

Definition try_from `{AbiDecoder} (log : Log)
    : outcome OperatorFeeUpdateError OperatorFeeUpdate :=
  let data := log_data log in
  if decide (len data ≠ 96) then Err (InvalidDataLen (len data)) else
  pointer_bytes ← slice data 0 32;
  pointer ← ok_or (abi_uint64 pointer_bytes) PointerDecodingError;
  if decide (pointer ≠ 32) then Err (InvalidDataPointer pointer) else
  length_bytes ← slice data 32 64;
  length ← ok_or (abi_uint64 length_bytes) LengthDecodingError;
  if decide (length ≠ 32) then Err (InvalidDataLength length) else
  scalar_bytes ← slice data 84 88;
  constant_bytes ← slice data 88 96;
  Ok (mk (be_val scalar_bytes) (be_val constant_bytes)).
End OperatorFeeUpdate.

Module UnsafeBlockSignerUpdate.
Inductive UnsafeBlockSignerUpdateError :=
| InvalidDataLen (n : Z)
| PointerDecodingError
| InvalidDataPointer (p : Z)
| LengthDecodingError
| InvalidDataLength (n : Z)
| UnsafeBlockSignerAddressDecodingError.

#[global] Instance error_eq_dec : EqDecision UnsafeBlockSignerUpdateError.
Proof. solve_decision. Defined.

Record UnsafeBlockSignerUpdate := mk { upd_unsafe_block_signer : Address }.

Definition try_from `{AbiDecoder} (log : Log)
    : outcome UnsafeBlockSignerUpdateError UnsafeBlockSignerUpdate :=
  let data := log_data log in
  if decide (len data ≠ 96) then Err (InvalidDataLen (len data)) else
  pointer_bytes ← slice data 0 32;
  pointer ← ok_or (abi_uint64 pointer_bytes) PointerDecodingError;
  if decide (pointer ≠ 32) then Err (InvalidDataPointer pointer) else
  length_bytes ← slice data 32 64;
  length ← ok_or (abi_uint64 length_bytes) LengthDecodingError;
  if decide (length ≠ 32) then Err (InvalidDataLength length) else
  signer_bytes ← slice data 64 (len data);
  signer ← ok_or (abi_address signer_bytes) UnsafeBlockSignerAddressDecodingError;
  Ok (mk signer).
End UnsafeBlockSignerUpdate.

Inductive SystemConfigUpdateError :=
| ELogProcessing (e : LogProcessingError)
| EBatcher (e : BatcherUpdate.BatcherUpdateError)
| EGasConfig (e : GasConfigUpdate.GasConfigUpdateError)
| EGasLimit (e : GasLimitUpdate.GasLimitUpdateError)
| EEip1559 (e : Eip1559Update.EIP1559UpdateError)
| EOperatorFee (e : OperatorFeeUpdate.OperatorFeeUpdateError)
| EUnsafeBlockSigner (e : UnsafeBlockSignerUpdate.UnsafeBlockSignerUpdateError).

#[global] Instance system_config_update_error_eq_dec : EqDecision SystemConfigUpdateError.
Proof. solve_decision. Defined.

Inductive SystemConfigUpdate :=
| Batcher (u : BatcherUpdate.BatcherUpdate)
| GasConfig (u : GasConfigUpdate.GasConfigUpdate)
| GasLimit (u : GasLimitUpdate.GasLimitUpdate)
| UnsafeBlockSigner (u : UnsafeBlockSignerUpdate.UnsafeBlockSignerUpdate)
| Eip1559 (u : Eip1559Update.Eip1559Update)
| OperatorFee (u : OperatorFeeUpdate.OperatorFeeUpdate).

(** * Operations *)

(** [SystemConfigUpdateKind::try_from]. *)
Definition kind_try_from (value : Z) : outcome SystemConfigUpdateError SystemConfigUpdateKind :=
  match value with
  | 0 => Ok KBatcher
  | 1 => Ok KGasConfig
  | 2 => Ok KGasLimit
  | 3 => Ok KUnsafeBlockSigner
  | 4 => Ok KEip1559
  | 5 => Ok KOperatorFee
  | _ => Err (ELogProcessing (InvalidSystemConfigUpdateType value))
  end.

(** [SystemConfigUpdate::apply] and [kind]. *)
Definition apply (self : SystemConfigUpdate) (config : SystemConfig) : SystemConfig :=
  match self with
  | Batcher update => BatcherUpdate.apply update config
  | GasConfig _ => config
  | GasLimit _ => config
  | UnsafeBlockSigner _ => config
  | Eip1559 _ => config
  | OperatorFee _ => config
  end.

Definition kind (self : SystemConfigUpdate) : SystemConfigUpdateKind :=
  match self with
  | Batcher _ => KBatcher
  | GasConfig _ => KGasConfig
  | GasLimit _ => KGasLimit
  | UnsafeBlockSigner _ => KUnsafeBlockSigner
  | Eip1559 _ => KEip1559
  | OperatorFee _ => KOperatorFee
  end.

Definition validate_topic (self : Log) : outcome LogProcessingError unit :=
  if decide (len (log_topics self) < 3) then Err (InvalidTopicLen (len (log_topics self))) else
  topic ← index (log_topics self) 0;
  if decide (topic ≠ CONFIG_UPDATE_TOPIC) then Err InvalidTopic else Ok tt.

Definition validate_version (self : Log) : outcome LogProcessingError unit :=
  version ← index (log_topics self) 1;
  if decide (version ≠ CONFIG_UPDATE_EVENT_VERSION_0) then Err (UnsupportedVersion version)
  else Ok tt.

Definition update_type (self : Log) : outcome SystemConfigUpdateError SystemConfigUpdateKind :=
  if decide (len (log_topics self) < 3)
  then Err (ELogProcessing (InvalidTopicLen (len (log_topics self)))) else
  topic ← index (log_topics self) 2;
  topic_slice ← slice topic 24 (len topic);
  topic_bytes ← ok_or (try_array 8 topic_slice) (ELogProcessing UpdateTypeDecodingError);
  kind_try_from (be_val topic_bytes).

Definition build `{AbiDecoder} (self : Log) : outcome SystemConfigUpdateError SystemConfigUpdate :=
  _ ← map_err ELogProcessing (validate_topic self);
  _ ← map_err ELogProcessing (validate_version self);
  ty ← update_type self;
  match ty with
  | KBatcher => update ← map_err EBatcher (BatcherUpdate.try_from self); Ok (Batcher update)
  | KGasConfig => update ← map_err EGasConfig (GasConfigUpdate.try_from self); Ok (GasConfig update)
  | KGasLimit => update ← map_err EGasLimit (GasLimitUpdate.try_from self); Ok (GasLimit update)
  | KEip1559 => update ← map_err EEip1559 (Eip1559Update.try_from self); Ok (Eip1559 update)
  | KOperatorFee =>
      update ← map_err EOperatorFee (OperatorFeeUpdate.try_from self); Ok (OperatorFee update)
  | KUnsafeBlockSigner =>
      update ← map_err EUnsafeBlockSigner (UnsafeBlockSignerUpdate.try_from self);
      Ok (UnsafeBlockSigner update)
  end.

Definition process_config_update_log `{AbiDecoder} (log : Log)
    : ST SystemConfig SystemConfigUpdateError SystemConfigUpdateKind :=
  update ← lift (build log);
  _ ← modify (apply update);
  mret (kind update).

(** The closure of [try_for_each] over a receipt's logs. *)
Definition process_log `{AbiDecoder} (l1_system_config_address : Address) (log : Log)
    : ST SystemConfig SystemConfigUpdateError unit :=
  let topics := log_topics log in
  if bool_decide (log_address log = l1_system_config_address)
     && negb (bool_decide (topics = []))
     && bool_decide (topics !! 0%nat = Some CONFIG_UPDATE_TOPIC)
  then _ ← process_config_update_log log; mret tt
  else mret tt.

Definition update_with_receipts `{AbiDecoder} (receipts : list Receipt)
    (l1_system_config_address : Address) : ST SystemConfig SystemConfigUpdateError unit :=
  for_each (λ receipt,
    match receipt_status receipt with
    | Eip658 false => mret tt
    | _ => for_each (process_log l1_system_config_address) (receipt_logs receipt)
    end) receipts.

(** [eip_1559_params]: always the zero parameters. *)
Definition eip_1559_params (self : SystemConfig) (_parent_timestamp _next_timestamp : Z)
    : option bytes := Some (replicate 8 byte0).

(** * Specification *)

(** The logs the configuration is updated from: those of the system config contract
    with the update topic, in receipts that did not fail, in block order. *)
Definition is_config_log (addr : Address) (log : Log) : bool :=
  bool_decide (log_address log = addr) && bool_decide (log_topics log !! 0%nat = Some CONFIG_UPDATE_TOPIC).

Definition config_logs (addr : Address) (receipts : list Receipt) : list Log :=
  concat (map (λ r, if bool_decide (receipt_status r = Eip658 false) then []
                    else List.filter (is_config_log addr) (receipt_logs r)) receipts).

Definition batcher_of (u : SystemConfigUpdate) : option Address :=
  match u with Batcher u => Some (BatcherUpdate.upd_batcher_address u) | _ => None end.

Definition set_batcher_address (a : Address) (config : SystemConfig) : SystemConfig :=
  BatcherUpdate.apply (BatcherUpdate.mk a) config.

Section updates.
Context `{AbiDecoder}.

Definition apply_log (log : Log) : ST SystemConfig SystemConfigUpdateError unit :=
  _ ← process_config_update_log log; mret tt.

Lemma process_log_eq addr log :
  process_log addr log = if is_config_log addr log then apply_log log else mret tt.
Proof.
  unfold process_log, is_config_log. destruct (log_topics log) as [|t ts]; cbn.
  - by rewrite !andb_false_r.
  - by rewrite andb_true_r.
Qed.

Lemma for_each_filter addr logs s :
  for_each (process_log addr) logs s = for_each apply_log (List.filter (is_config_log addr) logs) s.
Proof.
  revert s. induction logs as [|log logs IH]; intros s; [done|]. cbn [for_each List.filter].
  rewrite process_log_eq. destruct (is_config_log addr log); cbn [for_each]; [|by rewrite <- IH].
  unfold mbind, st_bind. destruct (apply_log log s) as [[r|e|] s']; [|done..]. by rewrite <- IH.
Qed.

Lemma update_with_receipts_eq receipts addr s :
  update_with_receipts receipts addr s = for_each apply_log (config_logs addr receipts) s.
Proof.
  revert s. unfold update_with_receipts, config_logs.
  induction receipts as [|r rs IH]; intros s; [done|]. cbn [for_each map concat].
  destruct (receipt_status r) as [[|]|root] eqn:Hr.
  1,3: rewrite bool_decide_eq_false_2, for_each_app, !bind_run, for_each_filter by congruence;
    destruct (for_each apply_log _ s) as [[u|e|] s']; [apply IH|done..].
  rewrite bool_decide_eq_true_2 by done. apply IH.
Qed.

Lemma apply_batcher_of u cfg :
  apply u cfg = set_batcher_address (default (batcher_address cfg) (batcher_of u)) cfg.
Proof. by destruct u, cfg. Qed.

Lemma set_batcher_twice a b cfg :
  set_batcher_address b (set_batcher_address a cfg) = set_batcher_address b cfg.
Proof. done. Qed.

Lemma set_batcher_last a us cfg :
  set_batcher_address (default (batcher_address (set_batcher_address a cfg))
                         (last (omap batcher_of us))) (set_batcher_address a cfg)
  = set_batcher_address (default a (last (omap batcher_of us))) cfg.
Proof. done. Qed.

Lemma last_cons_default {A} (x d : A) l : default d (last (x :: l)) = default x (last l).
Proof. rewrite last_cons. by destruct (last l). Qed.

Lemma apply_log_run log cfg :
  apply_log log cfg = match build log with
                      | Ok u => (Ok tt, apply u cfg)
                      | Err e => (Err e, cfg)
                      | Panic => (Panic, cfg)
                      end.
Proof.
  unfold apply_log, process_config_update_log. rewrite !bind_run. unfold lift.
  by destruct (build log).
Qed.

Lemma for_each_apply logs cfg :
  ∃ done us rest,
    logs = done ++ rest ∧ Forall2 (λ log u, build log = Ok u) done us ∧
    exec (for_each apply_log logs) cfg
    = set_batcher_address (default (batcher_address cfg) (last (omap batcher_of us))) cfg ∧
    match run (for_each apply_log logs) cfg with
    | Ok _ => rest = []
    | Err e => ∃ l k, rest = l :: k ∧ build l = Err e
    | Panic => ∃ l k, rest = l :: k ∧ build l = Panic
    end.
Proof.
  revert cfg. induction logs as [|log logs IH]; intros cfg.
  { exists [], [], []. cbn. destruct cfg. repeat split; constructor. }
  unfold run, exec. cbn [for_each]. rewrite !bind_run, !apply_log_run.
  destruct (build log) as [u|e|] eqn:Hb.
  - destruct (IH (apply u cfg)) as (dn & us & rest & -> & Hall & Hx & Hr).
    exists (log :: dn), (u :: us), rest. split_and!; [done|by constructor| |done].
    unfold exec in Hx. rewrite Hx, apply_batcher_of, set_batcher_last. cbn.
    destruct (batcher_of u) as [a|]; cbn [default]; [|done]. by rewrite last_cons_default.
  - exists [], [], (log :: logs). cbn. split_and!; [done|constructor|by destruct cfg|eauto].
  - exists [], [], (log :: logs). cbn. split_and!; [done|constructor|by destruct cfg|eauto].
Qed.

(** ** Decoding a log *)

Definition log_wf (log : Log) : Prop := Forall (λ t, len t = 32) (log_topics log).

Ltac no_panic_step :=
  match goal with
  | |- context [@slice ?E _ ?l ?a ?b] =>
      let x := fresh "x" in let Hx := fresh "Hx" in
      destruct (slice_total (E:=E) l a b) as (x & Hx & _);
      [lia|lia|rewrite Hx; clear Hx; cbn [mbind outcome_bind]]
  | |- context [ok_or ?o ?e] => destruct o; cbn [ok_or mbind outcome_bind]; [|done]
  | |- context [decide ?P] => destruct (decide P); [done|]
  end.

Lemma try_from_not_Panic log :
  BatcherUpdate.try_from log ≠ Panic ∧ GasConfigUpdate.try_from log ≠ Panic
  ∧ GasLimitUpdate.try_from log ≠ Panic ∧ Eip1559Update.try_from log ≠ Panic
  ∧ OperatorFeeUpdate.try_from log ≠ Panic ∧ UnsafeBlockSignerUpdate.try_from log ≠ Panic.
Proof.
  split_and!; [unfold BatcherUpdate.try_from|unfold GasConfigUpdate.try_from
    |unfold GasLimitUpdate.try_from|unfold Eip1559Update.try_from
    |unfold OperatorFeeUpdate.try_from|unfold UnsafeBlockSignerUpdate.try_from];
    repeat no_panic_step; done.
Qed.

Lemma log_topic log i t : log_wf log → log_topics log !! i = Some t → len t = 32.
Proof. unfold log_wf. rewrite Forall_lookup. eauto. Qed.

(** [build] with its topic checks read off the list of topics. *)
Lemma build_topics log t0 t1 t2 ts :
  log_topics log = t0 :: t1 :: t2 :: ts →
  validate_topic log = (if decide (t0 ≠ CONFIG_UPDATE_TOPIC) then Err InvalidTopic else Ok tt)
  ∧ validate_version log
    = (if decide (t1 ≠ CONFIG_UPDATE_EVENT_VERSION_0) then Err (UnsupportedVersion t1) else Ok tt)
  ∧ (len t2 = 32 → update_type log = kind_try_from (be_val (drop 24 t2))).
Proof.
  intros Ht. unfold validate_topic, validate_version, update_type. rewrite Ht.
  pose proof (len_nonneg ts). rewrite !decide_False by (rewrite !len_cons; lia).
  split_and!; [done|done|]. intros Hl. clear Ht.
  rewrite decide_False by (rewrite !len_cons; lia).
  change (t0 :: t1 :: t2 :: ts) with ([t0; t1] ++ t2 :: ts). rewrite index_app by done.
  cbn [mbind outcome_bind].
  destruct (slice_total (E:=SystemConfigUpdateError) t2 24 (len t2)) as (x & Hx & Hlen); [lia..|].
  rewrite Hx. cbn. rewrite try_array_Some by lia. cbn. do 2 f_equal.
  unfold slice in Hx. rewrite decide_True in Hx by lia. injection Hx as <-.
  apply take_ge. rewrite length_drop. unfold len in *. lia.
Qed.

Lemma build_short log : len (log_topics log) < 3 → is_err (build log) = true.
Proof. intros. unfold build, validate_topic. by rewrite decide_True. Qed.

Lemma kind_try_from_not_Panic z : kind_try_from z ≠ Panic.
Proof. unfold kind_try_from. by repeat case_match. Qed.
Lemma kind_try_from_batcher z : kind_try_from z = Ok KBatcher ↔ z = 0.
Proof. split; [|by intros ->]. unfold kind_try_from. by repeat case_match. Qed.

Lemma build_not_Panic log : log_wf log → build log ≠ Panic.
Proof.
  intros Hwf. destruct (decide (len (log_topics log) < 3)) as [Hs|Hs].
  { apply build_short in Hs. by destruct (build log). }
  destruct (log_topics log) as [|t0 [|t1 [|t2 ts]]] eqn:Ht; try by (cbv in Hs; destruct Hs).
  pose proof (log_topic log 2 t2 Hwf ltac:(by rewrite Ht)) as Hl.
  destruct (build_topics log t0 t1 t2 ts Ht) as (H0 & H1 & H2).
  unfold build. rewrite H0, H1, H2 by done.
  destruct (decide (t0 ≠ _)); cbn [map_err mbind outcome_bind]; [done|].
  destruct (decide (t1 ≠ _)); cbn [map_err mbind outcome_bind]; [done|].
  destruct (try_from_not_Panic log) as (? & ? & ? & ? & ? & ?).
  destruct (kind_try_from _) as [[]|e|] eqn:Hk; [| | | | | |done|by apply kind_try_from_not_Panic in Hk];
    cbn [mbind outcome_bind];
    match goal with |- context [map_err _ ?m] => by destruct m end.
Qed.

Lemma slices_concat (a b c : bytes) :
  len a = 32 → len b = 32 → len c = 32 →
  slice (E:=BatcherUpdate.BatcherUpdateError) (a ++ b ++ c) 0 32 = Ok a
  ∧ slice (E:=BatcherUpdate.BatcherUpdateError) (a ++ b ++ c) 32 64 = Ok b
  ∧ slice (E:=BatcherUpdate.BatcherUpdateError) (a ++ b ++ c) 64 96 = Ok c.
Proof.
  intros Ha Hb Hc. split_and!.
  - by apply slice_app.
  - apply slice_app_r; lia.
  - rewrite (app_assoc a b c). replace 96 with (len ((a ++ b) ++ c)) by (rewrite !len_app; lia).
    replace 64 with (len (a ++ b)) by (rewrite len_app; lia). apply slice_suffix.
Qed.

Lemma batcher_try_from_iff log a :
  BatcherUpdate.try_from log = Ok (BatcherUpdate.mk a) ↔
  ∃ p l w, log_data log = p ++ l ++ w ∧ len p = 32 ∧ len l = 32 ∧ len w = 32
    ∧ abi_uint64 p = Some 32 ∧ abi_uint64 l = Some 32 ∧ abi_address w = Some a.
Proof.
  unfold BatcherUpdate.try_from. split.
  - case_decide as Hlen; [done|]. assert (len (log_data log) = 96) as Hl by lia.
    set (p := take 32 (log_data log)). set (l := take 32 (drop 32 (log_data log))).
    set (w := drop 64 (log_data log)).
    assert (log_data log = p ++ l ++ w) as Hd.
    { unfold p, l, w. change 64%nat with (32 + 32)%nat. by rewrite <- drop_drop, !take_drop. }
    unfold len in Hl.
    assert (len p = 32 ∧ len l = 32 ∧ len w = 32) as (Hp & Hll & Hw).
    { unfold p, l, w, len. rewrite !length_take, !length_drop. lia. }
    destruct (slices_concat p l w Hp Hll Hw) as (H1 & H2 & H3). rewrite Hd, H1. cbn.
    destruct (abi_uint64 p) as [pt|] eqn:Ep; [|done]. cbn. case_decide; [done|].
    rewrite H2. cbn. destruct (abi_uint64 l) as [ln|] eqn:El; [|done]. cbn. case_decide; [done|].
    rewrite H3. cbn. destruct (abi_address w) as [a'|] eqn:Ew; [|done]. intros [= ->].
    exists p, l, w. split_and!; try done; f_equal; naive_solver.
  - intros (p & l & w & Hd & Hp & Hl & Hw & Ep & El & Ew).
    destruct (slices_concat p l w Hp Hl Hw) as (H1 & H2 & H3).
    rewrite Hd, decide_False by (rewrite !len_app; lia).
    rewrite H1. cbn. rewrite Ep. cbn. rewrite H2. cbn. rewrite El. cbn. rewrite H3. cbn.
    by rewrite Ew.
Qed.

(** The update of a block, as [update_with_receipts_spec] states it. *)
Lemma update_with_receipts_run (receipts : list Receipt) (addr : Address) (cfg : SystemConfig) :
  Forall (λ r, Forall log_wf (receipt_logs r)) receipts →
  ∃ done us rest,
    config_logs addr receipts = done ++ rest ∧
    Forall2 (λ log u, build log = Ok u) done us ∧
    exec (update_with_receipts receipts addr) cfg
    = set_batcher_address (default (batcher_address cfg) (last (omap batcher_of us))) cfg ∧
    match run (update_with_receipts receipts addr) cfg with
    | Ok _ => rest = []
    | Err e => ∃ log k, rest = log :: k ∧ build log = Err e
    | Panic => False
    end.
Proof.
  intros Hwf. destruct (for_each_apply (config_logs addr receipts) cfg)
    as (dn & us & rest & Hlogs & Hall & Hx & Hr).
  exists dn, us, rest. unfold run, exec. rewrite update_with_receipts_eq.
  split_and!; [done..|]. fold (run (for_each apply_log (config_logs addr receipts)) cfg).
  destruct (run _ cfg); [done..|]. destruct Hr as (l & k & -> & Hp).
  apply build_not_Panic in Hp; [done|].
  assert (l ∈ config_logs addr receipts) as Hin.
  { rewrite Hlogs. apply elem_of_app. right. apply elem_of_cons. by left. }
  unfold config_logs in Hin. apply list_elem_of_In, in_concat in Hin as (ls & Hls & Hl).
  apply in_map_iff in Hls as (r & <- & Hr). rewrite Forall_forall in Hwf.
  apply list_elem_of_In in Hr. specialize (Hwf r Hr). rewrite Forall_forall in Hwf.
  apply Hwf. case_bool_decide; [done|]. apply List.filter_In in Hl as [Hl _].
  by apply list_elem_of_In.
Qed.

(** ** Theorems *)

(** The system configuration after a block: whatever the receipts hold, the only
    field that changes is the batcher address, and it becomes the one of the last
    batcher update among the update logs that precede the first undecodable one
    (in block order, failed receipts and foreign logs skipped).  Success means that
    every update log decoded; an error is the first undecodable log's, and the
    updates before it stay applied.  No log with 32-byte topics makes it panic. *)
Theorem update_with_receipts_spec (receipts : list Receipt) (addr : Address)
    (cfg : SystemConfig) :
  Forall (λ r, Forall log_wf (receipt_logs r)) receipts →
  ∃ done us rest,
    config_logs addr receipts = done ++ rest ∧
    Forall2 (λ log u, build log = Ok u) done us ∧
    exec (update_with_receipts receipts addr) cfg
    = set_batcher_address (default (batcher_address cfg) (last (omap batcher_of us))) cfg ∧
    match run (update_with_receipts receipts addr) cfg with
    | Ok _ => rest = []
    | Err e => ∃ log k, rest = log :: k ∧ build log = Err e
    | Panic => False
    end.
Proof. apply update_with_receipts_run. Qed.

(** A log (with 32-byte topics) decodes to the batcher update [a] exactly when it
    has at least three topics, the update topic, version zero and update type 0 (read
    from the last 8 bytes only), and its 96 bytes of data are the words 32, 32 and
    the address [a]. *)
Theorem build_batcher_iff (log : Log) (a : Address) :
  log_wf log →
  build log = Ok (Batcher (BatcherUpdate.mk a)) ↔
  (∃ ty ts, log_topics log = CONFIG_UPDATE_TOPIC :: CONFIG_UPDATE_EVENT_VERSION_0 :: ty :: ts
     ∧ be_val (drop 24 ty) = 0) ∧
  (∃ p l w, log_data log = p ++ l ++ w ∧ len p = 32 ∧ len l = 32 ∧ len w = 32
    ∧ abi_uint64 p = Some 32 ∧ abi_uint64 l = Some 32 ∧ abi_address w = Some a).
Proof.
  intros Hwf. rewrite <- batcher_try_from_iff.
  destruct (decide (len (log_topics log) < 3)) as [Hs|Hs].
  { pose proof (build_short log Hs) as He. split; [by intros Hb; rewrite Hb in He|].
    intros [(ty & ts & Ht & _) _]. rewrite Ht, !len_cons in Hs. pose proof (len_nonneg ts). lia. }
  destruct (log_topics log) as [|t0 [|t1 [|t2 ts]]] eqn:Ht; try by (cbv in Hs; destruct Hs).
  pose proof (log_topic log 2 t2 Hwf ltac:(by rewrite Ht)) as Hl.
  destruct (build_topics log t0 t1 t2 ts Ht) as (H0 & H1 & H2).
  unfold build. rewrite H0, H1, H2 by done.
  destruct (decide (t0 ≠ _)) as [Hd0|Hd0]; [naive_solver|].
  destruct (decide (t1 ≠ _)) as [Hd1|Hd1]; [naive_solver|].
  apply dec_stable in Hd0, Hd1. subst t0 t1. cbn [map_err mbind outcome_bind].
  split.
  - destruct (kind_try_from _) as [[]|e|] eqn:Hk; cbn; [|try done..].
    2-6: match goal with |- context [map_err _ ?m] => by destruct m end.
    apply kind_try_from_batcher in Hk.
    destruct (BatcherUpdate.try_from log) as [u|e|]; cbn; [|done..].
    intros [= ->]. split; [|done]. by exists t2, ts.
  - intros [(ty & ts' & Heq & Hz) Hb]. assert (ty = t2) as -> by congruence.
    rewrite Hz. cbn. by rewrite Hb.
Qed.
End updates.

(** ** Witnesses *)

(** An ABI decoder for the witnesses: 32-byte big-endian words. *)
#[local] Instance word_abi : AbiDecoder :=
  {| abi_uint64 w := if decide (len w = 32 ∧ be_val w < 2 ^ 64) then Some (be_val w) else None;
     abi_uint256 w := if decide (len w = 32) then Some (be_val w) else None;
     abi_address w := if decide (len w = 32 ∧ be_val w < 2 ^ 160) then Some (drop 12 w) else None |}.

Definition example_address : Address := replicate 20 (z2b 170).
Definition example_log (ty : Z) (a : Address) : Log :=
  {| log_address := example_address;
     log_topics := [CONFIG_UPDATE_TOPIC; CONFIG_UPDATE_EVENT_VERSION_0; be_bytes 32 ty];
     log_data := be_bytes 32 32 ++ be_bytes 32 32 ++ replicate 12 byte0 ++ a |}.
Definition example_receipts : list Receipt :=
  [ mkReceipt (Eip658 true) [example_log 0 (replicate 20 byte1)];
    mkReceipt (Eip658 false) [example_log 0 (replicate 20 (z2b 9))];
    mkReceipt (Eip658 true) [example_log 2 (replicate 20 (z2b 3))] ].

Lemma example_log_wf ty a : log_wf (example_log ty a).
Proof.
  unfold log_wf, example_log, CONFIG_UPDATE_TOPIC. cbn [log_topics].
  repeat constructor; by rewrite ?len_be_bytes.
Qed.

Lemma update_with_receipts_spec_witness :
  ∃ done us rest,
    config_logs example_address example_receipts = done ++ rest ∧
    exec (update_with_receipts example_receipts example_address) SystemConfig_default
    = set_batcher_address (default Address_ZERO (last (omap batcher_of us))) SystemConfig_default.
Proof.
  destruct (update_with_receipts_spec example_receipts example_address SystemConfig_default)
    as (dn & us & rest & Hlogs & _ & Hx & _).
  - repeat constructor; apply example_log_wf.
  - exists dn, us, rest. split; [exact Hlogs|exact Hx].
Defined.

Lemma build_batcher_iff_witness :
  build (example_log 0 (replicate 20 byte1))
  = Ok (Batcher (BatcherUpdate.mk (replicate 20 byte1))).
Proof.
  apply (build_batcher_iff (example_log 0 (replicate 20 byte1)) (replicate 20 byte1)).
  - apply example_log_wf.
  - split.
    + exists (be_bytes 32 0), []. split; [reflexivity|]. vm_compute. reflexivity.
    + exists (be_bytes 32 32), (be_bytes 32 32), (replicate 12 byte0 ++ replicate 20 byte1).
      split_and!; vm_compute; reflexivity.
Defined.

(** An update of an ignored kind that does not decode still fails the block, after the
    batcher update before it has been applied. *)
Example update_with_receipts_partial :
  update_with_receipts example_receipts example_address SystemConfig_default
  = (Err (EGasLimit GasLimitUpdate.GasLimitDecodingError),
     set_batcher_address (replicate 20 byte1) SystemConfig_default).
Proof. vm_compute. reflexivity. Qed.
