(* ===== verification/Types.v ===== *)
(** Errors, signals and stage interfaces of the derivation pipeline
    (src/crates/derive/src/errors/, types/ and traits/).

    Each trait a stage is generic over is a class of operations on the state [P] of the
    previous stage.  The [..Laws] classes state what a stage may rely on: clients are
    verified against them and every implementation gives an instance. *)
From S2P Require Import Prelude Blocks Frame SystemConfig.
#[local] Open Scope Z_scope.

(** * Errors *)

Inductive SpanDecodingError :=
| RelativeTimestamp | L1OriginNumber | ParentCheck | L1OriginCheck | BlockCount
| BlockTxCounts | TxNonces | TypeSignatureLenMismatch | InvalidTransactionType
| InvalidTransactionData | InvalidTransactionSignature.

Inductive SpanBatchError :=
| TooBigSpanBatchSize
| BitfieldTooLong
| EmptySpanBatch
| MissingL1Origin
| Decoding (e : SpanDecodingError).

Inductive BuilderError :=
| BlockMismatch (expected got : BlockNumHash)
| BlockMismatchEpochReset (expected got : BlockNumHash) (parent : B256)
| BSystemConfigUpdate
| BrokenTimeInvariant (origin : BlockNumHash) (next_l2_time : Z) (l1 : BlockNumHash) (l1_time : Z)
| AttributesUnavailable
| Custom (msg : string).

(** Errors of other crates ([alloy_rlp::Error], [DepositError]) carry their message. *)
Inductive PipelineEncodingError :=
| EmptyBuffer
| DepositErr (msg : string)
| AlloyRlpError (msg : string)
| SpanBatchErr (e : SpanBatchError)
| L2TxSerializeErr (msg : string).

Inductive PipelineError :=
| Eof
| NotEnoughData
| ChannelProviderEmpty
| ChannelAlreadyBuilt
| ChannelNotFound
| ChannelReaderEmpty
| BatchQueueEmpty
| MissingOrigin
| MissingL1Data
| InvalidBatchType
| InvalidBatchValidity
| SystemConfigUpdateErr (e : SystemConfigUpdateError)
| AttributesBuilderErr (e : BuilderError)
| BadEncoding (e : PipelineEncodingError)
| EndOfSource
| Provider (msg : string)
| ParseDepositTxErr (msg : string)
| ParseL1BlockInfoTxErr (msg : string).

Inductive ResetError :=
| BadParentHash (expected got : B256)
| BadTimestamp (expected got : Z)
| L1OriginMismatch (expected got : Z)
| ReorgDetected (expected got : B256)
| RAttributesBuilder (e : BuilderError)
| HoloceneActivation.

Inductive PipelineErrorKind :=
| Temporary (e : PipelineError)
| Critical (e : PipelineError)
| ResetKind (e : ResetError).

#[global] Instance span_decoding_error_eq_dec : EqDecision SpanDecodingError.
Proof. solve_decision. Defined.
#[global] Instance span_batch_error_eq_dec : EqDecision SpanBatchError.
Proof. solve_decision. Defined.
#[global] Instance builder_error_eq_dec : EqDecision BuilderError.
Proof. solve_decision. Defined.
#[global] Instance pipeline_encoding_error_eq_dec : EqDecision PipelineEncodingError.
Proof. solve_decision. Defined.
#[global] Instance pipeline_error_eq_dec : EqDecision PipelineError.
Proof. solve_decision. Defined.
#[global] Instance reset_error_eq_dec : EqDecision ResetError.
Proof. solve_decision. Defined.
#[global] Instance pipeline_error_kind_eq_dec : EqDecision PipelineErrorKind.
Proof. solve_decision. Defined.

(** [PipelineError::crit], [PipelineError::temp] and [ResetError::reset]. *)
Definition crit (self : PipelineError) : PipelineErrorKind := Critical self.
Definition temp (self : PipelineError) : PipelineErrorKind := Temporary self.
Definition reset (self : ResetError) : PipelineErrorKind := ResetKind self.

Definition is_temporary (e : PipelineErrorKind) : bool :=
  match e with Temporary _ => true | _ => false end.
Definition is_critical (e : PipelineErrorKind) : bool :=
  match e with Critical _ => true | _ => false end.

(** The test [PipelineErrorKind::Temporary(PipelineError::Eof)] of the stages. *)
Definition is_temp_eof (e : PipelineErrorKind) : bool := bool_decide (e = Temporary Eof).

(** [PipelineResult], for a method on the state [S]. *)
Abbreviation PipelineM S A := (ST S PipelineErrorKind A) (only parsing).

Inductive BlobDecodingError :=
| InvalidFieldElement
| InvalidEncodingVersion
| InvalidLength
| MissingData.

Inductive BlobProviderError :=
| SidecarLengthMismatch (expected got : Z)
| SlotDerivation
| BlobDecoding (e : BlobDecodingError)
| Backend (msg : string).

(** [From<BlobProviderError> for PipelineErrorKind]; [to_string] is the error's
    [Display] text. *)
Definition blob_provider_error_kind (to_string : BlobProviderError → string)
    (val : BlobProviderError) : PipelineErrorKind :=
  match val with
  | SidecarLengthMismatch _ _ => crit (Provider (to_string val))
  | SlotDerivation => crit (Provider (to_string val))
  | BlobDecoding _ => crit (Provider (to_string val))
  | Backend _ => temp (Provider (to_string val))
  end.

(** * Signals and step results *)

Record ResetSignal := mkResetSignal {
  rs_l2_safe_head : L2BlockInfo;
  rs_l1_origin : BlockInfo;
  rs_system_config : option SystemConfig;
}.

Record ActivationSignal := mkActivationSignal {
  as_l2_safe_head : L2BlockInfo;
  as_l1_origin : BlockInfo;
  as_system_config : option SystemConfig;
}.

Inductive Signal :=
| Reset (s : ResetSignal)
| Activation (s : ActivationSignal)
| FlushChannel.

Definition reset_with_system_config (self : ResetSignal) (system_config : SystemConfig)
    : ResetSignal :=
  mkResetSignal (rs_l2_safe_head self) (rs_l1_origin self) (Some system_config).

Definition activation_with_system_config (self : ActivationSignal)
    (system_config : SystemConfig) : ActivationSignal :=
  mkActivationSignal (as_l2_safe_head self) (as_l1_origin self) (Some system_config).

Definition with_system_config (self : Signal) (system_config : SystemConfig) : Signal :=
  match self with
  | Reset s => Reset (reset_with_system_config s system_config)
  | Activation s => Activation (activation_with_system_config s system_config)
  | FlushChannel => FlushChannel
  end.

Inductive StepResult :=
| PreparedAttributes
| AdvancedOrigin
| OriginAdvanceErr (e : PipelineErrorKind)
| StepFailed (e : PipelineErrorKind).

(** * Stage interfaces *)

Class OriginProvider (P : Type) := origin : P → option BlockInfo.
Class OriginAdvancer (P : Type) := advance_origin : PipelineM P unit.
Class SignalReceiver (P : Type) := signal : Signal → PipelineM P unit.

(** The bounds every stage puts on its predecessor. *)
Class Stage (P : Type) := {
  stage_origin :: OriginProvider P;
  stage_advancer :: OriginAdvancer P;
  stage_receiver :: SignalReceiver P;
}.

(** [FrameQueueProvider::next_data], with the item already converted into bytes. *)
Class FrameQueueProvider (P : Type) := fq_next_data : PipelineM P bytes.
Class NextFrameProvider (P : Type) := next_frame : PipelineM P Frame.
Class ChannelReaderProvider (P : Type) := cr_next_data : PipelineM P (option bytes).

(** The data providers: [E] is the provider's error type, with its conversion into a
    pipeline error. *)
Class L2ChainProvider (F : Type) := {
  l2_error : Type;
  l2_error_into : l2_error → PipelineErrorKind;
  l2_block_info_by_number : Z → ST F l2_error L2BlockInfo;
  l2_system_config_by_number : Z → ST F l2_error SystemConfig;
}.

Record L1Header := mkL1Header {
  hdr_hash : B256;
  hdr_parent_hash : B256;
  hdr_number : Z;
  hdr_timestamp : Z;
  hdr_state_root : B256;
  hdr_transactions_root : B256;
  hdr_receipts_root : B256;
}.

(** [ChainProvider]'s methods take [&self]. *)
Class ChainProvider (F : Type) := {
  l1_error : Type;
  l1_error_into : l1_error → PipelineErrorKind;
  header_by_hash : F → B256 → outcome l1_error L1Header;
  block_info_by_hash : F → B256 → outcome l1_error BlockInfo;
  block_info_by_number : F → Z → outcome l1_error BlockInfo;
  receipts_by_hash : F → B256 → outcome l1_error (list Receipt);
  get_block_transactions_by_hash : F → B256 → outcome l1_error (list L1Transaction);
}.

Class DAProvider (F : Type) := {
  da_error : Type;
  da_error_into : da_error → PipelineErrorKind;
  set_input : F → bytes → outcome da_error bytes;
  get_input : F → bytes → outcome da_error bytes;
}.

(** * Laws *)

(** A reset or an activation carries the system config, which the pipeline fetches before
    it signals its stages. *)
Definition configured (s : Signal) : Prop :=
  match s with
  | Reset r => is_Some (rs_system_config r)
  | Activation a => is_Some (as_system_config a)
  | FlushChannel => True
  end.

(** What a stage promises to the next one: an invariant under which it knows its
    origin, does not panic, and raises only the errors of [st_err]. *)
Class StageLaws (P : Type) `{!Stage P} := {
  st_inv : P → Prop;
  st_err : PipelineErrorKind → Prop;
  st_origin p : st_inv p → is_Some (origin p);
  st_advance : safe st_inv st_err (λ _, True) (advance_origin (P:=P));
  st_signal s : configured s → safe st_inv st_err (λ _, True) (signal (P:=P) s);
}.

(** Pulling data does not move the origin. *)
Class FrameQueueProviderLaws (P : Type) `{!Stage P} `{!StageLaws P} `{!FrameQueueProvider P} :=
  fq_next_data_safe o :
    safe (λ p, st_inv p ∧ origin p = o) st_err (λ _, True) (fq_next_data (P:=P)).

(** Moreover, every frame delivered is one the parser accepts. *)
Class NextFrameLaws (P : Type) `{!Stage P} `{!StageLaws P} `{!NextFrameProvider P} :=
  next_frame_safe o :
    safe (λ p, st_inv p ∧ origin p = o) st_err frame_valid (next_frame (P:=P)).

Class ChannelReaderLaws (P : Type) `{!Stage P} `{!StageLaws P} `{!ChannelReaderProvider P} :=
  cr_next_data_safe o :
    safe (λ p, st_inv p ∧ origin p = o) st_err (λ _, True) (cr_next_data (P:=P)).

(** An L2 chain provider that answers every call. *)
Class L2ChainLaws (F : Type) `{!L2ChainProvider F} := {
  l2_block_info_safe n : safe (λ _, True) (λ _, True) (λ _, True) (l2_block_info_by_number (F:=F) n);
  l2_system_config_safe n :
    safe (λ _, True) (λ _, True) (λ _, True) (l2_system_config_by_number (F:=F) n);
}.

(** * A replaying stage *)

(** A previous stage that holds one L1 block and replays a list of items, ending with
    [Eof]: the simplest implementation of the interfaces, used by the witnesses. *)
Record Replay (A : Type) := mkReplay { rp_origin : BlockInfo; rp_items : list A }.
Arguments mkReplay {A}.
Arguments rp_origin {A}.
Arguments rp_items {A}.

Definition replay {A} : PipelineM (Replay A) A := λ self,
  match rp_items self with
  | [] => (Err (temp Eof), self)
  | x :: items => (Ok x, mkReplay (rp_origin self) items)
  end.

#[export] Instance replay_origin A : OriginProvider (Replay A) := λ self, Some (rp_origin self).
#[export] Instance replay_advancer A : OriginAdvancer (Replay A) := fail (temp Eof).
#[export] Instance replay_receiver A : SignalReceiver (Replay A) := λ _, mret tt.
#[export] Instance replay_stage A : Stage (Replay A) := {}.

Section replay.
Context {A : Type} (valid : A → Prop).

Definition replay_inv (self : Replay A) : Prop := Forall valid (rp_items self).

Lemma replay_safe o :
  safe (λ p, replay_inv p ∧ origin p = o) (.= temp Eof) valid (replay (A:=A)).
Proof.
  intros p [Hp Ho]. unfold replay. destruct (rp_items p) as [|x l] eqn:Hl; [done|].
  unfold replay_inv in Hp. rewrite Hl in Hp. by apply Forall_cons in Hp as [Hx Hp].
Qed.

Program Definition replay_laws : StageLaws (Replay A) :=
  {| st_inv := replay_inv; st_err e := e = temp Eof |}.
Next Obligation. by eexists. Qed.
Next Obligation. by apply safe_fail. Qed.
Next Obligation. intros s _. by apply safe_ret. Qed.
End replay.

#[export] Instance replay_frame_laws : StageLaws (Replay Frame) := replay_laws frame_valid.
#[export] Instance replay_next_frame : NextFrameProvider (Replay Frame) := replay.
#[export] Instance replay_next_frame_laws : NextFrameLaws (Replay Frame) := replay_safe frame_valid.

#[export] Instance replay_bytes_laws : StageLaws (Replay bytes) := replay_laws (λ _, True).
#[export] Instance replay_fq_next_data : FrameQueueProvider (Replay bytes) := replay.
#[export] Instance replay_fq_laws : FrameQueueProviderLaws (Replay bytes) :=
  replay_safe (λ _, True).

#[export] Instance replay_data_laws : StageLaws (Replay (option bytes)) := replay_laws (λ _, True).
#[export] Instance replay_cr_next_data : ChannelReaderProvider (Replay (option bytes)) := replay.
#[export] Instance replay_cr_laws : ChannelReaderLaws (Replay (option bytes)) :=
  replay_safe (λ _, True).

(** * A chain provider without blocks *)

#[export] Instance no_l2_provider : L2ChainProvider unit :=
  {| l2_error := unit;
     l2_error_into _ := crit MissingOrigin;
     l2_block_info_by_number _ := fail tt;
     l2_system_config_by_number _ := fail tt |}.

#[export] Instance no_l2_laws : L2ChainLaws unit.
Proof. split; intros n; by apply safe_fail. Qed.
