(* ===== verification/FrameQueue.v ===== *)
(** The frame queue stage (src/crates/derive/src/stages/frame_queue.rs).

    [next_frame] and its callees over an arbitrary previous stage.  The Holocene
    [prune] loop is modelled too, although [is_holocene_active] is constantly false;
    it runs with fuel [2 * queue.len() + 1], which [prune_loop_spec] shows is enough. *)
From S2P Require Import Prelude Blocks Frame SystemConfig Types.
#[local] Open Scope Z_scope.

Record FrameQueue (P : Type) := mkFrameQueue {
  fq_prev : P;
  fq_queue : list Frame;
  fq_rollup_config : SoonRollupConfig;
}.
Arguments mkFrameQueue {P}.
Arguments fq_prev {P}.
Arguments fq_queue {P}.
Arguments fq_rollup_config {P}.

Definition set_prev {P} (p : P) (self : FrameQueue P) : FrameQueue P :=
  mkFrameQueue p (fq_queue self) (fq_rollup_config self).
Definition set_queue {P} (q : list Frame) (self : FrameQueue P) : FrameQueue P :=
  mkFrameQueue (fq_prev self) q (fq_rollup_config self).

(** * Operations *)

Definition new {P} (prev : P) (cfg : SoonRollupConfig) : FrameQueue P :=
  mkFrameQueue prev [] cfg.

Definition is_holocene_active {P} (self : FrameQueue P) (_origin : BlockInfo) : bool := false.

(** [VecDeque::remove] and [VecDeque::drain(a..=b)]. *)
Definition remove_at (i : nat) (q : list Frame) : list Frame := take i q ++ drop (S i) q.
Definition drain (a b : nat) (q : list Frame) : list Frame := take a q ++ drop (S b) q.

(** [queue.iter().position(|f| f.id == id)]. *)
Definition position_id (id : ChannelId) (q : list Frame) : option nat :=
  fst <$> list_find (λ f, f_id f = id) q.

(** The [while] loop of [prune]: [Panic] is an index out of range, [expect] on [None],
    or fuel exhausted. *)
Fixpoint prune_loop (fuel : nat) (i : nat) (queue : list Frame) : outcome Empty_set (list Frame) :=
  match fuel with
  | O => Panic
  | S fuel =>
      if decide (Z.of_nat i < wrap 64 (len queue - 1)) then
        prev_frame ← index queue (Z.of_nat i);
        next_frame ← index queue (Z.of_nat i + 1);
        let extends_channel := bool_decide (f_id prev_frame = f_id next_frame) in
        if extends_channel && bool_decide (wrap 16 (f_number prev_frame + 1) ≠ f_number next_frame)
        then prune_loop fuel i (remove_at (S i) queue)
        else if extends_channel && f_is_last prev_frame
        then prune_loop fuel i (remove_at (S i) queue)
        else if negb extends_channel && bool_decide (f_number next_frame ≠ 0)
        then prune_loop fuel i (remove_at (S i) queue)
        else if negb extends_channel && negb (f_is_last prev_frame)
                && bool_decide (f_number next_frame = 0)
        then
          first_frame ← expect (position_id (f_id prev_frame) queue);
          let drained := (S i - first_frame)%nat in
          prune_loop fuel (i - drained) (drain first_frame i queue)
        else prune_loop fuel (S i) queue
      else Ok queue
  end.

Section frame_queue.
Context {P : Type} `{!Stage P} `{!FrameQueueProvider P}.
Implicit Types self : FrameQueue P.

Definition prune (origin : BlockInfo) : PipelineM (FrameQueue P) unit := λ self,
  if negb (is_holocene_active self origin) then (Ok tt, self)
  else match prune_loop (2 * length (fq_queue self) + 1) 0 (fq_queue self) with
       | Ok queue => (Ok tt, set_queue queue self)
       | _ => (Panic, self)
       end.

#[export] Instance frame_queue_origin : OriginProvider (FrameQueue P) :=
  λ self, origin (fq_prev self).

(** [load_frames] on an empty queue. *)
Definition load_more : PipelineM (FrameQueue P) unit :=
  data ← zoom fq_prev set_prev fq_next_data;
  match parse_frames data with
  | Ok frames =>
      _ ← modify (λ self, set_queue (fq_queue self ++ frames) self);
      maybe_origin ← gets origin;
      origin ← lift (ok_or maybe_origin (crit MissingOrigin));
      prune origin
  | Err _ => mret tt
  | Panic => panic
  end.

Definition load_frames : PipelineM (FrameQueue P) unit := λ self,
  if decide (fq_queue self ≠ []) then (Ok tt, self) else load_more self.

#[export] Instance frame_queue_advancer : OriginAdvancer (FrameQueue P) :=
  zoom fq_prev set_prev advance_origin.

Definition pop_front : PipelineM (FrameQueue P) Frame := λ self,
  match fq_queue self with
  | [] => (Err (temp NotEnoughData), self)
  | frame :: queue => (Ok frame, set_queue queue self)
  end.

Definition next_frame_ : PipelineM (FrameQueue P) Frame := _ ← load_frames; pop_front.
#[export] Instance frame_queue_next_frame : NextFrameProvider (FrameQueue P) := next_frame_.

Definition signal_ (s : Signal) : PipelineM (FrameQueue P) unit :=
  _ ← zoom fq_prev set_prev (signal s);
  modify (set_queue []).
#[export] Instance frame_queue_signal : SignalReceiver (FrameQueue P) := signal_.

#[export] Instance frame_queue_stage : Stage (FrameQueue P) := {}.

End frame_queue.

(** * Pruning *)

(** Adjacent frames continue a channel or start the next one. *)
Definition linked (f g : Frame) : Prop :=
  if decide (f_id f = f_id g)
  then f_number g = wrap 16 (f_number f + 1) ∧ f_is_last f = false
  else f_number g = 0 ∧ f_is_last f = true.

Definition linked_upto (n : nat) (q : list Frame) : Prop :=
  ∀ j f g, (j < n)%nat → q !! j = Some f → q !! S j = Some g → linked f g.

Lemma lookup_take_drop (a b : nat) (q : list Frame) j :
  (j < a)%nat → (a <= length q)%nat → (take a q ++ drop b q) !! j = q !! j.
Proof.
  intros Hj Ha. rewrite lookup_app_l by (rewrite length_take; lia). by apply lookup_take_lt.
Qed.

Lemma linked_upto_cut n a b q :
  linked_upto n q → (a <= length q)%nat → linked_upto (min n (a - 1)) (take a q ++ drop b q).
Proof.
  intros Hq Ha j f g Hj Hf Hg. rewrite lookup_take_drop in Hf by lia.
  rewrite lookup_take_drop in Hg by lia. apply (Hq j); [lia|done|done].
Qed.

Lemma cut_sublist (a b : nat) (q : list Frame) :
  (a <= b)%nat → take a q ++ drop b q `sublist_of` q.
Proof.
  intros Hab. rewrite <- (take_drop a q) at 3. apply sublist_app; [done|].
  replace b with (a + (b - a))%nat by lia. rewrite <- drop_drop. apply sublist_drop.
Qed.

Lemma position_id_le id q i f :
  q !! i = Some f → f_id f = id → ∃ j, position_id id q = Some j ∧ (j <= i)%nat.
Proof.
  intros Hf Hid. unfold position_id.
  destruct (list_find_elem_of (λ f, f_id f = id) q f) as [[j g] Hj];
    [by eapply list_elem_of_lookup_2|done|].
  rewrite Hj. exists j. split; [done|].
  apply list_find_Some in Hj as (_ & _ & Hmin).
  destruct (decide (j <= i)%nat) as [|Hji]; [done|]. exfalso. apply (Hmin i f); [done|lia|done].
Qed.

Lemma prune_loop_ok fuel i q :
  (i < length q)%nat → len q < 2 ^ 64 → (2 * length q - i < fuel)%nat → linked_upto i q →
  ∃ q', prune_loop fuel i q = Ok q' ∧ linked_upto (length q') q' ∧ q' `sublist_of` q
    ∧ q' ≠ [] ∧ (linked_upto (length q) q → q' = q).
Proof.
  revert i q. induction fuel as [|fuel IH]; intros i q Hi Hlen Hfuel Hq; [lia|].
  cbn [prune_loop]. unfold len in *. rewrite wrap_small by (unfold in_width; lia).
  destruct (decide (Z.of_nat i < _)) as [Hlt|Hge].
  2:{ exists q. split_and!; [done| |done|by destruct q; cbn in Hi; [lia|]|done].
      intros j f g _ Hf Hg. apply (Hq j); [|done|done].
      apply lookup_lt_Some in Hg. lia. }
  destruct (lookup_lt_is_Some_2 q i) as [f Hf]; [lia|].
  destruct (lookup_lt_is_Some_2 q (S i)) as [g Hg]; [lia|].
  assert (index (E:=Empty_set) q (Z.of_nat i) = Ok f) as ->.
  { apply index_Ok. split; [lia|]. by rewrite Nat2Z.id. }
  assert (index (E:=Empty_set) q (Z.of_nat i + 1) = Ok g) as ->.
  { apply index_Ok. split; [lia|]. by replace (Z.to_nat (Z.of_nat i + 1)) with (S i) by lia. }
  cbn [mbind outcome_bind].
  (* dropping the next frame *)
  assert (¬ linked f g → ∃ q', prune_loop fuel i (remove_at (S i) q) = Ok q'
     ∧ linked_upto (length q') q' ∧ q' `sublist_of` q ∧ q' ≠ []
     ∧ (linked_upto (length q) q → q' = q)) as Hdrop.
  { intros Hnl. pose proof (linked_upto_cut i (S i) (S (S i)) q Hq ltac:(lia)) as Hcut.
    replace (min i (S i - 1)) with i in Hcut by lia.
    assert (length (remove_at (S i) q) = (length q - 1)%nat) as Hl.
    { unfold remove_at. rewrite length_app, length_take, length_drop. lia. }
    destruct (IH i (remove_at (S i) q)) as (q' & -> & Hlk & Hsub & Hne & _);
      [rewrite Hl; lia|rewrite Hl; lia|rewrite Hl; lia|done|].
    exists q'. split_and!; [done|done| |done|].
    - etransitivity; [done|]. apply cut_sublist. lia.
    - intros Hall. destruct Hnl. apply (Hall i); [lia|done|done]. }
  destruct (bool_decide (f_id f = f_id g)) eqn:Hext; cbn [negb andb].
  - apply bool_decide_eq_true in Hext.
    assert (linked f g ↔ f_number g = wrap 16 (f_number f + 1) ∧ f_is_last f = false) as Hlk.
    { unfold linked. by rewrite decide_True. }
    destruct (bool_decide_reflect (wrap 16 (f_number f + 1) ≠ f_number g)) as [Hn|Hn].
    { apply Hdrop. naive_solver. }
    destruct (f_is_last f) eqn:Hfl; [apply Hdrop; naive_solver|].
    destruct (IH (S i) q) as (q' & Hr & ?); [lia|lia|lia| |by exists q'].
    intros j f' g' Hj. destruct (decide (j = i)) as [->|]; [|apply Hq; lia].
    rewrite Hf, Hg. intros [= <-] [= <-]. apply Hlk. split; [|done]. by destruct (decide (wrap 16 (f_number f + 1) = f_number g)).
  - apply bool_decide_eq_false in Hext.
    assert (linked f g ↔ f_number g = 0 ∧ f_is_last f = true) as Hlk.
    { unfold linked. by rewrite decide_False. }
    destruct (bool_decide_reflect (f_number g ≠ 0)) as [Hn|Hn]; [apply Hdrop; naive_solver|].
    apply dec_stable in Hn. rewrite (bool_decide_eq_true_2 _ Hn), andb_true_r.
    destruct (f_is_last f) eqn:Hfl; cbn [negb].
    { destruct (IH (S i) q) as (q' & Hr & ?); [lia|lia|lia| |by exists q'].
      intros j f' g' Hj. destruct (decide (j = i)) as [->|]; [|apply Hq; lia].
      rewrite Hf, Hg. intros [= <-] [= <-]. by apply Hlk. }
    destruct (position_id_le (f_id f) q i f Hf eq_refl) as (a & -> & Ha). cbn [expect mbind outcome_bind].
    pose proof (linked_upto_cut i a (S i) q Hq ltac:(lia)) as Hcut.
    assert (length (drain a i q) = (a + (length q - S i))%nat) as Hl.
    { unfold drain. rewrite length_app, length_take, length_drop. lia. }
    destruct (IH (i - (S i - a))%nat (drain a i q)) as (q' & -> & Hlk' & Hsub & Hne & _);
      [rewrite Hl; lia|rewrite Hl; lia|rewrite Hl; lia| |].
    { intros j f' g' Hj. apply Hcut. lia. }
    exists q'. split_and!; [done|done| |done|].
    + etransitivity; [done|]. apply cut_sublist. lia.
    + intros Hall. assert (linked f g) as Hc by (apply (Hall i); [lia|done|done]). naive_solver.
Qed.

(** The pruning loop terminates without an index out of range on every non-empty
    queue, and leaves a non-empty subsequence of it in which adjacent frames continue a
    channel in sequence or start a new one after a closing frame; a queue already of
    that shape is left as it is. *)
Theorem prune_loop_spec (queue : list Frame) :
  queue ≠ [] → len queue < 2 ^ 64 →
  ∃ queue', prune_loop (2 * length queue + 1) 0 queue = Ok queue'
    ∧ (∀ j f g, queue' !! j = Some f → queue' !! S j = Some g → linked f g)
    ∧ queue' `sublist_of` queue ∧ queue' ≠ []
    ∧ ((∀ j f g, queue !! j = Some f → queue !! S j = Some g → linked f g) → queue' = queue).
Proof.
  intros Hne Hlen.
  destruct (prune_loop_ok (2 * length queue + 1) 0 queue) as (q' & -> & Hq' & Hsub & Hne' & Hid);
    [by destruct queue; cbn; [|lia]|done|lia|intros j f g Hj; lia|].
  exists q'. split_and!; [done| |done|done|].
  - intros j f g Hf Hg. apply (Hq' j); [|done|done]. by eapply lookup_lt_Some.
  - intros Hall. apply Hid. intros j f g _. apply Hall.
Qed.

(** * The interface, implemented *)

Section laws.
Context {P : Type} `{!Stage P} `{!StageLaws P} `{!FrameQueueProvider P}
  `{!FrameQueueProviderLaws P}.

Definition frame_queue_inv (self : FrameQueue P) : Prop :=
  st_inv (fq_prev self) ∧ Forall frame_valid (fq_queue self).
Definition frame_queue_err (e : PipelineErrorKind) : Prop :=
  st_err (P:=P) e ∨ e = temp NotEnoughData.

#[export] Program Instance frame_queue_laws : StageLaws (FrameQueue P) :=
  {| st_inv := frame_queue_inv; st_err := frame_queue_err |}.
Next Obligation. intros p [Hp _]. by apply (st_origin (fq_prev p)). Qed.
Next Obligation.
  apply (safe_zoom _ _ st_inv st_err).
  - apply st_advance.
  - by intros s [Hs _].
  - intros s t [_ Hq] Ht. done.
  - by left.
Qed.
Next Obligation.
  intros s Hsg. apply (safe_bind _ _ (λ _, True)).
  - apply (safe_zoom _ _ st_inv st_err).
    + by apply st_signal.
    + by intros q [Hq _].
    + by intros q t [_ Hq] Ht.
    + by left.
  - intros _ _. apply safe_modify. intros q [Hq _]. split; [done|constructor].
Qed.

Lemma load_more_safe o :
  safe (λ self, frame_queue_inv self ∧ origin self = o) frame_queue_err (λ _, True)
    (load_more (P:=P)).
Proof.
  apply (safe_bind _ _ (λ _, True)).
  - apply (safe_zoom _ _ (λ p, st_inv p ∧ origin p = o) st_err).
    + apply fq_next_data_safe.
    + by intros s [[Hs _] Ho].
    + by intros s t [[_ Hq] _] [Ht Ho].
    + by left.
  - intros data _. destruct (parse_frames data) as [frames|e|] eqn:Hp.
    + pose proof (parse_frames_valid _ _ Hp) as Hv.
      apply (safe_bind _ _ (λ _, True)).
      { apply safe_modify. intros s [[Hs Hq] Ho]. split; [|done]. split; [done|].
        cbn. by apply Forall_app. }
      intros _ _. apply (safe_bind _ _ is_Some).
      { apply safe_gets. intros s [[Hs _] _]. by apply (st_origin (fq_prev s)). }
      intros o' [ob ->]. by apply (safe_bind _ _ (λ _, True)).
    + by apply safe_ret.
    + by apply parse_frames_not_Panic in Hp.
Qed.

Lemma load_frames_safe o :
  safe (λ self, frame_queue_inv self ∧ origin self = o) frame_queue_err (λ _, True)
    (load_frames (P:=P)).
Proof.
  intros self Hs. unfold load_frames. destruct (decide _); [done|]. by apply load_more_safe.
Qed.

#[export] Instance frame_queue_next_frame_laws : NextFrameLaws (FrameQueue P).
Proof.
  intros o. apply (safe_bind _ _ (λ _, True)); [apply load_frames_safe|].
  intros _ _ self [[Hp Hq] Ho]. unfold pop_front. destruct (fq_queue self) as [|f q] eqn:Hqe.
  - split; [by right|]. split; [|done]. split; [done|]. by rewrite Hqe.
  - apply Forall_cons in Hq as [Hf Hq]. done.
Qed.
End laws.

(** * Exactly-once delivery *)

(** A previous stage together with the data items it has handed over. *)
Record Logged (P : Type) := mkLogged { inner : P; items : list bytes }.
Arguments mkLogged {P}.
Arguments inner {P}.
Arguments items {P}.

Section delivery.
Context {P : Type} `{!Stage P} `{!FrameQueueProvider P}.

Definition set_inner (p : P) (l : Logged P) : Logged P := mkLogged p (items l).
#[export] Instance logged_origin : OriginProvider (Logged P) := λ l, origin (inner l).
#[export] Instance logged_advancer : OriginAdvancer (Logged P) := zoom inner set_inner advance_origin.
#[export] Instance logged_receiver : SignalReceiver (Logged P) := λ s, zoom inner set_inner (signal s).
#[export] Instance logged_stage : Stage (Logged P) := {}.
#[export] Instance logged_provider : FrameQueueProvider (Logged P) := λ l,
  match fq_next_data (inner l) with
  | (Ok data, p) => (Ok data, mkLogged p (items l ++ [data]))
  | (Err e, p) => (Err e, mkLogged p (items l))
  | (Panic, p) => (Panic, mkLogged p (items l))
  end.

(** The frames of a batcher transaction; an undecodable one has none. *)
Definition frames_of (data : bytes) : list Frame :=
  match parse_frames data with Ok frames => frames | _ => [] end.

(** [n] calls of [next_frame], whatever they return; the frames they delivered. *)
Fixpoint drive (n : nat) (self : FrameQueue (Logged P)) : list Frame * FrameQueue (Logged P) :=
  match n with
  | O => ([], self)
  | S n =>
      let '(r, self1) := next_frame self in
      let '(fs, self2) := drive n self1 in
      (match r with Ok f => f :: fs | _ => fs end, self2)
  end.

(** The frames fetched and not delivered yet follow the delivered ones. *)
Definition delivery_inv (sent : list Frame) (self : FrameQueue (Logged P)) : Prop :=
  sent ++ fq_queue self = concat (map frames_of (items (fq_prev self))).

Lemma load_frames_delivery sent self r self' :
  load_frames self = (r, self') → delivery_inv sent self → delivery_inv sent self'.
Proof.
  unfold load_frames, delivery_inv. destruct (decide (fq_queue self ≠ [])) as [|Hq].
  { by intros [= <- <-]. }
  apply dec_stable in Hq. unfold load_more. rewrite bind_run. unfold zoom. cbn [fq_next_data].
  unfold fq_next_data at 1, logged_provider at 1.
  destruct (fq_next_data (inner (fq_prev self))) as [[data|e|] p]; cbn [set_prev fq_prev].
  2-3: by intros [= <- <-].
  intros Hrun Hinv. rewrite Hq, app_nil_r in Hinv.
  destruct (parse_frames data) as [frames|e|] eqn:Hp; unfold frames_of in *.
  - assert (fq_queue self' = frames ∧ items (fq_prev self') = items (fq_prev self) ++ [data])
      as [-> ->].
    { revert Hrun. rewrite bind_run. cbn [modify]. rewrite bind_run. unfold gets, prune, lift.
      cbn -[mbind]. rewrite bind_run, Hq. by destruct (ok_or _ _); intros [= <- <-]. }
    rewrite map_app, concat_app. cbn. by rewrite Hp, Hinv, app_nil_r.
  - injection Hrun as <- <-. cbn. by rewrite map_app, concat_app, Hq, <- Hinv; cbn; rewrite Hp.
  - injection Hrun as <- <-. cbn. by rewrite map_app, concat_app, Hq, <- Hinv; cbn; rewrite Hp.
Qed.

Lemma next_frame_delivery sent self r self' :
  next_frame self = (r, self') → delivery_inv sent self →
  delivery_inv (sent ++ match r with Ok f => [f] | _ => [] end) self'.
Proof.
  unfold next_frame, frame_queue_next_frame, next_frame_. rewrite bind_run.
  destruct (load_frames self) as [r1 self1] eqn:Hl. intros Hrun Hinv.
  apply (load_frames_delivery _ _ _ _ Hl) in Hinv.
  destruct r1 as [u|e|]; [|injection Hrun as <- <-; by rewrite app_nil_r..].
  unfold pop_front in Hrun. destruct (fq_queue self1) as [|f q] eqn:Hq.
  - injection Hrun as <- <-. by rewrite app_nil_r.
  - injection Hrun as <- <-. unfold delivery_inv in *. cbn. by rewrite <- app_assoc, <- Hinv, Hq.
Qed.

Lemma drive_delivery n sent self :
  delivery_inv sent self → let '(fs, self') := drive n self in delivery_inv (sent ++ fs) self'.
Proof.
  revert sent self. induction n as [|n IH]; intros sent self Hinv; cbn [drive].
  { by rewrite app_nil_r. }
  destruct (next_frame self) as [r self1] eqn:Hn. apply (next_frame_delivery _ _ _ _ Hn) in Hinv.
  apply IH in Hinv. destruct (drive n self1) as [fs self2].
  rewrite <- app_assoc in Hinv. by destruct r.
Qed.

(** Exactly-once, in-order delivery: over any number of [next_frame] calls from a
    fresh queue, whatever the calls return and whatever the previous stage does, the
    frames delivered followed by those still queued are the frames of the data items
    taken from the previous stage, in order, an undecodable item counting for none. *)
Theorem next_frame_exactly_once (n : nat) (prev : P) (cfg : SoonRollupConfig) :
  let '(delivered, self) := drive n (new (mkLogged prev []) cfg) in
  delivered ++ fq_queue self = concat (map frames_of (items (fq_prev self))).
Proof. by apply (drive_delivery n []). Qed.
End delivery.

(** ** Witnesses *)

Definition example_fr (id n : Z) (last : bool) : Frame :=
  mkFrame (replicate 16 (z2b id)) n [] last.

Lemma prune_loop_spec_witness :
  ∃ queue', prune_loop 7 0 [example_fr 1 0 false; example_fr 1 2 false; example_fr 2 0 true]
            = Ok queue' ∧ queue' ≠ [].
Proof.
  destruct (prune_loop_spec [example_fr 1 0 false; example_fr 1 2 false; example_fr 2 0 true])
    as (q & Hq & _ & _ & Hne & _); [discriminate|vm_compute; reflexivity|].
  exists q. split; [exact Hq|exact Hne].
Defined.
