(* ===== verification/ChannelBank.v ===== *)
(** The channel bank stage (src/crates/derive/src/stages/channel/channel_bank.rs).

    The bank buffers channels in a map and a FIFO of their identifiers.  [bank_inv] ties
    the two together and bounds the buffered size; under it no operation panics or
    raises a critical error. *)
From S2P Require Import Prelude Blocks Frame Channel SystemConfig Types.
#[local] Open Scope Z_scope.

Definition MAX_CHANNEL_BANK_SIZE : Z := 100000000.
Definition FJORD_MAX_CHANNEL_BANK_SIZE : Z := 1000000000.

Record ChannelBank (P : Type) := mkChannelBank {
  cb_cfg : SoonRollupConfig;
  cb_channels : gmap ChannelId Channel;
  cb_channel_queue : list ChannelId;
  cb_prev : P;
}.
Arguments mkChannelBank {P}.
Arguments cb_cfg {P}.
Arguments cb_channels {P}.
Arguments cb_channel_queue {P}.
Arguments cb_prev {P}.

Definition set_prev {P : Type} (p : P) (self : ChannelBank P) : ChannelBank P :=
  mkChannelBank (cb_cfg self) (cb_channels self) (cb_channel_queue self) p.
Definition set_channels {P : Type} (m : gmap ChannelId Channel) (q : list ChannelId)
    (self : ChannelBank P) : ChannelBank P :=
  mkChannelBank (cb_cfg self) m q (cb_prev self).

(** * Operations *)

Definition new {P : Type} (cfg : SoonRollupConfig) (prev : P) : ChannelBank P :=
  mkChannelBank cfg ∅ [] prev.

Definition size {P : Type} (self : ChannelBank P) : Z :=
  map_fold (λ _ c acc, wrap 64 (acc + Channel.size c)) 0 (cb_channels self).

(** [open_block_number() + channel_timeout < origin.number], in [u64]. *)
Definition timed_out (cfg : SoonRollupConfig) (channel : Channel) (origin : BlockInfo) : bool :=
  bool_decide (u64_add (open_block_number channel) (cfg_channel_timeout cfg) < bi_number origin).

(** The [while] loop of [prune]; every iteration pops the queue. *)
Fixpoint prune_loop (total_size : Z) (channels : gmap ChannelId Channel)
    (queue : list ChannelId)
    : outcome PipelineErrorKind unit * (gmap ChannelId Channel * list ChannelId) :=
  if decide (total_size > FJORD_MAX_CHANNEL_BANK_SIZE) then
    match queue with
    | [] => (Err (crit ChannelProviderEmpty), (channels, []))
    | id :: queue =>
        match channels !! id with
        | None => (Err (crit ChannelNotFound), (channels, queue))
        | Some channel =>
            prune_loop (wrap 64 (total_size - Channel.size channel)) (delete id channels) queue
        end
    end
  else (Ok tt, (channels, queue)).

Definition prune {P : Type} : PipelineM (ChannelBank P) unit := λ self,
  let '(r, (channels, queue)) := prune_loop (size self) (cb_channels self) (cb_channel_queue self) in
  (r, set_channels channels queue self).

(** The channel of a frame, created at the end of the queue if it does not exist. *)
Definition get_or_create {P : Type} (id : ChannelId) (origin : BlockInfo) (self : ChannelBank P)
    : Channel * ChannelBank P :=
  match cb_channels self !! id with
  | Some c => (c, self)
  | None =>
      let channel := Channel.new id origin in
      (channel, set_channels (<[id := channel]> (cb_channels self))
                             (cb_channel_queue self ++ [id]) self)
  end.

Section channel_bank.
Context {P : Type} `{!Stage P} `{!NextFrameProvider P}.
Implicit Types self : ChannelBank P.

#[export] Instance channel_bank_origin : OriginProvider (ChannelBank P) :=
  λ self, origin (cb_prev self).

(** [ingest_frame] once the origin is known. *)
Definition ingest_at (frame : Frame) (o : BlockInfo) : PipelineM (ChannelBank P) unit := λ self,
  let '(current_channel, self) := get_or_create (f_id frame) o self in
  if timed_out (cb_cfg self) current_channel o then (Ok tt, self)
  else
    match add_frame frame o current_channel with
    | (Ok _, c) =>
        prune (set_channels (<[f_id frame := c]> (cb_channels self)) (cb_channel_queue self) self)
    | (Err _, c) =>
        (Ok tt, set_channels (<[f_id frame := c]> (cb_channels self)) (cb_channel_queue self) self)
    | (Panic, c) => (Panic, self)
    end.

Definition ingest_frame (frame : Frame) : PipelineM (ChannelBank P) unit :=
  maybe_origin ← gets origin;
  o ← lift (ok_or maybe_origin (crit MissingOrigin));
  ingest_at frame o.

Definition remove_channel (id : ChannelId) (index : nat) (self : ChannelBank P) : ChannelBank P :=
  set_channels (delete id (cb_channels self))
    (take index (cb_channel_queue self) ++ drop (S index) (cb_channel_queue self)) self.

Definition try_read_channel_at_index (index : nat) : PipelineM (ChannelBank P) bytes :=
  maybe_id ← gets (λ self, cb_channel_queue self !! index);
  channel_id ← lift (expect maybe_id);
  maybe_channel ← gets (λ self, cb_channels self !! channel_id);
  channel ← lift (ok_or maybe_channel (crit ChannelProviderEmpty));
  maybe_origin ← gets origin;
  o ← lift (ok_or maybe_origin (crit MissingOrigin));
  cfg ← gets cb_cfg;
  if timed_out cfg channel o || negb (is_ready channel) then fail (temp Eof)
  else
    _ ← modify (remove_channel channel_id index);
    lift (ok_or (frame_data channel) (crit ChannelProviderEmpty)).

(** [(a..n).find_map(|i| self.try_read_channel_at_index(i).ok())]. *)
Fixpoint find_map_read (indices : list nat) : PipelineM (ChannelBank P) (option bytes) :=
  match indices with
  | [] => mret None
  | i :: indices =>
      catch (try_read_channel_at_index i) (λ r,
        match r with
        | Ok data => mret (Some data)
        | _ => find_map_read indices
        end)
  end.

Definition read : PipelineM (ChannelBank P) (option bytes) :=
  queue ← gets cb_channel_queue;
  match queue with
  | [] => fail (temp Eof)
  | first :: _ =>
      maybe_channel ← gets (λ self, cb_channels self !! first);
      channel ← lift (ok_or maybe_channel (crit ChannelProviderEmpty));
      maybe_origin ← gets origin;
      o ← lift (ok_or maybe_origin (crit ChannelProviderEmpty));
      cfg ← gets cb_cfg;
      if timed_out cfg channel o then
        _ ← modify (remove_channel first 0);
        mret None
      else
        channel_data ← find_map_read (seq 0 (length queue));
        match channel_data with
        | None => fail (temp Eof)
        | Some data => mret (Some data)
        end
  end.

Definition next_data : PipelineM (ChannelBank P) (option bytes) :=
  catch read (λ r,
    match r with
    | Err e =>
        if bool_decide (e ≠ temp Eof) then fail (crit ChannelProviderEmpty)
        else
          frame ← zoom cb_prev set_prev next_frame;
          _ ← ingest_frame frame;
          fail (temp NotEnoughData)
    | data => lift data
    end).
#[export] Instance channel_bank_reader : ChannelReaderProvider (ChannelBank P) := next_data.

#[export] Instance channel_bank_advancer : OriginAdvancer (ChannelBank P) :=
  zoom cb_prev set_prev advance_origin.

Definition signal_ (s : Signal) : PipelineM (ChannelBank P) unit :=
  _ ← zoom cb_prev set_prev (signal s);
  modify (set_channels ∅ []).
#[export] Instance channel_bank_signal : SignalReceiver (ChannelBank P) := signal_.

#[export] Instance channel_bank_stage : Stage (ChannelBank P) := {}.
End channel_bank.

(** * The invariant *)

(** What the buffered channels occupy, without the wrap-around of [size]. *)
Definition bank_size (m : gmap ChannelId Channel) : Z :=
  map_fold (λ _ c acc, acc + Channel.size c) 0 m.

Definition channels_wf (m : gmap ChannelId Channel) : Prop :=
  ∀ id c, m !! id = Some c → channel_wf c ∧ c_id c = id.

(** The map and the queue hold the same channels. *)
Record bank_consistent (m : gmap ChannelId Channel) (queue : list ChannelId) : Prop := {
  bc_nodup : NoDup queue;
  bc_dom : ∀ id, is_Some (m !! id) ↔ id ∈ queue;
  bc_channels : channels_wf m;
}.

Definition bank_inv {P : Type} (self : ChannelBank P) : Prop :=
  bank_consistent (cb_channels self) (cb_channel_queue self)
  ∧ bank_size (cb_channels self) <= FJORD_MAX_CHANNEL_BANK_SIZE.

(** The channels that remain when those in [ids] are evicted. *)
Definition evict (ids : list ChannelId) (m : gmap ChannelId Channel) : gmap ChannelId Channel :=
  filter (λ kv, kv.1 ∉ ids) m.

Lemma channel_size_range c :
  channel_wf c → 0 <= Channel.size c <= 65536 * (MAX_FRAME_LEN + FRAME_OVERHEAD).
Proof.
  intros Hwf. pose proof (wf_size_le c Hwf). pose proof (channel_wf_total c Hwf).
  unfold Channel.size. lia.
Qed.

Lemma bank_size_empty : bank_size ∅ = 0.
Proof. apply map_fold_empty. Qed.
Lemma bank_size_insert m id c :
  m !! id = None → bank_size (<[id := c]> m) = Channel.size c + bank_size m.
Proof.
  intros Hn. unfold bank_size. rewrite map_fold_insert_L; [lia|intros; lia|done].
Qed.
Lemma bank_size_delete m id c :
  m !! id = Some c → bank_size m = Channel.size c + bank_size (delete id m).
Proof.
  intros Hc. rewrite <- (insert_delete_id m id c Hc) at 1.
  apply bank_size_insert, lookup_delete_eq.
Qed.
Lemma bank_size_nonneg m : channels_wf m → 0 <= bank_size m.
Proof.
  induction m as [|id c m Hn IH] using map_ind; intros Hwf; [by rewrite bank_size_empty|].
  rewrite bank_size_insert by done.
  destruct (Hwf id c) as [Hc _]; [apply lookup_insert_eq|]. pose proof (channel_size_range c Hc).
  enough (0 <= bank_size m) by lia. apply IH. intros id' c' Hc'. apply Hwf.
  rewrite lookup_insert_ne; [done|congruence].
Qed.

Lemma size_wrap {P : Type} (self : ChannelBank P) :
  size self = wrap 64 (bank_size (cb_channels self)).
Proof.
  unfold size. induction (cb_channels self) as [|id c m Hn IH] using map_ind; [done|].
  rewrite map_fold_insert_L, IH, bank_size_insert by (done || (intros j1 j2 z1 z2 y _ _ _; unfold wrap; rewrite !Zplus_mod_idemp_l; f_equal; lia)).
  unfold wrap. rewrite Zplus_mod_idemp_l. f_equal. lia.
Qed.

Lemma channels_wf_delete m id : channels_wf m → channels_wf (delete id m).
Proof. intros Hwf i c [_ Hc]%lookup_delete_Some. by apply Hwf. Qed.

Lemma bank_consistent_pop m id queue :
  bank_consistent m (id :: queue) → bank_consistent (delete id m) queue.
Proof.
  intros [Hnd Hdom Hwf]. apply NoDup_cons in Hnd as [Hid Hnd]. split; [done| |by apply channels_wf_delete].
  intros i. destruct (decide (i = id)) as [->|Hi].
  - rewrite lookup_delete_eq. split; [by intros []|done].
  - rewrite lookup_delete_ne by done. rewrite Hdom, elem_of_cons. naive_solver.
Qed.

Lemma evict_nil m : evict [] m = m.
Proof. apply map_filter_id. intros id c _. cbn. apply not_elem_of_nil. Qed.
Lemma evict_cons id ids m : evict (id :: ids) m = evict ids (delete id m).
Proof.
  apply map_eq. intros i. apply option_eq. intros c. unfold evict.
  rewrite !map_lookup_filter_Some, lookup_delete_Some. cbn. rewrite not_elem_of_cons. naive_solver.
Qed.

(** [prune] evicts the shortest prefix of the queue that brings the bank under its
    limit. *)
Lemma prune_loop_evicts m queue :
  bank_consistent m queue → bank_size m < 2 ^ 64 →
  ∃ k, prune_loop (bank_size m) m queue = (Ok tt, (evict (take k queue) m, drop k queue))
    ∧ bank_consistent (evict (take k queue) m) (drop k queue)
    ∧ bank_size (evict (take k queue) m) <= FJORD_MAX_CHANNEL_BANK_SIZE
    ∧ ∀ j, (j < k)%nat → bank_size (evict (take j queue) m) > FJORD_MAX_CHANNEL_BANK_SIZE.
Proof.
  revert m. induction queue as [|id queue IH]; intros m Hc Hlt; cbn [prune_loop].
  - assert (m = ∅) as ->.
    { apply map_empty. intros i. apply eq_None_not_Some. rewrite (bc_dom _ _ Hc). apply not_elem_of_nil. }
    rewrite bank_size_empty, decide_False by (cbv; congruence).
    exists 0%nat. cbn. rewrite evict_nil, bank_size_empty. split_and!; [done..|lia].
  - destruct (decide (bank_size m > _)) as [Hgt|Hle].
    2:{ exists 0%nat. cbn. rewrite evict_nil. split_and!; [done|done|lia|lia]. }
    destruct (m !! id) as [c|] eqn:Hid.
    2:{ apply eq_None_not_Some in Hid. destruct Hid. apply (bc_dom _ _ Hc), elem_of_cons. by left. }
    pose proof (bank_size_delete m id c Hid) as Hdel.
    destruct (bc_channels _ _ Hc id c Hid) as [Hcw _]. pose proof (channel_size_range c Hcw).
    pose proof (bank_size_nonneg _ (channels_wf_delete m id (bc_channels _ _ Hc))).
    rewrite wrap_small by (unfold in_width; lia).
    replace (bank_size m - Channel.size c) with (bank_size (delete id m)) by lia.
    destruct (IH (delete id m)) as (k & Hr & Hck & Hk & Hmin);
      [by apply bank_consistent_pop|lia|].
    exists (S k). cbn [take drop]. rewrite evict_cons, Hr. split_and!; [done..|].
    intros [|j] Hj; cbn [take].
    + rewrite evict_nil. lia.
    + rewrite evict_cons. apply Hmin. lia.
Qed.

(** * Ingesting a frame *)

(** The channel a frame is added to, and the queue once it exists. *)
Definition channel_for (id : ChannelId) (o : BlockInfo) (m : gmap ChannelId Channel) : Channel :=
  default (Channel.new id o) (m !! id).
Definition queue_for (id : ChannelId) (m : gmap ChannelId Channel) (queue : list ChannelId)
    : list ChannelId :=
  if decide (is_Some (m !! id)) then queue else queue ++ [id].

Lemma channel_for_wf id o m : channels_wf m → channel_wf (channel_for id o m) ∧ c_id (channel_for id o m) = id.
Proof.
  intros Hwf. unfold channel_for. destruct (m !! id) as [c|] eqn:Hc; cbn; [by apply Hwf|].
  split; [apply new_wf|done].
Qed.

Lemma bank_consistent_insert m queue id c :
  bank_consistent m queue → channel_wf c → c_id c = id →
  bank_consistent (<[id := c]> m) (queue_for id m queue).
Proof.
  intros [Hnd Hdom Hwf] Hc Hid. unfold queue_for. split.
  - destruct (decide _) as [|Hn]; [done|]. apply NoDup_app. split_and!; [done| |apply NoDup_singleton].
    intros i Hi ->%list_elem_of_singleton. by apply Hn, Hdom.
  - intros i. destruct (decide (i = id)) as [->|Hi].
    + rewrite lookup_insert_eq. split; [|by eauto]. intros _.
      destruct (decide _); [by apply Hdom|]. apply elem_of_app. right. by apply list_elem_of_singleton.
    + rewrite lookup_insert_ne, Hdom by done. destruct (decide _); [done|].
      rewrite elem_of_app, list_elem_of_singleton. naive_solver.
  - intros i c'. rewrite lookup_insert. destruct (decide (id = i)) as [->|]; [|by apply Hwf].
    by intros [= <-].
Qed.

Lemma bank_size_update m id c :
  channels_wf m →
  bank_size (<[id := c]> m) <= Channel.size c + bank_size m
  ∧ (channel_wf c → 0 <= Channel.size c).
Proof.
  intros Hwf. split; [|by intros; apply channel_size_range].
  rewrite <- insert_delete_eq, bank_size_insert by apply lookup_delete_eq.
  destruct (m !! id) as [c'|] eqn:Hc'.
  - rewrite (bank_size_delete m id c') by done. destruct (Hwf id c' Hc') as [Hw _].
    pose proof (channel_size_range c' Hw). lia.
  - rewrite delete_id by done. lia.
Qed.

Lemma get_or_create_eq {P : Type} id o (self : ChannelBank P) :
  get_or_create id o self
  = (channel_for id o (cb_channels self),
     set_channels (<[id := channel_for id o (cb_channels self)]> (cb_channels self))
       (queue_for id (cb_channels self) (cb_channel_queue self)) self).
Proof.
  unfold get_or_create, channel_for, queue_for. destruct (cb_channels self !! id) as [c|] eqn:Hc; cbn.
  - rewrite insert_id, decide_True by eauto. by destruct self.
  - by rewrite decide_False by (by intros []).
Qed.

Lemma bank_size_same id o m : bank_size (<[id := channel_for id o m]> m) = bank_size m.
Proof.
  unfold channel_for. destruct (m !! id) as [c|] eqn:Hc; cbn; [by rewrite insert_id|].
  by rewrite bank_size_insert.
Qed.

(** The channel of [frame] after the frame has been offered to it. *)
Definition channel_after {P : Type} (frame : Frame) (o : BlockInfo) (self : ChannelBank P) : Channel :=
  let c := channel_for (f_id frame) o (cb_channels self) in
  if timed_out (cb_cfg self) c o then c else (add_frame frame o c).2.

(** The bank after [frame] has been ingested and the first [k] channels evicted. *)
Definition ingested {P : Type} (k : nat) (frame : Frame) (o : BlockInfo) (self : ChannelBank P)
    : ChannelBank P :=
  let m := <[f_id frame := channel_after frame o self]> (cb_channels self) in
  let q := queue_for (f_id frame) (cb_channels self) (cb_channel_queue self) in
  set_channels (evict (take k q) m) (drop k q) self.

Lemma channel_after_wf {P : Type} frame o (self : ChannelBank P) :
  channels_wf (cb_channels self) → frame_valid frame →
  channel_wf (channel_after frame o self) ∧ c_id (channel_after frame o self) = f_id frame.
Proof.
  intros Hwf Hf. unfold channel_after. destruct (channel_for_wf (f_id frame) o _ Hwf) as [Hc Hid].
  destruct (timed_out _ _ _); [done|]. split; [by apply add_frame_wf|].
  destruct (add_frame frame o _) as [[r|e|] c'] eqn:Ha; cbn.
  - apply add_frame_Ok in Ha as (_ & _ & _ & _ & _ & -> & _); done.
  - by apply add_frame_Err in Ha as [_ ->].
  - by apply add_frame_not_Panic in Ha.
Qed.

Section ingest.
Context {P : Type} `{!Stage P} `{!NextFrameProvider P}.
Implicit Types self : ChannelBank P.

Lemma ingested_0 frame o self :
  bank_inv self → frame_valid frame →
  channel_after frame o self = channel_for (f_id frame) o (cb_channels self) →
  bank_inv (ingested 0 frame o self).
Proof.
  intros [Hc Hsz] Hf Heq. unfold ingested, bank_inv. cbn. rewrite evict_nil, Heq, bank_size_same.
  split; [|done]. destruct (channel_for_wf (f_id frame) o _ (bc_channels _ _ Hc)).
  by apply bank_consistent_insert.
Qed.

Lemma ingest_at_ok frame o self :
  bank_inv self → frame_valid frame →
  ∃ k, ingest_at frame o self = (Ok tt, ingested k frame o self)
    ∧ bank_inv (ingested k frame o self)
    ∧ ∀ j, (j < k)%nat →
        bank_size (cb_channels (ingested j frame o self)) > FJORD_MAX_CHANNEL_BANK_SIZE.
Proof.
  intros Hinv Hf. pose proof Hinv as [Hc Hsz].
  destruct (channel_after_wf frame o self (bc_channels _ _ Hc) Hf) as [Haw Hai].
  unfold ingest_at. rewrite get_or_create_eq.
  assert (∀ c, channel_after frame o self = c → c = channel_for (f_id frame) o (cb_channels self) →
    ∃ k, (Ok (E:=PipelineErrorKind) tt, ingested 0 frame o self) = (Ok tt, ingested k frame o self)
      ∧ bank_inv (ingested k frame o self)
      ∧ ∀ j, (j < k)%nat →
          bank_size (cb_channels (ingested j frame o self)) > FJORD_MAX_CHANNEL_BANK_SIZE) as Hsame.
  { intros c <- Heq. exists 0%nat. split_and!; [done|by apply ingested_0|lia]. }
  cbn [cb_cfg set_channels]. destruct (timed_out _ _ _) eqn:Hto.
  { destruct (Hsame (channel_after frame o self)) as (k & Hk & Hr);
      [done|by unfold channel_after; rewrite Hto|].
    exists k. rewrite <- Hk. split; [|done]. unfold ingested. cbn. rewrite evict_nil.
    unfold channel_after. by rewrite Hto. }
  destruct (add_frame frame o _) as [[[]|e|] c'] eqn:Ha.
  - assert (channel_after frame o self = c') as Hca by (unfold channel_after; by rewrite Hto, Ha).
    set (m := <[f_id frame := channel_after frame o self]> (cb_channels self)).
    set (q := queue_for (f_id frame) (cb_channels self) (cb_channel_queue self)).
    assert (bank_consistent m q) as Hmq by (by apply bank_consistent_insert).
    destruct (bank_size_update (cb_channels self) (f_id frame) (channel_after frame o self)
                (bc_channels _ _ Hc)) as [Hup _].
    pose proof (channel_size_range _ Haw). pose proof (bank_size_nonneg m (bc_channels _ _ Hmq)).
    fold m in Hup. unfold FJORD_MAX_CHANNEL_BANK_SIZE, MAX_FRAME_LEN, FRAME_OVERHEAD in *.
    destruct (prune_loop_evicts m q Hmq) as (k & Hr & Hck & Hk & Hmin); [lia|].
    exists k. unfold prune. rewrite size_wrap. cbn [cb_channels cb_channel_queue set_channels].
    rewrite insert_insert, decide_True by done. rewrite <- Hca. fold m q.
    rewrite wrap_small by (unfold in_width; lia). rewrite Hr. split; [done|]. split; [done|].
    exact Hmin.
  - apply add_frame_Err in Ha as Ha'. destruct Ha' as [_ ->].
    destruct (Hsame (channel_after frame o self)) as (k & Hk & Hr);
      [done|by unfold channel_after; rewrite Hto, Ha|].
    exists k. rewrite <- Hk. split; [|done]. unfold ingested. cbn. rewrite evict_nil.
    unfold channel_after. rewrite Hto, Ha. cbn. by rewrite insert_insert, decide_True.
  - by apply add_frame_not_Panic in Ha.
Qed.

Lemma ingest_frame_at frame o self :
  origin self = Some o → ingest_frame frame self = ingest_at frame o self.
Proof. intros Ho. unfold ingest_frame. rewrite bind_run. unfold gets. by rewrite Ho. Qed.
End ingest.

(** * Reading a channel *)

Definition readable (cfg : SoonRollupConfig) (o : BlockInfo) (m : gmap ChannelId Channel)
    (id : ChannelId) : bool :=
  match m !! id with
  | Some c => negb (timed_out cfg c o) && is_ready c
  | None => false
  end.

Definition channel_bytes (m : gmap ChannelId Channel) (id : ChannelId) : bytes :=
  default [] (m !! id ≫= frame_data).

(** The abstract read: drop a timed-out head, else take the first readable channel. *)
Definition read_spec {P : Type} (o : BlockInfo) (self : ChannelBank P)
    : outcome PipelineErrorKind (option bytes) * ChannelBank P :=
  match cb_channel_queue self with
  | [] => (Err (temp Eof), self)
  | first :: _ =>
      if timed_out (cb_cfg self) (channel_for first o (cb_channels self)) o
      then (Ok None, remove_channel first 0 self)
      else
        match list_find (λ id, readable (cb_cfg self) o (cb_channels self) id = true)
                (cb_channel_queue self) with
        | Some (i, id) => (Ok (Some (channel_bytes (cb_channels self) id)), remove_channel id i self)
        | None => (Err (temp Eof), self)
        end
  end.

Lemma ready_data c : channel_wf c → is_ready c = true → is_Some (frame_data c).
Proof.
  intros Hwf [Hc _]%is_ready_iff; [|done]. rewrite frame_data_complete by done. by eexists.
Qed.

Section reading.
Context {P : Type} `{!Stage P} `{!NextFrameProvider P}.
Implicit Types self : ChannelBank P.

Lemma try_read_eq o self i id :
  bank_inv self → origin self = Some o → cb_channel_queue self !! i = Some id →
  try_read_channel_at_index i self =
    if readable (cb_cfg self) o (cb_channels self) id
    then (Ok (channel_bytes (cb_channels self) id), remove_channel id i self)
    else (Err (temp Eof), self).
Proof.
  intros [Hc _] Ho Hi. unfold try_read_channel_at_index.
  assert (is_Some (cb_channels self !! id)) as [c Hid].
  { apply (bc_dom _ _ Hc). by eapply list_elem_of_lookup_2. }
  rewrite bind_run. unfold gets at 1. rewrite Hi. rewrite bind_run. cbn [expect lift].
  unfold lift at 1. cbn [expect]. rewrite bind_run. unfold gets at 1. rewrite Hid.
  rewrite bind_run. unfold lift at 1. cbn [ok_or]. rewrite bind_run. unfold gets at 1. rewrite Ho.
  rewrite bind_run. unfold lift at 1. cbn [ok_or]. rewrite bind_run. unfold gets at 1.
  unfold readable, channel_bytes. rewrite Hid. cbn [mbind option_bind].
  destruct (timed_out _ _ _); cbn [orb negb andb]; [done|].
  destruct (is_ready c) eqn:Hr; cbn [negb]; [|done].
  destruct (ready_data c) as [d Hd]; [by apply (bc_channels _ _ Hc id)|done|].
  rewrite bind_run. unfold modify, lift. by rewrite Hd.
Qed.

Lemma find_map_read_eq o self a n :
  bank_inv self → origin self = Some o → (a + n <= length (cb_channel_queue self))%nat →
  find_map_read (seq a n) self =
    match list_find (λ id, readable (cb_cfg self) o (cb_channels self) id = true)
            (take n (drop a (cb_channel_queue self))) with
    | Some (j, id) => (Ok (Some (channel_bytes (cb_channels self) id)), remove_channel id (a + j) self)
    | None => (Ok None, self)
    end.
Proof.
  intros Hinv Ho. revert a. induction n as [|n IH]; intros a Ha; [done|].
  destruct (lookup_lt_is_Some_2 (cb_channel_queue self) a) as [id Hid]; [lia|].
  rewrite (drop_S _ id) by done. cbn [seq find_map_read take list_find]. unfold catch.
  rewrite (try_read_eq o self a id) by done.
  destruct (readable _ _ _ id) eqn:Hr.
  - rewrite decide_True by done. by rewrite Nat.add_0_r.
  - rewrite decide_False by done. rewrite IH by lia.
    destruct (list_find _ _) as [[j i]|]; cbn; [|done]. by rewrite Nat.add_succ_r.
Qed.

Lemma read_eq o self :
  bank_inv self → origin self = Some o → read self = read_spec o self.
Proof.
  intros Hinv Ho. unfold read, read_spec. rewrite bind_run. unfold gets at 1.
  destruct (cb_channel_queue self) as [|first queue] eqn:Hq; [done|].
  assert (is_Some (cb_channels self !! first)) as [c Hid].
  { apply (bc_dom _ _ (proj1 Hinv)). rewrite Hq. apply elem_of_cons. by left. }
  rewrite bind_run. unfold gets at 1. rewrite Hid, bind_run. unfold lift at 1. cbn [ok_or].
  rewrite bind_run. unfold gets at 1. rewrite Ho, bind_run. unfold lift at 1. cbn [ok_or].
  rewrite bind_run. unfold gets at 1. unfold channel_for. rewrite Hid. cbn [default].
  unfold default, id. destruct (timed_out _ _ _); [by rewrite bind_run|].
  rewrite bind_run, (find_map_read_eq o) by (done || (rewrite Hq; cbn; lia)).
  rewrite drop_0, Hq, take_ge by done.
  by destruct (list_find _ _) as [[j i]|].
Qed.

Lemma remove_channel_inv self i id :
  bank_inv self → cb_channel_queue self !! i = Some id → bank_inv (remove_channel id i self).
Proof.
  intros [[Hnd Hdom Hwf] Hsz] Hi. unfold remove_channel, bank_inv. cbn.
  rewrite <- (take_drop_middle _ i id Hi) in Hnd.
  assert (∀ j, j ∈ cb_channel_queue self ↔
    j = id ∨ j ∈ take i (cb_channel_queue self) ++ drop (S i) (cb_channel_queue self)) as Hq.
  { intros j. rewrite <- (take_drop_middle _ i id Hi) at 1. rewrite !elem_of_app, elem_of_cons. tauto. }
  apply NoDup_app in Hnd as (Hnd1 & Hnd2 & Hnd3). apply NoDup_cons in Hnd3 as [Hnd3 Hnd4].
  assert (id ∉ take i (cb_channel_queue self) ++ drop (S i) (cb_channel_queue self)) as Hid.
  { rewrite elem_of_app. intros [H|H]; [|done]. apply (Hnd2 id H), elem_of_cons. by left. }
  split; [split|].
  - apply NoDup_app. split_and!; [done| |done].
    intros j Hj Hj'. apply (Hnd2 j Hj), elem_of_cons. by right.
  - intros j. rewrite lookup_delete_is_Some, Hdom, Hq. naive_solver.
  - by apply channels_wf_delete.
  - destruct (proj2 (Hdom id)) as [c Hc]; [by eapply list_elem_of_lookup_2|].
    rewrite (bank_size_delete _ id c Hc) in Hsz. destruct (Hwf id c Hc) as [Hcw _].
    pose proof (channel_size_range c Hcw). lia.
Qed.

Lemma read_spec_inv o self :
  bank_inv self → bank_inv (read_spec o self).2.
Proof.
  intros Hinv. unfold read_spec. destruct (cb_channel_queue self) as [|first q] eqn:Hq; [done|].
  destruct (timed_out _ _ _); [apply remove_channel_inv; [done|by rewrite Hq]|].
  destruct (list_find _ _) as [[i id]|] eqn:Hf; [|done].
  apply list_find_Some in Hf as [Hf _]. cbn. apply remove_channel_inv; [done|]. by rewrite Hq.
Qed.
End reading.

(** * The interface, implemented *)

Section laws.
Context {P : Type} `{!Stage P} `{!StageLaws P} `{!NextFrameProvider P} `{!NextFrameLaws P}.

Definition channel_bank_inv (self : ChannelBank P) : Prop :=
  bank_inv self ∧ st_inv (cb_prev self).
Definition channel_bank_err (e : PipelineErrorKind) : Prop :=
  st_err (P:=P) e ∨ e = temp NotEnoughData.

Lemma bank_inv_new cfg (prev : P) : bank_inv (new cfg prev).
Proof.
  split; [split|].
  - apply NoDup_nil_2.
  - intros id. cbn. rewrite lookup_empty, elem_of_nil. split; [by intros []|done].
  - intros id c Hc. cbn in Hc. by rewrite lookup_empty in Hc.
  - cbn. by rewrite bank_size_empty.
Qed.

#[export] Program Instance channel_bank_laws : StageLaws (ChannelBank P) :=
  {| st_inv := channel_bank_inv; st_err := channel_bank_err |}.
Next Obligation. intros self [_ Hp]. by apply (st_origin (cb_prev self)). Qed.
Next Obligation.
  apply (safe_zoom _ _ st_inv st_err); [apply st_advance|by intros s [_ Hs]| |by left].
  by intros s t [Hs _] Ht.
Qed.
Next Obligation.
  intros sg Hsg. apply (safe_bind _ _ (λ _, True)).
  - apply (safe_zoom _ _ st_inv st_err); [by apply st_signal|by intros s [_ Hs]| |by left].
    by intros s t [Hs _] Ht.
  - intros _ _. apply safe_modify. intros s [_ Hp]. split; [|done].
    apply (bank_inv_new (cb_cfg s) (cb_prev s)).
Qed.

Lemma ingest_frame_safe o f :
  frame_valid f →
  safe (λ self, channel_bank_inv self ∧ origin self = o) channel_bank_err (λ _, True)
    (ingest_frame (P:=P) f).
Proof.
  intros Hf self [[Hb Hp] Ho]. destruct (st_origin (cb_prev self) Hp) as [ob Hob].
  rewrite (ingest_frame_at f ob) by done.
  destruct (ingest_at_ok f ob self Hb Hf) as (k & -> & Hk & _). done.
Qed.

#[export] Instance channel_bank_reader_laws : ChannelReaderLaws (ChannelBank P).
Proof.
  intros o self [[Hb Hp] Ho]. destruct (st_origin (cb_prev self) Hp) as [ob Hob].
  unfold cr_next_data, channel_bank_reader, next_data, catch.
  rewrite (read_eq ob) by done. pose proof (read_spec_inv ob self Hb) as Hinv.
  assert (cb_prev (read_spec ob self).2 = cb_prev self) as Hprev.
  { unfold read_spec. destruct (cb_channel_queue self); [done|]. destruct (timed_out _ _ _); [done|].
    by destruct (list_find _ _) as [[]|]. }
  destruct (read_spec ob self) as [r s] eqn:Hr. cbn in Hinv, Hprev.
  assert (channel_bank_inv s ∧ origin s = o) as Hs.
  { split; [split; [done|by rewrite Hprev]|]. rewrite <- Ho. unfold origin, stage_origin, channel_bank_stage, channel_bank_origin. by rewrite Hprev. }
  destruct r as [d|e|]; [done| |].
  - assert (e = temp Eof) as ->.
    { unfold read_spec in Hr. destruct (cb_channel_queue self); [by injection Hr as <- _|].
      destruct (timed_out _ _ _); [done|]. destruct (list_find _ _) as [[]|]; [done|].
      by injection Hr as <- _. }
    rewrite bool_decide_eq_false_2 by naive_solver.
    clear Hr Hinv Hprev. revert s Hs.
    apply (safe_bind (λ self, channel_bank_inv self ∧ origin self = o) channel_bank_err frame_valid).
    + apply (safe_zoom _ _ (λ p, st_inv p ∧ origin p = o) st_err); [apply next_frame_safe| | |by left].
      * by intros s [[_ Hs] Hso].
      * by intros s t [[Hs _] _] [Ht Hto].
    + intros f Hf. apply (safe_bind _ _ (λ _, True)); [by apply ingest_frame_safe|].
      intros _ _. apply safe_fail. by right.
  - unfold read_spec in Hr. destruct (cb_channel_queue self); [done|].
    destruct (timed_out _ _ _); [done|]. by destruct (list_find _ _) as [[]|].
Qed.
End laws.

(** * Reassembly *)

Section reassembly.
Context {P : Type} `{!Stage P} `{!NextFrameProvider P}.
Context (id : ChannelId) (o : BlockInfo) (fs : list Frame) (self0 : ChannelBank P).
Hypothesis (Hcf : channel_frames id fs).
Hypothesis (Hnew : cb_channels self0 !! id = None).
Hypothesis (Hinv0 : bank_inv self0).
Hypothesis (Ho : origin self0 = Some o).
Hypothesis (Hto : u64_add (bi_number o) (cfg_channel_timeout (cb_cfg self0)) >= bi_number o).
Hypothesis (Hroom : bank_size (cb_channels self0) + frames_size fs <= FJORD_MAX_CHANNEL_BANK_SIZE).

(** The bank once it has ingested the frames [got] of [fs], the last of which made the
    channel [c]. *)
Definition with_channel (c : Channel) : ChannelBank P :=
  set_channels (<[id := c]> (cb_channels self0)) (cb_channel_queue self0 ++ [id]) self0.

Definition reassembling (got : list Frame) (self : ChannelBank P) : Prop :=
  bank_inv self ∧ ∃ c, assembling id fs got c ∧ c_open_block c = o ∧
  (self = with_channel c ∨ (self = self0 ∧ c = Channel.new id o)).

Lemma reassembling_step got f self :
  reassembling got self → got ⊆ fs → f ∈ fs → f ∉ got →
  frames_size (got ++ [f]) <= frames_size fs →
  ∃ self', ingest_frame f self = (Ok tt, self') ∧ reassembling (got ++ [f]) self'.
Proof.
  intros (Hinv & c & Hasm & Hopen & Hself) Hsub Hf Hnot Hsize.
  destruct (assembling_step id fs got f o c Hcf Hasm Hsub Hf Hnot) as (c' & Hadd & Hasm').
  pose proof (channel_frames_number id fs f Hcf Hf) as (_ & _ & Hid & Hv & _).
  assert (channel_after f o self = c' ∧ c_open_block c' = o) as [Hafter Hopen'].
  { assert (channel_for (f_id f) o (cb_channels self) = c) as Hc.
    { unfold channel_for. rewrite Hid. destruct Hself as [->|[-> ->]]; cbn.
      - by rewrite lookup_insert_eq.
      - by rewrite Hnew. }
    assert (cb_cfg self = cb_cfg self0) as Hcfg by (by destruct Hself as [->|[-> _]]).
    unfold channel_after. rewrite Hc, Hcfg. unfold timed_out, open_block_number.
    rewrite Hopen, bool_decide_eq_false_2 by lia. rewrite Hadd. split; [done|].
    apply add_frame_Ok in Hadd as (_ & _ & _ & _ & _ & _ & ->); [done|apply Hasm]. }
  assert (∀ k, ingested k f o self = set_channels (evict (take k (cb_channel_queue self0 ++ [id]))
    (<[id := c']> (cb_channels self0))) (drop k (cb_channel_queue self0 ++ [id])) self0) as Hing.
  { intros k. unfold ingested. rewrite Hafter, Hid. unfold queue_for.
    destruct Hself as [->|[-> _]]; cbn.
    - by rewrite insert_insert, !decide_True by (by rewrite ?lookup_insert_eq; eauto).
    - by rewrite decide_False by (rewrite Hnew; by intros []). }
  destruct (ingest_at_ok f o self Hinv Hv) as (k & Hrun & Hk & Hmin).
  assert (k = 0%nat) as ->.
  { destruct k; [done|]. specialize (Hmin 0%nat ltac:(lia)). rewrite Hing in Hmin. cbn in Hmin.
    rewrite evict_nil, bank_size_insert in Hmin by done. unfold Channel.size in Hmin.
    rewrite (asm_size _ _ _ _ Hasm'), (asm_sum _ _ _ _ Hasm') in Hmin. lia. }
  exists (with_channel c'). rewrite (ingest_frame_at f o).
  - rewrite Hrun, Hing. unfold with_channel. cbn [take drop]. rewrite evict_nil. split; [done|].
    split; [|by exists c'; auto]. rewrite Hing in Hk. cbn [take drop] in Hk.
    by rewrite evict_nil in Hk.
  - by destruct Hself as [->|[-> _]].
Qed.

Lemma reassembling_run got todo self :
  reassembling got self → got ++ todo ⊆ fs → NoDup (got ++ todo) →
  frames_size (got ++ todo) <= frames_size fs →
  ∃ self', for_each ingest_frame todo self = (Ok tt, self') ∧ reassembling (got ++ todo) self'.
Proof.
  revert got self. induction todo as [|f todo IH]; intros got self Hr Hsub Hnd Hsz.
  { exists self. by rewrite app_nil_r. }
  assert (got ++ f :: todo = (got ++ [f]) ++ todo) as Heq by (by rewrite <- app_assoc).
  destruct (reassembling_step got f self) as (self1 & Hrun1 & Hr1); [done|set_solver|set_solver| | |].
  - intros Hf. apply NoDup_app in Hnd as (_ & Hnd & _). apply (Hnd f Hf). set_solver.
  - rewrite Heq, frames_size_app in Hsz. pose proof (frames_size_nonneg todo). lia.
  - destruct (IH (got ++ [f]) self1) as (self' & Hrun & Hr'); [done|by rewrite <- Heq..|].
    exists self'. rewrite Heq. split; [|done]. cbn [for_each]. by rewrite bind_run, Hrun1, Hrun.
Qed.
End reassembly.

(** * Theorems *)

Section theorems.
Context {P : Type} `{!Stage P} `{!NextFrameProvider P}.

(** C9. Reassembly through the bank: when the frames of a new channel arrive in any
    order at one L1 origin, and they fit under the size limit next to what is already
    buffered, every one is ingested without evicting or touching another channel.  The
    channel is appended to the queue and is not ready before its last frame; with all
    frames in, it holds the concatenation of their data in number order and is ready
    (unless it has 65536 frames). *)
Theorem channel_bank_reassembles (id : ChannelId) (o : BlockInfo) (fs order : list Frame)
    (self : ChannelBank P) :
  channel_frames id fs → Permutation order fs →
  bank_inv self → cb_channels self !! id = None → origin self = Some o →
  u64_add (bi_number o) (cfg_channel_timeout (cb_cfg self)) >= bi_number o →
  bank_size (cb_channels self) + frames_size fs <= FJORD_MAX_CHANNEL_BANK_SIZE →
  (∃ c, for_each ingest_frame order self = (Ok tt, with_channel id self c)
    ∧ is_ready c = bool_decide (len fs <= 65535)
    ∧ frame_data c = Some (concat (map f_data fs))) ∧
  ∀ k, (k < length order)%nat →
    readable (cb_cfg self) o
      (cb_channels (exec (for_each ingest_frame (take k order)) self)) id = false.
Proof.
  intros Hcf Hperm Hinv Hnew Ho Hto Hroom.
  pose proof (channel_frames_NoDup id fs Hcf) as Hnd. rewrite <- Hperm in Hnd.
  assert (order ⊆ fs ∧ fs ⊆ order) as [Hsub Hall] by (split; intros f; by rewrite Hperm).
  assert (reassembling id o fs self [] self) as Hstart.
  { split; [done|]. exists (Channel.new id o). split_and!; [by apply assembling_new|done|by right]. }
  assert (∀ k, take k order ⊆ fs ∧ frames_size (take k order) <= frames_size fs) as Htake.
  { intros k. split.
    - intros f Hf. apply Hsub. rewrite <- (take_drop k order). apply elem_of_app. by left.
    - pose proof (frames_size_app (take k order) (drop k order)) as Happ.
      rewrite take_drop, (frames_size_perm _ _ Hperm) in Happ.
      pose proof (frames_size_nonneg (drop k order)). lia. }
  split.
  - destruct (reassembling_run id o fs self Hcf Hnew Hinv Ho Hto Hroom [] order self)
      as (self' & Hrun & _ & c & Hasm & _ & Hself);
      [done|done|done|by rewrite app_nil_l, (frames_size_perm _ _ Hperm)|].
    exists c. split_and!; [|by eapply assembling_ready|by eapply assembling_data].
    rewrite Hrun. destruct Hself as [->|[-> ->]]; [done|].
    pose proof (cf_nonempty _ _ Hcf). destruct fs as [|f fs']; [done|].
    assert (f ∈ order) as Hf by (apply Hall; set_solver).
    apply (conj (eq_refl (f_number f))), and_comm, (asm_inputs _ _ _ _ Hasm) in Hf.
    cbn in Hf. by rewrite lookup_empty in Hf.
  - intros k Hk. destruct (Htake k) as [Hsubk Hszk].
    destruct (reassembling_run id o fs self Hcf Hnew Hinv Ho Hto Hroom [] (take k order) self)
      as (self' & Hrun & _ & c & Hasm & _ & Hself); [done|done| |done|].
    { rewrite <- (take_drop k order) in Hnd. by apply NoDup_app in Hnd as (Hnd & _). }
    unfold exec. rewrite Hrun. cbn [snd app] in *. unfold readable.
    destruct Hself as [->|[-> ->]]; cbn; [|by rewrite Hnew].
    rewrite lookup_insert_eq. apply andb_false_intro2.
    eapply assembling_not_ready; [done..|]. rewrite length_take, <- (Permutation_length Hperm). lia.
Qed.

(** Ingesting a frame, on every branch: it succeeds and keeps the invariant (same
    channels in map and queue, no duplicates, at most 1 GB buffered).  A new channel
    goes to the end of the queue; the frame changes its own channel only, as
    [add_frame] does, unless that channel has timed out or rejects the frame; then the
    shortest prefix of the queue that restores the limit is evicted. *)
Theorem ingest_frame_spec (frame : Frame) (o : BlockInfo) (self : ChannelBank P) :
  bank_inv self → frame_valid frame → origin self = Some o →
  ∃ k, ingest_frame frame self = (Ok tt, ingested k frame o self)
    ∧ bank_inv (ingested k frame o self)
    ∧ ∀ j, (j < k)%nat →
        bank_size (cb_channels (ingested j frame o self)) > FJORD_MAX_CHANNEL_BANK_SIZE.
Proof. intros Hinv Hf Ho. rewrite (ingest_frame_at frame o) by done. by apply ingest_at_ok. Qed.

(** Reading the bank is its specification: a timed-out head is dropped alone,
    otherwise the first channel in queue order that is ready and not timed out is
    removed and its data returned, and the bank is unchanged when there is none.  The
    invariant is kept, and a channel that is read never lacks data. *)
Theorem read_refines (o : BlockInfo) (self : ChannelBank P) :
  bank_inv self → origin self = Some o →
  read self = read_spec o self
  ∧ bank_inv (read_spec o self).2
  ∧ ∀ id c, cb_channels self !! id = Some c → is_ready c = true →
      frame_data c = Some (channel_bytes (cb_channels self) id).
Proof.
  intros Hinv Ho. split_and!; [by apply read_eq|by apply read_spec_inv|].
  intros id c Hc Hr. unfold channel_bytes. rewrite Hc. cbn [mbind option_bind].
  destruct (ready_data c) as [d ->]; [by apply (bc_channels _ _ (proj1 Hinv) id)|done|done].
Qed.
End theorems.

Section safety.
Context {P : Type} `{!Stage P} `{!StageLaws P} `{!NextFrameProvider P} `{!NextFrameLaws P}.

(** Over any previous stage that keeps its promises, [next_data] never panics, keeps
    the bank's invariant and the origin, and raises no error of its own but the
    temporary [NotEnoughData]; in particular none of its critical errors occurs. *)
Theorem channel_bank_next_data_safe (o : option BlockInfo) :
  safe (λ self, bank_inv self ∧ st_inv (cb_prev self) ∧ origin (cb_prev self) = o)
    (λ e, st_err (P:=P) e ∨ e = temp NotEnoughData) (λ _, True) (next_data (P:=P)).
Proof.
  intros self (Hb & Hp & Ho). pose proof (cr_next_data_safe o self) as H.
  specialize (H (conj (conj Hb Hp) Ho)). unfold cr_next_data, channel_bank_reader in H.
  destruct (next_data self) as [[d|e|] s]; [..|done]; destruct H as (H1 & [H2 H3] & H4); done.
Qed.
End safety.

(** ** Witnesses *)

Definition example_bank : ChannelBank (Replay Frame) :=
  new mock_roll_up_config (mkReplay BlockInfo_default example_order).

Lemma example_bank_inv : bank_inv example_bank.
Proof. apply bank_inv_new. Qed.

Lemma example_order_perm : Permutation example_order example_channel_frames.
Proof.
  unfold example_order, example_channel_frames.
  etransitivity; [apply perm_swap|apply perm_skip, perm_swap].
Qed.

Lemma channel_bank_reassembles_witness :
  ∃ c, for_each ingest_frame example_order example_bank = (Ok tt, with_channel example_id example_bank c)
    ∧ frame_data c = Some (concat (map f_data example_channel_frames)).
Proof.
  destruct (channel_bank_reassembles example_id BlockInfo_default example_channel_frames
              example_order example_bank) as [(c & Hrun & _ & Hd) _].
  - apply example_channel_frames_ok.
  - apply example_order_perm.
  - apply example_bank_inv.
  - reflexivity.
  - reflexivity.
  - vm_compute. congruence.
  - vm_compute. congruence.
  - exists c. split; [exact Hrun|exact Hd].
Defined.

Lemma ingest_frame_spec_witness :
  ∃ k, ingest_frame (example_frame 0 true) example_bank
       = (Ok tt, ingested k (example_frame 0 true) BlockInfo_default example_bank).
Proof.
  destruct (ingest_frame_spec (example_frame 0 true) BlockInfo_default example_bank) as (k & Hk & _).
  - apply example_bank_inv.
  - apply example_frame_valid. vm_compute. split; congruence.
  - reflexivity.
  - exists k. exact Hk.
Defined.

Lemma read_refines_witness :
  read example_bank = (Err (temp Eof), example_bank).
Proof.
  destruct (read_refines BlockInfo_default example_bank) as [Hr _].
  - apply example_bank_inv.
  - reflexivity.
  - rewrite Hr. reflexivity.
Defined.

Lemma channel_bank_next_data_safe_witness :
  match next_data example_bank with (Panic, _) => False | _ => True end.
Proof.
  pose proof (channel_bank_next_data_safe (P:=Replay Frame) (Some BlockInfo_default) example_bank) as H.
  destruct (next_data example_bank) as [[d|e|] s]; [exact I|exact I|].
  apply H. split; [apply example_bank_inv|]. split; [|reflexivity].
  repeat constructor; vm_compute; congruence.
Defined.
