(* ===== verification/ChannelAssembler.v ===== *)
(** The channel assembler stage
    (src/crates/derive/src/stages/channel/channel_assembler.rs).

    The assembler keeps at most one channel, restarted by every frame numbered 0.
    [assembler_in_order] is its contract on a well-ordered stream of frames. *)
From S2P Require Import Prelude Blocks Frame Channel SystemConfig Types.
#[local] Open Scope Z_scope.

Record ChannelAssembler (P : Type) := mkChannelAssembler {
  ca_cfg : SoonRollupConfig;
  ca_prev : P;
  ca_channel : option Channel;
}.
Arguments mkChannelAssembler {P}.
Arguments ca_cfg {P}.
Arguments ca_prev {P}.
Arguments ca_channel {P}.

Definition set_prev {P : Type} (p : P) (self : ChannelAssembler P) : ChannelAssembler P :=
  mkChannelAssembler (ca_cfg self) p (ca_channel self).
Definition set_channel {P : Type} (c : option Channel) (self : ChannelAssembler P) : ChannelAssembler P :=
  mkChannelAssembler (ca_cfg self) (ca_prev self) c.

(** * Operations *)

Definition new {P : Type} (cfg : SoonRollupConfig) (prev : P) : ChannelAssembler P :=
  mkChannelAssembler cfg prev None.

Section channel_assembler.
Context {P : Type} `{!Stage P} `{!NextFrameProvider P}.
Implicit Types self : ChannelAssembler P.

#[export] Instance channel_assembler_origin : OriginProvider (ChannelAssembler P) :=
  λ self, origin (ca_prev self).

Definition is_timed_out (self : ChannelAssembler P) : outcome PipelineErrorKind bool :=
  o ← ok_or (origin self) (crit MissingOrigin);
  Ok (match ca_channel self with
      | Some c =>
          bool_decide (u64_add (open_block_number c) (cfg_channel_timeout (ca_cfg self)) < bi_number o)
      | None => false
      end).

(** The part of [next_data] that handles the frame fetched at origin [o]. *)
Definition assemble (next_frame : Frame) (o : BlockInfo)
    : PipelineM (ChannelAssembler P) (option bytes) := λ self,
  let self := if decide (f_number next_frame = 0)
              then set_channel (Some (Channel.new (f_id next_frame) o)) self else self in
  match ca_channel self with
  | None => (Err (temp NotEnoughData), self)
  | Some channel =>
      let '(r, channel) := add_frame next_frame o channel in
      let self := set_channel (Some channel) self in
      match r with
      | Panic => (Panic, self)
      | Err _ => (Err (temp NotEnoughData), self)
      | Ok _ =>
          let max_rlp_bytes_per_channel := cfg_channel_size (ca_cfg self) in
          if decide (Channel.size channel > max_rlp_bytes_per_channel)
          then (Err (temp NotEnoughData), set_channel None self)
          else if is_ready channel then
            match frame_data channel with
            | None => (Err (crit ChannelNotFound), self)
            | Some channel_bytes => (Ok (Some channel_bytes), set_channel None self)
            end
          else (Err (temp NotEnoughData), self)
      end
  end.

Definition next_data : PipelineM (ChannelAssembler P) (option bytes) :=
  maybe_origin ← gets origin;
  o ← lift (ok_or maybe_origin (crit MissingOrigin));
  channel ← gets ca_channel;
  _ ← match channel with
      | Some _ =>
          timed_out ← gets is_timed_out;
          timed_out ← lift timed_out;
          if timed_out : bool then modify (set_channel None) else mret tt
      | None => mret tt
      end;
  next_frame ← zoom ca_prev set_prev next_frame;
  assemble next_frame o.
#[export] Instance channel_assembler_reader : ChannelReaderProvider (ChannelAssembler P) := next_data.

#[export] Instance channel_assembler_advancer : OriginAdvancer (ChannelAssembler P) :=
  zoom ca_prev set_prev advance_origin.

Definition signal_ (s : Signal) : PipelineM (ChannelAssembler P) unit :=
  _ ← zoom ca_prev set_prev (signal s);
  modify (set_channel None).
#[export] Instance channel_assembler_signal : SignalReceiver (ChannelAssembler P) := signal_.

#[export] Instance channel_assembler_stage : Stage (ChannelAssembler P) := {}.
End channel_assembler.

(** * The interface, implemented *)

Definition assembler_inv {P : Type} (self : ChannelAssembler P) : Prop :=
  ∀ c, ca_channel self = Some c → channel_wf c.

Section laws.
Context {P : Type} `{!Stage P} `{!StageLaws P} `{!NextFrameProvider P} `{!NextFrameLaws P}.

Definition channel_assembler_inv (self : ChannelAssembler P) : Prop :=
  assembler_inv self ∧ st_inv (ca_prev self).
Definition channel_assembler_err (e : PipelineErrorKind) : Prop :=
  st_err (P:=P) e ∨ e = temp NotEnoughData.

#[export] Program Instance channel_assembler_laws : StageLaws (ChannelAssembler P) :=
  {| st_inv := channel_assembler_inv; st_err := channel_assembler_err |}.
Next Obligation. intros self [_ Hp]. by apply (st_origin (ca_prev self)). Qed.
Next Obligation.
  apply (safe_zoom _ _ st_inv st_err); [apply st_advance|by intros s [_ Hs]| |by left].
  by intros s t [Hs _] Ht.
Qed.
Next Obligation.
  intros sg Hsg. apply (safe_bind _ _ (λ _, True)).
  - apply (safe_zoom _ _ st_inv st_err); [by apply st_signal|by intros s [_ Hs]| |by left].
    by intros s t [Hs _] Ht.
  - intros _ _. apply safe_modify. by intros s [_ Hp].
Qed.

Lemma assemble_safe o f ob :
  frame_valid f →
  safe (λ self, channel_assembler_inv self ∧ origin self = o) channel_assembler_err (λ _, True)
    (assemble (P:=P) f ob).
Proof.
  intros Hf self [[Ha Hp] Ho]. unfold assemble.
  set (s1 := if decide (f_number f = 0) then _ else self).
  assert (assembler_inv s1 ∧ st_inv (ca_prev s1) ∧ origin s1 = o) as (Hi & Hp1 & Ho1).
  { unfold s1. destruct (decide _); [|done]. split; [|done]. intros c [= <-]. apply new_wf. }
  clearbody s1. destruct (ca_channel s1) as [c|] eqn:Hc; [|split; [by right|done]].
  pose proof (Hi c Hc) as Hcw. pose proof (add_frame_wf f ob c Hcw Hf) as Hw.
  destruct (add_frame f ob c) as [r c'] eqn:Hadd. cbn in Hw.
  assert (channel_assembler_inv (set_channel (Some c') s1)) as Hs by (split; [by intros ? [= <-]|done]).
  destruct r as [u|e|]; [|split; [by right|done]|by apply add_frame_not_Panic in Hadd].
  destruct (decide _); [by split; [right|]|].
  destruct (is_ready c') eqn:Hr; [|by split; [right|]].
  apply is_ready_iff in Hr as [Hr _]; [|done]. rewrite frame_data_complete by done. done.
Qed.

#[export] Instance channel_assembler_reader_laws : ChannelReaderLaws (ChannelAssembler P).
Proof.
  intros o. apply (safe_bind _ _ is_Some).
  { apply safe_gets. intros s [[_ Hs] _]. by apply (st_origin (ca_prev s)). }
  intros mo [ob ->]. apply (safe_bind _ _ (λ _, True)); [by apply safe_lift|]. intros o' _.
  apply (safe_bind _ _ (λ _, True)); [by apply safe_gets|]. intros ch _.
  apply (safe_bind _ _ (λ _, True)).
  { destruct ch as [c|]; [|by apply safe_ret].
    apply (safe_bind _ _ (λ r, ∃ b, r = Ok b)).
    { apply safe_gets. intros s [[_ Hs] _]. unfold is_timed_out.
      destruct (st_origin (ca_prev s) Hs) as [os Hos].
      unfold origin, channel_assembler_origin. rewrite Hos. by eexists. }
    intros r [b ->]. apply (safe_bind _ _ (λ _, True)); [by apply safe_lift|].
    intros [|] _; [|by apply safe_ret]. apply safe_modify. by intros s [[_ Hs] Hso]. }
  intros _ _. apply (safe_bind _ _ frame_valid).
  { apply (safe_zoom _ _ (λ p, st_inv p ∧ origin p = o) st_err); [apply next_frame_safe| | |by left].
    - by intros s [[_ Hs] Hso].
    - by intros s t [[Hs _] _] [Ht Hto]. }
  intros f Hf. by apply assemble_safe.
Qed.
End laws.

(** * In-order assembly *)

(** [n] calls of [next_data]: their outcomes and the final state. *)
Fixpoint calls {P : Type} `{!Stage P} `{!NextFrameProvider P} (n : nat) (self : ChannelAssembler P)
    : list (outcome PipelineErrorKind (option bytes)) * ChannelAssembler P :=
  match n with
  | O => ([], self)
  | S n => let '(r, self) := next_data self in
           let '(rs, self) := calls n self in (r :: rs, self)
  end.

Section in_order.
Context (cfg : SoonRollupConfig) (o : BlockInfo) (id : ChannelId) (fs rest : list Frame).
Hypothesis (Hcf : channel_frames id fs) (Hshort : len fs <= 65535).
Hypothesis (Hto : u64_add (bi_number o) (cfg_channel_timeout cfg) >= bi_number o).
Hypothesis (Hsize : frames_size fs <= cfg_channel_size cfg).

Definition at_frame (k : nat) (ch : option Channel) : ChannelAssembler (Replay Frame) :=
  mkChannelAssembler cfg (mkReplay o (drop k fs ++ rest)) ch.

(** The assembler that has taken the first [k] frames. *)
Definition assembled (k : nat) (ch : option Channel) : Prop :=
  (0 < k)%nat → ∃ c, ch = Some c ∧ assembling id fs (take k fs) c ∧ c_open_block c = o.

Lemma fetch k f ch :
  fs !! k = Some f → assembled k ch →
  ∃ ch', next_data (at_frame k ch) = assemble f o (at_frame (S k) ch') ∧ assembled k ch'.
Proof.
  intros Hf Hch. unfold next_data. rewrite bind_run. unfold gets at 1. cbn [origin stage_origin].
  rewrite bind_run. unfold lift at 1, origin at 1.
  change (ok_or _ _) with (Ok (E:=PipelineErrorKind) o). cbv iota beta.
  assert (∃ ch', ((match ch with
      | Some _ =>
          timed_out ← gets is_timed_out;
          timed_out ← lift timed_out;
          if timed_out : bool then modify (set_channel None) else mret tt
      | None => mret tt
      end) : PipelineM _ unit) (at_frame k ch) = (Ok tt, at_frame k ch') ∧ assembled k ch')
    as (ch' & Hrun & Hch').
  { destruct ch as [c|]; [|by exists None]. rewrite bind_run. unfold gets, is_timed_out.
    cbn. unfold lift. rewrite bind_run. destruct (bool_decide _) eqn:Hb; [|by exists (Some c)].
    exists None. split; [done|]. intros Hk. destruct (Hch Hk) as (c' & [= <-] & _ & Hopen).
    apply bool_decide_eq_true in Hb. unfold open_block_number in Hb. rewrite Hopen in Hb. lia. }
  exists ch'. split; [|done]. rewrite bind_run. unfold gets at 1. cbn [ca_channel at_frame].
  rewrite bind_run. fold (at_frame k ch). rewrite Hrun.
  rewrite bind_run. unfold zoom. cbn. unfold next_frame, replay_next_frame, replay. cbn.
  rewrite (drop_S _ f) by done. done.
Qed.

Lemma step_frame k f ch :
  fs !! k = Some f → assembled k ch →
  if decide (S k = length fs)
  then next_data (at_frame k ch) = (Ok (Some (concat (map f_data fs))), at_frame (S k) None)
  else ∃ ch', next_data (at_frame k ch) = (Err (temp NotEnoughData), at_frame (S k) ch')
              ∧ assembled (S k) ch'.
Proof.
  intros Hf Hch0. destruct (fetch k f ch Hf Hch0) as (ch1 & Hrun & Hch). rewrite Hrun. clear Hrun ch Hch0.
  pose proof (cf_frame _ _ Hcf k f Hf) as (Hnum & Hid & _).
  assert (∃ c, assembling id fs (take k fs) c ∧ c_open_block c = o ∧
    ca_channel (if decide (f_number f = 0)
                then set_channel (Some (Channel.new (f_id f) o)) (at_frame (S k) ch1)
                else at_frame (S k) ch1) = Some c) as (c & Hasm & Hopen & Hc).
  { destruct (decide (f_number f = 0)) as [H0|H0].
    - assert (k = 0%nat) as -> by lia. exists (Channel.new id o). cbn. rewrite Hid.
      split_and!; [by apply assembling_new|done|done].
    - destruct Hch as (c & -> & ? & ?); [lia|]. by exists c. }
  unfold assemble. destruct (if decide (f_number f = 0) then _ else _) as [cfg' prev' ch'] eqn:Hs.
  assert (cfg' = cfg ∧ prev' = ca_prev (at_frame (S k) ch1)) as [-> ->].
  { destruct (decide _); injection Hs as <- <- _; done. }
  cbn in Hc. subst ch'. cbn [ca_channel]. clear Hs.
  assert (f ∈ fs) as Hin by (by eapply list_elem_of_lookup_2).
  assert (take k fs ⊆ fs) as Hsub by (intros g Hg; by eapply elem_of_take in Hg as (i & Hg & _); eapply list_elem_of_lookup_2).
  assert (f ∉ take k fs) as Hnot.
  { intros (i & Hi & Hik)%elem_of_take.
    pose proof (cf_frame _ _ Hcf i f Hi) as (Hn & _). lia. }
  destruct (assembling_step id fs (take k fs) f o c Hcf Hasm Hsub Hin Hnot) as (c' & Hadd & Hasm').
  rewrite <- (take_S_r _ _ f Hf) in Hasm'. rewrite Hadd.
  assert (c_open_block c' = o) as Hopen'.
  { apply add_frame_Ok in Hadd as (_ & _ & _ & _ & _ & _ & ->); [done|apply Hasm]. }
  assert (take (S k) fs ⊆ fs) as Hsub' by (intros g Hg; by eapply elem_of_take in Hg as (i & Hg & _); eapply list_elem_of_lookup_2).
  cbn [ca_cfg set_channel]. destruct (decide (Channel.size c' > cfg_channel_size cfg)) as [Hgt|_].
  { exfalso. unfold Channel.size in Hgt.
    rewrite (asm_size _ _ _ _ Hasm'), (asm_sum _ _ _ _ Hasm') in Hgt.
    pose proof (frames_size_app (take (S k) fs) (drop (S k) fs)) as Happ. rewrite take_drop in Happ.
    pose proof (frames_size_nonneg (drop (S k) fs)). lia. }
  pose proof (lookup_lt_Some _ _ _ Hf). destruct (decide (S k = length fs)) as [Hend|Hend].
  - rewrite take_ge in Hasm' by lia.
    rewrite (assembling_ready id fs fs c') by done. rewrite bool_decide_eq_true_2 by done.
    rewrite (assembling_data id fs fs c') by done. done.
  - rewrite (assembling_not_ready id fs (take (S k) fs) c') by (done || (rewrite length_take; lia)).
    exists (Some c'). split; [done|]. intros _. by exists c'.
Qed.

Lemma calls_frames n k ch :
  (k + S n = length fs)%nat → assembled k ch →
  calls (S n) (at_frame k ch) =
    (replicate n (Err (temp NotEnoughData)) ++ [Ok (Some (concat (map f_data fs)))],
     at_frame (length fs) None).
Proof.
  revert k ch. induction n as [|n IH]; intros k ch Hk Hch;
    (destruct (lookup_lt_is_Some_2 fs k) as [f Hf]; [lia|]);
    pose proof (step_frame k f ch Hf Hch) as Hs.
  - rewrite decide_True in Hs by lia. cbn [calls]. rewrite Hs. by replace (S k) with (length fs) by lia.
  - rewrite decide_False in Hs by lia. destruct Hs as (ch' & Hs & Hch').
    remember (S n) as m eqn:Hm. cbn [calls]. rewrite Hs, (IH (S k) ch') by (done || lia).
    by rewrite Hm.
Qed.
End in_order.

(** When the frames of a channel reach the assembler in order, at one L1 origin and
    within the size limit, every call but the last reports [NotEnoughData] and the last
    returns the concatenation of their data; whatever channel was being assembled
    before is discarded, and nothing of this one is kept. *)
Theorem assembler_in_order (cfg : SoonRollupConfig) (o : BlockInfo) (id : ChannelId)
    (fs rest : list Frame) (before : option Channel) :
  channel_frames id fs → len fs <= 65535 →
  u64_add (bi_number o) (cfg_channel_timeout cfg) >= bi_number o →
  frames_size fs <= cfg_channel_size cfg →
  calls (length fs) (mkChannelAssembler cfg (mkReplay o (fs ++ rest)) before) =
    (replicate (length fs - 1) (Err (temp NotEnoughData)) ++ [Ok (Some (concat (map f_data fs)))],
     mkChannelAssembler cfg (mkReplay o rest) None).
Proof.
  intros Hcf Hshort Hto Hsize.
  pose proof (cf_nonempty _ _ Hcf) as Hne. destruct (length fs) as [|n] eqn:Hn; [by destruct fs|].
  replace (S n - 1)%nat with n by lia.
  change (mkChannelAssembler _ _ before) with (at_frame cfg o fs rest 0 before).
  rewrite (calls_frames cfg o id fs rest Hcf Hshort Hto Hsize n 0 before) by (lia || (intros ?; lia)).
  unfold at_frame. by rewrite drop_all.
Qed.

(** Over any previous stage that keeps its promises, [next_data] never panics, keeps a
    well-formed channel and the origin, and raises no error of its own but the
    temporary [NotEnoughData]. *)
Theorem assembler_next_data_safe {P : Type} `{!Stage P} `{!StageLaws P} `{!NextFrameProvider P}
    `{!NextFrameLaws P} (o : option BlockInfo) :
  safe (λ self, assembler_inv self ∧ st_inv (ca_prev self) ∧ origin (ca_prev self) = o)
    (λ e, st_err (P:=P) e ∨ e = temp NotEnoughData) (λ _, True) (next_data (P:=P)).
Proof.
  intros self (Hb & Hp & Ho). pose proof (cr_next_data_safe o self) as H.
  specialize (H (conj (conj Hb Hp) Ho)). unfold cr_next_data, channel_assembler_reader in H.
  destruct (next_data self) as [[d|e|] s]; [..|done]; destruct H as (H1 & [H2 H3] & H4); done.
Qed.

(** ** Witnesses *)

Lemma assembler_in_order_witness :
  calls 3 (mkChannelAssembler (new_for_genesis 1 Address_ZERO 0) (mkReplay BlockInfo_default example_channel_frames) None)
  = ([Err (temp NotEnoughData); Err (temp NotEnoughData); Ok (Some [byte0; byte1; byte1; byte1; z2b 2; byte1])],
     mkChannelAssembler (new_for_genesis 1 Address_ZERO 0) (mkReplay BlockInfo_default []) None).
Proof.
  pose proof (assembler_in_order (new_for_genesis 1 Address_ZERO 0) BlockInfo_default example_id
    example_channel_frames [] None) as H.
  rewrite app_nil_r in H. apply H.
  - apply example_channel_frames_ok.
  - vm_compute. congruence.
  - vm_compute. congruence.
  - vm_compute. congruence.
Defined.

Lemma assembler_next_data_safe_witness :
  match next_data (mkChannelAssembler (new_for_genesis 1 Address_ZERO 0)
          (mkReplay BlockInfo_default example_channel_frames) None) with
  | (Panic, _) => False | _ => True end.
Proof.
  pose proof (assembler_next_data_safe (P:=Replay Frame) (Some BlockInfo_default)
    (mkChannelAssembler (new_for_genesis 1 Address_ZERO 0) (mkReplay BlockInfo_default example_channel_frames) None)) as H.
  destruct (next_data _) as [[d|e|] s]; [exact I|exact I|].
  apply H. split; [intros c; discriminate|]. split; [|reflexivity].
  repeat constructor; vm_compute; congruence.
Defined.
