(* ===== verification/ChannelProvider.v ===== *)
(** The channel provider stage
    (src/crates/derive/src/stages/channel/channel_provider.rs).

    A mux between the channel bank and the channel assembler.  Holocene never activates
    here, so the mux always ends up with the bank: [provider_is_bank] is the simulation. *)
From S2P Require Import Prelude Blocks Frame Channel SystemConfig Types.
From S2P Require ChannelBank ChannelAssembler.
#[local] Open Scope Z_scope.

Abbreviation ChannelBank := ChannelBank.ChannelBank.
Abbreviation ChannelAssembler := ChannelAssembler.ChannelAssembler.
#[local] Existing Instances ChannelBank.channel_bank_stage ChannelBank.channel_bank_reader
  ChannelBank.channel_bank_laws ChannelBank.channel_bank_reader_laws
  ChannelAssembler.channel_assembler_stage ChannelAssembler.channel_assembler_reader.

Record ChannelProvider (P : Type) := mkChannelProvider {
  cp_cfg : SoonRollupConfig;
  cp_prev : option P;
  cp_channel_bank : option (ChannelBank P);
  cp_channel_assembler : option (ChannelAssembler P);
}.
Arguments mkChannelProvider {P}.
Arguments cp_cfg {P}.
Arguments cp_prev {P}.
Arguments cp_channel_bank {P}.
Arguments cp_channel_assembler {P}.

(** * Operations *)

Definition new {P : Type} (cfg : SoonRollupConfig) (prev : P) : ChannelProvider P :=
  mkChannelProvider cfg (Some prev) None None.

Definition set_bank {P : Type} (b : ChannelBank P) (self : ChannelProvider P) : ChannelProvider P :=
  mkChannelProvider (cp_cfg self) (cp_prev self) (Some b) (cp_channel_assembler self).
Definition set_assembler {P : Type} (a : ChannelAssembler P) (self : ChannelProvider P)
    : ChannelProvider P :=
  mkChannelProvider (cp_cfg self) (cp_prev self) (cp_channel_bank self) (Some a).

(** [self.prev.take()] moves the previous stage into a new bank. *)
Definition attempt_update {P : Type} : PipelineM (ChannelProvider P) unit := λ self,
  match cp_prev self with
  | Some prev =>
      (Ok tt, mkChannelProvider (cp_cfg self) None
                (Some (ChannelBank.new (cp_cfg self) prev)) (cp_channel_assembler self))
  | None => (Ok tt, self)
  end.

(** The dispatch shared by the three methods: the active stage runs its own. *)
Definition dispatch {P : Type} {A : Type} (on_assembler : PipelineM (ChannelAssembler P) A)
    (on_bank : PipelineM (ChannelBank P) A) : PipelineM (ChannelProvider P) A := λ self,
  match cp_channel_assembler self with
  | Some channel_assembler =>
      let '(r, a) := on_assembler channel_assembler in (r, set_assembler a self)
  | None =>
      match cp_channel_bank self with
      | Some channel_bank => let '(r, b) := on_bank channel_bank in (r, set_bank b self)
      | None => (Err (temp NotEnoughData), self)
      end
  end.

Section channel_provider.
Context {P : Type} `{!Stage P} `{!NextFrameProvider P}.
Implicit Types self : ChannelProvider P.

Definition advance_origin_ : PipelineM (ChannelProvider P) unit :=
  _ ← attempt_update; dispatch advance_origin advance_origin.
#[export] Instance channel_provider_advancer : OriginAdvancer (ChannelProvider P) := advance_origin_.

#[export] Instance channel_provider_origin : OriginProvider (ChannelProvider P) := λ self,
  match cp_channel_assembler self with
  | Some channel_assembler => origin channel_assembler
  | None =>
      match cp_channel_bank self with
      | Some channel_bank => origin channel_bank
      | None => prev ← cp_prev self; origin prev
      end
  end.

Definition signal_ (s : Signal) : PipelineM (ChannelProvider P) unit :=
  _ ← attempt_update; dispatch (signal s) (signal s).
#[export] Instance channel_provider_signal : SignalReceiver (ChannelProvider P) := signal_.

Definition next_data : PipelineM (ChannelProvider P) (option bytes) :=
  _ ← attempt_update; dispatch cr_next_data cr_next_data.
#[export] Instance channel_provider_reader : ChannelReaderProvider (ChannelProvider P) := next_data.

#[export] Instance channel_provider_stage : Stage (ChannelProvider P) := {}.

(** * Simulation by the bank *)

(** The provider holds the bank [b], or will create it at the next call. *)
Definition simulates (self : ChannelProvider P) (b : ChannelBank P) : Prop :=
  cp_channel_assembler self = None ∧
  match cp_prev self with
  | Some prev => cp_channel_bank self = None ∧ b = ChannelBank.new (cp_cfg self) prev
  | None => cp_channel_bank self = Some b
  end.

Lemma attempt_update_simulates self b :
  simulates self b →
  ∃ self', attempt_update self = (Ok tt, self') ∧ cp_prev self' = None ∧
    cp_channel_assembler self' = None ∧ cp_channel_bank self' = Some b.
Proof.
  intros [Ha Hb]. unfold attempt_update. destruct (cp_prev self) as [p|] eqn:Hp.
  - destruct Hb as [_ ->]. by eexists.
  - by exists self.
Qed.

Lemma simulates_dispatch {A} on_assembler (on_bank : PipelineM (ChannelBank P) A) self b :
  simulates self b →
  ∃ self', (_ ← attempt_update; dispatch on_assembler on_bank) self = ((on_bank b).1, self')
           ∧ simulates self' (on_bank b).2.
Proof.
  intros Hs. destruct (attempt_update_simulates self b Hs) as (s1 & Hu & Hp & Ha & Hb).
  rewrite bind_run, Hu. unfold dispatch. rewrite Ha, Hb.
  destruct (on_bank b) as [r b']. eexists. split; [done|]. unfold simulates. cbn.
  by rewrite Hp, Ha.
Qed.

Lemma simulates_origin self b : simulates self b → origin self = origin b.
Proof.
  intros [Ha Hb]. unfold origin, stage_origin, channel_provider_stage, channel_provider_origin.
  rewrite Ha. destruct (cp_prev self) as [p|] eqn:Hp.
  - destruct Hb as [-> ->]. done.
  - by rewrite Hb.
Qed.
End channel_provider.

(** * The calls a driver makes *)

Inductive call := CallNextData | CallAdvance | CallSignal (s : Signal).

Inductive reply :=
| ReplyData (r : outcome PipelineErrorKind (option bytes)) (o : option BlockInfo)
| ReplyUnit (r : outcome PipelineErrorKind unit) (o : option BlockInfo).

(** One call on a stage, with the origin it reports afterwards. *)
Definition serve {S : Type} `{!Stage S} `{!ChannelReaderProvider S} (c : call) (self : S)
    : reply * S :=
  match c with
  | CallNextData => let '(r, s) := cr_next_data self in (ReplyData r (origin s), s)
  | CallAdvance => let '(r, s) := advance_origin self in (ReplyUnit r (origin s), s)
  | CallSignal sg => let '(r, s) := signal sg self in (ReplyUnit r (origin s), s)
  end.

Fixpoint serve_all {S : Type} `{!Stage S} `{!ChannelReaderProvider S} (cs : list call) (self : S)
    : list reply :=
  match cs with
  | [] => []
  | c :: cs => let '(r, s) := serve c self in r :: serve_all cs s
  end.

Section simulation.
Context {P : Type} `{!Stage P} `{!NextFrameProvider P}.

Lemma serve_simulates c (self : ChannelProvider P) b :
  simulates self b →
  (serve c self).1 = (serve c b).1 ∧ simulates (serve c self).2 (serve c b).2.
Proof.
  intros Hs.
  assert (∀ A (on_a : PipelineM (ChannelAssembler P) A) on_b (mk : _ → _ → reply),
    (let '(r, s) := (_ ← attempt_update; dispatch on_a on_b) self in (mk r (origin s), s)).1
      = (let '(r, s) := on_b b in (mk r (origin s), s)).1 ∧
    simulates (let '(r, s) := (_ ← attempt_update; dispatch on_a on_b) self in (mk r (origin s), s)).2
      (let '(r, s) := on_b b in (mk r (origin s), s)).2) as Hgen.
  { intros A on_a on_b mk. destruct (simulates_dispatch on_a on_b self b Hs) as (s' & -> & Hs').
    destruct (on_b b) as [r b']. cbn in *. by rewrite (simulates_origin s' b'). }
  destruct c as [| |s]; unfold serve; apply Hgen.
Qed.

(** The mux is the bank: under any sequence of calls (data, origin advance, signals),
    a channel provider answers exactly as the channel bank over the same previous
    stage does, origins included; the assembler is never used. *)
Theorem provider_is_bank (cfg : SoonRollupConfig) (prev : P) (cs : list call) :
  serve_all cs (new cfg prev) = serve_all cs (ChannelBank.new cfg prev).
Proof.
  assert (simulates (new cfg prev) (ChannelBank.new cfg prev)) as Hs by done.
  revert Hs. generalize (new cfg prev), (ChannelBank.new cfg prev).
  induction cs as [|c cs IH]; intros self b Hs; [done|]. cbn [serve_all].
  destruct (serve_simulates c self b Hs) as [Hr Hs'].
  destruct (serve c self) as [r s], (serve c b) as [r' b']. cbn in Hr, Hs'. by rewrite Hr, (IH s b').
Qed.
End simulation.

(** * The interface, implemented *)

Section laws.
Context {P : Type} `{!Stage P} `{!StageLaws P} `{!NextFrameProvider P} `{!NextFrameLaws P}.

Definition channel_provider_inv (self : ChannelProvider P) : Prop :=
  ∃ b : ChannelBank P, simulates self b ∧ st_inv b.

Lemma dispatch_safe {A} o (Q : A → Prop) on_assembler (on_bank : PipelineM (ChannelBank P) A) :
  safe (λ b, st_inv b ∧ (∀ o', o = Some o' → origin b = o')) (st_err (P:=ChannelBank P)) Q on_bank →
  safe (λ self, channel_provider_inv self ∧ (∀ o', o = Some o' → origin self = o'))
    (st_err (P:=ChannelBank P)) Q (_ ← attempt_update; dispatch on_assembler on_bank).
Proof.
  intros Hb self [(b & Hs & Hi) Ho].
  destruct (simulates_dispatch on_assembler on_bank self b Hs) as (s' & -> & Hs').
  rewrite (simulates_origin self b Hs) in Ho. specialize (Hb b (conj Hi Ho)).
  destruct (on_bank b) as [[a|e|] b']; cbn in Hs' |- *; [| |done]; destruct Hb as (H1 & H2 & H3);
    (split; [done|]; split; [by exists b'|]); intros o' Ho'; rewrite (simulates_origin s' b' Hs'); auto.
Qed.

Lemma safe_no_origin {S A} (I : S → Prop) `{!OriginProvider S} F (Q : A → Prop)
    (m : PipelineM S A) :
  safe I F Q m ↔ safe (λ s, I s ∧ ∀ o', None = Some o' → origin s = o') F Q m.
Proof.
  split; intros Hm s; [intros [Hs _]; specialize (Hm s Hs)|intros Hs; specialize (Hm s)].
  - destruct (m s) as [[a|e|] s']; naive_solver.
  - assert (I s ∧ ∀ o', None = Some o' → origin s = o') as Hs' by done. specialize (Hm Hs'). destruct (m s) as [[a|e|] s']; naive_solver.
Qed.

#[export] Program Instance channel_provider_laws : StageLaws (ChannelProvider P) :=
  {| st_inv := channel_provider_inv; st_err := st_err (P:=ChannelBank P) |}.
Next Obligation.
  intros self (b & Hs & Hb). pose proof (st_origin b Hb) as Ho.
  by rewrite <- (simulates_origin self b Hs) in Ho.
Qed.
Next Obligation.
  refine (proj2 (safe_no_origin _ _ _ _) (dispatch_safe None _ _ _ (proj1 (safe_no_origin _ _ _ _) _))).
  apply (st_advance (P:=ChannelBank P)).
Qed.
Next Obligation.
  intros sg Hsg.
  refine (proj2 (safe_no_origin _ _ _ _) (dispatch_safe None _ _ _ (proj1 (safe_no_origin _ _ _ _) _))).
  by apply (st_signal (P:=ChannelBank P)).
Qed.

#[export] Instance channel_provider_reader_laws : ChannelReaderLaws (ChannelProvider P).
Proof.
  intros o self [Hi Ho].
  assert (safe (λ self, channel_provider_inv self ∧ (∀ o', Some o = Some o' → origin self = o'))
    (st_err (P:=ChannelBank P)) (λ _, True) (next_data (P:=P))) as H.
  - apply dispatch_safe. intros b [Hb Hbo]. specialize (Hbo o eq_refl).
    pose proof (cr_next_data_safe (P:=ChannelBank P) o b (conj Hb Hbo)) as Hc.
    destruct (cr_next_data b) as [[d|e|] b']; naive_solver.
  - assert (channel_provider_inv self ∧ ∀ o', Some o = Some o' → origin self = o') as Hs by naive_solver.
    specialize (H self Hs).
    unfold cr_next_data, channel_provider_reader.
    destruct (next_data self) as [[d|e|] s]; naive_solver.
Qed.
End laws.
