(* ===== verification/SingleBatch.v ===== *)
(** Single batches and their validity check
    (src/crates/derive/src/batch/single_batch.rs, validity.rs).

    [check_batch] follows the source's sequence of early returns; [acceptable] is the
    declarative rule it implements.  The RLP coding of the record is derived by
    alloy_rlp and is a parameter of the files that need it. *)
From S2P Require Import Prelude Blocks.
#[local] Open Scope Z_scope.

Inductive BatchValidity := Drop | Accept | Undecided | Future | Past.

#[global] Instance batch_validity_eq_dec : EqDecision BatchValidity.
Proof. solve_decision. Defined.

Definition is_drop (self : BatchValidity) : bool := bool_decide (self = Drop).
Definition is_outdated (self : BatchValidity) : bool := bool_decide (self = Past).
Definition is_future (self : BatchValidity) : bool := bool_decide (self = Future).

Record SingleBatch := mkSingleBatch {
  sb_parent_hash : B256;
  sb_epoch_num : Z;
  sb_epoch_hash : B256;
  sb_timestamp : Z;
  sb_transactions : list bytes;
}.

#[global] Instance single_batch_eq_dec : EqDecision SingleBatch.
Proof. solve_decision. Defined.

(** * Operations *)

Definition has_invalid_transactions (self : SingleBatch) : bool :=
  existsb (λ tx, match tx with [] => true | b :: _ => bool_decide (b2z b = 0x7E) end)
          (sb_transactions self).

Definition epoch (self : SingleBatch) : BlockNumHash :=
  mkBlockNumHash (sb_epoch_num self) (sb_epoch_hash self).

(** The loop over the transactions. *)
Definition has_empty_transaction (self : SingleBatch) : bool :=
  existsb (λ tx, bool_decide (tx = [])) (sb_transactions self).

(** [check_batch] from the epoch hash check on, for the chosen [batch_origin]. *)
Definition check_with_origin (self : SingleBatch) (cfg : SoonRollupConfig)
    (l1_blocks : list BlockInfo) (l2_safe_head : L2BlockInfo) (epoch batch_origin : BlockInfo)
    : BatchValidity :=
  if bool_decide (sb_epoch_hash self ≠ bi_hash batch_origin)
     && bool_decide (bi_number (l2_block_info l2_safe_head) ≠ 0)
  then Drop
  else
    match u64_checked_add (bi_timestamp batch_origin) (cfg_max_sequencer_drift cfg) with
    | None => Drop
    | Some max =>
        let no_txs := bool_decide (sb_transactions self = []) in
        let exceeded := bool_decide (sb_timestamp self > max) in
        let continue := if has_empty_transaction self then Drop else Accept in
        if exceeded && negb no_txs then Drop
        else if exceeded && no_txs then
          if decide (bi_number epoch = bi_number batch_origin) then
            match l1_blocks with
            | _ :: next_origin :: _ =>
                if decide (sb_timestamp self >= bi_timestamp next_origin) then Drop else continue
            | _ => Undecided
            end
          else continue
        else continue
    end.

Definition check_batch (self : SingleBatch) (cfg : SoonRollupConfig) (l1_blocks : list BlockInfo)
    (l2_safe_head : L2BlockInfo) (inclusion_block : BlockInfo) : BatchValidity :=
  match l1_blocks with
  | [] => Undecided
  | epoch :: _ =>
      if decide (sb_timestamp self < bi_timestamp (l2_block_info l2_safe_head)) then Past
      else if decide (sb_parent_hash self ≠ bi_hash (l2_block_info l2_safe_head)) then Past
      else if decide (u64_add (sb_epoch_num self) (cfg_seq_window_size cfg)
                      < bi_number inclusion_block) then Drop
      else if decide (sb_epoch_num self < bi_number epoch) then Drop
      else if decide (sb_epoch_num self = bi_number epoch) then
        check_with_origin self cfg l1_blocks l2_safe_head epoch epoch
      else if decide (sb_epoch_num self = u64_add (bi_number epoch) 1) then
        match l1_blocks with
        | _ :: next :: _ => check_with_origin self cfg l1_blocks l2_safe_head epoch next
        | _ => Undecided
        end
      else Drop
  end.

(** * The rule *)

(** The L1 origin a batch names: the current epoch or the one after it. *)
Definition names_origin (b : SingleBatch) (l1_blocks : list BlockInfo) (o : BlockInfo) : Prop :=
  ∃ e, l1_blocks !! 0%nat = Some e ∧
  ((sb_epoch_num b = bi_number e ∧ o = e) ∨
   (sb_epoch_num b = bi_number e + 1 ∧ l1_blocks !! 1%nat = Some o)).

(** The sequencer drift rule: past the drift only an empty batch is allowed, and only
    when it adopts a new origin or the next origin was still in its future. *)
Definition drift_ok (b : SingleBatch) (cfg : SoonRollupConfig) (l1_blocks : list BlockInfo)
    (o : BlockInfo) : Prop :=
  bi_timestamp o + cfg_max_sequencer_drift cfg < 2 ^ 64 ∧
  (sb_timestamp b <= bi_timestamp o + cfg_max_sequencer_drift cfg ∨
   (sb_transactions b = [] ∧
    ((∃ e, l1_blocks !! 0%nat = Some e ∧ bi_number e ≠ bi_number o) ∨
     (∃ n, l1_blocks !! 1%nat = Some n ∧ sb_timestamp b < bi_timestamp n)))).

Record acceptable (b : SingleBatch) (cfg : SoonRollupConfig) (l1_blocks : list BlockInfo)
    (head : L2BlockInfo) (inclusion : BlockInfo) : Prop := {
  acc_timestamp : bi_timestamp (l2_block_info head) <= sb_timestamp b;
  acc_parent : sb_parent_hash b = bi_hash (l2_block_info head);
  acc_window : bi_number inclusion <= sb_epoch_num b + cfg_seq_window_size cfg;
  acc_origin : ∃ o, names_origin b l1_blocks o
    ∧ (bi_number (l2_block_info head) = 0 ∨ sb_epoch_hash b = bi_hash o)
    ∧ drift_ok b cfg l1_blocks o;
  acc_transactions : Forall (λ tx, tx ≠ []) (sb_transactions b);
}.

Lemma has_empty_transaction_false b :
  has_empty_transaction b = false ↔ Forall (λ tx, tx ≠ []) (sb_transactions b).
Proof.
  unfold has_empty_transaction. induction (sb_transactions b) as [|tx txs IH]; cbn; [by split|].
  rewrite orb_false_iff, Forall_cons, IH, bool_decide_eq_false. done.
Qed.

(** The drift part of [check_with_origin], for the limit [max]. *)
Lemma drift_accept (b : SingleBatch) e l1 o max (continue : BatchValidity) :
  let no_txs := bool_decide (sb_transactions b = []) in
  let exceeded := bool_decide (sb_timestamp b > max) in
  (if exceeded && negb no_txs then Drop
   else if exceeded && no_txs then
     if decide (bi_number e = bi_number o) then
       match e :: l1 with
       | _ :: next :: _ => if decide (sb_timestamp b >= bi_timestamp next) then Drop else continue
       | _ => Undecided
       end
     else continue
   else continue) = Accept ↔
  continue = Accept ∧
  (sb_timestamp b <= max ∨
   (sb_transactions b = [] ∧
    (bi_number e ≠ bi_number o ∨ (∃ n, l1 !! 0%nat = Some n ∧ sb_timestamp b < bi_timestamp n)))).
Proof.
  cbv zeta. destruct (bool_decide_reflect (sb_timestamp b > max)) as [Hx|Hx]; cbn [andb].
  2:{ split; [|by intros [? _]]. intros ->. split; [done|left; lia]. }
  destruct (bool_decide_reflect (sb_transactions b = [])) as [Ht|Ht]; cbn [negb].
  2:{ split; [done|]. intros [_ [?|[? _]]]; [lia|done]. }
  destruct (decide (bi_number e = bi_number o)) as [He|He].
  2:{ split; [intros ->; auto|by intros [? _]]. }
  destruct l1 as [|n l1].
  { split; [done|]. intros [_ [?|(_ & [?|(n & ? & _)])]]; [lia|done|done]. }
  destruct (decide (sb_timestamp b >= bi_timestamp n)) as [Hn|Hn].
  - split; [done|]. intros [_ [?|(_ & [?|(n' & [= <-] & ?)])]]; [lia|done|lia].
  - split; [|by intros [? _]]. intros ->. split; [done|]. right. split; [done|]. right.
    exists n. split; [done|lia].
Qed.

Lemma check_with_origin_accept b cfg e l1 head o :
  check_with_origin b cfg (e :: l1) head e o = Accept ↔
  (bi_number (l2_block_info head) = 0 ∨ sb_epoch_hash b = bi_hash o)
  ∧ drift_ok b cfg (e :: l1) o ∧ Forall (λ tx, tx ≠ []) (sb_transactions b).
Proof.
  unfold check_with_origin, drift_ok, u64_checked_add. rewrite <- has_empty_transaction_false.
  destruct (_ && _) eqn:Hb.
  - apply andb_true_iff in Hb as [Hh Hn]. apply bool_decide_eq_true in Hh, Hn. naive_solver.
  - assert (bi_number (l2_block_info head) = 0 ∨ sb_epoch_hash b = bi_hash o) as Hhash.
    { apply andb_false_iff in Hb as [Hb|Hb]; apply bool_decide_eq_false, dec_stable in Hb; auto. }
    destruct (decide (_ < 2 ^ 64)) as [Hm|Hm]; [|naive_solver].
    rewrite drift_accept. destruct (has_empty_transaction b); [naive_solver|].
    split; [|naive_solver]. intros [_ Hd]. split_and!; [done|done| |done].
    destruct Hd as [?|(? & [?|?])]; [by left|right; split; [done|left; by exists e]|by right; auto].
Qed.

(** * Theorems *)

(** [check_batch] accepts exactly the acceptable batches: built on the safe head and
    not before it, included within the sequence window, on the current or the next L1
    origin with a matching hash (not checked on top of the genesis block), within the
    sequencer drift, and without empty transactions. *)
Theorem check_batch_accept_iff (b : SingleBatch) (cfg : SoonRollupConfig) (l1_blocks : list BlockInfo)
    (head : L2BlockInfo) (inclusion : BlockInfo) :
  0 <= sb_epoch_num b → 0 <= cfg_seq_window_size cfg →
  sb_epoch_num b + cfg_seq_window_size cfg < 2 ^ 64 →
  Forall (λ o, 0 <= bi_number o < 2 ^ 64 - 1) l1_blocks →
  check_batch b cfg l1_blocks head inclusion = Accept ↔ acceptable b cfg l1_blocks head inclusion.
Proof.
  intros H0 H1 H2 Hl1. destruct l1_blocks as [|e l1].
  { split; [done|]. intros [_ _ _ (o & (e & He & _) & _) _]. done. }
  apply Forall_cons in Hl1 as [He _]. cbn [check_batch]. rewrite !u64_add_small by lia.
  destruct (decide (sb_timestamp b < _)) as [Ht|Ht].
  { split; [done|]. intros [? _ _ _ _]. lia. }
  destruct (decide (sb_parent_hash b ≠ _)) as [Hp|Hp].
  { split; [done|]. by intros [_ ? _ _ _]. }
  apply dec_stable in Hp. destruct (decide (_ < bi_number inclusion)) as [Hw|Hw].
  { split; [done|]. intros [_ _ ? _ _]. lia. }
  assert (∀ o, (∀ o', names_origin b (e :: l1) o' ↔ o' = o) →
    check_with_origin b cfg (e :: l1) head e o = Accept ↔ acceptable b cfg (e :: l1) head inclusion) as Hiff.
  { intros o Ho. rewrite check_with_origin_accept. split.
    - intros (Hh & Hd & Htx). split; [lia|done|lia| |done]. exists o. by rewrite Ho.
    - intros [_ _ _ (o' & ->%Ho & Hh & Hd) Htx]. done. }
  assert ((∀ o, ¬ names_origin b (e :: l1) o) → ¬ acceptable b cfg (e :: l1) head inclusion) as Hno.
  { intros Hn [_ _ _ (o & Ho & _) _]. by apply (Hn o). }
  destruct (decide (sb_epoch_num b < bi_number e)) as [Hlt|Hlt].
  { split; [done|]. intros []%Hno. intros o (e' & [= <-] & [[? _]|[? _]]); lia. }
  destruct (decide (sb_epoch_num b = bi_number e)) as [Heq|Heq].
  { apply Hiff. intros o. split; [intros (e' & [= <-] & [[_ ->]|[? _]]); [done|lia]|].
    intros ->. exists e. auto. }
  destruct (decide (sb_epoch_num b = bi_number e + 1)) as [Heq1|Heq1].
  2:{ split; [done|]. intros []%Hno. intros o (e' & [= <-] & [[? _]|[? _]]); done. }
  destruct l1 as [|n l1].
  { split; [done|]. intros []%Hno. by intros o (e' & [= <-] & [[? _]|[_ ?]]). }
  apply Hiff. intros o. split; [by intros (e' & [= <-] & [[? _]|[_ [= ->]]])|].
  intros ->. exists e. auto.
Qed.

(** Verdicts are final: once a batch is not [Undecided], knowing more L1 blocks does
    not change the verdict, so an eager reader of L1 agrees with one that waits. *)
Theorem check_batch_stable (b : SingleBatch) (cfg : SoonRollupConfig) (l1_blocks more : list BlockInfo)
    (head : L2BlockInfo) (inclusion : BlockInfo) :
  check_batch b cfg l1_blocks head inclusion ≠ Undecided →
  check_batch b cfg (l1_blocks ++ more) head inclusion = check_batch b cfg l1_blocks head inclusion.
Proof.
  destruct l1_blocks as [|e [|n l1]]; [done| |done].
  assert (∀ o, check_with_origin b cfg [e] head e o ≠ Undecided →
    check_with_origin b cfg (e :: more) head e o = check_with_origin b cfg [e] head e o) as Ho.
  { intros o. unfold check_with_origin. destruct (_ && _); [done|].
    destruct (u64_checked_add _ _); [|done]. destruct (_ && _); [done|].
    destruct (_ && _); [|done]. by destruct (decide _). }
  cbn [check_batch app]. destruct (decide _); [done|]. destruct (decide _); [done|].
  destruct (decide _); [done|]. destruct (decide _); [done|]. destruct (decide _); [apply Ho|].
  by destruct (decide _).
Qed.

(** ** Witnesses *)

Definition example_l1 (n : Z) : BlockInfo := mkBlockInfo (be_bytes 32 n) n B256_ZERO (1000 + 12 * n).
Definition example_head : L2BlockInfo :=
  mkL2BlockInfo (mkBlockInfo (be_bytes 32 77) 5 B256_ZERO 1100) (bi_id (example_l1 3)) 0.
Definition example_batch : SingleBatch :=
  mkSingleBatch (be_bytes 32 77) 4 (be_bytes 32 4) 1101 [[byte1]].

Lemma check_batch_accept_iff_witness :
  acceptable example_batch mock_roll_up_config [example_l1 3; example_l1 4] example_head (example_l1 10).
Proof.
  apply check_batch_accept_iff.
  - vm_compute. congruence.
  - vm_compute. congruence.
  - vm_compute. reflexivity.
  - repeat constructor; vm_compute; congruence.
  - vm_compute. reflexivity.
Defined.

Lemma check_batch_stable_witness :
  check_batch example_batch mock_roll_up_config ([example_l1 4] ++ [example_l1 5; example_l1 6])
    example_head (example_l1 10)
  = check_batch example_batch mock_roll_up_config [example_l1 4] example_head (example_l1 10).
Proof. apply check_batch_stable. vm_compute. discriminate. Defined.
