(* ===== verification/SpanBits.v ===== *)
(** Span batch bit lists (src/crates/derive/src/batch/span_batch/bits.rs).

    A bit list is a big-endian byte string; every operation is characterised by the
    integer [be_val] it denotes.  Lengths are below 2^60 in any execution, so [usize]
    arithmetic on them is exact. *)
From S2P Require Import Prelude Types.
#[local] Open Scope Z_scope.

Abbreviation SpanBatchBits := bytes (only parsing).

(** * Operations *)

(** [u8::leading_zeros] and a byte from its bits. *)
Definition leading_zeros (byte : byte) : Z :=
  if decide (b2z byte = 0) then 8 else 7 - Z.log2 (b2z byte).

(** [resize_from_right], for the bytes of a bit list. *)
Definition resize_from_right (vec : bytes) (new_size : Z) : bytes :=
  let current_size := len vec in
  match new_size ?= current_size with
  | Lt => drop (Z.to_nat (current_size - new_size)) vec
  | Gt => replicate (Z.to_nat (new_size - current_size)) byte0 ++ vec
  | Eq => vec
  end.

Fixpoint bit_len (self : SpanBatchBits) : Z :=
  match self with
  | [] => 0
  | byte :: rest =>
      if decide (b2z byte ≠ 0) then
        let msb_index := 7 - leading_zeros byte in
        msb_index + 1 + len rest * 8
      else bit_len rest
  end.

Definition get_bit (self : SpanBatchBits) (index : Z) : outcome SpanBatchError (option Z) :=
  let byte_index := index / 8 in
  let bit_index := index mod 8 in
  if decide (byte_index < len self) then
    byte ← Prelude.index self (len self - byte_index - 1);
    Ok (Some (if decide (Z.land (b2z byte) (Z.shiftl 1 bit_index) ≠ 0) then 1 else 0))
  else Ok None.

(** [vec[i] = byte], in range. *)
Definition store (self : bytes) (i : Z) (byte : byte) : bytes := <[Z.to_nat i := byte]> self.

Definition set_bit (self : SpanBatchBits) (index : Z) (value : bool)
    : outcome SpanBatchError SpanBatchBits :=
  let byte_index := index / 8 in
  let bit_index := index mod 8 in
  let vec := if decide (byte_index >= len self)
             then resize_from_right self (byte_index + 1) else self in
  byte ← Prelude.index vec (len vec - byte_index - 1);
  let byte' := if value
               then Z.lor (b2z byte) (wrap 8 (Z.shiftl 1 bit_index))
               else Z.land (b2z byte) (wrap 8 (Z.lnot (Z.shiftl 1 bit_index))) in
  Ok (store vec (len vec - byte_index - 1) (z2b byte')).

Definition buffer_len (bit_length : Z) : Z :=
  bit_length / 8 + (if decide (bit_length mod 8 ≠ 0) then 1 else 0).

(** [decode] returns the bits and advances the reader [b]. *)
Definition decode (bit_length : Z) : ST bytes SpanBatchError SpanBatchBits := λ b,
  let buffer_len := buffer_len bit_length in
  let '(bits, rest) :=
    if decide (len b < buffer_len)
    then (b ++ replicate (Z.to_nat (buffer_len - len b)) byte0, [])
    else (take (Z.to_nat buffer_len) b, drop (Z.to_nat buffer_len) b) in
  if decide (bit_len bits > bit_length) then (Err BitfieldTooLong, rest) else (Ok bits, rest).

(** [encode] appends to the writer; copying into [buf] panics when the bit list has
    more bytes than [buf]. *)
Definition encode (bit_length : Z) (bits : SpanBatchBits) : outcome SpanBatchError bytes :=
  if decide (bit_len bits > bit_length) then Err BitfieldTooLong
  else
    let buf_len := buffer_len bit_length in
    if decide (buf_len < len bits) then Panic
    else Ok (replicate (Z.to_nat (buf_len - len bits)) byte0 ++ bits).

(** * Big-endian values *)

Lemma be_val_app l k : be_val (l ++ k) = be_val l * 256 ^ len k + be_val k.
Proof.
  induction l as [|b l IH]; [done|]. cbn [app].
  rewrite !be_val_cons, IH, len_app, Z.pow_add_r by apply len_nonneg. lia.
Qed.
Lemma be_val_zeros n : be_val (replicate n byte0) = 0.
Proof. induction n as [|n IH]; [done|]. cbn [replicate]. by rewrite be_val_cons, IH. Qed.
Lemma len_replicate {A} n (x : A) : len (replicate n x) = Z.of_nat n.
Proof. unfold len. by rewrite length_replicate. Qed.
Lemma pow256 n : 0 <= n → 256 ^ n = 2 ^ (8 * n).
Proof. intros. rewrite Z.pow_mul_r by lia. done. Qed.

Lemma log2_shift h r n :
  0 < h → 0 <= n → 0 <= r < 2 ^ n → Z.log2 (h * 2 ^ n + r) = Z.log2 h + n.
Proof.
  intros Hh Hn Hr. pose proof (Z.log2_nonneg h). destruct (Z.log2_spec h Hh) as [Hlo Hhi].
  apply Z.log2_unique; [lia|]. rewrite <- Z.add_succ_l, !Z.pow_add_r by lia. nia.
Qed.

(** [bit_len] is the number of significant bits of the value. *)
Lemma bit_len_val bits :
  bit_len bits = if decide (be_val bits = 0) then 0 else Z.log2 (be_val bits) + 1.
Proof.
  induction bits as [|b bits IH]; [done|]. cbn [bit_len]. rewrite be_val_cons.
  pose proof (be_val_range bits) as Hr. pose proof (b2z_range b) as Hb.
  pose proof (len_nonneg bits). destruct (decide (b2z b ≠ 0)) as [Hn|Hn].
  - rewrite decide_False by nia. unfold leading_zeros. rewrite decide_False by done.
    rewrite pow256 in * by done. rewrite log2_shift by lia. lia.
  - apply dec_stable in Hn. rewrite Hn, IH. by rewrite Z.mul_0_l, Z.add_0_l.
Qed.

Lemma bit_len_le bits n : 0 <= n → bit_len bits <= n ↔ be_val bits < 2 ^ n.
Proof.
  intros Hn. rewrite bit_len_val. pose proof (be_val_range bits) as Hr.
  destruct (decide (be_val bits = 0)) as [->|Hz].
  - pose proof (Z.pow_pos_nonneg 2 n). lia.
  - split; intros.
    + apply Z.log2_lt_pow2; lia.
    + assert (Z.log2 (be_val bits) < n) by (apply Z.log2_lt_pow2; lia). lia.
Qed.

(** ** Single bits *)

(** The byte that holds bit [i], counted from the right. *)
Lemma byte_of_bit bits i :
  0 <= i → i / 8 < len bits →
  ∃ (pre : bytes) b (post : bytes), bits = pre ++ b :: post ∧ len post = i / 8 ∧
    index (E:=SpanBatchError) bits (len bits - i / 8 - 1) = Ok b.
Proof.
  intros Hi Hlt. pose proof (Z.div_pos i 8 Hi ltac:(lia)).
  destruct (index_total (E:=SpanBatchError) bits (len bits - i / 8 - 1)) as [b Hb]; [lia|].
  pose proof Hb as [_ Hl]%index_Ok. apply list_elem_of_split_length in Hl as (pre & post & -> & Hpre).
  exists pre, b, post. split_and!; [done| |done]. rewrite len_app, len_cons in *.
  unfold len in *. lia.
Qed.

Lemma testbit_byte (pre : bytes) b (post : bytes) i :
  0 <= i → len post = i / 8 →
  Z.testbit (be_val (pre ++ b :: post)) i = Z.testbit (b2z b) (i mod 8).
Proof.
  intros Hi Hp. rewrite be_val_app, be_val_cons, len_cons.
  pose proof (be_val_range post) as Hr. pose proof (len_nonneg post).
  rewrite (Z.add_comm 1), Z.pow_add_r, Z.pow_1_r, pow256 in * by lia.
  replace (be_val pre * (2 ^ (8 * len post) * 256) + (b2z b * 2 ^ (8 * len post) + be_val post))
    with ((be_val pre * 256 + b2z b) * 2 ^ (8 * len post) + be_val post) by lia.
  assert (i = i mod 8 + 8 * len post) as Hdiv by (pose proof (Z.div_mod i 8); lia).
  pose proof (Z.mod_pos_bound i 8 ltac:(lia)). rewrite Hdiv at 1.
  rewrite <- Z.div_pow2_bits, Z.div_add_l, Z.div_small, Z.add_0_r by lia.
  rewrite <- (Z.mod_pow2_bits_low _ 8) by lia.
  rewrite Z.add_comm, Z.mod_add by lia. rewrite Z.mod_small by apply b2z_range. done.
Qed.

Lemma land_bit z k : 0 <= k → (Z.land z (Z.shiftl 1 k) ≠ 0) ↔ Z.testbit z k = true.
Proof.
  intros Hk. rewrite Z.shiftl_1_l. split.
  - intros Hn. apply not_false_iff_true. intros Hf. apply Hn, Z.bits_inj'. intros n Hn0.
    rewrite Z.land_spec, Z.bits_0, Z.pow2_bits_eqb by done.
    destruct (Z.eqb_spec k n) as [->|]; [by rewrite Hf|apply andb_false_r].
  - intros Ht Hz. assert (Z.testbit (Z.land z (2 ^ k)) k = true) as Hb.
    { by rewrite Z.land_spec, Ht, Z.pow2_bits_true. }
    by rewrite Hz, Z.bits_0 in Hb.
Qed.

Lemma get_bit_testbit bits i :
  0 <= i →
  get_bit bits i =
    Ok (if decide (i < 8 * len bits) then Some (Z.b2z (Z.testbit (be_val bits) i)) else None).
Proof.
  intros Hi. unfold get_bit. pose proof (Z.div_mod i 8 ltac:(lia)).
  pose proof (Z.mod_pos_bound i 8 ltac:(lia)).
  destruct (decide (i / 8 < len bits)) as [Hlt|Hge]; [|by rewrite decide_False by lia].
  rewrite decide_True by lia. destruct (byte_of_bit bits i Hi Hlt) as (pre & b & post & -> & Hp & ->).
  cbn [mbind outcome_bind]. rewrite testbit_byte by done.
  pose proof (land_bit (b2z b) (i mod 8) ltac:(lia)) as Hl.
  destruct (decide _) as [Hd|Hd]; [by rewrite (proj1 Hl Hd)|].
  destruct (Z.testbit _ _); [naive_solver|done].
Qed.

Lemma testbit_concat h r n j :
  0 <= n → 0 <= r < 2 ^ n → 0 <= j →
  Z.testbit (h * 2 ^ n + r) j = if decide (j < n) then Z.testbit r j else Z.testbit h (j - n).
Proof.
  intros Hn Hr Hj. destruct (decide (j < n)) as [Hlt|Hge].
  - rewrite <- (Z.mod_pow2_bits_low _ n) by lia. rewrite Z.add_comm, Z.mod_add by lia.
    by rewrite Z.mod_small.
  - replace j with ((j - n) + n) at 1 by lia. rewrite <- Z.div_pow2_bits by lia.
    by rewrite Z.div_add_l, Z.div_small, Z.add_0_r by lia.
Qed.

Lemma testbit_bytes (pre : bytes) b (post : bytes) j :
  0 <= j →
  Z.testbit (be_val (pre ++ b :: post)) j =
    if decide (j < 8 * len post) then Z.testbit (be_val post) j
    else if decide (j - 8 * len post < 8) then Z.testbit (b2z b) (j - 8 * len post)
    else Z.testbit (be_val pre) (j - 8 * len post - 8).
Proof.
  intros Hj. rewrite be_val_app, be_val_cons, len_cons.
  pose proof (be_val_range post) as Hr. pose proof (len_nonneg post). pose proof (b2z_range b).
  rewrite (Z.add_comm 1), Z.pow_add_r, Z.pow_1_r, pow256 in * by lia.
  replace (be_val pre * (2 ^ (8 * len post) * 256) + (b2z b * 2 ^ (8 * len post) + be_val post))
    with ((be_val pre * 2 ^ 8 + b2z b) * 2 ^ (8 * len post) + be_val post) by lia.
  rewrite testbit_concat by lia. destruct (decide (j < _)); [done|].
  by rewrite testbit_concat by lia.
Qed.

Lemma pow2_testbit k n : 0 <= k → 0 <= n → Z.testbit (2 ^ k) n = bool_decide (k = n).
Proof. intros. rewrite Z.pow2_bits_eqb by done. destruct (Z.eqb_spec k n); [by rewrite bool_decide_eq_true_2|by rewrite bool_decide_eq_false_2]. Qed.

(** The new value of a byte one of whose bits is set or cleared. *)
Definition new_byte (b : Z) (k : Z) (value : bool) : Z :=
  if value then Z.lor b (wrap 8 (Z.shiftl 1 k)) else Z.land b (wrap 8 (Z.lnot (Z.shiftl 1 k))).

Lemma new_byte_testbit b k value n :
  0 <= b < 256 → 0 <= k < 8 → 0 <= n < 8 →
  Z.testbit (b2z (z2b (new_byte b k value))) n
  = if decide (n = k) then value else Z.testbit b n.
Proof.
  intros Hb Hk Hn. rewrite b2z_z2b. change 256 with (2 ^ 8). rewrite Z.mod_pow2_bits_low by lia.
  unfold new_byte, wrap. destruct value.
  - rewrite Z.lor_spec, Z.mod_pow2_bits_low, Z.shiftl_1_l, pow2_testbit by lia.
    destruct (decide (n = k)) as [->|].
    + by rewrite bool_decide_eq_true_2, orb_true_r.
    + by rewrite bool_decide_eq_false_2, orb_false_r by congruence.
  - rewrite Z.land_spec, Z.mod_pow2_bits_low, Z.lnot_spec, Z.shiftl_1_l, pow2_testbit by lia.
    destruct (decide (n = k)) as [->|].
    + by rewrite bool_decide_eq_true_2, andb_false_r.
    + by rewrite bool_decide_eq_false_2, andb_true_r by congruence.
Qed.

Lemma resize_from_right_grow bits n :
  len bits <= n → resize_from_right bits n = replicate (Z.to_nat (n - len bits)) byte0 ++ bits.
Proof.
  intros Hn. unfold resize_from_right. destruct (Z.compare_spec n (len bits)) as [->|?|?]; [|lia|done].
  by rewrite Z.sub_diag.
Qed.

Lemma set_bit_spec bits i value :
  0 <= i →
  ∃ bits', set_bit bits i value = Ok bits'
    ∧ len bits' = Z.max (len bits) (i / 8 + 1)
    ∧ ∀ j, 0 <= j →
        Z.testbit (be_val bits') j = if decide (j = i) then value else Z.testbit (be_val bits) j.
Proof.
  intros Hi. unfold set_bit. pose proof (Z.div_pos i 8 Hi ltac:(lia)).
  set (vec := if decide (i / 8 >= len bits) then _ else bits).
  assert (len vec = Z.max (len bits) (i / 8 + 1) ∧ be_val vec = be_val bits) as [Hlen Hval].
  { unfold vec. destruct (decide _); [|split; [lia|done]].
    rewrite resize_from_right_grow, len_app, len_replicate, be_val_app, be_val_zeros by lia. lia. }
  destruct (byte_of_bit vec i Hi ltac:(lia)) as (pre & b & post & Hvec & Hp & ->).
  cbn [mbind outcome_bind].
  set (b' := z2b (if value then _ else _)). assert (b' = z2b (new_byte (b2z b) (i mod 8) value)) as Hb'.
  { unfold b', new_byte. by destruct value. }
  assert (store vec (len vec - i / 8 - 1) b' = pre ++ b' :: post) as ->.
  { unfold store. rewrite Hvec at 2. assert (Z.to_nat (len vec - i / 8 - 1) = (length pre + 0)%nat) as ->.
    { rewrite Hvec, len_app, len_cons. unfold len in *. lia. }
    by rewrite insert_app_r. }
  exists (pre ++ b' :: post). split; [done|]. split.
  { rewrite <- Hlen, Hvec, !len_app, !len_cons. done. }
  intros j Hj. rewrite <- Hval, Hvec, !testbit_bytes by done. rewrite Hp.
  pose proof (Z.div_mod i 8 ltac:(lia)). pose proof (Z.mod_pos_bound i 8 ltac:(lia)).
  destruct (decide (j < 8 * (i / 8))); [by rewrite decide_False by lia|].
  destruct (decide (j - 8 * (i / 8) < 8)) as [Hin|Hin]; [|by rewrite decide_False by lia].
  rewrite Hb', new_byte_testbit by (try apply b2z_range; lia).
  by destruct (decide (j = i)), (decide (j - 8 * (i / 8) = i mod 8)); try lia.
Qed.

(** * Theorems *)

(** Bits are independent: for every list, every index and every value, [set_bit]
    never panics, grows the list to the byte that holds the bit and no further, and
    afterwards [get_bit] reads the new value there and the old bits elsewhere (zero
    where the list was extended). *)
Theorem get_set_bit (bits : SpanBatchBits) (i : Z) (value : bool) :
  0 <= i →
  ∃ bits', set_bit bits i value = Ok bits'
    ∧ len bits' = Z.max (len bits) (i / 8 + 1)
    ∧ get_bit bits' i = Ok (Some (Z.b2z value))
    ∧ ∀ j, 0 <= j < 8 * len bits' → j ≠ i →
        get_bit bits' j = Ok (Some (Z.b2z (Z.testbit (be_val bits) j))).
Proof.
  intros Hi. destruct (set_bit_spec bits i value Hi) as (bits' & Hs & Hl & Hb).
  pose proof (Z.div_mod i 8 ltac:(lia)). pose proof (Z.mod_pos_bound i 8 ltac:(lia)).
  exists bits'. split_and!; [done|done| |].
  - rewrite get_bit_testbit, decide_True by lia. by rewrite Hb, decide_True.
  - intros j Hj Hne. rewrite get_bit_testbit, decide_True by lia. by rewrite Hb, decide_False by lia.
Qed.

Lemma buffer_len_bound n : 0 <= n → n <= 8 * buffer_len n < n + 8.
Proof.
  intros Hn. unfold buffer_len. pose proof (Z.div_mod n 8 ltac:(lia)).
  pose proof (Z.mod_pos_bound n 8 ltac:(lia)). destruct (decide _); lia.
Qed.

(** Coding a bit list to [n] bits: a list of at most [buffer_len n] bytes is rejected
    when it has more than [n] significant bits, and otherwise encoded into exactly
    [buffer_len n] bytes of the same value, which [decode] reads back from any longer
    input, leaving the rest.  A longer list of at most [n] significant bits panics. *)
Theorem span_bits_codec (n : Z) (bits rest : bytes) :
  0 <= n →
  if decide (be_val bits >= 2 ^ n) then encode n bits = Err BitfieldTooLong
  else if decide (len bits > buffer_len n) then encode n bits = Panic
  else ∃ out, encode n bits = Ok out ∧ len out = buffer_len n ∧ be_val out = be_val bits
         ∧ decode n (out ++ rest) = (Ok out, rest).
Proof.
  intros Hn. unfold encode. pose proof (bit_len_le bits n Hn) as Hbl.
  destruct (decide (be_val bits >= 2 ^ n)); [by rewrite decide_True by lia|].
  destruct (decide (bit_len bits > n)); [lia|].
  destruct (decide (len bits > buffer_len n)); [by rewrite decide_True by lia|].
  destruct (decide (buffer_len n < len bits)); [lia|]. eexists. split; [done|].
  set (out := replicate _ byte0 ++ bits).
  assert (len out = buffer_len n) as Hlen by (unfold out; rewrite len_app, len_replicate; lia).
  assert (be_val out = be_val bits) as Hval by (unfold out; rewrite be_val_app, be_val_zeros; lia).
  split_and!; [done|done|]. unfold decode. pose proof (len_nonneg rest).
  rewrite decide_False by (rewrite len_app; lia).
  assert (Z.to_nat (buffer_len n) = length out) as -> by (unfold len in Hlen; lia).
  rewrite take_app_length, drop_app_length, decide_False; [done|].
  pose proof (bit_len_le out n Hn). lia.
Qed.

(** A truncated bit list is padded on the right: decoding [n] bits from an input of
    fewer than [buffer_len n] bytes takes the input as the most significant bytes, so
    its value is scaled by 256 for every missing byte. *)
Theorem span_bits_decode_short (n : Z) (b : bytes) :
  0 <= n → len b < buffer_len n →
  let v := be_val b * 256 ^ (buffer_len n - len b) in
  decode n b =
    (if decide (v < 2 ^ n)
     then Ok (b ++ replicate (Z.to_nat (buffer_len n - len b)) byte0) else Err BitfieldTooLong, []).
Proof.
  intros Hn Hb v. unfold decode. rewrite decide_True by done.
  set (out := b ++ replicate _ byte0).
  assert (be_val out = v) as Hv.
  { unfold out, v. rewrite be_val_app, be_val_zeros, len_replicate. rewrite Z2Nat.id by lia. lia. }
  pose proof (bit_len_le out n Hn) as Hl. rewrite Hv in Hl.
  destruct (decide (v < 2 ^ n)); [by rewrite decide_False by lia|by rewrite decide_True by lia].
Qed.

(** ** Witnesses *)

Lemma get_set_bit_witness :
  ∃ bits', set_bit [byte1] 11 true = Ok bits' ∧ get_bit bits' 11 = Ok (Some 1).
Proof.
  destruct (get_set_bit [byte1] 11 true) as (bits' & Hs & _ & Hg & _); [vm_compute; congruence|].
  exists bits'. split; [exact Hs|exact Hg].
Defined.

Lemma span_bits_codec_witness :
  ∃ out, encode 12 [z2b 3; z2b 5] = Ok out ∧ decode 12 (out ++ [byte1]) = (Ok out, [byte1]).
Proof.
  pose proof (span_bits_codec 12 [z2b 3; z2b 5] [byte1] ltac:(vm_compute; congruence)) as H.
  rewrite decide_False in H by (vm_compute; congruence).
  rewrite decide_False in H by (vm_compute; congruence).
  destruct H as (out & He & _ & _ & Hd). exists out. split; [exact He|exact Hd].
Defined.

Lemma span_bits_decode_short_witness :
  decode 16 [byte1] = (Ok [byte1; byte0], []).
Proof.
  rewrite span_bits_decode_short.
  - reflexivity.
  - vm_compute. congruence.
  - vm_compute. reflexivity.
Defined.
