(* ===== verification/Reader.v ===== *)
(** Reading from a byte slice, as the [&mut &[u8]] decoders do.

    A decoder advances the slice it is given; one that also fills a structure threads both
    ([Reading]).  Variable-length integers are the crate unsigned_varint's: the class
    [Varint] stands for it, with the LEB128 code as the concrete instance. *)
From S2P Require Import Prelude.
#[local] Open Scope Z_scope.

(** [Buf::advance] panics past the end. *)
Definition advance {E} (n : Z) : ST bytes E unit := λ r,
  if decide (0 <= n <= len r) then (Ok tt, drop (Z.to_nat n) r) else (Panic, r).

(** A structure filled from a reader. *)
Definition Reading (T : Type) : Type := T * bytes.
Definition reading {T E A} (m : ST bytes E A) : ST (Reading T) E A :=
  zoom snd (λ r s, (s.1, r)) m.
Definition writing {T E} (f : T → T) : ST (Reading T) E unit :=
  modify (λ s, (f s.1, s.2)).

(** [for x in l { acc.push(f(x)?) }]. *)
Fixpoint collect {S E A B} (f : B → ST S E A) (l : list B) : ST S E (list A) :=
  match l with
  | [] => mret []
  | x :: l => a ← f x; rest ← collect f l; mret (a :: rest)
  end.

Lemma advance_app {E} (k rest : bytes) n : n = len k → advance (E:=E) n (k ++ rest) = (Ok tt, rest).
Proof.
  intros ->. unfold advance. pose proof (len_nonneg k). pose proof (len_nonneg rest).
  rewrite decide_True by (rewrite len_app; lia). unfold len. by rewrite Nat2Z.id, drop_app_length.
Qed.

Lemma advance_cons {E} (b : byte) (r : bytes) : advance (E:=E) 1 (b :: r) = (Ok tt, r).
Proof. by apply (advance_app [b]). Qed.

Lemma reading_run {T E A} (m : ST bytes E A) (t : T) r :
  reading m (t, r) = ((m r).1, (t, (m r).2)).
Proof. unfold reading, zoom. cbn. by destruct (m r). Qed.
Lemma reading_Ok {T E A} (m : ST bytes E A) (t : T) r a r' :
  m r = (Ok a, r') → reading m (t, r) = (Ok a, (t, r')).
Proof. intros Hm. by rewrite reading_run, Hm. Qed.

(** A loop that reads back what a loop over [xs] wrote. *)
Lemma collect_items {E A B} (f : B → ST bytes E A) (write : A → bytes) (l : list B) (xs : list A) rest :
  length l = length xs →
  (∀ i b a r, l !! i = Some b → xs !! i = Some a → f b (write a ++ r) = (Ok a, r)) →
  collect f l (mjoin (write <$> xs) ++ rest) = (Ok xs, rest).
Proof.
  revert xs. induction l as [|b l IH]; intros [|a xs] Hlen Hf; [done..|]. cbn.
  rewrite <- app_assoc, bind_run, (Hf 0%nat b a) by done. rewrite bind_run, IH; [done| |].
  - by injection Hlen.
  - intros i b' a' r Hb Ha. by apply (Hf (S i)).
Qed.

(** * Variable-length integers *)

(** [unsigned_varint::encode::u64] and [unsigned_varint::decode::u64]. *)
Class Varint := {
  varint_encode : Z → bytes;
  varint_decode : bytes → option (Z * bytes);
}.
Class VarintLaws `{!Varint} := {
  varint_roundtrip n rest : is_u64 n → varint_decode (varint_encode n ++ rest) = Some (n, rest);
  varint_range r n rest : varint_decode r = Some (n, rest) → is_u64 n;
}.

Section varint.
Context `{!Varint}.

Definition read_varint {E} (e : E) : ST bytes E Z := λ r,
  match varint_decode r with
  | Some (n, remaining) => (Ok n, remaining)
  | None => (Err e, r)
  end.

Lemma read_varint_encode `{!VarintLaws} {E} (e : E) n rest :
  is_u64 n → read_varint e (varint_encode n ++ rest) = (Ok n, rest).
Proof. intros Hn. unfold read_varint. by rewrite varint_roundtrip. Qed.
End varint.

(** ** LEB128: at most ten groups of seven bits *)

Fixpoint leb_encode (fuel : nat) (n : Z) : bytes :=
  match fuel with
  | O => []
  | S fuel => if decide (n < 128) then [z2b n] else z2b (n mod 128 + 128) :: leb_encode fuel (n / 128)
  end.
Fixpoint leb_decode (fuel : nat) (r : bytes) : option (Z * bytes) :=
  match fuel, r with
  | S fuel, b :: r =>
      if decide (b2z b < 128) then Some (b2z b, r)
      else '(n, rest) ← leb_decode fuel r; Some (b2z b - 128 + 128 * n, rest)
  | _, _ => None
  end.

Lemma leb_roundtrip fuel n rest :
  0 <= n < 128 ^ Z.of_nat (S fuel) → leb_decode (S fuel) (leb_encode (S fuel) n ++ rest) = Some (n, rest).
Proof.
  revert n. induction fuel as [|fuel IH]; intros n Hn;
    rewrite Nat2Z.inj_succ, Z.pow_succ_r in Hn by lia;
    pose proof (Z.mod_pos_bound n 128 ltac:(lia)); pose proof (Z.div_mod n 128 ltac:(lia)).
  - cbn -[b2z z2b]. rewrite decide_True by lia. cbn -[b2z z2b].
    rewrite b2z_z2b, Z.mod_small by lia. by rewrite decide_True by lia.
  - remember (S fuel) as k eqn:Hk. cbn [leb_encode]. destruct (decide (n < 128)).
    + cbn -[b2z z2b]. rewrite b2z_z2b, Z.mod_small by lia. by rewrite decide_True by lia.
    + cbn -[b2z z2b Z.div Z.modulo Z.mul]. rewrite b2z_z2b, (Z.mod_small (n mod 128 + 128)) by lia.
      rewrite decide_False by lia.
      rewrite IH by (pose proof (Z.div_pos n 128); pose proof (Z.div_lt_upper_bound n 128 (128 ^ Z.of_nat k)); lia).
      cbn -[Z.div Z.modulo Z.mul]. do 2 f_equal. lia.
Qed.

#[global] Instance leb128 : Varint := {|
  varint_encode := leb_encode 10;
  varint_decode r := '(n, rest) ← leb_decode 10 r; Some (wrap 64 n, rest);
|}.
#[global] Instance leb128_laws : VarintLaws.
Proof.
  split.
  - intros n rest Hn. cbn [varint_encode varint_decode leb128]. rewrite leb_roundtrip.
    + cbn. by rewrite wrap_small.
    + unfold in_width in Hn. change (128 ^ Z.of_nat 10) with (2 ^ 70). lia.
  - intros r n rest. cbn [varint_decode leb128]. destruct (leb_decode 10 r) as [[m r']|]; [|done].
    cbn. intros [= <- <-]. by apply wrap_range.
Qed.

#[global] Typeclasses Opaque Reading.
