(* ===== verification/SpanBatch.v ===== *)
(** Span batches: elements, validity and expansion into single batches
    (src/crates/derive/src/batch/span_batch/batch.rs, element.rs).

    Transaction payloads are kept as in [SpanBatchTransactions]; signatures and
    transaction types are alloy's.  [get_singular_batches_spec] shows that the search
    for L1 origins, whose cursor is relative to a moving slice, still agrees with
    looking every origin up by its number. *)
From S2P Require Import Prelude Blocks SystemConfig Types SingleBatch.
#[local] Open Scope Z_scope.

(** * Data *)

Definition MAX_SPAN_BATCH_ELEMENTS : Z := 10000000.

(** alloy's [Signature] and [TxType]. *)
Record Signature := mkSignature { sig_r : Z; sig_s : Z; sig_y_parity : bool }.
Inductive TxType := Legacy | Eip2930 | Eip1559 | Eip4844 | Eip7702.

Record SpanBatchTransactions := mkSpanBatchTransactions {
  total_block_tx_count : Z;
  contract_creation_bits : bytes;
  tx_sigs : list Signature;
  tx_nonces : list Z;
  tx_gases : list Z;
  tx_tos : list Address;
  tx_datas : list bytes;
  protected_bits : bytes;
  tx_types : list TxType;
  legacy_tx_count : Z;
}.

Record SpanBatchElement := mkSpanBatchElement {
  se_epoch_num : Z;
  se_timestamp : Z;
  se_transactions : list bytes;
}.

Record SpanBatch := mkSpanBatch {
  sp_parent_check : bytes;
  sp_l1_origin_check : bytes;
  sp_genesis_timestamp : Z;
  sp_chain_id : Z;
  sp_batches : list SpanBatchElement;
  sp_origin_bits : bytes;
  sp_block_tx_counts : list Z;
  sp_txs : SpanBatchTransactions;
}.

#[global] Instance signature_eq_dec : EqDecision Signature.
Proof. solve_decision. Defined.
#[global] Instance tx_type_eq_dec : EqDecision TxType.
Proof. solve_decision. Defined.
#[global] Instance span_batch_transactions_eq_dec : EqDecision SpanBatchTransactions.
Proof. solve_decision. Defined.
#[global] Instance span_batch_element_eq_dec : EqDecision SpanBatchElement.
Proof. solve_decision. Defined.
#[global] Instance span_batch_eq_dec : EqDecision SpanBatch.
Proof. solve_decision. Defined.

(** [From<SingleBatch> for SpanBatchElement]. *)
Definition element_of_single (batch : SingleBatch) : SpanBatchElement :=
  mkSpanBatchElement (sb_epoch_num batch) (sb_timestamp batch) (sb_transactions batch).

(** * Accessors *)

Definition starting_timestamp {E} (self : SpanBatch) : outcome E Z :=
  b ← index (sp_batches self) 0; Ok (se_timestamp b).
(** Without elements the index is out of range. *)
Definition final_timestamp {E} (self : SpanBatch) : outcome E Z :=
  b ← index (sp_batches self) (len (sp_batches self) - 1); Ok (se_timestamp b).
Definition starting_epoch_num {E} (self : SpanBatch) : outcome E Z :=
  b ← index (sp_batches self) 0; Ok (se_epoch_num b).

(** [hash[..20]] of a 32-byte hash. *)
Definition check_origin_hash (self : SpanBatch) (hash : B256) : bool :=
  bool_decide (sp_l1_origin_check self = take 20 hash).
Definition check_parent_hash (self : SpanBatch) (hash : B256) : bool :=
  bool_decide (sp_parent_check self = take 20 hash).

(** * Validity *)

(** The transactions of one element: not empty and no deposits (type 0x7E). *)
Definition bad_transaction (tx : bytes) : bool :=
  match tx with [] => true | b :: _ => bool_decide (b2z b = 0x7E) end.

(** [for (j, j_block) in l1_blocks.iter().enumerate().skip(origin_index)]. *)
Definition find_origin (l1_blocks : list BlockInfo) (origin_index : nat) (epoch_num : Z) : nat :=
  match list_find (λ o, epoch_num = bi_number o) (drop origin_index l1_blocks) with
  | Some (j, _) => (origin_index + j)%nat
  | None => origin_index
  end.

(** The loop of [check_batch]; [prev] is the element before [batches]. *)
Fixpoint check_elements (cfg : SoonRollupConfig) (l1_blocks : list BlockInfo) (safe_timestamp : Z)
    (prev : option SpanBatchElement) (origin_index : nat) (origin_advanced : bool)
    (batches : list SpanBatchElement) : outcome Empty_set BatchValidity :=
  match batches with
  | [] => Ok Accept
  | batch :: batches =>
      if decide (se_timestamp batch <= safe_timestamp) then
        check_elements cfg l1_blocks safe_timestamp (Some batch) origin_index origin_advanced batches
      else
        let origin_index := find_origin l1_blocks origin_index (se_epoch_num batch) in
        l1_origin ← index l1_blocks (Z.of_nat origin_index);
        let origin_advanced :=
          match prev with
          | Some p => bool_decide (se_epoch_num batch > se_epoch_num p)
          | None => origin_advanced
          end in
        let continue :=
          if existsb bad_transaction (se_transactions batch) then Ok Drop
          else check_elements cfg l1_blocks safe_timestamp (Some batch) origin_index
                 origin_advanced batches in
        if decide (se_timestamp batch < bi_timestamp l1_origin) then Ok Drop
        else if decide (se_timestamp batch
                        > u64_add (bi_timestamp l1_origin) (cfg_max_sequencer_drift cfg)) then
          if decide (se_transactions batch = []) then
            if origin_advanced then continue
            else if decide (Z.of_nat origin_index + 1 >= len l1_blocks) then Ok Undecided
            else
              next ← index l1_blocks (Z.of_nat origin_index + 1);
              if decide (se_timestamp batch >= bi_timestamp next) then Ok Drop else continue
          else Ok Drop
        else continue
  end.

Section span_batch.
Context {F : Type} `{!L2ChainProvider F}.

(** From the parent block hash check on, for the chosen [parent_block]. *)
Definition check_prefix_parent (self : SpanBatch) (cfg : SoonRollupConfig)
    (l1_origins : list BlockInfo) (inclusion_block : BlockInfo) (starting_epoch_num : Z)
    (parent_block : L2BlockInfo) : outcome Empty_set (BatchValidity * option L2BlockInfo) :=
  let parent_origin := bnh_number (l2_l1_origin parent_block) in
  if negb (check_parent_hash self (bi_hash (l2_block_info parent_block))) then Ok (Drop, None)
  else if decide (u64_add starting_epoch_num (cfg_seq_window_size cfg) < bi_number inclusion_block)
  then Ok (Drop, None)
  else if decide (starting_epoch_num > u64_add parent_origin 1) then Ok (Drop, None)
  else
    last ← expect (last (sp_batches self));
    let end_epoch_num := se_epoch_num last in
    match list_find (λ o, bi_number o = end_epoch_num) l1_origins with
    | Some (_, l1_block) =>
        if negb (check_origin_hash self (bi_hash l1_block)) then Ok (Drop, None)
        else if decide (starting_epoch_num < parent_origin) then Ok (Drop, None)
        else Ok (Accept, Some parent_block)
    | None => Ok (Undecided, None)
    end.

Definition check_batch_prefix (self : SpanBatch) (cfg : SoonRollupConfig)
    (l1_origins : list BlockInfo) (l2_safe_head : L2BlockInfo) (inclusion_block : BlockInfo)
    : ST F Empty_set (BatchValidity * option L2BlockInfo) :=
  match l1_origins with
  | [] => mret (Undecided, None)
  | epoch :: _ =>
      if decide (sp_batches self = []) then mret (Undecided, None) else
      let safe := l2_block_info l2_safe_head in
      let next_timestamp := u64_add (bi_timestamp safe) (cfg_block_time cfg) in
      start_epoch ← lift (starting_epoch_num self);
      if bool_decide (start_epoch = u64_add (bi_number epoch) 1)
         && bool_decide (len l1_origins < 2)
      then mret (Undecided, None) else
      start ← lift (starting_timestamp self);
      if decide (start > next_timestamp) then mret (Drop, None) else
      final ← lift (final_timestamp self);
      if decide (final < next_timestamp) then mret (Past, None) else
      if decide (start < next_timestamp) then
        if decide (start > bi_timestamp safe) then mret (Drop, None)
        else if decide (cfg_block_time cfg = 0) then panic
        else
          let behind := u64_sub (bi_timestamp safe) start in
          if decide (behind mod cfg_block_time cfg ≠ 0) then mret (Drop, None)
          else
            let parent_num := wrap 64 (bi_number safe - behind / cfg_block_time cfg - 1) in
            λ fetcher,
              match l2_block_info_by_number parent_num fetcher with
              | (Ok parent_block, fetcher) =>
                  lift (check_prefix_parent self cfg l1_origins inclusion_block start_epoch parent_block)
                       fetcher
              | (Err _, fetcher) => (Ok (Undecided, None), fetcher)
              | (Panic, fetcher) => (Panic, fetcher)
              end
      else lift (check_prefix_parent self cfg l1_origins inclusion_block start_epoch l2_safe_head)
  end.

Definition check_batch (self : SpanBatch) (cfg : SoonRollupConfig) (l1_blocks : list BlockInfo)
    (l2_safe_head : L2BlockInfo) (inclusion_block : BlockInfo) : ST F Empty_set BatchValidity :=
  '(prefix_validity, parent_block) ←
    check_batch_prefix self cfg l1_blocks l2_safe_head inclusion_block;
  if decide (prefix_validity ≠ Accept) then mret prefix_validity
  else
    start_epoch ← lift (starting_epoch_num self);
    parent_block ← lift (expect parent_block);
    let origin_advanced :=
      bool_decide (start_epoch = u64_add (bnh_number (l2_l1_origin parent_block)) 1) in
    lift (check_elements cfg l1_blocks (bi_timestamp (l2_block_info l2_safe_head)) None 0
            origin_advanced (sp_batches self)).
End span_batch.

(** * Expansion *)

(** The loop of [get_singular_batches].  The first origin is read for a log line. *)
Fixpoint singular_loop (l1_origins : list BlockInfo) (safe_timestamp : Z) (origin_index : nat)
    (batches : list SpanBatchElement) : outcome SpanBatchError (list SingleBatch) :=
  match batches with
  | [] => Ok []
  | batch :: batches =>
      if decide (se_timestamp batch <= safe_timestamp) then
        singular_loop l1_origins safe_timestamp origin_index batches
      else
        _ ← index l1_origins 0;
        origins ← slice l1_origins (Z.of_nat origin_index) (len l1_origins);
        '(i, origin) ← ok_or (list_find (λ o, bi_number o = se_epoch_num batch) origins)
                             MissingL1Origin;
        rest ← singular_loop l1_origins safe_timestamp i batches;
        Ok (mkSingleBatch B256_ZERO (se_epoch_num batch) (bi_hash origin) (se_timestamp batch)
              (se_transactions batch) :: rest)
  end.

Definition get_singular_batches (self : SpanBatch) (l1_origins : list BlockInfo)
    (l2_safe_head : L2BlockInfo) : outcome SpanBatchError (list SingleBatch) :=
  singular_loop l1_origins (bi_timestamp (l2_block_info l2_safe_head)) 0 (sp_batches self).

(** * Panic freedom *)

Lemma singular_loop_not_Panic l1_origins ts s batches :
  l1_origins ≠ [] → (s <= length l1_origins)%nat → singular_loop l1_origins ts s batches ≠ Panic.
Proof.
  intros Hne. revert s. induction batches as [|e batches IH]; intros s Hs; [done|]. cbn [singular_loop].
  destruct (decide (se_timestamp e <= ts)); [by apply IH|].
  destruct l1_origins as [|o0 l1]; [done|]. set (l := o0 :: l1) in *.
  assert (index (E:=SpanBatchError) l 0 = Ok o0) as -> by apply index_head. cbn [mbind outcome_bind].
  destruct (slice_total (E:=SpanBatchError) l (Z.of_nat s) (len l)) as (k & -> & Hk);
    [unfold len in *; lia|lia|].
  cbn [mbind outcome_bind]. destruct (list_find _ k) as [[i o]|] eqn:Hf; [|done]. cbn.
  apply list_find_Some in Hf as (Hi & _). apply lookup_lt_Some in Hi.
  specialize (IH i ltac:(unfold len in *; lia)). by destruct (singular_loop _ _ _ _).
Qed.

Lemma get_singular_batches_not_Panic self l1_origins head :
  l1_origins ≠ [] → get_singular_batches self l1_origins head ≠ Panic.
Proof. intros. apply singular_loop_not_Panic; [done|lia]. Qed.


Section prefix_safe.
Context {F : Type} `{!L2ChainProvider F} `{!L2ChainLaws F}.

(** What an accepted prefix says. *)
Definition prefix_result (self : SpanBatch) (l1_origins : list BlockInfo)
    (r : BatchValidity * option L2BlockInfo) : Prop :=
  r.1 = Accept → l1_origins ≠ [] ∧ sp_batches self ≠ [] ∧ is_Some r.2.

Lemma check_prefix_parent_result self cfg l1_origins incl start parent :
  l1_origins ≠ [] → sp_batches self ≠ [] →
  ∃ r, check_prefix_parent self cfg l1_origins incl start parent = Ok r ∧ prefix_result self l1_origins r.
Proof.
  intros Hl Hb. unfold check_prefix_parent.
  destruct (negb _); [by eexists|]. destruct (decide _); [by eexists|]. destruct (decide _); [by eexists|].
  destruct (last (sp_batches self)) as [e|] eqn:He; [|by apply last_None in He]. cbn.
  destruct (list_find _ _) as [[i o]|]; [|by eexists]. destruct (negb _); [by eexists|].
  destruct (decide _); [by eexists|]. eexists. split; [done|]. intros _. eauto.
Qed.

Lemma check_batch_prefix_safe self cfg l1_origins head incl :
  cfg_block_time cfg ≠ 0 →
  safe (λ _ : F, True) (λ _, False) (prefix_result self l1_origins)
    (check_batch_prefix self cfg l1_origins head incl).
Proof.
  intros Hbt. unfold check_batch_prefix.
  destruct l1_origins as [|ep l1] eqn:Hl1; [by apply safe_ret|]. rewrite <- Hl1.
  assert (l1_origins ≠ []) as Hne by (by rewrite Hl1).
  destruct (decide (sp_batches self = [])) as [|Hb]; [by apply safe_ret|].
  assert (0 < len (sp_batches self)) as Hpos.
  { pose proof (len_nonneg (sp_batches self)). rewrite <- len_zero_nil in Hb. lia. }
  assert (∀ start parent, safe (λ _ : F, True) (λ _, False) (prefix_result self l1_origins)
            (lift (check_prefix_parent self cfg l1_origins incl start parent))) as Hparent.
  { intros start parent. apply safe_lift.
    by destruct (check_prefix_parent_result self cfg l1_origins incl start parent) as (r & -> & Hr). }
  destruct (index_total (E:=Empty_set) (sp_batches self) 0) as [e0 He0]; [lia|].
  destruct (index_total (E:=Empty_set) (sp_batches self) (len (sp_batches self) - 1)) as [e1 He1]; [lia|].
  unfold starting_epoch_num, starting_timestamp, final_timestamp. rewrite He0, He1.
  cbn [mbind outcome_bind].
  apply (safe_bind _ _ (λ _, True)); [by apply safe_lift|]. intros a _.
  destruct (_ && _); [by apply safe_ret|].
  apply (safe_bind _ _ (λ _, True)); [by apply safe_lift|]. intros b _.
  destruct (decide _); [by apply safe_ret|].
  apply (safe_bind _ _ (λ _, True)); [by apply safe_lift|]. intros c _.
  destruct (decide _); [by apply safe_ret|].
  destruct (decide _); [|apply Hparent]. destruct (decide _); [by apply safe_ret|].
  rewrite decide_False by done. destruct (decide _); [by apply safe_ret|].
  intros f _. match goal with |- context [l2_block_info_by_number ?n f] =>
    pose proof (l2_block_info_safe n f I) as Hf; destruct (l2_block_info_by_number n f) as [[pb|e|] f'] end;
    [|done|done].
  by apply Hparent.
Qed.
End prefix_safe.

(** * Expansion against a lookup by number *)

(** L1 origins as the stages keep them: consecutive numbers. *)
Definition consecutive (n0 : Z) (l : list BlockInfo) : Prop :=
  ∀ k o, l !! k = Some o → bi_number o = n0 + Z.of_nat k.

Lemma consecutive_tail n0 o l : consecutive n0 (o :: l) → consecutive (n0 + 1) l.
Proof. intros Hc k p Hp. specialize (Hc (S k) p Hp). lia. Qed.
Lemma consecutive_drop n0 s l : consecutive n0 l → consecutive (n0 + Z.of_nat s) (drop s l).
Proof. intros Hc k o. rewrite lookup_drop. intros Ho. specialize (Hc _ _ Ho). lia. Qed.

Lemma find_number n0 l e :
  consecutive n0 l →
  list_find (λ o, bi_number o = e) l =
    if decide (n0 <= e) then (λ o, (Z.to_nat (e - n0), o)) <$> l !! Z.to_nat (e - n0) else None.
Proof.
  revert n0. induction l as [|o l IH]; intros n0 Hc; cbn [list_find].
  { by destruct (decide _); rewrite ?lookup_nil. }
  pose proof (Hc 0%nat o eq_refl) as Ho. rewrite (IH (n0 + 1)) by (by eapply consecutive_tail).
  destruct (decide (bi_number o = e)) as [He|He].
  - rewrite decide_True by lia. by replace (Z.to_nat (e - n0)) with 0%nat by lia.
  - destruct (decide (n0 + 1 <= e)); [|by rewrite decide_False by lia].
    rewrite decide_True by lia. replace (Z.to_nat (e - n0)) with (S (Z.to_nat (e - (n0 + 1)))) by lia.
    cbn. by destruct (l !! _).
Qed.

(** A new block of the span as a single batch, its origin looked up by number. *)
Definition expand (l1_origins : list BlockInfo) (e : SpanBatchElement) : option SingleBatch :=
  '(_, origin) ← list_find (λ o, bi_number o = se_epoch_num e) l1_origins;
  Some (mkSingleBatch B256_ZERO (se_epoch_num e) (bi_hash origin) (se_timestamp e) (se_transactions e)).

Lemma expand_number n0 l e :
  consecutive n0 l →
  expand l e = if decide (n0 <= se_epoch_num e)
               then (λ o, mkSingleBatch B256_ZERO (se_epoch_num e) (bi_hash o) (se_timestamp e)
                            (se_transactions e)) <$> l !! Z.to_nat (se_epoch_num e - n0)
               else None.
Proof.
  intros Hc. unfold expand. rewrite (find_number n0) by done.
  destruct (decide _); [|done]. by destruct (l !! _).
Qed.

Definition new_elements (safe_timestamp : Z) (batches : list SpanBatchElement) : list SpanBatchElement :=
  filter (λ e, safe_timestamp < se_timestamp e) batches.

Fixpoint epochs_sorted (es : list SpanBatchElement) : Prop :=
  match es with
  | [] => True
  | e :: es => Forall (λ e', se_epoch_num e <= se_epoch_num e') es ∧ epochs_sorted es
  end.

Lemma singular_loop_expand n0 l1 ts s batches :
  consecutive n0 l1 → l1 ≠ [] → (s <= length l1)%nat →
  epochs_sorted (new_elements ts batches) →
  Forall (λ e, n0 + Z.of_nat s <= se_epoch_num e ∨ se_epoch_num e < n0) (new_elements ts batches) →
  singular_loop l1 ts s batches = ok_or (mapM (expand l1) (new_elements ts batches)) MissingL1Origin.
Proof.
  intros Hc Hne. revert s. induction batches as [|e batches IH]; intros s Hs Hsort Hpos; [done|].
  cbn [singular_loop]. unfold new_elements in *. rewrite filter_cons in *.
  destruct (decide (se_timestamp e <= ts)) as [Hold|Hnew].
  { rewrite decide_False in * by lia. by apply IH. }
  rewrite decide_True in * by lia. destruct Hsort as [Hle Hsort].
  apply Forall_cons in Hpos as [He Hpos]. cbn [mapM].
  destruct l1 as [|o0 l1']; [done|]. set (l1 := o0 :: l1') in *.
  assert (index (E:=SpanBatchError) l1 0 = Ok o0) as -> by apply index_head.
  cbn [mbind outcome_bind].
  assert (slice (E:=SpanBatchError) l1 (Z.of_nat s) (len l1) = Ok (drop s l1)) as ->.
  { unfold slice, len. rewrite decide_True by lia. rewrite Nat2Z.id, take_ge; [done|].
    rewrite length_drop. lia. }
  cbn [mbind outcome_bind]. rewrite (expand_number n0 l1 e Hc).
  rewrite (find_number _ _ _ (consecutive_drop n0 s l1 Hc)), lookup_drop.
  destruct He as [He|He]; [|by rewrite !decide_False by lia].
  rewrite !decide_True by lia.
  replace (s + Z.to_nat (se_epoch_num e - (n0 + Z.of_nat s)))%nat
    with (Z.to_nat (se_epoch_num e - n0)) by lia.
  destruct (l1 !! Z.to_nat (se_epoch_num e - n0)) as [o|] eqn:Ho; cbn; [|done].
  apply lookup_lt_Some in Ho as Hlt. rewrite IH; [|lia|done|].
  - fold (new_elements ts batches). by destruct (mapM (expand l1) _).
  - apply Forall_forall. intros e' He'. rewrite Forall_forall in Hle. specialize (Hle e' He'). left. lia.
Qed.

(** Expanding a span batch: over consecutive L1 origins and elements whose epochs do
    not decrease, [get_singular_batches] keeps exactly the elements after the safe
    head, in order, and gives each the hash of the L1 origin with its epoch number; it
    fails with [MissingL1Origin] exactly when some epoch has no origin, and does not
    panic. *)
Theorem get_singular_batches_spec (self : SpanBatch) (l1_origins : list BlockInfo)
    (head : L2BlockInfo) (n0 : Z) :
  consecutive n0 l1_origins → l1_origins ≠ [] →
  let es := new_elements (bi_timestamp (l2_block_info head)) (sp_batches self) in
  epochs_sorted es →
  get_singular_batches self l1_origins head =
    ok_or (mapM (expand l1_origins) es) MissingL1Origin.
Proof.
  intros Hc Hne es Hsort. unfold get_singular_batches. apply (singular_loop_expand n0); [done..|lia|done|].
  apply Forall_forall. intros e _. lia.
Qed.

(** ** Witness *)

Definition example_span : SpanBatch :=
  {| sp_parent_check := []; sp_l1_origin_check := []; sp_genesis_timestamp := 0; sp_chain_id := 0;
     sp_batches := [mkSpanBatchElement 3 900 []; mkSpanBatchElement 3 1200 [[byte1]];
                    mkSpanBatchElement 4 1202 []; mkSpanBatchElement 4 1204 []];
     sp_origin_bits := []; sp_block_tx_counts := [];
     sp_txs := mkSpanBatchTransactions 0 [] [] [] [] [] [] [] [] 0 |}.

Lemma get_singular_batches_spec_witness :
  get_singular_batches example_span [example_l1 3; example_l1 4] example_head
  = ok_or (mapM (expand [example_l1 3; example_l1 4])
             (new_elements 1100 (sp_batches example_span))) MissingL1Origin.
Proof.
  apply (get_singular_batches_spec example_span [example_l1 3; example_l1 4] example_head 3).
  - intros [|[|k]] o Ho; vm_compute in Ho; [injection Ho as <-; reflexivity..|discriminate].
  - discriminate.
  - vm_compute. repeat constructor; discriminate.
Defined.
