(* ===== verification/Batch.v ===== *)
(** Batches and the interfaces of the stages that exchange them
    (src/crates/derive/src/batch/mod.rs, batch_type.rs, stages/batch/mod.rs,
    stages/batch/batch_stream.rs, traits/attributes.rs). *)
From S2P Require Import Prelude Blocks SystemConfig Types SingleBatch SpanBatch.
#[local] Open Scope Z_scope.

(** * Batch types *)

Definition SINGLE_BATCH_TYPE : Z := 0x00.
Definition SPAN_BATCH_TYPE : Z := 0x01.

Inductive BatchType := TSingle | TSpan.

(** [From<u8> for BatchType]: panics on an unknown type. *)
Definition batch_type_from {E} (val : Z) : outcome E BatchType :=
  if decide (val = SINGLE_BATCH_TYPE) then Ok TSingle
  else if decide (val = SPAN_BATCH_TYPE) then Ok TSpan
  else Panic.

(** * Batches *)

Inductive Batch :=
| Single (b : SingleBatch)
| Span (b : SpanBatch).

#[global] Instance batch_eq_dec : EqDecision Batch.
Proof. solve_decision. Defined.

Record BatchWithInclusionBlock := mkBatchWithInclusionBlock {
  bwi_inclusion_block : BlockInfo;
  bwi_batch : Batch;
}.

#[global] Instance batch_with_inclusion_eq_dec : EqDecision BatchWithInclusionBlock.
Proof. solve_decision. Defined.

(** [Batch::timestamp]. *)
Definition timestamp {E} (self : Batch) : outcome E Z :=
  match self with
  | Single sb => Ok (sb_timestamp sb)
  | Span sb => starting_timestamp sb
  end.

(** [BatchWithInclusionBlock::check_batch]. *)
Definition check_batch {F : Type} `{!L2ChainProvider F} (self : BatchWithInclusionBlock)
    (cfg : SoonRollupConfig) (l1_blocks : list BlockInfo) (l2_safe_head : L2BlockInfo)
    : ST F Empty_set BatchValidity :=
  match bwi_batch self with
  | Single single_batch =>
      mret (SingleBatch.check_batch single_batch cfg l1_blocks l2_safe_head (bwi_inclusion_block self))
  | Span span_batch =>
      SpanBatch.check_batch span_batch cfg l1_blocks l2_safe_head (bwi_inclusion_block self)
  end.

(** * Stage interfaces *)

Class BatchStreamProvider (P : Type) := {
  bs_next_batch : PipelineM P Batch;
  bs_flush : P → P;
}.

Class NextBatchProvider (P : Type) := {
  nb_next_batch : L2BlockInfo → list BlockInfo → PipelineM P Batch;
  nb_span_buffer_size : P → Z;
  nb_flush : P → P;
}.

Class AttributesProvider (P : Type) := {
  ap_next_batch : L2BlockInfo → PipelineM P SingleBatch;
  ap_is_last_in_span : P → bool;
}.

(** ** Laws *)

Definition is_single (b : Batch) : Prop := ∃ sb, b = Single sb.

(** Reading a batch does not move the origin. *)
Class BatchStreamLaws (P : Type) `{!Stage P} `{!StageLaws P} `{!BatchStreamProvider P} := {
  bs_next_batch_safe o :
    safe (λ p, st_inv p ∧ origin p = o) st_err (λ _, True) (bs_next_batch (P:=P));
  bs_flush_inv (p : P) : st_inv p → st_inv (bs_flush p) ∧ origin (bs_flush p) = origin p;
}.

(** The stage above the reader has expanded every span batch. *)
Class NextBatchLaws (P : Type) `{!Stage P} `{!StageLaws P} `{!NextBatchProvider P} := {
  nb_next_batch_safe o parent l1_blocks :
    safe (λ p, st_inv p ∧ origin p = o) st_err is_single (nb_next_batch (P:=P) parent l1_blocks);
  nb_flush_inv (p : P) : st_inv p → st_inv (nb_flush p) ∧ origin (nb_flush p) = origin p;
}.

(** A provider of single batches for a parent: [ap_ready] is what its state must satisfy
    for the parent asked for; it then stays so for the parents derived from it. *)
Class AttributesProviderLaws (P : Type) `{!Stage P} `{!StageLaws P} `{!AttributesProvider P} := {
  ap_ready : P → L2BlockInfo → Prop;
  ap_next_batch_safe parent o :
    safe (λ p, st_inv p ∧ ap_ready p parent ∧ origin p = o) st_err
      (λ b, sb_parent_hash b = bi_hash (l2_block_info parent)) (ap_next_batch (P:=P) parent);
  ap_ready_later p parent parent' :
    ap_ready p parent → bnh_number (l2_l1_origin parent) <= bnh_number (l2_l1_origin parent') →
    ap_ready p parent';
  ap_advance_ready parent :
    safe (λ p, st_inv p ∧ ap_ready p parent) st_err (λ _, True) (advance_origin (P:=P));
  ap_signal_ready parent s :
    configured s →
    safe (λ p, st_inv p ∧ ap_ready p parent) st_err (λ _, True) (signal (P:=P) s);
}.

(** The replaying stages: of batches below the stream, of single batches above it. *)
#[export] Instance replay_batch_laws : StageLaws (Replay Batch) := replay_laws (λ _, True).
#[export] Instance replay_stream : BatchStreamProvider (Replay Batch) :=
  {| bs_next_batch := replay; bs_flush p := p |}.
#[export] Instance replay_stream_laws : BatchStreamLaws (Replay Batch).
Proof. split; [apply (replay_safe (λ _, True))|done]. Qed.

#[export] Instance replay_single_laws : StageLaws (Replay SingleBatch) := replay_laws (λ _, True).
#[export] Instance replay_next_batch : NextBatchProvider (Replay SingleBatch) :=
  {| nb_next_batch _ _ := b ← replay; mret (Single b);
     nb_span_buffer_size _ := 0;
     nb_flush p := p |}.
#[export] Instance replay_next_batch_laws : NextBatchLaws (Replay SingleBatch).
Proof.
  split; [|done]. intros o parent l1.
  apply (safe_bind _ _ (λ _, True)); [apply (replay_safe (λ _, True))|].
  intros b _. apply safe_ret. by eexists.
Qed.
