(* ===== verification/BatchStream.v ===== *)
(** The batch stream stage (src/crates/derive/src/stages/batch/batch_stream.rs).

    The stage expands a valid span batch into single batches and hands them out one by
    one; [stream_delivers_span] is that contract, [stream_next_batch_safe] its panic
    freedom over any previous stage obeying the interface. *)
From S2P Require Import Prelude Blocks SystemConfig Types SingleBatch SpanBatch Batch.
#[local] Open Scope Z_scope.

Record BatchStream (P F : Type) := mkBatchStream {
  str_prev : P;
  str_span : option SpanBatch;
  str_buffer : list SingleBatch;
  str_config : SoonRollupConfig;
  str_fetcher : F;
}.
Arguments mkBatchStream {P F}.
Arguments str_prev {P F}.
Arguments str_span {P F}.
Arguments str_buffer {P F}.
Arguments str_config {P F}.
Arguments str_fetcher {P F}.

Definition set_prev {P F : Type} (p : P) (self : BatchStream P F) : BatchStream P F :=
  mkBatchStream p (str_span self) (str_buffer self) (str_config self) (str_fetcher self).
Definition set_span {P F : Type} (s : option SpanBatch) (self : BatchStream P F) : BatchStream P F :=
  mkBatchStream (str_prev self) s (str_buffer self) (str_config self) (str_fetcher self).
Definition set_buffer {P F : Type} (b : list SingleBatch) (self : BatchStream P F) : BatchStream P F :=
  mkBatchStream (str_prev self) (str_span self) b (str_config self) (str_fetcher self).
Definition set_fetcher {P F : Type} (f : F) (self : BatchStream P F) : BatchStream P F :=
  mkBatchStream (str_prev self) (str_span self) (str_buffer self) (str_config self) f.

(** * Operations *)

Definition new {P F : Type} (prev : P) (config : SoonRollupConfig) (fetcher : F) : BatchStream P F :=
  mkBatchStream prev None [] config fetcher.

Section batch_stream.
Context {P F : Type} `{!Stage P} `{!BatchStreamProvider P} `{!L2ChainProvider F}.
Implicit Types self : BatchStream P F.

Definition is_active (self : BatchStream P F) : outcome PipelineErrorKind bool := Ok true.

#[export] Instance batch_stream_origin : OriginProvider (BatchStream P F) :=
  λ self, origin (str_prev self).

Definition flush (self : BatchStream P F) : BatchStream P F :=
  if match is_active self with Ok b => b | _ => false end
  then set_buffer [] (set_span None (set_prev (bs_flush (str_prev self)) self))
  else self.

Definition try_hydrate_buffer (parent : L2BlockInfo) (l1_origins : list BlockInfo)
    : PipelineM (BatchStream P F) unit := λ self,
  match str_span self with
  | Some span =>
      (batches ← lift (map_err (λ e, crit (BadEncoding (SpanBatchErr e)))
                         (get_singular_batches span l1_origins parent));
       modify (λ self, set_buffer (str_buffer self ++ batches) self)) (set_span None self)
  | None => (Ok tt, self)
  end.

(** [self.buffer.pop_front().ok_or_else(..)]. *)
Definition pop_front : PipelineM (BatchStream P F) SingleBatch := λ self,
  match str_buffer self with
  | [] => (Err (temp NotEnoughData), self)
  | b :: buffer => (Ok b, set_buffer buffer self)
  end.

Definition get_single_batch (parent : L2BlockInfo) (l1_origins : list BlockInfo)
    : PipelineM (BatchStream P F) SingleBatch :=
  _ ← try_hydrate_buffer parent l1_origins;
  pop_front.

(** The handling of a span batch pulled from the previous stage. *)
Definition stage_span (b : SpanBatch) (inclusion_block : BlockInfo) (parent : L2BlockInfo)
    (l1_origins : list BlockInfo) : PipelineM (BatchStream P F) unit :=
  config ← gets str_config;
  '(validity, _) ← zoom str_fetcher set_fetcher
                     (infallible (check_batch_prefix b config l1_origins parent inclusion_block));
  match validity with
  | Accept => modify (set_span (Some b))
  | Drop => _ ← modify flush; fail (temp Eof)
  | Past =>
      active ← gets is_active;
      active ← lift active;
      if negb active then fail (crit InvalidBatchValidity) else fail (temp Eof)
  | Undecided | Future => fail (temp NotEnoughData)
  end.

Definition next_batch (parent : L2BlockInfo) (l1_origins : list BlockInfo)
    : PipelineM (BatchStream P F) Batch :=
  active ← gets is_active;
  active ← lift active;
  if negb active then zoom str_prev set_prev bs_next_batch else
  buffer ← gets str_buffer;
  pulled ←
    (if decide (buffer = []) then
       o ← gets origin;
       o ← lift (ok_or o (crit MissingOrigin));
       batch ← zoom str_prev set_prev bs_next_batch;
       match batch with
       | Single b => mret (Some b)
       | Span b => _ ← stage_span b o parent l1_origins; mret None
       end
     else mret None);
  match pulled with
  | Some b => mret (Single b)
  | None => b ← get_single_batch parent l1_origins; mret (Single b)
  end.

#[export] Instance batch_stream_provider : NextBatchProvider (BatchStream P F) :=
  {| nb_next_batch := next_batch;
     nb_span_buffer_size self := len (str_buffer self);
     nb_flush := flush |}.

#[export] Instance batch_stream_advancer : OriginAdvancer (BatchStream P F) :=
  zoom str_prev set_prev advance_origin.

Definition signal_ (s : Signal) : PipelineM (BatchStream P F) unit :=
  _ ← zoom str_prev set_prev (signal s);
  _ ← modify (set_buffer []);
  modify (set_span None).
#[export] Instance batch_stream_signal : SignalReceiver (BatchStream P F) := signal_.

#[export] Instance batch_stream_stage : Stage (BatchStream P F) := {}.
End batch_stream.

(** Runs [next_batch] up to the test of the buffer. *)
Ltac run_active :=
  unfold next_batch; rewrite bind_run; unfold gets at 1, is_active; rewrite bind_run;
  unfold lift at 1; cbv beta iota; cbn [negb]; rewrite bind_run; unfold gets at 1;
  cbv beta iota; rewrite bind_run.

(** * The interface, implemented *)

Section laws.
Context {P F : Type} `{!Stage P} `{!StageLaws P} `{!BatchStreamProvider P} `{!BatchStreamLaws P}.
Context `{!L2ChainProvider F} `{!L2ChainLaws F}.
Implicit Types self : BatchStream P F.

(** A span batch is staged only while [next_batch] runs. *)
Definition batch_stream_inv (self : BatchStream P F) : Prop :=
  st_inv (str_prev self) ∧ str_span self = None ∧ cfg_block_time (str_config self) ≠ 0.
Definition batch_stream_err (e : PipelineErrorKind) : Prop :=
  st_err (P:=P) e ∨ e = temp Eof ∨ e = temp NotEnoughData
  ∨ ∃ e', e = crit (BadEncoding (SpanBatchErr e')).

(** The invariant inside [next_batch], at origin [o]. *)
Definition staged_inv (l1_origins : list BlockInfo) (o : option BlockInfo) (self : BatchStream P F) : Prop :=
  st_inv (str_prev self) ∧ (is_Some (str_span self) → l1_origins ≠ [])
  ∧ cfg_block_time (str_config self) ≠ 0 ∧ origin self = o.

Definition stream_at (o : option BlockInfo) (self : BatchStream P F) : Prop :=
  batch_stream_inv self ∧ origin self = o.

Lemma stream_flush_at o self : stream_at o self → stream_at o (flush self).
Proof.
  intros [(Hp & _ & Hbt) Ho]. apply bs_flush_inv in Hp as [Hp Hpo].
  split; [done|]. etrans; [exact Hpo|exact Ho].
Qed.

Lemma stage_span_run b incl parent l1 o self r self' :
  stream_at o self → stage_span b incl parent l1 self = (r, self') →
  match r with
  | Ok _ => staged_inv l1 o self'
  | Err e => batch_stream_err e ∧ stream_at o self'
  | Panic => False
  end.
Proof.
  intros Hs. unfold stage_span. rewrite bind_run. unfold gets at 1. rewrite bind_run.
  destruct (zoom _ _ _ self) as [r1 s1] eqn:Hz.
  eapply (safe_run (stream_at o) batch_stream_err (prefix_result b l1)) in Hz as [Hs1 Hr1]; [|clear Hz|done].
  2: { apply (safe_zoom _ _ (λ _, True) batch_stream_err); [|done| |done].
       - apply safe_infallible. apply check_batch_prefix_safe. apply Hs.
       - by intros s t Ht _. }
  destruct r1 as [[v pb]|e|]; [|by intros [= <- <-]|done].
  destruct v; cbn; intros [= <- <-].
  - split; [right; by left|by apply stream_flush_at].
  - destruct Hs1 as [(Hp & _ & Hbt) Ho]. split; [done|]. split; [|done]. intros _. by apply Hr1.
  - split; [by do 2 right; left|done].
  - split; [by do 2 right; left|done].
  - split; [right; by left|done].
Qed.

(** Draining the staged span restores the invariant. *)
Lemma get_single_batch_safe l1 o parent self r self' :
  staged_inv l1 o self → get_single_batch parent l1 self = (r, self') →
  stream_at o self'
  ∧ match r with Ok _ => True | Err e => batch_stream_err e | Panic => False end.
Proof.
  intros (Hp & Hsp & Hbt & Ho). unfold get_single_batch. rewrite bind_run. unfold try_hydrate_buffer.
  destruct (str_span self) as [sp|] eqn:Hs.
  - rewrite bind_run. unfold lift at 1.
    pose proof (get_singular_batches_not_Panic sp l1 parent (Hsp ltac:(by eexists))) as Hnp.
    destruct (get_singular_batches sp l1 parent) as [bs|e|]; [| |done].
    + cbn. unfold pop_front. cbn. destruct (str_buffer self ++ bs) as [|b buf]; intros [= <- <-];
        (split; [done|]); [by do 2 right; left|done].
    + intros [= <- <-]. split; [done|]. do 3 right. by eexists.
  - unfold pop_front. destruct (str_buffer self) as [|b buf]; intros [= <- <-];
      (split; [done|]); [by do 2 right; left|done].
Qed.

Lemma stream_next_safe l1 o parent :
  safe (stream_at o) batch_stream_err is_single (next_batch (P:=P) (F:=F) parent l1).
Proof.
  intros self Hs.
  assert (∀ s1, staged_inv l1 o s1 →
    match (b ← get_single_batch parent l1; mret (Single b)) s1 with
    | (Ok a, s') => is_single a ∧ stream_at o s'
    | (Err e, s') => batch_stream_err e ∧ stream_at o s'
    | (Panic, _) => False
    end) as Hget.
  { intros s1 Hs1. rewrite bind_run. destruct (get_single_batch parent l1 s1) as [r s2] eqn:Hg.
    apply (get_single_batch_safe l1 o) in Hg as [Hs2 Hr]; [|done].
    destruct r; [|done..]. split; [by eexists|done]. }
  run_active.
  destruct (decide (str_buffer self = [])) as [Hb|Hb]; cycle 1.
  { cbn [mret st_ret]. apply Hget. destruct Hs as [(Hp & Hsp & Hbt) Ho]. split; [done|].
    rewrite Hsp. split; [by intros [? [=]]|done]. }
  rewrite bind_run. unfold gets at 1. destruct (st_origin (str_prev self)) as [os Hos]; [apply Hs|].
  change (origin self) with (origin (str_prev self)). rewrite Hos. cbn [ok_or].
  rewrite bind_run. unfold lift at 1. rewrite bind_run.
  destruct (zoom str_prev set_prev bs_next_batch self) as [r1 s1] eqn:Hz.
  eapply (safe_run (stream_at o) batch_stream_err (λ _, True)) in Hz as [Hs1 Hr1]; [|clear Hz|done].
  2: { apply (safe_zoom _ _ (λ p, st_inv p ∧ origin p = o) st_err).
       - apply bs_next_batch_safe.
       - intros s [(Hp & _) Ho]. by split.
       - intros s t [(_ & Hsp & Hbt) _] [Ht Hto]. by split.
       - intros e He. by left. }
  destruct r1 as [b|e|]; [|done..]. destruct b as [sb|sp].
  { cbn. split; [by eexists|done]. }
  rewrite bind_run. destruct (stage_span sp os parent l1 s1) as [r2 s2] eqn:Hst.
  apply (stage_span_run sp os parent l1 o) in Hst; [|done]. destruct r2; [|done..].
  cbn [mret st_ret]. by apply Hget.
Qed.

#[export] Program Instance batch_stream_stage_laws : StageLaws (BatchStream P F) :=
  {| st_inv := batch_stream_inv; st_err := batch_stream_err |}.
Next Obligation. intros self (Hp & _). by apply (st_origin (str_prev self)). Qed.
Next Obligation.
  apply (safe_zoom _ _ st_inv st_err); [apply st_advance|by intros s [Hs _]| |by left].
  intros s t [_ Hs] Ht. by split.
Qed.
Next Obligation.
  intros sg Hsg. apply (safe_bind _ _ (λ _, True)).
  - apply (safe_zoom _ _ st_inv st_err); [by apply st_signal|by intros s [Hs _]| |by left].
    intros s t [_ Hs] Ht. by split.
  - intros _ _. apply (safe_bind _ _ (λ _, True)); [by apply safe_modify|].
    intros _ _. apply safe_modify. by intros s (? & _ & ?).
Qed.

#[export] Instance batch_stream_laws : NextBatchLaws (BatchStream P F).
Proof.
  split; [intros o parent l1; apply stream_next_safe|].
  intros self Hs. by apply (stream_flush_at (origin self)).
Qed.
End laws.

(** * Delivery of a span batch *)

(** Successive calls of [next_batch]: their outcomes and the final state. *)
Fixpoint calls {P F : Type} `{!Stage P} `{!BatchStreamProvider P} `{!L2ChainProvider F}
    (args : list (L2BlockInfo * list BlockInfo)) (self : BatchStream P F)
    : list (outcome PipelineErrorKind Batch) * BatchStream P F :=
  match args with
  | [] => ([], self)
  | (parent, l1_origins) :: args =>
      let '(r, self) := next_batch parent l1_origins self in
      let '(rs, self) := calls args self in (r :: rs, self)
  end.

Section delivery.
Context {P F : Type} `{!Stage P} `{!BatchStreamProvider P} `{!L2ChainProvider F}.
Implicit Types self : BatchStream P F.

(** With a buffer, a call answers from it and reads nothing. *)
Lemma next_batch_buffered parent l1 self b buf :
  str_span self = None → str_buffer self = b :: buf →
  next_batch parent l1 self = (Ok (Single b), set_buffer buf self).
Proof.
  intros Hs Hb. unfold next_batch. do 2 (rewrite bind_run; unfold gets at 1, lift at 1, is_active).
  cbv beta iota. cbn [negb]. rewrite bind_run. unfold gets at 1. cbv beta iota. rewrite bind_run.
  rewrite Hb. rewrite decide_False by done. cbn [mret st_ret]. rewrite bind_run.
  unfold get_single_batch. rewrite bind_run. unfold try_hydrate_buffer. rewrite Hs.
  unfold pop_front. by rewrite Hb.
Qed.

Lemma calls_buffered args self bs :
  str_span self = None → str_buffer self = bs → length args = length bs →
  calls args self = ((λ b, Ok (Single b)) <$> bs, set_buffer [] self).
Proof.
  revert self bs. induction args as [|[parent l1] args IH]; intros self bs Hs Hb Hl.
  { destruct bs; [|done]. cbn. by destruct self; cbn in *; subst. }
  destruct bs as [|b bs]; [done|]. cbn [calls].
  rewrite (next_batch_buffered _ _ _ b bs) by done.
  rewrite (IH (set_buffer bs self) bs) by (done || (cbn in Hl; lia)). done.
Qed.

(** A call that pulls a span batch and accepts it answers with its first single batch. *)
Lemma next_batch_pulls_span parent l1 self o p sp pb f b bs :
  str_span self = None → str_buffer self = [] → origin self = Some o →
  bs_next_batch (str_prev self) = (Ok (Span sp), p) →
  check_batch_prefix sp (str_config self) l1 parent o (str_fetcher self) = (Ok (Accept, pb), f) →
  get_singular_batches sp l1 parent = Ok (b :: bs) →
  next_batch parent l1 self
  = (Ok (Single b), mkBatchStream p None bs (str_config self) f).
Proof.
  intros Hs Hb Ho Hp Hv Hg. destruct self as [p0 s0 b0 c0 f0]. cbn in Hs, Hb, Hp, Hv. subst.
  run_active.
  cbn [str_buffer]. rewrite decide_True by done. rewrite bind_run. unfold gets at 1.
  rewrite Ho. cbn [ok_or]. rewrite bind_run. unfold lift at 1. rewrite bind_run.
  unfold zoom at 1. cbn [str_prev]. rewrite Hp. cbv beta iota. rewrite bind_run.
  unfold stage_span. rewrite bind_run. unfold gets at 1. rewrite bind_run. unfold zoom at 1, infallible.
  cbn [set_prev str_fetcher str_config]. rewrite Hv. cbn.
  rewrite bind_run. unfold get_single_batch. rewrite bind_run. unfold try_hydrate_buffer. cbn.
  rewrite bind_run. unfold lift at 1. rewrite Hg. done.
Qed.
End delivery.

(** A span batch that passes the prefix check is delivered whole: its single batches
    are the answers to the next calls, in order and each once, whatever the later calls
    pass, and nothing more is read from the previous stage or the chain meanwhile. *)
Theorem stream_delivers_span {P F : Type} `{!Stage P} `{!BatchStreamProvider P} `{!L2ChainProvider F}
    (self : BatchStream P F) (parent : L2BlockInfo) (l1_origins : list BlockInfo) (o : BlockInfo)
    (span : SpanBatch) (singles : list SingleBatch) pb p f args :
  str_span self = None → str_buffer self = [] → origin self = Some o →
  bs_next_batch (str_prev self) = (Ok (Span span), p) →
  check_batch_prefix span (str_config self) l1_origins parent o (str_fetcher self)
    = (Ok (Accept, pb), f) →
  get_singular_batches span l1_origins parent = Ok singles →
  length singles = S (length args) →
  calls ((parent, l1_origins) :: args) self
  = ((λ b, Ok (Single b)) <$> singles, mkBatchStream p None [] (str_config self) f).
Proof.
  intros Hs Hb Ho Hp Hv Hg Hl. destruct singles as [|b bs]; [done|]. cbn [calls].
  rewrite (next_batch_pulls_span parent l1_origins self o p span pb f b bs) by done.
  rewrite (calls_buffered args _ bs) by (done || (cbn in Hl; lia)). done.
Qed.

(** Over any previous stage obeying its interface and a chain provider that answers,
    with a positive block time, [next_batch] never panics, delivers single batches only,
    keeps its invariant (no span batch stays staged) and the origin, and raises only the
    previous stage's errors, [Eof], [NotEnoughData] or a span batch encoding error. *)
Theorem stream_next_batch_safe {P F : Type} `{!Stage P} `{!StageLaws P} `{!BatchStreamProvider P}
    `{!BatchStreamLaws P} `{!L2ChainProvider F} `{!L2ChainLaws F}
    (parent : L2BlockInfo) (l1_origins : list BlockInfo) (self : BatchStream P F) :
  batch_stream_inv self →
  match next_batch parent l1_origins self with
  | (Ok b, self') => is_single b ∧ batch_stream_inv self' ∧ origin self' = origin self
  | (Err e, self') => batch_stream_err (P:=P) e ∧ batch_stream_inv self' ∧ origin self' = origin self
  | (Panic, _) => False
  end.
Proof. intros Hs. by apply (stream_next_safe l1_origins (origin self) parent self). Qed.

(** ** Witnesses *)

Definition example_stream_config : SoonRollupConfig :=
  {| cfg_l1_chain_id := 1; cfg_max_sequencer_drift := 1800; cfg_seq_window_size := 1000;
     cfg_channel_timeout := 1800; cfg_batch_inbox_address := []; cfg_optimism_portal_address := [];
     cfg_l1_system_config_address := []; cfg_l1_standard_bridge := [];
     cfg_l1_cross_domain_messenger := []; cfg_derive_delay_l1_block_num := 0;
     cfg_max_frame_size := 1000; cfg_channel_size := 1000; cfg_block_time := 2;
     cfg_shred_version := None; cfg_genesis_hash := None; cfg_upgrade_schedules := ∅;
     cfg_sequencer_schedules := [] |}.
Definition example_stream_span : SpanBatch :=
  {| sp_parent_check := take 20 (be_bytes 32 77); sp_l1_origin_check := take 20 (be_bytes 32 4);
     sp_genesis_timestamp := 0; sp_chain_id := 0;
     sp_batches := [mkSpanBatchElement 3 1102 []; mkSpanBatchElement 4 1104 [[byte1]];
                    mkSpanBatchElement 4 1106 []];
     sp_origin_bits := []; sp_block_tx_counts := [];
     sp_txs := mkSpanBatchTransactions 0 [] [] [] [] [] [] [] [] 0 |}.
Definition example_stream : BatchStream (Replay Batch) unit :=
  new (mkReplay (example_l1 10) [Span example_stream_span]) example_stream_config tt.

Lemma stream_delivers_span_witness :
  ∃ b1 b2 b3,
    calls [(example_head, [example_l1 3; example_l1 4]); (example_head, []); (example_head, [])]
      example_stream
    = ([Ok (Single b1); Ok (Single b2); Ok (Single b3)],
       mkBatchStream (mkReplay (example_l1 10) []) None [] example_stream_config tt).
Proof.
  do 3 eexists.
  refine (stream_delivers_span example_stream example_head [example_l1 3; example_l1 4]
            (example_l1 10) example_stream_span [_; _; _] (Some example_head) _ tt
            [(example_head, []); (example_head, [])] _ _ _ _ _ _ _); vm_compute; reflexivity.
Defined.

Lemma stream_next_batch_safe_witness :
  match next_batch example_head [example_l1 3; example_l1 4] example_stream with
  | (Ok b, self') => is_single b ∧ batch_stream_inv self' ∧ origin self' = origin example_stream
  | (Err e, self') => batch_stream_err (P:=Replay Batch) e ∧ batch_stream_inv self'
                      ∧ origin self' = origin example_stream
  | (Panic, _) => False
  end.
Proof.
  apply stream_next_batch_safe.
  split; [repeat constructor|split; [reflexivity|vm_compute; discriminate]].
Defined.
