(* ===== verification/BatchQueue.v ===== *)
(** The batch queue stage (src/crates/derive/src/stages/batch/batch_queue.rs).

    [derive_next_batch_spec] reduces the filtering loop to its rule: drop the leading
    batches judged dropped, future or past, then take the first accepted one;
    [queue_next_batch_safe] is the stage's contract towards the attributes queue. *)
From S2P Require Import Prelude Blocks SystemConfig Types SingleBatch SpanBatch Batch BatchStream.
#[local] Open Scope Z_scope.

Record BatchQueue (P F : Type) := mkBatchQueue {
  bq_cfg : SoonRollupConfig;
  bq_prev : P;
  bq_origin : option BlockInfo;
  bq_l1_blocks : list BlockInfo;
  bq_batches : list BatchWithInclusionBlock;
  bq_next_spans : list SingleBatch;
  bq_fetcher : F;
}.
Arguments mkBatchQueue {P F}.
Arguments bq_cfg {P F}.
Arguments bq_prev {P F}.
Arguments bq_origin {P F}.
Arguments bq_l1_blocks {P F}.
Arguments bq_batches {P F}.
Arguments bq_next_spans {P F}.
Arguments bq_fetcher {P F}.

Section setters.
Context {P F : Type}.
Implicit Types self : BatchQueue P F.

Definition set_prev (p : P) self : BatchQueue P F :=
  mkBatchQueue (bq_cfg self) p (bq_origin self) (bq_l1_blocks self) (bq_batches self)
    (bq_next_spans self) (bq_fetcher self).
Definition set_origin (o : option BlockInfo) self : BatchQueue P F :=
  mkBatchQueue (bq_cfg self) (bq_prev self) o (bq_l1_blocks self) (bq_batches self)
    (bq_next_spans self) (bq_fetcher self).
Definition set_l1_blocks (l : list BlockInfo) self : BatchQueue P F :=
  mkBatchQueue (bq_cfg self) (bq_prev self) (bq_origin self) l (bq_batches self)
    (bq_next_spans self) (bq_fetcher self).
Definition set_batches (l : list BatchWithInclusionBlock) self : BatchQueue P F :=
  mkBatchQueue (bq_cfg self) (bq_prev self) (bq_origin self) (bq_l1_blocks self) l
    (bq_next_spans self) (bq_fetcher self).
Definition set_next_spans (l : list SingleBatch) self : BatchQueue P F :=
  mkBatchQueue (bq_cfg self) (bq_prev self) (bq_origin self) (bq_l1_blocks self) (bq_batches self)
    l (bq_fetcher self).
Definition set_fetcher (f : F) self : BatchQueue P F :=
  mkBatchQueue (bq_cfg self) (bq_prev self) (bq_origin self) (bq_l1_blocks self) (bq_batches self)
    (bq_next_spans self) f.
End setters.

(** * Operations *)

Definition new {P F : Type} (cfg : SoonRollupConfig) (prev : P) (fetcher : F) : BatchQueue P F :=
  mkBatchQueue cfg prev None [] [] [] fetcher.

(** [SingleBatch] with its parent hash replaced. *)
Definition with_parent_hash (h : B256) (b : SingleBatch) : SingleBatch :=
  mkSingleBatch h (sb_epoch_num b) (sb_epoch_hash b) (sb_timestamp b) (sb_transactions b).

Section batch_queue.
Context {P F : Type} `{!Stage P} `{!NextBatchProvider P} `{!L2ChainProvider F}.
Implicit Types self : BatchQueue P F.

#[export] Instance batch_queue_origin : OriginProvider (BatchQueue P F) :=
  λ self, origin (bq_prev self).

(** Panics on an empty cache. *)
Definition pop_next_batch (parent : L2BlockInfo) : PipelineM (BatchQueue P F) (option SingleBatch) :=
  λ self,
  match bq_next_spans self with
  | [] => (Panic, self)
  | next :: spans =>
      (Ok (Some (with_parent_hash (bi_hash (l2_block_info parent)) next)), set_next_spans spans self)
  end.

(** The loop over [self.batches], followed by [self.batches = remaining]; [remaining] stays
    empty until the loop is left.  [None]: no batch was accepted. *)
Fixpoint filter_loop (parent : L2BlockInfo) (batches : list BatchWithInclusionBlock)
    : PipelineM (BatchQueue P F) (option BatchWithInclusionBlock) :=
  match batches with
  | [] => _ ← modify (set_batches []); mret None
  | batch :: rest =>
      cfg ← gets bq_cfg;
      l1_blocks ← gets bq_l1_blocks;
      validity ← zoom bq_fetcher set_fetcher (infallible (check_batch batch cfg l1_blocks parent));
      match validity with
      | Future | Drop =>
          _ ← modify (λ self, set_prev (nb_flush (bq_prev self)) self);
          filter_loop parent rest
      | Accept => _ ← modify (set_batches rest); mret (Some batch)
      | Undecided => _ ← modify (set_batches (batch :: rest)); fail (temp Eof)
      | Past => filter_loop parent rest
      end
  end.

(** What follows when no queued batch is accepted: force-created empty batches. *)
Definition force_empty (empty : bool) (parent : L2BlockInfo) (epoch origin : BlockInfo)
    : PipelineM (BatchQueue P F) Batch := λ self,
  let next_timestamp := u64_add (bi_timestamp (l2_block_info parent)) (cfg_block_time (bq_cfg self)) in
  let expiry_epoch := u64_add (bi_number epoch) (cfg_seq_window_size (bq_cfg self)) in
  let force_empty_batches :=
    (bool_decide (expiry_epoch = bi_number origin) && empty)
    || bool_decide (expiry_epoch < bi_number origin) in
  let first_of_epoch :=
    bool_decide (bi_number epoch = u64_add (bnh_number (l2_l1_origin parent)) 1) in
  if negb force_empty_batches then (Err (temp Eof), self)
  else
    match bq_l1_blocks self with
    | first :: next_epoch :: blocks =>
        if bool_decide (next_timestamp < bi_timestamp next_epoch) || first_of_epoch then
          (Ok (Single (mkSingleBatch (bi_hash (l2_block_info parent)) (bi_number epoch)
                         (bi_hash epoch) next_timestamp [])), self)
        else (Err (temp Eof), set_l1_blocks (next_epoch :: blocks) self)
    | _ => (Err (temp Eof), self)
    end.

Definition derive_next_batch (empty : bool) (parent : L2BlockInfo)
    : PipelineM (BatchQueue P F) Batch :=
  l1_blocks ← gets bq_l1_blocks;
  match l1_blocks with
  | [] => fail (crit MissingOrigin)
  | epoch :: _ =>
      let before := u64_sub (bi_number epoch) 1 in
      let l1_origin := l2_l1_origin parent in
      if bool_decide (bi_number (l2_block_info parent) ≠ 0)
         && bool_decide (l1_origin ≠ bi_id epoch)
         && bool_decide (bnh_number l1_origin ≠ before)
      then fail (ResetKind (L1OriginMismatch (bnh_number l1_origin) before))
      else
        origin ← gets bq_origin;
        origin ← lift (ok_or origin (crit MissingOrigin));
        batches ← gets bq_batches;
        next_batch ← filter_loop parent batches;
        match next_batch with
        | Some nb =>
            _ ← lift (timestamp (bwi_batch nb));
            mret (bwi_batch nb)
        | None => force_empty empty parent epoch origin
        end
  end.

(** The result is discarded by its caller ([.ok()]). *)
Definition add_batch (batch : Batch) (parent : L2BlockInfo) : PipelineM (BatchQueue P F) unit :=
  l1_blocks ← gets bq_l1_blocks;
  if decide (l1_blocks = []) then panic else
  origin ← gets bq_origin;
  origin ← lift (ok_or origin (crit MissingOrigin));
  let data := mkBatchWithInclusionBlock origin batch in
  cfg ← gets bq_cfg;
  validity ← zoom bq_fetcher set_fetcher (infallible (check_batch data cfg l1_blocks parent));
  if is_drop validity || is_future validity then
    modify (λ self, set_prev (nb_flush (bq_prev self)) self)
  else if is_outdated validity then mret tt
  else modify (λ self, set_batches (bq_batches self ++ [data]) self).

(** [next_batch] up to the reading of the previous stage: the advance of the epoch. *)
Definition advance_epoch (parent : L2BlockInfo) (self : BatchQueue P F) : BatchQueue P F :=
  match bq_l1_blocks self with
  | [] => self
  | first :: _ =>
      if decide (bnh_number (l2_l1_origin parent) > bi_number first) then
        match list_find (λ block, bnh_number (l2_l1_origin parent) = bi_number block)
                (bq_l1_blocks self) with
        | Some (i, _) => set_l1_blocks (drop i (bq_l1_blocks self)) self
        | None => self
        end
      else self
  end.

Definition origin_behind (parent : L2BlockInfo) (self : BatchQueue P F) : bool :=
  match origin (bq_prev self) with
  | None => true
  | Some o => bool_decide (bi_number o < bnh_number (l2_l1_origin parent))
  end.

Definition update_origin (behind : bool) : PipelineM (BatchQueue P F) unit := λ self,
  if decide (bq_origin self = origin (bq_prev self)) then (Ok tt, self)
  else
    let self := set_origin (origin (bq_prev self)) self in
    if negb behind then
      match bq_origin self with
      | None => (Err (crit MissingOrigin), self)
      | Some o => (Ok tt, set_l1_blocks (bq_l1_blocks self ++ [o]) self)
      end
    else (Ok tt, set_l1_blocks [] self).

(** [self.prev.next_batch(..)] and the handling of its result: is the source exhausted? *)
Definition load_batch (behind : bool) (parent : L2BlockInfo) : PipelineM (BatchQueue P F) bool :=
  l1_blocks ← gets bq_l1_blocks;
  catch (zoom bq_prev set_prev (nb_next_batch parent l1_blocks)) (λ r,
    match r with
    | Ok b =>
        if negb behind then catch (add_batch b parent) (λ _, mret false) else mret false
    | Err e => if is_temp_eof e then mret true else fail e
    | Panic => panic
    end).

(** The single batch answered for the derived batch. *)
Definition emit (batch : Batch) (parent : L2BlockInfo) : PipelineM (BatchQueue P F) SingleBatch :=
  match batch with
  | Single sb => mret sb
  | Span sb =>
      l1_blocks ← gets bq_l1_blocks;
      batches ← lift (map_err (λ e, crit (BadEncoding (SpanBatchErr e)))
                        (get_singular_batches sb l1_blocks parent));
      _ ← modify (set_next_spans batches);
      nb ← pop_next_batch parent;
      lift (ok_or nb (crit BatchQueueEmpty))
  end.

(** [next_batch] when no cached single batch is answered. *)
Definition next_uncached (parent : L2BlockInfo) : PipelineM (BatchQueue P F) SingleBatch :=
  _ ← modify (advance_epoch parent);
  behind ← gets (origin_behind parent);
  _ ← update_origin behind;
  out_of_data ← load_batch behind parent;
  let exhausted := if out_of_data : bool then temp Eof else temp NotEnoughData in
  if behind : bool then fail exhausted
  else
    batch ← catch (derive_next_batch out_of_data parent) (λ r,
      match r with
      | Ok b => mret b
      | Err e => if is_temp_eof e then fail exhausted else fail e
      | Panic => panic
      end);
    emit batch parent.

Definition next_batch (parent : L2BlockInfo) : PipelineM (BatchQueue P F) SingleBatch :=
  next_spans ← gets bq_next_spans;
  cfg ← gets bq_cfg;
  match next_spans with
  | next :: _ =>
      if decide (sb_timestamp next
                 = u64_add (bi_timestamp (l2_block_info parent)) (cfg_block_time cfg))
      then
        b ← pop_next_batch parent;
        lift (ok_or b (crit BatchQueueEmpty))
      else
        _ ← modify (set_next_spans []);
        next_uncached parent
  | [] => next_uncached parent
  end.

#[export] Instance batch_queue_provider : AttributesProvider (BatchQueue P F) :=
  {| ap_next_batch := next_batch;
     ap_is_last_in_span self := bool_decide (bq_next_spans self = []) |}.

#[export] Instance batch_queue_advancer : OriginAdvancer (BatchQueue P F) :=
  zoom bq_prev set_prev advance_origin.

Definition signal_ (s : Signal) : PipelineM (BatchQueue P F) unit :=
  match s with
  | Reset r =>
      _ ← zoom bq_prev set_prev (signal s);
      _ ← modify (set_origin (Some (rs_l1_origin r)));
      _ ← modify (set_batches []);
      _ ← modify (set_l1_blocks [rs_l1_origin r]);
      modify (set_next_spans [])
  | Activation _ | FlushChannel =>
      _ ← zoom bq_prev set_prev (signal s);
      _ ← modify (set_batches []);
      modify (set_next_spans [])
  end.
#[export] Instance batch_queue_signal : SignalReceiver (BatchQueue P F) := signal_.

#[export] Instance batch_queue_stage : Stage (BatchQueue P F) := {}.
End batch_queue.

(** * The filtering loop *)

(** The verdict on a queued single batch; the stage below expands span batches. *)
Definition verdict (cfg : SoonRollupConfig) (l1_blocks : list BlockInfo) (parent : L2BlockInfo)
    (b : BatchWithInclusionBlock) : BatchValidity :=
  match bwi_batch b with
  | Single sb => SingleBatch.check_batch sb cfg l1_blocks parent (bwi_inclusion_block b)
  | Span _ => Drop
  end.

Definition rejected (v : BatchValidity) : Prop := v = Drop ∨ v = Future ∨ v = Past.
Definition flushes (v : BatchValidity) : bool := is_drop v || is_future v.

Definition single_queued (b : BatchWithInclusionBlock) : Prop := is_single (bwi_batch b).

Lemma accept_parent_hash sb cfg l1 parent incl :
  SingleBatch.check_batch sb cfg l1 parent incl = Accept →
  sb_parent_hash sb = bi_hash (l2_block_info parent).
Proof.
  unfold SingleBatch.check_batch. destruct l1; [done|]. destruct (decide _); [done|].
  destruct (decide (sb_parent_hash sb ≠ _)) as [|Hn]; [done|]. intros _. by apply dec_stable in Hn.
Qed.

Section filter.
Context {P F : Type} `{!Stage P} `{!NextBatchProvider P} `{!L2ChainProvider F}.
Implicit Types self : BatchQueue P F.

Lemma check_single_run cfg l1 parent b self :
  single_queued b →
  zoom bq_fetcher set_fetcher (infallible (check_batch b cfg l1 parent)) self
  = (Ok (E:=PipelineErrorKind) (verdict cfg l1 parent b), self).
Proof.
  intros [sb Hb]. unfold zoom, infallible, Batch.check_batch, verdict. rewrite Hb. cbn.
  by destruct self.
Qed.

(** The previous stage after the flushes the rejected batches cause. *)
Definition flushed (cfg : SoonRollupConfig) (l1_blocks : list BlockInfo) (parent : L2BlockInfo)
    (pre : list BatchWithInclusionBlock) (p : P) : P :=
  foldl (λ p b, if flushes (verdict cfg l1_blocks parent b) then nb_flush p else p) p pre.

Lemma set_prev_same self : set_prev (bq_prev self) self = self.
Proof. by destruct self. Qed.

Lemma filter_loop_step parent b bs self :
  single_queued b →
  filter_loop parent (b :: bs) self =
    match verdict (bq_cfg self) (bq_l1_blocks self) parent b with
    | Future | Drop => filter_loop parent bs (set_prev (nb_flush (bq_prev self)) self)
    | Accept => (Ok (Some b), set_batches bs self)
    | Undecided => (Err (temp Eof), set_batches (b :: bs) self)
    | Past => filter_loop parent bs self
    end.
Proof.
  intros Hb. cbn [filter_loop]. rewrite bind_run. unfold gets at 1. rewrite bind_run. unfold gets at 1.
  rewrite bind_run, check_single_run by done. by destruct (verdict _ _ _ _).
Qed.

Lemma filter_loop_rejected parent pre rest self :
  Forall single_queued pre →
  Forall (λ b, rejected (verdict (bq_cfg self) (bq_l1_blocks self) parent b)) pre →
  filter_loop parent (pre ++ rest) self =
    filter_loop parent rest
      (set_prev (flushed (bq_cfg self) (bq_l1_blocks self) parent pre (bq_prev self)) self).
Proof.
  revert self. induction pre as [|b pre IH]; intros self Hs Hr; [cbn; by rewrite set_prev_same|].
  apply Forall_cons in Hs as [Hb Hs]. apply Forall_cons in Hr as [Hv Hr]. cbn [app].
  rewrite filter_loop_step by done. cbn [flushed foldl].
  destruct Hv as [Hv|[Hv|Hv]]; rewrite Hv; by rewrite IH.
Qed.
End filter.

(** The parent's L1 origin is the queue's epoch or its predecessor. *)
Definition parent_in_epoch (parent : L2BlockInfo) (epoch : BlockInfo) : Prop :=
  bi_number (l2_block_info parent) = 0 ∨ l2_l1_origin parent = bi_id epoch
  ∨ bnh_number (l2_l1_origin parent) = u64_sub (bi_number epoch) 1.

Section derive.
Context {P F : Type} `{!Stage P} `{!NextBatchProvider P} `{!L2ChainProvider F}.
Implicit Types self : BatchQueue P F.

(** [derive_next_batch] past its preliminary checks. *)
Lemma derive_run empty parent self epoch bl o :
  bq_l1_blocks self = epoch :: bl → bq_origin self = Some o → parent_in_epoch parent epoch →
  derive_next_batch empty parent self =
    (next_batch ← filter_loop parent (bq_batches self);
     match next_batch with
     | Some nb => _ ← lift (timestamp (bwi_batch nb)); mret (bwi_batch nb)
     | None => force_empty empty parent epoch o
     end) self.
Proof.
  intros Hl Ho Hp. unfold derive_next_batch. rewrite bind_run. unfold gets at 1. rewrite Hl.
  assert (bool_decide (bi_number (l2_block_info parent) ≠ 0)
          && bool_decide (l2_l1_origin parent ≠ bi_id epoch)
          && bool_decide (bnh_number (l2_l1_origin parent) ≠ u64_sub (bi_number epoch) 1) = false) as ->.
  { apply not_true_iff_false. rewrite !andb_true_iff, !bool_decide_eq_true.
    unfold parent_in_epoch in Hp. tauto. }
  rewrite bind_run. unfold gets at 1. rewrite Ho. cbn [ok_or]. rewrite bind_run. unfold lift at 1.
  by rewrite bind_run.
Qed.

Lemma derive_empty_queue empty parent self epoch bl o :
  bq_l1_blocks self = epoch :: bl → bq_origin self = Some o → parent_in_epoch parent epoch →
  bq_batches self = [] →
  derive_next_batch empty parent self = force_empty empty parent epoch o self.
Proof.
  intros Hl Ho Hp Hb. rewrite (derive_run _ _ _ _ bl o) by done. rewrite Hb, bind_run. cbn.
  by destruct self; cbn in *; subst.
Qed.
End derive.

(** The derivation of the next batch, on a queue of single batches whose longest leading
    part judged dropped, future or past is [pre]: the previous stage is flushed once for every
    dropped or future batch and [pre] leaves the queue; then the first batch left is the
    answer when it is accepted, and stays with [Eof] when undecided; with no batch left
    the decision on a force-created empty batch is made on the state reached. *)
Theorem derive_next_batch_spec {P F : Type} `{!Stage P} `{!NextBatchProvider P} `{!L2ChainProvider F}
    (empty : bool) (parent : L2BlockInfo) (self : BatchQueue P F) epoch bl o pre rest :
  bq_l1_blocks self = epoch :: bl → bq_origin self = Some o → parent_in_epoch parent epoch →
  bq_batches self = pre ++ rest → Forall single_queued (pre ++ rest) →
  Forall (λ b, rejected (verdict (bq_cfg self) (bq_l1_blocks self) parent b)) pre →
  (∀ b, head rest = Some b → ¬ rejected (verdict (bq_cfg self) (bq_l1_blocks self) parent b)) →
  let prev := flushed (bq_cfg self) (bq_l1_blocks self) parent pre (bq_prev self) in
  let left l := set_batches l (set_prev prev self) in
  derive_next_batch empty parent self =
    match rest with
    | [] => force_empty empty parent epoch o (left [])
    | b :: rest' =>
        if decide (verdict (bq_cfg self) (bq_l1_blocks self) parent b = Accept)
        then (Ok (bwi_batch b), left rest')
        else (Err (temp Eof), left rest)
    end.
Proof.
  intros Hl Ho Hp Hb Hs Hr Hn prev left. apply Forall_app in Hs as [Hs1 Hs2].
  rewrite (derive_run _ _ _ _ bl o) by done. rewrite Hb, bind_run, filter_loop_rejected by done.
  destruct rest as [|b rest']; [done|]. apply Forall_cons in Hs2 as [Hb1 _].
  rewrite filter_loop_step by done. cbn [set_prev bq_cfg bq_l1_blocks].
  specialize (Hn b eq_refl). destruct (verdict _ _ _ b) eqn:Hv; cbn.
  2: { destruct Hb1 as [sb Hsb]. by rewrite Hsb. }
  all: first [done|destruct Hn; unfold rejected; tauto].
Qed.

(** C38. Once the sequencing window of an epoch has expired, the queue always fills it: for
    a parent in epoch [e], with no queued batches, a call answers the empty batch of
    [e]; or, when [e] already reaches the time of the next origin [n] and the window of
    [n] has expired too, it drops [e] and the next call answers the empty batch of [n],
    one block time after the parent. *)
Theorem expired_epoch_filled {P F : Type} `{!Stage P} `{!NextBatchProvider P} `{!L2ChainProvider F}
    (empty : bool) (parent : L2BlockInfo) (self : BatchQueue P F) e n m bl o :
  let cfg := bq_cfg self in
  let ts := u64_add (bi_timestamp (l2_block_info parent)) (cfg_block_time cfg) in
  let batch b := Single (mkSingleBatch (bi_hash (l2_block_info parent)) (bi_number b) (bi_hash b) ts []) in
  bq_l1_blocks self = e :: n :: m :: bl → bq_origin self = Some o → bq_batches self = [] →
  l2_l1_origin parent = bi_id e → bi_number n = bi_number e + 1 → is_u64 (bi_number e) →
  bi_number e + 1 < 2 ^ 64 → 0 <= cfg_seq_window_size cfg →
  bi_number n + cfg_seq_window_size cfg < bi_number o → bi_number o < 2 ^ 64 →
  if decide (ts < bi_timestamp n)
  then derive_next_batch empty parent self = (Ok (batch e), self)
  else
    let self' := set_l1_blocks (n :: m :: bl) self in
    derive_next_batch empty parent self = (Err (temp Eof), self')
    ∧ derive_next_batch empty parent self' = (Ok (batch n), self').
Proof.
  intros cfg ts batch Hl Ho Hb Hpe Hn He He1 Hw Hexp Ho64. unfold in_width in He.
  rewrite (derive_empty_queue _ _ _ e (n :: m :: bl) o) by (done || (right; by left)).
  unfold force_empty. rewrite Hl. fold cfg. fold ts.
  rewrite (u64_add_small (bi_number e)) by lia.
  rewrite (bool_decide_eq_true_2 (bi_number e + _ < _)), orb_true_r by lia. cbn [negb].
  rewrite Hpe. cbn [bi_id bnh_number]. rewrite u64_add_small by lia.
  rewrite (bool_decide_eq_false_2 (bi_number e = bi_number e + 1)), orb_false_r by lia.
  destruct (decide (ts < bi_timestamp n)) as [Hts|Hts].
  { by rewrite bool_decide_eq_true_2. }
  rewrite bool_decide_eq_false_2 by done. split; [done|].
  rewrite (derive_empty_queue _ _ _ n (m :: bl) o); [|done|done| |done].
  2: { right; right. rewrite Hpe. cbn. rewrite u64_sub_small; lia. }
  unfold force_empty. cbn [set_l1_blocks bq_l1_blocks bq_cfg]. fold cfg. fold ts.
  rewrite (u64_add_small (bi_number n)) by lia.
  rewrite (bool_decide_eq_true_2 (bi_number n + _ < _)), orb_true_r by lia. cbn [negb].
  rewrite Hpe. cbn [bi_id bnh_number]. rewrite u64_add_small by lia.
  by rewrite (bool_decide_eq_true_2 (bi_number n = _)), orb_true_r.
Qed.

(** * The interface, implemented *)

Section laws.
Context {P F : Type} `{!Stage P} `{!StageLaws P} `{!NextBatchProvider P} `{!NextBatchLaws P}.
Context `{!L2ChainProvider F}.
Implicit Types self : BatchQueue P F.

Definition batch_queue_inv (self : BatchQueue P F) : Prop :=
  st_inv (bq_prev self) ∧ Forall single_queued (bq_batches self).
Definition batch_queue_err (e : PipelineErrorKind) : Prop :=
  st_err (P:=P) e ∨ e = temp Eof ∨ e = temp NotEnoughData
  ∨ ∃ a b, e = ResetKind (L1OriginMismatch a b).

(** Without L1 blocks the queue must be behind its parent. *)
Definition batch_queue_ready (self : BatchQueue P F) (parent : L2BlockInfo) : Prop :=
  bq_l1_blocks self = [] →
  ∀ o, bq_origin self = Some o → bi_number o < bnh_number (l2_l1_origin parent).

Definition queue_at (parent : L2BlockInfo) (o : option BlockInfo) (self : BatchQueue P F) : Prop :=
  batch_queue_inv self ∧ batch_queue_ready self parent ∧ origin self = o.

(** The state between the update of the origin and the answer. *)
Definition updated (parent : L2BlockInfo) (o : BlockInfo) (behind : bool) (self : BatchQueue P F) : Prop :=
  batch_queue_inv self ∧ origin self = Some o ∧ bq_origin self = Some o
  ∧ if behind then bi_number o < bnh_number (l2_l1_origin parent) else bq_l1_blocks self ≠ [].

Lemma updated_at parent o behind self :
  updated parent o behind self → queue_at parent (Some o) self.
Proof.
  intros (Hi & Ho & Hq & Hb). split; [done|]. split; [|done]. intros Hl o'. rewrite Hq. intros [= <-].
  by destruct behind.
Qed.

Lemma advance_epoch_at parent o self :
  queue_at parent o self → queue_at parent o (advance_epoch parent self).
Proof.
  intros (Hi & Hr & Ho). unfold advance_epoch. destruct (bq_l1_blocks self) as [|b bl] eqn:Hl; [done|].
  destruct (decide _); [|done]. destruct (list_find _ _) as [[i x]|] eqn:Hf; [|done].
  split; [done|]. split; [|done]. intros Hd. cbn in Hd. apply list_find_Some in Hf as (Hi' & _).
  apply lookup_lt_Some in Hi'. apply (f_equal length) in Hd. rewrite length_drop in Hd.
  cbn [length] in *. lia.
Qed.

Lemma update_origin_run parent o self :
  queue_at parent (Some o) self →
  ∃ self', update_origin (origin_behind parent self) self = (Ok tt, self')
  ∧ updated parent o (origin_behind parent self) self'.
Proof.
  intros (Hi & Hr & Ho). unfold origin_behind, update_origin.
  change (origin (bq_prev self)) with (origin self). rewrite Ho.
  destruct (decide (bq_origin self = Some o)) as [Hq|Hq].
  - eexists. split; [done|]. split; [done|]. split; [done|]. split; [done|].
    case_bool_decide; [done|]. intros Hl. by specialize (Hr Hl o Hq).
  - case_bool_decide; cbn; eexists; (split; [done|]); (split; [done|]); (split; [exact Ho|]); split; try done.
    cbn. by destruct (bq_l1_blocks self).
Qed.

Lemma flush_updated parent o behind self :
  updated parent o behind self →
  updated parent o behind (set_prev (nb_flush (bq_prev self)) self).
Proof.
  intros ((Hp & Hb) & Ho & Hq & Hl). apply nb_flush_inv in Hp as [Hp Hpo].
  split; [done|]. split; [etrans; [exact Hpo|exact Ho]|done].
Qed.

Lemma set_batches_updated parent o behind l self :
  Forall single_queued l → updated parent o behind self → updated parent o behind (set_batches l self).
Proof. intros Hl ((Hp & Hb) & Ho & Hq & Hbl). done. Qed.

Lemma filter_loop_safe parent o bs :
  Forall single_queued bs →
  safe (updated parent o false) batch_queue_err
    (λ r, ∀ nb, r = Some nb → ∃ sb, bwi_batch nb = Single sb
                  ∧ sb_parent_hash sb = bi_hash (l2_block_info parent))
    (filter_loop (P:=P) (F:=F) parent bs).
Proof.
  induction bs as [|b bs IH]; intros Hs self Hself.
  - split; [done|]. by apply set_batches_updated.
  - apply Forall_cons in Hs as [Hb Hs]. rewrite filter_loop_step by done.
    destruct (verdict _ _ _ b) eqn:Hv.
    + apply IH; [done|]. by apply flush_updated.
    + split; [|by apply set_batches_updated]. intros nb [= <-]. destruct Hb as [sb Hb].
      exists sb. split; [done|]. unfold verdict in Hv. rewrite Hb in Hv. by eapply accept_parent_hash.
    + split; [right; by left|]. apply set_batches_updated; [by constructor|done].
    + apply IH; [done|]. by apply flush_updated.
    + by apply IH.
Qed.

Definition based (parent : L2BlockInfo) (b : Batch) : Prop :=
  ∃ sb, b = Single sb ∧ sb_parent_hash sb = bi_hash (l2_block_info parent).

Lemma force_empty_safe empty parent epoch o :
  safe (updated parent o false) batch_queue_err (based parent)
    (force_empty (P:=P) (F:=F) empty parent epoch o).
Proof.
  intros self Hs. assert (batch_queue_err (temp Eof)) by (right; by left).
  unfold force_empty. destruct (negb _); [done|].
  destruct (bq_l1_blocks self) as [|b1 [|b2 bl]] eqn:Hl; [done..|].
  destruct (_ || _); [split; [by eexists|done]|]. split; [done|].
  by destruct Hs as (Hi & Ho & Hq & _).
Qed.

Lemma derive_safe empty parent o :
  safe (updated parent o false) batch_queue_err (based parent)
    (derive_next_batch (P:=P) (F:=F) empty parent).
Proof.
  apply (safe_bind _ _ (.≠ [])); [by apply safe_gets; intros s (_ & _ & _ & ?)|]. intros l1 Hl1.
  destruct l1 as [|epoch bl]; [done|].
  cbv zeta. destruct (_ && _); [apply safe_fail; do 3 right; by eexists _, _|].
  apply (safe_bind _ _ (.= Some o)); [by apply safe_gets; intros s (_ & _ & ? & _)|]. intros ? ->.
  apply (safe_bind _ _ (.= o)); [by apply safe_lift|]. intros ? ->.
  apply (safe_bind _ _ (Forall single_queued)); [by apply safe_gets; intros s ((_ & ?) & _)|].
  intros bs Hbs. apply (safe_bind _ _ _ _ _ _ (filter_loop_safe parent o bs Hbs)).
  intros [nb|] Hnb; [|by apply force_empty_safe]. destruct (Hnb nb eq_refl) as (sb & Hsb & Hh).
  rewrite Hsb. apply (safe_bind _ _ (λ _, True)); [by apply safe_lift|]. intros _ _.
  apply safe_ret. by exists sb.
Qed.
Lemma add_batch_safe parent o sb :
  safe (updated parent o false) batch_queue_err (λ _, True)
    (add_batch (P:=P) (F:=F) (Single sb) parent).
Proof.
  apply (safe_bind _ _ (.≠ [])); [by apply safe_gets; intros s (_ & _ & _ & ?)|]. intros l1 Hl1.
  rewrite decide_False by done.
  apply (safe_bind _ _ (.= Some o)); [by apply safe_gets; intros s (_ & _ & ? & _)|]. intros ? ->.
  apply (safe_bind _ _ (.= o)); [by apply safe_lift|]. intros ? ->. cbv zeta.
  apply (safe_bind _ _ (λ _, True)); [by apply safe_gets|]. intros cfg _.
  apply (safe_bind _ _ (λ _, True)).
  { intros self Hs. rewrite check_single_run by (by eexists). done. }
  intros v _. destruct (_ || _); [apply safe_modify, flush_updated|].
  destruct (is_outdated v); [by apply safe_ret|]. apply safe_modify. intros self Hs.
  apply set_batches_updated; [|done]. apply Forall_app. split; [by destruct Hs as ((_ & ?) & _)|].
  repeat constructor. by eexists.
Qed.

Lemma queue_load_safe behind parent o :
  safe (updated parent o behind) batch_queue_err (λ _, True)
    (load_batch (P:=P) (F:=F) behind parent).
Proof.
  apply (safe_bind _ _ (λ _, True)); [by apply safe_gets|]. intros l1 _.
  apply (safe_catch _ _ is_single batch_queue_err).
  - apply (safe_zoom _ _ (λ p, st_inv p ∧ origin p = Some o) st_err); [apply nb_next_batch_safe| | |].
    + by intros s ((? & _) & ? & _).
    + intros s t ((_ & Hb) & _ & Hq & Hl) [Ht Hto]. done.
    + intros e He. by left.
  - intros b [sb ->]. destruct behind; cbn [negb]; [by apply safe_ret|].
    apply (safe_catch _ _ (λ _, True) batch_queue_err); [apply add_batch_safe|..];
      intros; by apply safe_ret.
  - intros e He. destruct (is_temp_eof e); [by apply safe_ret|by apply safe_fail].
Qed.

Lemma next_uncached_safe parent o :
  safe (queue_at parent (Some o)) batch_queue_err
    (λ b, sb_parent_hash b = bi_hash (l2_block_info parent)) (next_uncached (P:=P) (F:=F) parent).
Proof.
  intros self Hs. apply advance_epoch_at in Hs. unfold next_uncached. rewrite bind_run.
  unfold modify at 1. rewrite bind_run. unfold gets at 1. set (s1 := advance_epoch parent self) in *.
  clearbody s1. rewrite bind_run. destruct (update_origin_run parent o s1 Hs) as (s2 & -> & Hs2).
  set (behind := origin_behind parent s1) in *. clearbody behind. clear Hs s1 self.
  assert (∀ b : bool, batch_queue_err (if b then temp Eof else temp NotEnoughData)) as Hex.
  { intros []; [right; by left|do 2 right; by left]. }
  match goal with |- match ?m s2 with _ => _ end =>
    assert (safe (updated parent o behind) batch_queue_err
              (λ b, sb_parent_hash b = bi_hash (l2_block_info parent)) m) as Hm end.
  { apply (safe_bind _ _ (λ _, True)); [apply queue_load_safe|]. intros out _. cbv zeta.
    destruct behind; [by apply safe_fail|].
    apply (safe_bind _ _ (based parent)).
    - apply (safe_catch _ _ (based parent) batch_queue_err); [apply derive_safe| |].
      + intros b Hb. by apply safe_ret.
      + intros e He. destruct (is_temp_eof e); by apply safe_fail.
    - intros b (sb & -> & Hb). by apply safe_ret. }
  specialize (Hm s2 Hs2). match goal with |- match ?m s2 with _ => _ end =>
    destruct (m s2) as [[a|e|] s3] end; [..|done];
    destruct Hm as [Ha Hs3]; (split; [done|]); by eapply updated_at.
Qed.

Lemma queue_next_safe parent o :
  safe (queue_at parent (Some o)) batch_queue_err
    (λ b, sb_parent_hash b = bi_hash (l2_block_info parent)) (next_batch (P:=P) (F:=F) parent).
Proof.
  intros self Hs. unfold next_batch. rewrite bind_run. unfold gets at 1. rewrite bind_run.
  unfold gets at 1. destruct (bq_next_spans self) as [|b bs] eqn:Hb; [by apply next_uncached_safe|].
  destruct (decide _).
  - rewrite bind_run. unfold pop_next_batch. rewrite Hb. done.
  - rewrite bind_run. unfold modify at 1. by apply next_uncached_safe.
Qed.

#[export] Program Instance batch_queue_stage_laws : StageLaws (BatchQueue P F) :=
  {| st_inv := batch_queue_inv; st_err := batch_queue_err |}.
Next Obligation. intros self (Hp & _). by apply (st_origin (bq_prev self)). Qed.
Next Obligation.
  apply (safe_zoom _ _ st_inv st_err); [apply st_advance|by intros s [Hs _]| |by left].
  intros s t [_ Hs] Ht. by split.
Qed.
Next Obligation.
  intros sg Hsg.
  assert (safe batch_queue_inv batch_queue_err (λ _, True)
            (zoom bq_prev set_prev (signal sg) : PipelineM (BatchQueue P F) unit)) as Hz.
  { apply (safe_zoom _ _ st_inv st_err); [by apply st_signal|by intros s [Hs _]| |by left].
    intros s t [_ Hs] Ht. by split. }
  destruct sg as [r|a|]; (apply (safe_bind _ _ (λ _, True)); [exact Hz|]; intros _ _);
    repeat (first [apply (safe_bind _ _ (λ _, True)); [|intros _ _] | apply safe_modify]);
    intros s [Hp Hb]; by repeat constructor.
Qed.

Lemma ready_kept parent (m : PipelineM (BatchQueue P F) unit) :
  safe batch_queue_inv batch_queue_err (λ _, True) m →
  (∀ s, batch_queue_ready s parent → batch_queue_ready (m s).2 parent) →
  safe (λ s, batch_queue_inv s ∧ batch_queue_ready s parent) batch_queue_err (λ _, True) m.
Proof.
  intros Hm Hr s [Hi Hs]. specialize (Hm s Hi). specialize (Hr s Hs).
  destruct (m s) as [[a|e|] s']; naive_solver.
Qed.

#[export] Program Instance batch_queue_laws : AttributesProviderLaws (BatchQueue P F) :=
  {| ap_ready := batch_queue_ready |}.
Next Obligation.
  intros parent mo self (Hi & Hr & Ho). destruct (st_origin (bq_prev self)) as [o Hos]; [apply Hi|].
  assert (mo = Some o) as -> by (rewrite <- Ho; exact Hos).
  exact (queue_next_safe parent o self (conj Hi (conj Hr Hos))).
Qed.
Next Obligation. intros self p1 p2 Hr Hle Hl o Ho. specialize (Hr Hl o Ho). lia. Qed.
Next Obligation.
  intros parent. apply ready_kept; [exact (@st_advance _ _ batch_queue_stage_laws)|].
  intros s Hs. change (advance_origin s) with (zoom bq_prev set_prev advance_origin s).
  unfold zoom. destruct (advance_origin (bq_prev s)) as [r p]. exact Hs.
Qed.
Next Obligation.
  intros parent sg Hsg. apply ready_kept; [exact (@st_signal _ _ batch_queue_stage_laws sg Hsg)|].
  intros s Hs. change (signal sg s) with (signal_ sg s). unfold signal_, zoom.
  destruct sg as [r|a|]; rewrite bind_run;
    by destruct (signal _ (bq_prev s)) as [[u|e|] p].
Qed.
End laws.

(** Over any previous stage that obeys its interface, a queue ready for the parent
    never panics: [next_batch] answers a batch on that parent, or raises the previous
    stage's errors, [Eof], [NotEnoughData] or an L1 origin mismatch, never a critical
    error of its own; the invariant, the readiness and the origin are kept. *)
Theorem queue_next_batch_safe {P F : Type} `{!Stage P} `{!StageLaws P} `{!NextBatchProvider P}
    `{!NextBatchLaws P} `{!L2ChainProvider F} (parent : L2BlockInfo) (self : BatchQueue P F) :
  batch_queue_inv self → batch_queue_ready self parent →
  match next_batch parent self with
  | (Ok b, self') => sb_parent_hash b = bi_hash (l2_block_info parent)
      ∧ batch_queue_inv self' ∧ batch_queue_ready self' parent ∧ origin self' = origin self
  | (Err e, self') => batch_queue_err (P:=P) e
      ∧ batch_queue_inv self' ∧ batch_queue_ready self' parent ∧ origin self' = origin self
  | (Panic, _) => False
  end.
Proof.
  intros Hi Hr. exact (ap_next_batch_safe (P:=BatchQueue P F) parent (origin self) self
                         (conj Hi (conj Hr eq_refl))).
Qed.

(** ** Witnesses *)

Definition example_queue_parent : L2BlockInfo :=
  mkL2BlockInfo (mkBlockInfo (be_bytes 32 77) 5 B256_ZERO 1100) (bi_id (example_l1 3)) 0.
Definition example_late : SingleBatch := mkSingleBatch (be_bytes 32 77) 3 (be_bytes 32 3) 900 [].

(** A queue at origin 9 that holds a past batch and an acceptable one. *)
Definition example_queue (bs : list SingleBatch) : BatchQueue (Replay SingleBatch) unit :=
  mkBatchQueue example_stream_config (mkReplay (example_l1 9) []) (Some (example_l1 9))
    [example_l1 3; example_l1 4; example_l1 5]
    ((λ b, mkBatchWithInclusionBlock (example_l1 9) (Single b)) <$> bs) [] tt.

Lemma derive_next_batch_spec_witness :
  derive_next_batch true example_queue_parent (example_queue [example_late; example_batch])
  = (Ok (Single example_batch), example_queue []).
Proof.
  etrans.
  - apply (derive_next_batch_spec true example_queue_parent (example_queue [example_late; example_batch])
             (example_l1 3) [example_l1 4; example_l1 5] (example_l1 9)
             [mkBatchWithInclusionBlock (example_l1 9) (Single example_late)]
             [mkBatchWithInclusionBlock (example_l1 9) (Single example_batch)]).
    + reflexivity.
    + reflexivity.
    + right; left. vm_compute. reflexivity.
    + reflexivity.
    + constructor; [by eexists|]. constructor; [by eexists|constructor].
    + constructor; [|constructor]. right; right. vm_compute. reflexivity.
    + intros b [= <-] [H|[H|H]]; vm_compute in H; discriminate.
  - vm_compute. reflexivity.
Defined.

Definition example_short_window : SoonRollupConfig :=
  {| cfg_l1_chain_id := 1; cfg_max_sequencer_drift := 1800; cfg_seq_window_size := 3;
     cfg_channel_timeout := 1800; cfg_batch_inbox_address := []; cfg_optimism_portal_address := [];
     cfg_l1_system_config_address := []; cfg_l1_standard_bridge := [];
     cfg_l1_cross_domain_messenger := []; cfg_derive_delay_l1_block_num := 0;
     cfg_max_frame_size := 1000; cfg_channel_size := 1000; cfg_block_time := 2;
     cfg_shred_version := None; cfg_genesis_hash := None; cfg_upgrade_schedules := ∅;
     cfg_sequencer_schedules := [] |}.

Definition example_expired : BatchQueue (Replay SingleBatch) unit :=
  mkBatchQueue example_short_window (mkReplay (example_l1 9) []) (Some (example_l1 9))
    [example_l1 3; example_l1 4; example_l1 5] [] [] tt.

Lemma expired_epoch_filled_witness :
  let self' := set_l1_blocks [example_l1 4; example_l1 5] example_expired in
  derive_next_batch false example_queue_parent example_expired = (Err (temp Eof), self')
  ∧ derive_next_batch false example_queue_parent self'
    = (Ok (Single (mkSingleBatch (be_bytes 32 77) 4 (be_bytes 32 4) 1102 [])), self').
Proof.
  pose proof (expired_epoch_filled false example_queue_parent example_expired (example_l1 3)
                (example_l1 4) (example_l1 5) [] (example_l1 9)) as H.
  cbv zeta in H. rewrite decide_False in H by (vm_compute; congruence).
  apply H; try reflexivity; vm_compute; try split; congruence.
Defined.

Lemma queue_next_batch_safe_witness :
  match next_batch example_queue_parent (example_queue [example_late; example_batch]) with
  | (Ok b, self') => sb_parent_hash b = bi_hash (l2_block_info example_queue_parent)
      ∧ batch_queue_inv self' ∧ batch_queue_ready self' example_queue_parent
      ∧ origin self' = origin (example_queue [example_late; example_batch])
  | (Err e, self') => batch_queue_err (P:=Replay SingleBatch) e
      ∧ batch_queue_inv self' ∧ batch_queue_ready self' example_queue_parent
      ∧ origin self' = origin (example_queue [example_late; example_batch])
  | (Panic, _) => False
  end.
Proof.
  assert (batch_queue_inv (example_queue [example_late; example_batch])) as Hi.
  { split; [repeat constructor|]. constructor; [by eexists|]. constructor; [by eexists|constructor]. }
  exact (queue_next_batch_safe example_queue_parent (example_queue [example_late; example_batch]) Hi
           (λ H, ltac:(discriminate H))).
Defined.

(** A queue that was cleared while behind and is then asked for an earlier parent at the
    same origin panics when it receives a batch. *)
Example queue_moved_back_panics :
  let parent n := mkL2BlockInfo (mkBlockInfo (be_bytes 32 77) 5 B256_ZERO 1100) (bi_id (example_l1 n)) 0 in
  let self := new example_stream_config (mkReplay (example_l1 9) [example_batch; example_batch]) tt in
  let '(r1, self1) := next_batch (parent 20) self in
  r1 = Err (temp NotEnoughData) ∧ run (next_batch (parent 3)) self1 = Panic.
Proof. vm_compute. by split. Qed.
