(* ===== verification/BatchValidator.v ===== *)
(** The batch validator stage (src/crates/derive/src/stages/batch/batch_validator.rs).

    [update_origins_window] shows that the window of L1 blocks follows the pipeline's
    origin; [validator_next_batch_safe] is the stage's contract. *)
From S2P Require Import Prelude Blocks SystemConfig Types SingleBatch SpanBatch Batch BatchStream BatchQueue.
#[local] Open Scope Z_scope.

Record BatchValidator (P : Type) := mkBatchValidator {
  bv_cfg : SoonRollupConfig;
  bv_prev : P;
  bv_origin : option BlockInfo;
  bv_l1_blocks : list BlockInfo;
}.
Arguments mkBatchValidator {P}.
Arguments bv_cfg {P}.
Arguments bv_prev {P}.
Arguments bv_origin {P}.
Arguments bv_l1_blocks {P}.

Definition set_prev {P : Type} (p : P) (self : BatchValidator P) : BatchValidator P :=
  mkBatchValidator (bv_cfg self) p (bv_origin self) (bv_l1_blocks self).
Definition set_origin {P : Type} (o : option BlockInfo) (self : BatchValidator P) : BatchValidator P :=
  mkBatchValidator (bv_cfg self) (bv_prev self) o (bv_l1_blocks self).
Definition set_l1_blocks {P : Type} (l : list BlockInfo) (self : BatchValidator P) : BatchValidator P :=
  mkBatchValidator (bv_cfg self) (bv_prev self) (bv_origin self) l.

(** * Operations *)

Definition new {P : Type} (cfg : SoonRollupConfig) (prev : P) : BatchValidator P :=
  mkBatchValidator cfg prev None [].

(** The drain of the L1 blocks before the parent's L1 origin. *)
Definition drain_l1_blocks (parent_origin : Z) (l1_blocks : list BlockInfo) : list BlockInfo :=
  match l1_blocks with
  | [] => []
  | first :: _ =>
      if decide (parent_origin > bi_number first) then
        match list_find (λ block, bi_number block = parent_origin) l1_blocks with
        | Some (i, _) => drop i l1_blocks
        | None => l1_blocks
        end
      else l1_blocks
  end.

Section batch_validator.
Context {P : Type} `{!Stage P} `{!NextBatchProvider P}.
Implicit Types self : BatchValidator P.

#[export] Instance batch_validator_origin : OriginProvider (BatchValidator P) :=
  λ self, origin (bv_prev self).

Definition origin_behind (parent : L2BlockInfo) (self : BatchValidator P) : bool :=
  match origin (bv_prev self) with
  | None => true
  | Some o => bool_decide (bi_number o < bnh_number (l2_l1_origin parent))
  end.

(** The first half of [update_origins]: the stage's origin follows the pipeline's. *)
Definition sync_origin (parent : L2BlockInfo) : PipelineM (BatchValidator P) unit := λ self,
  let behind := origin_behind parent self in
  if decide (bv_origin self = origin (bv_prev self)) then (Ok tt, self)
  else
    let self := set_origin (origin (bv_prev self)) self in
    if negb behind then
      match bv_origin self with
      | None => (Err (crit MissingOrigin), self)
      | Some o => (Ok tt, set_l1_blocks (bv_l1_blocks self ++ [o]) self)
      end
    else (Ok tt, set_l1_blocks [] self).

Definition update_origins (parent : L2BlockInfo) : PipelineM (BatchValidator P) unit :=
  _ ← sync_origin parent;
  modify (λ self,
    set_l1_blocks (drain_l1_blocks (bnh_number (l2_l1_origin parent)) (bv_l1_blocks self)) self).

Definition try_derive_empty_batch (parent : L2BlockInfo) : PipelineM (BatchValidator P) SingleBatch :=
  λ self,
  match bv_l1_blocks self with
  | [] => (Panic, self)
  | epoch :: blocks =>
      match bv_origin self with
      | None => (Err (crit MissingOrigin), self)
      | Some stage_origin =>
          let expiry_epoch := u64_add (bi_number epoch) (cfg_seq_window_size (bv_cfg self)) in
          let first_of_epoch :=
            bool_decide (bi_number epoch = u64_add (bnh_number (l2_l1_origin parent)) 1) in
          let next_timestamp := u64_add (bi_timestamp epoch) (cfg_block_time (bv_cfg self)) in
          if negb (bool_decide (expiry_epoch <= bi_number stage_origin)) then (Err (temp Eof), self)
          else
            match blocks with
            | [] => (Err (temp Eof), self)
            | next_epoch :: _ =>
                if bool_decide (next_timestamp < bi_timestamp next_epoch) || first_of_epoch then
                  (Ok (mkSingleBatch (bi_hash (l2_block_info parent)) (bi_number epoch)
                         (bi_hash epoch) next_timestamp []), self)
                else (Err (temp Eof), set_l1_blocks blocks self)
            end
      end
  end.

(** The verdict on a single batch, pulled at [stage_origin]. *)
Definition validate (next_batch : SingleBatch) (parent : L2BlockInfo) (stage_origin : BlockInfo)
    : PipelineM (BatchValidator P) SingleBatch :=
  cfg ← gets bv_cfg;
  l1_blocks ← gets bv_l1_blocks;
  match SingleBatch.check_batch next_batch cfg l1_blocks parent stage_origin with
  | Accept => mret next_batch
  | Past => fail (temp NotEnoughData)
  | Drop =>
      _ ← modify (λ self, set_prev (nb_flush (bv_prev self)) self);
      fail (temp NotEnoughData)
  | Undecided => fail (temp NotEnoughData)
  | Future => fail (crit InvalidBatchValidity)
  end.

(** [next_batch] once the origin is ahead of the parent's. *)
Definition pull_next (parent : L2BlockInfo) (stage_origin epoch : BlockInfo)
    : PipelineM (BatchValidator P) SingleBatch :=
  let before := u64_sub (bi_number epoch) 1 in
  let l1_origin := l2_l1_origin parent in
  if bool_decide (l1_origin ≠ bi_id epoch) && bool_decide (bnh_number l1_origin ≠ before)
  then fail (ResetKind (L1OriginMismatch (bnh_number l1_origin) before))
  else
    l1_blocks ← gets bv_l1_blocks;
    catch (zoom bv_prev set_prev (nb_next_batch parent l1_blocks)) (λ r,
      match r with
      | Ok (Single next_batch) => validate next_batch parent stage_origin
      | Ok (Span _) => fail (crit InvalidBatchType)
      | Err e => if is_temp_eof e then try_derive_empty_batch parent else fail e
      | Panic => panic
      end).

Definition next_batch (parent : L2BlockInfo) : PipelineM (BatchValidator P) SingleBatch :=
  _ ← update_origins parent;
  o ← gets bv_origin;
  stage_origin ← lift (ok_or o (crit MissingOrigin));
  behind ← gets (origin_behind parent);
  l1_blocks ← gets bv_l1_blocks;
  if behind || bool_decide (bnh_number (l2_l1_origin parent) = bi_number stage_origin) then
    _ ← zoom bv_prev set_prev (nb_next_batch parent l1_blocks);
    fail (temp NotEnoughData)
  else
    match l1_blocks with
    | epoch :: _ :: _ => pull_next parent stage_origin epoch
    | _ => fail (crit MissingOrigin)
    end.

#[export] Instance batch_validator_provider : AttributesProvider (BatchValidator P) :=
  {| ap_next_batch := next_batch;
     ap_is_last_in_span self := bool_decide (nb_span_buffer_size (bv_prev self) = 0) |}.

#[export] Instance batch_validator_advancer : OriginAdvancer (BatchValidator P) :=
  zoom bv_prev set_prev advance_origin.

Definition signal_ (s : Signal) : PipelineM (BatchValidator P) unit :=
  match s with
  | Reset r =>
      _ ← zoom bv_prev set_prev (signal s);
      _ ← modify (set_origin (Some (rs_l1_origin r)));
      modify (set_l1_blocks [rs_l1_origin r])
  | Activation _ | FlushChannel => zoom bv_prev set_prev (signal s)
  end.
#[export] Instance batch_validator_signal : SignalReceiver (BatchValidator P) := signal_.

#[export] Instance batch_validator_stage : Stage (BatchValidator P) := {}.
End batch_validator.

(** * The window of L1 blocks *)

(** Consecutive L1 blocks ending at [o]. *)
Definition window (l : list BlockInfo) (o : BlockInfo) : Prop :=
  (∃ n0, consecutive n0 l) ∧ last l = Some o.

Lemma window_head l o : window l o → ∃ b bl, l = b :: bl ∧ bi_number o = bi_number b + len bl.
Proof.
  intros [[n0 Hc] Hl]. destruct l as [|b bl]; [done|]. exists b, bl. split; [done|].
  rewrite last_lookup in Hl. apply Hc in Hl. pose proof (Hc 0%nat b eq_refl). unfold len.
  cbn [length pred] in *. lia.
Qed.

Lemma window_snoc l o o' : window l o → bi_number o' = bi_number o + 1 → window (l ++ [o']) o'.
Proof.
  intros [[n0 Hc] Hl] Ho. split; [|by apply last_snoc]. exists n0. intros k b Hk.
  apply lookup_app_Some in Hk as [Hk|[Hge Hk]]; [by apply Hc|].
  apply list_lookup_singleton_Some in Hk as [Hk <-]. rewrite last_lookup in Hl. apply Hc in Hl as Hn.
  apply lookup_lt_Some in Hl. lia.
Qed.

Lemma drain_window n l o b :
  window l o → head l = Some b → bi_number b <= n <= bi_number o →
  window (drain_l1_blocks n l) o ∧ bi_number <$> head (drain_l1_blocks n l) = Some n.
Proof.
  intros Hw Hh Hn. destruct (window_head l o Hw) as (b0 & bl & -> & Hlen). injection Hh as ->.
  unfold drain_l1_blocks. destruct (decide (n > bi_number b)) as [Hgt|Hle].
  2: { split; [done|]. cbn. f_equal. lia. }
  destruct Hw as [[n0 Hc] Hl]. pose proof (Hc 0%nat b eq_refl) as Hb.
  rewrite (find_number n0) by done. rewrite decide_True by lia.
  destruct (lookup_lt_is_Some_2 (b :: bl) (Z.to_nat (n - n0))) as [x Hx].
  { unfold len in Hlen. cbn. lia. }
  rewrite Hx. cbn [fmap option_fmap option_map]. split.
  - split; [exists (n0 + Z.of_nat (Z.to_nat (n - n0))); by apply consecutive_drop|].
    apply lookup_lt_Some in Hx. rewrite last_lookup, lookup_drop, length_drop. rewrite last_lookup in Hl.
    rewrite <- Hl. f_equal. lia.
  - rewrite head_lookup, lookup_drop, Nat.add_0_r, Hx. cbn. f_equal. specialize (Hc _ _ Hx). lia.
Qed.

(** The window of L1 blocks follows the origin: when the stage holds the consecutive L1
    blocks up to its origin and the pipeline is at that origin or has advanced by one
    block, [update_origins] succeeds, its window ends at the pipeline's origin and, for a
    parent whose L1 origin lies in it, starts at the parent's L1 origin. *)
Theorem update_origins_window {P : Type} `{!Stage P} (parent : L2BlockInfo) (self : BatchValidator P)
    b bl o0 o :
  bv_l1_blocks self = b :: bl → window (bv_l1_blocks self) o0 → bv_origin self = Some o0 →
  origin self = Some o → o = o0 ∨ bi_number o = bi_number o0 + 1 →
  bi_number b <= bnh_number (l2_l1_origin parent) <= bi_number o →
  ∃ self', update_origins parent self = (Ok tt, self')
  ∧ bv_prev self' = bv_prev self ∧ bv_cfg self' = bv_cfg self
  ∧ bv_origin self' = Some o ∧ window (bv_l1_blocks self') o
  ∧ bi_number <$> head (bv_l1_blocks self') = Some (bnh_number (l2_l1_origin parent)).
Proof.
  intros Hl Hw Ho0 Ho Hadv Hp. unfold update_origins. rewrite bind_run. unfold sync_origin, origin_behind.
  change (origin (bv_prev self)) with (origin self). rewrite Ho, Ho0.
  destruct (decide (Some o0 = Some o)) as [[= <-]|Hne].
  - eexists. split; [done|]. do 2 (split; [done|]). split; [exact Ho0|].
    apply (drain_window _ _ _ b); [done|by rewrite Hl|done].
  - destruct Hadv as [->|Hadv]; [done|]. rewrite bool_decide_eq_false_2 by lia. cbn [negb set_origin bv_origin].
    eexists. split; [done|]. do 3 (split; [done|]).
    apply (drain_window _ _ _ b); [by apply (window_snoc _ o0)|cbn; by rewrite Hl|done].
Qed.

(** * The interface, implemented *)

Section laws.
Context {P : Type} `{!Stage P} `{!StageLaws P} `{!NextBatchProvider P} `{!NextBatchLaws P}.
Implicit Types self : BatchValidator P.

Definition batch_validator_inv (self : BatchValidator P) : Prop := st_inv (bv_prev self).
Definition batch_validator_err (e : PipelineErrorKind) : Prop :=
  st_err (P:=P) e ∨ e = temp Eof ∨ e = temp NotEnoughData ∨ e = crit MissingOrigin
  ∨ e = crit InvalidBatchValidity ∨ ∃ a b, e = ResetKind (L1OriginMismatch a b).

Definition validator_at (o : option BlockInfo) (self : BatchValidator P) : Prop :=
  batch_validator_inv self ∧ origin self = o.

Lemma update_origins_safe parent o :
  safe (validator_at o) batch_validator_err (λ _, True) (update_origins (P:=P) parent).
Proof.
  apply (safe_bind _ _ (λ _, True)).
  - intros self [Hi Ho]. unfold sync_origin. destruct (decide _); [done|].
    destruct (negb _); [|done]. cbn [set_origin bv_origin].
    destruct (st_origin (bv_prev self) Hi) as [x Hx]. rewrite Hx. done.
  - intros _ _. by apply safe_modify.
Qed.

Lemma validator_flush_at o self :
  validator_at o self → validator_at o (set_prev (nb_flush (bv_prev self)) self).
Proof.
  intros [Hi Ho]. apply nb_flush_inv in Hi as [Hp Hpo]. split; [done|]. etrans; [exact Hpo|exact Ho].
Qed.

Definition on_parent (parent : L2BlockInfo) (b : SingleBatch) : Prop :=
  sb_parent_hash b = bi_hash (l2_block_info parent).

Lemma empty_batch_run parent self :
  bv_l1_blocks self ≠ [] →
  match try_derive_empty_batch parent self with
  | (Ok b, self') => on_parent parent b ∧ bv_prev self' = bv_prev self
  | (Err e, self') => batch_validator_err e ∧ bv_prev self' = bv_prev self
  | (Panic, _) => False
  end.
Proof.
  intros Hl. unfold try_derive_empty_batch. destruct (bv_l1_blocks self) as [|e bl]; [done|].
  destruct (bv_origin self) as [o|]; [|split; [by do 3 right; left|done]].
  assert (batch_validator_err (temp Eof)) by (right; by left).
  cbv zeta. destruct (negb _); [done|]. destruct bl as [|n bl]; [done|]. by destruct (_ || _).
Qed.

Lemma validate_safe sb parent so o :
  safe (validator_at o) batch_validator_err (on_parent parent) (validate (P:=P) sb parent so).
Proof.
  intros self Hs. unfold validate. rewrite bind_run. unfold gets at 1. rewrite bind_run. unfold gets at 1.
  destruct (SingleBatch.check_batch _ _ _ _ _) eqn:Hv; cbn.
  - split; [by do 2 right; left|by apply validator_flush_at].
  - split; [by eapply accept_parent_hash|done].
  - split; [by do 2 right; left|done].
  - split; [by do 4 right; left|done].
  - split; [by do 2 right; left|done].
Qed.

Lemma pull_prev_safe parent l1 o :
  safe (λ s, validator_at o s ∧ bv_l1_blocks s = l1) batch_validator_err is_single
    (zoom bv_prev set_prev (nb_next_batch parent l1) : PipelineM (BatchValidator P) Batch).
Proof.
  apply (safe_zoom _ _ (λ p, st_inv p ∧ origin p = o) st_err); [apply nb_next_batch_safe| | |by left].
  - by intros s [[Hp Ho] _].
  - by intros s t [_ Hl] [Ht Hto].
Qed.

Lemma pull_next_safe parent so epoch o self :
  validator_at o self → bv_l1_blocks self ≠ [] →
  match pull_next parent so epoch self with
  | (Ok b, self') => on_parent parent b ∧ validator_at o self'
  | (Err e, self') => batch_validator_err e ∧ validator_at o self'
  | (Panic, _) => False
  end.
Proof.
  intros Hs Hl. unfold pull_next. cbv zeta. destruct (_ && _).
  { split; [do 5 right; by eexists _, _|done]. }
  rewrite bind_run. unfold gets at 1. unfold catch.
  pose proof (pull_prev_safe parent (bv_l1_blocks self) o self (conj Hs eq_refl)) as Hz.
  destruct (zoom _ _ _ self) as [[b|e|] s1]; [..|done]; destruct Hz as [Hr [Hs1 Hl1]].
  - destruct Hr as [sb ->]. by apply validate_safe.
  - destruct (is_temp_eof e); [|by split]. pose proof (empty_batch_run parent s1) as He.
    rewrite Hl1 in He. specialize (He Hl). unfold validator_at, batch_validator_inv in *.
    destruct (try_derive_empty_batch parent s1) as [[b|e'|] s2]; [..|done]; destruct He as [Hb Hp];
      (split; [done|]); change (origin s2) with (origin (bv_prev s2)); by rewrite Hp.
Qed.

Lemma validator_next_safe parent o :
  safe (validator_at o) batch_validator_err (on_parent parent) (next_batch (P:=P) parent).
Proof.
  apply (safe_bind _ _ (λ _, True)); [apply update_origins_safe|]. intros _ _.
  apply (safe_bind _ _ (λ _, True)); [by apply safe_gets|]. intros mo _.
  apply (safe_bind _ _ (λ _, True)).
  { apply safe_lift. destruct mo; [done|]. by do 3 right; left. }
  intros so _. apply (safe_bind _ _ (λ _, True)); [by apply safe_gets|]. intros behind _.
  intros self Hs. rewrite bind_run. unfold gets at 1. destruct (_ || _).
  - rewrite bind_run. pose proof (pull_prev_safe parent (bv_l1_blocks self) o self (conj Hs eq_refl)) as Hz.
    destruct (zoom _ _ _ self) as [[b|e|] s1]; [..|done]; destruct Hz as [Hr [Hs1 _]]; [|done].
    split; [by do 2 right; left|done].
  - assert (batch_validator_err (crit MissingOrigin)) by (by do 3 right; left).
    destruct (bv_l1_blocks self) as [|b1 [|b2 bl]] eqn:Hl; [done..|].
    apply pull_next_safe; [done|by rewrite Hl].
Qed.

#[export] Program Instance batch_validator_stage_laws : StageLaws (BatchValidator P) :=
  {| st_inv := batch_validator_inv; st_err := batch_validator_err |}.
Next Obligation. intros self Hp. by apply (st_origin (bv_prev self)). Qed.
Next Obligation.
  apply (safe_zoom _ _ st_inv st_err); [apply st_advance|done| |by left]. by intros s t _ Ht.
Qed.
Next Obligation.
  intros sg Hsg.
  assert (safe batch_validator_inv batch_validator_err (λ _, True)
            (zoom bv_prev set_prev (signal sg) : PipelineM (BatchValidator P) unit)) as Hz.
  { apply (safe_zoom _ _ st_inv st_err); [by apply st_signal|done| |by left]. by intros s t _ Ht. }
  destruct sg as [r|a|]; [|exact Hz..]. apply (safe_bind _ _ (λ _, True)); [exact Hz|]. intros _ _.
  apply (safe_bind _ _ (λ _, True)); [by apply safe_modify|]. intros _ _. by apply safe_modify.
Qed.

#[export] Program Instance batch_validator_laws : AttributesProviderLaws (BatchValidator P) :=
  {| ap_ready _ _ := True |}.
Next Obligation.
  intros parent mo self (Hi & _ & Ho). pose proof (validator_next_safe parent mo self (conj Hi Ho)) as H.
  change (ap_next_batch parent self) with (next_batch parent self).
  destruct (next_batch parent self) as [[b|e|] s1]; [..|done]; by destruct H as (Hr & Hs1 & Ho1).
Qed.
Next Obligation. done. Qed.
Next Obligation.
  intros parent self [Hi _]. pose proof (@st_advance _ _ batch_validator_stage_laws self Hi) as H.
  destruct (advance_origin self) as [[b|e|] s1]; [..|done]; by destruct H.
Qed.
Next Obligation.
  intros parent sg Hsg self [Hi _]. pose proof (@st_signal _ _ batch_validator_stage_laws sg Hsg self Hi) as H.
  destruct (signal sg self) as [[b|e|] s1]; [..|done]; by destruct H.
Qed.
End laws.

(** Over any previous stage that obeys its interface, the validator never panics:
    [next_batch] answers a batch on the given parent, or raises the previous stage's
    errors, [Eof], [NotEnoughData], a missing or mismatched origin, or a batch validity
    error, and it keeps its invariant and origin. *)
Theorem validator_next_batch_safe {P : Type} `{!Stage P} `{!StageLaws P} `{!NextBatchProvider P}
    `{!NextBatchLaws P} (parent : L2BlockInfo) (self : BatchValidator P) :
  batch_validator_inv self →
  match next_batch parent self with
  | (Ok b, self') => on_parent parent b ∧ batch_validator_inv self' ∧ origin self' = origin self
  | (Err e, self') => batch_validator_err (P:=P) e ∧ batch_validator_inv self' ∧ origin self' = origin self
  | (Panic, _) => False
  end.
Proof. intros Hi. exact (validator_next_safe parent (origin self) self (conj Hi eq_refl)). Qed.

(** ** Witnesses *)

Definition example_validator (o : Z) (l1_blocks : list Z) (items : list SingleBatch)
    : BatchValidator (Replay SingleBatch) :=
  mkBatchValidator example_short_window (mkReplay (example_l1 o) items) (Some (example_l1 9))
    (example_l1 <$> l1_blocks).

Lemma update_origins_window_witness :
  ∃ self', update_origins example_head (example_validator 10 [2; 3; 4; 5; 6; 7; 8; 9] []) = (Ok tt, self')
  ∧ bv_prev self' = mkReplay (example_l1 10) [] ∧ bv_cfg self' = example_short_window
  ∧ bv_origin self' = Some (example_l1 10) ∧ window (bv_l1_blocks self') (example_l1 10)
  ∧ bi_number <$> head (bv_l1_blocks self') = Some 3.
Proof.
  apply (update_origins_window example_head (example_validator 10 [2; 3; 4; 5; 6; 7; 8; 9] [])
           (example_l1 2) (example_l1 <$> [3; 4; 5; 6; 7; 8; 9]) (example_l1 9)).
  - reflexivity.
  - split; [|reflexivity]. exists 2. intros k b Hk. vm_compute in Hk.
    do 8 (destruct k as [|k]; [injection Hk as <-; reflexivity|]). discriminate.
  - reflexivity.
  - reflexivity.
  - right. reflexivity.
  - vm_compute. split; discriminate.
Defined.

Lemma validator_next_batch_safe_witness :
  match next_batch example_head (example_validator 9 [3; 4; 5; 6; 7; 8; 9] [example_batch]) with
  | (Ok b, self') => on_parent example_head b ∧ batch_validator_inv self'
      ∧ origin self' = Some (example_l1 9)
  | (Err e, self') => batch_validator_err (P:=Replay SingleBatch) e ∧ batch_validator_inv self'
      ∧ origin self' = Some (example_l1 9)
  | (Panic, _) => False
  end.
Proof.
  assert (batch_validator_inv (example_validator 9 [3; 4; 5; 6; 7; 8; 9] [example_batch])) as Hi
    by repeat constructor.
  exact (validator_next_batch_safe example_head _ Hi).
Defined.

(** The timestamp of an empty batch is counted from the epoch, not from the parent: it may
    precede the parent's. *)
Example empty_batch_before_parent :
  ∃ b, run (next_batch example_head) (example_validator 9 [3; 4; 5; 6; 7; 8; 9] []) = Ok b
  ∧ sb_timestamp b < bi_timestamp (l2_block_info example_head).
Proof. eexists. vm_compute. split; reflexivity. Qed.
