(* ===== verification/AttributesQueue.v ===== *)
(** The attributes queue stage (src/crates/derive/src/stages/attributes_queue.rs,
    traits/attributes.rs, primitives/src/derive.rs).

    The queue turns the batch it holds into payload attributes; a batch is only given up
    once its attributes have been built ([next_attributes_spec]). *)
From S2P Require Import Prelude Blocks SystemConfig Types SingleBatch SpanBatch Batch BatchStream BatchQueue.
#[local] Open Scope Z_scope.

(** * Data *)

(** op-alloy's payload attributes. *)
Record OpPayloadAttributes := mkOpPayloadAttributes {
  pa_timestamp : Z;
  pa_prev_randao : B256;
  pa_suggested_fee_recipient : Address;
  pa_parent_beacon_block_root : option B256;
  pa_transactions : option (list bytes);
  pa_no_tx_pool : option bool;
  pa_gas_limit : option Z;
  pa_eip_1559_params : option bytes;
}.

Record OpAttributesWithParent := mkOpAttributesWithParent {
  awp_attributes : OpPayloadAttributes;
  awp_parent : L2BlockInfo;
  awp_is_last_in_span : bool;
}.

#[global] Instance op_payload_attributes_eq_dec : EqDecision OpPayloadAttributes.
Proof. solve_decision. Defined.
#[global] Instance op_attributes_with_parent_eq_dec : EqDecision OpAttributesWithParent.
Proof. solve_decision. Defined.

(** * Interfaces *)

Class AttributesBuilder (AB : Type) :=
  prepare_payload_attributes : L2BlockInfo → BlockNumHash → PipelineM AB OpPayloadAttributes.

Class NextAttributes (S : Type) := na_next_attributes : L2BlockInfo → PipelineM S OpAttributesWithParent.

Record AttributesQueue (P AB : Type) := mkAttributesQueue {
  aq_cfg : SoonRollupConfig;
  aq_prev : P;
  aq_is_last_in_span : bool;
  aq_batch : option SingleBatch;
  aq_builder : AB;
}.
Arguments mkAttributesQueue {P AB}.
Arguments aq_cfg {P AB}.
Arguments aq_prev {P AB}.
Arguments aq_is_last_in_span {P AB}.
Arguments aq_batch {P AB}.
Arguments aq_builder {P AB}.

Section setters.
Context {P AB : Type}.
Implicit Types self : AttributesQueue P AB.

Definition set_prev (p : P) self : AttributesQueue P AB :=
  mkAttributesQueue (aq_cfg self) p (aq_is_last_in_span self) (aq_batch self) (aq_builder self).
Definition set_last (b : bool) self : AttributesQueue P AB :=
  mkAttributesQueue (aq_cfg self) (aq_prev self) b (aq_batch self) (aq_builder self).
Definition set_batch (b : option SingleBatch) self : AttributesQueue P AB :=
  mkAttributesQueue (aq_cfg self) (aq_prev self) (aq_is_last_in_span self) b (aq_builder self).
Definition set_builder (b : AB) self : AttributesQueue P AB :=
  mkAttributesQueue (aq_cfg self) (aq_prev self) (aq_is_last_in_span self) (aq_batch self) b.
End setters.

(** * Operations *)

Definition new {P AB : Type} (cfg : SoonRollupConfig) (prev : P) (builder : AB) : AttributesQueue P AB :=
  mkAttributesQueue cfg prev false None builder.

(** The template with the batch's transactions appended and the pool disabled. *)
Definition with_batch_transactions (attributes : OpPayloadAttributes) (transactions : list bytes)
    : OpPayloadAttributes :=
  mkOpPayloadAttributes (pa_timestamp attributes) (pa_prev_randao attributes)
    (pa_suggested_fee_recipient attributes) (pa_parent_beacon_block_root attributes)
    (match pa_transactions attributes with
     | Some txs => Some (txs ++ transactions)
     | None => if decide (transactions = []) then None else Some transactions
     end)
    (Some true) (pa_gas_limit attributes) (pa_eip_1559_params attributes).

Section attributes_queue.
Context {P AB : Type} `{!Stage P} `{!AttributesProvider P} `{!AttributesBuilder AB}.
Implicit Types self : AttributesQueue P AB.

#[export] Instance attributes_queue_origin : OriginProvider (AttributesQueue P AB) :=
  λ self, origin (aq_prev self).

Definition load_batch (parent : L2BlockInfo) : PipelineM (AttributesQueue P AB) SingleBatch :=
  batch ← gets aq_batch;
  _ ← match batch with
      | None =>
          batch ← zoom aq_prev set_prev (ap_next_batch parent);
          _ ← modify (set_batch (Some batch));
          modify (λ self, set_last (ap_is_last_in_span (aq_prev self)) self)
      | Some _ => mret tt
      end;
  batch ← gets aq_batch;
  lift (ok_or batch (temp Eof)).

Definition create_next_attributes (batch : SingleBatch) (parent : L2BlockInfo)
    : PipelineM (AttributesQueue P AB) OpPayloadAttributes :=
  let hash := bi_hash (l2_block_info parent) in
  if decide (sb_parent_hash batch ≠ hash)
  then fail (ResetKind (BadParentHash (sb_parent_hash batch) hash))
  else
    attributes ← zoom aq_builder set_builder (prepare_payload_attributes parent (epoch batch));
    mret (with_batch_transactions attributes (sb_transactions batch)).

Definition next_attributes (parent : L2BlockInfo)
    : PipelineM (AttributesQueue P AB) OpAttributesWithParent :=
  batch ← load_batch parent;
  attributes ← create_next_attributes batch parent;
  last ← gets aq_is_last_in_span;
  let populated_attributes := mkOpAttributesWithParent attributes parent last in
  _ ← modify (set_batch None);
  _ ← modify (set_last false);
  mret populated_attributes.
#[export] Instance attributes_queue_provider : NextAttributes (AttributesQueue P AB) := next_attributes.

#[export] Instance attributes_queue_advancer : OriginAdvancer (AttributesQueue P AB) :=
  zoom aq_prev set_prev advance_origin.

Definition signal_ (s : Signal) : PipelineM (AttributesQueue P AB) unit :=
  match s with
  | Reset _ | Activation _ =>
      _ ← zoom aq_prev set_prev (signal s);
      _ ← modify (set_batch None);
      modify (set_last false)
  | FlushChannel =>
      _ ← modify (set_batch None);
      zoom aq_prev set_prev (signal s)
  end.
#[export] Instance attributes_queue_signal : SignalReceiver (AttributesQueue P AB) := signal_.

#[export] Instance attributes_queue_stage : Stage (AttributesQueue P AB) := {}.
End attributes_queue.

(** * Batches are not lost *)

(** One call of [next_attributes], for a queue that holds [batch] or reads it from the
    previous stage: when the batch is on another parent the call asks for a reset; when
    the builder fails its error is returned; in both cases the batch stays for the next
    call.  Otherwise the answer is the builder's template for the batch's epoch with
    exactly the batch's transactions appended, in order, and the batch is given up. *)
Theorem next_attributes_spec {P AB : Type} `{!Stage P} `{!AttributesProvider P} `{!AttributesBuilder AB}
    (parent : L2BlockInfo) (self : AttributesQueue P AB) (batch : SingleBatch) (p : P) (last : bool) :
  (aq_batch self = Some batch ∧ p = aq_prev self ∧ last = aq_is_last_in_span self
   ∨ aq_batch self = None ∧ ap_next_batch parent (aq_prev self) = (Ok batch, p)
     ∧ last = ap_is_last_in_span p) →
  let held b := mkAttributesQueue (aq_cfg self) p last (Some batch) b in
  next_attributes parent self =
    if decide (sb_parent_hash batch = bi_hash (l2_block_info parent)) then
      match prepare_payload_attributes parent (epoch batch) (aq_builder self) with
      | (Ok template, b) =>
          (Ok (mkOpAttributesWithParent (with_batch_transactions template (sb_transactions batch))
                 parent last),
           mkAttributesQueue (aq_cfg self) p false None b)
      | (Err e, b) => (Err e, held b)
      | (Panic, b) => (Panic, held b)
      end
    else (Err (ResetKind (BadParentHash (sb_parent_hash batch) (bi_hash (l2_block_info parent)))),
          held (aq_builder self)).
Proof.
  intros Hb held.
  assert (load_batch parent self = (Ok batch, held (aq_builder self))) as Hl.
  { unfold load_batch, held. rewrite bind_run. unfold gets at 1. destruct self as [c p0 l0 b0 ab].
    destruct Hb as [(Hb & Hp & Hlast)|(Hb & Hp & Hlast)]; cbn in *; subst; [done|].
    rewrite bind_run. cbn. rewrite bind_run. unfold zoom at 1. cbn. by rewrite Hp. }
  unfold next_attributes. rewrite bind_run, Hl, bind_run. unfold create_next_attributes. cbv zeta.
  destruct (decide (sb_parent_hash batch = _)) as [He|He]; [|by rewrite decide_True].
  rewrite decide_False by (by intros ?). rewrite bind_run. unfold zoom at 1. cbn [held aq_builder].
  by destruct (prepare_payload_attributes parent (epoch batch) (aq_builder self)) as [[a|e|] b].
Qed.

(** * The interface, implemented *)

(** What the pipeline relies on, for a parent. *)
Class NextAttributesLaws (S : Type) `{!Stage S} `{!StageLaws S} `{!NextAttributes S} := {
  na_ready : S → L2BlockInfo → Prop;
  na_next_attributes_safe parent o :
    safe (λ s, st_inv s ∧ na_ready s parent ∧ origin s = o) st_err
      (λ a, awp_parent a = parent) (na_next_attributes (S:=S) parent);
  na_advance_ready parent :
    safe (λ s, st_inv s ∧ na_ready s parent) st_err (λ _, True) (advance_origin (P:=S));
  na_ready_later s parent parent' :
    na_ready s parent → bnh_number (l2_l1_origin parent) <= bnh_number (l2_l1_origin parent') →
    na_ready s parent';
  na_signal_ready parent s :
    configured s →
    safe (λ q, st_inv q ∧ na_ready q parent) st_err (λ _, True) (signal (P:=S) s);
}.

(** A builder that answers every call, with the errors of [ab_err]. *)
Class AttributesBuilderLaws (AB : Type) `{!AttributesBuilder AB} := {
  ab_err : PipelineErrorKind → Prop;
  ab_prepare_safe parent epoch :
    safe (λ _, True) ab_err (λ _, True) (prepare_payload_attributes (AB:=AB) parent epoch);
}.

Section laws.
Context {P AB : Type} `{!Stage P} `{!StageLaws P} `{!AttributesProvider P} `{!AttributesProviderLaws P}.
Context `{!AttributesBuilder AB} `{!AttributesBuilderLaws AB}.
Implicit Types self : AttributesQueue P AB.

Definition attributes_queue_inv (self : AttributesQueue P AB) : Prop := st_inv (aq_prev self).
Definition attributes_queue_err (e : PipelineErrorKind) : Prop :=
  st_err (P:=P) e ∨ ab_err (AB:=AB) e ∨ ∃ a b, e = ResetKind (BadParentHash a b).
Definition attributes_queue_ready (self : AttributesQueue P AB) (parent : L2BlockInfo) : Prop :=
  ap_ready (aq_prev self) parent.

Definition attributes_at (parent : L2BlockInfo) (o : option BlockInfo) self : Prop :=
  attributes_queue_inv self ∧ attributes_queue_ready self parent ∧ origin self = o.

Lemma load_batch_safe parent o :
  safe (attributes_at parent o) attributes_queue_err (λ _, True) (load_batch (P:=P) (AB:=AB) parent).
Proof.
  intros self Hs. unfold load_batch. rewrite bind_run. unfold gets at 1. rewrite bind_run.
  destruct (aq_batch self) as [b|] eqn:Hb.
  { cbn [mret st_ret]. rewrite bind_run. unfold gets at 1. by rewrite Hb. }
  rewrite bind_run. unfold zoom at 1.
  pose proof (ap_next_batch_safe parent o (aq_prev self) Hs) as Hn.
  destruct (ap_next_batch parent (aq_prev self)) as [[b|e|] p]; [..|done]; destruct Hn as [Hb' Hp]; [done|].
  by split; [left|].
Qed.

Lemma next_attributes_safe parent o :
  safe (attributes_at parent o) attributes_queue_err (λ a, awp_parent a = parent)
    (next_attributes (P:=P) (AB:=AB) parent).
Proof.
  apply (safe_bind _ _ (λ _, True)); [apply load_batch_safe|]. intros batch _.
  apply (safe_bind _ _ (λ _, True)).
  { unfold create_next_attributes. cbv zeta. destruct (decide _).
    { apply safe_fail. right; right. by eexists _, _. }
    apply (safe_bind _ _ (λ _, True)); [|intros; by apply safe_ret].
    apply (safe_zoom _ _ (λ _, True) ab_err); [apply ab_prepare_safe|done|by intros s t Hs _|].
    intros e He. right; by left. }
  intros a _. apply (safe_bind _ _ (λ _, True)); [by apply safe_gets|]. intros l _.
  do 2 (apply (safe_bind _ _ (λ _, True)); [by apply safe_modify|]; intros _ _).
  by apply safe_ret.
Qed.

(** A signal is passed on and clears the batch. *)
Lemma signal_kept (I : P → Prop) sg :
  safe I (st_err (P:=P)) (λ _, True) (signal sg) →
  safe (λ self, I (aq_prev self)) attributes_queue_err (λ _, True) (signal_ (AB:=AB) sg).
Proof.
  intros Hp.
  assert (safe (λ self, I (aq_prev self)) attributes_queue_err (λ _, True)
            (zoom aq_prev set_prev (signal sg) : PipelineM (AttributesQueue P AB) unit)) as Hz.
  { apply (safe_zoom _ _ I st_err); [done|done|by intros s t _ Ht|by left]. }
  destruct sg as [r|a|];
    [apply (safe_bind _ _ (λ _, True)); [exact Hz|]; intros _ _;
     apply (safe_bind _ _ (λ _, True)); [by apply safe_modify|]; intros _ _; by apply safe_modify..|].
  apply (safe_bind _ _ (λ _, True)); [by apply safe_modify|]. intros _ _. exact Hz.
Qed.

#[export] Program Instance attributes_queue_stage_laws : StageLaws (AttributesQueue P AB) :=
  {| st_inv := attributes_queue_inv; st_err := attributes_queue_err |}.
Next Obligation. intros self Hp. by apply (st_origin (aq_prev self)). Qed.
Next Obligation.
  apply (safe_zoom _ _ st_inv st_err); [apply st_advance|done|by intros s t _ Ht|by left].
Qed.
Next Obligation. intros sg Hsg. by apply (signal_kept st_inv), st_signal. Qed.

#[export] Program Instance attributes_queue_laws : NextAttributesLaws (AttributesQueue P AB) :=
  {| na_ready := attributes_queue_ready |}.
Next Obligation. intros parent o. exact (next_attributes_safe parent o). Qed.
Next Obligation.
  intros parent. apply (safe_zoom _ _ (λ p, st_inv p ∧ ap_ready p parent) st_err);
    [apply ap_advance_ready|done|by intros s t _ Ht|by left].
Qed.
Next Obligation. intros self p1 p2. apply ap_ready_later. Qed.
Next Obligation.
  intros parent sg Hsg. by apply (signal_kept (λ p, st_inv p ∧ ap_ready p parent)), ap_signal_ready.
Qed.
End laws.

(** ** Witnesses *)

(** A builder that always answers the same template. *)
#[export] Instance fixed_builder : AttributesBuilder OpPayloadAttributes :=
  λ _ _, gets (λ template, template).
#[export] Program Instance fixed_builder_laws : AttributesBuilderLaws OpPayloadAttributes :=
  {| ab_err _ := False |}.
Next Obligation. intros parent ep. by apply safe_gets. Qed.

Definition example_template : OpPayloadAttributes :=
  mkOpPayloadAttributes 1102 B256_ZERO [] None (Some [[byte0]]) (Some true) (Some 30000000) None.
Definition example_attributes_queue : AttributesQueue (BatchQueue (Replay SingleBatch) unit) OpPayloadAttributes :=
  new example_stream_config (example_queue [example_late; example_batch]) example_template.

Lemma next_attributes_spec_witness :
  ∃ q, next_attributes example_queue_parent example_attributes_queue
  = (Ok (mkOpAttributesWithParent (with_batch_transactions example_template [[byte1]])
           example_queue_parent true), q).
Proof.
  eexists. etrans.
  - apply (next_attributes_spec example_queue_parent example_attributes_queue example_batch
             (example_queue []) true).
    right. vm_compute. repeat split.
  - vm_compute. reflexivity.
Defined.
