(* ===== verification/Pipeline.v ===== *)
(** The derivation pipeline (src/crates/derive/src/pipeline/core.rs).

    The pipeline drives its last stage: a step either queues payload attributes, advances
    the L1 origin, or reports an error. *)
From S2P Require Import Prelude Blocks SystemConfig Types SingleBatch SpanBatch Batch BatchStream BatchQueue AttributesQueue.
From Stdlib Require Import Sorting.Sorted.
#[local] Open Scope Z_scope.

Record DerivationPipeline (S P : Type) := mkDerivationPipeline {
  dp_attributes : S;
  dp_prepared : list OpAttributesWithParent;
  dp_rollup_config : SoonRollupConfig;
  dp_l2_chain_provider : P;
}.
Arguments mkDerivationPipeline {S P}.
Arguments dp_attributes {S P}.
Arguments dp_prepared {S P}.
Arguments dp_rollup_config {S P}.
Arguments dp_l2_chain_provider {S P}.

Section setters.
Context {S P : Type}.
Implicit Types self : DerivationPipeline S P.

Definition set_attributes (s : S) self : DerivationPipeline S P :=
  mkDerivationPipeline s (dp_prepared self) (dp_rollup_config self) (dp_l2_chain_provider self).
Definition set_prepared (l : list OpAttributesWithParent) self : DerivationPipeline S P :=
  mkDerivationPipeline (dp_attributes self) l (dp_rollup_config self) (dp_l2_chain_provider self).
Definition set_provider (p : P) self : DerivationPipeline S P :=
  mkDerivationPipeline (dp_attributes self) (dp_prepared self) (dp_rollup_config self) p.
End setters.

(** * Operations *)

Definition new {S P : Type} (attributes : S) (rollup_config : SoonRollupConfig) (l2_chain_provider : P)
    : DerivationPipeline S P :=
  mkDerivationPipeline attributes [] rollup_config l2_chain_provider.

Section pipeline.
Context {S P : Type} `{!Stage S} `{!NextAttributes S} `{!L2ChainProvider P}.
(** The [Display] text of the provider's errors. *)
Context (to_string : l2_error (F:=P) → string).
Implicit Types self : DerivationPipeline S P.

Definition pipeline_origin (self : DerivationPipeline S P) : option BlockInfo :=
  origin (dp_attributes self).

(** [Iterator::next]. *)
Definition next (self : DerivationPipeline S P) : option OpAttributesWithParent * DerivationPipeline S P :=
  match dp_prepared self with
  | [] => (None, self)
  | a :: prepared => (Some a, set_prepared prepared self)
  end.

Definition peek (self : DerivationPipeline S P) : option OpAttributesWithParent :=
  head (dp_prepared self).

(** A call to the provider, its error converted. *)
Definition fetch_system_config {E : Type} (number : Z) (convert : l2_error (F:=P) → E)
    : ST (DerivationPipeline S P) E SystemConfig := λ self,
  let '(r, p) := l2_system_config_by_number number (dp_l2_chain_provider self) in
  (map_err convert r, set_provider p self).

Definition system_config_by_number (number : Z) : PipelineM (DerivationPipeline S P) SystemConfig :=
  fetch_system_config number l2_error_into.

Definition l2_safe_head (s : Signal) : option L2BlockInfo :=
  match s with
  | Reset r => Some (rs_l2_safe_head r)
  | Activation a => Some (as_l2_safe_head a)
  | FlushChannel => None
  end.

Definition signal_pipeline (s : Signal) : PipelineM (DerivationPipeline S P) unit :=
  match l2_safe_head s with
  | Some head =>
      system_config ← fetch_system_config (bi_number (l2_block_info head))
                        (λ e, temp (Provider (to_string e)));
      let s := with_system_config s system_config in
      catch (zoom dp_attributes set_attributes (signal s)) (λ r,
        match r with
        | Ok _ => mret tt
        | Err err => if is_temp_eof err then mret tt else fail err
        | Panic => panic
        end)
  | None => zoom dp_attributes set_attributes (signal s)
  end.

Definition step (cursor : L2BlockInfo) : ST (DerivationPipeline S P) Empty_set StepResult := λ self,
  match zoom dp_attributes set_attributes (na_next_attributes cursor) self with
  | (Ok a, self) => (Ok PreparedAttributes, set_prepared (dp_prepared self ++ [a]) self)
  | (Err err, self) =>
      if is_temp_eof err then
        match zoom dp_attributes set_attributes advance_origin self with
        | (Ok _, self) => (Ok AdvancedOrigin, self)
        | (Err e, self) => (Ok (OriginAdvanceErr e), self)
        | (Panic, self) => (Panic, self)
        end
      else (Ok (StepFailed err), self)
  | (Panic, self) => (Panic, self)
  end.
End pipeline.

(** * Runs *)

Section runs.
Context {S P : Type} `{!Stage S} `{!NextAttributes S}.
Implicit Types self : DerivationPipeline S P.

(** Successive steps from the cursors given, and the attributes left prepared. *)
Fixpoint steps (cursors : list L2BlockInfo) self
    : list (outcome Empty_set StepResult) * DerivationPipeline S P :=
  match cursors with
  | [] => ([], self)
  | c :: cursors =>
      let '(r, self) := step c self in
      let '(rs, self) := steps cursors self in (r :: rs, self)
  end.

(** The cursors of the steps that prepared attributes. *)
Definition prepared_cursors (cursors : list L2BlockInfo) (rs : list (outcome Empty_set StepResult))
    : list L2BlockInfo :=
  (zip cursors rs) ≫= λ '(c, r), match r with Ok PreparedAttributes => [c] | _ => [] end.
End runs.

Section safety.
Context {S P : Type} `{!Stage S} `{!StageLaws S} `{!NextAttributes S} `{!NextAttributesLaws S}.
Implicit Types self : DerivationPipeline S P.

(** The result of a step, and what it does to the queue. *)
Definition step_ok (cursor : L2BlockInfo) self (r : StepResult) (self' : DerivationPipeline S P) : Prop :=
  match r with
  | PreparedAttributes => ∃ a, dp_prepared self' = dp_prepared self ++ [a] ∧ awp_parent a = cursor
  | AdvancedOrigin => dp_prepared self' = dp_prepared self
  | OriginAdvanceErr e => dp_prepared self' = dp_prepared self ∧ st_err (P:=S) e
  | StepFailed e => dp_prepared self' = dp_prepared self ∧ st_err (P:=S) e ∧ e ≠ temp Eof
  end.

Lemma step_run cursor self :
  st_inv (dp_attributes self) → na_ready (dp_attributes self) cursor →
  ∃ r self', step cursor self = (Ok r, self')
  ∧ st_inv (dp_attributes self') ∧ na_ready (dp_attributes self') cursor ∧ step_ok cursor self r self'.
Proof.
  intros Hi Hr. unfold step, zoom.
  pose proof (na_next_attributes_safe cursor (origin (dp_attributes self)) (dp_attributes self)
                (conj Hi (conj Hr eq_refl))) as Hn.
  destruct (na_next_attributes cursor (dp_attributes self)) as [[a|e|] s]; [..|done];
    destruct Hn as (Hq & Hi1 & Hr1 & _).
  { eexists _, _. split; [done|]. repeat (split; [done|]). by eexists. }
  unfold is_temp_eof. destruct (bool_decide_reflect (e = Temporary Eof)) as [->|Hne].
  2: { eexists _, _. split; [done|]. by repeat split. }
  cbn [dp_attributes set_attributes].
  pose proof (na_advance_ready cursor s (conj Hi1 Hr1)) as Ha.
  destruct (advance_origin s) as [[u|e|] s1]; [..|done]; destruct Ha as (Hq1 & Hi2 & Hr2);
    eexists _, _; (split; [done|]); by repeat split.
Qed.

Lemma steps_run cursors self n :
  st_inv (dp_attributes self) →
  (∀ c, bnh_number (l2_l1_origin c) >= n → na_ready (dp_attributes self) c) →
  StronglySorted Z.le (n :: ((λ c, bnh_number (l2_l1_origin c)) <$> cursors)) →
  ∃ rs self', steps cursors self = (Ok <$> rs, self')
  ∧ st_inv (dp_attributes self') ∧ length rs = length cursors
  ∧ awp_parent <$> dp_prepared self'
    = (awp_parent <$> dp_prepared self) ++ prepared_cursors cursors (Ok <$> rs).
Proof.
  revert self n. induction cursors as [|c cursors IH]; intros self n Hi Hr Hs.
  { exists [], self. by rewrite app_nil_r. }
  inversion Hs as [|? ? Hs1 Hn]; subst. cbn [fmap list_fmap] in Hn. apply Forall_cons in Hn as [Hc _].
  destruct (step_run c self Hi (Hr c ltac:(lia))) as (r & s1 & Hst & Hi1 & Hr1 & Hok).
  destruct (IH s1 (bnh_number (l2_l1_origin c))) as (rs & s2 & Hsts & Hi2 & Hlen & Hp); [done| |done|].
  { intros c' Hc'. apply (na_ready_later _ c); [done|lia]. }
  exists (r :: rs), s2. cbn [steps]. rewrite Hst, Hsts. split; [done|]. split; [done|].
  split; [cbn; by rewrite Hlen|]. rewrite Hp. unfold prepared_cursors. cbn.
  destruct r; cbn in Hok; [|by destruct_and?; f_equal; congruence..].
  destruct Hok as (a & -> & Ha). by rewrite fmap_app, <- app_assoc, <- Ha.
Qed.
End safety.

(** Running the pipeline over any stages that obey their interfaces, from cursors whose
    L1 origins do not go back: no step panics, and the attributes prepared are exactly
    one per step that reported [PreparedAttributes], in order, each for its cursor. *)
Theorem pipeline_steps_safe {S P : Type} `{!Stage S} `{!StageLaws S} `{!NextAttributes S}
    `{!NextAttributesLaws S} (cursors : list L2BlockInfo) (self : DerivationPipeline S P) (n : Z) :
  st_inv (dp_attributes self) →
  (∀ c, bnh_number (l2_l1_origin c) >= n → na_ready (dp_attributes self) c) →
  StronglySorted Z.le (n :: ((λ c, bnh_number (l2_l1_origin c)) <$> cursors)) →
  ∃ rs self', steps cursors self = (Ok <$> rs, self')
  ∧ st_inv (dp_attributes self') ∧ length rs = length cursors
  ∧ awp_parent <$> dp_prepared self'
    = (awp_parent <$> dp_prepared self) ++ prepared_cursors cursors (Ok <$> rs).
Proof. apply steps_run. Qed.

(** Resetting the pipeline fetches the system config of the safe head and passes the
    signal to the stages with that config and nothing else changed; a provider error is
    returned as temporary before any stage is touched, and [Eof] from the stages counts
    as success. *)
Theorem signal_pipeline_spec {S P : Type} `{!Stage S} `{!NextAttributes S} `{!L2ChainProvider P}
    (to_string : l2_error (F:=P) → string) (self : DerivationPipeline S P) (s : Signal) head :
  l2_safe_head s = Some head →
  signal_pipeline to_string s self =
    match l2_system_config_by_number (bi_number (l2_block_info head)) (dp_l2_chain_provider self) with
    | (Err e, p) => (Err (temp (Provider (to_string e))), set_provider p self)
    | (Panic, p) => (Panic, set_provider p self)
    | (Ok c, p) =>
        let '(r, a) := signal (with_system_config s c) (dp_attributes self) in
        (match r with Err (Temporary Eof) => Ok tt | _ => r end,
         set_attributes a (set_provider p self))
    end.
Proof.
  intros Hh. unfold signal_pipeline. rewrite Hh, bind_run. unfold fetch_system_config.
  destruct (l2_system_config_by_number _ _) as [[c|e|] p]; [|done..]. cbn.
  unfold catch, zoom. cbn. destruct (signal _ _) as [[[]|e|] a]; [done| |done].
  unfold is_temp_eof. destruct (bool_decide_reflect (e = Temporary Eof)) as [->|Hne]; [done|].
  destruct e as [[]|e|e]; done.
Qed.

(** ** Witnesses *)

Definition example_pipeline
    : DerivationPipeline (AttributesQueue (BatchQueue (Replay SingleBatch) unit) OpPayloadAttributes) unit :=
  new example_attributes_queue example_stream_config tt.

Lemma pipeline_steps_safe_witness :
  ∃ rs self', steps [example_queue_parent; example_queue_parent] example_pipeline = (Ok <$> rs, self')
  ∧ st_inv (dp_attributes self') ∧ length rs = 2%nat
  ∧ awp_parent <$> dp_prepared self'
    = prepared_cursors [example_queue_parent; example_queue_parent] (Ok <$> rs).
Proof.
  apply (pipeline_steps_safe [example_queue_parent; example_queue_parent] example_pipeline 3).
  - split; [repeat constructor|]. repeat constructor; by eexists.
  - intros c _. discriminate.
  - repeat constructor; vm_compute; discriminate.
Defined.

Lemma signal_pipeline_spec_witness :
  signal_pipeline (λ _, "none"%string) (Reset (mkResetSignal example_queue_parent (example_l1 3) None))
    example_pipeline
  = (Err (temp (Provider "none"%string)), example_pipeline).
Proof.
  exact (signal_pipeline_spec (λ _, "none"%string) example_pipeline
           (Reset (mkResetSignal example_queue_parent (example_l1 3) None)) example_queue_parent eq_refl).
Defined.
