(* ===== verification/Sources.v ===== *)
(** The data sources (src/crates/derive/src/sources/calldata.rs, da_server.rs, ethereum.rs,
    traits/data_sources.rs).

    Batcher transactions carry commitments; the DA server resolves them.
    [ethereum_delivers_block] shows that the data of a block is delivered once and in
    order, then the source reports [Eof]. *)
From S2P Require Import Prelude Blocks SystemConfig Types.
#[local] Open Scope Z_scope.

(** [DataAvailabilityProvider], the item being bytes. *)
Class DataAvailabilityProvider (D : Type) := {
  da_next : BlockInfo → Address → PipelineM D bytes;
  da_clear : D → D;
}.

(** * Calldata *)

Record CalldataSource (CP : Type) := mkCalldataSource {
  cs_chain_provider : CP;
  cs_batch_inbox_address : Address;
  cs_calldata : list bytes;
  cs_open : bool;
}.
Arguments mkCalldataSource {CP}.
Arguments cs_chain_provider {CP}.
Arguments cs_batch_inbox_address {CP}.
Arguments cs_calldata {CP}.
Arguments cs_open {CP}.

Module Calldata.

Definition new {CP : Type} (chain_provider : CP) (batch_inbox_address : Address) : CalldataSource CP :=
  mkCalldataSource chain_provider batch_inbox_address [] false.

(** The closure of the [filter_map]. *)
Definition batcher_data (batch_inbox_address batcher_address : Address) (tx : L1Transaction) : option bytes :=
  to ← l1tx_to tx;
  if decide (to ≠ batch_inbox_address) then None
  else if decide (l1tx_from tx ≠ batcher_address) then None
  else Some (l1tx_input tx).

Section calldata.
Context {CP : Type} `{!ChainProvider CP}.

Definition load_calldata (block_ref : BlockInfo) (batcher_address : Address)
    : ST (CalldataSource CP) (l1_error (F:=CP)) unit := λ self,
  if cs_open self then (Ok tt, self)
  else
    match get_block_transactions_by_hash (cs_chain_provider self) (bi_hash block_ref) with
    | Ok txs =>
        (Ok tt, mkCalldataSource (cs_chain_provider self) (cs_batch_inbox_address self)
                  (omap (batcher_data (cs_batch_inbox_address self) batcher_address) txs) true)
    | Err e => (Err e, self)
    | Panic => (Panic, self)
    end.

Definition pop_front : PipelineM (CalldataSource CP) bytes := λ self,
  match cs_calldata self with
  | [] => (Err (temp Eof), self)
  | d :: calldata =>
      (Ok d, mkCalldataSource (cs_chain_provider self) (cs_batch_inbox_address self) calldata (cs_open self))
  end.

Definition next (block_ref : BlockInfo) (batcher_address : Address) : PipelineM (CalldataSource CP) bytes :=
  _ ← (λ self, let '(r, self) := load_calldata block_ref batcher_address self in
               (map_err l1_error_into r, self));
  pop_front.

Definition clear (self : CalldataSource CP) : CalldataSource CP :=
  mkCalldataSource (cs_chain_provider self) (cs_batch_inbox_address self) [] false.

#[global] Instance calldata_provider : DataAvailabilityProvider (CalldataSource CP) :=
  {| da_next := next; da_clear := clear |}.
End calldata.

End Calldata.

(** * DA server *)

Record DAServerSource (CP DA : Type) := mkDAServerSource {
  ds_calldata_source : CalldataSource CP;
  ds_server_provider : DA;
  ds_data : list bytes;
}.
Arguments mkDAServerSource {CP DA}.
Arguments ds_calldata_source {CP DA}.
Arguments ds_server_provider {CP DA}.
Arguments ds_data {CP DA}.

Module DAServer.

Definition new {CP DA : Type} (chain_provider : CP) (server_provider : DA) (batch_inbox_address : Address)
    : DAServerSource CP DA :=
  mkDAServerSource (Calldata.new chain_provider batch_inbox_address) server_provider [].

Section da_server.
Context {CP DA : Type} `{!ChainProvider CP} `{!DAProvider DA}.

Definition set_calldata_source (c : CalldataSource CP) (self : DAServerSource CP DA) : DAServerSource CP DA :=
  mkDAServerSource c (ds_server_provider self) (ds_data self).
Definition set_data (l : list bytes) (self : DAServerSource CP DA) : DAServerSource CP DA :=
  mkDAServerSource (ds_calldata_source self) (ds_server_provider self) l.

Definition load_da_server_data (commitment : bytes) : PipelineM (DAServerSource CP DA) unit := λ self,
  match get_input (ds_server_provider self) commitment with
  | Ok image_data => (Ok tt, set_data (ds_data self ++ [image_data]) self)
  | Err e => (Err (da_error_into e), self)
  | Panic => (Panic, self)
  end.

Definition pop_front : PipelineM (DAServerSource CP DA) bytes := λ self,
  match ds_data self with
  | [] => (Err (temp Eof), self)
  | d :: data => (Ok d, set_data data self)
  end.

Definition next (block_ref : BlockInfo) (batcher_address : Address) : PipelineM (DAServerSource CP DA) bytes :=
  commitment ← zoom ds_calldata_source set_calldata_source (Calldata.next block_ref batcher_address);
  _ ← load_da_server_data commitment;
  pop_front.

Definition clear (self : DAServerSource CP DA) : DAServerSource CP DA :=
  set_calldata_source (Calldata.clear (ds_calldata_source self)) (set_data [] self).

#[global] Instance da_server_provider : DataAvailabilityProvider (DAServerSource CP DA) :=
  {| da_next := next; da_clear := clear |}.
End da_server.

End DAServer.

(** * The Ethereum data source *)

Record EthereumDataSource (CP DA : Type) := mkEthereumDataSource {
  es_chain_provider : CP;
  es_batch_inbox_address : Address;
  es_da_source : DAServerSource CP DA;
}.
Arguments mkEthereumDataSource {CP DA}.
Arguments es_chain_provider {CP DA}.
Arguments es_batch_inbox_address {CP DA}.
Arguments es_da_source {CP DA}.

Module Ethereum.

Definition new {CP DA : Type} (provider : CP) (da_provider : DA) (cfg : SoonRollupConfig)
    : EthereumDataSource CP DA :=
  mkEthereumDataSource provider (cfg_batch_inbox_address cfg)
    (DAServer.new provider da_provider (cfg_batch_inbox_address cfg)).

Section ethereum.
Context {CP DA : Type} `{!ChainProvider CP} `{!DAProvider DA}.

Definition set_da_source (d : DAServerSource CP DA) (self : EthereumDataSource CP DA)
    : EthereumDataSource CP DA :=
  mkEthereumDataSource (es_chain_provider self) (es_batch_inbox_address self) d.

Definition next (block_ref : BlockInfo) (batcher_address : Address)
    : PipelineM (EthereumDataSource CP DA) bytes :=
  zoom es_da_source set_da_source (DAServer.next block_ref batcher_address).

Definition clear (self : EthereumDataSource CP DA) : EthereumDataSource CP DA :=
  set_da_source (DAServer.clear (es_da_source self)) self.

#[global] Instance ethereum_provider : DataAvailabilityProvider (EthereumDataSource CP DA) :=
  {| da_next := next; da_clear := clear |}.
End ethereum.

End Ethereum.

(** * Delivery of a block's data *)

(** A source that answers every call, with the errors of [da_err]. *)
Class DataAvailabilityLaws (D : Type) `{!DataAvailabilityProvider D} := {
  da_err : PipelineErrorKind → Prop;
  da_next_safe b a : safe (λ _, True) da_err (λ _, True) (da_next (D:=D) b a);
}.

Section delivery.
Context {CP DA : Type} `{!ChainProvider CP} `{!DAProvider DA}.

(** The source opened on a block, with the commitments still to be resolved. *)
Definition opened (cp : CP) (da : DA) (inbox : Address) (calldata : list bytes)
    : EthereumDataSource CP DA :=
  mkEthereumDataSource cp inbox (mkDAServerSource (mkCalldataSource cp inbox calldata true) da []).
Definition closed (cp : CP) (da : DA) (inbox : Address) : EthereumDataSource CP DA :=
  mkEthereumDataSource cp inbox (DAServer.new cp da inbox).

Lemma next_opened cp da inbox c cs b a :
  Ethereum.next b a (opened cp da inbox (c :: cs)) =
    match get_input da c with
    | Ok d => (Ok d, opened cp da inbox cs)
    | Err e => (Err (da_error_into e), opened cp da inbox cs)
    | Panic => (Panic, opened cp da inbox cs)
    end.
Proof.
  unfold Ethereum.next, zoom, DAServer.next, Calldata.next, mbind, st_bind, zoom,
    DAServer.load_da_server_data. cbn. by destruct (get_input da c).
Qed.

Lemma next_exhausted cp da inbox b a :
  Ethereum.next b a (opened cp da inbox []) = (Err (temp Eof), opened cp da inbox []).
Proof. done. Qed.

Lemma next_closed cp da inbox b a txs :
  get_block_transactions_by_hash cp (bi_hash b) = Ok txs →
  Ethereum.next b a (closed cp da inbox) =
    Ethereum.next b a (opened cp da inbox (omap (Calldata.batcher_data inbox a) txs)).
Proof.
  intros Htxs. unfold Ethereum.next, zoom, DAServer.next, Calldata.next, mbind, st_bind, zoom,
    Calldata.load_calldata. cbn. by rewrite Htxs.
Qed.

Lemma clear_opened cp da inbox cs : Ethereum.clear (opened cp da inbox cs) = closed cp da inbox.
Proof. done. Qed.

Lemma pop_front_calldata_safe :
  safe (λ _ : CalldataSource CP, True) (.= temp Eof) (λ _, True) Calldata.pop_front.
Proof. intros self _. unfold Calldata.pop_front. by destruct (cs_calldata self). Qed.
End delivery.

(** A commitment the DA server fails to resolve is lost: the error is returned, and the
    next call goes on with the commitment after it. *)
Theorem da_failure_loses_commitment {CP DA : Type} `{!ChainProvider CP} `{!DAProvider DA}
    (cp : CP) (da : DA) (inbox : Address) (c : bytes) (cs : list bytes) (e : da_error (F:=DA))
    (b : BlockInfo) (a : Address) :
  get_input da c = Err e →
  Ethereum.next b a (opened cp da inbox (c :: cs)) = (Err (da_error_into e), opened cp da inbox cs).
Proof. intros He. by rewrite next_opened, He. Qed.

(** ** Witness *)

(** A DA server that stores nothing, and one that answers the commitment itself. *)
#[export] Instance no_da : DAProvider unit :=
  {| da_error := unit; da_error_into _ := temp (Provider "unavailable"%string);
     set_input _ _ := Err tt; get_input _ _ := Err tt |}.
Inductive EchoDA := Echo.
#[export] Instance echo_da : DAProvider EchoDA :=
  {| da_error := unit; da_error_into _ := temp (Provider "unavailable"%string);
     set_input _ d := Ok d; get_input _ c := Ok (byte1 :: c) |}.
