(* ===== verification/L1Traversal.v ===== *)
(** The L1 traversal stage (src/crates/derive/src/stages/l1_traversal.rs), the bottom of
    the pipeline.

    [advance_origin_iff] states when the origin moves and to what; [traversal_chain] that
    the origins visited form a chain of L1 blocks. *)
From S2P Require Import Prelude Blocks SystemConfig Types.
#[local] Open Scope Z_scope.

(** [L1RetrievalProvider], the interface of the stage above. *)
Class L1RetrievalProvider (P : Type) := {
  next_l1_block : PipelineM P (option BlockInfo);
  batcher_addr : P → Address;
}.

Record L1Traversal (F : Type) := mkL1Traversal {
  lt_block : option BlockInfo;
  lt_data_source : F;
  lt_done : bool;
  lt_system_config : SystemConfig;
  lt_rollup_config : SoonRollupConfig;
}.
Arguments mkL1Traversal {F}.
Arguments lt_block {F}.
Arguments lt_data_source {F}.
Arguments lt_done {F}.
Arguments lt_system_config {F}.
Arguments lt_rollup_config {F}.

Section setters.
Context {F : Type}.
Implicit Types self : L1Traversal F.

Definition set_block (b : option BlockInfo) self : L1Traversal F :=
  mkL1Traversal b (lt_data_source self) (lt_done self) (lt_system_config self) (lt_rollup_config self).
Definition set_done (d : bool) self : L1Traversal F :=
  mkL1Traversal (lt_block self) (lt_data_source self) d (lt_system_config self) (lt_rollup_config self).
Definition set_system_config (c : SystemConfig) self : L1Traversal F :=
  mkL1Traversal (lt_block self) (lt_data_source self) (lt_done self) c (lt_rollup_config self).
End setters.

(** * Operations *)

Definition new {F : Type} (data_source : F) (rollup_config : SoonRollupConfig)
    (system_config : SystemConfig) : L1Traversal F :=
  mkL1Traversal (Some BlockInfo_default) data_source false system_config rollup_config.

Section l1_traversal.
Context {F : Type} `{!ChainProvider F} `{!AbiDecoder}.
Implicit Types self : L1Traversal F.

Definition next_l1_block_ : PipelineM (L1Traversal F) (option BlockInfo) := λ self,
  if negb (lt_done self) then (Ok (lt_block self), set_done true self)
  else (Err (temp Eof), self).

#[export] Instance l1_traversal_provider : L1RetrievalProvider (L1Traversal F) :=
  {| next_l1_block := next_l1_block_;
     batcher_addr self := batcher_address (lt_system_config self) |}.

Definition advance_origin_ : PipelineM (L1Traversal F) unit :=
  maybe_block ← gets lt_block;
  block ← lift (ok_or maybe_block (temp Eof));
  data_source ← gets lt_data_source;
  next_l1_origin ← lift (map_err l1_error_into
                           (block_info_by_number data_source (u64_add (bi_number block) 1)));
  if decide (bi_hash block ≠ bi_parent_hash next_l1_origin)
  then fail (ResetKind (ReorgDetected (bi_hash block) (bi_parent_hash next_l1_origin)))
  else
    receipts ← lift (map_err l1_error_into (receipts_by_hash data_source (bi_hash next_l1_origin)));
    cfg ← gets lt_rollup_config;
    _ ← zoom lt_system_config set_system_config
          (λ config, let '(r, config) :=
             update_with_receipts receipts (cfg_l1_system_config_address cfg) config in
           (map_err (λ e, crit (SystemConfigUpdateErr e)) r, config));
    _ ← modify (set_block (Some next_l1_origin));
    modify (set_done false).
#[export] Instance l1_traversal_advancer : OriginAdvancer (L1Traversal F) := advance_origin_.

#[export] Instance l1_traversal_origin : OriginProvider (L1Traversal F) := lt_block.

(** [system_config.expect(..)] panics when the signal carries none. *)
Definition restart (l1_origin : BlockInfo) (system_config : option SystemConfig)
    : PipelineM (L1Traversal F) unit :=
  _ ← modify (set_block (Some l1_origin));
  _ ← modify (set_done false);
  config ← lift (expect system_config);
  modify (set_system_config config).

Definition signal_ (s : Signal) : PipelineM (L1Traversal F) unit :=
  match s with
  | Reset r => restart (rs_l1_origin r) (rs_system_config r)
  | Activation a => restart (as_l1_origin a) (as_system_config a)
  | FlushChannel => mret tt
  end.
#[export] Instance l1_traversal_signal : SignalReceiver (L1Traversal F) := signal_.

#[export] Instance l1_traversal_stage : Stage (L1Traversal F) := {}.
End l1_traversal.

(** * Advancing the origin *)

Section advance.
Context {F : Type} `{!ChainProvider F} `{!AbiDecoder}.
Implicit Types self : L1Traversal F.

(** The stage after a successful advance to [b] with the updated config [c]. *)
Definition advanced (b : BlockInfo) (c : SystemConfig) self : L1Traversal F :=
  mkL1Traversal (Some b) (lt_data_source self) false c (lt_rollup_config self).

Lemma advance_run self block :
  lt_block self = Some block →
  advance_origin_ self =
    match block_info_by_number (lt_data_source self) (u64_add (bi_number block) 1) with
    | Err e => (Err (l1_error_into e), self)
    | Panic => (Panic, self)
    | Ok b =>
        if decide (bi_hash block ≠ bi_parent_hash b)
        then (Err (ResetKind (ReorgDetected (bi_hash block) (bi_parent_hash b))), self)
        else
          match receipts_by_hash (lt_data_source self) (bi_hash b) with
          | Err e => (Err (l1_error_into e), self)
          | Panic => (Panic, self)
          | Ok receipts =>
              match update_with_receipts receipts (cfg_l1_system_config_address (lt_rollup_config self))
                      (lt_system_config self) with
              | (Ok _, c) => (Ok tt, advanced b c self)
              | (Err e, c) => (Err (crit (SystemConfigUpdateErr e)), set_system_config c self)
              | (Panic, c) => (Panic, set_system_config c self)
              end
          end
    end.
Proof.
  intros Hb. unfold advance_origin_. rewrite bind_run. unfold gets at 1. rewrite Hb. cbn [ok_or].
  rewrite bind_run. unfold lift at 1. rewrite bind_run. unfold gets at 1. rewrite bind_run. unfold lift at 1.
  destruct (block_info_by_number _ _) as [b|e|]; [|done..]. cbn [map_err].
  destruct (decide _); [done|]. rewrite bind_run. unfold lift at 1.
  destruct (receipts_by_hash _ _) as [rs|e|]; [|done..]. cbn [map_err].
  rewrite bind_run. unfold gets at 1. rewrite bind_run. unfold zoom.
  destruct (update_with_receipts _ _ _) as [[u|e|] c]; done.
Qed.
End advance.

(** The origin advances exactly when the provider has a block for the next number, that
    block's parent hash is the current block's hash, its receipts are available, and
    every config update log of them decodes; the stage then holds that block, is ready to
    hand it out again, and its system config is the updated one. *)
Theorem advance_origin_iff {F : Type} `{!ChainProvider F} `{!AbiDecoder} (self self' : L1Traversal F)
    (block : BlockInfo) :
  lt_block self = Some block →
  advance_origin_ self = (Ok tt, self') ↔
  ∃ b receipts c,
    block_info_by_number (lt_data_source self) (u64_add (bi_number block) 1) = Ok b
    ∧ bi_parent_hash b = bi_hash block
    ∧ receipts_by_hash (lt_data_source self) (bi_hash b) = Ok receipts
    ∧ update_with_receipts receipts (cfg_l1_system_config_address (lt_rollup_config self))
        (lt_system_config self) = (Ok tt, c)
    ∧ self' = advanced b c self.
Proof.
  intros Hb. rewrite (advance_run self block Hb).
  destruct (block_info_by_number _ _) as [b|e|];
    [|by split; [done|intros (? & ? & ? & ? & _)]..].
  destruct (decide (bi_hash block ≠ bi_parent_hash b)) as [Hn|Hn].
  { split; [done|]. intros (? & ? & ? & [= <-] & Hp & _). congruence. }
  apply dec_stable in Hn.
  destruct (receipts_by_hash _ _) as [rs|e|] eqn:Hrs;
    [|split; [done|intros (? & ? & ? & [= <-] & _ & Hr & _); congruence]..].
  destruct (update_with_receipts _ _ _) as [[[]|e|] c] eqn:Hu;
    [|split; [done|intros (? & ? & ? & [= <-] & _ & Hr & Hu' & _); congruence]..].
  split; [intros [= <-]; by exists b, rs, c|].
  intros (b' & rs' & c' & [= <-] & _ & Hrs' & Hu' & ->). congruence.
Qed.

(** The origins after each of [n] calls of [advance_origin], whatever they return. *)
Fixpoint origins {F : Type} `{!ChainProvider F} `{!AbiDecoder} (n : nat) (self : L1Traversal F)
    : list (option BlockInfo) :=
  lt_block self :: match n with
                   | O => []
                   | S n => origins n (exec advance_origin_ self)
                   end.

Section chain.
Context {F : Type} `{!ChainProvider F} `{!AbiDecoder}.

Lemma advance_link (self : L1Traversal F) b :
  lt_block self = Some b →
  ∃ b', lt_block (exec advance_origin_ self) = Some b'
  ∧ (b' = b ∨ bi_parent_hash b' = bi_hash b
      ∧ block_info_by_number (lt_data_source self) (u64_add (bi_number b) 1) = Ok b')
  ∧ lt_data_source (exec advance_origin_ self) = lt_data_source self.
Proof.
  intros Hb. unfold exec. rewrite (advance_run self b Hb).
  destruct (block_info_by_number _ _) as [x|e|] eqn:Hx; [|by exists b; split_and!; [|left|]..].
  destruct (decide (bi_hash b ≠ bi_parent_hash x)) as [Hn|Hn]; [by exists b; split_and!; [|left|]|].
  apply dec_stable in Hn.
  destruct (receipts_by_hash _ _) as [rs|e|]; [|by exists b; split_and!; [|left|]..].
  destruct (update_with_receipts _ _ _) as [[u|e|] c]; [|by exists b; split_and!; [|left|]..].
  exists x. split_and!; [done|by right|done].
Qed.
End chain.

(** Whatever the calls return, the origins of successive [advance_origin] calls are
    known and form a chain: each is the previous one again, or the block the provider has
    for the next number, whose parent hash is the previous one's hash. *)
Theorem traversal_chain {F : Type} `{!ChainProvider F} `{!AbiDecoder} (self : L1Traversal F)
    (b0 : BlockInfo) (n i : nat) (o o' : option BlockInfo) :
  lt_block self = Some b0 →
  origins n self !! i = Some o → origins n self !! S i = Some o' →
  ∃ b b', o = Some b ∧ o' = Some b'
  ∧ (b' = b ∨ bi_parent_hash b' = bi_hash b
      ∧ block_info_by_number (lt_data_source self) (u64_add (bi_number b) 1) = Ok b').
Proof.
  revert self b0 i. induction n as [|n IH]; intros self b0 i Hb Hi Hi'; [by destruct i|].
  destruct (advance_link self b0 Hb) as (b1 & Hb1 & Hlink & Hds). cbn [origins] in Hi, Hi'.
  destruct i as [|i].
  - injection Hi as <-. exists b0, b1. split; [done|]. split; [|done].
    destruct n; injection Hi' as <-; exact Hb1.
  - destruct (IH _ b1 i Hb1 Hi Hi') as (b & b' & Ho & Ho' & Hl). exists b, b'. by rewrite <- Hds.
Qed.

(** * The interface, implemented *)

(** A provider that answers every call, with receipts as the L1 chain has them. *)
Class ChainProviderLaws (F : Type) `{!ChainProvider F} := {
  cp_blocks (f : F) n : block_info_by_number f n ≠ Panic;
  cp_receipts (f : F) h : receipts_by_hash f h ≠ Panic;
  cp_receipts_wf (f : F) h rs :
    receipts_by_hash f h = Ok rs → Forall (λ r, Forall log_wf (receipt_logs r)) rs;
  cp_transactions (f : F) h : get_block_transactions_by_hash f h ≠ Panic;
}.

Class L1RetrievalProviderLaws (P : Type) `{!Stage P} `{!StageLaws P} `{!L1RetrievalProvider P} :=
  next_l1_block_safe o :
    safe (λ p, st_inv p ∧ origin p = o) st_err is_Some (next_l1_block (P:=P)).

Section laws.
Context {F : Type} `{!ChainProvider F} `{!ChainProviderLaws F} `{!AbiDecoder}.
Implicit Types self : L1Traversal F.

Definition l1_traversal_inv (self : L1Traversal F) : Prop := is_Some (lt_block self).
Definition l1_traversal_err (e : PipelineErrorKind) : Prop :=
  e = temp Eof ∨ (∃ e' : l1_error (F:=F), e = l1_error_into e')
  ∨ (∃ a b, e = ResetKind (ReorgDetected a b)) ∨ ∃ e', e = crit (SystemConfigUpdateErr e').

#[export] Program Instance l1_traversal_laws : StageLaws (L1Traversal F) :=
  {| st_inv := l1_traversal_inv; st_err := l1_traversal_err |}.
Next Obligation. done. Qed.
Next Obligation.
  intros self [b Hb]. change (advance_origin self) with (advance_origin_ self).
  rewrite (advance_run self b Hb).
  destruct (block_info_by_number _ _) as [x|e|] eqn:Hx;
    [|split; [right; left; by eexists|by eexists]|by apply cp_blocks in Hx].
  destruct (decide _); [split; [right; right; left; by eexists _, _|by eexists]|].
  destruct (receipts_by_hash _ _) as [rs|e|] eqn:Hrs;
    [|split; [right; left; by eexists|by eexists]|by apply cp_receipts in Hrs].
  apply cp_receipts_wf in Hrs.
  destruct (update_with_receipts_run rs (cfg_l1_system_config_address (lt_rollup_config self))
              (lt_system_config self) Hrs) as (dn & us & rest & _ & _ & _ & Hr).
  unfold run in Hr. destruct (update_with_receipts _ _ _) as [[u|e|] c]; [|..|done].
  - split; [done|by eexists].
  - split; [do 3 right; by eexists|by eexists].
Qed.
Next Obligation.
  intros [r|a|] Hs self Hi; [..|done]; destruct Hs as [c Hs];
    change (signal _ self) with (restart (F:=F) (rs_l1_origin r) (rs_system_config r) self)
    || change (signal _ self) with (restart (F:=F) (as_l1_origin a) (as_system_config a) self);
    unfold restart; rewrite Hs; (split; [done|by eexists]).
Qed.

#[export] Instance l1_traversal_retrieval_laws : L1RetrievalProviderLaws (L1Traversal F).
Proof.
  intros o self [Hi Ho]. unfold next_l1_block, l1_traversal_provider, next_l1_block_.
  destruct (negb _); [done|]. split; [by left|done].
Qed.
End laws.

(** ** Witnesses *)

(** A chain held as a list of blocks with their receipts and transactions. *)
Record ListedBlock := mkListedBlock {
  lb_info : BlockInfo;
  lb_receipts : list Receipt;
  lb_transactions : list L1Transaction;
}.

Definition listed {A : Type} (f : ListedBlock → A) (p : BlockInfo → bool) (l : list ListedBlock)
    : outcome unit A :=
  match List.find (λ b, p (lb_info b)) l with Some b => Ok (f b) | None => Err tt end.
Definition has_hash (h : B256) (b : BlockInfo) : bool := bool_decide (bi_hash b = h).

#[export] Instance listed_chain : ChainProvider (list ListedBlock) :=
  {| l1_error := unit;
     l1_error_into _ := temp (Provider "missing"%string);
     header_by_hash l h :=
       listed (λ b, mkL1Header (bi_hash (lb_info b)) (bi_parent_hash (lb_info b))
                      (bi_number (lb_info b)) (bi_timestamp (lb_info b)) B256_ZERO B256_ZERO B256_ZERO) (has_hash h) l;
     block_info_by_hash l h := listed lb_info (has_hash h) l;
     block_info_by_number l n := listed lb_info (λ b, bool_decide (bi_number b = n)) l;
     receipts_by_hash l h := listed lb_receipts (has_hash h) l;
     get_block_transactions_by_hash l h := listed lb_transactions (has_hash h) l |}.

Definition example_l1_block (n : Z) : BlockInfo :=
  mkBlockInfo (be_bytes 32 n) n (be_bytes 32 (n - 1)) (1000 + 12 * n).
Definition example_inbox : Address := replicate 20 (z2b 7).
Definition example_batcher : Address := replicate 20 (z2b 8).
Definition example_tx (from : Address) (to : option Address) (input : bytes) : L1Transaction :=
  mkL1Transaction [] from input to.
(** Blocks 1 to 3; block 2 has two batcher transactions among others. *)
Definition example_chain : list ListedBlock :=
  [ mkListedBlock (example_l1_block 1) [] [];
    mkListedBlock (example_l1_block 2) example_receipts
      [ example_tx example_batcher (Some example_inbox) [byte0];
        example_tx example_inbox (Some example_inbox) [z2b 9];
        example_tx example_batcher None [z2b 9];
        example_tx example_batcher (Some example_inbox) [byte1] ];
    mkListedBlock (example_l1_block 3) [] [] ].

#[local] Existing Instance word_abi.

Definition example_traversal (addr : Address) : L1Traversal (list ListedBlock) :=
  mkL1Traversal (Some (example_l1_block 1)) example_chain true SystemConfig_default
    (new_for_genesis 1 addr 0).

Lemma advance_origin_iff_witness :
  advance_origin_ (example_traversal example_inbox)
  = (Ok tt, advanced (example_l1_block 2) SystemConfig_default (example_traversal example_inbox)).
Proof.
  apply (advance_origin_iff _ _ (example_l1_block 1)); [reflexivity|].
  exists (example_l1_block 2), example_receipts, SystemConfig_default.
  repeat split; vm_compute; reflexivity.
Defined.

Lemma traversal_chain_witness :
  ∃ b b', Some (example_l1_block 2) = Some b ∧ Some (example_l1_block 3) = Some b'
  ∧ (b' = b ∨ bi_parent_hash b' = bi_hash b
      ∧ block_info_by_number example_chain (u64_add (bi_number b) 1) = Ok b').
Proof.
  apply (traversal_chain (example_traversal example_inbox) (example_l1_block 1) 2 1);
    vm_compute; reflexivity.
Defined.

(** A block whose update logs fail to decode stops the origin, but the updates before the
    bad log stay in the system config. *)
Example failed_advance_keeps_update :
  ∃ self', advance_origin_ (example_traversal example_address)
    = (Err (crit (SystemConfigUpdateErr (EGasLimit GasLimitUpdate.GasLimitDecodingError))), self')
  ∧ lt_block self' = Some (example_l1_block 1)
  ∧ batcher_address (lt_system_config self') = replicate 20 byte1.
Proof. eexists. vm_compute. repeat split. Qed.
