(* ===== verification/L1Retrieval.v ===== *)
(** The L1 retrieval stage (src/crates/derive/src/stages/l1_retrieval.rs).

    [retrieval_delivers_block]: over the traversal stage and the DA data source, the data
    of a block comes out once and in order, then [Eof]. *)
From S2P Require Import Prelude Blocks SystemConfig Types Sources L1Traversal.
#[local] Open Scope Z_scope.

Record L1Retrieval (DAP P : Type) := mkL1Retrieval {
  lr_prev : P;
  lr_provider : DAP;
  lr_next : option BlockInfo;
}.
Arguments mkL1Retrieval {DAP P}.
Arguments lr_prev {DAP P}.
Arguments lr_provider {DAP P}.
Arguments lr_next {DAP P}.

Section setters.
Context {DAP P : Type}.
Implicit Types self : L1Retrieval DAP P.

Definition set_prev (p : P) self : L1Retrieval DAP P := mkL1Retrieval p (lr_provider self) (lr_next self).
Definition set_provider (d : DAP) self : L1Retrieval DAP P := mkL1Retrieval (lr_prev self) d (lr_next self).
Definition set_next (n : option BlockInfo) self : L1Retrieval DAP P :=
  mkL1Retrieval (lr_prev self) (lr_provider self) n.
End setters.

(** * Operations *)

Definition new {DAP P : Type} (prev : P) (provider : DAP) : L1Retrieval DAP P :=
  mkL1Retrieval prev provider None.

Section l1_retrieval.
Context {DAP P : Type} `{!DataAvailabilityProvider DAP} `{!Stage P} `{!L1RetrievalProvider P}.
Implicit Types self : L1Retrieval DAP P.

#[export] Instance l1_retrieval_advancer : OriginAdvancer (L1Retrieval DAP P) :=
  zoom lr_prev set_prev advance_origin.
#[export] Instance l1_retrieval_origin : OriginProvider (L1Retrieval DAP P) := λ self, origin (lr_prev self).

(** The block to read from, pulled when there is none. *)
Definition load_next : PipelineM (L1Retrieval DAP P) unit :=
  next ← gets lr_next;
  match next with
  | None =>
      block ← zoom lr_prev set_prev next_l1_block;
      block ← lift (ok_or block (temp MissingL1Data));
      modify (set_next (Some block))
  | Some _ => mret tt
  end.

Definition next_data : PipelineM (L1Retrieval DAP P) bytes :=
  _ ← load_next;
  next ← gets lr_next;
  next ← lift (expect next);
  addr ← gets (λ self, batcher_addr (lr_prev self));
  catch (zoom lr_provider set_provider (da_next next addr)) (λ r,
    match r with
    | Ok data => mret data
    | Err e =>
        _ ← (if is_temp_eof e then
               modify (λ self, set_provider (da_clear (lr_provider self)) (set_next None self))
             else mret tt);
        fail e
    | Panic => panic
    end).
#[export] Instance l1_retrieval_provider : FrameQueueProvider (L1Retrieval DAP P) := next_data.

Definition signal_ (s : Signal) : PipelineM (L1Retrieval DAP P) unit :=
  _ ← zoom lr_prev set_prev (signal s);
  match s with
  | Reset r => modify (set_next (Some (rs_l1_origin r)))
  | Activation a => modify (set_next (Some (as_l1_origin a)))
  | FlushChannel => mret tt
  end.
#[export] Instance l1_retrieval_signal : SignalReceiver (L1Retrieval DAP P) := signal_.

#[export] Instance l1_retrieval_stage : Stage (L1Retrieval DAP P) := {}.
End l1_retrieval.

(** * The interface, implemented *)

Section laws.
Context {DAP P : Type} `{!DataAvailabilityProvider DAP} `{!DataAvailabilityLaws DAP}.
Context `{!Stage P} `{!StageLaws P} `{!L1RetrievalProvider P} `{!L1RetrievalProviderLaws P}.
Implicit Types self : L1Retrieval DAP P.

Definition l1_retrieval_inv (self : L1Retrieval DAP P) : Prop := st_inv (lr_prev self).
Definition l1_retrieval_err (e : PipelineErrorKind) : Prop := st_err (P:=P) e ∨ da_err (D:=DAP) e.

#[export] Program Instance l1_retrieval_stage_laws : StageLaws (L1Retrieval DAP P) :=
  {| st_inv := l1_retrieval_inv; st_err := l1_retrieval_err |}.
Next Obligation. intros self Hp. by apply (st_origin (lr_prev self)). Qed.
Next Obligation.
  apply (safe_zoom _ _ st_inv st_err); [apply st_advance|done|by intros s t _ Ht|by left].
Qed.
Next Obligation.
  intros sg Hsg. apply (safe_bind _ _ (λ _, True)).
  { apply (safe_zoom _ _ st_inv st_err); [by apply st_signal|done|by intros s t _ Ht|by left]. }
  intros _ _. destruct sg; [by apply safe_modify..|by apply safe_ret].
Qed.

Definition retrieval_at (o : option BlockInfo) self : Prop := l1_retrieval_inv self ∧ origin self = o.

Lemma load_next_run o self r self' :
  retrieval_at o self → load_next self = (r, self') →
  retrieval_at o self' ∧ match r with
                         | Ok _ => is_Some (lr_next self')
                         | Err e => l1_retrieval_err e
                         | Panic => False
                         end.
Proof.
  intros Hs. unfold load_next. rewrite bind_run. unfold gets at 1.
  destruct (lr_next self) as [b|] eqn:Hn; [intros [= <- <-]; split; [done|by eexists]|].
  rewrite bind_run. unfold zoom at 1.
  pose proof (next_l1_block_safe o (lr_prev self) Hs) as Hb.
  destruct (next_l1_block (lr_prev self)) as [[mb|e|] p]; [..|done]; destruct Hb as [Hb Hp].
  - destruct Hb as [b ->]. intros [= <- <-]. split; [exact Hp|by eexists].
  - intros [= <- <-]. split; [exact Hp|by left].
Qed.

#[export] Instance l1_retrieval_laws : FrameQueueProviderLaws (L1Retrieval DAP P).
Proof.
  intros o self Hs. change (fq_next_data self) with (next_data self). unfold next_data. rewrite bind_run.
  destruct (load_next self) as [r s1] eqn:Hl. eapply load_next_run in Hl as [Hs1 Hr]; [|exact Hs].
  destruct r as [u|e|]; [|by split|done]. destruct Hr as [b Hb].
  rewrite bind_run. unfold gets at 1. rewrite Hb. rewrite bind_run. unfold lift at 1. cbn [expect].
  rewrite bind_run. unfold gets at 1. unfold catch, zoom.
  pose proof (da_next_safe b (batcher_addr (lr_prev s1)) (lr_provider s1) I) as Hd.
  destruct (da_next _ _ (lr_provider s1)) as [[d|e|] dp]; [done| |done]. destruct Hd as [He _].
  rewrite bind_run. destruct (is_temp_eof e); (split; [by right|done]).
Qed.
End laws.

(** * Delivery of a block *)

(** [n] calls of [next_data]: their outcomes and the final state. *)
Fixpoint calls {DAP P : Type} `{!DataAvailabilityProvider DAP} `{!Stage P} `{!L1RetrievalProvider P}
    (n : nat) (self : L1Retrieval DAP P)
    : list (outcome PipelineErrorKind bytes) * L1Retrieval DAP P :=
  match n with
  | O => ([], self)
  | S n => let '(r, self) := next_data self in
           let '(rs, self) := calls n self in (r :: rs, self)
  end.

Section delivery.
Context {CP DA : Type} `{!ChainProvider CP} `{!DAProvider DA} `{!AbiDecoder}.
Implicit Types (t : L1Traversal CP) (cp : CP) (da : DA).

Lemma next_data_open t cp da inbox b c cs d :
  get_input da c = Ok d →
  next_data (mkL1Retrieval t (opened cp da inbox (c :: cs)) (Some b))
  = (Ok d, mkL1Retrieval t (opened cp da inbox cs) (Some b)).
Proof.
  intros Hd. unfold next_data, load_next, mbind, st_bind, catch, zoom.
  cbn -[Ethereum.next opened]. by rewrite next_opened, Hd.
Qed.

Lemma next_data_end t cp da inbox b :
  next_data (mkL1Retrieval t (opened cp da inbox []) (Some b))
  = (Err (temp Eof), mkL1Retrieval t (closed cp da inbox) None).
Proof. done. Qed.

Lemma calls_open t cp da inbox b cs ds :
  Forall2 (λ c d, get_input da c = Ok d) cs ds →
  calls (S (length ds)) (mkL1Retrieval t (opened cp da inbox cs) (Some b))
  = ((Ok <$> ds) ++ [Err (temp Eof)], mkL1Retrieval t (closed cp da inbox) None).
Proof.
  induction 1 as [|c d cs ds Hd _ IH]; [cbn [calls length]; by rewrite next_data_end|].
  cbn [length]. remember (S (length ds)) as n. cbn [calls]. by rewrite (next_data_open _ _ _ _ _ _ _ d), IH.
Qed.

Lemma next_data_load cfg c t da inbox b txs :
  t = mkL1Traversal (Some b) (lt_data_source t) false c cfg →
  get_block_transactions_by_hash (lt_data_source t) (bi_hash b) = Ok txs →
  let cs := omap (Calldata.batcher_data inbox (batcher_address c)) txs in
  next_data (mkL1Retrieval t (closed (lt_data_source t) da inbox) None)
  = next_data (mkL1Retrieval (L1Traversal.set_done true t) (opened (lt_data_source t) da inbox cs) (Some b)).
Proof.
  intros Ht Htxs cs. rewrite Ht. cbn [lt_data_source].
  unfold next_data, load_next, mbind, st_bind, catch, zoom. cbn -[Ethereum.next opened closed omap].
  by erewrite next_closed by exact Htxs.
Qed.
End delivery.

(** The data of an L1 block: when the traversal stage offers block [b] and the source is
    closed, the calls of [next_data] answer, in order and each once, the DA server's
    input for exactly the transactions of [b] sent by the batcher to the inbox, then
    [Eof]; the source is closed again, so that the next block can be read. *)
Theorem retrieval_delivers_block {CP DA : Type} `{!ChainProvider CP} `{!DAProvider DA} `{!AbiDecoder}
    (cp : CP) (da : DA) (inbox : Address) (b : BlockInfo) (c : SystemConfig) (cfg : SoonRollupConfig)
    (txs : list L1Transaction) (ds : list bytes) :
  let traversal done := mkL1Traversal (Some b) cp done c cfg in
  get_block_transactions_by_hash cp (bi_hash b) = Ok txs →
  Forall2 (λ commitment d, get_input da commitment = Ok d)
    (omap (Calldata.batcher_data inbox (batcher_address c)) txs) ds →
  calls (S (length ds)) (mkL1Retrieval (traversal false) (closed cp da inbox) None)
  = ((Ok <$> ds) ++ [Err (temp Eof)], mkL1Retrieval (traversal true) (closed cp da inbox) None).
Proof.
  intros traversal Htxs Hds. rewrite <- (calls_open (traversal true) cp da inbox b _ ds Hds).
  cbn [calls]. by rewrite (next_data_load cfg c (traversal false) da inbox b txs).
Qed.

(** ** Witnesses *)

#[local] Existing Instance word_abi.

Definition example_config : SystemConfig := set_batcher_address example_batcher SystemConfig_default.
Definition example_retrieval_block (done : bool) : L1Traversal (list ListedBlock) :=
  mkL1Traversal (Some (example_l1_block 2)) example_chain done example_config
    (new_for_genesis 1 example_inbox 0).

Lemma retrieval_delivers_block_witness :
  calls 3 (mkL1Retrieval (example_retrieval_block false) (closed example_chain Echo example_inbox) None)
  = ([Ok [byte1; byte0]; Ok [byte1; byte1]; Err (temp Eof)],
     mkL1Retrieval (example_retrieval_block true) (closed example_chain Echo example_inbox) None).
Proof.
  apply (retrieval_delivers_block example_chain Echo example_inbox (example_l1_block 2) example_config
           (new_for_genesis 1 example_inbox 0)
           [ example_tx example_batcher (Some example_inbox) [byte0];
             example_tx example_inbox (Some example_inbox) [z2b 9];
             example_tx example_batcher None [z2b 9];
             example_tx example_batcher (Some example_inbox) [byte1] ]
           [[byte1; byte0]; [byte1; byte1]]).
  - vm_compute. reflexivity.
  - vm_compute. repeat constructor.
Defined.

Lemma da_failure_loses_commitment_witness :
  Ethereum.next (example_l1_block 2) example_batcher
    (opened example_chain tt example_inbox [[byte0]; [byte1]])
  = (Err (temp (Provider "unavailable"%string)), opened example_chain tt example_inbox [[byte1]]).
Proof. exact (da_failure_loses_commitment example_chain tt example_inbox [byte0] [[byte1]] tt
                (example_l1_block 2) example_batcher eq_refl). Defined.

(** A reset does not close the source: the calls after it answer what was left of the block
    read before, then [Eof], on which the pipeline moves on to the next block without
    having read the block reset to. *)
Example reset_keeps_stale_data :
  let signalled := exec (signal_ (Reset (mkResetSignal (mkL2BlockInfo (example_l1_block 0) (bi_id (example_l1_block 2)) 0) (example_l1_block 2)
                                           (Some example_config))))
                     (mkL1Retrieval (example_retrieval_block true)
                        (opened example_chain Echo example_inbox [[z2b 5]]) (Some (example_l1_block 3))) in
  (calls 2 signalled).1 = [Ok [byte1; z2b 5]; Err (temp Eof)].
Proof. vm_compute. reflexivity. Qed.
