(* ===== verification/TxData.v ===== *)
(** The transaction data of span batches (src/crates/derive/src/batch/span_batch/tx_data/).

    A span batch keeps a transaction without the fields stored in columns of their own
    (nonce, gas limit, recipient, signature).  [span_tx_restores] shows that the data and
    the columns determine the transaction; [tx_data_codec] that the data survives its
    encoding.  The RLP coding of the records is derived by alloy_rlp and the transaction
    envelopes are alloy_consensus's: the class [TxCodec] stands for them. *)
From S2P Require Import Prelude Blocks SystemConfig Types SingleBatch SpanBatch.
#[local] Open Scope Z_scope.

(** * Transactions (alloy) *)

Definition AccessList := list (Address * list B256).
Record SignedAuthorization := mkSignedAuthorization {
  auth_chain_id : Z;
  auth_address : Address;
  auth_nonce : Z;
  auth_signature : Signature;
}.

Record TxLegacy := mkTxLegacy {
  tl_chain_id : option Z; tl_nonce : Z; tl_gas_price : Z; tl_gas_limit : Z;
  tl_to : option Address; tl_value : Z; tl_input : bytes;
}.
Record TxEip2930 := mkTxEip2930 {
  ta_chain_id : Z; ta_nonce : Z; ta_gas_price : Z; ta_gas_limit : Z;
  ta_to : option Address; ta_value : Z; ta_access_list : AccessList; ta_input : bytes;
}.
Record TxEip1559 := mkTxEip1559 {
  tf_chain_id : Z; tf_nonce : Z; tf_gas_limit : Z; tf_max_fee_per_gas : Z;
  tf_max_priority_fee_per_gas : Z; tf_to : option Address; tf_value : Z;
  tf_access_list : AccessList; tf_input : bytes;
}.
Record TxEip7702 := mkTxEip7702 {
  ts_chain_id : Z; ts_nonce : Z; ts_gas_limit : Z; ts_max_fee_per_gas : Z;
  ts_max_priority_fee_per_gas : Z; ts_to : Address; ts_value : Z; ts_access_list : AccessList;
  ts_authorization_list : list SignedAuthorization; ts_input : bytes;
}.

(** Signed transactions; a blob transaction only occurs as one that is refused. *)
Inductive TxEnvelope :=
| ELegacy (tx : TxLegacy) (sig : Signature)
| EEip2930 (tx : TxEip2930) (sig : Signature)
| EEip1559 (tx : TxEip1559) (sig : Signature)
| EEip4844 (raw : bytes)
| EEip7702 (tx : TxEip7702) (sig : Signature).

Definition envelope_type (self : TxEnvelope) : TxType :=
  match self with
  | ELegacy _ _ => Legacy
  | EEip2930 _ _ => Eip2930
  | EEip1559 _ _ => Eip1559
  | EEip4844 _ => Eip4844
  | EEip7702 _ _ => Eip7702
  end.

(** alloy's EIP-2718 type numbers. *)
Definition tx_type_number (t : TxType) : Z :=
  match t with Legacy => 0 | Eip2930 => 1 | Eip1559 => 2 | Eip4844 => 3 | Eip7702 => 4 end.
Definition tx_type_try_from (n : Z) : option TxType :=
  if decide (n = 0) then Some Legacy
  else if decide (n = 1) then Some Eip2930
  else if decide (n = 2) then Some Eip1559
  else if decide (n = 3) then Some Eip4844
  else if decide (n = 4) then Some Eip7702
  else None.

Lemma tx_type_try_from_number t : tx_type_try_from (tx_type_number t) = Some t.
Proof. by destruct t. Qed.

(** * Data *)

Record SpanBatchLegacyTransactionData := mkLegacyData {
  ld_value : Z; ld_gas_price : Z; ld_data : bytes;
}.
Record SpanBatchEip2930TransactionData := mkEip2930Data {
  ad_value : Z; ad_gas_price : Z; ad_data : bytes; ad_access_list : AccessList;
}.
Record SpanBatchEip1559TransactionData := mkEip1559Data {
  fd_value : Z; fd_max_priority_fee_per_gas : Z; fd_max_fee_per_gas : Z; fd_data : bytes;
  fd_access_list : AccessList;
}.
Record SpanBatchEip7702TransactionData := mkEip7702Data {
  sd_value : Z; sd_max_priority_fee_per_gas : Z; sd_max_fee_per_gas : Z; sd_data : bytes;
  sd_access_list : AccessList; sd_authorization_list : list SignedAuthorization;
}.

Inductive SpanBatchTransactionData :=
| DLegacy (d : SpanBatchLegacyTransactionData)
| DEip2930 (d : SpanBatchEip2930TransactionData)
| DEip1559 (d : SpanBatchEip1559TransactionData)
| DEip7702 (d : SpanBatchEip7702TransactionData).

(** The derived RLP codings of the records (an error is its message), alloy_rlp's
    [Header::decode] (is it a list, and its payload length) and [Header::length], and alloy's
    envelope codings. *)
Class TxCodec := {
  rlp_encode : SpanBatchTransactionData → bytes;
  rlp_decode_legacy : bytes → outcome string SpanBatchLegacyTransactionData;
  rlp_decode_eip2930 : bytes → outcome string SpanBatchEip2930TransactionData;
  rlp_decode_eip1559 : bytes → outcome string SpanBatchEip1559TransactionData;
  rlp_decode_eip7702 : bytes → outcome string SpanBatchEip7702TransactionData;
  rlp_header : bytes → option (bool * Z);
  length_of_length : Z → Z;
  encode_2718 : TxEnvelope → bytes;
  envelope_decode : bytes → outcome string TxEnvelope;
}.

(** The RLP coding of a record is a list (its first byte is at least 0xC0), has a header
    that gives its length, and is read back whatever follows it. *)
Class TxCodecLaws `{!TxCodec} := {
  rlp_head d : ∃ b l, rlp_encode d = b :: l ∧ 0xC0 <= b2z b;
  rlp_legacy d rest : rlp_decode_legacy (rlp_encode (DLegacy d) ++ rest) = Ok d;
  rlp_eip2930 d rest : rlp_decode_eip2930 (rlp_encode (DEip2930 d) ++ rest) = Ok d;
  rlp_eip1559 d rest : rlp_decode_eip1559 (rlp_encode (DEip1559 d) ++ rest) = Ok d;
  rlp_eip7702 d rest : rlp_decode_eip7702 (rlp_encode (DEip7702 d) ++ rest) = Ok d;
  rlp_header_item d rest : ∃ n, rlp_header (rlp_encode d ++ rest) = Some (true, n)
    ∧ n + length_of_length n = len (rlp_encode d);
}.

(** * Operations *)

(** [SpanBatchTransactionData::tx_type]. *)
Definition tx_type (self : SpanBatchTransactionData) : TxType :=
  match self with
  | DLegacy _ => Legacy
  | DEip2930 _ => Eip2930
  | DEip1559 _ => Eip1559
  | DEip7702 _ => Eip7702
  end.

Section codec.
Context `{!TxCodec}.

Definition encode (self : SpanBatchTransactionData) : bytes :=
  match self with
  | DLegacy _ => rlp_encode self
  | DEip2930 _ => z2b (tx_type_number Eip2930) :: rlp_encode self
  | DEip1559 _ => z2b (tx_type_number Eip1559) :: rlp_encode self
  | DEip7702 _ => z2b (tx_type_number Eip7702) :: rlp_encode self
  end.

Definition decode_typed (b : bytes) : outcome string SpanBatchTransactionData :=
  match b with
  | [] | [_] => Err "Invalid transaction data"%string
  | ty :: payload =>
      ty ← ok_or (tx_type_try_from (b2z ty)) "Invalid tx type"%string;
      match ty with
      | Eip2930 => DEip2930 <$> rlp_decode_eip2930 payload
      | Eip1559 => DEip1559 <$> rlp_decode_eip1559 payload
      | Eip7702 => DEip7702 <$> rlp_decode_eip7702 payload
      | Legacy | Eip4844 => Err "Invalid transaction type"%string
      end
  end.

Definition decode (r : bytes) : outcome string SpanBatchTransactionData :=
  match r with
  | b :: _ => if decide (b2z b > 0x7F) then DLegacy <$> rlp_decode_legacy r else decode_typed r
  | [] => decode_typed r
  end.
End codec.

(** [TryFrom<&TxEnvelope>]. *)
Definition data_try_from (tx_envelope : TxEnvelope) : outcome SpanBatchError SpanBatchTransactionData :=
  match tx_envelope with
  | ELegacy s _ => Ok (DLegacy (mkLegacyData (tl_value s) (tl_gas_price s) (tl_input s)))
  | EEip2930 s _ =>
      Ok (DEip2930 (mkEip2930Data (ta_value s) (ta_gas_price s) (ta_input s) (ta_access_list s)))
  | EEip1559 s _ =>
      Ok (DEip1559 (mkEip1559Data (tf_value s) (tf_max_priority_fee_per_gas s) (tf_max_fee_per_gas s)
                      (tf_input s) (tf_access_list s)))
  | EEip7702 s _ =>
      Ok (DEip7702 (mkEip7702Data (ts_value s) (ts_max_priority_fee_per_gas s) (ts_max_fee_per_gas s)
                      (ts_input s) (ts_access_list s) (ts_authorization_list s)))
  | EEip4844 _ => Err (Decoding InvalidTransactionType)
  end.

(** [u128::from_be_bytes(x.to_be_bytes::<32>()[16..])]. *)
Definition low_u128 (x : Z) : Z := be_val (drop 16 (be_bytes 32 x)).

Section to_signed.
Context (nonce gas : Z) (to : option Address) (chain_id : Z) (signature : Signature).

Definition legacy_to_signed_tx (is_protected : bool) (self : SpanBatchLegacyTransactionData) : TxEnvelope :=
  ELegacy (mkTxLegacy (if is_protected then Some chain_id else None) nonce (low_u128 (ld_gas_price self))
             gas to (ld_value self) (ld_data self)) signature.

Definition eip2930_to_signed_tx (self : SpanBatchEip2930TransactionData) : TxEnvelope :=
  EEip2930 (mkTxEip2930 chain_id nonce (low_u128 (ad_gas_price self)) gas to (ad_value self)
              (ad_access_list self) (ad_data self)) signature.

Definition eip1559_to_signed_tx (self : SpanBatchEip1559TransactionData) : TxEnvelope :=
  EEip1559 (mkTxEip1559 chain_id nonce gas (low_u128 (fd_max_fee_per_gas self))
              (low_u128 (fd_max_priority_fee_per_gas self)) to (fd_value self) (fd_access_list self)
              (fd_data self)) signature.

Definition eip7702_to_signed_tx (addr : Address) (self : SpanBatchEip7702TransactionData) : TxEnvelope :=
  EEip7702 (mkTxEip7702 chain_id nonce gas (low_u128 (sd_max_fee_per_gas self))
              (low_u128 (sd_max_priority_fee_per_gas self)) addr (sd_value self) (sd_access_list self)
              (sd_authorization_list self) (sd_data self)) signature.

Definition to_signed_tx (is_protected : bool) (self : SpanBatchTransactionData)
    : outcome SpanBatchError TxEnvelope :=
  match self with
  | DLegacy data => Ok (legacy_to_signed_tx is_protected data)
  | DEip2930 data => Ok (eip2930_to_signed_tx data)
  | DEip1559 data => Ok (eip1559_to_signed_tx data)
  | DEip7702 data =>
      match to with
      | None => Err (Decoding InvalidTransactionData)
      | Some addr => Ok (eip7702_to_signed_tx addr data)
      end
  end.
End to_signed.

(** * The columns of a transaction *)

Definition env_nonce (e : TxEnvelope) : Z :=
  match e with ELegacy t _ => tl_nonce t | EEip2930 t _ => ta_nonce t | EEip1559 t _ => tf_nonce t
  | EEip7702 t _ => ts_nonce t | EEip4844 _ => 0 end.
Definition env_gas (e : TxEnvelope) : Z :=
  match e with ELegacy t _ => tl_gas_limit t | EEip2930 t _ => ta_gas_limit t
  | EEip1559 t _ => tf_gas_limit t | EEip7702 t _ => ts_gas_limit t | EEip4844 _ => 0 end.
Definition env_to (e : TxEnvelope) : option Address :=
  match e with ELegacy t _ => tl_to t | EEip2930 t _ => ta_to t | EEip1559 t _ => tf_to t
  | EEip7702 t _ => Some (ts_to t) | EEip4844 _ => None end.
Definition env_chain_id (e : TxEnvelope) : option Z :=
  match e with ELegacy t _ => tl_chain_id t | EEip2930 t _ => Some (ta_chain_id t)
  | EEip1559 t _ => Some (tf_chain_id t) | EEip7702 t _ => Some (ts_chain_id t) | EEip4844 _ => None end.
Definition env_signature (e : TxEnvelope) : option Signature :=
  match e with ELegacy _ s | EEip2930 _ s | EEip1559 _ s | EEip7702 _ s => Some s | EEip4844 _ => None end.
(** alloy's [is_replay_protected]: typed transactions always are. *)
Definition env_protected (e : TxEnvelope) : bool :=
  match e with ELegacy t _ => bool_decide (is_Some (tl_chain_id t)) | _ => true end.

Abbreviation is_u128 := (in_width 128).
(** The gas prices are [u128] fields of alloy's transactions. *)
Definition env_wf (e : TxEnvelope) : Prop :=
  match e with
  | ELegacy t _ => is_u128 (tl_gas_price t)
  | EEip2930 t _ => is_u128 (ta_gas_price t)
  | EEip1559 t _ => is_u128 (tf_max_fee_per_gas t) ∧ is_u128 (tf_max_priority_fee_per_gas t)
  | EEip7702 t _ => is_u128 (ts_max_fee_per_gas t) ∧ is_u128 (ts_max_priority_fee_per_gas t)
  | EEip4844 _ => True
  end.

Lemma be_bytes_app n k z : be_bytes (n + k) z = be_bytes n (z / 256 ^ Z.of_nat k) ++ be_bytes k z.
Proof.
  induction n as [|n IH]; [done|]. rewrite Nat.add_succ_l.
  change (be_bytes (S (n + k)) z) with (z2b (z / 256 ^ Z.of_nat (n + k)) :: be_bytes (n + k) z).
  change (be_bytes (S n) (z / 256 ^ Z.of_nat k))
    with (z2b (z / 256 ^ Z.of_nat k / 256 ^ Z.of_nat n) :: be_bytes n (z / 256 ^ Z.of_nat k)).
  pose proof (Z.pow_pos_nonneg 256 (Z.of_nat k) ltac:(lia) ltac:(lia)).
  pose proof (Z.pow_pos_nonneg 256 (Z.of_nat n) ltac:(lia) ltac:(lia)).
  rewrite IH, Z.div_div, <- Z.pow_add_r by lia. cbn. do 3 f_equal. f_equal. lia.
Qed.

Lemma low_u128_small x : is_u128 x → low_u128 x = x.
Proof.
  intros Hx. unfold low_u128. rewrite (be_bytes_app 16 16), drop_app_length'.
  - by apply be_val_be_bytes_small.
  - by rewrite length_be_bytes.
Qed.

(** * Theorems *)

(** The data of a transaction survives its encoding, whatever follows it in the input. *)
Lemma tx_data_codec `{!TxCodec} `{!TxCodecLaws} (d : SpanBatchTransactionData) (rest : bytes) :
  decode (encode d ++ rest) = Ok d.
Proof.
  destruct (rlp_head d) as (b & l & Hl & Hb).
  destruct d as [d|d|d|d]; unfold encode.
  - pose proof (rlp_legacy d rest) as Hd. rewrite Hl in *. cbn -[b2z].
    cbn in Hd. destruct (decide _); [|lia]. by rewrite Hd.
  - pose proof (rlp_eip2930 d rest) as Hd. rewrite Hl in *. cbn in *. by rewrite Hd.
  - pose proof (rlp_eip1559 d rest) as Hd. rewrite Hl in *. cbn in *. by rewrite Hd.
  - pose proof (rlp_eip7702 d rest) as Hd. rewrite Hl in *. cbn in *. by rewrite Hd.
Qed.

(** Nothing is lost: the data of an accepted transaction together with its columns
    determine the transaction. *)
Lemma to_signed_tx_restores e d sig chain_id :
  data_try_from e = Ok d → env_wf e → env_signature e = Some sig →
  (∀ c, env_chain_id e = Some c → c = chain_id) →
  to_signed_tx (env_nonce e) (env_gas e) (env_to e) chain_id sig (env_protected e) d = Ok e.
Proof.
  intros Hd Hwf Hs Hc.
  destruct e as [[] ?|[] ?|[] ?|raw|[] ?]; cbn in *; simplify_eq; cbn;
    unfold legacy_to_signed_tx, eip2930_to_signed_tx, eip1559_to_signed_tx, eip7702_to_signed_tx; cbn;
    rewrite ?low_u128_small by tauto; try (rewrite <- (Hc _ eq_refl); done).
  do 3 f_equal. destruct tl_chain_id0 as [c|]; cbn; [|done]. by rewrite (Hc c).
Qed.

(** * A concrete codec

    An instance of [TxCodec] for concrete runs: a value is written as the bits of its
    [Countable] code between a list tag and a terminator. *)

#[global] Instance signature_countable : Countable Signature :=
  inj_countable' (λ s, (sig_r s, sig_s s, sig_y_parity s)) (λ '(r, s, v), mkSignature r s v) (λ '(mkSignature r s v), eq_refl).
#[global] Instance signed_authorization_eq_dec : EqDecision SignedAuthorization.
Proof. solve_decision. Defined.
#[global] Instance signed_authorization_countable : Countable SignedAuthorization :=
  inj_countable' (λ a, (auth_chain_id a, auth_address a, auth_nonce a, auth_signature a))
    (λ '(c, a, n, s), mkSignedAuthorization c a n s) (λ '(mkSignedAuthorization c a n s), eq_refl).

#[global] Instance legacy_data_eq_dec : EqDecision SpanBatchLegacyTransactionData.
Proof. solve_decision. Defined.
#[global] Instance legacy_data_countable : Countable SpanBatchLegacyTransactionData :=
  inj_countable' (λ d, (ld_value d, ld_gas_price d, ld_data d))
    (λ '(v, g, d), mkLegacyData v g d) (λ '(mkLegacyData v g d), eq_refl).
#[global] Instance eip2930_data_eq_dec : EqDecision SpanBatchEip2930TransactionData.
Proof. solve_decision. Defined.
#[global] Instance eip2930_data_countable : Countable SpanBatchEip2930TransactionData :=
  inj_countable' (λ d, (ad_value d, ad_gas_price d, ad_data d, ad_access_list d))
    (λ '(v, g, d, a), mkEip2930Data v g d a) (λ '(mkEip2930Data v g d a), eq_refl).
#[global] Instance eip1559_data_eq_dec : EqDecision SpanBatchEip1559TransactionData.
Proof. solve_decision. Defined.
#[global] Instance eip1559_data_countable : Countable SpanBatchEip1559TransactionData :=
  inj_countable'
    (λ d, (fd_value d, fd_max_priority_fee_per_gas d, fd_max_fee_per_gas d, fd_data d, fd_access_list d))
    (λ '(v, p, m, d, a), mkEip1559Data v p m d a) (λ '(mkEip1559Data v p m d a), eq_refl).
#[global] Instance eip7702_data_eq_dec : EqDecision SpanBatchEip7702TransactionData.
Proof. solve_decision. Defined.
#[global] Instance eip7702_data_countable : Countable SpanBatchEip7702TransactionData :=
  inj_countable'
    (λ d, (sd_value d, sd_max_priority_fee_per_gas d, sd_max_fee_per_gas d, sd_data d, sd_access_list d,
           sd_authorization_list d))
    (λ '(v, p, m, d, a, l), mkEip7702Data v p m d a l) (λ '(mkEip7702Data v p m d a l), eq_refl).

#[global] Instance legacy_eq_dec : EqDecision TxLegacy.
Proof. solve_decision. Defined.
#[global] Instance legacy_countable : Countable TxLegacy :=
  inj_countable' (λ t, (tl_chain_id t, tl_nonce t, tl_gas_price t, tl_gas_limit t, tl_to t, tl_value t, tl_input t))
    (λ '(c, n, g, l, t, v, i), mkTxLegacy c n g l t v i) (λ '(mkTxLegacy c n g l t v i), eq_refl).
#[global] Instance eip2930_eq_dec : EqDecision TxEip2930.
Proof. solve_decision. Defined.
#[global] Instance eip2930_countable : Countable TxEip2930 :=
  inj_countable'
    (λ t, (ta_chain_id t, ta_nonce t, ta_gas_price t, ta_gas_limit t, ta_to t, ta_value t, ta_access_list t, ta_input t))
    (λ '(c, n, g, l, t, v, a, i), mkTxEip2930 c n g l t v a i) (λ '(mkTxEip2930 c n g l t v a i), eq_refl).
#[global] Instance eip1559_eq_dec : EqDecision TxEip1559.
Proof. solve_decision. Defined.
#[global] Instance eip1559_countable : Countable TxEip1559 :=
  inj_countable'
    (λ t, (tf_chain_id t, tf_nonce t, tf_gas_limit t, tf_max_fee_per_gas t, tf_max_priority_fee_per_gas t,
           tf_to t, tf_value t, tf_access_list t, tf_input t))
    (λ '(c, n, l, m, p, t, v, a, i), mkTxEip1559 c n l m p t v a i)
    (λ '(mkTxEip1559 c n l m p t v a i), eq_refl).
#[global] Instance eip7702_eq_dec : EqDecision TxEip7702.
Proof. solve_decision. Defined.
#[global] Instance eip7702_countable : Countable TxEip7702 :=
  inj_countable'
    (λ t, (ts_chain_id t, ts_nonce t, ts_gas_limit t, ts_max_fee_per_gas t, ts_max_priority_fee_per_gas t,
           ts_to t, ts_value t, ts_access_list t, ts_authorization_list t, ts_input t))
    (λ '(c, n, l, m, p, t, v, a, u, i), mkTxEip7702 c n l m p t v a u i)
    (λ '(mkTxEip7702 c n l m p t v a u i), eq_refl).
#[global] Instance envelope_eq_dec : EqDecision TxEnvelope.
Proof. solve_decision. Defined.
#[global] Instance envelope_countable : Countable TxEnvelope :=
  inj_countable'
    (λ e, match e with
          | ELegacy t s => inl (inl (t, s))
          | EEip2930 t s => inl (inr (t, s))
          | EEip1559 t s => inr (inl (t, s))
          | EEip7702 t s => inr (inr (inl (t, s)))
          | EEip4844 r => inr (inr (inr r))
          end)
    (λ x, match x with
          | inl (inl (t, s)) => ELegacy t s
          | inl (inr (t, s)) => EEip2930 t s
          | inr (inl (t, s)) => EEip1559 t s
          | inr (inr (inl (t, s))) => EEip7702 t s
          | inr (inr (inr r)) => EEip4844 r
          end)
    ltac:(by intros []).

(** The bits of a positive, least significant first, closed by the byte 2. *)
Fixpoint write_bits (p : positive) : bytes :=
  match p with
  | xH => [z2b 2]
  | xO p => byte0 :: write_bits p
  | xI p => byte1 :: write_bits p
  end.
Fixpoint read_bits (l : bytes) : option positive :=
  match l with
  | [] => None
  | b :: l =>
      if decide (b2z b = 0) then xO <$> read_bits l
      else if decide (b2z b = 1) then xI <$> read_bits l
      else Some xH
  end.

Lemma read_write_bits p rest : read_bits (write_bits p ++ rest) = Some p.
Proof. induction p as [p IH|p IH|]; cbn; [by rewrite IH..|done]. Qed.

Definition write_item {A} `{Countable A} (a : A) : bytes := z2b 0xC0 :: write_bits (countable.encode a).
Definition read_item {A} `{Countable A} (l : bytes) : outcome string A :=
  match l with
  | [] => Err "InputTooShort"%string
  | _ :: l => ok_or (read_bits l ≫= countable.decode) "UnexpectedLength"%string
  end.

Lemma read_write_item {A} `{Countable A} (a : A) rest : read_item (write_item a ++ rest) = Ok a.
Proof. unfold read_item, write_item. cbn -[write_bits read_bits]. rewrite read_write_bits. cbn. by rewrite decode_encode. Qed.

#[global] Instance bit_codec : TxCodec := {|
  rlp_encode d :=
    match d with DLegacy d => write_item d | DEip2930 d => write_item d
    | DEip1559 d => write_item d | DEip7702 d => write_item d end;
  rlp_decode_legacy := read_item;
  rlp_decode_eip2930 := read_item;
  rlp_decode_eip1559 := read_item;
  rlp_decode_eip7702 := read_item;
  rlp_header l := match l with
                  | [] => None
                  | _ :: l => p ← read_bits l; Some (true, len (write_bits p))
                  end;
  length_of_length _ := 1;
  encode_2718 := write_item;
  envelope_decode := read_item;
|}.

#[global] Instance bit_codec_laws : TxCodecLaws.
Proof.
  split; intros; try apply read_write_item.
  - destruct d; eexists _, _; by split.
  - destruct d; eexists; (split; [cbn -[write_bits read_bits]; rewrite read_write_bits; reflexivity|]);
      cbn -[write_bits len]; unfold write_item; rewrite len_cons; lia.
Qed.
