(* ===== verification/SpanTxs.v ===== *)
(** The transactions of a span batch, stored by column
    (src/crates/derive/src/batch/span_batch/transactions.rs and utils.rs).

    [represents] relates the columns to the list of transactions they hold: every operation
    is specified against it.  [add_txs] extends the list, [full_txs] gives it back, and
    decoding an encoding gives the same columns. *)
From S2P Require Import Prelude Reader Blocks SystemConfig Types SingleBatch SpanBits SpanBatch TxData.
#[local] Open Scope Z_scope.

(** * The record *)

Abbreviation Txs := SpanBatchTransactions.

Definition default_txs : Txs := mkSpanBatchTransactions 0 [] [] [] [] [] [] [] [] 0.

Definition with_total (v : Z) (t : Txs) : Txs :=
  mkSpanBatchTransactions v (contract_creation_bits t) (tx_sigs t) (tx_nonces t) (tx_gases t) (tx_tos t)
    (tx_datas t) (protected_bits t) (tx_types t) (legacy_tx_count t).
Definition with_contract_creation_bits (v : bytes) (t : Txs) : Txs :=
  mkSpanBatchTransactions (total_block_tx_count t) v (tx_sigs t) (tx_nonces t) (tx_gases t) (tx_tos t)
    (tx_datas t) (protected_bits t) (tx_types t) (legacy_tx_count t).
Definition with_sigs (v : list Signature) (t : Txs) : Txs :=
  mkSpanBatchTransactions (total_block_tx_count t) (contract_creation_bits t) v (tx_nonces t) (tx_gases t)
    (tx_tos t) (tx_datas t) (protected_bits t) (tx_types t) (legacy_tx_count t).
Definition with_nonces (v : list Z) (t : Txs) : Txs :=
  mkSpanBatchTransactions (total_block_tx_count t) (contract_creation_bits t) (tx_sigs t) v (tx_gases t)
    (tx_tos t) (tx_datas t) (protected_bits t) (tx_types t) (legacy_tx_count t).
Definition with_gases (v : list Z) (t : Txs) : Txs :=
  mkSpanBatchTransactions (total_block_tx_count t) (contract_creation_bits t) (tx_sigs t) (tx_nonces t) v
    (tx_tos t) (tx_datas t) (protected_bits t) (tx_types t) (legacy_tx_count t).
Definition with_tos (v : list Address) (t : Txs) : Txs :=
  mkSpanBatchTransactions (total_block_tx_count t) (contract_creation_bits t) (tx_sigs t) (tx_nonces t)
    (tx_gases t) v (tx_datas t) (protected_bits t) (tx_types t) (legacy_tx_count t).
Definition with_datas (v : list bytes) (t : Txs) : Txs :=
  mkSpanBatchTransactions (total_block_tx_count t) (contract_creation_bits t) (tx_sigs t) (tx_nonces t)
    (tx_gases t) (tx_tos t) v (protected_bits t) (tx_types t) (legacy_tx_count t).
Definition with_protected_bits (v : bytes) (t : Txs) : Txs :=
  mkSpanBatchTransactions (total_block_tx_count t) (contract_creation_bits t) (tx_sigs t) (tx_nonces t)
    (tx_gases t) (tx_tos t) (tx_datas t) v (tx_types t) (legacy_tx_count t).
Definition with_types (v : list TxType) (t : Txs) : Txs :=
  mkSpanBatchTransactions (total_block_tx_count t) (contract_creation_bits t) (tx_sigs t) (tx_nonces t)
    (tx_gases t) (tx_tos t) (tx_datas t) (protected_bits t) v (legacy_tx_count t).
Definition with_legacy_count (v : Z) (t : Txs) : Txs :=
  mkSpanBatchTransactions (total_block_tx_count t) (contract_creation_bits t) (tx_sigs t) (tx_nonces t)
    (tx_gases t) (tx_tos t) (tx_datas t) (protected_bits t) (tx_types t) v.

Definition invalid_data : SpanBatchError := Decoding InvalidTransactionData.

(** * Encoding: the bytes every method appends to the writer *)

Definition encode_contract_creation_bits (self : Txs) : outcome SpanBatchError bytes :=
  SpanBits.encode (total_block_tx_count self) (contract_creation_bits self).
Definition encode_protected_bits (self : Txs) : outcome SpanBatchError bytes :=
  SpanBits.encode (legacy_tx_count self) (protected_bits self).

(** The parity bits set by the loop over [tx_sigs]; [i] is the index of the next one. *)
Fixpoint y_parity_loop (i : Z) (sigs : list Signature) (y_parity_bits : bytes)
    : outcome SpanBatchError bytes :=
  match sigs with
  | [] => Ok y_parity_bits
  | sig :: sigs =>
      y_parity_bits ← SpanBits.set_bit y_parity_bits i (sig_y_parity sig);
      y_parity_loop (i + 1) sigs y_parity_bits
  end.
Definition sig_bytes (sig : Signature) : bytes := be_bytes 32 (sig_r sig) ++ be_bytes 32 (sig_s sig).

Definition encode_tx_sigs (self : Txs) : outcome SpanBatchError bytes :=
  y_parity_bits ← y_parity_loop 0 (tx_sigs self) [];
  bits ← SpanBits.encode (total_block_tx_count self) y_parity_bits;
  Ok (bits ++ mjoin (sig_bytes <$> tx_sigs self)).

Definition encode_tx_tos (self : Txs) : bytes := mjoin (tx_tos self).
Definition encode_tx_datas (self : Txs) : bytes := mjoin (tx_datas self).

(** * Counting *)

(** The ones among the [n] lowest bits, and [u8::count_ones]. *)
Fixpoint ones (n : nat) (z : Z) : Z :=
  match n with
  | O => 0
  | S n => Z.b2z (Z.testbit z (Z.of_nat n)) + ones n z
  end.
Definition count_ones (b : byte) : Z := ones 8 (b2z b).

Definition contract_creation_count (self : Txs) : Z :=
  fold_right (λ b n, count_ones b + n) 0 (contract_creation_bits self).

(** [get(i)] of a vector, with a [u64] index. *)
Definition get {A} (l : list A) (i : Z) : option A := l !! Z.to_nat i.

Section codec.
Context `{!TxCodec} `{!Varint}.

Definition encode_tx_nonces (self : Txs) : bytes := mjoin (varint_encode <$> tx_nonces self).
Definition encode_tx_gases (self : Txs) : bytes := mjoin (varint_encode <$> tx_gases self).

Definition encode (self : Txs) : outcome SpanBatchError bytes :=
  contract_creation_bits ← encode_contract_creation_bits self;
  sigs ← encode_tx_sigs self;
  let tos := encode_tx_tos self in
  let datas := encode_tx_datas self in
  let nonces := encode_tx_nonces self in
  let gases := encode_tx_gases self in
  protected_bits ← encode_protected_bits self;
  Ok (contract_creation_bits ++ sigs ++ tos ++ datas ++ nonces ++ gases ++ protected_bits).

(** * Decoding *)

Definition decode_contract_creation_bits : ST (Reading Txs) SpanBatchError unit :=
  self ← gets fst;
  if decide (total_block_tx_count self > MAX_SPAN_BATCH_ELEMENTS) then fail TooBigSpanBatchSize
  else
    bits ← reading (SpanBits.decode (total_block_tx_count self));
    writing (with_contract_creation_bits bits).

Definition decode_protected_bits : ST (Reading Txs) SpanBatchError unit :=
  self ← gets fst;
  if decide (legacy_tx_count self > MAX_SPAN_BATCH_ELEMENTS) then fail TooBigSpanBatchSize
  else
    bits ← reading (SpanBits.decode (legacy_tx_count self));
    writing (with_protected_bits bits).

(** One signature; [r[..32]] and [r[32..64]] panic on a shorter input. *)
Definition decode_tx_sig (y_parity_bits : bytes) (i : Z) : ST bytes SpanBatchError Signature :=
  bit ← lift (SpanBits.get_bit y_parity_bits i);
  y_parity ← lift (expect bit);
  r ← gets id;
  r_val ← lift (slice r 0 32);
  s_val ← lift (slice r 32 64);
  _ ← advance 64;
  mret (mkSignature (be_val r_val) (be_val s_val) (bool_decide (y_parity = 1))).

Definition decode_tx_sigs : ST (Reading Txs) SpanBatchError unit :=
  self ← gets fst;
  y_parity_bits ← reading (SpanBits.decode (total_block_tx_count self));
  sigs ← reading (collect (decode_tx_sig y_parity_bits) (seqZ 0 (total_block_tx_count self)));
  writing (with_sigs sigs).

Definition decode_tx_nonces : ST (Reading Txs) SpanBatchError unit :=
  self ← gets fst;
  nonces ← reading (collect (λ _, read_varint (Decoding TxNonces)) (seqZ 0 (total_block_tx_count self)));
  writing (with_nonces nonces).

Definition decode_tx_gases : ST (Reading Txs) SpanBatchError unit :=
  self ← gets fst;
  gases ← reading (collect (λ _, read_varint (Decoding TxNonces)) (seqZ 0 (total_block_tx_count self)));
  writing (with_gases gases).

(** [r[..20]] panics on a shorter input. *)
Definition decode_tx_to (_ : Z) : ST bytes SpanBatchError Address :=
  r ← gets id;
  to ← lift (slice r 0 20);
  _ ← advance 20;
  mret to.

Definition decode_tx_tos : ST (Reading Txs) SpanBatchError unit :=
  self ← gets fst;
  let contract_creation_count := contract_creation_count self in
  tos ← reading (collect decode_tx_to
                   (seqZ 0 (u64_sub (total_block_tx_count self) contract_creation_count)));
  writing (with_tos tos).

(** [read_tx_data] of utils.rs: the raw bytes of the next transaction data, and its type.
    [read_tx_payload] is what follows the type byte. *)
Definition read_tx_payload (tx_type : Z) (tx_data : bytes) : ST bytes SpanBatchError (bytes * TxType) :=
  r ← gets id;
  '(is_list, payload_length) ← lift (ok_or (rlp_header r) invalid_data);
  if (is_list : bool) then
    let payload_length_with_header := payload_length + length_of_length payload_length in
    payload ← lift (slice r 0 payload_length_with_header);
    _ ← advance payload_length_with_header;
    ty ← lift (ok_or (tx_type_try_from tx_type) (Decoding InvalidTransactionType));
    mret (tx_data ++ payload, ty)
  else fail invalid_data.

Definition read_tx_data : ST bytes SpanBatchError (bytes * TxType) :=
  r ← gets id;
  first_byte ← lift (ok_or (head r) invalid_data);
  if decide (b2z first_byte <= 0x7F) then
    _ ← advance 1; read_tx_payload (b2z first_byte) [first_byte]
  else read_tx_payload 0 [].

(** One round of the loop of [decode_tx_datas], which also counts the legacy ones. *)
Definition decode_tx_data (_ : Z) : ST (Reading Txs) SpanBatchError (bytes * TxType) :=
  '(tx_data, tx_type) ← reading read_tx_data;
  _ ← (if decide (tx_type = Legacy)
       then writing (λ t, with_legacy_count (u64_add (legacy_tx_count t) 1) t) else mret tt);
  mret (tx_data, tx_type).

Definition decode_tx_datas : ST (Reading Txs) SpanBatchError unit :=
  self ← gets fst;
  items ← collect decode_tx_data (seqZ 0 (total_block_tx_count self));
  _ ← writing (with_datas (items.*1));
  writing (with_types (items.*2)).

Definition decode : ST (Reading Txs) SpanBatchError unit :=
  _ ← decode_contract_creation_bits;
  _ ← decode_tx_sigs;
  _ ← decode_tx_tos;
  _ ← decode_tx_datas;
  _ ← decode_tx_nonces;
  _ ← decode_tx_gases;
  decode_protected_bits.

(** * The raw transactions *)

(** The recipient of the transaction at [idx] and the next index into [tx_tos]. *)
Definition next_to (self : Txs) (bit to_idx : Z) : outcome SpanBatchError (option Address * Z) :=
  if decide (bit = 0) then
    if decide (len (tx_tos self) <= to_idx) then Err invalid_data
    else to ← index (tx_tos self) to_idx; Ok (Some to, to_idx + 1)
  else Ok (None, to_idx).

(** Whether a legacy transaction is protected, and the next index into the bits. *)
Definition next_protected (self : Txs) (ty : TxType) (protected_bit_idx : Z)
    : outcome SpanBatchError (bool * Z) :=
  if decide (ty = Legacy) then
    bit ← SpanBits.get_bit (protected_bits self) protected_bit_idx;
    Ok (bool_decide (default 0 bit = 1), protected_bit_idx + 1)
  else Ok (true, protected_bit_idx).

Fixpoint full_txs_loop (self : Txs) (chain_id to_idx protected_bit_idx : Z) (indices : list Z)
    : outcome SpanBatchError (list bytes) :=
  match indices with
  | [] => Ok []
  | idx :: indices =>
      datas ← index (tx_datas self) idx;
      tx ← map_err (λ _, invalid_data) (TxData.decode datas);
      nonce ← ok_or (get (tx_nonces self) idx) invalid_data;
      gas ← ok_or (get (tx_gases self) idx) invalid_data;
      bit ← SpanBits.get_bit (contract_creation_bits self) idx;
      bit ← ok_or bit invalid_data;
      '(to, to_idx) ← next_to self bit to_idx;
      sig ← ok_or (get (tx_sigs self) idx) invalid_data;
      '(is_protected, protected_bit_idx) ← next_protected self (tx_type tx) protected_bit_idx;
      tx_envelope ← to_signed_tx nonce gas to chain_id sig is_protected tx;
      txs ← full_txs_loop self chain_id to_idx protected_bit_idx indices;
      Ok (encode_2718 tx_envelope :: txs)
  end.

Definition full_txs (chain_id : Z) (self : Txs) : outcome SpanBatchError (list bytes) :=
  full_txs_loop self chain_id 0 0 (seqZ 0 (total_block_tx_count self)).

(** * Adding raw transactions *)

(** A legacy transaction takes the next protected bit. *)
Definition add_protected (e : TxEnvelope) : ST Txs SpanBatchError unit :=
  if decide (envelope_type e = Legacy) then
    self ← gets id;
    bits ← lift (SpanBits.set_bit (protected_bits self) (legacy_tx_count self) (env_protected e));
    _ ← modify (with_protected_bits bits);
    modify (λ t, with_legacy_count (u64_add (legacy_tx_count t) 1) t)
  else mret tt.

Definition check_chain_id (e : TxEnvelope) (chain_id : Z) : outcome SpanBatchError unit :=
  if env_protected e then
    tx_chain_id ← ok_or (env_chain_id e) invalid_data;
    if decide (tx_chain_id ≠ chain_id) then Err invalid_data else Ok tt
  else Ok tt.

(** Pushing the columns of an accepted transaction. *)
Definition push_columns (at_ : Z) (e : TxEnvelope) (signature : Signature) (tx_data_buf : bytes)
    : ST Txs SpanBatchError unit :=
  contract_creation_bit ←
    (match env_to e with
     | Some address => _ ← modify (λ t, with_tos (tx_tos t ++ [address]) t); mret 0
     | None => mret 1
     end);
  _ ← modify (λ t, with_sigs (tx_sigs t ++ [signature]) t);
  self ← gets id;
  bits ← lift (SpanBits.set_bit (contract_creation_bits self) at_ (bool_decide (contract_creation_bit = 1)));
  _ ← modify (with_contract_creation_bits bits);
  _ ← modify (λ t, with_nonces (tx_nonces t ++ [env_nonce e]) t);
  _ ← modify (λ t, with_datas (tx_datas t ++ [tx_data_buf]) t);
  _ ← modify (λ t, with_gases (tx_gases t ++ [env_gas e]) t);
  modify (λ t, with_types (tx_types t ++ [envelope_type e]) t).

Definition add_tx (chain_id offset : Z) (i_tx : Z * bytes) : ST Txs SpanBatchError unit :=
  let '(i, tx) := i_tx in
  tx_enveloped ← lift (map_err (λ _, invalid_data) (envelope_decode tx));
  span_batch_tx ← lift (data_try_from tx_enveloped);
  _ ← add_protected tx_enveloped;
  signature ← lift (ok_or (env_signature tx_enveloped) invalid_data);
  _ ← lift (check_chain_id tx_enveloped chain_id);
  push_columns (u64_add i offset) tx_enveloped signature (TxData.encode span_batch_tx).

Definition add_txs (txs : list bytes) (chain_id : Z) : ST Txs SpanBatchError unit :=
  let total_block_tx_count_ := len txs in
  offset ← gets total_block_tx_count;
  _ ← for_each (add_tx chain_id offset) (zip (seqZ 0 total_block_tx_count_) txs);
  modify (λ t, with_total (u64_add (total_block_tx_count t) total_block_tx_count_) t).
End codec.

(** * Bit lists as lists of booleans *)

Definition bits_are (bits : bytes) (l : list bool) : Prop :=
  len bits = buffer_len (len l) ∧
  ∀ i : nat, Z.testbit (be_val bits) (Z.of_nat i) = default false (l !! i).

Lemma buffer_len_snoc n : 0 <= n → buffer_len (n + 1) = Z.max (buffer_len n) (n / 8 + 1).
Proof.
  intros Hn. unfold buffer_len. pose proof (Z.div_mod n 8 ltac:(lia)).
  pose proof (Z.mod_pos_bound n 8 ltac:(lia)). pose proof (Z.div_mod (n + 1) 8 ltac:(lia)).
  pose proof (Z.mod_pos_bound (n + 1) 8 ltac:(lia)). repeat destruct (decide _); lia.
Qed.

Lemma bits_are_nil : bits_are [] [].
Proof. split; [done|]. intros i. apply Z.bits_0. Qed.

Lemma bits_are_snoc bits l b :
  bits_are bits l →
  ∃ bits', SpanBits.set_bit bits (len l) b = Ok bits' ∧ bits_are bits' (l ++ [b]).
Proof.
  intros [Hl Hb]. pose proof (len_nonneg l).
  destruct (set_bit_spec bits (len l) b ltac:(lia)) as (bits' & Hs & Hl' & Hb').
  exists bits'. split; [done|]. split.
  - rewrite Hl', Hl, len_app, len_cons, len_nil, buffer_len_snoc by done. lia.
  - intros i. rewrite Hb', Hb by lia. unfold len. destruct (decide _) as [Hi|Hi].
    + apply Nat2Z.inj in Hi as ->. by rewrite list_lookup_middle.
    + destruct (decide (i < length l)%nat); [by rewrite lookup_app_l|].
      rewrite !lookup_ge_None_2; [done|rewrite length_app; cbn; lia|lia].
Qed.

Lemma bits_are_bound bits l : bits_are bits l → be_val bits < 2 ^ len l.
Proof.
  intros [_ Hb]. pose proof (be_val_range bits) as Hr. pose proof (len_nonneg l).
  destruct (decide (be_val bits = 0)) as [->|Hn]; [pose proof (Z.pow_pos_nonneg 2 (len l)); lia|].
  apply Z.log2_lt_pow2; [lia|]. apply Z.nle_gt. intros Hle.
  pose proof (Z.bit_log2 (be_val bits) ltac:(lia)) as Ht.
  rewrite <- (Z2Nat.id (Z.log2 _)), Hb in Ht by apply Z.log2_nonneg.
  rewrite lookup_ge_None_2 in Ht; [done|]. unfold len in *. lia.
Qed.

Lemma encode_bits bits l : bits_are bits l → SpanBits.encode (len l) bits = Ok bits.
Proof.
  intros Hb. pose proof (bits_are_bound bits l Hb). destruct Hb as [Hl Hb].
  pose proof (len_nonneg l). unfold SpanBits.encode. pose proof (bit_len_le bits (len l) ltac:(lia)).
  rewrite decide_False by lia. cbv zeta. rewrite decide_False by lia.
  by rewrite Hl, Z.sub_diag.
Qed.

Lemma decode_bits bits l rest :
  bits_are bits l → SpanBits.decode (len l) (bits ++ rest) = (Ok bits, rest).
Proof.
  intros Hb. pose proof (bits_are_bound bits l Hb). destruct Hb as [Hl Hb].
  pose proof (len_nonneg l). pose proof (len_nonneg rest). unfold SpanBits.decode. rewrite <- Hl.
  rewrite decide_False by (rewrite len_app; lia).
  assert (Z.to_nat (len bits) = length bits) as -> by (unfold len; lia).
  rewrite take_app_length, drop_app_length. pose proof (bit_len_le bits (len l) ltac:(lia)).
  by rewrite decide_False by lia.
Qed.

Lemma get_bits bits pre b post :
  bits_are bits (pre ++ b :: post) → SpanBits.get_bit bits (len pre) = Ok (Some (Z.b2z b)).
Proof.
  intros [Hl Hb]. unfold len at 1. rewrite get_bit_testbit, Hb, list_lookup_middle by (done || lia).
  rewrite decide_True; [done|]. pose proof (len_nonneg post).
  pose proof (buffer_len_bound (len (pre ++ b :: post)) ltac:(apply len_nonneg)).
  rewrite len_app, len_cons in *. unfold len in *. lia.
Qed.

(** ** Counting the ones *)

Lemma ones_split n m z : ones (n + m) z = ones n (Z.shiftr z (Z.of_nat m)) + ones m z.
Proof.
  induction n as [|n IH]; [done|]. cbn [ones Nat.add]. rewrite IH, Z.shiftr_spec by lia.
  rewrite Nat2Z.inj_add. lia.
Qed.
Lemma ones_ext n z z' :
  (∀ i, 0 <= i < Z.of_nat n → Z.testbit z i = Z.testbit z' i) → ones n z = ones n z'.
Proof. induction n as [|n IH]; intros Hz; [done|]. cbn [ones]. rewrite Hz, IH; [done|intros; apply Hz|]; lia. Qed.

Lemma count_ones_val bits : fold_right (λ b n, count_ones b + n) 0 bits = ones (8 * length bits) (be_val bits).
Proof.
  induction bits as [|b bits IH]; [done|]. cbn [fold_right length].
  replace (8 * S (length bits))%nat with (8 + 8 * length bits)%nat by lia.
  rewrite ones_split, IH. unfold count_ones. rewrite be_val_cons.
  pose proof (be_val_range bits) as Hr. rewrite pow256 in * by apply len_nonneg.
  assert (Z.of_nat (8 * length bits) = 8 * len bits) as Hlen by (unfold len; lia).
  f_equal.
  - f_equal. rewrite Hlen, Z.shiftr_div_pow2 by lia.
    rewrite Z.div_add_l, Z.div_small, Z.add_0_r by lia. done.
  - apply ones_ext. intros i Hi. rewrite testbit_concat by lia. by rewrite decide_True by lia.
Qed.

(** The number of [true] in a list. *)
Definition trues (l : list bool) : Z := len (filter (λ b, b = true) l).

Lemma ones_trues n z l :
  (length l <= n)%nat → (∀ i : nat, Z.testbit z (Z.of_nat i) = default false (l !! i)) →
  ones n z = trues l.
Proof.
  revert z l. induction n as [|n IH]; intros z l Hl Hz.
  { destruct l; [done|cbn in Hl; lia]. }
  cbn [ones]. rewrite Hz. destruct (decide (length l <= n)%nat) as [Hle|Hgt].
  { rewrite lookup_ge_None_2 by lia. cbn. by apply IH. }
  destruct l as [|b l' _] using rev_ind; [cbn in *; lia|]. rewrite length_app in *. cbn in *.
  assert (n = length l') as Hn by lia.
  rewrite (ones_ext n z (Z.land z (Z.ones (Z.of_nat n)))).
  2: { intros i Hi. rewrite Z.land_spec, Z.ones_spec_low by lia. by rewrite andb_true_r. }
  rewrite (IH _ l'); [|lia|].
  - subst n. rewrite list_lookup_middle by done. unfold trues. rewrite filter_app, len_app.
    destruct b; [rewrite filter_cons_True by done|rewrite filter_cons_False by done];
      rewrite filter_nil, ?len_cons, ?(len_nil (A:=bool)); cbn [Z.b2z default]; unfold len; cbn; lia.
  - intros i. rewrite Z.land_spec. destruct (decide (i < n)%nat).
    + rewrite Z.ones_spec_low, andb_true_r, Hz by lia. by rewrite lookup_app_l by lia.
    + rewrite Z.ones_spec_high, andb_false_r by lia. by rewrite lookup_ge_None_2 by lia.
Qed.

Lemma contract_creation_count_trues t l :
  bits_are (contract_creation_bits t) l → contract_creation_count t = trues l.
Proof.
  intros [Hl Hb]. unfold contract_creation_count. rewrite count_ones_val. apply ones_trues; [|done].
  pose proof (buffer_len_bound (len l) ltac:(apply len_nonneg)). unfold len in *. lia.
Qed.

(** * The transactions the columns hold *)

Definition created (e : TxEnvelope) : bool := bool_decide (env_to e = None).
Definition legacies (es : list TxEnvelope) : list TxEnvelope :=
  filter (λ e, envelope_type e = Legacy) es.
Definition sig_of (e : TxEnvelope) : Signature := default (mkSignature 0 0 false) (env_signature e).

(** A transaction a span batch of [chain_id] can hold. *)
Definition accepted (chain_id : Z) (e : TxEnvelope) : Prop :=
  (∃ d, data_try_from e = Ok d) ∧ check_chain_id e chain_id = Ok tt.

Lemma accepted_chain chain_id e c : accepted chain_id e → env_chain_id e = Some c → c = chain_id.
Proof.
  intros [_ Hc] He. unfold check_chain_id in Hc.
  assert (env_protected e = true) as Hp.
  { destruct e; cbn in *; [|done..]. by rewrite He. }
  rewrite Hp, He in Hc. cbn in Hc. destruct (decide _) as [?|Hn]; [done|]. by apply dec_stable in Hn.
Qed.
Lemma accepted_signature chain_id e : accepted chain_id e → env_signature e = Some (sig_of e).
Proof. intros [[d Hd] _]. by destruct e. Qed.

Lemma legacies_snoc es e :
  legacies (es ++ [e]) = legacies es ++ (if decide (envelope_type e = Legacy) then [e] else []).
Proof.
  unfold legacies. by rewrite filter_app.
Qed.
Lemma len_legacies es : len (legacies es) <= len es.
Proof. unfold len, legacies. pose proof (length_filter (λ e, envelope_type e = Legacy) es). lia. Qed.
Lemma len_fmap {A B} (f : A → B) l : len (f <$> l) = len l.
Proof. unfold len. by rewrite length_fmap. Qed.

Lemma get_column {A} (f : TxEnvelope → A) pre e post : get (f <$> (pre ++ e :: post)) (len pre) = Some (f e).
Proof. unfold get, len. by rewrite Nat2Z.id, list_lookup_fmap, list_lookup_middle. Qed.
Lemma index_column {E A} (f : TxEnvelope → A) pre e post :
  index (E:=E) (f <$> (pre ++ e :: post)) (len pre) = Ok (f e).
Proof. rewrite fmap_app. apply index_app. symmetry. apply len_fmap. Qed.

Section represents.
Context `{!TxCodec} `{!Varint} (chain_id : Z).

Definition data_bytes (e : TxEnvelope) : bytes :=
  match data_try_from e with Ok d => TxData.encode d | _ => [] end.

(** Every column but the count. *)
Record columns (t : Txs) (es : list TxEnvelope) : Prop := {
  c_accepted : Forall (accepted chain_id) es;
  c_creation : bits_are (contract_creation_bits t) (created <$> es);
  c_sigs : tx_sigs t = sig_of <$> es;
  c_nonces : tx_nonces t = env_nonce <$> es;
  c_gases : tx_gases t = env_gas <$> es;
  c_tos : tx_tos t = omap env_to es;
  c_datas : tx_datas t = data_bytes <$> es;
  c_protected : bits_are (protected_bits t) (env_protected <$> legacies es);
  c_types : tx_types t = envelope_type <$> es;
  c_legacy : legacy_tx_count t = len (legacies es);
}.

Definition represents (t : Txs) (es : list TxEnvelope) : Prop :=
  total_block_tx_count t = len es ∧ columns t es.

Lemma default_represents : represents default_txs [].
Proof. split; [done|]. split; try done; apply bits_are_nil. Qed.

(** ** Adding a transaction *)

Lemma add_protected_columns t es e :
  len es + 1 < 2 ^ 64 → columns t es →
  ∃ t', add_protected e t = (Ok tt, t')
    ∧ bits_are (protected_bits t') (env_protected <$> legacies (es ++ [e]))
    ∧ legacy_tx_count t' = len (legacies (es ++ [e]))
    ∧ t' = with_legacy_count (legacy_tx_count t') (with_protected_bits (protected_bits t') t).
Proof.
  intros Hlen Hc. rewrite legacies_snoc, fmap_app. unfold add_protected.
  destruct (decide (envelope_type e = Legacy)).
  - destruct (bits_are_snoc _ _ (env_protected e) (c_protected _ _ Hc)) as (bits' & Hs & Hb).
    rewrite len_fmap, <- (c_legacy _ _ Hc) in Hs.
    eexists. split; [rewrite bind_run; cbn -[SpanBits.set_bit]; unfold lift; rewrite bind_run, Hs; reflexivity|].
    cbn. split_and!; [done| |done]. rewrite (c_legacy _ _ Hc), len_app, len_cons, len_nil.
    pose proof (len_legacies es). pose proof (len_nonneg (legacies es)).
    apply u64_add_small; lia.
  - exists t. rewrite !app_nil_r. split_and!; [done|apply Hc|apply Hc|by destruct t].
Qed.

Lemma push_columns_columns t es e at_ :
  at_ = len es → accepted chain_id e → columns t es →
  ∀ t1, bits_are (protected_bits t1) (env_protected <$> legacies (es ++ [e])) →
    legacy_tx_count t1 = len (legacies (es ++ [e])) →
    t1 = with_legacy_count (legacy_tx_count t1) (with_protected_bits (protected_bits t1) t) →
    ∃ t', push_columns at_ e (sig_of e) (data_bytes e) t1 = (Ok tt, t')
      ∧ columns t' (es ++ [e]) ∧ total_block_tx_count t' = total_block_tx_count t.
Proof.
  intros -> He Hc t1 Hp Hl Ht1.
  destruct (bits_are_snoc _ _ (created e) (c_creation _ _ Hc)) as (bits' & Hs & Hb).
  rewrite len_fmap in Hs.
  assert (contract_creation_bits t1 = contract_creation_bits t) as Hcc by (by rewrite Ht1).
  set (to_list := match env_to e with Some a => [a] | None => [] end).
  exists (mkSpanBatchTransactions (total_block_tx_count t) bits' (tx_sigs t ++ [sig_of e])
            (tx_nonces t ++ [env_nonce e]) (tx_gases t ++ [env_gas e]) (tx_tos t ++ to_list)
            (tx_datas t ++ [data_bytes e]) (protected_bits t1) (tx_types t ++ [envelope_type e])
            (legacy_tx_count t1)).
  split_and!; [| |done].
  - rewrite Ht1 in Hcc. unfold push_columns, created in *.
    rewrite Ht1; destruct (env_to e) as [a|]; cbn -[SpanBits.set_bit] in Hs |- *;
      unfold mbind, st_bind, lift; cbn -[SpanBits.set_bit];
      try change (bool_decide (0 = 1)) with false; try change (bool_decide (1 = 1)) with true;
      rewrite Hs; cbn; rewrite ?app_nil_r; done.
  - destruct Hc. split; cbn; rewrite ?fmap_app, ?omap_app; cbn; try congruence; try done.
    + apply Forall_app; split; [done|]. by apply Forall_singleton.
    + by rewrite c_tos0.
Qed.

Lemma add_tx_columns t es i offset tx e :
  i + offset = len es → 0 <= i → 0 <= offset → len es + 1 < 2 ^ 64 →
  envelope_decode tx = Ok e → accepted chain_id e → columns t es →
  ∃ t', add_tx chain_id offset (i, tx) t = (Ok tt, t') ∧ columns t' (es ++ [e])
    ∧ total_block_tx_count t' = total_block_tx_count t.
Proof.
  intros Hi Hi0 Ho0 Hlen Hd He Hc. pose proof He as [[d Hdata] Hchain].
  destruct (add_protected_columns t es e Hlen Hc) as (t1 & Ht1 & Hp & Hl & Heq).
  destruct (push_columns_columns t es e (len es) eq_refl He Hc t1 Hp Hl Heq) as (t' & Hpush & Hc' & Htot).
  exists t'. split; [|done]. unfold add_tx, lift. cbv beta. rewrite bind_run, Hd. cbn [map_err].
  rewrite bind_run, Hdata. rewrite bind_run, Ht1.
  rewrite bind_run, (accepted_signature _ _ He). cbn [ok_or]. rewrite bind_run, Hchain.
  rewrite u64_add_small, Hi by lia. unfold data_bytes in Hpush. by rewrite Hdata in Hpush.
Qed.

Lemma add_loop_columns txs : ∀ i offset new es t,
  i + offset = len es → 0 <= i → 0 <= offset → len es + len txs < 2 ^ 64 →
  Forall2 (λ tx e, envelope_decode tx = Ok e) txs new → Forall (accepted chain_id) new →
  columns t es →
  ∃ t', for_each (add_tx chain_id offset) (zip (seqZ i (len txs)) txs) t = (Ok tt, t')
    ∧ columns t' (es ++ new) ∧ total_block_tx_count t' = total_block_tx_count t.
Proof.
  induction txs as [|tx txs IH]; intros i offset new es t Hi Hi0 Ho0 Hlen Hdec Hacc Hc.
  - apply Forall2_nil_inv_l in Hdec as ->. exists t. rewrite app_nil_r. done.
  - apply Forall2_cons_inv_l in Hdec as (e & new' & Hd & Hdec & ->).
    apply Forall_cons in Hacc as [He Hacc]. rewrite len_cons in *. pose proof (len_nonneg txs).
    destruct (add_tx_columns t es i offset tx e) as (t1 & Ht1 & Hc1 & Htot1); [lia..|done|done|done|].
    destruct (IH (i + 1) offset new' (es ++ [e]) t1) as (t' & Ht' & Hc' & Htot'); try done;
      try (rewrite len_app, len_cons, len_nil; lia); [lia|].
    exists t'. rewrite seqZ_cons by lia. cbn [zip zip_with for_each].
    replace (Z.pred (1 + len txs)) with (len txs) by lia. rewrite bind_run, Ht1.
    replace (Z.succ i) with (i + 1) by lia. rewrite <- app_assoc in Hc'. split_and!; [done|done|congruence].
Qed.

Lemma add_txs_represents t es txs new :
  len es + len txs < 2 ^ 64 →
  Forall2 (λ tx e, envelope_decode tx = Ok e) txs new → Forall (accepted chain_id) new →
  represents t es →
  ∃ t', add_txs txs chain_id t = (Ok tt, t') ∧ represents t' (es ++ new).
Proof.
  intros Hlen Hdec Hacc [Htot Hc]. pose proof (len_nonneg es). pose proof (len_nonneg txs).
  destruct (add_loop_columns txs 0 (len es) new es t) as (t' & Ht' & Hc' & Htot'); try done.
  exists (with_total (u64_add (total_block_tx_count t') (len txs)) t'). split.
  - unfold add_txs, gets. rewrite bind_run, Htot. rewrite bind_run, Ht'. done.
  - split.
    + cbn. rewrite Htot', Htot, u64_add_small by lia. rewrite len_app. f_equal.
      unfold len. by rewrite (Forall2_length _ _ _ Hdec).
    + destruct Hc'. by split.
Qed.

(** ** Reading the transactions back *)

Lemma next_to_columns t done_ e rest :
  columns t (done_ ++ e :: rest) →
  next_to t (Z.b2z (created e)) (len (omap env_to done_))
  = Ok (env_to e, len (omap env_to (done_ ++ [e]))).
Proof.
  intros Hc. unfold next_to, created. rewrite omap_app. cbn. pose proof (c_tos _ _ Hc) as Ht.
  rewrite omap_app in Ht. cbn in Ht. destruct (env_to e) as [a|] eqn:Ha; cbn.
  - rewrite (decide_True (P:=0 = 0)) by done. rewrite decide_False.
    + rewrite Ht, index_app by done. cbn. do 2 f_equal. by rewrite len_app.
    + rewrite Ht, len_app, len_cons. pose proof (len_nonneg (omap env_to rest)). lia.
  - by rewrite app_nil_r.
Qed.

Lemma next_protected_columns t done_ e rest :
  columns t (done_ ++ e :: rest) →
  next_protected t (envelope_type e) (len (legacies done_))
  = Ok (env_protected e, len (legacies (done_ ++ [e]))).
Proof.
  intros Hc. unfold next_protected. rewrite legacies_snoc.
  destruct (decide (envelope_type e = Legacy)) as [Hl|Hn].
  - pose proof (c_protected _ _ Hc) as Hp. unfold legacies in Hp at 1.
    rewrite filter_app, filter_cons_True in Hp by done. fold (legacies done_) in Hp.
    rewrite fmap_app in Hp. cbn in Hp. apply get_bits in Hp. rewrite len_fmap in Hp. rewrite Hp.
    cbn. rewrite len_app, len_cons, len_nil. by destruct (env_protected e).
  - rewrite app_nil_r. by destruct e.
Qed.

Lemma data_tx_type e d : data_try_from e = Ok d → tx_type d = envelope_type e.
Proof. by destruct e; cbn; intros; simplify_eq. Qed.

Lemma full_loop_columns `{!TxCodecLaws} t rest : ∀ done_,
  columns t (done_ ++ rest) → Forall env_wf rest →
  full_txs_loop t chain_id (len (omap env_to done_)) (len (legacies done_))
    (seqZ (len done_) (len rest)) = Ok (encode_2718 <$> rest).
Proof.
  induction rest as [|e rest IH]; intros done_ Hc Hwf; [done|].
  apply Forall_cons in Hwf as [He Hwf]. rewrite len_cons, seqZ_cons by (pose proof (len_nonneg rest); lia).
  replace (Z.pred (1 + len rest)) with (len rest) by lia.
  replace (Z.succ (len done_)) with (len (done_ ++ [e])) by (rewrite len_app, len_cons, len_nil; lia).
  assert (columns t ((done_ ++ [e]) ++ rest)) as Hc' by (by rewrite <- app_assoc).
  specialize (IH _ Hc' Hwf). pose proof (c_accepted _ _ Hc) as Hacc.
  apply Forall_app in Hacc as [_ [Hacc _]%Forall_cons]. pose proof Hacc as [[d Hd] _].
  cbn [full_txs_loop]. rewrite (c_datas _ _ Hc), (c_nonces _ _ Hc), (c_gases _ _ Hc), (c_sigs _ _ Hc).
  rewrite index_column. cbn [mbind outcome_bind]. unfold data_bytes. rewrite Hd.
  rewrite <- (app_nil_r (TxData.encode d)), tx_data_codec. cbn [map_err mbind outcome_bind].
  rewrite !get_column. cbn [ok_or mbind outcome_bind].
  pose proof (c_creation _ _ Hc) as Hcr. rewrite fmap_app in Hcr. cbn in Hcr. apply get_bits in Hcr.
  rewrite len_fmap in Hcr. rewrite Hcr.
  cbn [ok_or mbind outcome_bind]. rewrite (next_to_columns _ _ _ _ Hc). cbn [mbind outcome_bind].
  rewrite (data_tx_type _ _ Hd), (next_protected_columns _ _ _ _ Hc). cbn [mbind outcome_bind].
  rewrite (to_signed_tx_restores e d (sig_of e) chain_id Hd He).
  - cbn [mbind outcome_bind]. by rewrite IH.
  - by eapply accepted_signature.
  - intros c Hce. by eapply accepted_chain.
Qed.

Lemma full_txs_represents `{!TxCodecLaws} t es :
  represents t es → Forall env_wf es → full_txs chain_id t = Ok (encode_2718 <$> es).
Proof.
  intros [Htot Hc] Hwf. unfold full_txs. rewrite Htot. by apply (full_loop_columns t es []).
Qed.
End represents.

(** * The encoding read back *)

(** The fields whose widths the encoding relies on. *)
Definition env_bounded (e : TxEnvelope) : Prop :=
  is_u64 (env_nonce e) ∧ is_u64 (env_gas e) ∧ (∀ a, env_to e = Some a → len a = 20)
  ∧ in_width 256 (sig_r (sig_of e)) ∧ in_width 256 (sig_s (sig_of e)).

Section codec_laws.
Context `{!TxCodec} `{!TxCodecLaws} `{!Varint} `{!VarintLaws} (chain_id : Z).

Lemma y_parity_loop_bits sigs : ∀ done_ y,
  bits_are y (sig_y_parity <$> done_) →
  ∃ y', y_parity_loop (len done_) sigs y = Ok y' ∧ bits_are y' (sig_y_parity <$> (done_ ++ sigs)).
Proof.
  induction sigs as [|s sigs IH]; intros done_ y Hy; [exists y; by rewrite app_nil_r|].
  destruct (bits_are_snoc _ _ (sig_y_parity s) Hy) as (y1 & Hs & Hy1). rewrite len_fmap in Hs.
  destruct (IH (done_ ++ [s]) y1) as (y' & Hy' & Hb); [by rewrite fmap_app|].
  exists y'. cbn [y_parity_loop]. rewrite Hs. cbn [mbind outcome_bind].
  rewrite len_app, len_cons, len_nil in Hy'. rewrite <- app_assoc in Hb. done.
Qed.

Lemma decode_tx_sig_bytes y i s r :
  in_width 256 (sig_r s) → in_width 256 (sig_s s) →
  SpanBits.get_bit y i = Ok (Some (Z.b2z (sig_y_parity s))) →
  decode_tx_sig y i (sig_bytes s ++ r) = (Ok s, r).
Proof.
  intros Hr Hs Hy. unfold decode_tx_sig, lift. rewrite bind_run, Hy. cbn [expect]. rewrite bind_run.
  unfold gets at 1. rewrite bind_run. unfold id, sig_bytes. rewrite <- app_assoc.
  rewrite bind_run, slice_app by (by rewrite len_be_bytes).
  rewrite bind_run, (slice_app_r (be_bytes 32 (sig_r s))) by (by rewrite ?len_be_bytes).
  rewrite bind_run, app_assoc, advance_app by (by rewrite len_app, !len_be_bytes).
  rewrite !be_val_be_bytes_small by done. by destruct s as [? ? []].
Qed.

Lemma decode_tx_to_bytes i (a : Address) r : len a = 20 → decode_tx_to i (a ++ r) = (Ok a, r).
Proof.
  intros Ha. unfold decode_tx_to, lift, gets, id. rewrite bind_run. rewrite bind_run.
  rewrite slice_app by done. by rewrite bind_run, advance_app.
Qed.

Lemma read_tx_payload_item ty t pre d r :
  tx_type_try_from ty = Some t →
  read_tx_payload ty pre (rlp_encode d ++ r) = (Ok (pre ++ rlp_encode d, t), r).
Proof.
  intros Ht. destruct (rlp_header_item d r) as (n & Hn & Hl).
  unfold read_tx_payload, lift, gets, id. rewrite bind_run. rewrite bind_run, Hn. cbn [ok_or].
  rewrite bind_run, slice_app by done. rewrite bind_run, advance_app by done.
  by rewrite bind_run, Ht.
Qed.

Lemma read_tx_data_typed ty t d r :
  0 <= ty <= 0x7F → tx_type_try_from ty = Some t →
  read_tx_data ((z2b ty :: rlp_encode d) ++ r) = (Ok (z2b ty :: rlp_encode d, t), r).
Proof.
  intros Hty Ht. unfold read_tx_data, gets, id, lift. rewrite bind_run. cbn [app].
  rewrite bind_run. cbn [head ok_or]. rewrite b2z_z2b, Z.mod_small, decide_True by lia.
  rewrite bind_run, advance_cons. by apply (read_tx_payload_item _ _ [_]).
Qed.

Lemma read_tx_data_bytes e r :
  accepted chain_id e → read_tx_data (data_bytes e ++ r) = (Ok (data_bytes e, envelope_type e), r).
Proof.
  intros [[d Hd] _]. unfold data_bytes. rewrite Hd. destruct (rlp_head d) as (b & l & Hl & Hb).
  destruct e as [tx s|tx s|tx s|raw|tx s]; cbn in Hd; simplify_eq; cbn [TxData.encode envelope_type].
  - match type of Hl with rlp_encode ?d = _ =>
      pose proof (read_tx_payload_item 0 Legacy [] d r eq_refl) as Hp end.
    cbn [app] in Hp. rewrite Hl in *. unfold read_tx_data, gets, id, lift. rewrite bind_run.
    cbn [app head ok_or]. rewrite bind_run, decide_False by lia. exact Hp.
  - by apply (read_tx_data_typed (tx_type_number Eip2930)).
  - by apply (read_tx_data_typed (tx_type_number Eip1559)).
  - by apply (read_tx_data_typed (tx_type_number Eip7702)).
Qed.

(** ** Every column *)

Lemma length_seqZ_len {A B} (f : A → B) (l : list A) : length (seqZ 0 (len l)) = length (f <$> l).
Proof. rewrite length_seqZ, length_fmap. unfold len. lia. Qed.

Lemma decode_sigs_bytes y (es : list TxEnvelope) r :
  Forall env_bounded es → bits_are y (sig_y_parity <$> (sig_of <$> es)) →
  collect (decode_tx_sig y) (seqZ 0 (len es)) (mjoin (sig_bytes <$> (sig_of <$> es)) ++ r)
  = (Ok (sig_of <$> es), r).
Proof.
  intros Hb Hy. apply collect_items; [apply length_seqZ_len|].
  intros k i s r' Hi Hs. apply lookup_seqZ in Hi as [-> _].
  rewrite list_lookup_fmap in Hs. destruct (es !! k) as [e|] eqn:He; [|done]. injection Hs as <-.
  apply list_elem_of_split_length in He as (pre & post & -> & ->).
  apply Forall_app in Hb as [_ [Hb _]%Forall_cons]. apply decode_tx_sig_bytes; [apply Hb..|].
  rewrite !fmap_app in Hy. cbn in Hy. apply get_bits in Hy. rewrite !len_fmap in Hy. exact Hy.
Qed.

Lemma decode_tos_bytes (es : list TxEnvelope) r :
  Forall env_bounded es →
  collect decode_tx_to (seqZ 0 (len (omap env_to es))) (mjoin (omap env_to es) ++ r)
  = (Ok (omap env_to es), r).
Proof.
  intros Hb. rewrite <- (list_fmap_id (omap env_to es)) at 2. apply collect_items.
  { rewrite length_seqZ. unfold len. lia. }
  intros k i a r' _ Ha. apply decode_tx_to_bytes.
  apply list_elem_of_lookup_2, list_elem_of_omap in Ha as (e & He & Ha).
  rewrite Forall_forall in Hb. by apply (Hb e He).
Qed.

Lemma decode_varints (e : SpanBatchError) (f : TxEnvelope → Z) (es : list TxEnvelope) r :
  Forall (λ e, is_u64 (f e)) es →
  collect (λ _, read_varint e) (seqZ 0 (len es)) (mjoin (varint_encode <$> (f <$> es)) ++ r)
  = (Ok (f <$> es), r).
Proof.
  intros Hf. apply collect_items; [apply length_seqZ_len|].
  intros k i n r' _ Hn. apply read_varint_encode.
  apply list_elem_of_lookup_2, list_elem_of_fmap in Hn as (tx & -> & Htx).
  rewrite Forall_forall in Hf. by apply Hf.
Qed.

Lemma decode_datas_bytes es : ∀ i t r,
  Forall (accepted chain_id) es → 0 <= legacy_tx_count t → legacy_tx_count t + len es < 2 ^ 64 →
  collect decode_tx_data (seqZ i (len es)) (t, mjoin (data_bytes <$> es) ++ r)
  = (Ok ((λ e, (data_bytes e, envelope_type e)) <$> es),
     (with_legacy_count (legacy_tx_count t + len (legacies es)) t, r)).
Proof.
  induction es as [|e es IH]; intros i t r Hacc Hnn Hlen.
  { cbn. rewrite len_nil, Z.add_0_r. by destruct t. }
  apply Forall_cons in Hacc as [He Hacc]. rewrite len_cons in *. pose proof (len_nonneg es).
  rewrite seqZ_cons by lia. replace (Z.pred (1 + len es)) with (len es) by lia.
  cbn [collect fmap list_fmap mjoin list_join concat]. rewrite bind_run.
  unfold decode_tx_data at 1. rewrite bind_run, <- app_assoc.
  rewrite (reading_Ok _ _ _ _ _ (read_tx_data_bytes e _ He)). rewrite bind_run.
  unfold legacies. rewrite filter_cons. fold (legacies es).
  destruct (decide (envelope_type e = Legacy)).
  - cbn [writing modify fst snd]. unfold writing, modify. cbn [fst snd mret st_ret].
    rewrite u64_add_small by lia. rewrite bind_run, IH by (cbn; lia || done).
    rewrite len_cons, Z.add_assoc. done.
  - cbn [mret st_ret]. rewrite bind_run, IH by (lia || done). done.
Qed.

Lemma trues_created es : trues (created <$> es) + len (omap env_to es) = len es.
Proof.
  unfold trues. induction es as [|e es IH]; [done|]. rewrite fmap_cons, filter_cons, len_cons.
  cbn [omap list_omap]. assert (created e = bool_decide (env_to e = None)) as Hc by done.
  destruct (env_to e); rewrite ?bool_decide_eq_false_2, ?bool_decide_eq_true_2 in Hc by done;
    rewrite Hc; cbn [decide decide_rel bool_eq_dec]; rewrite ?decide_False, ?decide_True, ?len_cons by done; lia.
Qed.

(** ** The whole record *)

Lemma encode_represents t es :
  represents chain_id t es →
  ∃ y, bits_are y (sig_y_parity <$> (sig_of <$> es)) ∧
  encode t = Ok (contract_creation_bits t
    ++ (y ++ mjoin (sig_bytes <$> (sig_of <$> es))) ++ mjoin (omap env_to es)
    ++ mjoin (data_bytes <$> es) ++ mjoin (varint_encode <$> (env_nonce <$> es))
    ++ mjoin (varint_encode <$> (env_gas <$> es)) ++ protected_bits t).
Proof.
  intros [Htot Hc]. destruct (y_parity_loop_bits (sig_of <$> es) [] [] bits_are_nil) as (y & Hy & Hyb).
  exists y. split; [exact Hyb|]. unfold encode, encode_contract_creation_bits, encode_tx_sigs, encode_protected_bits,
    encode_tx_tos, encode_tx_datas, encode_tx_nonces, encode_tx_gases.
  rewrite Htot, (c_sigs _ _ _ Hc), (c_tos _ _ _ Hc), (c_datas _ _ _ Hc), (c_nonces _ _ _ Hc),
    (c_gases _ _ _ Hc), (c_legacy _ _ _ Hc).
  pose proof (encode_bits _ _ (c_creation _ _ _ Hc)) as Hcr. rewrite len_fmap in Hcr. rewrite Hcr.
  change (len []) with 0 in Hy. cbn [mbind outcome_bind]. rewrite Hy. cbn [mbind outcome_bind].
  cbn [app] in Hyb. apply encode_bits in Hyb. rewrite !len_fmap in Hyb. rewrite Hyb. cbn [mbind outcome_bind].
  pose proof (encode_bits _ _ (c_protected _ _ _ Hc)) as Hpr. rewrite len_fmap in Hpr. by rewrite Hpr.
Qed.

Lemma run_gets_fst {T E A} (k : T → ST (Reading T) E A) s : (x ← gets fst; k x) s = k s.1 s.
Proof. done. Qed.
Lemma run_reading {T E A B} (m : ST bytes E A) (k : A → ST (Reading T) E B) t r a r' :
  m r = (Ok a, r') → (x ← reading m; k x) (t, r) = k a (t, r').
Proof. intros Hm. by rewrite bind_run, (reading_Ok _ _ _ _ _ Hm). Qed.

Lemma run_writing {T E} (f : T → T) t r : writing (E:=E) f (t, r) = (Ok tt, (f t, r)).
Proof. done. Qed.

Section steps.
Context (es : list TxEnvelope) (t : Txs) (r : bytes).
Context (Htot : total_block_tx_count t = len es) (Hb : Forall env_bounded es).

Lemma decode_contract_creation_bits_step bits :
  len es <= MAX_SPAN_BATCH_ELEMENTS → bits_are bits (created <$> es) →
  decode_contract_creation_bits (t, bits ++ r) = (Ok tt, (with_contract_creation_bits bits t, r)).
Proof using Htot.
  intros Hmax Hbits. unfold decode_contract_creation_bits. rewrite run_gets_fst. cbn [fst].
  rewrite Htot, decide_False by lia. apply (decode_bits _ _ r) in Hbits. rewrite len_fmap in Hbits.
  by rewrite (run_reading _ _ _ _ _ _ Hbits).
Qed.

Lemma decode_tx_sigs_step y :
  bits_are y (sig_y_parity <$> (sig_of <$> es)) →
  decode_tx_sigs (t, y ++ mjoin (sig_bytes <$> (sig_of <$> es)) ++ r)
  = (Ok tt, (with_sigs (sig_of <$> es) t, r)).
Proof using Htot Hb.
  intros Hy. unfold decode_tx_sigs. rewrite run_gets_fst. cbn [fst]. rewrite Htot.
  pose proof (decode_bits _ _ (mjoin (sig_bytes <$> (sig_of <$> es)) ++ r) Hy) as Hd.
  rewrite !len_fmap in Hd. rewrite (run_reading _ _ _ _ _ _ Hd).
  by rewrite (run_reading _ _ _ _ _ _ (decode_sigs_bytes _ _ _ Hb Hy)).
Qed.

Lemma decode_tx_tos_step :
  len es < 2 ^ 64 → bits_are (contract_creation_bits t) (created <$> es) →
  decode_tx_tos (t, mjoin (omap env_to es) ++ r) = (Ok tt, (with_tos (omap env_to es) t, r)).
Proof using Htot Hb.
  intros Hlen Hbits. unfold decode_tx_tos. rewrite run_gets_fst. cbn [fst].
  rewrite Htot, (contract_creation_count_trues _ (created <$> es)) by done.
  pose proof (trues_created es). pose proof (len_nonneg (omap env_to es)).
  assert (0 <= trues (created <$> es)) by apply len_nonneg.
  rewrite u64_sub_small by lia.
  replace (len es - trues (created <$> es)) with (len (omap env_to es)) by lia.
  by rewrite (run_reading _ _ _ _ _ _ (decode_tos_bytes _ _ Hb)).
Qed.

Lemma decode_tx_datas_step :
  Forall (accepted chain_id) es → legacy_tx_count t = 0 → len es < 2 ^ 64 →
  decode_tx_datas (t, mjoin (data_bytes <$> es) ++ r)
  = (Ok tt, (with_types (envelope_type <$> es) (with_datas (data_bytes <$> es)
               (with_legacy_count (len (legacies es)) t)), r)).
Proof using Htot H0.
  intros Hacc Hl Hlen. unfold decode_tx_datas. rewrite run_gets_fst. cbn [fst]. rewrite Htot.
  rewrite bind_run, decode_datas_bytes by (done || lia). rewrite bind_run, !run_writing.
  rewrite Hl, <- !list_fmap_compose. done.
Qed.

Lemma decode_tx_nonces_step :
  decode_tx_nonces (t, mjoin (varint_encode <$> (env_nonce <$> es)) ++ r)
  = (Ok tt, (with_nonces (env_nonce <$> es) t, r)).
Proof using Htot Hb H2.
  unfold decode_tx_nonces. rewrite run_gets_fst. cbn [fst]. rewrite Htot.
  erewrite run_reading; [|apply decode_varints; eapply Forall_impl; [exact Hb|]; intros ? Hx; apply Hx].
  done.
Qed.

Lemma decode_tx_gases_step :
  decode_tx_gases (t, mjoin (varint_encode <$> (env_gas <$> es)) ++ r)
  = (Ok tt, (with_gases (env_gas <$> es) t, r)).
Proof using Htot Hb H2.
  unfold decode_tx_gases. rewrite run_gets_fst. cbn [fst]. rewrite Htot.
  erewrite run_reading; [|apply decode_varints; eapply Forall_impl; [exact Hb|]; intros ? Hx; apply Hx].
  done.
Qed.

Lemma decode_protected_bits_step bits :
  len es <= MAX_SPAN_BATCH_ELEMENTS → legacy_tx_count t = len (legacies es) →
  bits_are bits (env_protected <$> legacies es) →
  decode_protected_bits (t, bits ++ r) = (Ok tt, (with_protected_bits bits t, r)).
Proof.
  intros Hmax Hl Hbits. unfold decode_protected_bits. rewrite run_gets_fst. cbn [fst].
  pose proof (len_legacies es). rewrite Hl, decide_False by lia.
  apply (decode_bits _ _ r) in Hbits. rewrite len_fmap in Hbits.
  by rewrite (run_reading _ _ _ _ _ _ Hbits).
Qed.
End steps.

Lemma decode_represents t es rest :
  represents chain_id t es → len es <= MAX_SPAN_BATCH_ELEMENTS → Forall env_bounded es →
  ∃ out, encode t = Ok out ∧
    decode (with_total (len es) default_txs, out ++ rest) = (Ok tt, (t, rest)).
Proof.
  intros Hr Hmax Hb. destruct (encode_represents t es Hr) as (y & Hy & ->). destruct Hr as [Htot Hc].
  eexists. split; [done|]. rewrite <- !app_assoc. unfold MAX_SPAN_BATCH_ELEMENTS in Hmax.
  unfold decode. rewrite bind_run, (decode_contract_creation_bits_step es) by (done || apply Hc).
  rewrite bind_run, (decode_tx_sigs_step es) by done.
  rewrite bind_run, (decode_tx_tos_step es) by (done || lia || apply Hc).
  rewrite bind_run, (decode_tx_datas_step es) by (done || lia || apply Hc).
  rewrite bind_run, (decode_tx_nonces_step es) by done.
  rewrite bind_run, (decode_tx_gases_step es) by done.
  rewrite (decode_protected_bits_step es) by (done || apply Hc).
  destruct t, Hc; cbn in *; subst. done.
Qed.
End codec_laws.

(** * Theorems *)

(** C5. Transactions survive a span batch: raw transactions that decode to acceptable
    envelopes are added without an error; the columns are encoded, and decoding that
    encoding (whatever follows it) gives the columns back; and from the columns every
    transaction is restored, in order, in its EIP-2718 form.  Nothing panics on the way. *)
Theorem span_txs_roundtrip `{!TxCodec} `{!TxCodecLaws} `{!Varint} `{!VarintLaws}
    (chain_id : Z) (txs : list bytes) (es : list TxEnvelope) (rest : bytes) :
  Forall2 (λ tx e, envelope_decode tx = Ok e) txs es →
  Forall (accepted chain_id) es → Forall env_wf es → Forall env_bounded es →
  len txs <= MAX_SPAN_BATCH_ELEMENTS →
  ∃ t out,
    add_txs txs chain_id default_txs = (Ok tt, t)
    ∧ encode t = Ok out
    ∧ decode (with_total (len txs) default_txs, out ++ rest) = (Ok tt, (t, rest))
    ∧ full_txs chain_id t = Ok (encode_2718 <$> es).
Proof.
  intros Hdec Hacc Hwf Hb Hlen. unfold MAX_SPAN_BATCH_ELEMENTS in *.
  destruct (add_txs_represents chain_id default_txs [] txs es) as (t & Ht & Hr);
    [rewrite len_nil; lia|done|done|apply default_represents|]. cbn [app] in Hr.
  assert (len txs = len es) as Hl by (unfold len; by rewrite (Forall2_length _ _ _ Hdec)).
  destruct (decode_represents chain_id t es rest Hr) as (out & Ho & Hd);
    [unfold MAX_SPAN_BATCH_ELEMENTS; lia|done|].
  exists t, out. rewrite Hl. split_and!; [done..|]. by apply full_txs_represents.
Qed.

(** A rejected transaction leaves the columns of the ones before it in place while the
    count is not updated: here the second transaction is for another chain. *)
Definition tx_on_chain (c : Z) : TxEnvelope :=
  EEip1559 (mkTxEip1559 c 7 21000 100 2 (Some (be_bytes 20 5)) 3 [] [byte1]) (mkSignature 11 12 true).
Example failed_add_keeps_columns :
  let '(r, t) := add_txs [encode_2718 (tx_on_chain 1); encode_2718 (tx_on_chain 2)] 1 default_txs in
  r = Err invalid_data ∧ total_block_tx_count t = 0 ∧ len (tx_datas t) = 1.
Proof. vm_compute. done. Qed.

(** ** Witnesses *)

Definition legacy_tx : TxEnvelope :=
  ELegacy (mkTxLegacy None 1 5 21000 None 3 [byte1]) (mkSignature 21 22 false).

Lemma span_txs_roundtrip_witness :
  ∃ t out,
    add_txs (encode_2718 <$> [tx_on_chain 1; legacy_tx]) 1 default_txs = (Ok tt, t)
    ∧ encode t = Ok out
    ∧ decode (with_total (len (encode_2718 <$> [tx_on_chain 1; legacy_tx])) default_txs, out ++ [byte1])
      = (Ok tt, (t, [byte1]))
    ∧ full_txs 1 t = Ok (encode_2718 <$> [tx_on_chain 1; legacy_tx]).
Proof.
  apply (span_txs_roundtrip 1 (encode_2718 <$> [tx_on_chain 1; legacy_tx]) [tx_on_chain 1; legacy_tx] [byte1]).
  - repeat constructor; vm_compute; reflexivity.
  - repeat constructor; eexists; reflexivity.
  - repeat constructor; vm_compute; congruence.
  - repeat constructor; try (vm_compute; congruence); intros a [= <-]; reflexivity.
  - vm_compute. congruence.
Defined.
