(* ===== verification/RawSpan.v ===== *)
(** Raw span batches (src/crates/derive/src/batch/span_batch/prefix.rs, payload.rs, raw.rs
    and [append_singular_batch] of batch.rs).

    A span batch is built from single batches ([append_singular_batch]), made raw
    ([raw_try_from]), encoded, decoded and expanded again ([derive]).
    [span_batch_roundtrip] shows that the whole way restores the blocks. *)
From S2P Require Import Prelude Reader Blocks SystemConfig Types SingleBatch SpanBits SpanBatch TxData SpanTxs.
#[local] Open Scope Z_scope.

(** * Data *)

Record SpanBatchPrefix := mkSpanBatchPrefix {
  px_rel_timestamp : Z;
  px_l1_origin_num : Z;
  px_parent_check : bytes;
  px_l1_origin_check : bytes;
}.

Record SpanBatchPayload := mkSpanBatchPayload {
  pl_block_count : Z;
  pl_origin_bits : bytes;
  pl_block_tx_counts : list Z;
  pl_txs : SpanBatchTransactions;
}.

Record RawSpanBatch := mkRawSpanBatch { raw_prefix : SpanBatchPrefix; raw_payload : SpanBatchPayload }.

Definition zero20 : bytes := replicate 20 byte0.
Definition default_prefix : SpanBatchPrefix := mkSpanBatchPrefix 0 0 zero20 zero20.
Definition default_payload : SpanBatchPayload := mkSpanBatchPayload 0 [] [] default_txs.
Definition default_span : SpanBatch := mkSpanBatch zero20 zero20 0 0 [] [] [] default_txs.

Definition with_rel_timestamp (v : Z) (p : SpanBatchPrefix) : SpanBatchPrefix :=
  mkSpanBatchPrefix v (px_l1_origin_num p) (px_parent_check p) (px_l1_origin_check p).
Definition with_l1_origin_num (v : Z) (p : SpanBatchPrefix) : SpanBatchPrefix :=
  mkSpanBatchPrefix (px_rel_timestamp p) v (px_parent_check p) (px_l1_origin_check p).
Definition with_parent_check (v : bytes) (p : SpanBatchPrefix) : SpanBatchPrefix :=
  mkSpanBatchPrefix (px_rel_timestamp p) (px_l1_origin_num p) v (px_l1_origin_check p).
Definition with_l1_origin_check (v : bytes) (p : SpanBatchPrefix) : SpanBatchPrefix :=
  mkSpanBatchPrefix (px_rel_timestamp p) (px_l1_origin_num p) (px_parent_check p) v.

Definition with_block_count (v : Z) (p : SpanBatchPayload) : SpanBatchPayload :=
  mkSpanBatchPayload v (pl_origin_bits p) (pl_block_tx_counts p) (pl_txs p).
Definition with_origin_bits (v : bytes) (p : SpanBatchPayload) : SpanBatchPayload :=
  mkSpanBatchPayload (pl_block_count p) v (pl_block_tx_counts p) (pl_txs p).
Definition with_block_tx_counts (v : list Z) (p : SpanBatchPayload) : SpanBatchPayload :=
  mkSpanBatchPayload (pl_block_count p) (pl_origin_bits p) v (pl_txs p).
Definition with_txs (v : SpanBatchTransactions) (p : SpanBatchPayload) : SpanBatchPayload :=
  mkSpanBatchPayload (pl_block_count p) (pl_origin_bits p) (pl_block_tx_counts p) v.

(** A structure that starts at its default, filled from a reader and returned. *)
Definition filling {T E} (init : T) (m : ST (Reading T) E unit) : ST bytes E T := λ r,
  match m (init, r) with
  | (Ok _, (t, r')) => (Ok t, r')
  | (Err e, (_, r')) => (Err e, r')
  | (Panic, (_, r')) => (Panic, r')
  end.

(** [r.split_at(n)] panics past the end. *)
Definition split_at {E} (n : Z) : ST bytes E bytes :=
  r ← gets id;
  head ← lift (slice r 0 n);
  _ ← advance n;
  mret head.

Section codec.
Context `{!TxCodec} `{!Varint}.

(** * The prefix *)

Definition decode_rel_timestamp : ST (Reading SpanBatchPrefix) SpanBatchError unit :=
  rel_timestamp ← reading (read_varint (Decoding RelativeTimestamp));
  writing (with_rel_timestamp rel_timestamp).
Definition decode_l1_origin_num : ST (Reading SpanBatchPrefix) SpanBatchError unit :=
  l1_origin_num ← reading (read_varint (Decoding L1OriginNumber));
  writing (with_l1_origin_num l1_origin_num).
Definition decode_parent_check : ST (Reading SpanBatchPrefix) SpanBatchError unit :=
  parent_check ← reading (split_at 20);
  writing (with_parent_check parent_check).
Definition decode_l1_origin_check : ST (Reading SpanBatchPrefix) SpanBatchError unit :=
  l1_origin_check ← reading (split_at 20);
  writing (with_l1_origin_check l1_origin_check).

Definition decode_prefix : ST bytes SpanBatchError SpanBatchPrefix :=
  filling default_prefix
    (_ ← decode_rel_timestamp;
     _ ← decode_l1_origin_num;
     _ ← decode_parent_check;
     decode_l1_origin_check).

Definition encode_prefix (self : SpanBatchPrefix) : bytes :=
  varint_encode (px_rel_timestamp self) ++ varint_encode (px_l1_origin_num self)
  ++ px_parent_check self ++ px_l1_origin_check self.

(** * The payload *)

(** The reader only advances once the count is checked. *)
Definition decode_block_count : ST (Reading SpanBatchPayload) SpanBatchError unit :=
  r ← gets snd;
  '(block_count, remaining) ← lift (ok_or (varint_decode r) (Decoding BlockCount));
  if decide (block_count > MAX_SPAN_BATCH_ELEMENTS) then fail TooBigSpanBatchSize
  else if decide (block_count = 0) then fail EmptySpanBatch
  else modify (λ s, (with_block_count block_count s.1, remaining)).

Definition decode_origin_bits : ST (Reading SpanBatchPayload) SpanBatchError unit :=
  self ← gets fst;
  if decide (pl_block_count self > MAX_SPAN_BATCH_ELEMENTS) then fail TooBigSpanBatchSize
  else
    bits ← reading (SpanBits.decode (pl_block_count self));
    writing (with_origin_bits bits).

Definition decode_block_tx_count (_ : Z) : ST bytes SpanBatchError Z :=
  r ← gets id;
  '(block_tx_count, remaining) ← lift (ok_or (varint_decode r) (Decoding BlockTxCounts));
  if decide (block_tx_count > MAX_SPAN_BATCH_ELEMENTS) then fail TooBigSpanBatchSize
  else _ ← modify (λ _, remaining); mret block_tx_count.

Definition decode_block_tx_counts : ST (Reading SpanBatchPayload) SpanBatchError unit :=
  self ← gets fst;
  counts ← reading (collect decode_block_tx_count (seqZ 0 (pl_block_count self)));
  writing (with_block_tx_counts counts).

(** The checked sum of [decode_txs]. *)
Fixpoint sum_counts (acc : Z) (counts : list Z) : outcome SpanBatchError Z :=
  match counts with
  | [] => Ok acc
  | n :: counts =>
      acc ← ok_or (u64_checked_add acc n) TooBigSpanBatchSize;
      sum_counts acc counts
  end.

Definition on_txs {A} (m : ST (Reading SpanBatchTransactions) SpanBatchError A)
    : ST (Reading SpanBatchPayload) SpanBatchError A :=
  zoom (λ s, (pl_txs s.1, s.2)) (λ t s, (with_txs t.1 s.1, t.2)) m.

Definition decode_txs : ST (Reading SpanBatchPayload) SpanBatchError unit :=
  self ← gets fst;
  if decide (pl_block_tx_counts self = []) then fail EmptySpanBatch
  else
    total_block_tx_count ← lift (sum_counts 0 (pl_block_tx_counts self));
    if decide (total_block_tx_count > MAX_SPAN_BATCH_ELEMENTS) then fail TooBigSpanBatchSize
    else
      _ ← on_txs (writing (with_total total_block_tx_count));
      on_txs SpanTxs.decode.

Definition decode_payload : ST bytes SpanBatchError SpanBatchPayload :=
  filling default_payload
    (_ ← decode_block_count;
     _ ← decode_origin_bits;
     _ ← decode_block_tx_counts;
     decode_txs).

Definition encode_payload (self : SpanBatchPayload) : outcome SpanBatchError bytes :=
  let block_count := varint_encode (pl_block_count self) in
  origin_bits ← SpanBits.encode (pl_block_count self) (pl_origin_bits self);
  let block_tx_counts := mjoin (varint_encode <$> pl_block_tx_counts self) in
  txs ← SpanTxs.encode (pl_txs self);
  Ok (block_count ++ origin_bits ++ block_tx_counts ++ txs).

(** * Raw span batches *)

Definition raw_try_from (value : SpanBatch) : outcome SpanBatchError RawSpanBatch :=
  if decide (sp_batches value = []) then Err EmptySpanBatch
  else
    span_start ← ok_or (head (sp_batches value)) EmptySpanBatch;
    span_end ← ok_or (last (sp_batches value)) EmptySpanBatch;
    Ok (mkRawSpanBatch
          (mkSpanBatchPrefix (u64_sub (se_timestamp span_start) (sp_genesis_timestamp value))
             (se_epoch_num span_end) (sp_parent_check value) (sp_l1_origin_check value))
          (mkSpanBatchPayload (len (sp_batches value)) (sp_origin_bits value)
             (sp_block_tx_counts value) (sp_txs value))).

Definition raw_encode (self : RawSpanBatch) : outcome SpanBatchError bytes :=
  payload ← encode_payload (raw_payload self);
  Ok (encode_prefix (raw_prefix self) ++ payload).

Definition raw_decode : ST bytes SpanBatchError RawSpanBatch :=
  prefix ← decode_prefix;
  payload ← decode_payload;
  mret (mkRawSpanBatch prefix payload).

(** The loop over the origin bits, from the last block down; [n] blocks are left, and the
    result lists their origins from the first. *)
Fixpoint origin_nums_loop (origin_bits : bytes) (n : nat) (l1_origin_number : Z)
    : outcome SpanBatchError (list Z) :=
  match n with
  | O => Ok []
  | S i =>
      bit ← SpanBits.get_bit origin_bits (Z.of_nat i);
      bit ← ok_or bit (Decoding L1OriginCheck);
      let next := if decide (bit = 1 ∧ Z.of_nat i > 0) then u64_sub l1_origin_number 1
                  else l1_origin_number in
      nums ← origin_nums_loop origin_bits i next;
      Ok (nums ++ [l1_origin_number])
  end.

(** The fold over the blocks; [tx_idx] is the next transaction. *)
Fixpoint derive_loop (self : RawSpanBatch) (block_time genesis_time : Z) (block_origin_nums : list Z)
    (enveloped_txs : list bytes) (tx_idx : Z) (indices : list Z)
    : outcome SpanBatchError (list SpanBatchElement) :=
  match indices with
  | [] => Ok []
  | i :: indices =>
      count ← index (pl_block_tx_counts (raw_payload self)) i;
      transactions ← mapM (M:=outcome SpanBatchError) (λ j, index enveloped_txs (tx_idx + j)) (seqZ 0 count);
      epoch_num ← index block_origin_nums i;
      let timestamp := u64_add (u64_add genesis_time (px_rel_timestamp (raw_prefix self)))
                               (u64_mul block_time i) in
      rest ← derive_loop self block_time genesis_time block_origin_nums enveloped_txs (tx_idx + count) indices;
      Ok (mkSpanBatchElement epoch_num timestamp transactions :: rest)
  end.

Definition derive (block_time genesis_time chain_id : Z) (self : RawSpanBatch)
    : outcome SpanBatchError SpanBatch :=
  let payload := raw_payload self in
  if decide (pl_block_count payload = 0) then Err EmptySpanBatch
  else
    block_origin_nums ← origin_nums_loop (pl_origin_bits payload) (Z.to_nat (pl_block_count payload))
                          (px_l1_origin_num (raw_prefix self));
    enveloped_txs ← full_txs chain_id (pl_txs payload);
    batches ← derive_loop self block_time genesis_time block_origin_nums enveloped_txs 0
                (seqZ 0 (pl_block_count payload));
    Ok (mkSpanBatch (px_parent_check (raw_prefix self)) (px_l1_origin_check (raw_prefix self))
          0 0 batches [] [] default_txs).

(** * Building a span batch *)

Definition with_sp_checks (parent_check l1_origin_check : bytes) (s : SpanBatch) : SpanBatch :=
  mkSpanBatch parent_check l1_origin_check (sp_genesis_timestamp s) (sp_chain_id s) (sp_batches s)
    (sp_origin_bits s) (sp_block_tx_counts s) (sp_txs s).
Definition with_sp_batches (batches : list SpanBatchElement) (s : SpanBatch) : SpanBatch :=
  mkSpanBatch (sp_parent_check s) (sp_l1_origin_check s) (sp_genesis_timestamp s) (sp_chain_id s) batches
    (sp_origin_bits s) (sp_block_tx_counts s) (sp_txs s).
Definition with_sp_origin_bits (bits : bytes) (s : SpanBatch) : SpanBatch :=
  mkSpanBatch (sp_parent_check s) (sp_l1_origin_check s) (sp_genesis_timestamp s) (sp_chain_id s)
    (sp_batches s) bits (sp_block_tx_counts s) (sp_txs s).
Definition with_sp_block_tx_counts (counts : list Z) (s : SpanBatch) : SpanBatch :=
  mkSpanBatch (sp_parent_check s) (sp_l1_origin_check s) (sp_genesis_timestamp s) (sp_chain_id s)
    (sp_batches s) (sp_origin_bits s) counts (sp_txs s).
Definition with_sp_txs (txs : SpanBatchTransactions) (s : SpanBatch) : SpanBatch :=
  mkSpanBatch (sp_parent_check s) (sp_l1_origin_check s) (sp_genesis_timestamp s) (sp_chain_id s)
    (sp_batches s) (sp_origin_bits s) (sp_block_tx_counts s) txs.

(** [peek(n)]: the [n]th-to-last element. *)
Definition peek (self : SpanBatch) (n : Z) : outcome SpanBatchError SpanBatchElement :=
  index (sp_batches self) (len (sp_batches self) - 1 - n).

(** The origin bit of the element just pushed; the first one sets the parent check. *)
Definition append_epoch_bit (parent_hash : B256) (seq_num : Z) : ST SpanBatch SpanBatchError bool :=
  self ← gets id;
  if decide (len (sp_batches self) = 1) then
    _ ← modify (λ s, with_sp_checks (take 20 parent_hash) (sp_l1_origin_check s) s);
    mret (bool_decide (seq_num = 0))
  else
    prev ← lift (peek self 1);
    new ← lift (peek self 0);
    mret (bool_decide (se_epoch_num prev < se_epoch_num new)).

(** [!self.batches.is_empty() && self.peek(0).timestamp > singular_batch.timestamp]. *)
Definition not_ordered (self : SpanBatch) (timestamp : Z) : outcome SpanBatchError bool :=
  if decide (sp_batches self = []) then Ok false
  else e ← peek self 0; Ok (bool_decide (se_timestamp e > timestamp)).

Definition append_singular_batch (singular_batch : SingleBatch) (seq_num : Z)
    : ST SpanBatch SpanBatchError unit :=
  self ← gets id;
  unordered ← lift (not_ordered self (sb_timestamp singular_batch));
  if (unordered : bool) then panic
  else
    _ ← modify (λ s, with_sp_batches (sp_batches s ++ [element_of_single singular_batch]) s);
    _ ← modify (λ s, with_sp_checks (sp_parent_check s) (take 20 (sb_epoch_hash singular_batch)) s);
    epoch_bit ← append_epoch_bit (sb_parent_hash singular_batch) seq_num;
    self ← gets id;
    bits ← lift (SpanBits.set_bit (sp_origin_bits self) (len (sp_batches self) - 1) epoch_bit);
    _ ← modify (with_sp_origin_bits bits);
    new ← lift (peek self 0);
    let new_txs := se_transactions new in
    _ ← modify (λ s, with_sp_block_tx_counts (sp_block_tx_counts s ++ [len new_txs]) s);
    zoom sp_txs with_sp_txs (add_txs new_txs (sp_chain_id self)).
End codec.

(** * The blocks a span batch holds *)

(** The origin bits of a list of epochs: did the epoch rise? *)
Fixpoint rises (prev : Z) (epochs : list Z) : list bool :=
  match epochs with
  | [] => []
  | e :: epochs => bool_decide (prev < e) :: rises e epochs
  end.
Definition flags (first : bool) (epochs : list Z) : list bool :=
  match epochs with [] => [] | e :: epochs => first :: rises e epochs end.
(** The flag of an epoch after [before]. *)
Definition flag_after (first : bool) (before : list Z) (e : Z) : bool :=
  match last before with None => first | Some p => bool_decide (p < e) end.

Lemma rises_split p q e post :
  rises p (q ++ e :: post) = rises p q ++ bool_decide (default p (last q) < e) :: rises e post.
Proof.
  revert p. induction q as [|x q IH]; intros p; [done|]. cbn [app rises]. rewrite IH. do 3 f_equal.
  rewrite last_cons. by destruct (last q).
Qed.
Lemma flags_split first q e post :
  flags first (q ++ e :: post) = flags first q ++ flag_after first q e :: rises e post.
Proof.
  destruct q as [|x q]; [done|]. cbn [app flags]. rewrite rises_split. unfold flag_after.
  rewrite last_cons. by destruct (last q).
Qed.
Lemma len_rises p l : len (rises p l) = len l.
Proof. revert p. induction l as [|e l IH]; intros p; [done|]. cbn [rises]. by rewrite !len_cons, IH. Qed.
Lemma len_flags first l : len (flags first l) = len l.
Proof. destruct l; [done|]. cbn [flags]. by rewrite !len_cons, len_rises. Qed.

(** Epochs that stay or advance by one. *)
Definition epoch_steps (l : list Z) : Prop :=
  ∀ i e e', l !! i = Some e → l !! S i = Some e' → e' = e ∨ e' = e + 1.

Lemma origin_nums_flags bits first l :
  bits_are bits (flags first l) → epoch_steps l → Forall is_u64 l →
  ∀ q post, l = q ++ post → origin_nums_loop bits (length q) (default 0 (last q)) = Ok q.
Proof.
  intros Hb Hs Hu q. induction q as [|e q IH] using rev_ind; intros post ->; [done|].
  rewrite length_app, Nat.add_1_r, last_snoc. cbn [origin_nums_loop default]; unfold id.
  rewrite <- app_assoc in *. cbn [app] in *. rewrite flags_split in Hb. apply get_bits in Hb.
  rewrite len_flags in Hb. unfold len in Hb. rewrite Hb. cbn [ok_or mbind outcome_bind].
  assert (Hnext : origin_nums_loop bits (length q)
    (if decide (Z.b2z (flag_after first q e) = 1 ∧ Z.of_nat (length q) > 0) then u64_sub e 1 else e) = Ok q).
  2: { rewrite Hnext. done. }
  specialize (IH (e :: post) eq_refl). unfold flag_after.
  destruct q as [|p q _] using rev_ind; [done|]. rewrite last_snoc in *. cbn [default] in IH; unfold id in IH.
  assert (e = p ∨ e = p + 1) as Hstep.
  { apply (Hs (length q)); rewrite <- app_assoc; [by apply list_lookup_middle|].
    rewrite lookup_app_r by lia. by replace (S (length q) - length q)%nat with 1%nat by lia. }
  apply Forall_app in Hu as [[_ [Hp _]%Forall_cons]%Forall_app [He _]%Forall_cons].
  unfold in_width in *. destruct Hstep as [->| ->].
  - rewrite decide_False; [done|]. rewrite bool_decide_eq_false_2 by lia. cbn. lia.
  - rewrite decide_True, u64_sub_small by (try rewrite bool_decide_eq_true_2 by lia;
      rewrite ?length_app; cbn; lia). by replace (p + 1 - 1) with p by lia.
Qed.

(** ** The expansion *)

Lemma mapM_index {A} (pre : list A) (k post : list A) : ∀ (k1 k2 : list A),
  k = k1 ++ k2 →
  mapM (M:=outcome SpanBatchError) (λ j, index (pre ++ k ++ post) (len pre + j)) (seqZ (len k1) (len k2)) = Ok k2.
Proof.
  intros k1 k2. revert k1. induction k2 as [|x k2 IH]; intros k1 ->; [done|].
  rewrite len_cons, seqZ_cons by (pose proof (len_nonneg k2); lia).
  replace (Z.pred (1 + len k2)) with (len k2) by lia.
  replace (Z.succ (len k1)) with (len (k1 ++ [x])) by (rewrite len_app, len_cons, len_nil; lia).
  cbn [mapM]. rewrite <- app_assoc. cbn [app].
  rewrite (app_assoc pre), index_app by (by rewrite len_app). cbn [mbind outcome_bind].
  specialize (IH (k1 ++ [x])). rewrite <- !app_assoc in IH. cbn [app] in IH.
  rewrite <- app_assoc. by rewrite IH.
Qed.

Lemma index_fmap_app {E A B} (f : A → B) pre e post :
  index (E:=E) (f <$> (pre ++ e :: post)) (len pre) = Ok (f e).
Proof. rewrite fmap_app. apply index_app. symmetry. apply len_fmap. Qed.

Lemma derive_loop_elements self block_time genesis_time els rest : ∀ done_,
  els = done_ ++ rest →
  pl_block_tx_counts (raw_payload self) = (λ e, len (se_transactions e)) <$> els →
  (∀ i e, els !! i = Some e → se_timestamp e =
     u64_add (u64_add genesis_time (px_rel_timestamp (raw_prefix self))) (u64_mul block_time (Z.of_nat i))) →
  derive_loop self block_time genesis_time (se_epoch_num <$> els) (mjoin (se_transactions <$> els))
    (len (mjoin (se_transactions <$> done_))) (seqZ (len done_) (len rest)) = Ok rest.
Proof.
  induction rest as [|e rest IH]; intros done_ Hels Hcounts Hts; [done|].
  rewrite len_cons, seqZ_cons by (pose proof (len_nonneg rest); lia).
  replace (Z.pred (1 + len rest)) with (len rest) by lia.
  replace (Z.succ (len done_)) with (len (done_ ++ [e])) by (rewrite len_app, len_cons, len_nil; lia).
  assert (∀ {A} (f : SpanBatchElement → A),
            index (E:=SpanBatchError) (f <$> els) (len done_) = Ok (f e)) as Hat.
  { intros A f. rewrite Hels. apply index_fmap_app. }
  assert (mapM (M:=outcome SpanBatchError)
            (λ j, index (mjoin (se_transactions <$> els)) (len (mjoin (se_transactions <$> done_)) + j))
            (seqZ 0 (len (se_transactions e))) = Ok (se_transactions e)) as Hm.
  { rewrite Hels, fmap_app, join_app. by apply (mapM_index _ (se_transactions e) _ []). }
  specialize (IH (done_ ++ [e])). rewrite <- app_assoc, fmap_app, join_app, len_app in IH.
  cbn [fmap list_fmap mjoin list_join concat app] in IH. rewrite app_nil_r in IH.
  cbn [derive_loop]. rewrite Hcounts at 1.
  rewrite (Hat _ (λ e, len (se_transactions e))). cbn [mbind outcome_bind]. rewrite Hm.
  cbn [mbind outcome_bind]. rewrite (Hat _ se_epoch_num). cbn [mbind outcome_bind]. rewrite IH by done. cbn [mbind outcome_bind].
  unfold len. rewrite <- (Hts (length done_) e) by (by rewrite Hels, list_lookup_middle). by destruct e.
Qed.

(** ** What a span batch built from single batches holds *)

Section holds.
Context `{!TxCodec} `{!Varint} (chain_id : Z) (first : bool).

Record holds (sp : SpanBatch) (bs : list SingleBatch) (es : list TxEnvelope) : Prop := {
  h_batches : sp_batches sp = element_of_single <$> bs;
  h_chain : sp_chain_id sp = chain_id;
  h_bits : bits_are (sp_origin_bits sp) (flags first (sb_epoch_num <$> bs));
  h_counts : sp_block_tx_counts sp = (λ b, len (sb_transactions b)) <$> bs;
  h_txs : represents chain_id (sp_txs sp) es;
  h_parent : ∀ b, head bs = Some b → sp_parent_check sp = take 20 (sb_parent_hash b);
  h_origin : ∀ b, last bs = Some b → sp_l1_origin_check sp = take 20 (sb_epoch_hash b);
}.

Lemma fresh_holds genesis :
  holds (mkSpanBatch zero20 zero20 genesis chain_id [] [] [] default_txs) [] [].
Proof. split; try done; [apply bits_are_nil|apply default_represents]. Qed.

Lemma peek_last sp bs e : sp_batches sp = bs ++ [e] → peek sp 0 = Ok e.
Proof.
  intros Hsp. unfold peek. rewrite Hsp. apply index_app. rewrite len_app, len_cons, len_nil. lia.
Qed.
Lemma peek_before sp bs e' e : sp_batches sp = bs ++ [e'; e] → peek sp 1 = Ok e'.
Proof.
  intros Hsp. unfold peek. rewrite Hsp. apply index_app. rewrite len_app, !len_cons, len_nil. lia.
Qed.

Lemma append_epoch_bit_flag sp bs b seq :
  sp_batches sp = element_of_single <$> (bs ++ [b]) →
  (bs = [] → first = bool_decide (seq = 0)) →
  append_epoch_bit (sb_parent_hash b) seq sp =
    (Ok (flag_after first (sb_epoch_num <$> bs) (sb_epoch_num b)),
     if decide (bs = []) then with_sp_checks (take 20 (sb_parent_hash b)) (sp_l1_origin_check sp) sp else sp).
Proof.
  intros Hb Hf. unfold append_epoch_bit, gets, id, flag_after. rewrite bind_run, Hb, len_fmap, len_app.
  change (len [b]) with 1. pose proof (len_nonneg bs). destruct (decide (bs = [])) as [->|Hne].
  { rewrite decide_True by done. by rewrite bind_run, Hf. }
  destruct bs as [|p q _] using rev_ind; [done|]. rewrite len_app in *. change (len [p]) with 1 in *.
  pose proof (len_nonneg q). rewrite decide_False by lia. unfold lift.
  rewrite (fmap_app sb_epoch_num). cbn [fmap list_fmap]. rewrite last_snoc. rewrite !fmap_app in Hb. cbn [fmap list_fmap] in *.
  rewrite bind_run, (peek_before _ (element_of_single <$> q) (element_of_single p) (element_of_single b)).
  2: { by rewrite Hb, <- app_assoc. }
  rewrite bind_run, (peek_last _ _ _ Hb). done.
Qed.

Lemma not_ordered_false sp bs es b :
  holds sp bs es → (∀ p, last bs = Some p → sb_timestamp p <= sb_timestamp b) →
  not_ordered sp (sb_timestamp b) = Ok false.
Proof.
  intros Hh Hts. unfold not_ordered. rewrite (h_batches _ _ _ Hh).
  destruct bs as [|p q _] using rev_ind; [done|]. rewrite last_snoc in Hts.
  pose proof (h_batches _ _ _ Hh) as Hb. rewrite fmap_app in Hb |- *. cbn [fmap list_fmap] in *.
  destruct (decide _) as [Hn|_]; [by apply app_nil in Hn as [_ ?]|].
  rewrite (peek_last _ _ _ Hb). cbn. rewrite bool_decide_eq_false_2; [done|].
  specialize (Hts _ eq_refl). cbn. lia.
Qed.

Lemma append_holds sp bs es b seq new :
  holds sp bs es →
  Forall2 (λ tx e, envelope_decode tx = Ok e) (sb_transactions b) new → Forall (accepted chain_id) new →
  len es + len new < 2 ^ 64 →
  (∀ p, last bs = Some p → sb_timestamp p <= sb_timestamp b) →
  (bs = [] → first = bool_decide (seq = 0)) →
  ∃ sp', append_singular_batch b seq sp = (Ok tt, sp') ∧ holds sp' (bs ++ [b]) (es ++ new)
    ∧ sp_genesis_timestamp sp' = sp_genesis_timestamp sp.
Proof.
  intros Hh Hdec Hacc Hlen Hts Hf.
  assert (len (sb_transactions b) = len new) as Hl by (unfold len; by rewrite (Forall2_length _ _ _ Hdec)).
  unfold append_singular_batch. rewrite run_gets. unfold id.
  rewrite (run_lift_Ok _ _ _ _ (not_ordered_false _ _ _ _ Hh Hts)), !run_modify.
  erewrite run_op; [|apply (append_epoch_bit_flag _ bs b seq); [|done]; cbn; by rewrite (h_batches _ _ _ Hh), fmap_app].
  set (sp1 := if decide (bs = []) then _ else _). rewrite run_gets.
  assert (sp_batches sp1 = (element_of_single <$> bs) ++ [element_of_single b]
    ∧ sp_origin_bits sp1 = sp_origin_bits sp ∧ sp_block_tx_counts sp1 = sp_block_tx_counts sp
    ∧ sp_txs sp1 = sp_txs sp ∧ sp_chain_id sp1 = chain_id
    ∧ sp_genesis_timestamp sp1 = sp_genesis_timestamp sp
    ∧ sp_l1_origin_check sp1 = take 20 (sb_epoch_hash b)
    ∧ (∀ b0, head (bs ++ [b]) = Some b0 → sp_parent_check sp1 = take 20 (sb_parent_hash b0)))
    as (Hb & Hbits & Hcnt & Htxs & Hchain & Hgen & Hor & Hpar).
  { unfold sp1. destruct Hh. destruct (decide (bs = [])) as [->|Hne]; cbn; rewrite h_batches0; split_and!; try done.
    - by intros b0 [= <-].
    - intros b0 Hb0. apply h_parent0. by destruct bs. }
  clearbody sp1.
  destruct (bits_are_snoc _ _ (flag_after first (sb_epoch_num <$> bs) (sb_epoch_num b)) (h_bits _ _ _ Hh))
    as (bits' & Hs & Hb').
  rewrite Hb, len_app, len_fmap. change (len [_]) with 1. rewrite len_flags, len_fmap in Hs.
  replace (len bs + 1 - 1) with (len bs) by lia. rewrite Hbits, (run_lift_Ok _ _ _ _ Hs), run_modify.
  rewrite (run_lift_Ok _ _ _ _ (peek_last _ _ _ Hb)), run_modify. cbn [se_transactions element_of_single].
  unfold zoom. cbn [sp_txs with_sp_block_tx_counts with_sp_origin_bits].
  rewrite Hchain, Htxs.
  destruct (add_txs_represents chain_id (sp_txs sp) es (sb_transactions b) new) as (t' & Ht' & Hr');
    [lia|done|done|apply Hh|]. rewrite Ht'. eexists. split; [done|]. split; [|exact Hgen].
  split; cbn; try done.
  - by rewrite Hb, fmap_app.
  - rewrite fmap_app. cbn. rewrite flags_split. exact Hb'.
  - by rewrite Hcnt, (h_counts _ _ _ Hh), fmap_app.
  - intros b0. rewrite last_snoc. by intros [= <-].
Qed.
End holds.

(** * The encoding read back *)

Section codec_laws.
Context `{!TxCodec} `{!TxCodecLaws} `{!Varint} `{!VarintLaws} (chain_id : Z).

Lemma split_at_app {E} (k r : bytes) n : len k = n → split_at (E:=E) n (k ++ r) = (Ok k, r).
Proof.
  intros Hk. unfold split_at. rewrite run_gets. unfold id.
  rewrite (run_lift_Ok _ _ _ k) by (by apply slice_app). by rewrite (run_op _ _ _ tt r) by (by apply advance_app).
Qed.

Definition prefix_wf (p : SpanBatchPrefix) : Prop :=
  is_u64 (px_rel_timestamp p) ∧ is_u64 (px_l1_origin_num p)
  ∧ len (px_parent_check p) = 20 ∧ len (px_l1_origin_check p) = 20.

Lemma decode_encode_prefix p r : prefix_wf p → decode_prefix (encode_prefix p ++ r) = (Ok p, r).
Proof.
  intros (Ht & Hn & Hp & Ho). unfold decode_prefix, filling, encode_prefix. rewrite <- !app_assoc.
  unfold decode_rel_timestamp, decode_l1_origin_num, decode_parent_check, decode_l1_origin_check.
  rewrite bind_run, (run_reading _ _ _ _ _ _ (read_varint_encode _ _ _ Ht)), run_writing.
  rewrite bind_run, (run_reading _ _ _ _ _ _ (read_varint_encode _ _ _ Hn)), run_writing.
  rewrite bind_run, (run_reading _ _ _ _ _ _ (split_at_app _ _ _ Hp)), run_writing.
  rewrite (run_reading _ _ _ _ _ _ (split_at_app _ _ _ Ho)), run_writing. by destruct p.
Qed.

(** A payload that holds blocks with the transactions [ess]. *)
Record payload_holds (p : SpanBatchPayload) (fl : list bool) (ess : list (list TxEnvelope)) : Prop := {
  ph_count : pl_block_count p = len ess;
  ph_flags : len fl = len ess;
  ph_bits : bits_are (pl_origin_bits p) fl;
  ph_counts : pl_block_tx_counts p = len <$> ess;
  ph_txs : represents chain_id (pl_txs p) (mjoin ess);
}.

Lemma len_mjoin_cons {A} (l : list A) ls : len (mjoin (l :: ls)) = len l + len (mjoin ls).
Proof. apply len_app. Qed.

Lemma sum_counts_lens {A} (ls : list (list A)) : ∀ acc,
  0 <= acc → acc + len (mjoin ls) < 2 ^ 64 → sum_counts acc (len <$> ls) = Ok (acc + len (mjoin ls)).
Proof.
  induction ls as [|l ls IH]; intros acc Ha Hlt; [cbn; by rewrite Z.add_0_r|].
  rewrite len_mjoin_cons in *. pose proof (len_nonneg l). pose proof (len_nonneg (mjoin ls)).
  cbn [fmap list_fmap sum_counts]. unfold u64_checked_add. rewrite decide_True by lia.
  cbn [ok_or mbind outcome_bind]. rewrite IH by lia. f_equal. lia.
Qed.

Lemma len_in_mjoin {A} (l : list A) ls : l ∈ ls → len l <= len (mjoin ls).
Proof.
  induction 1 as [l ls|l l' ls Hl IH]; rewrite len_mjoin_cons.
  - pose proof (len_nonneg (mjoin ls)). lia.
  - pose proof (len_nonneg l'). lia.
Qed.

Lemma decode_block_tx_counts_bytes {A} (ls : list (list A)) r :
  len (mjoin ls) <= MAX_SPAN_BATCH_ELEMENTS →
  collect decode_block_tx_count (seqZ 0 (len ls)) (mjoin (varint_encode <$> (len <$> ls)) ++ r)
  = (Ok (len <$> ls), r).
Proof.
  intros Hmax. apply collect_items; [rewrite length_seqZ, length_fmap; unfold len; lia|].
  intros i b n r' _ Hn. apply list_elem_of_lookup_2, list_elem_of_fmap in Hn as (l & -> & Hl).
  pose proof (len_in_mjoin _ _ Hl). pose proof (len_nonneg l).
  unfold decode_block_tx_count. rewrite run_gets. unfold id. rewrite varint_roundtrip.
  - cbn [ok_or]. rewrite run_lift, decide_False by lia. done.
  - unfold in_width, MAX_SPAN_BATCH_ELEMENTS in *. lia.
Qed.

Lemma encode_payload_holds p fl ess :
  payload_holds p fl ess →
  ∃ txs, SpanTxs.encode (pl_txs p) = Ok txs
    ∧ encode_payload p = Ok (varint_encode (len ess) ++ pl_origin_bits p
         ++ mjoin (varint_encode <$> (len <$> ess)) ++ txs).
Proof.
  intros [Hc Hf Hb Hn Ht]. destruct (encode_represents _ _ _ Ht) as (y & _ & Htx).
  eexists. split; [done|]. unfold encode_payload. rewrite Hc, Hn.
  pose proof (encode_bits _ _ Hb) as He. rewrite Hf in He. rewrite He. cbn [mbind outcome_bind].
  rewrite Htx. done.
Qed.

Lemma decode_txs_holds p ess r txs :
  ess ≠ [] → len (mjoin ess) <= MAX_SPAN_BATCH_ELEMENTS → Forall env_bounded (mjoin ess) →
  represents chain_id (pl_txs p) (mjoin ess) → SpanTxs.encode (pl_txs p) = Ok txs →
  ∀ q, pl_block_tx_counts q = len <$> ess → pl_txs q = default_txs →
  decode_txs (q, txs ++ r) = (Ok tt, (with_txs (pl_txs p) q, r)).
Proof.
  intros Hne Hmax Hb Hr He q Hq Hqt. unfold decode_txs. rewrite run_gets_fst. cbn [fst]. rewrite Hq.
  destruct (decide _) as [Hn|_]; [by destruct ess|].
  pose proof (len_nonneg (mjoin ess)). unfold MAX_SPAN_BATCH_ELEMENTS in *.
  rewrite (run_lift_Ok _ _ _ (0 + len (mjoin ess))) by (apply sum_counts_lens; lia).
  rewrite Z.add_0_l, decide_False by (unfold MAX_SPAN_BATCH_ELEMENTS; lia).
  destruct (decode_represents chain_id (pl_txs p) (mjoin ess) r Hr Hmax Hb) as (out & Ho & Hd).
  rewrite He in Ho. injection Ho as <-. rewrite bind_run. unfold on_txs at 1, zoom at 1.
  rewrite run_writing. unfold on_txs, zoom. cbn [fst snd with_txs pl_txs]. rewrite Hqt, Hd. by destruct q.
Qed.

Lemma decode_payload_holds p fl ess r out :
  payload_holds p fl ess → ess ≠ [] → len ess <= MAX_SPAN_BATCH_ELEMENTS →
  len (mjoin ess) <= MAX_SPAN_BATCH_ELEMENTS → Forall env_bounded (mjoin ess) →
  encode_payload p = Ok out → decode_payload (out ++ r) = (Ok p, r).
Proof.
  intros Hp Hne Hmax Hmaxt Hb He. destruct (encode_payload_holds p fl ess Hp) as (txs & Htx & He').
  rewrite He in He'. injection He' as ->. destruct Hp as [Hc Hf Hbits Hn Ht].
  assert (0 < len ess) as Hpos.
  { pose proof (len_nonneg ess). rewrite <- len_zero_nil in Hne. lia. }
  unfold decode_payload, filling. rewrite <- !app_assoc.
  unfold decode_block_count at 1. rewrite bind_run, run_gets. cbn [snd].
  rewrite varint_roundtrip by (unfold in_width, MAX_SPAN_BATCH_ELEMENTS in *; lia). cbn [ok_or].
  rewrite run_lift, decide_False, decide_False by lia. unfold modify at 1. cbn [fst].
  unfold decode_origin_bits at 1. rewrite bind_run, run_gets_fst. cbn [fst with_block_count pl_block_count].
  rewrite decide_False by lia. pose proof (λ r, decode_bits _ _ r Hbits) as Hd. rewrite Hf in Hd.
  rewrite (run_reading _ _ _ _ _ _ (Hd _)), run_writing.
  unfold decode_block_tx_counts at 1. rewrite bind_run, run_gets_fst.
  cbn [fst with_block_count with_origin_bits pl_block_count].
  rewrite (run_reading _ _ _ _ _ _ (decode_block_tx_counts_bytes ess _ Hmaxt)), run_writing.
  rewrite (decode_txs_holds p ess r txs) by done. destruct p; cbn in *; by subst.
Qed.
End codec_laws.

(** * From single batches to a derived span batch *)

Section roundtrip.
Context `{!TxCodec} `{!TxCodecLaws} `{!Varint} `{!VarintLaws}.
Context (chain_id genesis block_time t0 : Z).

Definition append_all (bs : list (SingleBatch * Z)) : ST SpanBatch SpanBatchError unit :=
  for_each (λ '(b, seq_num), append_singular_batch b seq_num) bs.
Definition fresh_span : SpanBatch :=
  mkSpanBatch zero20 zero20 genesis chain_id [] [] [] default_txs.

(** Block [i] is [block_time * i] after the first one. *)
Definition spaced (bs : list SingleBatch) : Prop :=
  ∀ i b, bs !! i = Some b → sb_timestamp b = t0 + block_time * Z.of_nat i ∧ sb_timestamp b < 2 ^ 64.

Definition txs_decode (b : SingleBatch) (es : list TxEnvelope) : Prop :=
  Forall2 (λ tx e, envelope_decode tx = Ok e) (sb_transactions b) es.

Lemma append_all_holds first rest : ∀ sp done_ es ess,
  0 <= block_time → spaced (done_ ++ rest.*1) → Forall2 txs_decode rest.*1 ess →
  Forall (accepted chain_id) (mjoin ess) → len es + len (mjoin ess) < 2 ^ 64 →
  (∀ b seq, done_ = [] → head rest = Some (b, seq) → first = bool_decide (seq = 0)) →
  holds chain_id first sp done_ es →
  ∃ sp', append_all rest sp = (Ok tt, sp') ∧ holds chain_id first sp' (done_ ++ rest.*1) (es ++ mjoin ess)
    ∧ sp_genesis_timestamp sp' = sp_genesis_timestamp sp.
Proof.
  induction rest as [|[b seq] rest IH]; intros sp done_ es ess Hbt Hsp Hdec Hacc Hlen Hfirst Hh.
  { apply Forall2_nil_inv_l in Hdec as ->. exists sp. by rewrite !app_nil_r. }
  apply Forall2_cons_inv_l in Hdec as (new & ess' & Hd & Hdec & ->).
  change (mjoin (new :: ess')) with (new ++ mjoin ess') in *. rewrite len_app in Hlen.
  apply Forall_app in Hacc as [Hnew Hacc]. pose proof (len_nonneg (mjoin ess')). cbn [fst fmap list_fmap] in *.
  destruct (append_holds chain_id first sp done_ es b seq new) as (sp1 & Hr & Hh1 & Hg); try done; [lia| |by eauto|].
  { intros p Hp. destruct done_ as [|q done_ _] using rev_ind; [done|]. rewrite last_snoc in Hp.
    injection Hp as ->. destruct (Hsp (length done_) p) as [Hp _].
    { rewrite <- app_assoc. by apply list_lookup_middle. }
    destruct (Hsp (length (done_ ++ [p])) b) as [Hb _]; [by apply list_lookup_middle|].
    rewrite length_app in Hb. cbn in Hb. nia. }
  replace (done_ ++ b :: rest.*1) with ((done_ ++ [b]) ++ rest.*1) in * by (by rewrite <- app_assoc).
  destruct (IH sp1 (done_ ++ [b]) (es ++ new) ess') as (sp' & Hr' & Hh' & Hg'); try done.
  { rewrite len_app. lia. } { intros ? ? Hnil. by apply app_nil in Hnil as [_ ?]. }
  exists sp'. unfold append_all. cbn [for_each]. rewrite (run_op _ _ _ _ _ Hr).
  rewrite <- (app_assoc es) in Hh'. split_and!; [exact Hr'|exact Hh'|congruence].
Qed.

Definition element_of (b : SingleBatch) (es : list TxEnvelope) : SpanBatchElement :=
  mkSpanBatchElement (sb_epoch_num b) (sb_timestamp b) (encode_2718 <$> es).
Definition elements_of (bs : list SingleBatch) (ess : list (list TxEnvelope)) : list SpanBatchElement :=
  zip_with element_of bs ess.

Lemma elements_epochs bs ess :
  length bs = length ess → se_epoch_num <$> elements_of bs ess = sb_epoch_num <$> bs.
Proof. revert ess. induction bs as [|b bs IH]; intros [|es ess]; cbn; intros Hl; [done..|]. f_equal. apply IH. lia. Qed.
Lemma elements_txs bs ess :
  length bs = length ess → mjoin (se_transactions <$> elements_of bs ess) = encode_2718 <$> mjoin ess.
Proof.
  revert ess. induction bs as [|b bs IH]; intros [|es ess]; intros Hl; try done.
  cbn [elements_of zip_with fmap list_fmap]. change (mjoin (?x :: ?y)) with (x ++ mjoin y).
  rewrite fmap_app. cbn [se_transactions element_of]. f_equal. apply IH. cbn in Hl. lia.
Qed.
Lemma elements_counts bs ess :
  length bs = length ess → len <$> ess = (λ e, len (se_transactions e)) <$> elements_of bs ess.
Proof.
  revert ess. induction bs as [|b bs IH]; intros [|es ess]; cbn; intros Hl; try done.
  f_equal; [by rewrite len_fmap|apply IH; lia].
Qed.
Lemma txs_decode_counts bs ess :
  Forall2 txs_decode bs ess → (λ b, len (sb_transactions b)) <$> bs = len <$> ess.
Proof.
  induction 1 as [|b es bs ess Hd _ IH]; [done|]. cbn. f_equal; [|exact IH].
  unfold len. by rewrite (Forall2_length _ _ _ Hd).
Qed.

(** The raw form of a span batch that holds [bs]. *)
Definition raw_of (b0 bn : SingleBatch) (sp : SpanBatch) : RawSpanBatch :=
  mkRawSpanBatch
    (mkSpanBatchPrefix (sb_timestamp b0 - genesis) (sb_epoch_num bn) (take 20 (sb_parent_hash b0))
       (take 20 (sb_epoch_hash bn)))
    (mkSpanBatchPayload (len (sp_batches sp)) (sp_origin_bits sp) (sp_block_tx_counts sp) (sp_txs sp)).

Lemma raw_try_from_holds first sp bs es b0 bn :
  holds chain_id first sp bs es → head bs = Some b0 → last bs = Some bn →
  sp_genesis_timestamp sp = genesis → 0 <= genesis <= sb_timestamp b0 → sb_timestamp b0 < 2 ^ 64 →
  raw_try_from sp = Ok (raw_of b0 bn sp).
Proof.
  intros Hh H0' Hn Hg Hge Hlt. pose proof (h_batches _ _ _ _ _ Hh) as Hb.
  pose proof (h_parent _ _ _ _ _ Hh _ H0') as Hp. pose proof (h_origin _ _ _ _ _ Hh _ Hn) as Ho.
  unfold raw_try_from, raw_of. destruct (decide _) as [He|_].
  { rewrite He in Hb. by destruct bs. }
  rewrite Hb, fmap_last, Hn. destruct bs as [|b bs]; [done|]. injection H0' as ->.
  cbn [head fmap list_fmap ok_or mbind outcome_bind option_fmap option_map].
  cbn. by rewrite Hp, Ho, Hg, u64_sub_small by lia.
Qed.

Lemma derive_holds first sp bs ess b0 bn :
  holds chain_id first sp bs (mjoin ess) → Forall2 txs_decode bs ess → Forall env_wf (mjoin ess) →
  head bs = Some b0 → last bs = Some bn → spaced bs →
  epoch_steps (sb_epoch_num <$> bs) → Forall is_u64 (sb_epoch_num <$> bs) →
  0 <= genesis <= t0 → 0 <= block_time →
  derive block_time genesis chain_id (raw_of b0 bn sp)
  = Ok (mkSpanBatch (take 20 (sb_parent_hash b0)) (take 20 (sb_epoch_hash bn)) 0 0
          (elements_of bs ess) [] [] default_txs).
Proof.
  intros Hh Hdec Hwf H0' Hn Hsp Hsteps Hu Hg Hbt. pose proof (Forall2_length _ _ _ Hdec) as Hlen.
  pose proof (h_batches _ _ _ _ _ Hh) as Hb. unfold derive. cbn [raw_of raw_payload raw_prefix pl_block_count
    pl_origin_bits px_l1_origin_num pl_txs px_parent_check px_l1_origin_check].
  rewrite Hb, len_fmap. destruct (decide _) as [Hz|_].
  { apply len_zero_nil in Hz as ->. done. }
  assert (origin_nums_loop (sp_origin_bits sp) (Z.to_nat (len bs)) (sb_epoch_num bn) = Ok (sb_epoch_num <$> bs)) as ->.
  { pose proof (origin_nums_flags _ _ _ (h_bits _ _ _ _ _ Hh) Hsteps Hu (sb_epoch_num <$> bs) []) as Ho.
    rewrite app_nil_r, fmap_last, Hn, length_fmap in Ho. unfold len. rewrite Nat2Z.id. by apply Ho. }
  cbn [mbind outcome_bind]. rewrite (full_txs_represents chain_id (sp_txs sp) (mjoin ess)) by (done || apply Hh).
  cbn [mbind outcome_bind]. rewrite <- (elements_epochs bs ess Hlen), <- (elements_txs bs ess Hlen).
  assert (len bs = len (elements_of bs ess)) as ->.
  { unfold len, elements_of. rewrite length_zip_with. lia. }
  change 0 with (len (@nil bytes)) at 1. change (@nil bytes) with (mjoin (se_transactions <$> [])) at 1.
  change 0 with (len (@nil SpanBatchElement)) at 1.
  rewrite (derive_loop_elements _ _ _ (elements_of bs ess) (elements_of bs ess) []); [done|done|..].
  - cbn. rewrite (h_counts _ _ _ _ _ Hh), (txs_decode_counts _ _ Hdec). by apply elements_counts.
  - intros i e He. unfold elements_of in He. apply lookup_zip_with_Some in He as (b & es & -> & Hi & _).
    cbn. destruct (Hsp i b Hi) as [Hts Hlt]. destruct (Hsp 0%nat b0) as [Ht0 _]; [by rewrite <- head_lookup|].
    rewrite Hts in Hlt |- *. rewrite Ht0, Z.mul_0_r, Z.add_0_r.
    assert (0 <= block_time * Z.of_nat i) by nia. unfold u64_mul.
    rewrite wrap_small by (unfold in_width; lia). rewrite (u64_add_small genesis), u64_add_small by lia. lia.
Qed.

Definition hashes (b : SingleBatch) : Prop := len (sb_parent_hash b) = 32 ∧ len (sb_epoch_hash b) = 32.

Lemma take20_len (h : bytes) : len h = 32 → len (take 20 h) = 20.
Proof. unfold len. rewrite length_take. lia. Qed.

Lemma raw_codec_holds first sp bs ess b0 bn rest :
  holds chain_id first sp bs (mjoin ess) → Forall2 txs_decode bs ess →
  head bs = Some b0 → last bs = Some bn → Forall hashes bs → Forall is_u64 (sb_epoch_num <$> bs) →
  0 <= genesis <= sb_timestamp b0 → sb_timestamp b0 < 2 ^ 64 →
  len bs <= MAX_SPAN_BATCH_ELEMENTS → len (mjoin ess) <= MAX_SPAN_BATCH_ELEMENTS →
  Forall env_bounded (mjoin ess) →
  ∃ out, raw_encode (raw_of b0 bn sp) = Ok out
    ∧ raw_decode (out ++ rest) = (Ok (raw_of b0 bn sp), rest).
Proof.
  intros Hh Hdec H0' Hn Hhash Hu Hg Hlt Hmax Hmaxt Hb. pose proof (Forall2_length _ _ _ Hdec) as Hlen.
  assert (len bs = len ess) as Hl by (unfold len; lia).
  assert (payload_holds chain_id (raw_payload (raw_of b0 bn sp)) (flags first (sb_epoch_num <$> bs)) ess) as Hp.
  { destruct Hh. split; cbn; [| |done| |done].
    - rewrite h_batches0, len_fmap. exact Hl.
    - rewrite len_flags, len_fmap. exact Hl.
    - rewrite h_counts0. by apply txs_decode_counts. }
  assert (prefix_wf (raw_prefix (raw_of b0 bn sp))) as Hpre.
  { rewrite Forall_forall in Hhash. rewrite Forall_forall in Hu. rewrite head_lookup in H0'. apply list_elem_of_lookup_2 in H0'.
    apply last_Some in Hn as [l ->]. split_and!; cbn.
    - unfold in_width. lia.
    - apply Hu, list_elem_of_fmap_2, elem_of_app. right. apply list_elem_of_here.
    - apply take20_len, Hhash, H0'.
    - apply take20_len, Hhash, elem_of_app. right. apply list_elem_of_here. }
  destruct (encode_payload_holds chain_id _ _ _ Hp) as (txs & _ & He).
  unfold raw_encode. rewrite He. cbn [mbind outcome_bind]. eexists. split; [done|].
  unfold raw_decode. rewrite <- app_assoc. rewrite (run_op _ _ _ _ _ (decode_encode_prefix _ _ Hpre)).
  rewrite (run_op _ _ _ _ _ (decode_payload_holds chain_id _ _ ess rest _ Hp ltac:(destruct ess, bs; done)
    ltac:(lia) Hmaxt Hb He)). done.
Qed.
End roundtrip.

(** C3. The span batch format is lossless: single batches with consecutive timestamps and
    epochs that stay or advance by one, whose transactions decode to acceptable envelopes,
    can be appended one by one; the raw form is encoded, the decoder reads it back (whatever
    follows it), and [derive] expands it to the same blocks: epochs, timestamps and, in
    EIP-2718 form, transactions, with the parent and origin checks of the first and last
    batch.  No step fails or panics. *)
Theorem span_batch_roundtrip `{!TxCodec} `{!TxCodecLaws} `{!Varint} `{!VarintLaws}
    (chain_id genesis block_time t0 : Z) (bs : list (SingleBatch * Z)) (ess : list (list TxEnvelope))
    (b0 bn : SingleBatch) (rest : bytes) :
  Forall2 txs_decode bs.*1 ess →
  Forall (accepted chain_id) (mjoin ess) → Forall env_wf (mjoin ess) → Forall env_bounded (mjoin ess) →
  len bs <= MAX_SPAN_BATCH_ELEMENTS → len (mjoin ess) <= MAX_SPAN_BATCH_ELEMENTS →
  head bs.*1 = Some b0 → last bs.*1 = Some bn →
  spaced block_time t0 bs.*1 → 0 <= genesis <= t0 → 0 <= block_time →
  epoch_steps (sb_epoch_num <$> bs.*1) → Forall is_u64 (sb_epoch_num <$> bs.*1) →
  Forall hashes bs.*1 →
  ∃ sp raw out,
    append_all bs (fresh_span chain_id genesis) = (Ok tt, sp)
    ∧ raw_try_from sp = Ok raw
    ∧ raw_encode raw = Ok out
    ∧ raw_decode (out ++ rest) = (Ok raw, rest)
    ∧ derive block_time genesis chain_id raw
      = Ok (mkSpanBatch (take 20 (sb_parent_hash b0)) (take 20 (sb_epoch_hash bn)) 0 0
              (elements_of bs.*1 ess) [] [] default_txs).
Proof.
  intros Hdec Hacc Hwf Hb Hmax Hmaxt H0' Hn Hsp Hg Hbt Hsteps Hu Hhash.
  set (first := match bs with (_, seq) :: _ => bool_decide (seq = 0) | [] => true end).
  destruct (append_all_holds chain_id block_time t0 first bs (fresh_span chain_id genesis) [] [] ess)
    as (sp & Ha & Hh & Hgen); try done.
  { unfold MAX_SPAN_BATCH_ELEMENTS in *. rewrite len_nil. lia. }
  { intros b seq _ Hb0. destruct bs; [done|]. by injection Hb0 as ->. }
  { apply fresh_holds. }
  destruct (Hsp 0%nat b0) as [Ht0 Hlt]; [by rewrite <- head_lookup|].
  assert (0 <= genesis <= sb_timestamp b0) as Hg0 by lia.
  assert (len bs.*1 <= MAX_SPAN_BATCH_ELEMENTS) as Hmax' by (by rewrite len_fmap).
  cbn [app] in Hh.
  destruct (raw_codec_holds chain_id genesis first sp bs.*1 ess b0 bn rest) as (out & He & Hd); try done.
  exists sp, (raw_of genesis b0 bn sp), out. split_and!; [done| |done|done|].
  - by apply (raw_try_from_holds chain_id _ first _ _ _ _ _ Hh).
  - by eapply derive_holds.
Qed.

(** An input that ends inside the fixed-size fields panics: after two varints, the checks
    are split off without a length test. *)
Example short_input_panics : (raw_decode [byte1; byte1; byte1]).1 = Panic.
Proof. vm_compute. done. Qed.

(** ** Witness *)

Definition block1 : SingleBatch :=
  mkSingleBatch (be_bytes 32 1) 10 (be_bytes 32 2) 1002 [encode_2718 (tx_on_chain 1)].
Definition block2 : SingleBatch :=
  mkSingleBatch (be_bytes 32 3) 11 (be_bytes 32 4) 1004 [encode_2718 legacy_tx; encode_2718 (tx_on_chain 1)].

Lemma span_batch_roundtrip_witness :
  ∃ sp raw out,
    append_all [(block1, 0); (block2, 0)] (fresh_span 1 1000) = (Ok tt, sp)
    ∧ raw_try_from sp = Ok raw
    ∧ raw_encode raw = Ok out
    ∧ raw_decode (out ++ [byte1]) = (Ok raw, [byte1])
    ∧ derive 2 1000 1 raw
      = Ok (mkSpanBatch (take 20 (sb_parent_hash block1)) (take 20 (sb_epoch_hash block2)) 0 0
              (elements_of [block1; block2] [[tx_on_chain 1]; [legacy_tx; tx_on_chain 1]]) [] [] default_txs).
Proof.
  apply (span_batch_roundtrip 1 1000 2 1002 [(block1, 0); (block2, 0)]
           [[tx_on_chain 1]; [legacy_tx; tx_on_chain 1]] block1 block2 [byte1]).
  - repeat constructor; vm_compute; reflexivity.
  - repeat constructor; eexists; reflexivity.
  - repeat constructor; vm_compute; congruence.
  - repeat constructor; try (vm_compute; congruence); intros a [= <-]; reflexivity.
  - vm_compute. congruence.
  - vm_compute. congruence.
  - reflexivity.
  - reflexivity.
  - intros [|[|i]] b [= <-]; split; reflexivity.
  - lia.
  - lia.
  - intros [|[|i]] e e' [= <-] [= <-]. right. reflexivity.
  - repeat constructor; vm_compute; congruence.
  - repeat constructor.
Defined.
