(* ===== verification/Inflate.v ===== *)
(** Decompressing into a growing vector
    (src/crates/utilities/miniz_oxide/src/inflate/mod.rs, the crate's copy of miniz_oxide).

    [decompress_to_vec_inner] calls the DEFLATE state machine of core.rs on a buffer twice
    the size of its input and doubles the buffer while the machine says that it has more
    output.  The machine itself is the parameter [InflateCore]: a state, and a call that
    reads some of its input and writes to the buffer from a position on.

    [inflate_terminates] shows that the loop ends, within 65 turns, on every non-empty input
    whatever the machine does; [inflate_fits] what it answers when the first buffer is large
    enough; [inflate_outgrown] that otherwise the consumed length is that of the last turn
    only, not of the compressed stream. *)
From S2P Require Import Prelude.
#[local] Open Scope Z_scope.

Inductive TINFLStatus :=
| FailedCannotMakeProgress | BadParam | Adler32Mismatch | Failed | Done | NeedsMoreInput | HasMoreOutput.
#[global] Instance TINFLStatus_eq_dec : EqDecision TINFLStatus.
Proof. solve_decision. Defined.

Definition from_i32 (value : Z) : option TINFLStatus :=
  if decide (value = -4) then Some FailedCannotMakeProgress
  else if decide (value = -3) then Some BadParam
  else if decide (value = -2) then Some Adler32Mismatch
  else if decide (value = -1) then Some Failed
  else if decide (value = 0) then Some Done
  else if decide (value = 1) then Some NeedsMoreInput
  else if decide (value = 2) then Some HasMoreOutput
  else None.

Record DecompressError := mkDecompressError { de_status : TINFLStatus; de_output : bytes }.

(** A call of the state machine: the new state, the buffer, the status, and how many bytes
    were consumed and written. *)
Class InflateCore := {
  DecompressorOxide : Type;
  oxide_default : DecompressorOxide;
  inflate_decompress :
    DecompressorOxide → bytes → bytes → Z → Z → DecompressorOxide * bytes * (TINFLStatus * Z * Z);
}.

(** A slice keeps its length, and the machine does not read past its input. *)
Class InflateCoreLaws `{!InflateCore} := {
  decompress_length d input out out_pos flags d' out' st i o :
    inflate_decompress d input out out_pos flags = (d', out', (st, i, o)) → len out' = len out;
  decompress_consumed d input out out_pos flags d' out' st i o :
    inflate_decompress d input out out_pos flags = (d', out', (st, i, o)) → 0 <= i <= len input;
}.

Definition TINFL_FLAG_PARSE_ZLIB_HEADER : Z := 1.
Definition TINFL_FLAG_USING_NON_WRAPPING_OUTPUT_BUF : Z := 4.
Definition saturating_mul (a b : Z) : Z := Z.min (a * b) USIZE_MAX.

(** [Vec::resize(n, 0)] for a larger [n], and [vec![0; n]]: no vector is larger than
    [isize::MAX] ("capacity overflow"). *)
Definition resize (n : Z) (l : bytes) : outcome DecompressError bytes :=
  if decide (n <= ISIZE_MAX) then Ok (l ++ replicate (Z.to_nat (n - len l)) byte0) else Panic.
Definition vec_zeroed (n : Z) : outcome DecompressError bytes := resize n [].

Definition decompress_error (status : TINFLStatus) (output : bytes) : outcome DecompressError (bytes * Z) :=
  Err (mkDecompressError status output).

Section inflate.
Context `{!InflateCore}.

(** The loop of [decompress_to_vec_inner]; [None] is running out of fuel. *)
Fixpoint inflate_loop (fuel : nat) (decomp : DecompressorOxide) (input ret : bytes) (out_pos flags max_output_size : Z)
    : option (outcome DecompressError (bytes * Z)) :=
  match fuel with
  | O => None
  | S fuel =>
      let '(decomp, ret, (status, in_consumed, out_consumed)) := inflate_decompress decomp input ret out_pos flags in
      let out_pos := out_pos + out_consumed in
      match status with
      | Done => Some (Ok (take (Z.to_nat out_pos) ret, in_consumed))
      | HasMoreOutput =>
          if decide (in_consumed > len input) then Some (decompress_error HasMoreOutput ret)
          else
            let input := drop (Z.to_nat in_consumed) input in
            if decide (len ret >= max_output_size) then Some (decompress_error HasMoreOutput ret)
            else
              match resize (Z.min (saturating_mul (len ret) 2) max_output_size) ret with
              | Ok ret => inflate_loop fuel decomp input ret out_pos flags max_output_size
              | Err e => Some (Err e)
              | Panic => Some Panic
              end
      | status => Some (decompress_error status ret)
      end
  end.

Definition inflate_fuel : nat := 66.

Definition decompress_to_vec_inner (input : bytes) (flags max_output_size : Z) : option (outcome DecompressError (bytes * Z)) :=
  let flags := Z.lor flags TINFL_FLAG_USING_NON_WRAPPING_OUTPUT_BUF in
  match vec_zeroed (Z.min (saturating_mul (len input) 2) max_output_size) with
  | Ok ret => inflate_loop inflate_fuel oxide_default input ret 0 flags max_output_size
  | Err e => Some (Err e)
  | Panic => Some Panic
  end.

(** The reader calls it on inputs that are not empty, where the fuel is enough. *)
Definition decompress_to_vec_zlib (input : bytes) : outcome DecompressError (bytes * Z) :=
  default Panic (decompress_to_vec_inner input TINFL_FLAG_PARSE_ZLIB_HEADER USIZE_MAX).

Lemma resize_len n l r : len l <= n → resize n l = Ok r → len r = n.
Proof.
  unfold resize. intros Hn. case_decide; [|done]. intros [= <-]. unfold len in *.
  rewrite length_app, length_replicate. lia.
Qed.

Context `{!InflateCoreLaws}.

(** The buffer doubles, so the loop ends. *)
Lemma inflate_loop_terminates flags max : max <= USIZE_MAX → ∀ fuel d input ret pos k,
  (k < fuel)%nat → 1 <= len ret → USIZE_MAX < len ret * 2 ^ Z.of_nat k →
  is_Some (inflate_loop fuel d input ret pos flags max).
Proof.
  intros Hmax. induction fuel as [|fuel IH]; intros d input ret pos k Hk Hret Hpow; [lia|]. cbn [inflate_loop].
  destruct (inflate_decompress d input ret pos flags) as [[d' ret'] [[st i] o]] eqn:Hd.
  apply decompress_length in Hd. destruct st; try by eexists.
  case_decide; [by eexists|]. case_decide as Hfull; [by eexists|].
  destruct (resize _ ret') as [r|e|] eqn:Hr; [|by eexists..].
  destruct k as [|k]; [rewrite Z.mul_1_r in Hpow; lia|].
  rewrite Nat2Z.inj_succ, Z.pow_succ_r in Hpow by lia.
  assert (len r = Z.min (saturating_mul (len ret') 2) max) as Hlen
    by (eapply resize_len; [|exact Hr]; unfold saturating_mul; lia).
  unfold saturating_mul in Hlen. destruct (decide (len ret' * 2 < max)) as [Hlt|Hge].
  - eapply (IH _ _ _ _ k); [lia|lia|]. rewrite Hlen. replace (Z.min _ _) with (len ret' * 2) by lia. nia.
  - destruct fuel as [|fuel]; [lia|]. cbn [inflate_loop].
    destruct (inflate_decompress d' _ r _ flags) as [[d'' r'] [[st' i'] o']] eqn:Hd''.
    apply decompress_length in Hd''. destruct st'; try by eexists.
    case_decide; [by eexists|]. rewrite decide_True by lia. by eexists.
Qed.

Lemma inflate_terminates input flags max :
  input ≠ [] → 1 <= max <= USIZE_MAX → is_Some (decompress_to_vec_inner input flags max).
Proof.
  intros Hne Hmax. unfold decompress_to_vec_inner, vec_zeroed. destruct (resize _ []) as [r|e|] eqn:Hr; [|by eexists..].
  assert (1 <= len input) by (destruct input; [done|rewrite len_cons; pose proof (len_nonneg input); lia]).
  assert (len r = Z.min (saturating_mul (len input) 2) max) as Hlen.
  { eapply resize_len; [|exact Hr]. change (len []) with 0. unfold saturating_mul, USIZE_MAX. lia. }
  apply (inflate_loop_terminates _ _ (proj2 Hmax) _ _ _ _ _ 64); [unfold inflate_fuel; lia|..];
    rewrite Hlen; unfold saturating_mul, USIZE_MAX in *; lia.
Qed.

(** The consumed length answered stays within the input. *)
Lemma inflate_loop_consumed flags max : ∀ fuel d input ret pos x n,
  inflate_loop fuel d input ret pos flags max = Some (Ok (x, n)) → 0 <= n <= len input.
Proof.
  induction fuel as [|fuel IH]; intros d input ret pos x n; [done|]. cbn [inflate_loop].
  destruct (inflate_decompress d input ret pos flags) as [[d' ret'] [[st i] o]] eqn:Hd.
  apply decompress_consumed in Hd. destruct st; try done.
  - by intros [= _ <-].
  - case_decide; [done|]. case_decide; [done|]. destruct (resize _ ret') as [r|e|]; [|done..].
    intros Hl%IH. unfold len in *. rewrite length_drop in Hl. lia.
Qed.

Lemma inflate_consumed input x n : decompress_to_vec_zlib input = Ok (x, n) → 0 <= n <= len input.
Proof.
  unfold decompress_to_vec_zlib, decompress_to_vec_inner, vec_zeroed, resize. case_decide; [|done].
  destruct (inflate_loop _ _ _ _ _ _ _) as [r|] eqn:Hl; [|done]. unfold default, from_option, id. intros ->.
  by apply inflate_loop_consumed in Hl.
Qed.

(** When the machine has more output than the first buffer holds, only the bytes consumed
    after that are counted: the answer is the one of a call on the rest of the input. *)
Lemma inflate_outgrown fuel d input ret pos flags max d' ret' i o r :
  inflate_decompress d input ret pos flags = (d', ret', (HasMoreOutput, i, o)) →
  len ret' < max → resize (Z.min (saturating_mul (len ret') 2) max) ret' = Ok r →
  inflate_loop (S fuel) d input ret pos flags max
  = inflate_loop fuel d' (drop (Z.to_nat i) input) r (pos + o) flags max.
Proof.
  intros Hd Hmax Hr. cbn [inflate_loop]. pose proof (decompress_consumed _ _ _ _ _ _ _ _ _ _ Hd).
  rewrite Hd, !decide_False by lia. by rewrite Hr.
Qed.
End inflate.

(** * What a compressor relies on *)

(** A fresh machine that has room for the whole output ends in one call, having consumed the
    stream and nothing of what follows it. *)
Class InflateLaws `{!InflateCore} := {
  compress : bytes → bytes;
  decompress_fits x rest out :
    len x <= len out →
    ∃ d' tail, inflate_decompress oxide_default (compress x ++ rest) out 0
        (Z.lor TINFL_FLAG_PARSE_ZLIB_HEADER TINFL_FLAG_USING_NON_WRAPPING_OUTPUT_BUF)
      = (d', x ++ tail, (Done, len (compress x), len x));
}.

(** The first buffer of a call on [input]. *)
Definition first_buffer (input : bytes) : Z := 2 * len input.

Lemma inflate_fits `{!InflateCore} `{!InflateLaws} x rest :
  len x <= first_buffer (compress x ++ rest) <= ISIZE_MAX →
  decompress_to_vec_zlib (compress x ++ rest) = Ok (x, len (compress x)).
Proof.
  unfold first_buffer. intros Hx. unfold decompress_to_vec_zlib, decompress_to_vec_inner, vec_zeroed, resize.
  replace (Z.min (saturating_mul _ 2) USIZE_MAX) with (2 * len (compress x ++ rest))
    by (unfold saturating_mul, USIZE_MAX, ISIZE_MAX in *; pose proof (len_nonneg (compress x ++ rest)); lia).
  rewrite decide_True by lia. change inflate_fuel with (S 65). cbn [inflate_loop].
  set (out := [] ++ replicate _ _).
  assert (len x <= len out) as Hout.
  { subst out. cbn [app]. unfold len at 2. rewrite length_replicate. change (len []) with 0. lia. }
  destruct (decompress_fits x rest out Hout) as (d & tail & ->). unfold default, from_option, id. do 2 f_equal.
  rewrite Z.add_0_l. unfold len. by rewrite Nat2Z.id, take_app_length.
Qed.

(** * A run-length machine

    The simplest machine with the behaviour the loop relies on: a method byte, then pairs of a
    count and a byte, then a zero; what does not fit the buffer stays pending in its state. *)
Module Rle.
Record RleState := mkRleState { rl_started : bool; rl_count : nat; rl_byte : byte }.
Definition METHOD : byte := z2b 0x78.

(** What a call writes into [room] bytes, how much it consumed and what stays pending. *)
Fixpoint runs (room : nat) (input : bytes) : TINFLStatus * Z * bytes * (nat * byte) :=
  match input with
  | [] => (FailedCannotMakeProgress, 0, [], (0%nat, byte0))
  | c :: input =>
      let n := Z.to_nat (b2z c) in
      if decide (n = 0%nat) then (Done, 1, [], (0%nat, byte0))
      else
        match input with
        | [] => (FailedCannotMakeProgress, 1, [], (0%nat, byte0))
        | b :: input =>
            if decide (n ≤ room)%nat then
              let '(st, i, o, p) := runs (room - n) input in (st, 2 + i, replicate n b ++ o, p)
            else (HasMoreOutput, 2, replicate room b, ((n - room)%nat, b))
        end
  end.

Definition body (d : RleState) (room : nat) (input : bytes) : TINFLStatus * Z * bytes * (nat * byte) :=
  if decide (rl_count d ≤ room)%nat then
    let '(st, i, o, p) := runs (room - rl_count d) input in (st, i, replicate (rl_count d) (rl_byte d) ++ o, p)
  else (HasMoreOutput, 0, replicate room (rl_byte d), ((rl_count d - room)%nat, rl_byte d)).

Definition step (d : RleState) (room : nat) (input : bytes) : TINFLStatus * Z * bytes * (nat * byte) :=
  if rl_started d then body d room input
  else
    match input with
    | [] => (FailedCannotMakeProgress, 0, [], (0%nat, byte0))
    | m :: input =>
        if decide (m = METHOD) then
          let '(st, i, o, p) := body d room input in (st, 1 + i, o, p)
        else (Failed, 1, [], (0%nat, byte0))
    end.

#[local] Instance core : InflateCore := {|
  DecompressorOxide := RleState;
  oxide_default := mkRleState false 0 byte0;
  inflate_decompress d input out out_pos flags :=
    let k := Z.to_nat out_pos in
    let '(st, i, o, (n, b)) := step d (length out - k) input in
    (mkRleState true n b, take (length out) (take k out ++ o ++ drop (k + length o) out), (st, i, len o));
|}.

Lemma runs_bounds room input st i o p :
  runs room input = (st, i, o, p) → 0 <= i <= len input ∧ (length o ≤ room)%nat.
Proof.
  remember (length input) as n eqn:Hn. revert room input st i o p Hn.
  induction n as [n IH] using lt_wf_ind. intros room [|c [|b input]] st i o p Hn; cbn [runs].
  - intros [= <- <- <- <-]. unfold len. cbn. lia.
  - destruct (decide _); intros [= <- <- <- <-]; unfold len; cbn; lia.
  - rewrite !len_cons. pose proof (len_nonneg input).
    destruct (decide _); [intros [= <- <- <- <-]; cbn; lia|]. destruct (decide _) as [Hr|Hr].
    + destruct (runs _ input) as [[[st' i'] o'] p'] eqn:Hrun. intros [= <- <- <- <-].
      cbn [length] in Hn. destruct (IH (length input) ltac:(lia) _ _ _ _ _ _ eq_refl Hrun) as [Hi Ho].
      rewrite length_app, length_replicate. lia.
    + intros [= <- <- <- <-]. rewrite length_replicate. lia.
Qed.
Lemma body_bounds d room input st i o p :
  body d room input = (st, i, o, p) → 0 <= i <= len input ∧ (length o ≤ room)%nat.
Proof.
  unfold body. pose proof (len_nonneg input). case_decide.
  - destruct (runs _ input) as [[[st' i'] o'] p'] eqn:Hrun. intros [= <- <- <- <-].
    apply runs_bounds in Hrun. rewrite length_app, length_replicate. lia.
  - intros [= <- <- <- <-]. rewrite length_replicate. lia.
Qed.
Lemma step_bounds d room input st i o p :
  step d room input = (st, i, o, p) → 0 <= i <= len input ∧ (length o ≤ room)%nat.
Proof.
  unfold step. destruct (rl_started d); [apply body_bounds|]. destruct input as [|m input].
  - intros [= <- <- <- <-]. unfold len. cbn. lia.
  - rewrite len_cons. pose proof (len_nonneg input). case_decide; [|intros [= <- <- <- <-]; cbn; lia].
    destruct (body d room input) as [[[st' i'] o'] p'] eqn:Hb. intros [= <- <- <- <-].
    apply body_bounds in Hb. lia.
Qed.

#[local] Instance core_laws : InflateCoreLaws.
Proof.
  split; intros d input out out_pos flags d' out' st i o; cbn -[len step].
  - destruct (step _ _ _) as [[[st' i'] o'] [n b]] eqn:Hs. apply step_bounds in Hs as [_ Ho].
    intros [= _ <- _ _ _]. unfold len. f_equal. rewrite length_take, !length_app, length_take, length_drop. lia.
  - destruct (step _ _ _) as [[[st' i'] o'] [n b]] eqn:Hs. apply step_bounds in Hs as [Hi _].
    by intros [= _ _ _ <- _].
Qed.

(** Every byte its own run. *)
Definition singles (x : bytes) : bytes := x ≫= (λ b, [byte1; b]).
Definition rle_compress (x : bytes) : bytes := METHOD :: singles x ++ [byte0].
(** A list of runs. *)
Definition rle_runs (l : list (Z * byte)) : bytes := METHOD :: (l ≫= (λ r, [z2b r.1; r.2])) ++ [byte0].

Lemma runs_singles x rest : ∀ room, (length x ≤ room)%nat →
  runs room (singles x ++ byte0 :: rest) = (Done, len (singles x) + 1, x, (0%nat, byte0)).
Proof.
  induction x as [|b x IH]; intros room Hr; [done|]. cbn [length] in Hr.
  change (singles (b :: x)) with (byte1 :: b :: singles x). cbn [app].
  replace (runs room (byte1 :: b :: singles x ++ byte0 :: rest)) with
    (if decide (1 ≤ room)%nat then
       let '(st, i, o, p) := runs (room - 1) (singles x ++ byte0 :: rest) in (st, 2 + i, [b] ++ o, p)
     else (HasMoreOutput, 2, replicate room b, ((1 - room)%nat, b))) by done.
  rewrite decide_True by lia. rewrite IH by lia. rewrite !len_cons. cbn [app]. do 3 f_equal. lia.
Qed.

#[local] Program Instance laws : InflateLaws := {| compress := rle_compress |}.
Next Obligation.
  intros x rest out Hx. unfold len in Hx. cbn -[len step take drop].
  assert (step (mkRleState false 0 byte0) (length out - 0) (rle_compress x ++ rest)
          = (Done, len (rle_compress x), x, (0%nat, byte0))) as Hs.
  { unfold step, rle_compress. cbn [rl_started app]. rewrite decide_True by done. unfold body.
    cbn [rl_count rl_byte replicate app]. rewrite decide_True by lia.
    rewrite <- app_assoc. cbn [app]. rewrite runs_singles by lia.
    rewrite len_cons, len_app. change (len [byte0]) with 1. do 3 f_equal. }
  change (Z.to_nat 0) with 0%nat. unfold rle_compress in Hs. cbn [app] in Hs. rewrite Hs.
  eexists _, (drop (length x) out). cbn [app plus take drop]. rewrite take_ge; [done|].
  rewrite !length_app, length_take, length_drop. lia.
Qed.
End Rle.
