(* ===== verification/ChannelReader.v ===== *)
(** The channel reader stage and the batch decoder
    (src/crates/derive/src/stages/channel/channel_reader.rs, [Batch::decode] of
    src/crates/derive/src/batch/mod.rs).

    A channel is a sequence of compressed batches; the reader takes one per call and drops the
    channel at the first one it cannot read.  The decompressor is the one of [Inflate]; its state
    machine and the derived RLP decoder of single batches are the class [BatchCodec]. *)
From S2P Require Import Prelude Inflate Reader Blocks SystemConfig Types SingleBatch SpanBatch Batch TxData SpanTxs RawSpan.
#[local] Open Scope Z_scope.

(** * Decoding a batch *)

Class BatchCodec := {
  rlp_single_batch : ST bytes string SingleBatch;
  #[global] batch_inflate :: InflateCore;
}.

(** A call with [.map_err(f)]. *)
Definition with_err {S E E' A} (f : E → E') (m : ST S E A) : ST S E' A := λ s,
  let '(r, s') := m s in (map_err f r, s').

Section decode.
Context `{!TxCodec} `{!Varint} `{!BatchCodec}.

Definition batch_decode : ST bytes PipelineEncodingError Batch :=
  r ← gets id;
  if decide (r = []) then fail EmptyBuffer
  else
    val ← lift (index r 0);
    batch_type ← lift (batch_type_from (b2z val));
    _ ← advance 1;
    match batch_type with
    | TSingle =>
        single_batch ← with_err AlloyRlpError rlp_single_batch;
        mret (Single single_batch)
    | TSpan =>
        raw_span_batch ← with_err SpanBatchErr raw_decode;
        span_batch ← lift (map_err SpanBatchErr (derive 0 0 0 raw_span_batch));
        mret (Span span_batch)
    end.
End decode.

(** * The batch reader *)

Definition ZLIB_DEFLATE_COMPRESSION_METHOD : Z := 8.
Definition ZLIB_RESERVED_COMPRESSION_METHOD : Z := 15.

Record BatchReader := mkBatchReader {
  br_data : option bytes;
  br_cursor : Z;
  br_max_rlp_bytes_per_channel : Z;
}.

Definition reader_new (data : bytes) (max_rlp_bytes_per_channel : Z) : BatchReader :=
  mkBatchReader (Some data) 0 max_rlp_bytes_per_channel.

Definition set_cursor (cursor : Z) (self : BatchReader) : BatchReader :=
  mkBatchReader (br_data self) cursor (br_max_rlp_bytes_per_channel self).

Definition is_zlib (compression_type : byte) : bool :=
  let low := Z.land (b2z compression_type) 0x0F in
  bool_decide (low = ZLIB_DEFLATE_COMPRESSION_METHOD) || bool_decide (low = ZLIB_RESERVED_COMPRESSION_METHOD).

Section reader.
Context `{!TxCodec} `{!Varint} `{!BatchCodec}.

(** [BatchReader::next_batch]: [Ok None] is the answer [None]; a span batch is
    [unimplemented!]. *)
Definition reader_next_batch : ST BatchReader Empty_set (option Batch) := λ self,
  match br_data self with
  | None => (Ok None, self)
  | Some channel_data =>
      match slice (E:=Empty_set) channel_data (br_cursor self) (len channel_data) with
      | Ok [] => (Ok None, self)
      | Ok (compression_type :: rest) =>
          if is_zlib compression_type then
            match decompress_to_vec_zlib (compression_type :: rest) with
            | Panic => (Panic, self)
            | Err _ => (Ok None, self)
            | Ok (decompressed, consumed) =>
                if decide (len decompressed > br_max_rlp_bytes_per_channel self) then (Ok None, self)
                else
                  match (batch_decode decompressed).1 with
                  | Ok (Single single_batch) =>
                      (Ok (Some (Single single_batch)), set_cursor (br_cursor self + consumed) self)
                  | Ok (Span _) => (Panic, self)
                  | Err _ => (Ok None, self)
                  | Panic => (Panic, self)
                  end
            end
          else (Ok None, self)
      | Err e => match e with end
      | Panic => (Panic, self)
      end
  end.
End reader.

(** * The stage *)

Record ChannelReader (P : Type) := mkChannelReader {
  crd_prev : P;
  crd_next_batch : option BatchReader;
  crd_cfg : SoonRollupConfig;
}.
Arguments mkChannelReader {P}.
Arguments crd_prev {P}.
Arguments crd_next_batch {P}.
Arguments crd_cfg {P}.

Definition new {P : Type} (prev : P) (cfg : SoonRollupConfig) : ChannelReader P :=
  mkChannelReader prev None cfg.

Section setters.
Context {P : Type}.
Implicit Types self : ChannelReader P.

Definition set_prev (p : P) self : ChannelReader P := mkChannelReader p (crd_next_batch self) (crd_cfg self).
Definition set_reader (r : option BatchReader) self : ChannelReader P :=
  mkChannelReader (crd_prev self) r (crd_cfg self).
Definition next_channel self : ChannelReader P := set_reader None self.
End setters.

Section channel_reader.
Context {P : Type} `{!Stage P} `{!ChannelReaderProvider P} `{!TxCodec} `{!Varint} `{!BatchCodec}.
Implicit Types self : ChannelReader P.

Definition set_batch_reader : PipelineM (ChannelReader P) unit :=
  self ← gets id;
  match crd_next_batch self with
  | Some _ => mret tt
  | None =>
      data ← zoom crd_prev set_prev cr_next_data;
      channel ← lift (ok_or data (temp ChannelReaderEmpty));
      modify (set_reader (Some (reader_new channel (cfg_channel_size (crd_cfg self)))))
  end.

(** [self.next_batch.as_mut().expect(..).next_batch(..)]. *)
Definition read_batch : PipelineM (ChannelReader P) (option Batch) := λ self,
  match crd_next_batch self with
  | None => (Panic, self)
  | Some reader =>
      match reader_next_batch reader with
      | (Ok b, reader) => (Ok b, set_reader (Some reader) self)
      | (Err e, _) => match e with end
      | (Panic, reader) => (Panic, set_reader (Some reader) self)
      end
  end.

Definition next_batch : PipelineM (ChannelReader P) Batch :=
  catch set_batch_reader (λ r,
    match r with
    | Err e => _ ← modify next_channel; fail e
    | _ =>
        batch ← read_batch;
        match batch with
        | Some batch => mret batch
        | None => _ ← modify next_channel; fail (temp NotEnoughData)
        end
    end).

#[export] Instance channel_reader_stream : BatchStreamProvider (ChannelReader P) :=
  {| bs_next_batch := next_batch; bs_flush := next_channel |}.

#[export] Instance channel_reader_advancer : OriginAdvancer (ChannelReader P) :=
  zoom crd_prev set_prev advance_origin.
#[export] Instance channel_reader_origin : OriginProvider (ChannelReader P) := λ self, origin (crd_prev self).

Definition signal_ (s : Signal) : PipelineM (ChannelReader P) unit :=
  match s with
  | FlushChannel => modify (set_reader None)
  | _ => _ ← zoom crd_prev set_prev (signal s); modify next_channel
  end.
#[export] Instance channel_reader_signal : SignalReceiver (ChannelReader P) := signal_.
#[export] Instance channel_reader_stage : Stage (ChannelReader P) := {}.
End channel_reader.

(** * Reading the channel a batcher wrote *)

(** The batcher's compressor and RLP encoder, which the decoders undo; a zlib stream names
    its method in the low bits of its first byte. *)
Class BatchCodecLaws `{!BatchCodec} := {
  #[global] batch_inflate_laws :: InflateLaws;
  rlp_encode_single : SingleBatch → bytes;
  compress_head x : ∃ b l, compress x = b :: l ∧ is_zlib b = true;
  rlp_single_decode b rest : rlp_single_batch (rlp_encode_single b ++ rest) = (Ok b, rest);
}.

(** What a call leaves the reader with. *)
Definition dropped {P : Type} (self : ChannelReader P) : Prop := crd_next_batch self = None.

Section reads.
Context {P : Type} `{!Stage P} `{!ChannelReaderProvider P}.
Context `{!TxCodec} `{!Varint} `{!BatchCodec} `{!BatchCodecLaws}.

Definition encode_batch (b : SingleBatch) : bytes := z2b SINGLE_BATCH_TYPE :: rlp_encode_single b.
Definition channel_of (bs : list SingleBatch) : bytes := mjoin ((λ b, compress (encode_batch b)) <$> bs).

Lemma batch_decode_single b : batch_decode (encode_batch b) = (Ok (Single b), []).
Proof.
  unfold batch_decode, encode_batch. rewrite run_gets. unfold id. rewrite decide_False by done.
  rewrite (run_lift_Ok _ _ _ (z2b SINGLE_BATCH_TYPE)) by apply index_head.
  rewrite (run_lift_Ok _ _ _ TSingle) by done. rewrite (run_op _ _ _ tt _ (advance_cons _ _)).
  rewrite bind_run. unfold with_err. rewrite <- (app_nil_r (rlp_encode_single b)).
  by rewrite rlp_single_decode.
Qed.

(** The first buffer of the decompressor, twice the rest of the channel, holds every batch, and
    the channel itself is of a size that a vector can have twice over. *)
Definition fits_first_buffer (bs : list SingleBatch) : Prop :=
  first_buffer (channel_of bs) <= ISIZE_MAX
  ∧ ∀ l1 b l2, bs = l1 ++ b :: l2 → len (encode_batch b) <= first_buffer (channel_of (b :: l2)).

Lemma fits_first_buffer_cons b bs :
  fits_first_buffer (b :: bs) →
  len (encode_batch b) <= first_buffer (compress (encode_batch b) ++ channel_of bs) <= ISIZE_MAX
  ∧ fits_first_buffer bs.
Proof.
  intros [Hmax Hfit]. split; [split; [by apply (Hfit [])|done]|]. split.
  - unfold first_buffer in *. change (channel_of (b :: bs)) with (compress (encode_batch b) ++ channel_of bs) in Hmax.
    rewrite len_app in Hmax. pose proof (len_nonneg (compress (encode_batch b))). lia.
  - intros l1 b' l2 ->. by apply (Hfit (b :: l1)).
Qed.

(** The reader of a channel, [k] bytes into it. *)
Definition reader_at (data : bytes) (k max : Z) : BatchReader := mkBatchReader (Some data) k max.

Lemma reader_reads pre b rest max :
  len (encode_batch b) <= max →
  len (encode_batch b) <= first_buffer (compress (encode_batch b) ++ rest) <= ISIZE_MAX →
  reader_next_batch (reader_at (pre ++ compress (encode_batch b) ++ rest) (len pre) max)
  = (Ok (Some (Single b)),
     reader_at (pre ++ compress (encode_batch b) ++ rest) (len pre + len (compress (encode_batch b))) max).
Proof.
  intros Hmax Hbuf. destruct (compress_head (encode_batch b)) as (c & l & Hc & Hz).
  unfold reader_next_batch, reader_at. cbn [br_data br_cursor br_max_rlp_bytes_per_channel].
  rewrite slice_suffix. pose proof (inflate_fits (encode_batch b) rest Hbuf) as Hd.
  destruct (compress (encode_batch b) ++ rest) as [|c' l'] eqn:Happ; [by rewrite Hc in Happ|].
  assert (c' = c) as -> by (rewrite Hc in Happ; by injection Happ).
  rewrite Hz, Hd, decide_False by lia. by rewrite batch_decode_single.
Qed.

Lemma reader_ends data max :
  reader_next_batch (reader_at data (len data) max) = (Ok None, reader_at data (len data) max).
Proof.
  unfold reader_next_batch, reader_at. cbn [br_data br_cursor].
  pose proof (slice_suffix (E:=Empty_set) data []) as Hs. rewrite app_nil_r in Hs. by rewrite Hs.
Qed.

(** A stage that reads a channel. *)
Lemma next_batch_some (p : P) cfg reader :
  next_batch (mkChannelReader p (Some reader) cfg)
  = (batch ← read_batch;
     match batch with
     | Some batch => mret batch
     | None => _ ← modify next_channel; fail (temp NotEnoughData)
     end) (mkChannelReader p (Some reader) cfg).
Proof. done. Qed.

Lemma read_batch_run (p : P) cfg reader b reader' :
  reader_next_batch reader = (Ok b, reader') →
  read_batch (mkChannelReader p (Some reader) cfg) = (Ok b, mkChannelReader p (Some reader') cfg).
Proof. intros Hr. unfold read_batch. cbn [crd_next_batch]. by rewrite Hr. Qed.

Lemma next_batch_reading (p : P) cfg reader b reader' :
  reader_next_batch reader = (Ok (Some b), reader') →
  next_batch (mkChannelReader p (Some reader) cfg) = (Ok b, mkChannelReader p (Some reader') cfg).
Proof. intros Hr. by rewrite next_batch_some, (run_op _ _ _ _ _ (read_batch_run _ _ _ _ _ Hr)). Qed.

Lemma next_batch_reader_ends (p : P) cfg reader reader' :
  reader_next_batch reader = (Ok None, reader') →
  next_batch (mkChannelReader p (Some reader) cfg) = (Err (temp NotEnoughData), mkChannelReader p None cfg).
Proof. intros Hr. by rewrite next_batch_some, (run_op _ _ _ _ _ (read_batch_run _ _ _ _ _ Hr)). Qed.

(** A stage without a channel pulls one, and goes on as if it had it. *)
Lemma next_batch_pulls (p p' : P) cfg data :
  cr_next_data p = (Ok (Some data), p') →
  next_batch (mkChannelReader p None cfg)
  = next_batch (mkChannelReader p' (Some (reader_at data 0 (cfg_channel_size cfg))) cfg).
Proof.
  intros Hp. unfold next_batch, catch, set_batch_reader. rewrite run_gets. cbn [id crd_next_batch].
  assert (zoom crd_prev set_prev (cr_next_data (P:=P)) (mkChannelReader p None cfg)
          = (Ok (Some data), mkChannelReader p' None cfg)) as Hz.
  { unfold zoom. cbn. by rewrite Hp. }
  rewrite (run_op _ _ _ _ _ Hz), (run_lift_Ok _ _ _ data) by done. done.
Qed.

Lemma collect_replicate {S E A} (m : ST S E A) n s :
  collect (λ _ : unit, m) (replicate (Datatypes.S n) tt) s
  = (a ← m; rest ← collect (λ _ : unit, m) (replicate n tt); mret (a :: rest)) s.
Proof. done. Qed.

Lemma reads_rest (p : P) cfg bs : ∀ pre,
  Forall (λ b, len (encode_batch b) <= cfg_channel_size cfg) bs → fits_first_buffer bs →
  collect (λ _ : unit, next_batch) (replicate (length bs) tt)
    (mkChannelReader p (Some (reader_at (pre ++ channel_of bs) (len pre) (cfg_channel_size cfg))) cfg)
  = (Ok (Single <$> bs),
     mkChannelReader p (Some (reader_at (pre ++ channel_of bs) (len (pre ++ channel_of bs))
                                        (cfg_channel_size cfg))) cfg).
Proof.
  induction bs as [|b bs IH]; intros pre Hfit Hbuf; [by rewrite app_nil_r|].
  apply Forall_cons in Hfit as [Hb Hfit]. apply fits_first_buffer_cons in Hbuf as [Hbb Hbuf]. cbn [length]. rewrite collect_replicate.
  change (channel_of (b :: bs)) with (compress (encode_batch b) ++ channel_of bs).
  rewrite (run_op _ _ _ _ _ (next_batch_reading _ _ _ _ _ (reader_reads _ _ _ _ Hb Hbb))).
  rewrite app_assoc, <- len_app. by rewrite (run_op _ _ _ _ _ (IH _ Hfit Hbuf)).
Qed.

(** C35. A channel is read completely: when the previous stage delivers a channel in which a
    batcher compressed single batches one after the other, each no larger than the channel
    size nor than twice the channel that is left from it on (so that the decompressor's first
    buffer holds it), that many calls deliver exactly those batches, in order, and the next
    call reports that there is not enough data and drops the channel, whatever the number of
    batches.  A batch that outgrows the first buffer is delivered, but the batches after it
    are lost: see [outgrown_batch_loses_the_rest]. *)
Theorem reader_delivers_batches (p p' : P) (cfg : SoonRollupConfig) (bs : list SingleBatch) :
  cr_next_data p = (Ok (Some (channel_of bs)), p') →
  Forall (λ b, len (encode_batch b) <= cfg_channel_size cfg) bs → fits_first_buffer bs →
  ∃ self, collect (λ _ : unit, next_batch) (replicate (length bs) tt) (new p cfg) = (Ok (Single <$> bs), self)
    ∧ next_batch self = (Err (temp NotEnoughData), new p' cfg).
Proof.
  intros Hp Hfit Hbuf. pose proof (reads_rest p' cfg bs [] Hfit Hbuf) as Hr. cbn [app] in Hr.
  change (len []) with 0 in Hr.
  pose proof (next_batch_reader_ends p' cfg _ _ (reader_ends (channel_of bs) (cfg_channel_size cfg))) as Hend.
  destruct bs as [|b bs].
  - exists (new p cfg). split; [done|]. unfold new. by rewrite (next_batch_pulls _ _ _ _ Hp).
  - cbn [length] in Hr. rewrite collect_replicate in Hr. eexists. split; [|exact Hend].
    cbn [length]. rewrite collect_replicate, bind_run. unfold new.
    rewrite (next_batch_pulls _ _ _ _ Hp), <- bind_run. exact Hr.
Qed.
End reads.

(** * Errors *)

Section errors.
Context {P : Type} `{!Stage P} `{!ChannelReaderProvider P} `{!TxCodec} `{!Varint} `{!BatchCodec}.

Lemma set_batch_reader_cases (self self' : ChannelReader P) r :
  set_batch_reader self = (r, self') →
  match crd_next_batch self with
  | Some _ => r = Ok tt ∧ self' = self
  | None => match r with Ok _ => is_Some (crd_next_batch self') | _ => crd_next_batch self' = None end
  end.
Proof.
  unfold set_batch_reader. rewrite run_gets. unfold id. destruct (crd_next_batch self) as [reader|] eqn:Hn.
  - by intros [= <- <-].
  - rewrite bind_run. unfold zoom. destruct (cr_next_data (crd_prev self)) as [[[data|]|e|] p] eqn:Hd; cbn;
      intros [= <- <-]; by try eexists.
Qed.

(** No channel can stall the reader: every call that answers an error leaves the stage
    without a channel, so the next call pulls a new one; and a call that fails while it had
    a channel has not touched the previous stage and reports only that there is not enough
    data. *)
Theorem reader_error_drops_channel (self self' : ChannelReader P) (e : PipelineErrorKind) :
  next_batch self = (Err e, self') →
  dropped self' ∧ (¬ dropped self → crd_prev self' = crd_prev self ∧ e = temp NotEnoughData).
Proof.
  unfold next_batch, catch, dropped. destruct (set_batch_reader self) as [r s1] eqn:Hs.
  apply set_batch_reader_cases in Hs. destruct (crd_next_batch self) as [reader|] eqn:Hn.
  - destruct Hs as [-> ->]. rewrite bind_run. unfold read_batch. rewrite Hn.
    destruct (reader_next_batch reader) as [[[b|]|[]|] reader']; [done| |done]. intros [= <- <-]. done.
  - destruct r as [u|e1|]; [|by intros [= <- <-]|done]. rewrite bind_run. unfold read_batch.
    destruct Hs as [reader Hs]. rewrite Hs.
    destruct (reader_next_batch reader) as [[[b|]|[]|] reader']; [done| |done]. by intros [= <- <-].
Qed.
End errors.

(** * The interface, implemented

    The decoder panics on an unknown batch type and on a truncated span batch, and a decoded
    span batch is not supported; a stage in that state panics at every call.  Apart from it the
    stage keeps its interface: [guarded_next_batch] is [next_batch] with that panic replaced by
    an error, and is what the stages above are given for their own safety. *)
Section laws.
Context {P : Type} `{!Stage P} `{!StageLaws P} `{!ChannelReaderProvider P} `{!ChannelReaderLaws P}.
Context `{!TxCodec} `{!Varint} `{!BatchCodec} `{!InflateCoreLaws}.

Definition reader_inv (r : BatchReader) : Prop :=
  match br_data r with None => True | Some data => 0 <= br_cursor r <= len data end.

(** What is decompressed next makes the reader panic. *)
Definition undecodable (r : BatchReader) : Prop :=
  match br_data r with
  | None => False
  | Some data =>
      match decompress_to_vec_zlib (drop (Z.to_nat (br_cursor r)) data) with
      | Ok (x, _) =>
          len x <= br_max_rlp_bytes_per_channel r
          ∧ match (batch_decode x).1 with Ok (Span _) | Panic => True | _ => False end
      | Err _ => False
      | Panic => True
      end
  end.

Lemma reader_next_batch_panics r r' :
  reader_inv r → reader_next_batch r = (Panic, r') → r' = r ∧ undecodable r.
Proof.
  intros Hr. unfold reader_next_batch, undecodable, reader_inv in *. destruct (br_data r) as [data|]; [|done].
  unfold slice. rewrite decide_True by lia. set (z := take _ _).
  assert (z = drop (Z.to_nat (br_cursor r)) data) as Hz.
  { subst z. apply take_ge. rewrite length_drop. unfold len in *. lia. }
  rewrite <- Hz. clearbody z. destruct z as [|c l]; [done|]. destruct (is_zlib c); [|done].
  destruct (decompress_to_vec_zlib (c :: l)) as [[x n]|e|]; [|done|by intros [= <-]].
  destruct (decide _); [done|]. destruct (batch_decode x).1 as [[b|b]|e|]; [done| |done|];
    intros [= <-]; (split; [done|]; split; [lia|done]).
Qed.

Lemma reader_next_batch_inv r :
  reader_inv r → reader_inv (reader_next_batch r).2.
Proof.
  intros Hr. unfold reader_next_batch, reader_inv in *. destruct (br_data r) as [data|] eqn:Hd; [|by cbn; rewrite Hd].
  destruct (slice_total (E:=Empty_set) data (br_cursor r) (len data)) as (z & -> & Hz); [lia|lia|].
  destruct z as [|c l]; [by cbn; rewrite Hd|]. destruct (is_zlib c); [|by cbn; rewrite Hd].
  destruct (decompress_to_vec_zlib (c :: l)) as [[x n]|e|] eqn:Hx; [|by cbn; rewrite Hd..].
  destruct (decide _); [by cbn; rewrite Hd|]. apply inflate_consumed in Hx.
  destruct (batch_decode x).1 as [[b|b]|e|]; [|by cbn; rewrite Hd..]. cbn. rewrite Hd. lia.
Qed.

Definition channel_reader_inv (self : ChannelReader P) : Prop :=
  st_inv (crd_prev self) ∧ match crd_next_batch self with None => True | Some r => reader_inv r end.

Definition channel_reader_err (e : PipelineErrorKind) : Prop := is_temporary e = true ∨ st_err (P:=P) e.

#[export] Program Instance channel_reader_stage_laws : StageLaws (ChannelReader P) :=
  {| st_inv := channel_reader_inv; st_err := channel_reader_err |}.
Next Obligation. intros self [Hi _]. by apply (st_origin (crd_prev self)). Qed.
Next Obligation.
  apply (safe_zoom _ _ st_inv st_err); [apply st_advance|..].
  - by intros self [Hi _]. - by intros self p [_ Hr] Hp. - intros e He. by right.
Qed.
Next Obligation.
  intros s Hs. unfold signal, stage_receiver, channel_reader_stage, channel_reader_signal, signal_.
  assert (safe channel_reader_inv channel_reader_err (λ _, True)
            (_ ← zoom crd_prev set_prev (signal s); modify next_channel)) as Hz.
  { apply (safe_bind _ _ (λ _, True)); [|intros _ _; apply safe_modify; by intros self [Hi _]].
    apply (safe_zoom _ _ st_inv st_err); [by apply st_signal|..].
    - by intros self [Hi _]. - by intros self p [_ Hr] Hp. - intros e He. by right. }
  destruct s; [done|done|]. apply safe_modify. by intros self [Hi _].
Qed.

Lemma set_batch_reader_safe o :
  safe (λ self, channel_reader_inv self ∧ origin (crd_prev self) = o) channel_reader_err (λ _, True)
    set_batch_reader.
Proof.
  intros self [[Hi Hr] Ho]. unfold set_batch_reader. rewrite run_gets. unfold id.
  destruct (crd_next_batch self) as [r|] eqn:Hn.
  { cbn. unfold channel_reader_inv. by rewrite Hn. }
  rewrite bind_run. unfold zoom.
  pose proof (cr_next_data_safe (P:=P) o (crd_prev self) (conj Hi Ho)) as Hp.
  destruct (cr_next_data (crd_prev self)) as [[[data|]|e|] p]; [..|done]; cbn -[len].
  - destruct Hp as (_ & Hp & Ho'). split; [done|]. split; [|done]. split; [done|]. unfold reader_inv. cbn.
    pose proof (len_nonneg data). lia.
  - destruct Hp as (_ & Hp & Ho'). split; [by left|]. unfold channel_reader_inv. cbn. by rewrite Hn.
  - destruct Hp as (He & Hp & Ho'). split; [by right|]. unfold channel_reader_inv. cbn. by rewrite Hn.
Qed.

Definition undecodable_at (self : ChannelReader P) : Prop :=
  match crd_next_batch self with Some r => undecodable r | None => False end.

Lemma read_batch_run_inv o self :
  channel_reader_inv self ∧ origin (crd_prev self) = o → is_Some (crd_next_batch self) →
  match read_batch self with
  | (Ok b, s') => channel_reader_inv s' ∧ origin (crd_prev s') = o
  | (Err e, s') => False
  | (Panic, s') => s' = self ∧ undecodable_at self
  end.
Proof.
  intros [[Hi Hr] Ho] [r Hn]. unfold read_batch, undecodable_at. rewrite Hn in *.
  pose proof (reader_next_batch_inv r Hr) as Hs. pose proof (reader_next_batch_panics r) as Hp.
  destruct (reader_next_batch r) as [[b|[]|] r']; [done|]. destruct (Hp _ Hr eq_refl) as [-> Hu].
  split; [|done]. destruct self as [p nb cfg]. cbn in *. by subst nb.
Qed.

(** [next_batch] is safe but for the panic in such a state. *)
Lemma next_batch_safe_or o self :
  channel_reader_inv self ∧ origin (crd_prev self) = o →
  match next_batch self with
  | (Ok _, s') => channel_reader_inv s' ∧ origin (crd_prev s') = o
  | (Err e, s') => channel_reader_err e ∧ channel_reader_inv s' ∧ origin (crd_prev s') = o
  | (Panic, s') => undecodable_at s' ∧ channel_reader_inv s' ∧ origin (crd_prev s') = o
  end.
Proof.
  intros Hinv. unfold next_batch, catch. pose proof (set_batch_reader_safe o self Hinv) as Hs.
  destruct (set_batch_reader self) as [r s1] eqn:Hr. pose proof (set_batch_reader_cases _ _ _ Hr) as Hc.
  destruct r as [u|e|]; [|destruct Hs as [He [[Hi _] Ho']]; by cbn|done].
  destruct Hs as [_ Hs]. rewrite bind_run.
  assert (is_Some (crd_next_batch s1)) as Hsome.
  { destruct (crd_next_batch self) eqn:Hn; [destruct Hc as [_ ->]; by rewrite Hn|done]. }
  pose proof (read_batch_run_inv o s1 Hs Hsome) as Hb.
  destruct (read_batch s1) as [[[b|]|e|] s2]; [done| |done|by destruct Hb as [-> Hu]].
  cbn. split; [by left|]. destruct Hb as [[Hi _] Ho']. by cbn.
Qed.

#[export] Instance undecodable_dec r : Decision (undecodable r).
Proof.
  unfold undecodable. destruct (br_data r) as [data|]; [|apply _].
  destruct (decompress_to_vec_zlib _) as [[x n]|e|]; [|apply _..].
  apply and_dec; [apply _|]. destruct (batch_decode x).1 as [[]|e|]; apply _.
Defined.
#[export] Instance undecodable_at_dec self : Decision (undecodable_at self).
Proof. unfold undecodable_at. destruct (crd_next_batch self); apply _. Defined.

Definition guarded_next_batch : PipelineM (ChannelReader P) Batch := λ self,
  match next_batch self with
  | (Panic, self) =>
      if decide (undecodable_at self) then (Err (temp NotEnoughData), self) else (Panic, self)
  | r => r
  end.
Definition guarded_stream : BatchStreamProvider (ChannelReader P) :=
  {| bs_next_batch := guarded_next_batch; bs_flush := next_channel |}.

Lemma guarded_stream_laws : @BatchStreamLaws (ChannelReader P) _ _ guarded_stream.
Proof.
  split; [|intros p [Hi Hr]; split; [by split|done]].
  intros o self Hinv. pose proof (next_batch_safe_or o self Hinv) as Hn.
  unfold bs_next_batch, guarded_stream, guarded_next_batch.
  destruct (next_batch self) as [[b|e|] s']; [done|done|]. destruct Hn as [Hu Hn]. rewrite decide_True by done.
  split; [by left|done].
Qed.
End laws.

(** * A concrete codec and the witnesses *)

#[global] Instance single_batch_countable : Countable SingleBatch :=
  inj_countable' (λ b, (sb_parent_hash b, sb_epoch_num b, sb_epoch_hash b, sb_timestamp b, sb_transactions b))
    (λ '(p, n, h, t, l), mkSingleBatch p n h t l) (λ '(mkSingleBatch p n h t l), eq_refl).

#[global] Instance bit_batch_codec : BatchCodec := {|
  rlp_single_batch l :=
    match l with
    | [] => (Err "InputTooShort"%string, l)
    | _ :: l' =>
        match read_bits l' with
        | None => (Err "InputTooShort"%string, l)
        | Some p => (ok_or (countable.decode p) "Custom"%string, drop (length (write_bits p)) l')
        end
    end;
  batch_inflate := Rle.core;
|}.
#[global] Program Instance bit_batch_codec_laws : BatchCodecLaws := {|
  batch_inflate_laws := Rle.laws;
  rlp_encode_single b := write_item b;
|}.
Next Obligation. intros x. by eexists _, _. Qed.
Next Obligation.
  intros b rest. cbn -[write_bits read_bits]. by rewrite read_write_bits, decode_encode, drop_app_length.
Qed.

Definition demo_cfg : SoonRollupConfig := new_for_genesis 1 Address_ZERO 0.
Definition demo_block (n : Z) : SingleBatch := mkSingleBatch [byte1] n [byte1] (1000 + n) [[byte1]].
Definition demo_block_info : BlockInfo := mkBlockInfo B256_ZERO 1 B256_ZERO 1.
Definition demo_stage : Replay (option bytes) :=
  mkReplay demo_block_info [Some (channel_of [demo_block 1; demo_block 2])].

Lemma reader_delivers_batches_witness :
  ∃ self, collect (λ _ : unit, next_batch) (replicate 2 tt) (new demo_stage demo_cfg)
      = (Ok [Single (demo_block 1); Single (demo_block 2)], self)
    ∧ next_batch self = (Err (temp NotEnoughData), new (mkReplay demo_block_info []) demo_cfg).
Proof.
  apply (reader_delivers_batches demo_stage (mkReplay demo_block_info []) demo_cfg [demo_block 1; demo_block 2]).
  - reflexivity.
  - repeat constructor; vm_compute; congruence.
  - split; [vm_compute; congruence|]. intros [|b1 [|b2 [|b3 l1]]] b l2 Hl; [| |done..];
      injection Hl as <- <-; [|subst l2]; vm_compute; congruence.
Defined.

(** A channel that is not compressed: the reader drops it. *)
Lemma reader_error_drops_channel_witness :
  ∃ self', next_batch (mkChannelReader demo_stage (Some (reader_new [byte1] 100)) demo_cfg)
      = (Err (temp NotEnoughData), self')
    ∧ dropped self' ∧ crd_prev self' = demo_stage.
Proof.
  eexists. split; [reflexivity|].
  destruct (reader_error_drops_channel (mkChannelReader demo_stage (Some (reader_new [byte1] 100)) demo_cfg) _ _
              eq_refl) as [Hd Hp].
  split; [exact Hd|]. apply Hp. intros Hn. discriminate Hn.
Defined.

(** The first decompressed byte is chosen by the batcher: any other value than the two batch
    types panics, and so does a truncated span batch. *)
Example unknown_batch_type_panics :
  (reader_next_batch (reader_new (compress [z2b 2]) 100)).1 = Panic
  ∧ (reader_next_batch (reader_new (compress [z2b SPAN_BATCH_TYPE; byte1; byte1]) 100)).1 = Panic.
Proof. vm_compute. done. Qed.

(** A batch larger than twice what is left of the channel outgrows the decompressor's first
    buffer; the consumed length answered is then that of the last turn only, the cursor ends
    up inside the batch just read, and the rest of the channel is lost. *)
Module Outgrown.
#[local] Instance codec : BatchCodec := {|
  rlp_single_batch l :=
    match l with
    | e :: t :: tx => (Ok (mkSingleBatch [byte1] (b2z e) [byte1] (b2z t) [tx]), [])
    | _ => (Err "InputTooShort"%string, l)
    end;
  batch_inflate := Rle.core;
|}.
Definition large : bytes := Rle.rle_runs [(1, byte0); (1, z2b 1); (1, z2b 5); (40, z2b 7)].
Definition small : bytes := Rle.rle_compress [byte0; z2b 2; z2b 6; z2b 9].
Definition stage : Replay (option bytes) := mkReplay demo_block_info [Some (large ++ small)].
Definition first_read := next_batch (new stage demo_cfg).
Definition second_read := next_batch first_read.2.
End Outgrown.

Example outgrown_batch_loses_the_rest :
  let codec := Outgrown.codec in
  (decompress_to_vec_zlib (Outgrown.large ++ Outgrown.small) = Ok (byte0 :: z2b 1 :: z2b 5 :: replicate 40 (z2b 7), 1)
   ∧ len Outgrown.large = 10)
  ∧ Outgrown.first_read.1 = Ok (Single (mkSingleBatch [byte1] 1 [byte1] 5 [replicate 40 (z2b 7)]))
  ∧ Outgrown.second_read.1 = Err (temp NotEnoughData) ∧ crd_next_batch Outgrown.second_read.2 = None.
Proof. vm_compute. done. Qed.
