(* ===== verification/Rlp.v ===== *)
(** The RLP coding primitives of the crate alloy_rlp, as the class [Rlp] with the laws the codecs
    of the program rely on ([RlpLaws]), and the coding itself as the concrete instance. *)
From S2P Require Import Prelude Reader.
#[local] Open Scope Z_scope.

(** The errors the code names; any other is given by its text. *)
Inductive RlpError :=
| UnexpectedString
| UnexpectedList
| UnexpectedLength
| OtherRlpError (msg : string).

(** Decoders advance the slice.  [Header] is a pair: is it a list, and the payload length. *)
Class Rlp := {
  header_encode : bool → Z → bytes;
  header_decode : ST bytes RlpError (bool * Z);
  length_of_length : Z → Z;
  string_encode : bytes → bytes;
  string_decode : ST bytes RlpError bytes;
  string_length : bytes → Z;
  hash_decode : ST bytes RlpError bytes;
  list_decode : ∀ {A}, ST bytes RlpError A → ST bytes RlpError (list A);
}.

Definition rlp_size (n : Z) : Prop := 0 <= n < 2 ^ 64.

Class RlpLaws `{!Rlp} := {
  header_len list n : rlp_size n → len (header_encode list n) = length_of_length n;
  length_of_length_range n : rlp_size n → 1 <= length_of_length n <= 9;
  length_of_length_short n : 0 <= n < 56 → length_of_length n = 1;
  header_read n rest : rlp_size n → n <= len rest → header_decode (header_encode true n ++ rest) = (Ok (true, n), rest);
  string_header s rest : rlp_size (len s) → header_decode (string_encode s ++ rest) = (Ok (false, len s), s ++ rest);
  string_read s rest : rlp_size (len s) → string_decode (string_encode s ++ rest) = (Ok s, rest);
  hash_read s rest : len s = 32 → hash_decode (string_encode s ++ rest) = (Ok s, rest);
  string_length_spec s : rlp_size (len s) → string_length s = len (string_encode s);
  string_len s : rlp_size (len s) → len s ≠ 1 → len (string_encode s) = length_of_length (len s) + len s;
  string_small b : b2z b < 0x80 → string_encode [b] = [b];
  string_single b : 0x80 <= b2z b → len (string_encode [b]) = 2;
  string_empty : string_encode [] = [z2b 0x80];
  list_read {A} (dec : ST bytes RlpError A) items xs rest :
    Forall2 (λ item x, item ≠ [] ∧ ∀ rest, dec (item ++ rest) = (Ok x, rest)) items xs →
    rlp_size (len (mjoin items)) →
    list_decode dec (header_encode true (len (mjoin items)) ++ mjoin items ++ rest) = (Ok xs, rest);
}.

(** * The coding *)

(** Decoding in a view of the next [n] bytes, past which the slice is advanced. *)
Definition with_payload {A} (n : Z) (m : ST bytes RlpError A) : ST bytes RlpError A := λ r,
  if decide (0 <= n <= len r) then
    let '(x, _) := m (take (Z.to_nat n) r) in (x, drop (Z.to_nat n) r)
  else (Err (OtherRlpError "input too short"), r).

Lemma with_payload_app {A} (m : ST bytes RlpError A) n s rest x r :
  len s = n → m s = (x, r) → with_payload n m (s ++ rest) = (x, rest).
Proof.
  intros <- Hm. unfold with_payload. pose proof (len_nonneg s). pose proof (len_nonneg rest).
  rewrite decide_True by (rewrite len_app; lia). unfold len. by rewrite Nat2Z.id, take_app_length, Hm, drop_app_length.
Qed.

Module Coding.
Fixpoint digits (fuel : nat) (n : Z) : nat :=
  match fuel with
  | O => O
  | S fuel => if decide (n < 256) then 1%nat else S (digits fuel (n / 256))
  end.
Definition lol (n : Z) : Z := if decide (n < 56) then 1 else 1 + Z.of_nat (digits 8 n).
Definition header (list : bool) (n : Z) : bytes :=
  let base := if list then 0xC0 else 0x80 in
  if decide (n < 56) then [z2b (base + n)]
  else z2b (base + 0x37 + Z.of_nat (digits 8 n)) :: be_bytes (digits 8 n) n.
Definition header_read_rest (list : bool) (base : Z) (b : Z) (t : bytes) : outcome RlpError (bool * Z) * bytes :=
  if decide (b < base + 56) then (Ok (list, b - base), t)
  else let k := Z.to_nat (b - base - 0x37) in (Ok (list, be_val (take k t)), drop k t).
Definition read_header : ST bytes RlpError (bool * Z) := λ r,
  match r with
  | [] => (Err (OtherRlpError "input too short"), r)
  | b :: t =>
      if decide (b2z b < 0x80) then (Ok (false, 1), r)
      else if decide (b2z b < 0xC0) then header_read_rest false 0x80 (b2z b) t
      else header_read_rest true 0xC0 (b2z b) t
  end.
Definition encode_string (s : bytes) : bytes :=
  match s with
  | [b] => if decide (b2z b < 0x80) then [b] else header false 1 ++ s
  | _ => header false (len s) ++ s
  end.
Definition read_string : ST bytes RlpError bytes :=
  '(list, n) ← read_header;
  if (list : bool) then fail UnexpectedList else with_payload n (λ r, (Ok r, [])).
Definition read_hash : ST bytes RlpError bytes :=
  s ← read_string; if decide (len s = 32) then mret s else fail UnexpectedLength.
Fixpoint read_items {A} (dec : ST bytes RlpError A) (fuel : nat) : ST bytes RlpError (list A) := λ r,
  match fuel, r with
  | _, [] => (Ok [], r)
  | O, _ => (Panic, r)
  | S fuel, _ => (x ← dec; xs ← read_items dec fuel; mret (x :: xs)) r
  end.
Definition read_list {A} (dec : ST bytes RlpError A) : ST bytes RlpError (list A) :=
  '(list, n) ← read_header;
  if (list : bool) then with_payload n (λ r, read_items dec (length r) r) else fail UnexpectedString.
End Coding.
Import Coding.

#[global] Instance rlp : Rlp := {|
  header_encode := header; header_decode := read_header; length_of_length := lol;
  string_encode := encode_string; string_decode := read_string;
  string_length s := len (encode_string s); hash_decode := read_hash; list_decode A := read_list;
|}.

Lemma digits_spec fuel n :
  0 <= n < 256 ^ Z.of_nat fuel → (0 < fuel)%nat →
  (1 <= digits fuel n <= fuel)%nat ∧ n < 256 ^ Z.of_nat (digits fuel n).
Proof.
  revert n. induction fuel as [|fuel IH]; intros n Hn Hf; [lia|]. cbn [digits].
  destruct (decide (n < 256)) as [Hlt|Hge]; [split; [lia|by rewrite Z.pow_1_r]|].
  rewrite Nat2Z.inj_succ, Z.pow_succ_r in Hn by lia.
  destruct fuel as [|fuel]; [change (256 ^ Z.of_nat 0) with 1 in Hn; lia|].
  destruct (IH (n / 256)) as [Hd Hb]; [split; [by apply Z.div_pos; lia|apply Z.div_lt_upper_bound; lia]|lia|].
  split; [lia|]. rewrite Nat2Z.inj_succ, Z.pow_succ_r by lia. pose proof (Z.div_mod n 256 ltac:(lia)).
  pose proof (Z.mod_pos_bound n 256 ltac:(lia)). lia.
Qed.
Lemma digits_8 n : rlp_size n → (1 <= digits 8 n <= 8)%nat ∧ n < 256 ^ Z.of_nat (digits 8 n).
Proof. intros Hn. apply digits_spec; [|lia]. change (256 ^ Z.of_nat 8) with (2 ^ 64). exact Hn. Qed.

Lemma header_rest list base n rest :
  rlp_size n → base = (if list : bool then 0xC0 else 0x80) →
  ∃ b t, header list n = b :: t ∧ base <= b2z b < base + 64 ∧ header_read_rest list base (b2z b) (t ++ rest) = (Ok (list, n), rest).
Proof.
  intros Hn Hb. pose proof (digits_8 n Hn) as [Hd Hlt]. pose proof Hn as [Hn0 _]. unfold header. rewrite <- Hb.
  destruct (decide (n < 56)) as [Hs|Hl]; eexists _, _; (split; [done|]); rewrite b2z_z2b, Z.mod_small by (destruct list; lia);
    (split; [lia|]); unfold header_read_rest.
  - rewrite decide_True by lia. cbn. do 3 f_equal. lia.
  - rewrite decide_False by lia.
    replace (Z.to_nat _) with (length (be_bytes (digits 8 n) n)) by (rewrite length_be_bytes; lia).
    rewrite take_app_length, drop_app_length, be_val_bytes, Z.mod_small by lia. done.
Qed.

Lemma read_header_app list n rest :
  rlp_size n → read_header (header list n ++ rest) = (Ok (list, n), rest).
Proof.
  intros Hn. destruct (header_rest list (if list then 0xC0 else 0x80) n rest Hn eq_refl) as (b & t & -> & Hb & Hr).
  cbn [app read_header]. destruct list.
  - rewrite !decide_False by lia. done.
  - rewrite decide_False, decide_True by lia. done.
Qed.
Lemma read_string_header s rest :
  rlp_size (len s) → read_header (encode_string s ++ rest) = (Ok (false, len s), s ++ rest).
Proof.
  intros Hn. unfold encode_string. destruct s as [|b [|b' s]]; try (rewrite <- app_assoc; by apply read_header_app).
  destruct (decide _) as [Hb|Hb].
  - cbn. by rewrite decide_True by lia.
  - rewrite <- app_assoc. by apply read_header_app.
Qed.
Lemma read_string_app s rest : rlp_size (len s) → read_string (encode_string s ++ rest) = (Ok s, rest).
Proof.
  intros Hn. unfold read_string. rewrite (run_op _ _ _ _ _ (read_string_header s rest Hn)).
  by eapply with_payload_app.
Qed.
Lemma read_items_app {A} (dec : ST bytes RlpError A) items xs fuel :
  Forall2 (λ item x, item ≠ [] ∧ ∀ rest, dec (item ++ rest) = (Ok x, rest)) items xs →
  (length (mjoin items) <= fuel)%nat → read_items dec fuel (mjoin items) = (Ok xs, []).
Proof.
  intros Hi. revert fuel. induction Hi as [|item x items xs [Hne Hd] _ IH]; intros fuel Hf; [by destruct fuel|].
  cbn [mjoin list_join] in *. rewrite length_app in Hf. destruct item as [|b item]; [done|]. cbn in Hf.
  destruct fuel as [|fuel]; [lia|]. cbn [app read_items].
  change (b :: item ++ mjoin items) with ((b :: item) ++ mjoin items). rewrite (run_op _ _ _ _ _ (Hd (mjoin items))).
  rewrite (run_op _ _ _ _ _ (IH fuel ltac:(unfold mjoin in *; lia))). done.
Qed.

#[global] Instance rlp_laws : RlpLaws.
Proof.
  split; cbn [header_encode header_decode length_of_length string_encode string_decode string_length hash_decode list_decode rlp].
  - intros list n Hn. unfold header, lol, len. destruct (decide (n < 56)); [done|]. cbn. rewrite length_be_bytes. lia.
  - intros n Hn. unfold lol. pose proof (digits_8 n Hn). destruct (decide _); lia.
  - intros n Hn. unfold lol. by rewrite decide_True by lia.
  - intros n rest Hn _. by apply read_header_app.
  - apply read_string_header.
  - apply read_string_app.
  - intros s rest Hs. unfold read_hash. rewrite (run_op _ _ _ _ _ (read_string_app s rest ltac:(unfold rlp_size; lia))).
    by rewrite decide_True.
  - done.
  - intros s Hn Hne. assert (encode_string s = header false (len s) ++ s) as ->.
    { unfold encode_string. destruct s as [|? [|]]; [done|by cbn in Hne|done]. }
    rewrite len_app. unfold header, lol, len. destruct (decide (Z.of_nat _ < 56)); [done|]. cbn.
    rewrite length_be_bytes. lia.
  - intros b Hb. cbn. by rewrite decide_True.
  - intros b Hb. cbn. by rewrite decide_False by lia.
  - done.
  - intros A dec items xs rest Hi Hn. unfold read_list.
    rewrite (run_op _ _ _ _ _ (read_header_app true _ (mjoin items ++ rest) Hn)). cbn iota beta.
    eapply with_payload_app; [done|]. by apply read_items_app.
Qed.
