(* ===== verification/Mpt.v ===== *)
(** The Merkle Patricia trie (src/crates/proof/mpt/src/node.rs, traits.rs, errors.rs).

    A trie may be blinded: subtries are known by their commitment only and fetched when an
    operation reaches them.  MptReveal.v fetches everything, MptUpdate.v and MptMap.v show that
    the operations are those of a finite map on what the trie reveals, however much of it is
    blinded, and that a trie is determined by its contents.

    The recursion of the code ends because a path gets shorter or a node is fetched: it is
    modelled with fuel, and running out of it is the stack overflow of an endless recursion.
    A fuel that suffices to reveal the trie suffices for every operation. *)
From S2P Require Import Prelude Blocks Reader Rlp.
#[local] Open Scope Z_scope.

(** alloy_trie's [Nibbles]: a sequence of nibbles, each in a byte. *)
Abbreviation Nibbles := (list Z) (only parsing).

Inductive TrieNode :=
| Empty
| Blinded (commitment : B256)
| Leaf (prefix : Nibbles) (value : bytes)
| Extension (prefix : Nibbles) (node : TrieNode)
| Branch (stack : list TrieNode).

Inductive TrieNodeError :=
| InvalidNodeType
| RLPError (e : RlpError)
| KeyNotFound
| Provider (msg : string).

Definition BRANCH_LIST_LENGTH : nat := 17.

(** [TrieProvider::trie_node_by_hash] and [TrieHinter::hint_account_proof], an error given by
    its text; alloy's hash of the empty trie. *)
Class TrieProvider := trie_node_by_hash : B256 → outcome string TrieNode.
Class TrieHinter := hint_account_proof : B256 → Z → outcome string unit.
Class TrieHash := EMPTY_ROOT_HASH : B256.

(** * Nibbles *)

(** [path[i]], [path.slice(n..)] and [path.slice(..n)] panic out of range. *)
Definition nib_at (path : Nibbles) (i : nat) : outcome TrieNodeError Z := expect (path !! i).
Definition slice_from (n : nat) (path : Nibbles) : outcome TrieNodeError Nibbles :=
  if decide (n <= length path)%nat then Ok (drop n path) else Panic.
Definition slice_to (n : nat) (path : Nibbles) : outcome TrieNodeError Nibbles :=
  if decide (n <= length path)%nat then Ok (take n path) else Panic.

(** The operations of alloy_trie's [Nibbles] the code calls; [pack] puts two nibbles to a byte. *)
Class NibblesOps := { common_prefix_length : Nibbles → Nibbles → nat; pack : Nibbles → bytes }.
(** Two paths split into their common prefix and rests that differ at once. *)
Class NibblesLaws `{!NibblesOps} : Prop :=
  common_prefix_spec p q : ∃ c r s, p = c ++ r ∧ q = c ++ s ∧ common_prefix_length p q = length c
    ∧ ∀ x, head r = Some x → head s ≠ Some x.

(** [stack[i] = node]; the index panics out of range. *)
Definition stack_set (stack : list TrieNode) (i : Z) (node : TrieNode) : outcome TrieNodeError (list TrieNode) :=
  if decide (0 <= i < len stack) then Ok (<[Z.to_nat i := node]> stack) else Panic.

(** A call on a child of [self], put back into [self] by [mk]. *)
Definition on_child {A} (mk : TrieNode → TrieNode) (m : ST TrieNode TrieNodeError A) (node : TrieNode)
    : ST TrieNode TrieNodeError A := λ _, let '(r, node) := m node in (r, mk node).

Definition is_blinded (node : TrieNode) : bool := match node with Blinded _ => true | _ => false end.
Definition is_empty (node : TrieNode) : bool := match node with Empty => true | _ => false end.

(** The non-empty children of a branch, with their indices. *)
Fixpoint non_empty_from (i : Z) (stack : list TrieNode) : list (Z * TrieNode) :=
  match stack with
  | [] => []
  | node :: stack =>
      if is_empty node then non_empty_from (i + 1) stack else (i, node) :: non_empty_from (i + 1) stack
  end.
Definition non_empty_children (stack : list TrieNode) : list (Z * TrieNode) := non_empty_from 0 stack.

Section trie.
Context `{!TrieProvider} `{!TrieHinter} `{!TrieHash} `{!NibblesOps}.

(** * Operations *)

Definition unblind : ST TrieNode TrieNodeError unit := λ self,
  match self with
  | Blinded commitment =>
      if decide (commitment = EMPTY_ROOT_HASH) then (Ok tt, Empty)
      else match trie_node_by_hash commitment with
           | Ok node => (Ok tt, node)
           | Err e => (Err (Provider e), self)
           | Panic => (Panic, self)
           end
  | _ => (Ok tt, self)
  end.

(** [open]; the reference it returns is to the value of a leaf. *)
Fixpoint open (fuel : nat) (path : Nibbles) : ST TrieNode TrieNodeError (option bytes) := λ self,
  match fuel with
  | O => (Panic, self)
  | S fuel =>
      match self with
      | Branch stack =>
          match path with
          | [] => (Panic, self)
          | branch_nibble :: rest =>
              match stack !! Z.to_nat branch_nibble with
              | Some node =>
                  on_child (λ node, Branch (<[Z.to_nat branch_nibble := node]> stack)) (open fuel rest) node self
              | None => (Ok None, self)
              end
          end
      | Leaf prefix value => (Ok (if decide (path = prefix) then Some value else None), self)
      | Extension prefix node =>
          match slice_to (length prefix) path with
          | Ok head =>
              if decide (head = prefix) then
                on_child (Extension prefix) (_ ← unblind; open fuel (drop (length prefix) path)) node self
              else (Ok None, self)
          | Err e => (Err e, self)
          | Panic => (Panic, self)
          end
      | Blinded _ => (_ ← unblind; open fuel path) self
      | Empty => (Ok None, self)
      end
  end.

(** The branch that separates the node [old] from the new leaf where the paths [prefix] and
    [path] differ, below an extension when they share [shared] nibbles. *)
Definition split_node (prefix path : Nibbles) (shared : nat) (old : outcome TrieNodeError TrieNode)
    (value : bytes) : outcome TrieNodeError TrieNode :=
  let stack := replicate BRANCH_LIST_LENGTH Empty in
  extension_nibble ← nib_at prefix shared;
  old ← old;
  stack ← stack_set stack extension_nibble old;
  branch_nibble_new ← nib_at path shared;
  rest ← slice_from (shared + 1) path;
  stack ← stack_set stack branch_nibble_new (Leaf rest value);
  if decide (shared = 0%nat) then Ok (Branch stack)
  else prefix ← slice_to shared path; Ok (Extension prefix (Branch stack)).

(** [self] is replaced when the computation of the new node does not panic. *)
Definition replace_with (m : outcome TrieNodeError TrieNode) : ST TrieNode TrieNodeError unit := λ self,
  match m with Ok node => (Ok tt, node) | Err e => (Err e, self) | Panic => (Panic, self) end.

Fixpoint insert (fuel : nat) (path : Nibbles) (value : bytes) : ST TrieNode TrieNodeError unit := λ self,
  match fuel with
  | O => (Panic, self)
  | S fuel =>
      match self with
      | Empty => (Ok tt, Leaf path value)
      | Leaf prefix leaf_value =>
          let shared := common_prefix_length path prefix in
          if decide (path = prefix) then (Ok tt, Leaf prefix value)
          else
            replace_with (split_node prefix path shared
                       (rest ← slice_from (shared + 1) prefix; Ok (Leaf rest leaf_value)) value) self
      | Extension prefix node =>
          let shared := common_prefix_length path prefix in
          if decide (shared = length prefix) then
            on_child (Extension prefix) (insert fuel (drop shared path) value) node self
          else
            replace_with (split_node prefix path shared
                       (new_prefix ← slice_from (shared + 1) prefix;
                        Ok (if decide (new_prefix = []) then node else Extension new_prefix node)) value) self
      | Branch stack =>
          match path with
          | [] => (Panic, self)
          | branch_nibble :: rest =>
              match stack !! Z.to_nat branch_nibble with
              | Some node =>
                  on_child (λ node, Branch (<[Z.to_nat branch_nibble := node]> stack))
                    (insert fuel rest value) node self
              | None => (Panic, self)
              end
          end
      | Blinded _ => (_ ← unblind; insert fuel path value) self
      end
  end.

(** The key a hint asks for: the walked path, the index of the child, and zeroes up to 64
    nibbles ([64 - full_path.len()] panics, or wraps to an endless loop, beyond that). *)
Definition hint_key (walked_prefix : Nibbles) (index : Z) : outcome TrieNodeError B256 :=
  let full_path := walked_prefix ++ [index] in
  if decide (length full_path <= 64)%nat then
    Ok (pack (full_path ++ replicate (64 - length full_path) 0))
  else Panic.

Fixpoint collapse_if_possible (fuel : nat) (walked_prefix : Nibbles) (last_slot : Z)
    : ST TrieNode TrieNodeError unit := λ self,
  match fuel with
  | O => (Panic, self)
  | S fuel =>
      match self with
      | Extension prefix (Extension child_prefix child_node) =>
          (Ok tt, Extension (prefix ++ child_prefix) child_node)
      | Extension prefix (Leaf child_prefix child_value) => (Ok tt, Leaf (prefix ++ child_prefix) child_value)
      | Extension prefix Empty => (Ok tt, Empty)
      | Branch stack =>
          match non_empty_children stack with
          | [(index, Leaf prefix value)] => (Ok tt, Leaf (index :: prefix) value)
          | [(index, Extension prefix node)] => (Ok tt, Extension (index :: prefix) node)
          | [(index, Branch stack')] => (Ok tt, Extension [index] (Branch stack'))
          | [(index, Blinded commitment)] =>
              (hash ← lift (hint_key walked_prefix index);
               _ ← lift (map_err Provider (hint_account_proof hash last_slot));
               _ ← on_child (λ node, Branch (<[Z.to_nat index := node]> stack)) unblind
                     (Blinded commitment);
               collapse_if_possible fuel walked_prefix last_slot) self
          | _ => (Ok tt, self)
          end
      | _ => (Ok tt, self)
      end
  end.

Fixpoint delete (fuel : nat) (path walked_prefix : Nibbles) (last_slot : Z)
    : ST TrieNode TrieNodeError unit := λ self,
  match fuel with
  | O => (Panic, self)
  | S fuel =>
      match self with
      | Empty => (Err KeyNotFound, self)
      | Leaf prefix _ => if decide (path = prefix) then (Ok tt, Empty) else (Err KeyNotFound, self)
      | Extension prefix node =>
          let shared := common_prefix_length path prefix in
          if decide (shared < length prefix)%nat then (Err KeyNotFound, self)
          else if decide (shared = length path) then (Ok tt, Empty)
          else
            (_ ← on_child (Extension prefix)
                   (delete fuel (drop (length prefix) path) (walked_prefix ++ prefix) last_slot) node;
             collapse_if_possible fuel walked_prefix last_slot) self
      | Branch stack =>
          match path with
          | [] => (Panic, self)
          | branch_nibble :: rest =>
              match stack !! Z.to_nat branch_nibble with
              | Some node =>
                  (_ ← on_child (λ node, Branch (<[Z.to_nat branch_nibble := node]> stack))
                         (delete fuel rest (walked_prefix ++ [branch_nibble]) last_slot) node;
                   collapse_if_possible fuel walked_prefix last_slot) self
              | None => (Panic, self)
              end
          end
      | Blinded _ => (_ ← unblind; delete fuel path walked_prefix last_slot) self
      end
  end.
End trie.
