(* ===== verification/MptReveal.v ===== *)
(** What a trie reveals (src/crates/proof/mpt/src/node.rs): [reveal] fetches every blinded node,
    [get] looks a path up in what is revealed, [wf] is the shape of a trie for keys of a fixed
    length; [open] is [get] on every trie that reveals to a well-formed one. *)
From S2P Require Import Prelude Blocks Mpt.
#[local] Open Scope Z_scope.

(** * Revealed tries and their contents *)

(** Looking a path up in a trie without blinded nodes. *)
Fixpoint get (node : TrieNode) (path : Nibbles) : option bytes :=
  match node with
  | Empty | Blinded _ => None
  | Leaf prefix value => if decide (path = prefix) then Some value else None
  | Extension prefix node =>
      if decide (take (length prefix) path = prefix) then get node (drop (length prefix) path) else None
  | Branch stack =>
      match path with
      | [] => None
      | i :: rest =>
          (fix child (stack : list TrieNode) (k : nat) :=
             match stack, k with
             | [], _ => None
             | node :: _, O => get node rest
             | _ :: stack, S k => child stack k
             end) stack (Z.to_nat i)
      end
  end.

Lemma get_branch stack i rest : get (Branch stack) (i :: rest) = stack !! Z.to_nat i ≫= λ node, get node rest.
Proof.
  cbn [get]. generalize (Z.to_nat i) as k.
  induction stack as [|node stack IH]; intros [|k]; [done..|]. apply IH.
Qed.

Lemma get_extension prefix node path :
  get (Extension prefix node) path =
    if decide (take (length prefix) path = prefix) then get node (drop (length prefix) path) else None.
Proof. done. Qed.

Definition nibble (x : Z) : Prop := 0 <= x < 16.
Definition is_branch (node : TrieNode) : Prop := ∃ stack, node = Branch stack.

(** Well-formed revealed tries for keys of [n] nibbles: nothing is blinded, an extension
    leads to a branch, and a branch has at least two children and no value. *)
Inductive wf : nat → TrieNode → Prop :=
| wf_empty n : wf n Empty
| wf_leaf prefix value : Forall nibble prefix → wf (length prefix) (Leaf prefix value)
| wf_extension n prefix node :
    prefix ≠ [] → Forall nibble prefix → is_branch node → wf n node →
    wf (length prefix + n) (Extension prefix node)
| wf_branch n stack :
    length stack = BRANCH_LIST_LENGTH → stack !! 16%nat = Some Empty → Forall (wf n) stack →
    (2 <= length (non_empty_children stack))%nat → wf (S n) (Branch stack).

(** A path of a trie for keys of [n] nibbles. *)
Definition key (n : nat) (path : Nibbles) : Prop := length path = n ∧ Forall nibble path.

Lemma mapM_Ok {E A B} (f : A → outcome E B) l k :
  mapM f l = Ok k ↔ Forall2 (λ x y, f x = Ok y) l k.
Proof.
  revert k. induction l as [|x l IH]; intros k; cbn.
  - split; [by intros [= <-]|]. by intros ->%Forall2_nil_inv_l.
  - rewrite obind_Ok. split.
    + intros (y & Hy & Hr). apply obind_Ok in Hr as (k' & Hk & [= <-]). constructor; [done|by apply IH].
    + intros (y & k' & Hy & Hk & ->)%Forall2_cons_inv_l. exists y. split; [done|].
      apply IH in Hk. by rewrite Hk.
Qed.

Section reveal.
Context `{!TrieProvider} `{!TrieHash}.

(** Fetching every blinded node.  An empty child is encoded as the empty string, so no blinded
    child may turn out to be empty. *)
Fixpoint reveal (fuel : nat) (node : TrieNode) : outcome TrieNodeError TrieNode :=
  match fuel with
  | O => Panic
  | S fuel =>
      match node with
      | Empty | Leaf _ _ => Ok node
      | Extension prefix node => node ← reveal fuel node; Ok (Extension prefix node)
      | Branch stack =>
          stack ← mapM (λ node,
            t ← reveal fuel node;
            if is_blinded node && is_empty t then Err InvalidNodeType else Ok t) stack;
          Ok (Branch stack)
      | Blinded _ =>
          match unblind node with
          | (Ok _, node) => reveal fuel node
          | (Err e, _) => Err e
          | (Panic, _) => Panic
          end
      end
  end.

Definition child_reveals (fuel : nat) (node t : TrieNode) : Prop :=
  reveal fuel node = Ok t ∧ (is_blinded node = true → is_empty t = false).

Lemma child_reveals_Ok fuel node t :
  (t ← reveal fuel node; if is_blinded node && is_empty t then Err InvalidNodeType else Ok t) = Ok t
  ↔ child_reveals fuel node t.
Proof.
  unfold child_reveals. rewrite obind_Ok. split.
  - intros (t' & Hr & Hc). destruct (is_blinded node), (is_empty t') eqn:He; cbn in Hc; naive_solver.
  - intros [Hr Hb]. exists t. split; [done|]. destruct (is_blinded node); [by rewrite Hb|done].
Qed.

Lemma reveal_branch fuel stack t :
  reveal (S fuel) (Branch stack) = Ok t ↔
  ∃ stack', t = Branch stack' ∧ Forall2 (child_reveals fuel) stack stack'.
Proof.
  assert (∀ l k, Forall2 (λ node t, (t ← reveal fuel node;
            if is_blinded node && is_empty t then Err InvalidNodeType else Ok t) = Ok t) l k
          ↔ Forall2 (child_reveals fuel) l k) as Hf.
  { intros l k. split; intros Hf; eapply Forall2_impl; try exact Hf; intros x y; apply child_reveals_Ok. }
  cbn [reveal]. rewrite obind_Ok. setoid_rewrite mapM_Ok. setoid_rewrite Hf. split.
  - intros (st & Hst & [= <-]). by eauto.
  - intros (st & -> & Hst). by eauto.
Qed.

Lemma reveal_mono fuel fuel' node t :
  reveal fuel node = Ok t → (fuel <= fuel')%nat → reveal fuel' node = Ok t.
Proof.
  revert fuel' node t. induction fuel as [|fuel IH]; [done|]. intros [|fuel'] node t Hr Hle; [lia|].
  destruct node as [|c|p v|p node|stack]; cbn [reveal] in *; [done| |done|..].
  - destruct (unblind (Blinded c)) as [[u|e|] n]; [|done|done]. apply (IH _ _ _ Hr). lia.
  - apply obind_Ok in Hr as (n & Hn & Hr). rewrite (IH fuel' _ _ Hn) by lia. done.
  - change (reveal (S fuel) (Branch stack) = Ok t) in Hr. change (reveal (S fuel') (Branch stack) = Ok t).
    apply reveal_branch in Hr as (stack' & -> & Hs). apply reveal_branch. eexists. split; [done|].
    eapply Forall2_impl; [exact Hs|]. intros x y [Hx Hb]. split; [|done]. apply (IH _ _ _ Hx). lia.
Qed.

Lemma reveal_extension fuel prefix node t :
  reveal (S fuel) (Extension prefix node) = Ok t ↔
  ∃ node', t = Extension prefix node' ∧ reveal fuel node = Ok node'.
Proof. cbn [reveal]. rewrite obind_Ok. split; [intros (n & Hn & [= <-])|intros (n & -> & Hn)]; by eauto. Qed.

Lemma reveal_blinded fuel c t :
  reveal (S fuel) (Blinded c) = Ok t →
  ∃ node, unblind (Blinded c) = (Ok tt, node) ∧ reveal fuel node = Ok t.
Proof. cbn [reveal]. destruct (unblind (Blinded c)) as [[[]|e|] n]; [|done|done]. by eauto. Qed.

(** Unblinding does not change what a node reveals. *)
Lemma unblind_reveal fuel node t :
  reveal fuel node = Ok t → ∃ node', unblind node = (Ok tt, node') ∧ reveal fuel node' = Ok t.
Proof.
  intros Hr. destruct fuel as [|fuel]; [done|].
  destruct node as [|c|p v|p node|stack]; try (by eexists).
  apply reveal_blinded in Hr as (node' & Hu & Hr). exists node'. split; [done|].
  apply (reveal_mono fuel); [done|lia].
Qed.
End reveal.

(** * Opening a path *)

Lemma wf_branch_inv n stack :
  wf n (Branch stack) →
  ∃ n', n = S n' ∧ length stack = BRANCH_LIST_LENGTH ∧ stack !! 16%nat = Some Empty ∧ Forall (wf n') stack
    ∧ (2 <= length (non_empty_children stack))%nat.
Proof. inversion 1; subst. by eexists. Qed.
Lemma wf_extension_inv n prefix node :
  wf n (Extension prefix node) →
  ∃ n', n = (length prefix + n')%nat ∧ prefix ≠ [] ∧ Forall nibble prefix ∧ is_branch node ∧ wf n' node.
Proof. inversion 1; subst. by eexists. Qed.
Lemma wf_leaf_inv n prefix value : wf n (Leaf prefix value) → n = length prefix ∧ Forall nibble prefix.
Proof. by inversion 1. Qed.

Lemma key_cons n i rest : key (S n) (i :: rest) ↔ nibble i ∧ key n rest.
Proof. unfold key. cbn. rewrite Forall_cons. naive_solver lia. Qed.
Lemma key_drop n m path : key (m + n) path → key n (drop m path).
Proof. intros [Hl Hf]. split; [rewrite length_drop; lia|by apply Forall_drop]. Qed.

Lemma branch_lookup n stack i :
  length stack = BRANCH_LIST_LENGTH → Forall (wf n) stack → nibble i →
  ∃ node, stack !! Z.to_nat i = Some node ∧ wf n node.
Proof.
  intros Hl Hf Hi. unfold BRANCH_LIST_LENGTH, nibble in *.
  destruct (lookup_lt_is_Some_2 stack (Z.to_nat i)) as [node Hnode]; [lia|].
  exists node. split; [done|]. by eapply Forall_lookup_1.
Qed.

Section open.
Context `{!TrieProvider} `{!TrieHash}.

Lemma child_reveals_weaken fuel fuel' node t :
  child_reveals fuel node t → (fuel <= fuel')%nat → child_reveals fuel' node t.
Proof. intros [Hr Hb] Hle. split; [by apply (reveal_mono fuel)|done]. Qed.
Lemma child_reveals_mono fuel fuel' stack stack' :
  Forall2 (child_reveals fuel) stack stack' → (fuel <= fuel')%nat → Forall2 (child_reveals fuel') stack stack'.
Proof.
  intros Hs Hle. eapply Forall2_impl; [exact Hs|]. intros x y Hx. by apply (child_reveals_weaken fuel).
Qed.

Lemma reveal_insert fuel stack stack' i node t :
  Forall2 (child_reveals fuel) stack stack' → child_reveals fuel node t →
  reveal (S fuel) (Branch (<[i := node]> stack)) = Ok (Branch (<[i := t]> stack')).
Proof. intros Hs Hn. apply reveal_branch. eexists. split; [done|]. by apply Forall2_insert. Qed.

Lemma child_reveals_non_empty fuel node t :
  reveal fuel node = Ok t → is_empty t = false → child_reveals fuel node t.
Proof. by split. Qed.
Lemma child_reveals_cases fuel node t :
  child_reveals fuel node t → is_empty t = false ∨ node = Empty ∧ t = Empty.
Proof.
  intros [Hr Hb]. destruct t; try by left. right. split; [|done].
  destruct fuel as [|fuel]; [done|]. destruct node; [done|by specialize (Hb eq_refl)|..]; [done| |];
    cbn [reveal] in Hr; by apply obind_Ok in Hr as (? & _ & ?).
Qed.

Lemma open_reveal fuel : ∀ node t n path,
  reveal fuel node = Ok t → wf n t → key n path →
  ∃ node', open fuel path node = (Ok (get t path), node') ∧ reveal fuel node' = Ok t.
Proof.
  induction fuel as [|fuel IH]; intros node t n path Hr Hw Hk; [done|].
  destruct node as [|c|prefix value|prefix node|stack].
  - injection Hr as <-. by eexists.
  - apply reveal_blinded in Hr as (node & Hu & Hr).
    destruct (IH _ _ _ _ Hr Hw Hk) as (node' & Ho & Hr'). exists node'. cbn [open].
    rewrite (run_op _ _ _ _ _ Hu). split; [done|]. apply (reveal_mono fuel); [done|lia].
  - injection Hr as <-. by eexists.
  - apply reveal_extension in Hr as (node' & -> & Hr).
    apply wf_extension_inv in Hw as (n' & -> & _ & _ & _ & Hw). cbn [open get]. unfold slice_to.
    rewrite decide_True by (destruct Hk; lia). destruct (decide _); [|eexists; split; [done|]].
    + destruct (unblind_reveal _ _ _ Hr) as (node1 & Hu & Hr1).
      destruct (IH _ _ _ _ Hr1 Hw (key_drop _ _ _ Hk)) as (node2 & Ho & Hr2).
      exists (Extension prefix node2). unfold on_child. rewrite (run_op _ _ _ _ _ Hu), Ho.
      split; [done|]. apply reveal_extension. by eauto.
    + apply reveal_extension. by eauto.
  - pose proof Hr as (stack' & -> & Hs)%reveal_branch.
    apply wf_branch_inv in Hw as (n' & -> & Hl & _ & Hf & _). destruct path as [|i rest]; [by destruct Hk|].
    apply key_cons in Hk as [Hi Hk]. destruct (branch_lookup _ _ _ Hl Hf Hi) as (t & Ht & Hw).
    destruct (Forall2_lookup_r _ _ _ _ _ Hs Ht) as (node & Hnode & Hrn).
    destruct (IH _ _ _ _ (proj1 Hrn) Hw Hk) as (node' & Ho & Hr'). cbn [open].
    rewrite get_branch, Hnode, Ht. unfold on_child. rewrite Ho. eexists. split; [done|].
    rewrite (reveal_insert _ _ _ _ _ t Hs); [by rewrite list_insert_id|].
    apply child_reveals_cases in Hrn as [He|[-> ->]]; [by apply child_reveals_non_empty|].
    destruct fuel; [done|]. by injection Ho as <-.
Qed.
End open.
