(* ===== verification/MptUpdate.v ===== *)
(** Insertion and deletion on what a trie reveals (src/crates/proof/mpt/src/node.rs): the nodes
    [insert] splits and [delete] collapses, followed by induction on the fuel of [reveal]. *)
From S2P Require Import Prelude Blocks Mpt MptReveal.
#[local] Open Scope Z_scope.

(** * Splitting a node *)

Lemma non_empty_from_elem i stack j node :
  (j, node) ∈ non_empty_from i stack ↔
  ∃ k, j = i + Z.of_nat k ∧ stack !! k = Some node ∧ is_empty node = false.
Proof.
  revert i. induction stack as [|x stack IH]; intros i; cbn [non_empty_from].
  { rewrite elem_of_nil. split; [done|]. by intros (k & _ & Hk & _). }
  assert ((∃ k, j = i + Z.of_nat k ∧ (x :: stack) !! k = Some node ∧ is_empty node = false) ↔
    (j = i ∧ node = x ∧ is_empty x = false) ∨ (j, node) ∈ non_empty_from (i + 1) stack) as ->.
  { rewrite IH. split.
    - intros ([|k] & -> & Hk & He); cbn in Hk; [left|right].
      + injection Hk as ->. split_and!; [lia|done|done].
      + exists k. split_and!; [lia|done|done].
    - intros [(-> & -> & He)|(k & -> & Hk & He)]; [exists 0%nat|exists (S k)]; (split_and!; [lia|done|done]). }
  destruct (is_empty x) eqn:Hx; [naive_solver|]. rewrite elem_of_cons. naive_solver.
Qed.
Lemma non_empty_elem stack j node :
  (j, node) ∈ non_empty_children stack ↔
  0 <= j ∧ stack !! Z.to_nat j = Some node ∧ is_empty node = false.
Proof.
  unfold non_empty_children. rewrite non_empty_from_elem. split.
  - intros (k & -> & Hk & He). rewrite Z.add_0_l, Nat2Z.id. split_and!; [lia|done|done].
  - intros (Hj & Hk & He). exists (Z.to_nat j). split_and!; [lia|done|done].
Qed.

Lemma two_elements {A} (x y : A) l : x ∈ l → y ∈ l → x ≠ y → (2 <= length l)%nat.
Proof.
  intros Hx Hy Hne. destruct l as [|a [|b l]]; [by apply elem_of_nil in Hx| |cbn; lia].
  apply list_elem_of_singleton in Hx as ->. by apply list_elem_of_singleton in Hy as ->.
Qed.

Lemma length_non_empty_from i j stack : length (non_empty_from i stack) = length (non_empty_from j stack).
Proof.
  revert i j. induction stack as [|x stack IH]; intros i j; [done|]. cbn [non_empty_from].
  destruct (is_empty x); cbn; by rewrite (IH (i + 1) (j + 1)).
Qed.
Lemma length_non_empty_insert i k x stack :
  is_empty x = false →
  (length (non_empty_from i stack) <= length (non_empty_from i (<[k := x]> stack)))%nat.
Proof.
  intros Hx. revert i k. induction stack as [|y stack IH]; intros i [|k]; cbn [insert list_insert non_empty_from].
  - done.
  - done.
  - change (<[0%nat:=x]> (y :: stack)) with (x :: stack). cbn [non_empty_from]. rewrite Hx.
    destruct (is_empty y); cbn; lia.
  - change (<[S k:=x]> (y :: stack)) with (y :: <[k:=x]> stack). cbn [non_empty_from].
    specialize (IH (i + 1) k). destruct (is_empty y); cbn; lia.
Qed.

Lemma length_non_empty_replace i k x stack :
  (length (non_empty_from i stack) <= S (length (non_empty_from i (<[k := x]> stack))))%nat.
Proof.
  revert i k. induction stack as [|y stack IH]; intros i k; [cbn; lia|]. destruct k as [|k].
  - change (<[0%nat:=x]> (y :: stack)) with (x :: stack). cbn [non_empty_from].
    destruct (is_empty y), (is_empty x); cbn; lia.
  - change (<[S k:=x]> (y :: stack)) with (y :: <[k:=x]> stack). cbn [non_empty_from].
    specialize (IH (i + 1) k). destruct (is_empty y); cbn; lia.
Qed.

(** The two-way branch, and an extension above it unless the shared path is empty. *)
Definition split_stack (a : Z) (old : TrieNode) (b : Z) (new : TrieNode) : list TrieNode :=
  <[Z.to_nat b := new]> (<[Z.to_nat a := old]> (replicate BRANCH_LIST_LENGTH Empty)).
Definition wrap (c : Nibbles) (node : TrieNode) : TrieNode :=
  if decide (c = []) then node else Extension c node.

Lemma split_stack_lookup a old b new i :
  nibble a → nibble b → a ≠ b → (i < BRANCH_LIST_LENGTH)%nat →
  split_stack a old b new !! i =
    Some (if decide (i = Z.to_nat b) then new else if decide (i = Z.to_nat a) then old else Empty).
Proof.
  intros Ha Hb Hab Hi. unfold split_stack, nibble, BRANCH_LIST_LENGTH in *.
  destruct (decide (i = Z.to_nat b)) as [->|Hnb].
  { apply list_lookup_insert_eq. rewrite length_insert, length_replicate. lia. }
  rewrite list_lookup_insert_ne by lia. destruct (decide (i = Z.to_nat a)) as [->|Hna].
  { apply list_lookup_insert_eq. rewrite length_replicate. lia. }
  rewrite list_lookup_insert_ne by lia. by apply lookup_replicate_2.
Qed.

Lemma get_split a old b new i rest :
  nibble a → nibble b → a ≠ b → nibble i →
  get (Branch (split_stack a old b new)) (i :: rest) =
    if decide (i = b) then get new rest else if decide (i = a) then get old rest else None.
Proof.
  intros Ha Hb Hab Hi. rewrite get_branch, split_stack_lookup; [|done..|unfold nibble, BRANCH_LIST_LENGTH in *; lia].
  unfold nibble in *. cbn. destruct (decide (i = b)), (decide (i = a)); repeat destruct (decide _); try lia; done.
Qed.

Lemma get_wrap c node c' rest :
  length c' = length c → get (wrap c node) (c' ++ rest) = if decide (c' = c) then get node rest else None.
Proof.
  intros Hl. unfold wrap. destruct (decide (c = [])) as [->|Hc].
  { destruct c'; [done|]. cbn in Hl. lia. }
  cbn [get]. rewrite <- Hl, take_app_length, drop_app_length. done.
Qed.

Lemma wf_split n c a old b new :
  Forall nibble c → nibble a → nibble b → a ≠ b → wf n old → wf n new →
  is_empty old = false → is_empty new = false →
  wf (length c + S n) (wrap c (Branch (split_stack a old b new))).
Proof.
  intros Hc Ha Hb Hab Ho Hn Heo Hen.
  assert (∀ i, (i < 17)%nat → _) as Hlook by exact (λ i Hi, split_stack_lookup a old b new i Ha Hb Hab Hi).
  assert (wf (S n) (Branch (split_stack a old b new))) as Hw.
  { unfold nibble in *. apply wf_branch.
    - unfold split_stack. by rewrite !length_insert, length_replicate.
    - rewrite Hlook by lia. rewrite !decide_False by lia. done.
    - unfold split_stack. apply Forall_insert; [apply Forall_insert|]; [|done..].
      apply Forall_replicate, wf_empty.
    - apply (two_elements (a, old) (b, new)); [..|by intros [= ->]]; apply non_empty_elem; split_and!; try done;
        try lia; rewrite Hlook by lia; [rewrite decide_False by lia|]; by rewrite decide_True. }
  unfold wrap. destruct (decide (c = [])) as [->|Hne]; [done|].
  apply wf_extension; [done..|by eexists|done].
Qed.

Section common_prefix.
Context `{!NibblesOps} `{!NibblesLaws}.

Lemma common_prefix_split p q :
  (common_prefix_length p q < length q)%nat → (common_prefix_length p q < length p)%nat →
  ∃ c a b r s, p = c ++ a :: r ∧ q = c ++ b :: s ∧ a ≠ b ∧ common_prefix_length p q = length c.
Proof.
  destruct (common_prefix_spec p q) as (c & r & s & -> & -> & -> & Hrs). rewrite !length_app.
  destruct r as [|a r], s as [|b s]; cbn; [lia..|]. intros _ _. exists c, a, b, r, s.
  split_and!; [done..| |done]. intros ->. by apply (Hrs b).
Qed.
Lemma common_prefix_le p q : (common_prefix_length p q <= length q)%nat ∧ (common_prefix_length p q <= length p)%nat.
Proof. destruct (common_prefix_spec p q) as (c & r & s & -> & -> & -> & _). rewrite !length_app. lia. Qed.
Lemma common_prefix_all p q : common_prefix_length p q = length q → take (length q) p = q.
Proof.
  destruct (common_prefix_spec p q) as (c & r & s & -> & -> & -> & _). rewrite length_app. intros Hl.
  assert (s = []) as -> by (apply length_zero_iff_nil; lia). rewrite app_nil_r. cbn. rewrite Nat.add_0_r.
  by rewrite take_app_length.
Qed.
Lemma common_prefix_all_2 p q : take (length q) p = q → common_prefix_length p q = length q.
Proof.
  destruct (common_prefix_spec p q) as (c & r & s & -> & -> & -> & Hrs). rewrite length_app, take_app_add. intros Hs.
  apply app_inv_head in Hs. destruct s as [|b s]; [cbn; lia|]. destruct r as [|a r]; [done|].
  cbn in Hs. injection Hs as -> _. by destruct (Hrs b).
Qed.
End common_prefix.

Lemma split_node_run c a s b r old node value :
  nibble a → nibble b → old = Ok node →
  split_node (c ++ a :: s) (c ++ b :: r) (length c) old value
  = Ok (wrap c (Branch (split_stack a node b (Leaf r value)))).
Proof.
  intros Ha Hb ->. unfold split_node, nib_at, stack_set.
  rewrite (list_lookup_middle c s a), (list_lookup_middle c r b) by done.
  unfold nibble in *. cbn [expect mbind outcome_bind]. change (len (replicate BRANCH_LIST_LENGTH Empty)) with 17.
  rewrite decide_True by lia. cbn [mbind outcome_bind]. unfold slice_from.
  rewrite decide_True by (rewrite length_app; cbn; lia). cbn [mbind outcome_bind].
  unfold len. rewrite length_insert, length_replicate. rewrite decide_True by (unfold BRANCH_LIST_LENGTH; lia).
  cbn [mbind outcome_bind]. replace (drop (length c + 1) (c ++ b :: r)) with r.
  2: { by rewrite <- drop_drop, drop_app_length. }
  unfold wrap. destruct (decide (length c = 0%nat)) as [Hz|Hz].
  - apply length_zero_iff_nil in Hz as ->. by rewrite decide_True.
  - unfold slice_to. rewrite decide_True by (rewrite length_app; lia). cbn [mbind outcome_bind].
    rewrite take_app_length, decide_False; [done|]. by intros ->.
Qed.

(** * Inserting *)

Lemma get_wrap_take p node q :
  get (wrap p node) q = if decide (take (length p) q = p) then get node (drop (length p) q) else None.
Proof. unfold wrap. destruct (decide (p = [])) as [->|Hp]; [|done]. cbn. by rewrite drop_0. Qed.

Lemma app_cons_eq {A} (c c' : list A) i y b r :
  length c' = length c → c' ++ i :: y = c ++ b :: r ↔ c' = c ∧ i = b ∧ y = r.
Proof.
  intros Hl. split; [|by intros (-> & -> & ->)]. intros Heq.
  apply app_inj_1 in Heq as [-> [= -> ->]]; done.
Qed.

(** What becomes of the old node below the branch: [t] is [old] under the path [c ++ [a]]. *)
Definition under (c : Nibbles) (a : Z) (old t : TrieNode) : Prop :=
  ∀ c' i y, length c' = length c →
    get t (c' ++ i :: y) = if decide (c' = c ∧ i = a) then get old y else None.

Lemma under_leaf c a s value : under c a (Leaf s value) (Leaf (c ++ a :: s) value).
Proof.
  intros c' i y Hl. cbn. pose proof (app_cons_eq c c' i y a s Hl). repeat destruct (decide _); naive_solver.
Qed.
Lemma under_extension c a s node : under c a (wrap s node) (Extension (c ++ a :: s) node).
Proof.
  intros c' i y Hl.
  transitivity (get (wrap (c ++ a :: s) node) (c' ++ i :: y)).
  { unfold wrap. rewrite decide_False; [done|]. intros Hn. by apply app_nil in Hn as [_ ?]. }
  rewrite !get_wrap_take, length_app. cbn [length].
  rewrite take_app, drop_app. rewrite take_ge, drop_ge by lia.
  replace (length c + S (length s) - length c')%nat with (S (length s)) by lia. cbn [take drop app].
  pose proof (app_cons_eq c c' i (take (length s) y) a s Hl).
  repeat destruct (decide _); naive_solver.
Qed.

Lemma key_split n c (a : Z) (s path : Nibbles) :
  n = length (c ++ a :: s) → key n path →
  ∃ c' i y, path = c' ++ i :: y ∧ length c' = length c ∧ nibble i.
Proof.
  rewrite length_app. cbn. intros -> [Hl Hf]. exists (take (length c) path).
  destruct (drop (length c) path) as [|i y] eqn:Hd.
  { apply (f_equal length) in Hd. rewrite length_drop in Hd. cbn in Hd. lia. }
  exists i, y. rewrite <- Hd, take_drop, length_take. split_and!; [done|lia|].
  eapply Forall_drop in Hf. rewrite Hd in Hf. by apply Forall_cons in Hf as [? _].
Qed.

Lemma get_inserted n c a b old t r value path :
  nibble a → nibble b → a ≠ b → under c a old t → key n path → n = length (c ++ b :: r) →
  get (wrap c (Branch (split_stack a old b (Leaf r value)))) path
  = if decide (path = c ++ b :: r) then Some value else get t path.
Proof.
  intros Ha Hb Hab Hu Hk Hn. destruct (key_split n c b r path Hn Hk) as (c' & i & y & -> & Hl & Hi).
  rewrite get_wrap, (Hu _ _ _ Hl) by done. pose proof (app_cons_eq c c' i y b r Hl) as Heq.
  destruct (decide (c' = c)) as [->|Hc]; [|repeat destruct (decide _); naive_solver].
  rewrite get_split by done. cbn [get]. repeat destruct (decide _); naive_solver.
Qed.

(** [t'] has the contents of [t] but for the value of [path]. *)
Definition updated (n : nat) (path : Nibbles) (o : option bytes) (t t' : TrieNode) : Prop :=
  ∀ path', key n path' → get t' path' = if decide (path' = path) then o else get t path'.

Lemma updated_branch n i rest o stack t t' :
  nibble i → stack !! Z.to_nat i = Some t → updated n rest o t t' →
  updated (S n) (i :: rest) o (Branch stack) (Branch (<[Z.to_nat i := t']> stack)).
Proof.
  intros Hi Ht Hg [|j path'] Hk; [by destruct Hk|]. apply key_cons in Hk as [Hj Hk]. rewrite !get_branch.
  unfold nibble in *. destruct (decide (j = i)) as [->|Hne].
  - rewrite list_lookup_insert_eq by (by eapply lookup_lt_Some). rewrite Ht. cbn. rewrite Hg by done.
    repeat destruct (decide _); naive_solver.
  - rewrite list_lookup_insert_ne by lia. rewrite decide_False by naive_solver. done.
Qed.
Lemma updated_extension n prefix path o t t' :
  take (length prefix) path = prefix → updated n (drop (length prefix) path) o t t' →
  updated (length prefix + n) path o (Extension prefix t) (Extension prefix t').
Proof.
  intros Hpre Hg path' Hk'. cbn [get]. destruct (decide (take _ path' = prefix)) as [Hp'|Hp'].
  - rewrite Hg by (by eapply key_drop).
    assert (path' = path ↔ drop (length prefix) path' = drop (length prefix) path) as Heq.
    { split; [by intros ->|]. intros Hd. rewrite <- (take_drop (length prefix) path'), <- (take_drop (length prefix) path).
      by rewrite Hp', Hpre, Hd. }
    destruct (decide (path' = path)); [rewrite decide_True|rewrite decide_False]; tauto.
  - rewrite decide_False; [done|]. by intros ->.
Qed.

(** The result of an insertion, on what is revealed. *)
Definition inserted (n : nat) (path : Nibbles) (value : bytes) (t t' : TrieNode) : Prop :=
  wf n t' ∧ is_empty t' = false ∧ (is_branch t → is_branch t') ∧ updated n path (Some value) t t'.

Lemma inserted_split n c a b r old t value :
  nibble a → key n (c ++ b :: r) → b ≠ a → under c a old t →
  wf (length r) old → is_empty old = false → ¬ is_branch t →
  inserted n (c ++ b :: r) value t (wrap c (Branch (split_stack a old b (Leaf r value)))).
Proof.
  intros Ha [Hlb Hfb] Hab Hu Ho Heo Hnb. apply Forall_app in Hfb as [Hc [Hb Hr]%Forall_cons].
  split_and!.
  - rewrite <- Hlb, length_app. cbn [length]. apply wf_split; try done. by apply wf_leaf.
  - unfold wrap. by destruct (decide _).
  - done.
  - intros path' Hk. by apply (get_inserted n).
Qed.

Section insert.
Context `{!TrieProvider} `{!TrieHash} `{!NibblesOps} `{!NibblesLaws}.

Lemma reveal_wrap fuel c a old b r value t :
  child_reveals (S fuel) old t →
  reveal (S (S (S fuel))) (wrap c (Branch (split_stack a old b (Leaf r value))))
  = Ok (wrap c (Branch (split_stack a t b (Leaf r value)))).
Proof.
  intros Ho. assert (reveal (S (S fuel)) (Branch (split_stack a old b (Leaf r value)))
    = Ok (Branch (split_stack a t b (Leaf r value)))) as Hb.
  { apply reveal_branch. eexists. split; [done|]. unfold split_stack.
    apply Forall2_insert; [apply Forall2_insert|]; [|done..].
    induction BRANCH_LIST_LENGTH as [|n IH]; cbn; by constructor. }
  unfold wrap. destruct (decide _); [apply (reveal_mono (S (S fuel))); [done|lia]|].
  apply reveal_extension. by eauto.
Qed.

Lemma slice_after c (a : Z) s : slice_from (length c + 1) (c ++ a :: s) = Ok s.
Proof.
  unfold slice_from. rewrite decide_True by (rewrite length_app; cbn; lia).
  by rewrite <- drop_drop, drop_app_length.
Qed.

Lemma common_prefix_shorter n path prefix :
  key n path → n = length prefix → path ≠ prefix → (common_prefix_length path prefix < length prefix)%nat.
Proof.
  intros [Hl _] -> Hne. pose proof (common_prefix_le path prefix) as [Hle _].
  apply Nat.le_neq. split; [done|]. intros Hall%common_prefix_all. apply Hne.
  by rewrite take_ge in Hall by lia.
Qed.

Lemma insert_leaf fuel prefix value0 n path value :
  wf n (Leaf prefix value0) → key n path →
  ∃ node' t', insert (S fuel) path value (Leaf prefix value0) = (Ok tt, node')
    ∧ reveal (S (S (S fuel))) node' = Ok t' ∧ inserted n path value (Leaf prefix value0) t'.
Proof.
  intros Hw Hk. pose proof (wf_leaf_inv _ _ _ Hw) as [-> Hf]. cbn [insert]. destruct (decide _) as [->|Hne].
  { eexists _, (Leaf prefix value). split_and!; [done|done|]. split_and!; [by apply wf_leaf|done|by intros [? [=]]|].
    intros path' _. cbn. by destruct (decide _). }
  pose proof (common_prefix_shorter _ _ _ Hk eq_refl Hne) as Hlt. destruct Hk as [Hlb Hfb].
  destruct (common_prefix_split path prefix Hlt) as (c & b & a & r & s & -> & -> & Hab & ->); [lia|].
  pose proof Hf as [_ [Ha Hs]%Forall_cons]%Forall_app. pose proof Hfb as [_ [Hb _]%Forall_cons]%Forall_app.
  pose proof Hlb as Hlen. rewrite !length_app in Hlen. cbn in Hlen.
  rewrite (split_node_run c a s b r _ (Leaf s value0)) by (done || by rewrite slice_after).
  eexists _, _. split_and!; [done|by apply (reveal_wrap fuel c a (Leaf s value0) b r value (Leaf s value0))|].
  apply inserted_split; try done; [by apply under_leaf| |by intros [? [=]]].
  replace (length r) with (length s) by lia. by apply wf_leaf.
Qed.

Lemma insert_extension fuel prefix node t n path value :
  reveal fuel node = Ok t → wf n (Extension prefix t) → key n path →
  common_prefix_length path prefix ≠ length prefix →
  ∃ node' t', insert (S fuel) path value (Extension prefix node) = (Ok tt, node')
    ∧ reveal (S (S (S fuel))) node' = Ok t' ∧ inserted n path value (Extension prefix t) t'.
Proof.
  intros Hr Hw Hk Hne. pose proof (common_prefix_le path prefix) as [Hle Hle'].
  pose proof Hw as (n' & Hn & Hp & Hf & Hbr & Hw')%wf_extension_inv. destruct Hk as [Hlb Hfb].
  cbn [insert]. rewrite decide_False by done.
  destruct (common_prefix_split path prefix) as (c & b & a & r & s & -> & -> & Hab & ->); [lia..|].
  pose proof Hf as [_ [Ha Hs]%Forall_cons]%Forall_app. pose proof Hfb as [Hfc [Hb _]%Forall_cons]%Forall_app.
  pose proof Hlb as Hlen. rewrite !length_app in Hn, Hlen. cbn in Hn, Hlen.
  rewrite (split_node_run c a s b r _ (wrap s node)) by (done || by rewrite slice_after).
  assert (reveal (S fuel) (wrap s node) = Ok (wrap s t)) as Hold.
  { unfold wrap. destruct (decide _); [by apply (reveal_mono fuel); [|lia]|]. apply reveal_extension. by eauto. }
  destruct Hbr as [stack ->].
  assert (child_reveals (S fuel) (wrap s node) (wrap s (Branch stack))) as Hold'.
  { apply child_reveals_non_empty; [done|]. unfold wrap. by destruct (decide _). }
  eexists _, _. split_and!; [done|by apply (reveal_wrap fuel)|]. apply inserted_split; try done.
  - apply under_extension.
  - replace (length r) with (length s + n')%nat by lia. unfold wrap. destruct (decide (s = [])) as [->|]; [done|].
    apply wf_extension; [done..|by eexists|done].
  - unfold wrap. by destruct (decide _).
  - by intros [? [=]].
Qed.

Lemma insert_branch_inserted n stack i rest value t t' :
  wf (S n) (Branch stack) → nibble i → stack !! Z.to_nat i = Some t → inserted n rest value t t' →
  inserted (S n) (i :: rest) value (Branch stack) (Branch (<[Z.to_nat i := t']> stack)).
Proof.
  intros Hw Hi Ht (Hw' & He & _ & Hg). apply wf_branch_inv in Hw as (n' & [= <-] & Hl & H16 & Hf & Hc).
  split_and!; [|done|by eexists|by eapply updated_branch].
  unfold nibble in Hi. apply wf_branch; [by rewrite length_insert| |by apply Forall_insert|].
  - rewrite list_lookup_insert_ne by lia. done.
  - pose proof (length_non_empty_insert 0 (Z.to_nat i) t' stack He). unfold non_empty_children in *. lia.
Qed.

Lemma insert_extension_inserted n prefix t t' path value :
  wf (length prefix + n) (Extension prefix t) → key (length prefix + n) path →
  take (length prefix) path = prefix → inserted n (drop (length prefix) path) value t t' →
  inserted (length prefix + n) path value (Extension prefix t) (Extension prefix t').
Proof.
  intros Hw Hk Hpre (Hw' & He & Hb & Hg). apply wf_extension_inv in Hw as (n' & Hn & Hp & Hf & Hbr & Hwt).
  assert (n' = n) as -> by lia.
  split_and!; [by apply wf_extension; auto|done|by intros [? [=]]|by apply updated_extension].
Qed.

Lemma insert_reveal fuel : ∀ node t n path value,
  reveal fuel node = Ok t → wf n t → key n path →
  ∃ node' t', insert fuel path value node = (Ok tt, node') ∧ reveal (S (S fuel)) node' = Ok t'
    ∧ inserted n path value t t'.
Proof.
  induction fuel as [|fuel IH]; intros node t n path value Hr Hw Hk; [done|].
  destruct node as [|c|prefix value0|prefix node|stack].
  - injection Hr as <-. eexists _, (Leaf path value). split_and!; [done|done|].
    destruct Hk as [<- Hf]. split_and!; [by apply wf_leaf|done|by intros [? [=]]|done].
  - apply reveal_blinded in Hr as (node & Hu & Hr).
    destruct (IH _ _ _ _ value Hr Hw Hk) as (node' & t' & Hi & Hr' & Ht'). exists node', t'. cbn [insert].
    rewrite (run_op _ _ _ _ _ Hu). split_and!; [done| |done]. apply (reveal_mono (S (S fuel))); [done|lia].
  - injection Hr as <-. by apply insert_leaf.
  - apply reveal_extension in Hr as (t0 & -> & Hr).
    destruct (decide (common_prefix_length path prefix = length prefix)) as [Hall|Hne]; [|by apply insert_extension].
    pose proof Hw as (n' & -> & _ & _ & _ & Hw')%wf_extension_inv.
    destruct (IH _ _ _ _ value Hr Hw' (key_drop _ _ _ Hk)) as (node' & t' & Hi & Hr' & Ht').
    exists (Extension prefix node'), (Extension prefix t'). cbn [insert]. rewrite Hall, decide_True by done.
    unfold on_child. rewrite Hi. split_and!; [done| |].
    + apply reveal_extension. by eauto.
    + apply insert_extension_inserted; try done. by apply common_prefix_all.
  - apply reveal_branch in Hr as (stack' & -> & Hs). pose proof Hw as (n' & -> & Hl & _ & Hf & _)%wf_branch_inv.
    destruct path as [|i rest]; [by destruct Hk|]. apply key_cons in Hk as [Hi Hk].
    destruct (branch_lookup _ _ _ Hl Hf Hi) as (t & Ht & Hwt).
    destruct (Forall2_lookup_r _ _ _ _ _ Hs Ht) as (node & Hnode & Hrn).
    destruct (IH _ _ _ _ value (proj1 Hrn) Hwt Hk) as (node' & t' & Hins & Hr' & Ht').
    eexists _, _. cbn [insert]. rewrite Hnode. unfold on_child. rewrite Hins. split_and!; [done| |].
    + apply (reveal_insert (S (S fuel))); [apply (child_reveals_mono fuel); [done|lia]|].
      apply child_reveals_non_empty; [done|]. by destruct Ht' as (_ & He & _).
    + by eapply insert_branch_inserted.
Qed.
End insert.

(** * Collapsing *)

(** The one node equal to an extension by [p] above [node]. *)
Definition merge (p : Nibbles) (node : TrieNode) : TrieNode :=
  match node with
  | Empty => Empty
  | Leaf prefix value => Leaf (p ++ prefix) value
  | Extension prefix node => Extension (p ++ prefix) node
  | Branch _ | Blinded _ => Extension p node
  end.

Lemma take_drop_eq (p q r : Nibbles) : r = p ++ q ↔ take (length p) r = p ∧ drop (length p) r = q.
Proof.
  split; [intros ->; by rewrite take_app_length, drop_app_length|].
  intros [Ht Hd]. by rewrite <- (take_drop (length p) r), Ht, Hd.
Qed.
Lemma take_app_eq (p q r : Nibbles) :
  take (length p + length q) r = p ++ q ↔ take (length p) r = p ∧ take (length q) (drop (length p) r) = q.
Proof.
  rewrite take_drop_eq, take_take, Nat.min_l by lia.
  rewrite take_drop_commute. done.
Qed.

Lemma get_merge n p t path : wf n t → get (merge p t) path = get (Extension p t) path.
Proof.
  destruct t as [|c|q v|q node|stack]; intros Hw; cbn [merge get]; try done.
  - by destruct (decide _).
  - pose proof (take_drop_eq p q path). repeat destruct (decide _); tauto.
  - rewrite length_app, <- drop_drop. pose proof (take_app_eq p q path). repeat destruct (decide _); tauto.
Qed.
Lemma wf_merge n p t : p ≠ [] → Forall nibble p → wf n t → wf (length p + n) (merge p t).
Proof.
  intros Hp Hf Hw. destruct t as [|c|q v|q node|stack]; cbn [merge].
  - apply wf_empty.
  - by inversion Hw.
  - apply wf_leaf_inv in Hw as [-> Hq]. rewrite <- length_app. apply wf_leaf. by apply Forall_app.
  - apply wf_extension_inv in Hw as (n' & -> & Hq & Hqf & Hb & Hw).
    rewrite Nat.add_assoc, <- length_app. apply wf_extension; [|by apply Forall_app|done..].
    intros Hn. by apply app_nil in Hn as [? _].
  - apply wf_extension; [done..|by eexists|done].
Qed.
Lemma is_empty_merge p t : is_empty (merge p t) = is_empty t.
Proof. by destruct t. Qed.
Lemma is_blinded_merge p t : is_blinded (merge p t) = false.
Proof. by destruct t. Qed.

Lemma child_reveals_is_empty `{!TrieProvider} `{!TrieHash} fuel node t :
  child_reveals fuel node t → is_empty node = is_empty t.
Proof.
  intros Hc. pose proof Hc as [He|[-> ->]]%child_reveals_cases; [|done]. destruct Hc as [Hr _].
  destruct fuel; [done|]. destruct node; try (by rewrite He). by injection Hr as <-.
Qed.

Lemma non_empty_reveal `{!TrieProvider} `{!TrieHash} fuel i stack stack' :
  Forall2 (child_reveals fuel) stack stack' →
  Forall2 (λ c c', c.1 = c'.1 ∧ child_reveals fuel c.2 c'.2) (non_empty_from i stack) (non_empty_from i stack').
Proof.
  intros Hs. revert i. induction Hs as [|x y stack stack' Hx Hs IH]; intros i; cbn [non_empty_from]; [done|].
  rewrite (child_reveals_is_empty _ _ _ Hx). destruct (is_empty y); [done|]. by constructor.
Qed.

(** A branch with a single child is the child below an extension by its index. *)
Lemma single_child stack i t j :
  non_empty_children stack = [(i, t)] → nibble j → length stack = BRANCH_LIST_LENGTH →
  stack !! Z.to_nat j = Some (if decide (j = i) then t else Empty) ∧ is_empty t = false ∧ 0 <= i < 17.
Proof.
  intros Hs Hj Hl. assert ((i, t) ∈ non_empty_children stack) as Hi by (rewrite Hs; by apply elem_of_cons; left).
  apply non_empty_elem in Hi as (Hi0 & Hi & He).
  pose proof (lookup_lt_Some _ _ _ Hi) as Hlt. unfold nibble, BRANCH_LIST_LENGTH in *. split_and!; [|done|lia..].
  destruct (decide (j = i)) as [->|Hne]; [done|].
  destruct (lookup_lt_is_Some_2 stack (Z.to_nat j)) as [x Hx]; [lia|]. rewrite Hx.
  destruct (is_empty x) eqn:Hxe; [by destruct x|].
  assert ((j, x) ∈ non_empty_children stack) as Hj' by (apply non_empty_elem; split_and!; [lia|done..]).
  rewrite Hs in Hj'. apply list_elem_of_singleton in Hj'. naive_solver.
Qed.

(** The result of collapsing, on what is revealed. *)
Definition collapsed (n : nat) (t t' : TrieNode) : Prop :=
  wf n t' ∧ is_empty t' = false ∧ ∀ path, key n path → get t' path = get t path.

Lemma collapsed_single n stack i t :
  length stack = BRANCH_LIST_LENGTH → stack !! 16%nat = Some Empty → Forall (wf n) stack →
  non_empty_children stack = [(i, t)] → nibble i ∧ collapsed (S n) (Branch stack) (merge [i] t).
Proof.
  intros Hl H16 Hf Hs.
  assert ((i, t) ∈ non_empty_children stack) as Hi by (rewrite Hs; by apply elem_of_cons; left).
  apply non_empty_elem in Hi as (Hi0 & Hi & He).
  assert (nibble i) as Hni.
  { pose proof (lookup_lt_Some _ _ _ Hi). unfold nibble, BRANCH_LIST_LENGTH in *.
    destruct (decide (i = 16)) as [->|]; [|lia]. change (Z.to_nat 16) with 16%nat in Hi. by simplify_eq. }
  assert (wf n t) as Hw by (by eapply Forall_lookup_1). split; [done|]. split_and!.
  - apply (wf_merge n [i]); [done| |done]. by constructor.
  - by rewrite is_empty_merge.
  - intros [|j path] Hk; [by destruct Hk|]. apply key_cons in Hk as [Hj Hk].
    rewrite (get_merge n), get_branch by done. destruct (single_child stack i t j Hs Hj Hl) as (-> & _).
    cbn. rewrite drop_0, take_0. repeat destruct (decide _); naive_solver.
Qed.

Section delete.
Context `{!TrieProvider} `{!TrieHinter} `{!TrieHash} `{!NibblesOps} `{!NibblesLaws}.
Context (Hhint : ∀ hash last_slot, hint_account_proof hash last_slot = Ok tt).

Lemma collapse_extension fuel walked_prefix last_slot p node :
  collapse_if_possible (S fuel) walked_prefix last_slot (Extension p node) = (Ok tt, merge p node).
Proof. by destruct node. Qed.

Lemma merge_reveal fuel p node t :
  is_blinded node = false → reveal fuel node = Ok t → reveal (S fuel) (merge p node) = Ok (merge p t).
Proof.
  intros Hb Hr. destruct fuel as [|fuel]; [done|]. destruct node as [|c|q v|q node|stack]; [|done|..].
  - by injection Hr as <-.
  - by injection Hr as <-.
  - apply reveal_extension in Hr as (node' & -> & Hr). apply (reveal_mono (S fuel)); [|lia].
    apply reveal_extension. by eauto.
  - pose proof Hr as (stack' & -> & _)%reveal_branch. apply reveal_extension. by eauto.
Qed.

Lemma collapse_single fuel walked_prefix last_slot stack i node :
  non_empty_children stack = [(i, node)] → is_blinded node = false → is_empty node = false →
  collapse_if_possible (S fuel) walked_prefix last_slot (Branch stack) = (Ok tt, merge [i] node).
Proof. intros Hs Hb He. cbn [collapse_if_possible]. rewrite Hs. by destruct node. Qed.

Lemma non_empty_replace i k stack node node' :
  non_empty_from i stack = [(k, node)] → is_empty node' = false → i <= k →
  non_empty_from i (<[Z.to_nat (k - i) := node']> stack) = [(k, node')].
Proof.
  revert i. induction stack as [|x stack IH]; intros i Hs He Hik; [done|]. cbn [non_empty_from] in Hs.
  destruct (is_empty x) eqn:Hx.
  - assert (i + 1 <= k) as Hlt.
    { assert ((k, node) ∈ non_empty_from (i + 1) stack) as Hin by (rewrite Hs; by apply elem_of_cons; left).
      apply non_empty_from_elem in Hin as (? & ? & _). lia. }
    replace (Z.to_nat (k - i)) with (S (Z.to_nat (k - (i + 1)))) by lia.
    change (<[S ?n:=node']> (x :: stack)) with (x :: <[n:=node']> stack). cbn [non_empty_from]. rewrite Hx.
    by apply IH.
  - injection Hs as -> -> Hs. rewrite Z.sub_diag. change (<[Z.to_nat 0:=node']> (node :: stack)) with (node' :: stack).
    cbn [non_empty_from]. by rewrite He, Hs.
Qed.

(** A branch left with a single child, blinded or not, is collapsed onto it. *)
Lemma collapse_single_reveal fuel : ∀ stack i node t walked_prefix last_slot,
  non_empty_children stack = [(i, node)] → 0 <= i → child_reveals fuel node t → is_empty t = false →
  (length walked_prefix < 64)%nat →
  ∃ node', collapse_if_possible fuel walked_prefix last_slot (Branch stack) = (Ok tt, node')
    ∧ reveal (S fuel) node' = Ok (merge [i] t) ∧ is_blinded node' = false.
Proof.
  induction fuel as [|fuel IH]; intros stack i node t walked_prefix last_slot Hs Hi [Hr Hb] He Hw; [done|].
  destruct (is_blinded node) eqn:Hbl.
  - destruct node as [|c| | |]; try done. apply reveal_blinded in Hr as (node & Hu & Hr).
    destruct (is_empty node) eqn:Hen.
    { destruct node; [|done..]. destruct fuel; [done|]. by injection Hr as <-. }
    assert (0 <= i - 0) by lia.
    destruct (IH (<[Z.to_nat i := node]> stack) i node t walked_prefix last_slot) as (node' & Hc & Hr' & Hb');
      [|done|by split|done|done|].
    { unfold non_empty_children in *. rewrite <- (Z.sub_0_r i) at 1. eapply non_empty_replace; [exact Hs|done|lia]. }
    exists node'. split_and!; [|apply (reveal_mono (S fuel)); [done|lia]|done].
    cbn [collapse_if_possible]. rewrite Hs. unfold hint_key. rewrite length_app. cbn [length].
    rewrite decide_True by lia. unfold mbind, st_bind, lift at 1, map_err. rewrite Hhint. unfold on_child. cbn beta iota.
    unfold lift. rewrite Hu. exact Hc.
  - exists (merge [i] node). split_and!; [|by apply merge_reveal|apply is_blinded_merge].
    apply collapse_single; [done..|]. rewrite <- He. by apply (child_reveals_is_empty (S fuel)).
Qed.

Lemma collapse_branch fuel stack stack' n walked_prefix last_slot :
  Forall2 (child_reveals fuel) stack stack' → length stack' = BRANCH_LIST_LENGTH →
  stack' !! 16%nat = Some Empty → Forall (wf n) stack' → non_empty_children stack' ≠ [] →
  (length walked_prefix < 64)%nat →
  ∃ node' t', collapse_if_possible fuel walked_prefix last_slot (Branch stack) = (Ok tt, node')
    ∧ reveal (S fuel) node' = Ok t' ∧ is_blinded node' = false ∧ collapsed (S n) (Branch stack') t'.
Proof.
  intros Hs Hl H16 Hf Hne Hw. pose proof (non_empty_reveal fuel 0 _ _ Hs) as Hc.
  change (non_empty_from 0) with non_empty_children in Hc.
  destruct (non_empty_children stack') as [|[i t] [|c rest]] eqn:Hn; [done|..].
  - apply Forall2_cons_inv_r in Hc as ([i' node] & l & [Hi Hct] & Hc & Hns). apply Forall2_nil_inv_r in Hc as ->.
    cbn in Hi, Hct. subst i'. destruct (collapsed_single n stack' i t Hl H16 Hf Hn) as (Hni & Hcoll).
    pose proof Hcoll as (_ & He & _). rewrite is_empty_merge in He. destruct Hni as [Hi _].
    destruct (collapse_single_reveal fuel stack i node t walked_prefix last_slot) as (node' & Hrun & Hr & Hb);
      [done..|]. by exists node', (merge [i] t).
  - destruct fuel as [|fuel]. { destruct Hs as [|?? ?? [? _]]; [by cbn in Hl|done]. }
    inversion Hc as [|a c1 l l1 _ Hc' Hns Heq]; subst. inversion Hc' as [|b c2 l' l2 _ _]; subst. symmetry in Hns.
    exists (Branch stack), (Branch stack'). cbn [collapse_if_possible]. rewrite Hns.
    split_and!; [by destruct a as [? []]|by apply reveal_branch; eauto|done|].
    split_and!; [|done|done]. apply wf_branch; [done..|]. rewrite Hn. cbn. lia.
Qed.

(** * Deleting *)

Definition deleted (n : nat) (path : Nibbles) (t t' : TrieNode) : Prop :=
  wf n t' ∧ (is_branch t → is_empty t' = false) ∧ updated n path None t t'.

(** What [delete] does to a node that reveals [t]. *)
Definition delete_spec (fuel : nat) (node t : TrieNode) (n : nat) (path walked_prefix : Nibbles) (last_slot : Z)
    : Prop :=
  match get t path with
  | None => ∃ node', delete fuel path walked_prefix last_slot node = (Err KeyNotFound, node')
      ∧ reveal fuel node' = Ok t
  | Some _ => ∃ node' t', delete fuel path walked_prefix last_slot node = (Ok tt, node')
      ∧ reveal fuel node' = Ok t' ∧ is_blinded node' = false ∧ deleted n path t t'
  end.

Lemma delete_blinded fuel c node t n path walked last_slot :
  unblind (Blinded c) = (Ok tt, node) → delete_spec fuel node t n path walked last_slot →
  delete_spec (S fuel) (Blinded c) t n path walked last_slot.
Proof.
  intros Hu. unfold delete_spec. cbn [delete]. rewrite (run_op _ _ _ _ _ Hu).
  destruct (get t path).
  - intros (node' & t' & Hd & Hr & Hp). exists node', t'. split_and!; try done; [|apply Hp..].
    apply (reveal_mono fuel); [done|lia].
  - intros (node' & Hd & Hr). exists node'. split; [done|]. apply (reveal_mono fuel); [done|lia].
Qed.

Lemma delete_extension fuel prefix node t n path walked last_slot :
  reveal fuel node = Ok t → wf (length prefix + n) (Extension prefix t) → key (length prefix + n) path →
  delete_spec fuel node t n (drop (length prefix) path) (walked ++ prefix) last_slot →
  delete_spec (S fuel) (Extension prefix node) (Extension prefix t) (length prefix + n) path walked last_slot.
Proof.
  intros Hr Hw Hk IH. pose proof Hw as (n' & Hn & Hp & Hf & [stack ->] & Hwt)%wf_extension_inv.
  assert (n' = n) as -> by lia. pose proof Hwt as (n' & -> & _)%wf_branch_inv.
  unfold delete_spec in *. rewrite get_extension. cbn [delete]. destruct (decide (take _ path = prefix)) as [Hpre|Hpre].
  2: { exists (Extension prefix node). rewrite decide_True; [split; [done|]; apply reveal_extension; by eauto|].
       pose proof (common_prefix_le path prefix) as [Hle _]. apply Nat.le_neq. split; [done|].
       by intros Hall%common_prefix_all. }
  rewrite common_prefix_all_2 by done. rewrite decide_False by lia.
  rewrite decide_False by (destruct Hk; lia). unfold on_child, mbind, st_bind.
  destruct (get (Branch stack) _).
  - destruct IH as (node' & t' & -> & Hr' & Hb & Hw' & He & Hu). destruct fuel as [|fuel]; [done|].
    exists (merge prefix node'), (merge prefix t'). split_and!; [apply collapse_extension|by apply merge_reveal|
      by apply is_blinded_merge|]. split_and!; [by apply wf_merge|by intros [? [=]]|].
    intros path' Hk'. rewrite (get_merge (S n')) by done. by apply (updated_extension _ _ _ _ _ _ Hpre Hu).
  - destruct IH as (node' & -> & Hr'). exists (Extension prefix node'). split; [done|].
    apply reveal_extension. by eauto.
Qed.

Lemma delete_branch fuel stack stack' n i rest node t walked last_slot :
  Forall2 (child_reveals fuel) stack stack' → wf (S n) (Branch stack') → nibble i →
  stack !! Z.to_nat i = Some node → stack' !! Z.to_nat i = Some t → child_reveals fuel node t →
  (length walked < 64)%nat → delete_spec fuel node t n rest (walked ++ [i]) last_slot →
  delete_spec (S fuel) (Branch stack) (Branch stack') (S n) (i :: rest) walked last_slot.
Proof.
  intros Hs Hw Hi Hnode Ht Hc Hlen IH. apply wf_branch_inv in Hw as (n' & [= <-] & Hl & H16 & Hf & Hcount).
  unfold delete_spec in *. rewrite get_branch, Ht. cbn [mbind option_bind delete]. rewrite Hnode.
  unfold on_child, mbind, st_bind. destruct (get t rest).
  - destruct IH as (node' & t' & -> & Hr' & Hb & Hw' & He & Hu).
    destruct (collapse_branch fuel (<[Z.to_nat i := node']> stack) (<[Z.to_nat i := t']> stack') n walked last_slot)
      as (node2 & t2 & Hrun & Hr2 & Hb2 & Hw2 & He2 & Hg2); try done.
    + apply Forall2_insert; [done|]. split; [done|]. by rewrite Hb.
    + by rewrite length_insert.
    + rewrite list_lookup_insert_ne; [done|]. unfold nibble in Hi. lia.
    + by apply Forall_insert.
    + pose proof (length_non_empty_replace 0 (Z.to_nat i) t' stack'). unfold non_empty_children in *.
      intros Hnil. rewrite Hnil in *. cbn in *. lia.
    + exists node2, t2. split_and!; [done..|]. split_and!; [done..|]. intros path' Hk'. rewrite Hg2 by done.
      by apply (updated_branch _ _ _ _ _ _ _ Hi Ht Hu).
  - destruct IH as (node' & Hd & Hr'). rewrite Hd. eexists. split; [done|].
    rewrite (reveal_insert _ _ _ _ _ t Hs); [by rewrite list_insert_id|].
    apply child_reveals_cases in Hc as [He|[-> ->]]; [by apply child_reveals_non_empty|].
    destruct fuel; [done|]. by injection Hd as <-.
Qed.

Lemma delete_reveal fuel : ∀ node t n path walked last_slot,
  reveal fuel node = Ok t → wf n t → key n path → (length walked + n <= 64)%nat →
  delete_spec fuel node t n path walked last_slot.
Proof.
  induction fuel as [|fuel IH]; intros node t n path walked last_slot Hr Hw Hk Hlen; [done|].
  destruct node as [|c|prefix value|prefix node|stack].
  - injection Hr as <-. by eexists.
  - apply reveal_blinded in Hr as (node & Hu & Hr). eapply delete_blinded; [done|]. by apply IH.
  - injection Hr as <-. unfold delete_spec. cbn [get delete]. destruct (decide _) as [->|Hne]; [|by eexists].
    exists Empty, Empty. split_and!; [done..|]. split_and!; [apply wf_empty|by intros [? [=]]|].
    intros path' _. cbn. by destruct (decide _).
  - apply reveal_extension in Hr as (t0 & -> & Hr). pose proof Hw as (n' & -> & _ & _ & _ & Hw')%wf_extension_inv.
    apply delete_extension; try done. apply IH; [done..|by apply key_drop|]. rewrite length_app. lia.
  - apply reveal_branch in Hr as (stack' & -> & Hs). pose proof Hw as (n' & -> & Hl & _ & Hf & _)%wf_branch_inv.
    destruct path as [|i rest]; [by destruct Hk|]. apply key_cons in Hk as [Hi Hk].
    destruct (branch_lookup _ _ _ Hl Hf Hi) as (t & Ht & Hwt).
    destruct (Forall2_lookup_r _ _ _ _ _ Hs Ht) as (node & Hnode & Hc).
    eapply delete_branch; [done..|lia|]. apply IH; [apply Hc|done..|]. rewrite length_app. cbn. lia.
Qed.
End delete.
