(* ===== verification/MptMap.v ===== *)
(** Tries as finite maps (src/crates/proof/mpt/src/node.rs): [open], [insert] and [delete] are the
    operations of the map a trie represents, and a trie is determined by its map. *)
From S2P Require Import Prelude Blocks Mpt MptReveal MptUpdate.
#[local] Open Scope Z_scope.

(** * A trie is determined by its contents *)

Lemma NoDup_non_empty i stack : NoDup (non_empty_from i stack).*1.
Proof.
  revert i. induction stack as [|x stack IH]; intros i; cbn [non_empty_from]; [by apply NoDup_nil_2|].
  destruct (is_empty x); [apply IH|]. cbn. apply NoDup_cons. split; [|apply IH].
  intros ([j y] & -> & (k & Hk & _)%non_empty_from_elem)%list_elem_of_fmap. cbn in Hk. lia.
Qed.
Lemma two_children stack :
  (2 <= length (non_empty_children stack))%nat →
  ∃ i a j b, i ≠ j ∧ (i, a) ∈ non_empty_children stack ∧ (j, b) ∈ non_empty_children stack.
Proof.
  pose proof (NoDup_non_empty 0 stack) as Hd. change (non_empty_from 0) with non_empty_children in Hd.
  destruct (non_empty_children stack) as [|[i a] [|[j b] l]]; cbn; [lia..|]. intros _.
  exists i, a, j, b. cbn in Hd. apply NoDup_cons in Hd as [Hd _]. rewrite !elem_of_cons. split_and!; [|by left|by auto].
  intros ->. apply Hd. by apply elem_of_cons; left.
Qed.

Definition has (n : nat) (t : TrieNode) (path : Nibbles) : Prop := key n path ∧ is_Some (get t path).

Lemma has_extension n p t path :
  Forall nibble p → has n t path → has (length p + n) (Extension p t) (p ++ path).
Proof.
  intros Hp [[Hl Hf] Hg]. split.
  - split; [rewrite length_app; lia|by apply Forall_app].
  - rewrite get_extension, take_app_length, drop_app_length. by rewrite decide_True.
Qed.
Lemma has_child n stack i a x :
  length stack = BRANCH_LIST_LENGTH → stack !! 16%nat = Some Empty →
  (i, a) ∈ non_empty_children stack → has n a x → has (S n) (Branch stack) (i :: x).
Proof.
  intros Hl H16 (Hi & Ha & He)%non_empty_elem [Hk Hg]. split.
  - apply key_cons. split; [|done]. pose proof (lookup_lt_Some _ _ _ Ha). unfold nibble, BRANCH_LIST_LENGTH in *.
    destruct (decide (i = 16)) as [->|]; [|lia]. change (Z.to_nat 16) with 16%nat in Ha. by simplify_eq.
  - rewrite get_branch, Ha. done.
Qed.

Lemma inhabited n : ∀ t, wf n t → is_empty t = false → ∃ path, has n t path.
Proof.
  induction (lt_wf n) as [n _ IH]; intros t Hw He. destruct t as [|c|p v|p t|stack]; [done|by inversion Hw|..].
  - apply wf_leaf_inv in Hw as [-> Hf]. exists p. split; [done|]. cbn. by rewrite decide_True.
  - apply wf_extension_inv in Hw as (n' & -> & Hp & Hf & [stack ->] & Hw).
    destruct (IH n') with (t := Branch stack) as [path Hpath]; [destruct p; cbn; [done|lia]|done..|].
    exists (p ++ path). by apply has_extension.
  - apply wf_branch_inv in Hw as (n' & -> & Hl & H16 & Hf & Hc).
    apply two_children in Hc as (i & a & _ & _ & _ & Hi & _). pose proof Hi as (_ & Ha & Hae)%non_empty_elem.
    destruct (IH n' ltac:(lia) a) as [x Hx]; [by eapply Forall_lookup_1|done|].
    exists (i :: x). by eapply has_child.
Qed.

Lemma branching n stack :
  wf (S n) (Branch stack) →
  ∃ i x j y, i ≠ j ∧ has (S n) (Branch stack) (i :: x) ∧ has (S n) (Branch stack) (j :: y).
Proof.
  intros (n' & [= <-] & Hl & H16 & Hf & Hc)%wf_branch_inv.
  apply two_children in Hc as (i & a & j & b & Hij & Hi & Hj).
  pose proof Hi as (_ & Ha & Hae)%non_empty_elem. pose proof Hj as (_ & Hb & Hbe)%non_empty_elem.
  destruct (inhabited n a) as [x Hx]; [by eapply Forall_lookup_1|done|].
  destruct (inhabited n b) as [y Hy]; [by eapply Forall_lookup_1|done|].
  exists i, x, j, y. split_and!; [done|by eapply has_child..].
Qed.
Lemma branching_extension n p t :
  wf n (Extension p t) →
  ∃ i x j y, i ≠ j ∧ has n (Extension p t) (p ++ i :: x) ∧ has n (Extension p t) (p ++ j :: y).
Proof.
  intros (n' & -> & Hp & Hf & [stack ->] & Hw)%wf_extension_inv. pose proof Hw as (m & -> & _)%wf_branch_inv.
  apply branching in Hw as (i & x & j & y & Hij & Hx & Hy).
  exists i, x, j, y. split_and!; [done|by apply has_extension..].
Qed.

Lemma has_extension_inv n p t path : has n (Extension p t) path → take (length p) path = p.
Proof. intros [_ [v Hv]]. rewrite get_extension in Hv. by case_decide. Qed.
Lemma has_leaf_inv n p v path : has n (Leaf p v) path → path = p.
Proof. intros [_ [w Hw]]. cbn in Hw. by case_decide. Qed.

(** The contents of two tries agree. *)
Definition agree (n : nat) (t u : TrieNode) : Prop := ∀ path, key n path → get t path = get u path.
#[global] Instance agree_equivalence n : Equivalence (agree n).
Proof.
  split; [done|intros t u Hg path Hk; by rewrite Hg|].
  intros t u v Hg Hg' path Hk. by rewrite Hg, Hg'.
Qed.
#[global] Instance has_proper n : Proper (agree n ==> eq ==> iff) (has n).
Proof. intros t u Hg path _ <-. unfold has. split; intros [Hk Hs]; (split; [done|]); [by rewrite <- Hg|by rewrite Hg]. Qed.

Lemma extension_prefix_le n p q t u :
  wf n (Extension p t) → agree n (Extension p t) (Extension q u) → (length q <= length p)%nat.
Proof.
  intros Hw Hg. apply branching_extension in Hw as (i & x & j & y & Hij & Hx & Hy).
  rewrite Hg in Hx, Hy. apply has_extension_inv in Hx, Hy.
  destruct (decide (length q <= length p)%nat) as [|Hgt]; [done|]. destruct Hij.
  assert (∀ i x, take (length q) (p ++ i :: x) = q → q !! length p = Some i) as Hq.
  { intros i' x' <-. rewrite lookup_take_lt by lia. by apply list_lookup_middle. }
  apply Hq in Hx, Hy. congruence.
Qed.
Lemma extension_prefix n p q t u :
  wf n (Extension p t) → wf n (Extension q u) → agree n (Extension p t) (Extension q u) → p = q.
Proof.
  intros Ht Hu Hg. pose proof (extension_prefix_le _ _ _ _ _ Ht Hg).
  assert (agree n (Extension q u) (Extension p t)) as Hg' by (by symmetry).
  pose proof (extension_prefix_le _ _ _ _ _ Hu Hg').
  apply branching_extension in Ht as (i & x & _ & _ & _ & Hx & _). rewrite Hg in Hx. apply has_extension_inv in Hx.
  by rewrite take_app_le, take_ge in Hx by lia.
Qed.

Lemma agree_empty n u : wf n u → agree n Empty u → u = Empty.
Proof.
  intros Hw Hg. destruct (is_empty u) eqn:He; [by destruct u|].
  destruct (inhabited n u Hw He) as (path & Hp). rewrite <- Hg in Hp. by destruct Hp as [_ [? ?]].
Qed.
Lemma two_paths n p v i x j y :
  i ≠ j → has n (Leaf p v) (i :: x) → has n (Leaf p v) (j :: y) → False.
Proof. intros Hij Hx%has_leaf_inv Hy%has_leaf_inv. congruence. Qed.
Lemma agree_leaf n p v u : wf n u → agree n (Leaf p v) u → key n p → u = Leaf p v.
Proof.
  intros Hw Hg Hk. destruct u as [|c|q w|q u|stack].
  - specialize (Hg p Hk). cbn in Hg. by rewrite decide_True in Hg.
  - by inversion Hw.
  - specialize (Hg p Hk). cbn in Hg. rewrite decide_True in Hg by done. destruct (decide (p = q)); naive_solver.
  - apply branching_extension in Hw as (i & x & j & y & Hij & Hx & Hy).
    rewrite <- Hg in Hx, Hy. apply has_leaf_inv in Hx, Hy. destruct Hij. rewrite <- Hx in Hy.
    by apply app_inv_head in Hy as [= -> _].
  - pose proof Hw as (n' & -> & _)%wf_branch_inv. apply branching in Hw as (i & x & j & y & Hij & Hx & Hy).
    rewrite <- Hg in Hx, Hy. by destruct (two_paths _ _ _ _ _ _ _ Hij Hx Hy).
Qed.
Lemma agree_extension_branch n p t stack :
  wf n (Extension p t) → wf n (Branch stack) → agree n (Extension p t) (Branch stack) → False.
Proof.
  intros (n' & -> & Hp & _)%wf_extension_inv Hw Hg. destruct p as [|k p]; [done|].
  apply branching in Hw as (i & x & j & y & Hij & Hx & Hy). rewrite <- Hg in Hx, Hy.
  apply has_extension_inv in Hx, Hy. cbn in Hx, Hy. congruence.
Qed.

Lemma agree_eq n : ∀ t u, wf n t → wf n u → agree n t u → t = u.
Proof.
  induction (lt_wf n) as [n _ IH]; intros t u Ht Hu Hg. destruct t as [|c|p v|p t|stack].
  - symmetry. by eapply agree_empty.
  - by inversion Ht.
  - symmetry. pose proof (wf_leaf_inv _ _ _ Ht) as [-> Hf]. by eapply agree_leaf.
  - destruct u as [|c|q w|q u|stack].
    + eapply agree_empty; [done|]. by symmetry.
    + by inversion Hu.
    + pose proof (wf_leaf_inv _ _ _ Hu) as [-> Hf]. eapply agree_leaf; [done| |done]. by symmetry.
    + pose proof (extension_prefix _ _ _ _ _ Ht Hu Hg) as <-. f_equal.
      apply wf_extension_inv in Ht as (n' & -> & Hp & Hf & _ & Ht). apply wf_extension_inv in Hu as (m & Hm & _ & _ & _ & Hu).
      assert (m = n') as -> by lia. apply (IH n'); [destruct p; cbn; [done|lia]|done..|].
      intros path [Hl Hk]. specialize (Hg (p ++ path)).
      rewrite !get_extension, !take_app_length, !decide_True, drop_app_length in Hg by done. apply Hg.
      split; [rewrite length_app; lia|by apply Forall_app].
    + by destruct (agree_extension_branch _ _ _ _ Ht Hu Hg).
  - destruct u as [|c|q w|q u|stack'].
    + eapply agree_empty; [done|]. by symmetry.
    + by inversion Hu.
    + pose proof (wf_leaf_inv _ _ _ Hu) as [-> Hf]. eapply agree_leaf; [done| |done]. by symmetry.
    + symmetry in Hg. by destruct (agree_extension_branch _ _ _ _ Hu Ht Hg).
    + f_equal. apply wf_branch_inv in Ht as (n' & -> & Hl & H16 & Hf & _).
      apply wf_branch_inv in Hu as (m & [= <-] & Hl' & H16' & Hf' & _).
      eapply list_eq_same_length; [done..|]. unfold BRANCH_LIST_LENGTH.
      intros k x y Hk Hx Hy. destruct (decide (k = 16%nat)) as [->|Hne]; [congruence|].
      apply (IH n'); [lia|apply (Forall_lookup_1 _ _ _ _ Hf Hx)|apply (Forall_lookup_1 _ _ _ _ Hf' Hy)|].
      intros path Hpath. specialize (Hg (Z.of_nat k :: path)). rewrite !get_branch, Nat2Z.id, Hx, Hy in Hg. apply Hg, key_cons.
      split; [unfold nibble; lia|done].
Qed.

(** * More fuel changes nothing *)

Section fuel.
Context `{!TrieProvider} `{!TrieHinter} `{!TrieHash} `{!NibblesOps}.

(** [m'] has the outcome of [m] unless [m] runs out of fuel. *)
Definition extends {A} (m m' : ST TrieNode TrieNodeError A) : Prop :=
  ∀ node r node', m node = (r, node') → r ≠ Panic → m' node = (r, node').

Lemma extends_refl {A} (m : ST TrieNode TrieNodeError A) : extends m m.
Proof. by intros node r node'. Qed.
Lemma extends_on_child {A} mk (m m' : ST TrieNode TrieNodeError A) child :
  extends m m' → extends (on_child mk m child) (on_child mk m' child).
Proof.
  intros He node r node'. unfold on_child. destruct (m child) as [r0 c0] eqn:Hm. intros [= -> <-] Hr.
  by rewrite (He _ _ _ Hm Hr).
Qed.
Lemma extends_bind {A B} (m m' : ST TrieNode TrieNodeError A) (k k' : A → ST TrieNode TrieNodeError B) :
  extends m m' → (∀ a, extends (k a) (k' a)) → extends (m ≫= k) (m' ≫= k').
Proof.
  intros Hm Hk node r node'. unfold mbind, st_bind. destruct (m node) as [[a|e|] c] eqn:Ha.
  - rewrite (Hm _ _ _ Ha) by done. apply Hk.
  - rewrite (Hm _ _ _ Ha) by done. done.
  - by intros [= <- <-].
Qed.

Lemma insert_extends fuel fuel' path value :
  (fuel <= fuel')%nat → extends (insert fuel path value) (insert fuel' path value).
Proof.
  revert fuel' path. induction fuel as [|fuel IH]; intros [|fuel'] path Hle node r node'; cbn [insert]; try lia;
    try by intros [= <- <-].
  destruct node as [|c|p v|p node|stack]; try done.
  - apply extends_bind; [apply extends_refl|]. intros _. apply IH. lia.
  - destruct (decide _); [|done]. apply extends_on_child, IH. lia.
  - destruct path as [|i rest]; [done|]. destruct (stack !! _); [|done]. apply extends_on_child, IH. lia.
Qed.
Lemma collapse_extends fuel fuel' walked_prefix last_slot :
  (fuel <= fuel')%nat →
  extends (collapse_if_possible fuel walked_prefix last_slot) (collapse_if_possible fuel' walked_prefix last_slot).
Proof.
  revert fuel'. induction fuel as [|fuel IH]; intros [|fuel'] Hle node r node'; cbn [collapse_if_possible]; try lia;
    try by intros [= <- <-].
  destruct node as [|c|p v|p node|stack]; try done.
  destruct (non_empty_children stack) as [|[i [|c|p v|p node|stack']] [|]]; try done.
  do 3 (apply extends_bind; [apply extends_refl|intros ?]). apply IH. lia.
Qed.
Lemma delete_extends fuel fuel' path walked_prefix last_slot :
  (fuel <= fuel')%nat → extends (delete fuel path walked_prefix last_slot) (delete fuel' path walked_prefix last_slot).
Proof.
  revert fuel' path walked_prefix.
  induction fuel as [|fuel IH]; intros [|fuel'] path walked Hle node r node'; cbn [delete]; try lia;
    try by intros [= <- <-].
  destruct node as [|c|p v|p node|stack]; try done.
  - apply extends_bind; [apply extends_refl|]. intros _. apply IH. lia.
  - destruct (decide _); [done|]. destruct (decide _); [done|].
    apply extends_bind; [apply extends_on_child, IH; lia|]. intros _. apply collapse_extends. lia.
  - destruct path as [|i rest]; [done|]. destruct (stack !! _); [|done].
    apply extends_bind; [apply extends_on_child, IH; lia|]. intros _. apply collapse_extends. lia.
Qed.
Lemma open_extends fuel fuel' path :
  (fuel <= fuel')%nat → extends (open fuel path) (open fuel' path).
Proof.
  revert fuel' path. induction fuel as [|fuel IH]; intros [|fuel'] path Hle node r node'; cbn [open]; try lia;
    try by intros [= <- <-].
  destruct node as [|c|p v|p node|stack]; try done.
  - apply extends_bind; [apply extends_refl|]. intros _. apply IH. lia.
  - destruct (slice_to _ _); try done. destruct (decide _); [|done].
    apply extends_on_child, extends_bind; [apply extends_refl|]. intros _. apply IH. lia.
  - destruct path as [|i rest]; [done|]. destruct (stack !! _); [|done]. apply extends_on_child, IH. lia.
Qed.
End fuel.

(** * Tries as finite maps *)

Section map.
Context `{!TrieProvider} `{!TrieHash} `{!NibblesOps} `{!NibblesLaws}.

(** [node], once revealed, is the trie of the map [m] with keys of [n] nibbles. *)
Definition represents (fuel n : nat) (node : TrieNode) (m : gmap Nibbles bytes) : Prop :=
  ∃ t, reveal fuel node = Ok t ∧ wf n t ∧ ∀ path, key n path → get t path = m !! path.

Lemma represents_mono fuel fuel' n node m :
  represents fuel n node m → (fuel <= fuel')%nat → represents fuel' n node m.
Proof. intros (t & Hr & Hw & Hg) Hle. exists t. split; [by apply (reveal_mono fuel)|done]. Qed.

Lemma open_represents fuel n node m path :
  represents fuel n node m → key n path →
  ∃ node', open fuel path node = (Ok (m !! path), node') ∧ represents fuel n node' m.
Proof.
  intros (t & Hr & Hw & Hg) Hk. destruct (open_reveal _ _ _ _ _ Hr Hw Hk) as (node' & Ho & Hr').
  exists node'. rewrite Ho, Hg by done. split; [done|]. by exists t.
Qed.

Lemma insert_represents fuel n node m path value :
  represents fuel n node m → key n path →
  ∃ node', insert fuel path value node = (Ok tt, node')
    ∧ represents (S (S fuel)) n node' (<[path := value]> m).
Proof.
  intros (t & Hr & Hw & Hg) Hk.
  destruct (insert_reveal _ _ _ _ _ value Hr Hw Hk) as (node' & t' & Hi & Hr' & Hw' & _ & _ & Hu).
  exists node'. split; [done|]. exists t'. split_and!; [done..|]. intros path' Hk'. rewrite Hu by done.
  destruct (decide (path' = path)) as [->|]; [by rewrite lookup_insert_eq|].
  rewrite lookup_insert_ne by done. by apply Hg.
Qed.

Context `{!TrieHinter} (Hhint : ∀ hash last_slot, hint_account_proof hash last_slot = Ok tt).

Lemma delete_represents fuel n node m path walked_prefix last_slot :
  represents fuel n node m → key n path → (length walked_prefix + n <= 64)%nat →
  ∃ node', delete fuel path walked_prefix last_slot node
      = (if m !! path then Ok tt else Err KeyNotFound, node')
    ∧ represents fuel n node' (base.delete path m).
Proof.
  intros (t & Hr & Hw & Hg) Hk Hl. pose proof (delete_reveal Hhint _ _ _ _ _ _ last_slot Hr Hw Hk Hl) as Hd.
  unfold delete_spec in Hd. rewrite Hg in Hd by done. destruct (m !! path) as [v|] eqn:Hm.
  - destruct Hd as (node' & t' & Hd & Hr' & _ & Hw' & _ & Hu). exists node'. split; [done|].
    exists t'. split_and!; [done..|]. intros path' Hk'. rewrite Hu by done.
    destruct (decide (path' = path)) as [->|]; [by rewrite lookup_delete_eq|].
    rewrite lookup_delete_ne by done. by apply Hg.
  - destruct Hd as (node' & Hd & Hr'). exists node'. split; [done|]. rewrite delete_id by done. by exists t.
Qed.

(** Two tries of one map are one trie. *)
Lemma represents_eq fuel fuel' n node node' m :
  represents fuel n node m → represents fuel' n node' m →
  ∃ t, reveal fuel node = Ok t ∧ reveal fuel' node' = Ok t.
Proof.
  intros (t & Hr & Hw & Hg) (t' & Hr' & Hw' & Hg'). exists t. split; [done|].
  rewrite Hr'. f_equal. symmetry. apply (agree_eq n); [done..|]. intros path Hk. by rewrite Hg, Hg'.
Qed.

(** The tries a history of operations leads to, with the map it denotes; each operation runs
    with any fuel that does not run out. *)
Inductive history (n : nat) : TrieNode → gmap Nibbles bytes → Prop :=
| history_start fuel node m : represents fuel n node m → history n node m
| history_open fuel node m path r node' :
    history n node m → key n path → open fuel path node = (r, node') → r ≠ Panic → history n node' m
| history_insert fuel node m path value r node' :
    history n node m → key n path → insert fuel path value node = (r, node') → r ≠ Panic →
    history n node' (<[path := value]> m)
| history_delete fuel node m path last_slot r node' :
    history n node m → key n path → delete fuel path [] last_slot node = (r, node') → r ≠ Panic →
    history n node' (base.delete path m).

(** An operation that returns does what it does with all the fuel it may need. *)
Lemma extends_same {A} (m m1 m2 : ST TrieNode TrieNodeError A) node r node' r' node2 :
  extends m m2 → extends m1 m2 → m node = (r, node') → r ≠ Panic → m1 node = (r', node2) → r' ≠ Panic →
  node' = node2.
Proof. intros He1 He2 E1 N1 E2 N2. pose proof (He1 _ _ _ E1 N1). pose proof (He2 _ _ _ E2 N2). congruence. Qed.

Lemma history_represents n node m : (n <= 64)%nat → history n node m → ∃ fuel, represents fuel n node m.
Proof.
  intros Hn. induction 1 as [fuel node m Hr|fuel node m path r node' _ [F HF] Hk Hrun Hp
    |fuel node m path value r node' _ [F HF] Hk Hrun Hp|fuel node m path last_slot r node' _ [F HF] Hk Hrun Hp].
  - by exists fuel.
  - destruct (open_represents _ _ _ _ _ HF Hk) as (node2 & Ho & Hr). exists F.
    assert (node' = node2) as ->; [|done].
    eapply (extends_same _ _ (open (fuel `max` F) path)); [..|exact Hrun|done|exact Ho|done]; apply open_extends; lia.
  - destruct (insert_represents _ _ _ _ _ value HF Hk) as (node2 & Ho & Hr). eexists.
    assert (node' = node2) as ->; [|done].
    eapply (extends_same _ _ (insert (fuel `max` F) path value)); [..|exact Hrun|done|exact Ho|done];
      apply insert_extends; lia.
  - destruct (delete_represents _ _ _ _ _ [] last_slot HF Hk) as (node2 & Ho & Hr); [done|]. eexists.
    assert (node' = node2) as ->; [|done].
    eapply (extends_same _ _ (delete (fuel `max` F) path [] last_slot)); [..|exact Hrun|done|exact Ho|by destruct (m !! path)];
      apply delete_extends; lia.
Qed.
End map.

(** * A small trie

    Keys of one nibble: [3] below a blinded child, [7] below a leaf. *)
Module Small.
#[local] Instance provider : TrieProvider := λ hash,
  if decide (hash = [byte1]) then Ok (Leaf [] [byte1]) else Err "missing"%string.
#[local] Instance hinter : TrieHinter := λ _ _, Ok tt.
#[local] Instance empty_root : TrieHash := [byte0].
Fixpoint shared (p q : list Z) : nat :=
  match p, q with
  | x :: p, y :: q => if decide (x = y) then S (shared p q) else O
  | _, _ => O
  end.
Fixpoint packed (p : list Z) : bytes :=
  match p with x :: y :: p => z2b (x * 16 + y) :: packed p | _ => [] end.
#[local] Instance nibbles : NibblesOps := {| common_prefix_length := shared; pack := packed |}.
#[local] Instance nibbles_laws : NibblesLaws.
Proof.
  intros p. induction p as [|x p IH]; intros q; [by exists [], [], q|].
  destruct q as [|y q]; [by exists [], (x :: p), []|]. cbn. destruct (decide (x = y)) as [->|Hne].
  - destruct (IH q) as (c & r & s & -> & -> & Hl & Hrs). exists (y :: c), r, s. cbn in *. by rewrite Hl.
  - exists [], (x :: p), (y :: q). split_and!; [done..|]. cbn. congruence.
Qed.
Definition stack (node3 node7 : TrieNode) : list TrieNode :=
  <[3%nat := node3]> (<[7%nat := node7]> (replicate BRANCH_LIST_LENGTH Empty)).
Definition blinded : TrieNode := Branch (stack (Blinded [byte1]) (Leaf [] [])).
Definition revealed : TrieNode := Branch (stack (Leaf [] [byte1]) (Leaf [] [])).
Definition contents : gmap (list Z) bytes := {[ [3] := [byte1]; [7] := [] ]}.

Lemma key_one path : key 1 path → path ∈ (λ i, [i]) <$> seqZ 0 16.
Proof.
  intros [Hl Hf]. destruct path as [|i [|]]; try done. apply list_elem_of_fmap. exists i.
  split; [done|]. apply elem_of_seqZ. apply Forall_cons in Hf as [Hi _]. unfold nibble in Hi. lia.
Qed.
Lemma wf_revealed : wf 1 revealed.
Proof.
  apply wf_branch; [done|done| |vm_compute; lia]. unfold stack.
  repeat apply Forall_insert; [apply Forall_replicate, wf_empty|apply (wf_leaf [])..]; done.
Qed.
Lemma get_revealed path : key 1 path → get revealed path = contents !! path.
Proof.
  intros Hk%key_one. revert path Hk. apply Forall_forall. vm_compute.
  repeat (constructor; [done|]). constructor.
Qed.
Lemma represents_blinded : represents 3 1 blinded contents.
Proof. exists revealed. split_and!; [by vm_compute|apply wf_revealed|apply get_revealed]. Qed.
Lemma represents_revealed : represents 3 1 revealed contents.
Proof. exists revealed. split_and!; [by vm_compute|apply wf_revealed|apply get_revealed]. Qed.
End Small.

(** * Properties *)

Section properties.
Context `{!TrieProvider} `{!TrieHash} `{!TrieHinter} `{!NibblesOps} `{!NibblesLaws}.

(** [open] looks a key up: with the fuel that reveals the trie it succeeds, returns the value
    of the key in the map the trie represents, or nothing, and leaves a trie of the same map,
    with the nodes on the way fetched. *)
Theorem open_looks_up fuel n node m path :
  represents fuel n node m → key n path →
  ∃ node', open fuel path node = (Ok (m !! path), node') ∧ represents fuel n node' m.
Proof. apply open_represents. Qed.

(** C22. [insert] updates the map: it succeeds, fetching what it needs, and the new trie
    represents the map with the value at the key, whether the key was present or not and
    whichever node the path splits. *)
Theorem insert_updates fuel n node m path value :
  represents fuel n node m → key n path →
  ∃ node', insert fuel path value node = (Ok tt, node')
    ∧ represents (S (S fuel)) n node' (<[path := value]> m).
Proof. apply insert_represents. Qed.

(** C23. [delete] removes a key: when the key is present it succeeds and the new trie represents
    the map without it, collapsing the extensions and branches this leaves short (fetching
    the last child of a branch, for which it asks by a hint); when it is absent it fails with
    [KeyNotFound] and the trie represents the same map. *)
Theorem delete_removes fuel n node m path walked_prefix last_slot :
  (∀ hash last_slot, hint_account_proof hash last_slot = Ok tt) →
  represents fuel n node m → key n path → (length walked_prefix + n <= 64)%nat →
  ∃ node', delete fuel path walked_prefix last_slot node
      = (if m !! path then Ok tt else Err KeyNotFound, node')
    ∧ represents fuel n node' (base.delete path m).
Proof. intros Hh. by apply delete_represents. Qed.

(** C24. History independence: whatever the order of the openings, insertions and deletions that
    lead to two tries, and whatever was fetched on the way, tries that hold the same map
    reveal to the same nodes (hence have the same root commitment). *)
Theorem history_independence n node node' m :
  (∀ hash last_slot, hint_account_proof hash last_slot = Ok tt) → (n <= 64)%nat →
  history n node m → history n node' m →
  ∃ fuel t, reveal fuel node = Ok t ∧ reveal fuel node' = Ok t.
Proof.
  intros Hh Hn [F HF]%history_represents [F' HF']%history_represents; [|done..].
  exists (F `max` F')%nat.
  apply (represents_eq (F `max` F') (F `max` F') n _ _ m); [eapply represents_mono..]; eauto; lia.
Qed.
End properties.

(** * The properties at the small trie *)

#[local] Existing Instances Small.provider Small.hinter Small.empty_root Small.nibbles Small.nibbles_laws.

Lemma open_looks_up_witness :
  ∃ node', open 3 [3] Small.blinded = (Ok (Some [byte1]), node') ∧ represents 3 1 node' Small.contents.
Proof.
  apply (open_looks_up 3 1 Small.blinded Small.contents [3]); [apply Small.represents_blinded|].
  split; [done|by repeat constructor].
Defined.

Lemma insert_updates_witness :
  ∃ node', insert 3 [3] [byte0] Small.blinded = (Ok tt, node')
    ∧ represents 5 1 node' (<[[3] := [byte0]]> Small.contents).
Proof.
  apply (insert_updates 3 1 Small.blinded Small.contents [3] [byte0]); [apply Small.represents_blinded|].
  split; [done|by repeat constructor].
Defined.

Lemma delete_removes_witness :
  delete 3 [7] [] 0 Small.blinded = (Ok tt, Leaf [3] [byte1]) ∧
  ∃ node', delete 3 [7] [] 0 Small.blinded = (Ok tt, node') ∧ represents 3 1 node' (base.delete [7] Small.contents).
Proof.
  split; [by vm_compute|].
  apply (delete_removes 3 1 Small.blinded Small.contents [7] [] 0); [done|apply Small.represents_blinded| |cbn; lia].
  split; [done|by repeat constructor].
Defined.

Lemma history_independence_witness :
  ∃ fuel t, reveal fuel (Leaf [3] [byte1]) = Ok t ∧ reveal fuel (Leaf [3] [byte1]) = Ok t.
Proof.
  apply (history_independence 1 _ _ (base.delete [7] Small.contents)); [done|lia|..].
  - apply (history_delete 1 3 Small.blinded Small.contents [7] 0 (Ok tt)); [|..|by vm_compute|done].
    + eapply history_start, Small.represents_blinded.
    + split; [done|by repeat constructor].
  - apply (history_delete 1 3 Small.revealed Small.contents [7] 0 (Ok tt)); [|..|by vm_compute|done].
    + eapply history_start, Small.represents_revealed.
    + split; [done|by repeat constructor].
Defined.
