(* ===== verification/NodeCodec.v ===== *)
(** The RLP codec of trie nodes (src/crates/proof/mpt/src/node.rs, util.rs) and the oracle-backed
    trie provider (src/crates/proof/proof/src/l2/chain_provider.rs, l1/chain_provider.rs).

    Encoding replaces a child whose encoding has 32 bytes or more by its hash; decoding leaves
    such a child blinded.  The theorems show that a node decodes to itself up to that
    ([shortened]), that the length the code computes is the length of the encoding, and that
    the root commitment of a trie whose nodes the oracle serves represents the contents of the
    trie. *)
From S2P Require Import Prelude Blocks Reader Rlp Mpt MptReveal MptUpdate MptMap.
#[local] Open Scope Z_scope.

Definition LEAF_OR_EXTENSION_LIST_LENGTH : Z := 2.
Definition PREFIX_EXTENSION_EVEN : Z := 0.
Definition PREFIX_EXTENSION_ODD : Z := 1.
Definition PREFIX_LEAF_EVEN : Z := 2.
Definition PREFIX_LEAF_ODD : Z := 3.
Definition NIBBLE_WIDTH : Z := 4.

(** alloy_rlp's [EMPTY_STRING_CODE]. *)
Definition EMPTY_STRING_CODE : byte := z2b 0x80.

(** keccak256, and alloy_trie's [Nibbles::unpack] and [encode_path_leaf]. *)
Class Keccak := keccak256 : bytes → B256.
Class PathCodec := { unpack : bytes → Nibbles; encode_path_leaf : Nibbles → bool → bytes }.

(** The hex-prefix coding of a path: a flag nibble (two for a leaf, plus one for an odd length),
    the first nibble of an odd path or zero, then two nibbles to a byte. *)
Class PathCodecLaws `{!PathCodec} := {
  encode_path_even (p : Nibbles) (is_leaf : bool) :
    Forall nibble p → Nat.Even (length p) →
    ∃ packed, encode_path_leaf p is_leaf = z2b ((if is_leaf then 2 else 0) * 16) :: packed
      ∧ unpack packed = p ∧ 2 * len packed = len p;
  encode_path_odd x (p : Nibbles) (is_leaf : bool) :
    Forall nibble (x :: p) → Nat.Even (length p) →
    ∃ packed, encode_path_leaf (x :: p) is_leaf = z2b ((if is_leaf then 3 else 1) * 16 + x) :: packed
      ∧ unpack packed = p ∧ 2 * len packed = len p;
}.

Section codec.
Context `{!Rlp} `{!Keccak} `{!PathCodec} `{!TrieHash}.

(** * Encoding *)

Definition encoded_key_len (prefix : Nibbles) : Z :=
  let encoded_key_len := len prefix / 2 + 1 in
  if decide (encoded_key_len = 1) then encoded_key_len else encoded_key_len + length_of_length encoded_key_len.

(** [length] and [blinded_length] from the length of the payload. *)
Definition length_with (payload_length : Z) (self : TrieNode) : Z :=
  match self with
  | Empty => 1
  | Blinded commitment => string_length commitment
  | Leaf _ _ | Extension _ _ | Branch _ => length_of_length payload_length + payload_length
  end.
Definition blinded_length_with (encoded_len : Z) : Z :=
  if decide (encoded_len >= 32) then string_length (replicate 32 byte0) else encoded_len.

Fixpoint payload_length (self : TrieNode) : Z :=
  match self with
  | Empty => 0
  | Blinded commitment => len commitment
  | Leaf prefix value => encoded_key_len prefix + string_length value
  | Extension prefix node =>
      encoded_key_len prefix + blinded_length_with (length_with (payload_length node) node)
  | Branch stack =>
      foldl (λ acc node, acc + blinded_length_with (length_with (payload_length node) node)) 0 stack
  end.
Definition node_length (self : TrieNode) : Z := length_with (payload_length self) self.
Definition blinded_length (self : TrieNode) : Z := blinded_length_with (node_length self).

(** [blind] from the encoding of the node. *)
Definition blind_with (encoded : bytes) (self : TrieNode) : B256 :=
  match self with
  | Blinded commitment => commitment
  | Empty => EMPTY_ROOT_HASH
  | Leaf _ _ | Extension _ _ | Branch _ => keccak256 encoded
  end.
(** A child within its parent, hashed when it is long. *)
Definition encode_child (node : TrieNode) (encoded : bytes) : bytes :=
  if decide (node_length node >= 32) then string_encode (blind_with encoded node) else encoded.

Fixpoint encode (self : TrieNode) : bytes :=
  match self with
  | Empty => [EMPTY_STRING_CODE]
  | Blinded commitment => string_encode commitment
  | Leaf prefix value =>
      header_encode true (payload_length self) ++ string_encode (encode_path_leaf prefix true) ++ string_encode value
  | Extension prefix node =>
      header_encode true (payload_length self) ++ string_encode (encode_path_leaf prefix false)
        ++ encode_child node (encode node)
  | Branch stack =>
      header_encode true (payload_length self) ++ mjoin ((λ node, encode_child node (encode node)) <$> stack)
  end.
Definition blind (self : TrieNode) : B256 := blind_with (encode self) self.

(** A node as its encoding shows it: long children are blinded. *)
Definition shorten_child (node short : TrieNode) : TrieNode :=
  if decide (node_length node >= 32) then Blinded (blind node) else short.
Fixpoint shortened (self : TrieNode) : TrieNode :=
  match self with
  | Extension prefix node => Extension prefix (shorten_child node (shortened node))
  | Branch stack => Branch ((λ node, shorten_child node (shortened node)) <$> stack)
  | Empty | Blinded _ | Leaf _ _ => self
  end.

(** * Decoding *)

(** Reading from a copy of the slice. *)
Definition peeking {A} (m : ST bytes RlpError A) : ST bytes RlpError A := λ r, (run m r, r).

(** The [while] loop; every round shortens the slice. *)
Fixpoint count_items (fuel : nat) (len_after_consume list_element_length : Z) : ST bytes RlpError Z := λ buf,
  match fuel with
  | O => (Panic, buf)
  | S fuel =>
      if decide (len buf > len_after_consume) then
        (header ← header_decode;
         _ ← advance (header : bool * Z).2;
         count_items fuel len_after_consume (list_element_length + 1)) buf
      else (Ok list_element_length, buf)
  end.
(** [Header::decode] ensures [payload_length <= buf.len()]. *)
Definition count_payload (payload_length : Z) : ST bytes RlpError Z := λ buf,
  count_items (S (length buf)) (len buf - payload_length) 0 buf.
Definition rlp_list_element_length : ST bytes RlpError Z :=
  '(list, payload_length) ← header_decode;
  if (list : bool) then count_payload payload_length else fail UnexpectedString.

Definition unpack_path_to_nibbles (first : option Z) (rest : bytes) : Nibbles :=
  option_list first ++ unpack rest.

(** [map_err(TrieNodeError::RLPError)]. *)
Definition rlp_node_error {A} (m : ST bytes RlpError A) : ST bytes TrieNodeError A := λ buf,
  let '(r, buf) := m buf in (map_err RLPError r, buf).

Definition try_decode_leaf_or_extension_payload (decode : ST bytes RlpError TrieNode)
    : ST bytes TrieNodeError TrieNode :=
  path ← rlp_node_error string_decode;
  path0 ← lift (index path 0);
  let first_nibble := Z.shiftr (b2z path0) NIBBLE_WIDTH in
  first ← (if decide (first_nibble = PREFIX_EXTENSION_ODD ∨ first_nibble = PREFIX_LEAF_ODD) then
             mret (Some (Z.land (b2z path0) 0x0F))
           else if decide (first_nibble = PREFIX_EXTENSION_EVEN ∨ first_nibble = PREFIX_LEAF_EVEN) then mret None
           else fail InvalidNodeType);
  if decide (first_nibble = PREFIX_EXTENSION_EVEN ∨ first_nibble = PREFIX_EXTENSION_ODD) then
    extension_node_value ← rlp_node_error decode;
    mret (Extension (unpack_path_to_nibbles first (drop 1 path)) extension_node_value)
  else
    value ← rlp_node_error string_decode;
    mret (Leaf (unpack_path_to_nibbles first (drop 1 path)) value).

(** [map_err(|_| UnexpectedList)]. *)
Definition unexpected_list {A} (m : ST bytes TrieNodeError A) : ST bytes RlpError A := λ buf,
  let '(r, buf) := m buf in (map_err (λ _, UnexpectedList) r, buf).

Fixpoint decode_with (fuel : nat) : ST bytes RlpError TrieNode :=
  match fuel with
  | O => panic
  | S fuel =>
      '(list, payload_length) ← peeking header_decode;
      if (list : bool) then
        list_length ← peeking rlp_list_element_length;
        if decide (list_length = Z.of_nat BRANCH_LIST_LENGTH) then
          list ← list_decode (decode_with fuel); mret (Branch list)
        else if decide (list_length = LEAF_OR_EXTENSION_LIST_LENGTH) then
          _ ← advance (length_of_length payload_length);
          unexpected_list (try_decode_leaf_or_extension_payload (decode_with fuel))
        else fail UnexpectedLength
      else if decide (payload_length = 0) then
        _ ← advance (length_of_length payload_length); mret Empty
      else if decide (payload_length = 32) then
        commitment ← hash_decode; mret (Blinded commitment)
      else fail UnexpectedLength
  end.
(** An embedded node is shorter than the node around it. *)
Definition decode : ST bytes RlpError TrieNode := λ buf, decode_with (S (length buf)) buf.
End codec.

(** * Lengths *)

Lemma node_ind (P : TrieNode → Prop) :
  P Empty → (∀ c, P (Blinded c)) → (∀ p v, P (Leaf p v)) → (∀ p node, P node → P (Extension p node)) →
  (∀ stack, Forall P stack → P (Branch stack)) → ∀ node, P node.
Proof.
  intros He Hb Hl Hx Hs. fix IH 1. intros [|c|p v|p node|stack]; [done|apply Hb|apply Hl|apply Hx, IH|apply Hs].
  induction stack as [|node stack IHs]; constructor; [apply IH|exact IHs].
Qed.

(** Nodes the codec is for: commitments are hashes, paths are nibbles, and the sizes are those of
    data in memory. *)
Inductive codable : TrieNode → Prop :=
| codable_empty : codable Empty
| codable_blinded c : len c = 32 → codable (Blinded c)
| codable_leaf p v : Forall nibble p → len p < 2 ^ 32 → len v < 2 ^ 32 → codable (Leaf p v)
| codable_extension p node : Forall nibble p → len p < 2 ^ 32 → codable node → codable (Extension p node)
| codable_branch stack : length stack = BRANCH_LIST_LENGTH → Forall codable stack → codable (Branch stack).

Section laws.
Context `{!Rlp} `{!RlpLaws} `{!Keccak} `{!PathCodec} `{!PathCodecLaws} `{!TrieHash}.
Context (Hkeccak : ∀ s, len (keccak256 s) = 32).

Lemma path_spec p is_leaf :
  Forall nibble p → ∃ b packed first,
    encode_path_leaf p is_leaf = b :: packed ∧ unpack_path_to_nibbles first packed = p
    ∧ len (b :: packed) = len p / 2 + 1 ∧ 0 <= b2z b < 0x40
    ∧ Z.shiftr (b2z b) NIBBLE_WIDTH = (if is_leaf then 2 else 0) + (if first then 1 else 0)
    ∧ (first = None ∨ first = Some (Z.land (b2z b) 0x0F)).
Proof.
  intros Hp. destruct (Nat.Even_or_Odd (length p)) as [He|[k Ho]].
  - destruct (encode_path_even p is_leaf Hp He) as (packed & -> & Hu & Hl). exists (z2b ((if is_leaf then 2 else 0) * 16)), packed, None.
    split_and!; [done|exact Hu| |by destruct is_leaf..|by left].
    rewrite len_cons, <- Hl, Z.mul_comm, Z.div_mul by lia. lia.
  - destruct p as [|x p]; [cbn in Ho; lia|]. cbn in Ho.
    assert (Nat.Even (length p)) as He by (exists k; lia).
    destruct (encode_path_odd x p is_leaf Hp He) as (packed & -> & Hu & Hl).
    apply Forall_cons in Hp as [Hx _]. unfold nibble in Hx.
    assert (b2z (z2b ((if is_leaf then 3 else 1) * 16 + x)) = (if is_leaf then 3 else 1) * 16 + x) as Hb.
    { rewrite b2z_z2b, Z.mod_small; [done|]. destruct is_leaf; lia. }
    exists (z2b ((if is_leaf then 3 else 1) * 16 + x)), packed, (Some x). rewrite Hb. split_and!.
    + done.
    + unfold unpack_path_to_nibbles. by rewrite Hu.
    + rewrite !len_cons, <- Hl. replace (1 + 2 * len packed) with (1 + len packed * 2) by lia.
      rewrite Z.div_add by lia. change (1 / 2) with 0. lia.
    + destruct is_leaf; lia.
    + destruct is_leaf; lia.
    + unfold NIBBLE_WIDTH. rewrite Z.shiftr_div_pow2 by lia. rewrite Z.add_comm, Z.div_add by lia.
      rewrite Z.div_small by lia. by destruct is_leaf.
    + right. change 0x0F with (Z.ones 4). rewrite Z.land_ones by lia.
      rewrite Z.add_comm, Z.mod_add, Z.mod_small by lia. done.
Qed.

Lemma string_nonempty s : rlp_size (len s) → string_encode s ≠ [].
Proof.
  intros Hs Hn. assert (rlp_size 0) as Hz by (unfold rlp_size; lia).
  pose proof (string_header s (header_encode true 0 ++ []) Hs) as Hf. rewrite Hn in Hf. cbn [app] in Hf.
  rewrite header_read in Hf by (done || apply len_nonneg). done.
Qed.
Lemma string_range s : rlp_size (len s) → 1 <= len (string_encode s).
Proof.
  intros Hs. pose proof (string_nonempty s Hs). pose proof (len_zero_nil (string_encode s)) as Hz.
  pose proof (len_nonneg (string_encode s)). destruct (decide (len (string_encode s) = 0)); naive_solver lia.
Qed.
Lemma hash_len s : len s = 32 → len (string_encode s) = 33.
Proof.
  intros Hs. rewrite string_len by (unfold rlp_size; lia). rewrite length_of_length_short by lia. lia.
Qed.

Lemma path_bytes_len p is_leaf : Forall nibble p → len (encode_path_leaf p is_leaf) = len p / 2 + 1.
Proof. intros Hp. by destruct (path_spec p is_leaf Hp) as (b & packed & first & -> & _ & Hl & _). Qed.

Lemma encoded_key_len_spec p is_leaf :
  Forall nibble p → len p < 2 ^ 32 →
  encoded_key_len p = len (string_encode (encode_path_leaf p is_leaf)) ∧ 1 <= encoded_key_len p < 2 ^ 33.
Proof.
  intros Hp Hl. pose proof (path_bytes_len p is_leaf Hp) as Hb. pose proof (len_nonneg p).
  pose proof (Z.div_pos (len p) 2 ltac:(lia) ltac:(lia)). pose proof (Z.div_le_upper_bound (len p) 2 (2 ^ 31) ltac:(lia) ltac:(lia)).
  unfold encoded_key_len. destruct (decide (len p / 2 + 1 = 1)) as [Hone|Hone].
  - destruct (path_spec p is_leaf Hp) as (b & packed & first & He & _ & Hl' & Hr & _). rewrite He in Hb |- *.
    rewrite len_cons in Hb. assert (packed = []) as -> by (apply len_zero_nil; lia).
    rewrite string_small by lia. rewrite Hone. done.
  - rewrite string_len by (rewrite ?Hb; unfold rlp_size; lia). rewrite Hb.
    pose proof (length_of_length_range (len p / 2 + 1) ltac:(unfold rlp_size; lia)). lia.
Qed.
Lemma value_len v : len v < 2 ^ 32 → string_length v = len (string_encode v) ∧ 1 <= string_length v < 2 ^ 33.
Proof.
  intros Hv. pose proof (len_nonneg v). assert (rlp_size (len v)) as Hs by (unfold rlp_size; lia).
  rewrite string_length_spec by done. split; [done|]. split; [by apply string_range|].
  destruct (decide (len v = 1)) as [Hone|Hone].
  - destruct v as [|b [|? ?]]; [done| |].
    2: { rewrite !len_cons in Hone. match type of Hone with _ + (_ + len ?w) = _ => pose proof (len_nonneg w) end. lia. }
    destruct (decide (b2z b < 0x80)); [by rewrite string_small|rewrite string_single by lia; lia].
  - rewrite string_len by done. pose proof (length_of_length_range (len v) Hs). lia.
Qed.

Lemma len_mjoin_fmap (f : TrieNode → Z) (g : TrieNode → bytes) l a :
  Forall (λ node, f node = len (g node)) l → foldl (λ acc node, acc + f node) a l = a + len (mjoin (g <$> l)).
Proof.
  intros Hf. revert a. induction Hf as [|x l Hx _ IH]; intros a; cbn [foldl]; [cbn; by rewrite Z.add_0_r|].
  change (mjoin (g <$> x :: l)) with (g x ++ mjoin (g <$> l)). rewrite IH, len_app, Hx. lia.
Qed.
Lemma len_mjoin_bound (l : list bytes) k :
  0 <= k → Forall (λ s, len s <= k) l → 0 <= len (mjoin l) <= k * len l.
Proof.
  intros Hk. induction 1 as [|x l Hx _ IH].
  { unfold len. cbn. lia. }
  change (mjoin (x :: l)) with (x ++ mjoin l).
  rewrite len_app, len_cons. pose proof (len_nonneg x). lia.
Qed.

(** The computed length of a node is that of its encoding. *)
Definition length_ok (node : TrieNode) : Prop :=
  node_length node = len (encode node) ∧ 1 <= node_length node.

Lemma child_len node :
  codable node → length_ok node →
  blinded_length node = len (encode_child node (encode node)) ∧ 1 <= blinded_length node <= 33.
Proof.
  intros Hc [Hl Hr]. unfold blinded_length, blinded_length_with, encode_child.
  destruct (decide (node_length node >= 32)) as [Hge|Hlt]; [|lia].
  rewrite string_length_spec, hash_len by done. destruct node as [|c|p v|p node|stack].
  - by change (node_length Empty) with 1 in Hge.
  - inversion Hc. cbn [blind_with]. rewrite hash_len by done. lia.
  - cbn [blind_with]. rewrite hash_len by done. lia.
  - cbn [blind_with]. rewrite hash_len by done. lia.
  - cbn [blind_with]. rewrite hash_len by done. lia.
Qed.

Lemma length_of_list payload n body :
  n = len body → rlp_size n → payload = header_encode true n ++ body →
  length_of_length n + n = len payload ∧ 1 <= length_of_length n + n.
Proof.
  intros -> Hn ->. rewrite len_app, header_len by done.
  pose proof (length_of_length_range _ Hn). pose proof (len_nonneg body). lia.
Qed.

Lemma payload_spec node :
  codable node → length_ok node ∧
  match node with
  | Empty | Blinded _ => True
  | Leaf p v => payload_length node = len (string_encode (encode_path_leaf p true) ++ string_encode v) ∧ rlp_size (payload_length node)
  | Extension p child =>
      payload_length node = len (string_encode (encode_path_leaf p false) ++ encode_child child (encode child))
      ∧ rlp_size (payload_length node)
  | Branch stack =>
      payload_length node = len (mjoin ((λ node, encode_child node (encode node)) <$> stack)) ∧ rlp_size (payload_length node)
  end.
Proof.
  induction node as [|c|p v|p node IH|stack IH] using node_ind; intros Hc.
  - by repeat split.
  - inversion Hc; subst. split; [|done]. unfold length_ok. change (node_length (Blinded c)) with (string_length c).
    cbn [encode]. rewrite string_length_spec by (unfold rlp_size; lia). rewrite hash_len by done. lia.
  - inversion Hc; subst. destruct (encoded_key_len_spec p true) as [Hk Hkr]; [done..|].
    destruct (value_len v) as [Hv Hvr]; [done|].
    assert (payload_length (Leaf p v) = len (string_encode (encode_path_leaf p true) ++ string_encode v)) as Hp.
    { cbn [payload_length]. rewrite len_app. lia. }
    assert (rlp_size (payload_length (Leaf p v))) as Hs by (cbn [payload_length]; unfold rlp_size; lia).
    split; [|done]. by eapply length_of_list.
  - inversion Hc; subst. destruct IH as [Hok _]; [done|]. destruct (child_len node) as [Hn Hnr]; [done..|].
    destruct (encoded_key_len_spec p false) as [Hk Hkr]; [done..|].
    change (blinded_length_with (length_with (payload_length node) node)) with (blinded_length node) in *.
    assert (payload_length (Extension p node) = encoded_key_len p + blinded_length node) as Hpl by done.
    assert (payload_length (Extension p node) = len (string_encode (encode_path_leaf p false) ++ encode_child node (encode node))) as Hp.
    { rewrite Hpl, len_app. lia. }
    assert (rlp_size (payload_length (Extension p node))) as Hs by (rewrite Hpl; unfold rlp_size; lia).
    split; [|done]. by eapply length_of_list.
  - inversion Hc as [| | | |? Hl Hf]; subst.
    assert (Forall (λ node, blinded_length node = len (encode_child node (encode node)) ∧ 1 <= blinded_length node <= 33) stack) as Hall.
    { apply Forall_forall. intros node Hin. rewrite Forall_forall in IH, Hf.
      apply child_len; [by apply Hf|]. by apply IH; [|apply Hf]. }
    assert (payload_length (Branch stack) = len (mjoin ((λ node, encode_child node (encode node)) <$> stack))) as Hp.
    { change (payload_length (Branch stack)) with (foldl (λ acc node, acc + blinded_length node) 0 stack).
      rewrite (len_mjoin_fmap blinded_length (λ node, encode_child node (encode node))); [lia|]. eapply Forall_impl; [exact Hall|]. by intros ? [? _]. }
    assert (rlp_size (payload_length (Branch stack))) as Hs.
    { rewrite Hp. pose proof (len_mjoin_bound ((λ node, encode_child node (encode node)) <$> stack) 33 ltac:(lia)) as Hb.
      unfold rlp_size. assert (len ((λ node, encode_child node (encode node)) <$> stack) = 17) as Hl17.
      { unfold len. rewrite length_fmap, Hl. done. }
      rewrite Hl17 in Hb. destruct Hb as [Hb0 Hb1]; [|lia]. apply Forall_fmap. eapply Forall_impl; [exact Hall|].
      cbn. intros ? [<- ?]. lia. }
    split; [|done]. by eapply length_of_list.
Qed.

(** * Decoding what was encoded *)

Lemma run_peek {A B} (m : ST bytes RlpError A) (k : A → ST bytes RlpError B) r a r' :
  m r = (Ok a, r') → (peeking m ≫= k) r = k a r.
Proof. intros Hm. rewrite bind_run. unfold peeking, run. by rewrite Hm. Qed.

Definition is_item (s : bytes) : Prop :=
  s ≠ [] ∧ ∀ rest, ∃ list body, header_decode (s ++ rest) = (Ok (list, len body), body ++ rest).

Lemma string_item s : rlp_size (len s) → is_item (string_encode s).
Proof. intros Hs. split; [by apply string_nonempty|]. intros rest. exists false, s. by apply string_header. Qed.
Lemma list_item body : rlp_size (len body) → is_item (header_encode true (len body) ++ body).
Proof.
  intros Hs. split.
  - intros Hn. apply (f_equal len) in Hn. rewrite len_app, header_len in Hn by done.
    pose proof (length_of_length_range _ Hs). pose proof (len_nonneg body). change (len []) with 0 in Hn. lia.
  - intros rest. exists true, body. rewrite <- app_assoc. apply header_read; [done|]. rewrite len_app.
    pose proof (len_nonneg rest). lia.
Qed.

Lemma count_items_run fuel items rest k :
  Forall is_item items → (length (mjoin items) < fuel)%nat →
  count_items fuel (len rest) k (mjoin items ++ rest) = (Ok (k + len items), rest).
Proof.
  intros Hi. revert fuel k. induction Hi as [|s items [Hne Hs] _ IH]; intros [|fuel] k Hf; try lia; cbn [count_items].
  - cbn [mjoin list_join app]. rewrite decide_False by lia. cbn. by rewrite Z.add_0_r.
  - change (mjoin (s :: items)) with (s ++ mjoin items) in *. rewrite <- app_assoc. rewrite length_app in Hf.
    assert (0 < len s) by (destruct s; [done|]; rewrite len_cons; pose proof (len_nonneg s); lia).
    rewrite !len_app. pose proof (len_nonneg (mjoin items)). rewrite decide_True by lia.
    destruct (Hs (mjoin items ++ rest)) as (list & body & Hd). rewrite (run_op _ _ _ _ _ Hd). cbn [snd].
    rewrite (run_op _ _ _ _ _ (advance_app body _ _ eq_refl)). rewrite IH by (unfold len in *; lia).
    rewrite len_cons. do 2 f_equal. lia.
Qed.
Lemma list_length_run items rest :
  Forall is_item items → rlp_size (len (mjoin items)) →
  rlp_list_element_length (header_encode true (len (mjoin items)) ++ mjoin items ++ rest) = (Ok (len items), rest).
Proof.
  intros Hi Hs. unfold rlp_list_element_length. pose proof (len_nonneg rest).
  rewrite (run_op _ _ _ _ _ (header_read _ (mjoin items ++ rest) Hs ltac:(rewrite len_app; lia))).
  unfold count_payload. cbn iota beta. rewrite len_app. replace (len (mjoin items) + len rest - len (mjoin items)) with (len rest) by lia.
  rewrite count_items_run; [done..|]. rewrite length_app. lia.
Qed.

Lemma decode_hash fuel s rest : len s = 32 → decode_with (S fuel) (string_encode s ++ rest) = (Ok (Blinded s), rest).
Proof.
  intros Hs. cbn [decode_with]. rewrite (run_peek _ _ _ _ _ (string_header s rest ltac:(unfold rlp_size; lia))).
  cbn iota beta. rewrite decide_False, decide_True by lia.
  by rewrite (run_op _ _ _ _ _ (hash_read s rest Hs)).
Qed.
Lemma decode_empty fuel rest : decode_with (S fuel) (EMPTY_STRING_CODE :: rest) = (Ok Empty, rest).
Proof.
  change (EMPTY_STRING_CODE :: rest) with ([z2b 0x80] ++ rest). rewrite <- string_empty.
  cbn [decode_with]. rewrite (run_peek _ _ _ _ _ (string_header [] rest (conj (Z.le_refl 0) eq_refl))).
  cbn iota beta. change (len []) with 0. rewrite decide_True by done.
  rewrite (length_of_length_short 0), string_empty by lia. rewrite (run_op _ _ _ _ _ (advance_app [z2b 0x80] rest 1 eq_refl)). done.
Qed.

(** What [decode] does with a list: its items are counted, and its header skipped. *)
Lemma decode_list fuel items rest :
  Forall is_item items → rlp_size (len (mjoin items)) →
  decode_with (S fuel) (header_encode true (len (mjoin items)) ++ mjoin items ++ rest) =
    if decide (len items = 17) then
      (list ← list_decode (decode_with fuel); mret (Branch list))
        (header_encode true (len (mjoin items)) ++ mjoin items ++ rest)
    else if decide (len items = 2) then
      unexpected_list (try_decode_leaf_or_extension_payload (decode_with fuel)) (mjoin items ++ rest)
    else (Err UnexpectedLength, header_encode true (len (mjoin items)) ++ mjoin items ++ rest).
Proof.
  intros Hi Hs. cbn [decode_with]. pose proof (len_nonneg rest).
  rewrite (run_peek _ _ _ _ _ (header_read _ (mjoin items ++ rest) Hs ltac:(rewrite len_app; lia))). cbn iota beta.
  rewrite (run_peek _ _ _ _ _ (list_length_run items rest Hi Hs)).
  change (Z.of_nat BRANCH_LIST_LENGTH) with 17. unfold LEAF_OR_EXTENSION_LIST_LENGTH.
  destruct (decide _); [done|]. destruct (decide _); [|done].
  rewrite (run_op _ _ _ _ _ (advance_app (header_encode true (len (mjoin items))) _ _ (eq_sym (header_len _ _ Hs)))).
  done.
Qed.

(** The items of the list a node is encoded as. *)
Definition node_items (node : TrieNode) : list bytes :=
  match node with
  | Empty | Blinded _ => []
  | Leaf p v => [string_encode (encode_path_leaf p true); string_encode v]
  | Extension p child => [string_encode (encode_path_leaf p false); encode_child child (encode child)]
  | Branch stack => (λ node, encode_child node (encode node)) <$> stack
  end.

Lemma encode_list node :
  codable node → match node with Empty | Blinded _ => False | _ => True end →
  encode node = header_encode true (len (mjoin (node_items node))) ++ mjoin (node_items node)
  ∧ rlp_size (len (mjoin (node_items node))).
Proof.
  intros [_ Hp]%payload_spec Hn.
  destruct node as [|c|p v|p node|stack]; [done|done|..]; destruct Hp as [Hp Hs]; cbn [node_items encode];
    rewrite Hp in *; cbn [mjoin list_join]; rewrite ?app_nil_r; done.
Qed.
Lemma child_item child : codable child → is_item (encode child) → is_item (encode_child child (encode child)).
Proof.
  intros Hc Hi. unfold encode_child. destruct (decide _) as [Hge|]; [|done]. apply string_item.
  destruct child; cbn [blind_with]; rewrite ?Hkeccak; unfold rlp_size; try lia; [done|inversion Hc; lia].
Qed.
Lemma path_item p is_leaf :
  Forall nibble p → len p < 2 ^ 32 → is_item (string_encode (encode_path_leaf p is_leaf)) ∧ rlp_size (len (encode_path_leaf p is_leaf)).
Proof.
  intros Hp Hl. assert (rlp_size (len (encode_path_leaf p is_leaf))) as Hs; [|split; [by apply string_item|done]].
  rewrite path_bytes_len by done. pose proof (len_nonneg p). pose proof (Z.div_le_upper_bound (len p) 2 (2 ^ 31) ltac:(lia) ltac:(lia)).
  pose proof (Z.div_pos (len p) 2 ltac:(lia) ltac:(lia)). unfold rlp_size. lia.
Qed.
Lemma value_item v : len v < 2 ^ 32 → is_item (string_encode v) ∧ rlp_size (len v).
Proof. intros Hv. pose proof (len_nonneg v). assert (rlp_size (len v)) by (unfold rlp_size; lia). by split; [apply string_item|]. Qed.

Lemma node_items_ok node : codable node → is_item (encode node) ∧ Forall is_item (node_items node).
Proof.
  induction node as [|c|p v|p node IH|stack IH] using node_ind; intros Hc; pose proof Hc as Hc'; inversion Hc; subst; cbn [node_items].
  - split; [|done]. change (encode Empty) with [z2b 0x80]. rewrite <- string_empty. by apply string_item.
  - split; [|done]. apply string_item. unfold rlp_size. lia.
  - destruct (encode_list _ Hc' I) as [-> Hs]. split; [by apply list_item|].
    constructor; [by apply path_item|]. constructor; [by apply value_item|done].
  - destruct (encode_list _ Hc' I) as [-> Hs]. split; [by apply list_item|].
    constructor; [by apply path_item|]. constructor; [|done]. apply child_item; [done|]. by apply IH.
  - destruct (encode_list _ Hc' I) as [-> Hs]. split; [by apply list_item|]. apply Forall_fmap.
    eapply Forall_impl; [apply Forall_and; split; [exact IH|eassumption]|]. cbn. intros node [Hi Hn].
    apply child_item; [done|]. by apply Hi.
Qed.

Lemma try_decode_leaf dec p v rest :
  Forall nibble p → len p < 2 ^ 32 → len v < 2 ^ 32 →
  try_decode_leaf_or_extension_payload dec (string_encode (encode_path_leaf p true) ++ string_encode v ++ rest)
  = (Ok (Leaf p v), rest).
Proof.
  intros Hp Hl Hv. destruct (path_item p true Hp Hl) as [_ Hs]. destruct (value_item v Hv) as [_ Hvs].
  unfold try_decode_leaf_or_extension_payload.
  assert (∀ s r, rlp_size (len s) → rlp_node_error string_decode (string_encode s ++ r) = (Ok s, r)) as Hread.
  { intros s r Hr. unfold rlp_node_error. by rewrite string_read. }
  rewrite (run_op _ _ _ _ _ (Hread _ _ Hs)).
  destruct (path_spec p true Hp) as (b & packed & first & -> & Hu & _ & Hr & Hsh & Hf).
  rewrite (run_lift_Ok _ _ _ b) by done. rewrite Hsh. cbn [drop].
  unfold PREFIX_EXTENSION_ODD, PREFIX_LEAF_ODD, PREFIX_EXTENSION_EVEN, PREFIX_LEAF_EVEN.
  destruct first as [x|].
  - rewrite decide_True by (right; done). destruct Hf as [|[= ->]]; [done|]. rewrite bind_run. cbn -[unpack_path_to_nibbles Z.land].
    rewrite decide_False by lia. rewrite (run_op _ _ _ _ _ (Hread _ _ Hvs)). by rewrite drop_0, Hu.
  - rewrite decide_False, decide_True by (lia || by right). rewrite bind_run. cbn -[unpack_path_to_nibbles].
    rewrite decide_False by lia. rewrite (run_op _ _ _ _ _ (Hread _ _ Hvs)). by rewrite drop_0, Hu.
Qed.
Lemma try_decode_extension dec p item child rest :
  Forall nibble p → len p < 2 ^ 32 → dec (item ++ rest) = (Ok child, rest) →
  try_decode_leaf_or_extension_payload dec (string_encode (encode_path_leaf p false) ++ item ++ rest)
  = (Ok (Extension p child), rest).
Proof.
  intros Hp Hl Hd. destruct (path_item p false Hp Hl) as [_ Hs]. unfold try_decode_leaf_or_extension_payload.
  assert (rlp_node_error string_decode (string_encode (encode_path_leaf p false) ++ item ++ rest)
    = (Ok (encode_path_leaf p false), item ++ rest)) as Hread.
  { unfold rlp_node_error. by rewrite string_read. }
  rewrite (run_op _ _ _ _ _ Hread).
  assert (rlp_node_error dec (item ++ rest) = (Ok child, rest)) as Hdec by (unfold rlp_node_error; by rewrite Hd).
  destruct (path_spec p false Hp) as (b & packed & first & -> & Hu & _ & Hr & Hsh & Hf).
  rewrite (run_lift_Ok _ _ _ b) by done. rewrite Hsh. cbn [drop].
  unfold PREFIX_EXTENSION_ODD, PREFIX_LEAF_ODD, PREFIX_EXTENSION_EVEN, PREFIX_LEAF_EVEN.
  destruct first as [x|].
  - rewrite decide_True by (left; done). destruct Hf as [|[= ->]]; [done|]. rewrite bind_run. cbn -[unpack_path_to_nibbles Z.land].
    rewrite decide_True by lia. rewrite (run_op _ _ _ _ _ Hdec). by rewrite drop_0, Hu.
  - rewrite decide_False, decide_True by (lia || by left). rewrite bind_run. cbn -[unpack_path_to_nibbles].
    rewrite decide_True by lia. rewrite (run_op _ _ _ _ _ Hdec). by rewrite drop_0, Hu.
Qed.

(** [decode] reads [node] back, up to the children it hashed, with fuel for its length. *)
Definition decodes (node : TrieNode) : Prop :=
  ∀ fuel rest, (length (encode node) <= fuel)%nat → decode_with fuel (encode node ++ rest) = (Ok (shortened node), rest).

Lemma child_decodes child fuel rest :
  codable child → decodes child → (length (encode_child child (encode child)) <= fuel)%nat →
  decode_with fuel (encode_child child (encode child) ++ rest) = (Ok (shorten_child child (shortened child)), rest).
Proof.
  intros Hc Hd Hf. unfold encode_child, shorten_child in *. destruct (decide (node_length child >= 32)) as [Hge|Hlt]; [|by apply Hd].
  assert (len (blind_with (encode child) child) = 32) as Hb.
  { destruct child; cbn [blind_with]; rewrite ?Hkeccak; try done. by inversion Hc. }
  pose proof (hash_len _ Hb). destruct fuel as [|fuel]; [unfold len in *; lia|].
  rewrite decode_hash by done. done.
Qed.

Lemma item_shorter fuel items item :
  rlp_size (len (mjoin items)) → item ∈ items →
  (length (header_encode true (len (mjoin items)) ++ mjoin items) <= S fuel)%nat → (length item <= fuel)%nat.
Proof.
  intros Hs Hi Hf. rewrite length_app in Hf. pose proof (header_len true _ Hs) as Hl. unfold len in Hl at 1.
  pose proof (length_of_length_range _ Hs). apply list_elem_of_split in Hi as (l1 & l2 & ->).
  rewrite join_app in *. change (mjoin (item :: l2)) with (item ++ mjoin l2) in *. rewrite !length_app in Hf. lia.
Qed.

Lemma fuel_pos fuel node : codable node → (length (encode node) <= fuel)%nat → ∃ fuel', fuel = S fuel'.
Proof.
  intros [[Hl Hr] _]%payload_spec Hf. destruct fuel as [|fuel]; [|by eexists]. unfold len in Hl. lia.
Qed.

Lemma decode_node node : codable node → decodes node.
Proof.
  induction node as [|c|p v|p node IH|stack IH] using node_ind; intros Hc fuel rest Hf;
    destruct (fuel_pos _ _ Hc Hf) as [fuel' ->]; pose proof Hc as Hc'; inversion Hc; subst.
  - apply decode_empty.
  - by apply decode_hash.
  - destruct (encode_list _ Hc' I) as [He Hs]. rewrite He, <- app_assoc, decode_list by (done || by apply node_items_ok).
    cbn [node_items]. rewrite decide_False, decide_True by done. unfold unexpected_list.
    cbn [mjoin list_join]. rewrite app_nil_r, <- app_assoc, try_decode_leaf by done. done.
  - destruct (encode_list _ Hc' I) as [He Hs]. rewrite He, <- app_assoc, decode_list by (done || by apply node_items_ok).
    cbn [node_items]. rewrite decide_False, decide_True by done. unfold unexpected_list.
    cbn [mjoin list_join]. rewrite app_nil_r, <- app_assoc.
    rewrite (try_decode_extension (decode_with fuel') p _ (shorten_child node (shortened node))); [|done..|].
    + done.
    + apply child_decodes; [done|by apply IH|]. rewrite He in Hf.
      apply (item_shorter fuel' _ _ Hs); [|done]. cbn. apply elem_of_cons; right. by apply elem_of_cons; left.
  - destruct (encode_list _ Hc' I) as [He Hs]. rewrite He, <- app_assoc, decode_list by (done || by apply node_items_ok).
    rewrite decide_True by (unfold len; cbn [node_items]; by rewrite length_fmap, H6).
    assert (Forall2 (λ item x, item ≠ [] ∧ ∀ rest, decode_with fuel' (item ++ rest) = (Ok x, rest)) (node_items (Branch stack))
      ((λ node, shorten_child node (shortened node)) <$> stack)) as Hall.
    { cbn [node_items]. apply Forall2_fmap, Forall_Forall2_diag, Forall_forall. intros node Hin.
      rewrite Forall_forall in IH, H7. split; [apply child_item; [by apply H7|by apply node_items_ok, H7]|].
      intros rest'. apply child_decodes; [by apply H7|by apply IH; [|apply H7]|]. rewrite He in Hf.
      apply (item_shorter fuel' _ _ Hs); [|done]. cbn [node_items]. by apply (list_elem_of_fmap_2 (λ node, encode_child node (encode node))). }
    rewrite (run_op _ _ _ _ _ (list_read _ _ _ rest Hall Hs)). done.
Qed.
End laws.

(** * The oracle-backed provider *)

(** [oracle.get(PreimageKey::new(key, Keccak256))], an error given by its text. *)
Class PreimageOracle := { oracle_get : B256 → outcome string bytes; rlp_text : RlpError → string }.

Section oracle.
Context `{!Rlp} `{!Keccak} `{!PathCodec} `{!TrieHash} `{!PreimageOracle}.

(** [trie_node_by_hash] of [OracleL1ChainProvider] and [OracleL2ChainProvider]. *)
Definition oracle_trie_node_by_hash (key : B256) : outcome string TrieNode :=
  data ← oracle_get key; map_err rlp_text (run decode data).
#[local] Instance oracle_provider : TrieProvider := oracle_trie_node_by_hash.

(** The oracle serves the encoding of a node, whose hash is not that of the empty trie. *)
Definition served (node : TrieNode) : Prop :=
  oracle_get (blind node) = Ok (encode node) ∧ blind node ≠ EMPTY_ROOT_HASH.

(** It serves every node of the trie that its parent refers to by hash. *)
Inductive available : TrieNode → Prop :=
| available_empty : available Empty
| available_leaf p v : available (Leaf p v)
| available_extension p node : available node → (node_length node >= 32 → served node) → available (Extension p node)
| available_branch stack :
    Forall available stack → Forall (λ node, node_length node >= 32 → served node) stack → available (Branch stack).

Fixpoint height (node : TrieNode) : nat :=
  match node with
  | Extension _ node => S (height node)
  | Branch stack => S (max_list (height <$> stack))
  | Empty | Blinded _ | Leaf _ _ => O
  end.

Context `{!RlpLaws} `{!PathCodecLaws} (Hkeccak : ∀ s, len (keccak256 s) = 32).

Lemma unblind_served node :
  codable node → served node → unblind (Blinded (blind node)) = (Ok tt, shortened node).
Proof.
  intros Hc [Ho Hb]. cbn [unblind]. rewrite decide_False by done.
  unfold trie_node_by_hash, oracle_provider, oracle_trie_node_by_hash. rewrite Ho. cbn [mbind outcome_bind].
  unfold run, decode. pose proof (decode_node Hkeccak node Hc (S (length (encode node))) [] ltac:(lia)) as Hd.
  rewrite app_nil_r in Hd. by rewrite Hd.
Qed.

(** A child of a trie whose nodes are served reveals to itself. *)
Lemma shorten_child_reveals fuel node :
  codable node → (node_length node >= 32 → served node) → is_blinded node = false →
  reveal fuel (shortened node) = Ok node → child_reveals (S fuel) (shorten_child node (shortened node)) node.
Proof.
  intros Hc Hs Hb Hr. unfold shorten_child. destruct (decide _) as [Hge|_].
  - split.
    + cbn [reveal]. by rewrite unblind_served by auto.
    + intros _. by destruct node.
  - split; [apply (reveal_mono fuel); [done|lia]|]. by destruct node.
Qed.

Lemma shortened_reveals node : ∀ n,
  wf n node → codable node → available node → reveal (S (2 * height node)) (shortened node) = Ok node.
Proof.
  induction node as [|c|p v|p node IH|stack IH] using node_ind; intros n Hw Hc Ha; [done|by inversion Hw|done|..].
  - apply wf_extension_inv in Hw as (n' & _ & _ & _ & [stack ->] & Hw). inversion Hc as [| | |? ? _ _ Hcn|]; subst.
    inversion Ha as [| |? ? Han Hsn|]; subst. 
    apply reveal_extension. eexists. split; [done|].
    change (height (Extension p (Branch stack))) with (S (height (Branch stack))).
    replace (2 * S (height (Branch stack)))%nat with (S (S (2 * height (Branch stack)))) by lia.
    refine (proj1 (shorten_child_reveals _ _ Hcn Hsn eq_refl _)). by apply (IH n').
  - apply wf_branch_inv in Hw as (n' & _ & _ & _ & Hw & _). inversion Hc as [| | | |? _ Hcs]; subst.
    inversion Ha as [| | |? Has Hss]; subst. cbn [height shortened]. apply reveal_branch. eexists. split; [done|].
    apply Forall2_fmap_l, Forall_Forall2_diag, Forall_forall. intros node Hin. rewrite !Forall_forall in *.
    assert (height node <= max_list (height <$> stack))%nat as Hle.
    { apply max_list_elem_of_le. by apply list_elem_of_fmap_2. }
    apply (child_reveals_weaken (S (S (2 * height node)))); [|lia].
    apply shorten_child_reveals; [by apply Hcs|by apply Hss| |by apply (IH _ Hin n'); auto].
    specialize (Hw _ Hin). destruct node; try done. by inversion Hw.
Qed.

(** The root of a trie the oracle serves. *)
Lemma committed_reveals n t :
  wf n t → codable t → available t → (is_empty t = false → served t) →
  reveal (S (S (2 * height t))) (Blinded (blind t)) = Ok t.
Proof.
  intros Hw Hc Ha Hs. cbn [reveal]. destruct (is_empty t) eqn:He.
  - destruct t; try done. change (blind Empty) with EMPTY_ROOT_HASH. cbn [unblind]. by rewrite decide_True.
  - rewrite unblind_served by auto. by apply (shortened_reveals t n).
Qed.

(** C17. Reading from a commitment: when the oracle serves the nodes of a well-formed trie by their
    hashes, opening a key at the root commitment alone fetches and decodes what it needs and
    returns the value of the key in the trie, or nothing when it has none. *)
Theorem committed_trie_opens n t path :
  wf n t → codable t → available t → (is_empty t = false → served t) → key n path →
  ∃ node', open (S (S (2 * height t))) path (Blinded (blind t)) = (Ok (get t path), node').
Proof.
  intros Hw Hc Ha Hs Hk. pose proof (committed_reveals n t Hw Hc Ha Hs) as Hr.
  destruct (open_reveal _ _ _ _ _ Hr Hw Hk) as (node' & Ho & _). by exists node'.
Qed.
End oracle.

(** C8. The node codec: a node decodes to itself up to the children its encoding refers to by
    hash, the bytes after it are left in place, and the length the code computes without
    encoding is the length of the encoding. *)
Theorem node_codec_roundtrip `{!Rlp} `{!RlpLaws} `{!Keccak} `{!PathCodec} `{!PathCodecLaws} `{!TrieHash} node rest :
  (∀ s, len (keccak256 s) = 32) → codable node →
  decode (encode node ++ rest) = (Ok (shortened node), rest) ∧ node_length node = len (encode node).
Proof.
  intros Hk Hc. split.
  - unfold decode. apply (decode_node Hk node Hc). rewrite length_app. lia.
  - by destruct (payload_spec Hk node Hc) as [[Hl _] _].
Qed.

(** * The hex-prefix coding, and a trie with a hashed child *)

Module Concrete.
#[local] Instance keccak : Keccak := λ s, be_bytes 32 (len s).
#[local] Instance empty_root : TrieHash := replicate 32 byte0.
Fixpoint unpacked (s : bytes) : list Z :=
  match s with b :: s => b2z b / 16 :: b2z b mod 16 :: unpacked s | [] => [] end.
#[local] Instance paths : PathCodec := {|
  unpack := unpacked;
  encode_path_leaf p is_leaf :=
    if Nat.even (length p) then z2b ((if is_leaf then 2 else 0) * 16) :: Small.packed p
    else match p with
         | x :: p => z2b ((if is_leaf then 3 else 1) * 16 + x) :: Small.packed p
         | [] => []
         end;
|}.

Lemma packed_spec k : ∀ p, length p = (2 * k)%nat → Forall nibble p →
  unpacked (Small.packed p) = p ∧ 2 * len (Small.packed p) = len p.
Proof.
  induction k as [|k IH]; intros p Hl Hp; [by destruct p|].
  destruct p as [|x [|y p]]; [cbn in Hl; lia..|]. apply Forall_cons in Hp as [Hx [Hy Hp]%Forall_cons].
  destruct (IH p) as [Hu Hn]; [cbn in Hl; lia|done|]. unfold nibble in *. cbn [Small.packed unpacked].
  rewrite b2z_z2b, Z.mod_small by lia. rewrite Hu, !len_cons, Z.add_comm, Z.mod_add, Z.mod_small by lia.
  rewrite Z.div_add, Z.div_small by lia. split; [done|lia].
Qed.
#[local] Instance path_laws : PathCodecLaws.
Proof.
  split; cbn [unpack encode_path_leaf paths].
  - intros p is_leaf Hp [k Hk]. rewrite Hk, Nat.even_mul. cbn. destruct (packed_spec k p Hk Hp) as [Hu Hl]. by eexists.
  - intros x p is_leaf [Hx Hp]%Forall_cons [k Hk]. cbn [length]. rewrite Nat.even_succ, Hk, Nat.odd_mul. cbn.
    destruct (packed_spec k p Hk Hp) as [Hu Hl]. by eexists.
Qed.

(** A branch over a hashed leaf of forty bytes and an embedded one. *)
Definition long : TrieNode := Leaf [] (replicate 40 byte1).
Definition trie : TrieNode := Branch (Small.stack long (Leaf [] [])).
#[local] Instance oracle : PreimageOracle := {|
  oracle_get hash := if decide (hash = blind trie) then Ok (encode trie)
                     else if decide (hash = blind long) then Ok (encode long) else Err "missing"%string;
  rlp_text _ := "rlp"%string;
|}.

Lemma hash_32 s : len (keccak256 s) = 32.
Proof. unfold keccak256, keccak, len. by rewrite length_be_bytes. Qed.
Lemma trie_wf : wf 1 trie.
Proof.
  apply wf_branch; [done|done| |vm_compute; lia]. unfold Small.stack.
  repeat apply Forall_insert; [apply Forall_replicate, wf_empty|apply (wf_leaf [])..]; done.
Qed.
Lemma trie_codable : codable trie.
Proof.
  apply codable_branch; [done|]. unfold Small.stack.
  repeat apply Forall_insert; [apply Forall_replicate, codable_empty|apply codable_leaf..]; done.
Qed.
Lemma long_served : served long.
Proof. split; [by vm_compute|by vm_compute]. Qed.
Lemma trie_served : served trie.
Proof. split; [by vm_compute|by vm_compute]. Qed.
Lemma trie_available : available trie.
Proof.
  apply available_branch; unfold Small.stack; repeat apply Forall_insert.
  - apply Forall_replicate, available_empty.
  - apply available_leaf.
  - apply available_leaf.
  - apply Forall_replicate. by vm_compute.
  - by vm_compute.
  - intros _. apply long_served.
Qed.
End Concrete.
#[local] Existing Instances oracle_provider Concrete.keccak Concrete.empty_root Concrete.paths Concrete.path_laws Concrete.oracle.

Lemma committed_trie_opens_witness :
  ∃ node', open (S (S (2 * height Concrete.trie))) [3] (Blinded (blind Concrete.trie))
    = (Ok (Some (replicate 40 byte1)), node').
Proof.
  apply (committed_trie_opens Concrete.hash_32 1 Concrete.trie [3]);
    [apply Concrete.trie_wf|apply Concrete.trie_codable|apply Concrete.trie_available|intros _; apply Concrete.trie_served|].
  split; [done|]. by repeat constructor.
Defined.

Lemma node_codec_roundtrip_witness :
  shortened Concrete.trie = Branch (Small.stack (Blinded (blind Concrete.long)) (Leaf [] [])) ∧
  decode (encode Concrete.trie ++ [byte1]) = (Ok (shortened Concrete.trie), [byte1])
  ∧ node_length Concrete.trie = len (encode Concrete.trie).
Proof.
  split; [by vm_compute|]. apply (node_codec_roundtrip Concrete.trie [byte1]); [apply Concrete.hash_32|apply Concrete.trie_codable].
Defined.

(** A list of two items whose first is the empty string stops the decoder: it reads the first
    byte of the path without testing that there is one. *)
Example empty_path_panics : (decode (z2b <$> [0xC2; 0x80; 0x80])).1 = Panic.
Proof. reflexivity. Qed.
