(* ===== verification/ListWalker.v ===== *)
(** Walking a derivable ordered list (src/crates/proof/mpt/src/list_walker.rs, util.rs).

    The items of an L1 block (transactions, receipts) are the leaves of a trie keyed by the RLP
    of their index, so a traversal meets them in the order of [adjust_index_for_rlp]; [hydrate]
    rotates the first item back.  The theorem: what was put into the trie in the order of
    [adjust_index_for_rlp] is iterated in the original order. *)
From Stdlib Require Import Sorted.
From stdpp Require Import sorting.
From S2P Require Import Prelude Blocks Reader Rlp Mpt MptReveal.
#[local] Open Scope Z_scope.

Inductive OrderedListWalkerError :=
| AlreadyHydrated
| TrieNodeE (e : TrieNodeError).

(** An entry is the rest of the leaf's path and its value. *)
Abbreviation Entry := (bytes * bytes)%type.

Record OrderedListWalker := mkWalker { w_root : B256; w_inner : option (list Entry) }.
Definition set_inner (inner : option (list Entry)) (self : OrderedListWalker) : OrderedListWalker :=
  mkWalker (w_root self) inner.

Definition new (root : B256) : OrderedListWalker := mkWalker root None.

Definition adjust_index_for_rlp (i len : Z) : Z :=
  if decide (i > 0x7f) then i else if decide (i = 0x7f ∨ i + 1 = len) then 0 else i + 1.

Section walker.
Context `{!TrieProvider}.

Definition get_trie_node (hash : B256) : outcome OrderedListWalkerError TrieNode :=
  map_err TrieNodeE (map_err Provider (trie_node_by_hash hash)).

(** [append]ing the results of a loop. *)
Fixpoint append_all {A} (f : A → outcome OrderedListWalkerError (list Entry)) (l : list A)
    : outcome OrderedListWalkerError (list Entry) :=
  match l with
  | [] => Ok []
  | x :: l => entries ← f x; rest ← append_all f l; Ok (entries ++ rest)
  end.

Fixpoint fetch_leaves (fuel : nat) (trie_node : TrieNode) : outcome OrderedListWalkerError (list Entry) :=
  match fuel with
  | O => Panic
  | S fuel =>
      match trie_node with
      | Branch stack =>
          append_all (λ item,
            match item with
            | Blinded commitment => trie_node ← get_trie_node commitment; fetch_leaves fuel trie_node
            | Empty => Ok []
            | item => fetch_leaves fuel item
            end) stack
      | Leaf prefix value => Ok [(z2b <$> prefix, value)]
      | Extension _ node =>
          match node with
          | Blinded commitment => trie_node ← get_trie_node commitment; fetch_leaves fuel trie_node
          | node => fetch_leaves fuel node
          end
      | Empty => Ok []
      | Blinded _ => Err (TrieNodeE InvalidNodeType)
      end
  end.

(** The first item of the list into its place. *)
Definition rotate (ordered_list : list Entry) : outcome OrderedListWalkerError (list Entry) :=
  if decide (ordered_list = []) then Ok ordered_list
  else if decide (len ordered_list <= 0x80) then
    first ← expect (last ordered_list); Ok (first :: removelast ordered_list)
  else
    first ← expect (ordered_list !! Z.to_nat (0x80 - 1));
    Ok (first :: base.delete (Z.to_nat (0x80 - 1)) ordered_list).

Definition hydrate (fuel : nat) : ST OrderedListWalker OrderedListWalkerError unit :=
  inner ← gets w_inner;
  if decide (inner ≠ None ∧ default 0 (len <$> inner) > 0) then fail AlreadyHydrated
  else
    root ← gets w_root;
    root_trie_node ← lift (get_trie_node root);
    ordered_list ← lift (fetch_leaves fuel root_trie_node);
    ordered_list ← lift (rotate ordered_list);
    modify (set_inner (Some ordered_list)).

Definition try_new_hydrated (fuel : nat) (root : B256) : outcome OrderedListWalkerError OrderedListWalker :=
  let '(r, walker) := hydrate fuel (new root) in _ ← r; Ok walker.

Definition take_inner (self : OrderedListWalker) : option (list Entry) * OrderedListWalker :=
  (w_inner self, set_inner None self).

(** [Iterator::next]. *)
Definition next (self : OrderedListWalker) : option Entry * OrderedListWalker :=
  match w_inner self with
  | Some leaves =>
      (head leaves, if decide (tail leaves = []) then set_inner None self else set_inner (Some (tail leaves)) self)
  | None => (None, self)
  end.
End walker.

(** * The entries of a trie, with their full paths, in the order of the traversal *)

Fixpoint paths (node : TrieNode) : list (Nibbles * bytes) :=
  match node with
  | Empty | Blinded _ => []
  | Leaf prefix value => [(prefix, value)]
  | Extension prefix node => prod_map (app prefix) id <$> paths node
  | Branch stack =>
      (fix go (i : Z) (stack : list TrieNode) :=
         match stack with
         | [] => []
         | node :: stack => (prod_map (cons i) id <$> paths node) ++ go (i + 1) stack
         end) 0 stack
  end.
Definition branch_paths : Z → list TrieNode → list (Nibbles * bytes) :=
  fix go (i : Z) (stack : list TrieNode) :=
    match stack with
    | [] => []
    | node :: stack => (prod_map (cons i) id <$> paths node) ++ go (i + 1) stack
    end.

(** The lexicographic order. *)
Fixpoint path_lt (p q : Nibbles) : Prop :=
  match p, q with
  | x :: p, y :: q => x < y ∨ x = y ∧ path_lt p q
  | [], _ :: _ => True
  | _, [] => False
  end.
Definition entry_lt (a b : Nibbles * bytes) : Prop := path_lt a.1 b.1.

Lemma path_lt_irrefl p : ¬ path_lt p p.
Proof. induction p as [|x p IH]; [by intros []|]. intros [Hx|[_ Hp]]; [lia|done]. Qed.
#[global] Instance path_lt_trans : Transitive path_lt.
Proof.
  intros p. induction p as [|x p IH]; intros [|y q] [|z r]; cbn; try done.
  intros [Hx|[-> Hp]] [Hy|[-> Hq]]; [left; lia|by left|by left|]. right. split; [done|]. by eapply IH.
Qed.
Lemma path_lt_app p q r : path_lt q r → path_lt (p ++ q) (p ++ r).
Proof. intros Hl. induction p as [|x p IH]; [done|]. by right. Qed.
#[global] Instance entry_lt_antisymm : AntiSymm (=) entry_lt.
Proof. intros a b Hab Hba. by destruct (path_lt_irrefl a.1); trans b.1. Qed.

Lemma sorted_map (f : Nibbles → Nibbles) l :
  (∀ p q, path_lt p q → path_lt (f p) (f q)) → StronglySorted entry_lt l →
  StronglySorted entry_lt (prod_map f id <$> l).
Proof.
  intros Hf. induction 1 as [|a l _ IH Ha]; cbn; constructor; [done|].
  apply Forall_fmap. eapply Forall_impl; [exact Ha|]. intros b Hb. by apply Hf.
Qed.
Lemma sorted_app l k :
  StronglySorted entry_lt l → StronglySorted entry_lt k → (∀ a b, a ∈ l → b ∈ k → entry_lt a b) →
  StronglySorted entry_lt (l ++ k).
Proof.
  intros Hl Hk. induction Hl as [|a l _ IH Ha]; intros Hc; cbn; [done|]. constructor.
  - apply IH. intros x y Hx Hy. apply Hc; [by apply elem_of_cons; right|done].
  - apply Forall_app. split; [done|]. apply Forall_forall. intros b Hb. apply Hc; [by apply elem_of_cons; left|done].
Qed.

Lemma branch_paths_ge i stack e : e ∈ branch_paths i stack → ∃ j p, e.1 = j :: p ∧ i <= j.
Proof.
  revert i. induction stack as [|node stack IH]; intros i; cbn; [by intros ?%elem_of_nil|].
  intros [([p v] & -> & _)%list_elem_of_fmap|(j & p & -> & Hj)%IH]%elem_of_app; [by exists i, p|].
  exists j, p. split; [done|lia].
Qed.

(** The traversal meets the entries in the order of their paths. *)
Lemma paths_sorted node : StronglySorted entry_lt (paths node).
Proof.
  revert node. fix IH 1. intros [|c|p v|p node|stack]; cbn [paths]; try by repeat constructor.
  - apply sorted_map; [|apply IH]. intros q r. apply path_lt_app.
  - generalize 0 as i. induction stack as [|node stack IHs]; intros i; [constructor|].
    apply sorted_app; [|apply IHs|].
    + apply sorted_map; [|apply IH]. intros q r Hqr. by right.
    + intros a b ([q v] & -> & _)%list_elem_of_fmap Hb. apply (branch_paths_ge (i + 1) stack) in Hb as (j & r & Hb & Hj).
      unfold entry_lt. rewrite Hb. left. lia.
Qed.

Section fetch.
Context `{!TrieProvider} `{!TrieHash}.
Context (Hempty : trie_node_by_hash EMPTY_ROOT_HASH = Ok Empty).
Context (Hnode : ∀ hash node, trie_node_by_hash hash = Ok node → is_blinded node = false).

Lemma get_unblind c node :
  unblind (Blinded c) = (Ok tt, node) → get_trie_node c = Ok node ∧ is_blinded node = false.
Proof.
  cbn [unblind]. unfold get_trie_node. destruct (decide (c = EMPTY_ROOT_HASH)) as [->|Hne].
  - intros [= <-]. by rewrite Hempty.
  - destruct (trie_node_by_hash c) as [n|e|] eqn:Hn; intros [= <-]. split; [done|]. by eapply Hnode.
Qed.

(** A child of a branch or extension contributes what it reveals. *)
Definition fetch_child (fuel : nat) (item : TrieNode) : outcome OrderedListWalkerError (list Entry) :=
  match item with
  | Blinded commitment => trie_node ← get_trie_node commitment; fetch_leaves fuel trie_node
  | item => fetch_leaves fuel item
  end.

Definition fetches (m : outcome OrderedListWalkerError (list Entry)) (t : TrieNode) : Prop :=
  ∃ es, m = Ok es ∧ es.*2 = (paths t).*2.

Lemma fetch_child_ok fuel item t :
  (∀ node, is_blinded node = false → reveal fuel node = Ok t → fetches (fetch_leaves fuel node) t) →
  reveal fuel item = Ok t → fetches (fetch_child fuel item) t.
Proof.
  intros IH Hr. destruct (is_blinded item) eqn:Hb; [|by destruct item; try done; apply IH].
  destruct item as [|c| | |]; try done. destruct fuel as [|fuel]; [done|].
  apply reveal_blinded in Hr as (node & [Hg Hn]%get_unblind & Hr). cbn [fetch_child]. rewrite Hg. cbn [mbind outcome_bind].
  apply IH; [done|]. apply (reveal_mono fuel); [done|lia].
Qed.

Lemma snd_prod_map (f : Nibbles → Nibbles) (l : list (Nibbles * bytes)) : (prod_map f id <$> l).*2 = l.*2.
Proof. induction l as [|[p v] l IH]; cbn; [done|]. by rewrite IH. Qed.

Lemma fetch_leaves_reveal fuel : ∀ node t,
  is_blinded node = false → reveal fuel node = Ok t → fetches (fetch_leaves fuel node) t.
Proof.
  induction fuel as [|fuel IH]; intros node t Hb Hr; [done|]. destruct node as [|c|p v|p node|stack]; [|done|..].
  - injection Hr as <-. by exists [].
  - injection Hr as <-. by eexists.
  - apply reveal_extension in Hr as (t' & -> & Hr).
    destruct (fetch_child_ok fuel node t') as (es & He & Hs); [by auto|done|]. exists es. split.
    + cbn [fetch_leaves]. by destruct node.
    + cbn [paths]. by rewrite snd_prod_map.
  - apply reveal_branch in Hr as (stack' & -> & Hs).
    assert (∀ i, ∃ es, append_all (λ item, match item with Blinded commitment =>
        trie_node ← get_trie_node commitment; fetch_leaves fuel trie_node | Empty => Ok [] | item => fetch_leaves fuel item end) stack
      = Ok es ∧ es.*2 = (branch_paths i stack').*2) as Hall; [|exact (Hall 0)].
    clear Hb. induction Hs as [|item t' stack stack' [Hrt _] Hs IHs]; intros i; [by exists []|].
    destruct (IHs (i + 1)) as (rest & Hrest & Hsr). destruct (fetch_child_ok fuel item t') as (es & He & Hse); [by auto|done|].
    exists (es ++ rest). cbn [append_all branch_paths]. split.
    + assert (match item with Blinded commitment => trie_node ← get_trie_node commitment; fetch_leaves fuel trie_node
        | Empty => Ok [] | item => fetch_leaves fuel item end = Ok es) as ->.
      { destruct item; try exact He. destruct fuel; [done|]. exact He. }
      cbn [mbind outcome_bind]. by rewrite Hrest.
    + rewrite !fmap_app, Hse, Hsr, snd_prod_map. done.
Qed.
End fetch.

(** * The order of the indices *)

Definition order (n : Z) : list Z := (λ i, adjust_index_for_rlp i n) <$> seqZ 0 n.

Lemma adjust_segment m k n d :
  (∀ i, m <= i < m + k → adjust_index_for_rlp i n = i + d) →
  (λ i, adjust_index_for_rlp i n) <$> seqZ m k = seqZ (m + d) k.
Proof.
  intros Hi. rewrite Z.add_comm, <- fmap_add_seqZ. apply list_fmap_ext. intros j i Hj.
  assert (i ∈ seqZ m k) as Hin%elem_of_seqZ by (by eapply list_elem_of_lookup_2).
  rewrite Hi by lia. lia.
Qed.

Lemma seqZ_one m : seqZ m 1 = [m].
Proof. by rewrite seqZ_cons, (seqZ_nil (Z.succ m)) by lia. Qed.

Lemma order_short n : 0 < n <= 0x80 → order n = seqZ 1 (n - 1) ++ [0].
Proof.
  intros Hn. unfold order.
  assert (seqZ 0 n = seqZ 0 (n - 1) ++ seqZ (0 + (n - 1)) 1) as -> by (rewrite <- seqZ_app by lia; f_equal; lia).
  rewrite fmap_app.
  rewrite (adjust_segment 0 (n - 1) n 1).
  - rewrite seqZ_one. cbn [fmap list_fmap].
    unfold adjust_index_for_rlp. rewrite decide_False, decide_True by lia. done.
  - intros i Hi. unfold adjust_index_for_rlp. by rewrite !decide_False by lia.
Qed.
Lemma order_long n : 0x80 < n → order n = seqZ 1 127 ++ 0 :: seqZ 128 (n - 128).
Proof.
  intros Hn. unfold order.
  assert (seqZ 0 n = seqZ 0 127 ++ seqZ (0 + 127) 1 ++ seqZ (0 + 127 + 1) (n - 128)) as ->.
  { rewrite <- !seqZ_app by lia. f_equal. lia. }
  rewrite !fmap_app. rewrite (adjust_segment 0 127 n 1).
  - rewrite (adjust_segment (0 + 127 + 1) (n - 128) n 0).
    + rewrite seqZ_one. cbn [fmap list_fmap].
      unfold adjust_index_for_rlp. rewrite decide_False, decide_True by lia. done.
    + intros i Hi. unfold adjust_index_for_rlp. rewrite decide_True by lia. lia.
  - intros i Hi. unfold adjust_index_for_rlp. by rewrite !decide_False by lia.
Qed.

Lemma elem_of_order n i : i ∈ order n ↔ 0 <= i < n.
Proof.
  destruct (decide (n <= 0)) as [Hz|Hz].
  { unfold order. rewrite seqZ_nil by lia. cbn. rewrite elem_of_nil. lia. }
  destruct (decide (n <= 0x80)) as [Hs|Hl]; [rewrite order_short|rewrite order_long]; try lia;
    rewrite elem_of_app, ?elem_of_cons, !elem_of_seqZ, ?elem_of_nil; lia.
Qed.

(** The items of [l] at a range of indices. *)
Definition items (l : list bytes) (ids : list Z) : list bytes := (λ i, default [] (l !! Z.to_nat i)) <$> ids.

Lemma items_seq l m k :
  0 <= m → 0 <= k → m + k <= len l → items l (seqZ m k) = take (Z.to_nat k) (drop (Z.to_nat m) l).
Proof.
  intros Hm Hk Hl. unfold items, len in *. apply list_eq_same_length with (Z.to_nat k).
  - rewrite length_take, length_drop. lia.
  - by rewrite length_fmap, length_seqZ.
  - intros i x y Hi Hx Hy. rewrite list_lookup_fmap, lookup_seqZ_lt in Hx by lia. cbn [fmap option_fmap option_map] in Hx.
    rewrite lookup_take_lt, lookup_drop in Hy by lia.
    replace (Z.to_nat (m + Z.of_nat i)) with (Z.to_nat m + i)%nat in Hx by lia. rewrite Hy in Hx. by simplify_eq.
Qed.
Lemma items_order_short x l : len (x :: l) <= 0x80 → items (x :: l) (order (len (x :: l))) = l ++ [x].
Proof.
  intros Hn. pose proof (len_nonneg l). rewrite len_cons in *. rewrite order_short by lia.
  unfold items. rewrite fmap_app. f_equal. change (items (x :: l) (seqZ 1 (1 + len l - 1)) = l).
  rewrite items_seq by (rewrite ?len_cons; lia). change (drop (Z.to_nat 1) (x :: l)) with l. rewrite take_ge; [done|]. unfold len. lia.
Qed.
Lemma items_order_long x l :
  0x80 < len (x :: l) → items (x :: l) (order (len (x :: l))) = take 127 l ++ x :: drop 127 l.
Proof.
  intros Hn. rewrite len_cons in *. rewrite order_long by lia. unfold items. rewrite fmap_app. cbn [fmap list_fmap].
  f_equal; [|f_equal].
  - change (items (x :: l) (seqZ 1 127) = take 127 l). by rewrite items_seq by (rewrite ?len_cons; lia).
  - change (items (x :: l) (seqZ 128 (1 + len l - 128)) = drop 127 l).
    rewrite items_seq by (rewrite ?len_cons; lia). change (Z.to_nat 128) with (S 127). cbn [drop].
    apply take_ge. rewrite length_drop. unfold len. lia.
Qed.

(** * Rotating *)

Lemma rotate_items es l :
  es.*2 = items l (order (len l)) → ∃ es', rotate es = Ok es' ∧ es'.*2 = l.
Proof.
  destruct l as [|x l]; intros He.
  { apply fmap_nil_inv in He as ->. by exists []. }
  assert (len es = len (x :: l)) as Hlen.
  { apply (f_equal len) in He. unfold len, items, order in *. rewrite !length_fmap, length_seqZ in He. lia. }
  unfold rotate. rewrite decide_False. 2: { intros ->. rewrite len_nil, len_cons in Hlen. pose proof (len_nonneg l). lia. }
  rewrite Hlen. destruct (decide (len (x :: l) <= 0x80)) as [Hs|Hl].
  - rewrite items_order_short in He by done. apply fmap_app_inv in He as (es1 & es2 & He1 & He2 & ->).
    destruct es2 as [|[p y] [|]]; try done. injection He2 as <-. rewrite last_snoc. cbn [expect mbind outcome_bind].
    rewrite removelast_last. eexists. split; [done|]. change (x :: es1.*2 = x :: l). by rewrite <- He1.
  - rewrite items_order_long in He by lia. apply fmap_app_inv in He as (es1 & es2 & He1 & He2 & ->).
    destruct es2 as [|[p y] es2]; try done. injection He2 as <- He2. change (drop 127 l = es2.*2) in He2.
    assert (length es1 = 127%nat) as Hl1.
    { apply (f_equal length) in He1. rewrite length_fmap, length_take in He1. rewrite len_cons in Hl. unfold len in Hl. lia. }
    change (Z.to_nat (0x80 - 1)) with 127%nat. rewrite (list_lookup_middle es1 es2 (p, x)) by done.
    cbn [expect mbind outcome_bind]. rewrite <- Hl1, delete_middle. eexists. split; [done|].
    change (x :: (es1 ++ es2).*2 = x :: l). by rewrite fmap_app, <- He1, <- He2, take_drop.
Qed.

(** * Iterating *)

(** The answers of [k] calls of [next]. *)
Fixpoint answers (k : nat) (self : OrderedListWalker) : list (option Entry) :=
  match k with
  | O => []
  | S k => let '(item, self) := next self in item :: answers k self
  end.
Lemma answers_all es root : answers (S (length es)) (mkWalker root (Some es)) = (Some <$> es) ++ [None].
Proof.
  induction es as [|e [|e' es] IH]; [done|done|].
  change (answers _ _) with (Some e :: answers (S (length (e' :: es))) (mkWalker root (Some (e' :: es)))).
  by rewrite IH.
Qed.

(** * Properties *)

Section properties.
Context `{!TrieProvider} `{!TrieHash}.
Context (Hempty : trie_node_by_hash EMPTY_ROOT_HASH = Ok Empty).
Context (Hnode : ∀ hash node, trie_node_by_hash hash = Ok node → is_blinded node = false).

(** [t] holds the items of [l], each under the key of its index, and the keys are ordered as
    [adjust_index_for_rlp] says. *)
Definition holds_list (key : Z → Nibbles) (l : list bytes) (t : TrieNode) : Prop :=
  StronglySorted path_lt (key <$> order (len l)) ∧
  ∀ p v, (p, v) ∈ paths t ↔ ∃ i, 0 <= i < len l ∧ p = key i ∧ v = default [] (l !! Z.to_nat i).

Lemma sorted_NoDup {A} (R : A → A → Prop) l : (∀ x, ¬ R x x) → StronglySorted R l → NoDup l.
Proof.
  intros Hi. induction 1 as [|x l _ IH Hx]; [by apply NoDup_nil_2|]. apply NoDup_cons. split; [|done].
  intros Hin. rewrite Forall_forall in Hx. by apply (Hi x), Hx.
Qed.
Lemma sorted_eq (l k : list (Nibbles * bytes)) :
  StronglySorted entry_lt l → StronglySorted entry_lt k → (∀ e, e ∈ l ↔ e ∈ k) → l = k.
Proof.
  intros Hl Hk He. apply (StronglySorted_unique entry_lt); [done..|].
  assert (∀ x, ¬ entry_lt x x) as Hi by (intros x; apply path_lt_irrefl).
  apply NoDup_Permutation; [by apply (sorted_NoDup entry_lt)..|done].
Qed.

Lemma paths_in_order key l t :
  holds_list key l t → (paths t).*2 = items l (order (len l)).
Proof.
  intros [Hs Hc].
  assert (paths t = (λ i, (key i, default [] (l !! Z.to_nat i))) <$> order (len l)) as ->.
  { apply sorted_eq; [apply paths_sorted| |].
    - induction (order (len l)) as [|i is' IH]; cbn in *; [constructor|]. apply StronglySorted_inv in Hs as [Hs Hi].
      constructor; [by apply IH|]. apply Forall_fmap. rewrite Forall_fmap in Hi.
      eapply Forall_impl; [exact Hi|]. by intros j.
    - intros [p v]. rewrite Hc, list_elem_of_fmap. setoid_rewrite elem_of_order. naive_solver. }
  unfold items. rewrite <- list_fmap_compose. done.
Qed.

Lemma walker_items fuel root key l t :
  reveal fuel (Blinded root) = Ok t → holds_list key l t →
  ∃ es : list Entry, try_new_hydrated fuel root = Ok (mkWalker root (Some es)) ∧ snd <$> es = l.
Proof.
  intros Hr Hl. destruct fuel as [|fuel]; [done|].
  apply reveal_blinded in Hr as (node & [Hg Hb]%(get_unblind Hempty Hnode) & Hr).
  assert (reveal (S fuel) node = Ok t) as Hr' by (apply (reveal_mono fuel); [done|lia]).
  destruct (fetch_leaves_reveal Hempty Hnode _ _ _ Hb Hr') as (es & He & Hs).
  rewrite (paths_in_order key l t Hl) in Hs. destruct (rotate_items _ _ Hs) as (es' & Hrot & Hes).
  exists es'. split; [|done].
  unfold try_new_hydrated, hydrate. rewrite run_gets. cbn [w_inner new]. rewrite decide_False by (by intros [? _]).
  by rewrite run_gets, (run_lift_Ok _ _ _ _ Hg), (run_lift_Ok _ _ _ _ He), (run_lift_Ok _ _ _ _ Hrot).
Qed.

(** A list committed in a trie is read back in order: when the trie below [root] holds the items
    under keys ordered as [adjust_index_for_rlp] orders the indices, whatever part of it has to
    be fetched, the hydrated walker iterates the items in their own order and then ends. *)
Theorem walker_restores_list fuel root key l t :
  reveal fuel (Blinded root) = Ok t → holds_list key l t →
  ∃ walker, try_new_hydrated fuel root = Ok walker ∧
    (λ item : option Entry, snd <$> item) <$> answers (S (length l)) walker = (@Some bytes <$> l) ++ [None].
Proof.
  intros Hr Hl. destruct (walker_items fuel root key l t Hr Hl) as (es & Hw & <-).
  exists (mkWalker root (Some es)). split; [done|].
  by rewrite length_fmap, answers_all, fmap_app, <- !list_fmap_compose.
Qed.
End properties.

Lemma holds_list_intro key l t :
  StronglySorted path_lt (key <$> order (len l)) →
  paths t = (λ i, (key i, default [] (l !! Z.to_nat i))) <$> order (len l) → holds_list key l t.
Proof.
  intros Hs Hp. split; [done|]. intros p v. rewrite Hp, list_elem_of_fmap. setoid_rewrite elem_of_order. naive_solver.
Qed.

(** Three items, at the keys 0x80, 0x01 and 0x02; the last two below a blinded child. *)
Module Three.
Definition key (i : Z) : list Z := if decide (i = 0) then [8; 0] else [0; i].
Definition children (a b : Z) (x y : TrieNode) : list TrieNode :=
  <[Z.to_nat a := x]> (<[Z.to_nat b := y]> (replicate BRANCH_LIST_LENGTH Empty)).
Definition low : TrieNode := Branch (children 1 2 (Leaf [] [byte1]) (Leaf [] [byte0])).
#[local] Instance provider : TrieProvider := λ hash,
  if decide (hash = [byte1]) then Ok (Branch (children 0 8 (Blinded [byte0; byte0]) (Leaf [0] [])))
  else if decide (hash = [byte0; byte0]) then Ok low
  else if decide (hash = [byte0]) then Ok Empty else Err "missing"%string.
#[local] Instance empty_root : TrieHash := [byte0].

Lemma provider_nodes hash node : trie_node_by_hash hash = Ok node → is_blinded node = false.
Proof.
  unfold trie_node_by_hash, provider. repeat (destruct (decide _); [by intros [= <-]|]). done.
Qed.
Lemma holds : holds_list key [[]; [byte1]; [byte0]] (Branch (children 0 8 low (Leaf [0] []))).
Proof.
  apply holds_list_intro; [|reflexivity]. change (StronglySorted path_lt [[0; 1]; [0; 2]; [8; 0]]).
  repeat (apply SSorted_cons; [|repeat (apply Forall_cons; split; [cbn; lia|]); apply Forall_nil; done]). constructor.
Qed.
End Three.
#[local] Existing Instances Three.provider Three.empty_root.

Lemma walker_restores_list_witness :
  ∃ walker, try_new_hydrated 5 [byte1] = Ok walker ∧
    (λ item : option Entry, snd <$> item) <$> answers 4 walker = [Some []; Some [byte1]; Some [byte0]; None].
Proof.
  apply (@walker_restores_list Three.provider Three.empty_root eq_refl Three.provider_nodes 5 [byte1] Three.key [[]; [byte1]; [byte0]]
           (Branch (Three.children 0 8 Three.low (Leaf [0] [])))); [by vm_compute|apply Three.holds].
Defined.
