(* ===== verification/TrieDB.v ===== *)
(** The trie database of the stateless executor (src/crates/proof/executor/src/db/mod.rs) and the
    encoding of accounts in the world state and withdrawal tries
    (src/crates/primitives/src/mpt/).

    [world_states] applies the changed accounts of a block, sorted by the hash of their key, to
    the two tries.  The theorem: it computes the roots of the tries of the updated maps, in
    whatever order the accounts are given, and fails exactly when it has to delete an account
    that the trie does not hold. *)
From stdpp Require Import sorting.
From S2P Require Import Prelude Blocks Reader Rlp Mpt MptReveal MptUpdate MptMap NodeCodec.
#[local] Open Scope Z_scope.

(** * Accounts *)

(** solana_sdk's account, by its accessors. *)
Record AccountSharedData := mkAccount {
  acc_lamports : Z;
  acc_data : bytes;
  acc_owner : Pubkey;
  acc_executable : bool;
  acc_rent_epoch : Z;
}.

Record TrieSolanaAccount := mkTrieAccount {
  ta_lamports : Z;
  ta_data : B256;
  ta_executable : bool;
  ta_rent_epoch : Z;
  ta_owner : Pubkey;
}.

Inductive TrieDBError :=
| RootNotBlinded
| MissingAccountInfo
| TrieNodeErr (e : TrieNodeError)
| ProviderErr (msg : string).

Record L2BlockHeader := mkL2BlockHeader {
  hd_block_info : BlockInfo;
  hd_account_root : B256;
  hd_widthdraw_root : B256;
}.

(** [WITHDRAWAL_PROGRAM_PUBKEY]: the base58 decoding of its address. *)
Class BridgeProgram := WITHDRAWAL_PROGRAM_PUBKEY : Pubkey.

(** The rest of [TrieProvider], [TrieDBProvider] and [TrieHinter], and the coding of
    [WrappedSolanaAccount] (bincode within RLP). *)
Class TrieDBProvider := {
  provider_bank_hash : Z → outcome string B256;
  provider_block_time : Z → outcome string Z;
  provider_data_by_hash : B256 → outcome string bytes;
  hint_bank_hash : Z → outcome string unit;
  hint_block_time : Z → outcome string unit;
  decode_account : bytes → outcome string AccountSharedData;
}.

Section accounts.
Context `{!Keccak}.

Definition account_from_solana_native (account : AccountSharedData) : TrieSolanaAccount :=
  {| ta_lamports := acc_lamports account;
     ta_data := keccak256 (acc_data account);
     ta_owner := acc_owner account;
     ta_executable := acc_executable account;
     ta_rent_epoch := acc_rent_epoch account |}.

(** The hasher hashes the concatenation of what it is given. *)
Definition sol_account_encoder (account : TrieSolanaAccount) : bytes :=
  if decide (ta_lamports account = 0) then replicate 32 byte0
  else
    let BUF_SIZE := 128 in
    let TOTAL_FIELD_SIZE := 8 + 8 + 8 + 1 + 32 in
    let DATA_SIZE_CAN_FIT := BUF_SIZE - TOTAL_FIELD_SIZE in
    let buffer := be_bytes 8 (ta_lamports account) ++ be_bytes 8 (ta_rent_epoch account) in
    let '(hashed, buffer) :=
      if decide (len (ta_data account) > DATA_SIZE_CAN_FIT) then (buffer ++ ta_data account, [])
      else ([], buffer ++ ta_data account) in
    let buffer := buffer ++ [if ta_executable account then byte1 else byte0] in
    let buffer := buffer ++ ta_owner account in
    keccak256 (hashed ++ buffer).

Definition withdrawal_account_encoder (account : TrieSolanaAccount) : bytes := ta_data account.
End accounts.

(** * The database *)

Record TrieDB := mkTrieDB {
  root_node : TrieNode;
  withdrawal_node : TrieNode;
  parent_block_header : L2BlockHeader;
}.
Definition set_root_node (node : TrieNode) (self : TrieDB) : TrieDB :=
  mkTrieDB node (withdrawal_node self) (parent_block_header self).
Definition set_withdrawal_node (node : TrieNode) (self : TrieDB) : TrieDB :=
  mkTrieDB (root_node self) node (parent_block_header self).
Definition set_parent_block_header (header : L2BlockHeader) (self : TrieDB) : TrieDB :=
  mkTrieDB (root_node self) (withdrawal_node self) header.

Definition new (header : L2BlockHeader) : TrieDB :=
  {| root_node := Blinded (hd_account_root header);
     withdrawal_node := Blinded (hd_widthdraw_root header);
     parent_block_header := header |}.

(** [sort_by_key]: stable, by the order of the hashes as byte strings. *)
Fixpoint bytes_lt (a b : bytes) : bool :=
  match a, b with
  | [], [] => false
  | [], _ :: _ => true
  | _ :: _, [] => false
  | x :: a, y :: b => bool_decide (b2z x < b2z y) || (bool_decide (x = y) && bytes_lt a b)
  end.
Fixpoint insert_by_key {A} (key : A → bytes) (x : A) (l : list A) : list A :=
  match l with
  | [] => [x]
  | y :: l => if bytes_lt (key y) (key x) then y :: insert_by_key key x l else x :: y :: l
  end.
Definition sort_by_key {A} (key : A → bytes) (l : list A) : list A := foldr (insert_by_key key) [] l.

Section db.
Context `{!Rlp} `{!Keccak} `{!PathCodec} `{!TrieProvider} `{!TrieHinter} `{!TrieHash} `{!NibblesOps}.
Context `{!BridgeProgram} `{!TrieDBProvider}.

(** A call on one of the tries, its error lifted by [?]. *)
Definition on_node (get : TrieDB → TrieNode) (set : TrieNode → TrieDB → TrieDB) (m : ST TrieNode TrieNodeError unit)
    : ST TrieDB TrieDBError unit := λ self,
  let '(r, node) := m (get self) in (map_err TrieNodeErr r, set node self).

Definition update_account (fuel : nat) (last_slot : Z) (entry : Pubkey * B256 * AccountSharedData)
    : ST TrieDB TrieDBError unit :=
  let '(pubkey, hashed_address, bundle_account) := entry in
  let account_path := unpack hashed_address in
  let is_withdrawal := bool_decide (acc_owner bundle_account = WITHDRAWAL_PROGRAM_PUBKEY) in
  if decide (acc_lamports bundle_account = 0) then
    _ ← on_node root_node set_root_node (delete fuel account_path [] last_slot);
    if is_withdrawal then on_node withdrawal_node set_withdrawal_node (delete fuel account_path [] last_slot)
    else mret tt
  else
    let mpt_account := account_from_solana_native bundle_account in
    _ ← on_node root_node set_root_node (insert fuel account_path (sol_account_encoder mpt_account));
    if is_withdrawal then
      on_node withdrawal_node set_withdrawal_node (insert fuel account_path (withdrawal_account_encoder mpt_account))
    else mret tt.

Definition update_accounts (fuel : nat) (account_diff : list (Pubkey * AccountSharedData)) (last_slot : Z)
    : ST TrieDB TrieDBError unit :=
  let sorted_state := (λ '(k, v), (k, keccak256 k, v)) <$> account_diff in
  let sorted_state := sort_by_key (λ '(_, hashed_addr, _), hashed_addr) sorted_state in
  for_each (update_account fuel last_slot) sorted_state.

Definition world_states (fuel : nat) (account_diff : list (Pubkey * AccountSharedData)) (last_slot : Z)
    : ST TrieDB TrieDBError (B256 * B256) :=
  _ ← update_accounts fuel account_diff last_slot;
  state_root ← gets (λ self, blind (root_node self));
  withdrawal_root ← gets (λ self, blind (withdrawal_node self));
  mret (state_root, withdrawal_root).

Definition bank_hash (block_number : Z) : outcome TrieDBError B256 :=
  _ ← map_err ProviderErr (hint_bank_hash block_number);
  map_err ProviderErr (provider_bank_hash block_number).

Definition block_time (block_number : Z) : outcome TrieDBError Z :=
  _ ← map_err ProviderErr (hint_block_time block_number);
  map_err ProviderErr (provider_block_time block_number).

Definition get_account_data (pubkey : Pubkey) (self : TrieDB) : outcome TrieDBError (option AccountSharedData) :=
  _ ← map_err ProviderErr
        (hint_account_proof (keccak256 pubkey) (bi_number (hd_block_info (parent_block_header self))));
  account_bytes ← map_err (λ _, MissingAccountInfo) (provider_data_by_hash (keccak256 pubkey));
  if decide (len account_bytes = 0) then Ok None
  else account ← map_err ProviderErr (decode_account account_bytes); Ok (Some account).
End db.

(** * Sorting *)

Lemma bytes_lt_irrefl a : bytes_lt a a = false.
Proof.
  induction a as [|x a IH]; [done|]. cbn. rewrite IH, andb_false_r, orb_false_r. apply bool_decide_eq_false. lia.
Qed.
Lemma bytes_lt_trans a b c : bytes_lt a b = true → bytes_lt b c = true → bytes_lt a c = true.
Proof.
  revert b c. induction a as [|x a IH]; intros [|y b] [|z c]; cbn; try done.
  rewrite !orb_true_iff, !andb_true_iff, !bool_decide_eq_true.
  intros [Hxy|[-> Hab]] [Hyz|[-> Hbc]]; [left; lia|by left..|right; split; [done|by eapply IH]].
Qed.
Lemma bytes_lt_total a b : a ≠ b → bytes_lt a b = false → bytes_lt b a = true.
Proof.
  revert b. induction a as [|x a IH]; intros [|y b]; cbn; try done. intros Hne.
  rewrite orb_false_iff, andb_false_iff, !bool_decide_eq_false, orb_true_iff, andb_true_iff, !bool_decide_eq_true.
  intros [Hxy [Hxy'|Hab]].
  - left. assert (b2z x ≠ b2z y) by (by intros ?%(inj b2z)). lia.
  - destruct (decide (x = y)) as [->|Hne']; [right|left].
    + split; [done|]. apply IH; [congruence|done].
    + assert (b2z x ≠ b2z y) by (by intros ?%(inj b2z)). lia.
Qed.

Section sort.
Context {A : Type} (key : A → bytes).
Definition key_lt (x y : A) : Prop := bytes_lt (key x) (key y) = true.

Lemma insert_by_key_perm x l : insert_by_key key x l ≡ₚ x :: l.
Proof.
  induction l as [|y l IH]; [done|]. cbn. destruct (bytes_lt (key y) (key x)); [|done].
  rewrite IH. apply Permutation_swap.
Qed.
Lemma sort_by_key_perm l : sort_by_key key l ≡ₚ l.
Proof. induction l as [|x l IH]; [done|]. cbn. by rewrite insert_by_key_perm, IH. Qed.

Lemma insert_by_key_sorted x l :
  (∀ y, y ∈ l → key y ≠ key x) → StronglySorted key_lt l → StronglySorted key_lt (insert_by_key key x l).
Proof.
  intros Hne Hs. induction Hs as [|y l Hs IH Hy]; [by repeat constructor|]. cbn.
  destruct (bytes_lt (key y) (key x)) eqn:Hlt.
  - constructor; [apply IH; intros z Hz; apply Hne; by apply elem_of_cons; right|].
    rewrite insert_by_key_perm. by constructor.
  - apply bytes_lt_total in Hlt; [|apply Hne; by apply elem_of_cons; left]. constructor; [by constructor|].
    constructor; [done|]. eapply Forall_impl; [exact Hy|]. intros z Hz. by eapply bytes_lt_trans.
Qed.
Lemma sort_by_key_sorted l : NoDup (key <$> l) → StronglySorted key_lt (sort_by_key key l).
Proof.
  induction l as [|x l IH]; cbn; [constructor|]. intros [Hx Hl]%NoDup_cons. apply insert_by_key_sorted; [|by apply IH].
  intros y Hy. change (y ∈ sort_by_key key l) in Hy. rewrite sort_by_key_perm in Hy. intros Hk. apply Hx. rewrite <- Hk. by apply list_elem_of_fmap_2.
Qed.
#[local] Instance key_lt_antisymm : AntiSymm (=) key_lt.
Proof.
  intros x y Hxy Hyx. pose proof (bytes_lt_trans _ _ _ Hxy Hyx) as Hxx. by rewrite bytes_lt_irrefl in Hxx.
Qed.
(** Distinct keys leave one sorted order. *)
Lemma sort_by_key_unique l k : NoDup (key <$> l) → l ≡ₚ k → sort_by_key key l = sort_by_key key k.
Proof.
  intros Hl Hk. apply (StronglySorted_unique key_lt); [by apply sort_by_key_sorted| |by rewrite !sort_by_key_perm].
  apply sort_by_key_sorted. by rewrite <- Hk.
Qed.
End sort.

(** * The maps of the two tries *)

Section maps.
Context `{!Keccak} `{!PathCodec} `{!BridgeProgram}.

Abbreviation World := (gmap (list Z) bytes).
Definition account_path (pubkey : Pubkey) : list Z := unpack (keccak256 pubkey).

(** What a changed account does to the world state, and to the withdrawal trie: an account is
    stored there as long as its owner is the bridge program. *)
Definition state_update (m : World) (entry : Pubkey * AccountSharedData) : World :=
  if decide (acc_lamports entry.2 = 0) then base.delete (account_path entry.1) m
  else <[account_path entry.1 := sol_account_encoder (account_from_solana_native entry.2)]> m.
Definition withdrawal_update (m : World) (entry : Pubkey * AccountSharedData) : World :=
  if decide (acc_owner entry.2 = WITHDRAWAL_PROGRAM_PUBKEY) then
    if decide (acc_lamports entry.2 = 0) then base.delete (account_path entry.1) m
    else <[account_path entry.1 := withdrawal_account_encoder (account_from_solana_native entry.2)]> m
  else m.

(** An update at one path leaves the others alone, and two of them commute. *)
Definition local_update (f : World → Pubkey * AccountSharedData → World) : Prop :=
  ∀ entry, (∀ m, f m entry = m) ∨ (∀ m, f m entry = base.delete (account_path entry.1) m)
    ∨ ∃ v, ∀ m, f m entry = <[account_path entry.1 := v]> m.

Lemma state_update_local : local_update state_update.
Proof. intros entry. unfold state_update. destruct (decide _); [right; by left|right; right; by eexists]. Qed.
Lemma withdrawal_update_local : local_update withdrawal_update.
Proof.
  intros entry. unfold withdrawal_update.
  destruct (decide _); [destruct (decide _); [right; by left|right; right; by eexists]|by left].
Qed.

Lemma local_lookup_ne f m entry p : local_update f → p ≠ account_path entry.1 → f m entry !! p = m !! p.
Proof.
  intros Hf Hp. destruct (Hf entry) as [Hg|[Hg|[v Hg]]]; rewrite Hg; [done|by apply lookup_delete_ne|by apply lookup_insert_ne].
Qed.
Lemma local_comm f m x y :
  local_update f → account_path x.1 ≠ account_path y.1 → f (f m x) y = f (f m y) x.
Proof.
  intros Hf Hne. destruct (Hf x) as [Hg|[Hg|[v Hg]]], (Hf y) as [Hh|[Hh|[u Hh]]]; rewrite !Hg, !Hh, ?Hg; try done.
  - apply delete_delete.
  - symmetry. by apply delete_insert_ne.
  - by apply delete_insert_ne.
  - by apply insert_insert_ne.
Qed.
Lemma foldl_permutation f m l k :
  local_update f → NoDup ((λ entry, account_path entry.1) <$> l) → l ≡ₚ k → foldl f m l = foldl f m k.
Proof.
  intros Hf Hl Hk. revert m. induction Hk as [|x l k Hk IH|x y l|l k n Hk1 IH1 Hk2 IH2]; intros m; cbn in *.
  - done.
  - apply NoDup_cons in Hl as [_ Hl]. by apply IH.
  - apply NoDup_cons in Hl as [Hx Hl]. rewrite (local_comm f m y x); [done..|]. intros Heq. apply Hx. rewrite Heq. by apply elem_of_cons; left.
  - rewrite IH1 by done. apply IH2. by rewrite <- Hk1.
Qed.
End maps.

(** * The database updates the maps *)

(** [Nibbles::unpack] takes every byte apart. *)
Class UnpackLaws `{!PathCodec} : Prop := unpack_key s : key (2 * length s) (unpack s).

Section refine.
Context `{!Rlp} `{!Keccak} `{!PathCodec} `{!UnpackLaws} `{!TrieProvider} `{!TrieHinter} `{!TrieHash}.
Context `{!NibblesOps} `{!NibblesLaws} `{!BridgeProgram} `{!TrieDBProvider}.
Context (Hkeccak : ∀ s, len (keccak256 s) = 32).
Context (Hhint : ∀ hash last_slot, hint_account_proof hash last_slot = Ok tt).

Abbreviation World := (gmap (list Z) bytes).

Lemma path_key pubkey : key 64 (account_path pubkey).
Proof.
  unfold account_path. pose proof (unpack_key (keccak256 pubkey)) as Hk.
  pose proof (Hkeccak pubkey) as Hl. unfold len in Hl.
  replace 64%nat with (2 * length (keccak256 pubkey))%nat by lia. exact Hk.
Qed.

(** Operations with more fuel than the trie needs. *)
Lemma insert_fuel F fuel node m pubkey v :
  represents F 64 node m → (F <= fuel)%nat →
  ∃ node', insert fuel (account_path pubkey) v node = (Ok tt, node')
    ∧ represents (S (S F)) 64 node' (<[account_path pubkey := v]> m).
Proof.
  intros Hr Hle. destruct (insert_represents _ _ _ _ _ v Hr (path_key pubkey)) as (node' & Hi & Hr').
  exists node'. split; [|done]. by apply (insert_extends F fuel).
Qed.
Lemma delete_fuel F fuel node m pubkey last_slot :
  represents F 64 node m → (F <= fuel)%nat →
  ∃ node', delete fuel (account_path pubkey) [] last_slot node
      = (if m !! account_path pubkey then Ok tt else Err KeyNotFound, node')
    ∧ represents (S (S F)) 64 node' (base.delete (account_path pubkey) m).
Proof.
  intros Hr Hle. destruct (delete_represents Hhint _ _ _ _ _ [] last_slot Hr (path_key pubkey)) as (node' & Hd & Hr'); [done|].
  exists node'. split; [|apply (represents_mono F); [done|lia]].
  apply (delete_extends F fuel); [done..|]. by destruct (m !! account_path pubkey).
Qed.

(** The database holds the tries of [m] and [w]. *)
Definition holds (F : nat) (db : TrieDB) (m w : World) : Prop :=
  represents F 64 (root_node db) m ∧ represents F 64 (withdrawal_node db) w.

(** A destroyed account is in the tries it has to be deleted from. *)
Definition deletable (m w : World) (entry : Pubkey * AccountSharedData) : Prop :=
  acc_lamports entry.2 = 0 →
  is_Some (m !! account_path entry.1) ∧
  (acc_owner entry.2 = WITHDRAWAL_PROGRAM_PUBKEY → is_Some (w !! account_path entry.1)).

Lemma update_account_holds F fuel last_slot db m w entry :
  holds F db m w → (F <= fuel)%nat → deletable m w entry →
  ∃ db', update_account fuel last_slot (entry.1, keccak256 entry.1, entry.2) db = (Ok tt, db')
    ∧ holds (S (S F)) db' (state_update m entry) (withdrawal_update w entry)
    ∧ parent_block_header db' = parent_block_header db.
Proof.
  destruct entry as [k v]. intros [Hm Hw] Hle Hd. unfold update_account, state_update, withdrawal_update. cbn [fst snd].
  change (unpack (keccak256 k)) with (account_path k).
  assert (represents (S (S F)) 64 (withdrawal_node db) w) as Hw2 by (apply (represents_mono F); [done|lia]).
  destruct (decide (acc_lamports v = 0)) as [Hz|Hz].
  - destruct (Hd Hz) as [[x Hx] Hown]. cbn [fst snd] in *.
    destruct (delete_fuel F fuel _ m k last_slot Hm Hle) as (root & Hdel & Hroot). rewrite Hx in Hdel.
    assert (on_node root_node set_root_node (delete fuel (account_path k) [] last_slot) db = (Ok tt, set_root_node root db)) as Hon.
    { unfold on_node. by rewrite Hdel. }
    rewrite (run_op _ _ _ _ _ Hon). destruct (decide (acc_owner v = WITHDRAWAL_PROGRAM_PUBKEY)) as [Ho|Ho].
    + rewrite bool_decide_eq_true_2 by done. destruct (Hown Ho) as [y Hy].
      destruct (delete_fuel F fuel _ w k last_slot Hw Hle) as (wd & Hdelw & Hwd). rewrite Hy in Hdelw.
      exists (set_withdrawal_node wd (set_root_node root db)). unfold on_node. cbn [withdrawal_node set_root_node].
      by rewrite Hdelw.
    + rewrite bool_decide_eq_false_2 by done. by exists (set_root_node root db).
  - destruct (insert_fuel F fuel _ m k (sol_account_encoder (account_from_solana_native v)) Hm Hle) as (root & Hins & Hroot).
    assert (on_node root_node set_root_node (insert fuel (account_path k) (sol_account_encoder (account_from_solana_native v))) db
      = (Ok tt, set_root_node root db)) as Hon.
    { unfold on_node. by rewrite Hins. }
    rewrite (run_op _ _ _ _ _ Hon). destruct (decide (acc_owner v = WITHDRAWAL_PROGRAM_PUBKEY)) as [Ho|Ho].
    + rewrite bool_decide_eq_true_2 by done.
      destruct (insert_fuel F fuel _ w k (withdrawal_account_encoder (account_from_solana_native v)) Hw Hle) as (wd & Hinsw & Hwd).
      exists (set_withdrawal_node wd (set_root_node root db)). unfold on_node. cbn [withdrawal_node set_root_node].
      by rewrite Hinsw.
    + rewrite bool_decide_eq_false_2 by done. by exists (set_root_node root db).
Qed.

Lemma deletable_after f g m w x y :
  local_update f → local_update g → account_path x.1 ≠ account_path y.1 →
  deletable m w y → deletable (f m x) (g w x) y.
Proof.
  intros Hf Hg Hne Hd Hz. destruct (Hd Hz) as [Hm Hw]. by rewrite !local_lookup_ne by done.
Qed.

Lemma update_loop_holds fuel last_slot l : ∀ F db m w,
  holds F db m w → (F + 2 * length l <= fuel)%nat → NoDup ((λ entry, account_path entry.1) <$> l) →
  Forall (deletable m w) l →
  ∃ db', for_each (update_account fuel last_slot) ((λ entry, (entry.1, keccak256 entry.1, entry.2)) <$> l) db = (Ok tt, db')
    ∧ holds (F + 2 * length l) db' (foldl state_update m l) (foldl withdrawal_update w l)
    ∧ parent_block_header db' = parent_block_header db.
Proof.
  induction l as [|x l IH]; intros F db m w Hh Hf Hn Hd.
  { exists db. cbn. rewrite Nat.add_0_r. done. }
  cbn [fmap list_fmap] in Hn. apply NoDup_cons in Hn as [Hx Hn]. apply Forall_cons in Hd as [Hdx Hd]. cbn [length] in Hf.
  destruct (update_account_holds F fuel last_slot db m w x Hh) as (db1 & Hu & Hh1 & Hp1); [lia|done|].
  destruct (IH (S (S F)) db1 (state_update m x) (withdrawal_update w x)) as (db2 & Hl & Hh2 & Hp2); [done|lia|done| |].
  { apply Forall_forall. intros y Hy. rewrite Forall_forall in Hd.
    apply deletable_after; [apply state_update_local|apply withdrawal_update_local| |by apply Hd].
    intros Heq. apply Hx. rewrite Heq. by apply (list_elem_of_fmap_2 (λ entry, account_path entry.1)). }
  exists db2. cbn [fmap list_fmap for_each foldl]. rewrite (run_op _ _ _ _ _ Hu). split; [exact Hl|]. split; [|congruence].
  cbn [length]. replace (F + 2 * S (length l))%nat with (S (S F) + 2 * length l)%nat by lia. done.
Qed.

#[global] Instance deletable_dec m w entry : Decision (deletable m w entry).
Proof. unfold deletable. solve_decision. Defined.

Lemma update_account_fails F fuel last_slot db m w entry :
  holds F db m w → (F <= fuel)%nat → ¬ deletable m w entry →
  ∃ db', update_account fuel last_slot (entry.1, keccak256 entry.1, entry.2) db = (Err (TrieNodeErr KeyNotFound), db').
Proof.
  destruct entry as [k v]. intros [Hm Hw] Hle Hd. unfold update_account. cbn [fst snd].
  change (unpack (keccak256 k)) with (account_path k).
  destruct (decide (acc_lamports v = 0)) as [Hz|Hz]; [|by destruct Hd; intros ?].
  destruct (delete_fuel F fuel _ m k last_slot Hm Hle) as (root & Hdel & _).
  destruct (m !! account_path k) as [x|] eqn:Hx.
  2: { exists (set_root_node root db). unfold mbind, st_bind, on_node. by rewrite Hdel. }
  assert (on_node root_node set_root_node (delete fuel (account_path k) [] last_slot) db = (Ok tt, set_root_node root db)) as Hon.
  { unfold on_node. by rewrite Hdel. }
  rewrite (run_op _ _ _ _ _ Hon). destruct (delete_fuel F fuel _ w k last_slot Hw Hle) as (wd & Hdelw & _).
  destruct (decide (acc_owner v = WITHDRAWAL_PROGRAM_PUBKEY)) as [Ho|Ho]; [|destruct Hd; intros _; cbn; rewrite Hx; by split; [eexists|]].
  destruct (w !! account_path k) as [y|] eqn:Hy; [destruct Hd; intros _; cbn; rewrite Hx, Hy; by split; [eexists|intros _; eexists]|].
  rewrite bool_decide_eq_true_2 by done. eexists. unfold on_node. cbn [withdrawal_node set_root_node]. by rewrite Hdelw.
Qed.

Lemma update_loop_fails fuel last_slot l : ∀ F db m w,
  holds F db m w → (F + 2 * length l <= fuel)%nat → NoDup ((λ entry, account_path entry.1) <$> l) →
  ¬ Forall (deletable m w) l →
  ∃ db', for_each (update_account fuel last_slot) ((λ entry, (entry.1, keccak256 entry.1, entry.2)) <$> l) db
    = (Err (TrieNodeErr KeyNotFound), db').
Proof.
  induction l as [|x l IH]; intros F db m w Hh Hf Hn Hd; [by destruct Hd|].
  cbn [fmap list_fmap] in Hn. apply NoDup_cons in Hn as [Hx Hn]. cbn [length] in Hf. cbn [fmap list_fmap for_each].
  destruct (decide (deletable m w x)) as [Hdx|Hdx].
  2: { destruct (update_account_fails F fuel last_slot db m w x Hh) as (db' & Hu); [lia|done|]. exists db'.
       unfold mbind, st_bind. by rewrite Hu. }
  destruct (update_account_holds F fuel last_slot db m w x Hh) as (db1 & Hu & Hh1 & Hp1); [lia|done|].
  rewrite (run_op _ _ _ _ _ Hu). apply (IH (S (S F)) db1 (state_update m x) (withdrawal_update w x)); [done|lia|done|].
  intros Hall. apply Hd. constructor; [done|]. apply Forall_forall. intros y Hy. rewrite Forall_forall in Hall.
  intros Hz. assert (account_path x.1 ≠ account_path y.1) as Hne.
  { intros Heq. apply Hx. rewrite Heq. by apply (list_elem_of_fmap_2 (λ entry, account_path entry.1)). }
  specialize (Hall y Hy Hz). rewrite !local_lookup_ne in Hall by (done || apply state_update_local || apply withdrawal_update_local).
  done.
Qed.

Lemma sort_fmap {A B} (f : A → B) (key : B → bytes) l :
  sort_by_key key (f <$> l) = f <$> sort_by_key (λ x, key (f x)) l.
Proof.
  assert (∀ x k, insert_by_key key (f x) (f <$> k) = f <$> insert_by_key (λ x, key (f x)) x k) as Hi.
  { intros x k. induction k as [|y k IH]; [done|]. cbn. destruct (bytes_lt _ _); [|done]. cbn. by rewrite <- IH. }
  induction l as [|x l IH]; [done|]. cbn. rewrite <- Hi. f_equal. exact IH.
Qed.

(** The accounts in the order they are applied. *)
Definition sorted_diff (account_diff : list (Pubkey * AccountSharedData)) : list (Pubkey * AccountSharedData) :=
  sort_by_key (λ entry, keccak256 entry.1) account_diff.

Lemma update_accounts_sorted fuel account_diff last_slot db :
  update_accounts fuel account_diff last_slot db =
  for_each (update_account fuel last_slot) ((λ entry, (entry.1, keccak256 entry.1, entry.2)) <$> sorted_diff account_diff) db.
Proof.
  unfold update_accounts, sorted_diff.
  assert ((λ '(k, v), (k, keccak256 k, v)) <$> account_diff
    = (λ entry : Pubkey * AccountSharedData, (entry.1, keccak256 entry.1, entry.2)) <$> account_diff) as ->.
  { apply list_fmap_ext. by intros i [k v] _. }
  by rewrite sort_fmap.
Qed.

Lemma sorted_diff_unique l k :
  NoDup ((λ entry, account_path entry.1) <$> l) → k ≡ₚ l → sorted_diff k = sorted_diff l.
Proof.
  intros Hn Hk. symmetry. apply sort_by_key_unique; [|by symmetry].
  apply (NoDup_fmap_1 unpack). by rewrite <- list_fmap_compose.
Qed.

Lemma sorted_diff_NoDup l :
  NoDup ((λ entry, account_path entry.1) <$> l) → NoDup ((λ entry, account_path entry.1) <$> sorted_diff l).
Proof. intros Hn. unfold sorted_diff. by rewrite sort_by_key_perm. Qed.

Lemma world_states_holds F fuel db m w account_diff last_slot :
  holds F db m w → (F + 2 * length account_diff <= fuel)%nat →
  NoDup ((λ entry, account_path entry.1) <$> account_diff) → Forall (deletable m w) account_diff →
  ∃ db', world_states fuel account_diff last_slot db
      = (Ok (blind (root_node db'), blind (withdrawal_node db')), db')
    ∧ holds (F + 2 * length account_diff) db' (foldl state_update m account_diff) (foldl withdrawal_update w account_diff)
    ∧ parent_block_header db' = parent_block_header db.
Proof.
  intros Hh Hf Hn Hd. assert (sorted_diff account_diff ≡ₚ account_diff) as Hp by apply sort_by_key_perm.
  destruct (update_loop_holds fuel last_slot (sorted_diff account_diff) F db m w Hh) as (db' & Hl & Hh' & Hp');
    [by rewrite Hp|by apply sorted_diff_NoDup|by rewrite Hp|].
  exists db'. split_and!; [|rewrite <- (Permutation_length Hp)|done].
  - unfold world_states. rewrite bind_run, update_accounts_sorted, Hl. done.
  - rewrite <- (foldl_permutation _ m _ _ state_update_local (sorted_diff_NoDup _ Hn) Hp).
    by rewrite <- (foldl_permutation _ w _ _ withdrawal_update_local (sorted_diff_NoDup _ Hn) Hp).
Qed.

(** C25. The state roots of a block: when every destroyed account is in the tries, [world_states]
    succeeds and answers the commitments of tries that hold the updated world state and the
    updated withdrawal accounts, whatever the order in which the changed accounts are given. *)
Theorem world_states_updates F fuel db m w account_diff last_slot :
  holds F db m w → (F + 2 * length account_diff <= fuel)%nat →
  NoDup ((λ entry, account_path entry.1) <$> account_diff) → Forall (deletable m w) account_diff →
  (∃ db', world_states fuel account_diff last_slot db
      = (Ok (blind (root_node db'), blind (withdrawal_node db')), db')
    ∧ holds (F + 2 * length account_diff) db' (foldl state_update m account_diff) (foldl withdrawal_update w account_diff)
    ∧ parent_block_header db' = parent_block_header db) ∧
  ∀ account_diff', account_diff' ≡ₚ account_diff →
    world_states fuel account_diff' last_slot db = world_states fuel account_diff last_slot db.
Proof.
  intros Hh Hf Hn Hd. split; [by apply world_states_holds|].
  intros diff' Hp. unfold world_states. rewrite !bind_run, !update_accounts_sorted.
  by rewrite (sorted_diff_unique _ _ Hn Hp).
Qed.

(** A destroyed account that the tries do not hold (one that was created and emptied within the
    block, say) makes the computation of the roots fail with [KeyNotFound]. *)
Theorem missing_account_fails F fuel db m w account_diff last_slot :
  holds F db m w → (F + 2 * length account_diff <= fuel)%nat →
  NoDup ((λ entry, account_path entry.1) <$> account_diff) → ¬ Forall (deletable m w) account_diff →
  ∃ db', world_states fuel account_diff last_slot db = (Err (TrieNodeErr KeyNotFound), db').
Proof.
  intros Hh Hf Hn Hd. assert (sorted_diff account_diff ≡ₚ account_diff) as Hp by apply sort_by_key_perm.
  destruct (update_loop_fails fuel last_slot (sorted_diff account_diff) F db m w Hh) as (db' & Hl);
    [by rewrite Hp|by apply sorted_diff_NoDup|by rewrite Hp|].
  exists db'. unfold world_states. by rewrite bind_run, update_accounts_sorted, Hl.
Qed.
End refine.

(** * Two accounts in an empty world *)

Module Two.
#[local] Instance keccak : Keccak := λ s, be_bytes 32 (be_val s).
#[local] Instance bridge : BridgeProgram := [byte1; byte1].
#[local] Instance provider : TrieProvider := λ _, Err "missing"%string.
#[local] Existing Instances Small.hinter Small.nibbles Small.nibbles_laws Concrete.paths Concrete.empty_root.
#[local] Instance unpack_laws : UnpackLaws.
Proof.
  intros s. unfold unpack, Concrete.paths. induction s as [|b s [IHl IHn]]; [done|].
  pose proof (b2z_range b). split.
  - cbn [Concrete.unpacked length]. rewrite IHl. lia.
  - cbn [Concrete.unpacked]. unfold nibble. repeat (constructor; [Z.to_euclidean_division_equations; lia|]). done.
Qed.
Definition header : L2BlockHeader := mkL2BlockHeader (mkBlockInfo [] 7 [] 0) [] [].
Definition db : TrieDB := mkTrieDB Empty Empty header.
Definition diff : list (bytes * AccountSharedData) :=
  [([byte1], mkAccount 5 [] [byte0] false 0); ([byte0], mkAccount 6 [byte1] [byte1; byte1] false 0)].
Definition closing : list (bytes * AccountSharedData) :=
  [([byte1], mkAccount 5 [] [byte0] false 0); ([byte0], mkAccount 0 [] [byte0] false 0)].
Lemma holds_empty : holds 1 db ∅ ∅.
Proof. split; (exists Empty; split_and!; [done|apply wf_empty|intros path _; by rewrite lookup_empty]). Qed.
Lemma digest_32 s : len (keccak256 s) = 32.
Proof. unfold keccak256, keccak, len. by rewrite length_be_bytes. Qed.
End Two.
#[local] Existing Instances Two.keccak Two.bridge Two.provider Two.unpack_laws Small.hinter Small.nibbles
  Small.nibbles_laws Concrete.paths Concrete.empty_root.

Lemma world_states_updates_witness :
  (∃ db', world_states 5 Two.diff 7 Two.db = (Ok (blind (root_node db'), blind (withdrawal_node db')), db')
    ∧ holds 5 db' (foldl state_update ∅ Two.diff) (foldl withdrawal_update ∅ Two.diff)
    ∧ parent_block_header db' = Two.header) ∧
  ∀ account_diff', account_diff' ≡ₚ Two.diff →
    world_states 5 account_diff' 7 Two.db = world_states 5 Two.diff 7 Two.db.
Proof.
  apply (world_states_updates Two.digest_32 (λ _ _, eq_refl) 1 5 Two.db ∅ ∅ Two.diff 7 Two.holds_empty); [done| |].
  - apply (bool_decide_unpack _). by vm_compute.
  - apply (bool_decide_unpack _). by vm_compute.
Defined.

Lemma missing_account_fails_witness :
  ∃ db', world_states 5 Two.closing 7 Two.db = (Err (TrieNodeErr KeyNotFound), db').
Proof.
  apply (missing_account_fails Two.digest_32 (λ _ _, eq_refl) 1 5 Two.db ∅ ∅ Two.closing 7 Two.holds_empty); [done| |].
  - apply (bool_decide_unpack _). by vm_compute.
  - intros Hd. apply Forall_cons in Hd as [_ [Hd _]%Forall_cons]. destruct (Hd eq_refl) as [Hs _]. by destruct Hs.
Defined.
