(* ===== verification/Executor.v ===== *)
(** The block executor of the proof program: the stateless block builder
    (src/crates/proof/executor/src/builder/core.rs), the fraud executor around the virtual
    machine (src/crates/executor/fraud/src/executor.rs, utils.rs), the executor the driver uses
    (src/crates/proof/proof/src/executor.rs) and the output root
    (src/crates/primitives/src/output_root.rs).

    The virtual machine is behind the interface [LiteSVM]: what is proved here is how the state
    tries, the accumulated account changes and the output root follow what it executes. *)
From S2P Require Import Prelude Blocks Types AttributesQueue Reader Rlp Mpt MptReveal MptUpdate MptMap NodeCodec TrieDB.
#[local] Open Scope Z_scope.

(** * The output root *)

Record OutputRoot := mkOutputRoot {
  or_state_root : B256;
  or_bridge_storage_root : B256;
  or_block_hash : B256;
}.
Definition ENCODED_LENGTH : nat := 128.
Definition VERSION : Z := 0.

(** [x[a..].copy_from_slice(s)] for an [s] of the right length. *)
Definition copy_at (a : nat) (s x : bytes) : bytes := take a x ++ s ++ drop (a + length s) x.

Definition encode_output_root (self : OutputRoot) : bytes :=
  let encoded := replicate ENCODED_LENGTH byte0 in
  let encoded := <[31%nat := z2b VERSION]> encoded in
  let encoded := copy_at 32 (or_state_root self) encoded in
  let encoded := copy_at 64 (or_bridge_storage_root self) encoded in
  copy_at 96 (or_block_hash self) encoded.
Definition hash_output_root `{!Keccak} (self : OutputRoot) : B256 := keccak256 (encode_output_root self).

(** * Data *)

Inductive ExecutorError :=
| MissingGasLimit
| MissingTransactions
| MissingEIP1559Params
| MissingParentBeaconBlockRoot
| InvalidExtraData
| BlockGasLimitExceeded
| UnsupportedTransactionType (ty : Z)
| TrieDBErr (e : TrieDBError)
| ExecutionError (msg : string)
| SignatureError (msg : string)
| RLPErr (msg : string)
| MissingExecutor
| FraudExecutorError (msg : string)
| FraudInitError (msg : string).

(** The fields of the l1-block-info account the executor reads; its default is all zeroes. *)
Record L1BlockInfo := mkL1BlockInfo { lbi_number : Z; lbi_hash : B256; lbi_sequence_number : Z }.
Definition L1BlockInfo_default : L1BlockInfo := mkL1BlockInfo 0 B256_ZERO 0.

Record BlockBuildingOutcome (TransactionResult FeeRateGovernor : Type) := mkOutcome {
  bo_block_info : L2BlockInfo;
  bo_state_root : B256;
  bo_withdraw_root : B256;
  bo_execution_result : list TransactionResult;
  bo_signature_count : Z;
  bo_fee_rate_governor : FeeRateGovernor;
}.
Arguments mkOutcome {TransactionResult FeeRateGovernor}.
Arguments bo_block_info {TransactionResult FeeRateGovernor}.
Arguments bo_state_root {TransactionResult FeeRateGovernor}.
Arguments bo_withdraw_root {TransactionResult FeeRateGovernor}.
Arguments bo_execution_result {TransactionResult FeeRateGovernor}.
Arguments bo_signature_count {TransactionResult FeeRateGovernor}.
Arguments bo_fee_rate_governor {TransactionResult FeeRateGovernor}.

(** The settings of the virtual machine; unknown accounts are looked up in the trie database. *)
Record SvmConfig := mkSvmConfig {
  svm_genesis_hash : bytes;
  svm_parent_slot : Z;
  svm_parent_bank_hash : B256;
  svm_clock_timestamp : Z;
  svm_leader_schedule : list (Z * Pubkey);
  svm_accounts_callback : TrieDB;
  svm_init_account : list (Pubkey * AccountSharedData);
}.

(** The virtual machine: [svm_init] is [LiteSVM::new_soon] with the settings and [finish_init];
    an error is given by its text.  [accounts_equal] is solana_sdk's comparison. *)
Class LiteSVM (Svm Tx TransactionResult FeeRateGovernor : Type) := {
  svm_init : SvmConfig → outcome string Svm;
  svm_execute_block : list Tx → ST Svm string (list TransactionResult);
  svm_signature_count : Svm → Z;
  svm_fee_rate_governor : Svm → FeeRateGovernor;
  svm_unix_timestamp : Svm → outcome string Z;
  svm_slot : Svm → Z;
  svm_parent_blockhash : Svm → outcome string bytes;
  svm_blockhash : Svm → outcome string bytes;
  svm_l1_block_info : Svm → option L1BlockInfo;
  svm_export_diff_accounts : Svm → list (Pubkey * AccountSharedData);
  decode_transaction : bytes → outcome string Tx;
  accounts_equal : AccountSharedData → AccountSharedData → bool;
}.

Record StatelessL2Builder := mkBuilder {
  b_config : SoonRollupConfig;
  b_trie_db : TrieDB;
  b_accounts_diff : gmap bytes AccountSharedData;
  b_last_accounts_diff : list (Pubkey * AccountSharedData);
  b_parent_slot : Z;
}.
Definition set_trie_db (db : TrieDB) (self : StatelessL2Builder) : StatelessL2Builder :=
  mkBuilder (b_config self) db (b_accounts_diff self) (b_last_accounts_diff self) (b_parent_slot self).
Definition set_accounts_diff (m : gmap bytes AccountSharedData) (self : StatelessL2Builder) : StatelessL2Builder :=
  mkBuilder (b_config self) (b_trie_db self) m (b_last_accounts_diff self) (b_parent_slot self).

(** Collecting pairs into a map: the last value of a key stays. *)
Definition extend (m : gmap bytes AccountSharedData) (l : list (Pubkey * AccountSharedData))
    : gmap bytes AccountSharedData := foldl (λ m '(k, v), <[k := v]> m) m l.

Definition new_builder (config : SoonRollupConfig) (parent_header : L2BlockHeader)
    (last_accounts_diff : list (Pubkey * AccountSharedData)) (trie_db : TrieDB) : StatelessL2Builder :=
  {| b_config := config;
     b_trie_db := trie_db;
     b_accounts_diff := extend ∅ last_accounts_diff;
     b_last_accounts_diff := last_accounts_diff;
     b_parent_slot := bi_number (hd_block_info parent_header) |}.

(** A [BTreeMap] iterates in the order of its keys. *)
Definition account_diff (self : StatelessL2Builder) : list (Pubkey * AccountSharedData) :=
  sort_by_key fst (map_to_list (b_accounts_diff self)).

Section executor.
Context `{!Rlp} `{!Keccak} `{!PathCodec} `{!TrieProvider} `{!TrieHinter} `{!TrieHash} `{!NibblesOps}.
Context `{!BridgeProgram} `{!TrieDBProvider}.
Context {Svm Tx TransactionResult FeeRateGovernor : Type} `{!LiteSVM Svm Tx TransactionResult FeeRateGovernor}.
Abbreviation Outcome := (BlockBuildingOutcome TransactionResult FeeRateGovernor).

(** * The fraud executor *)

Definition get_l2_block_info (svm : Svm) : outcome string L2BlockInfo :=
  let l1_block_info := default L1BlockInfo_default (svm_l1_block_info svm) in
  unix_timestamp ← svm_unix_timestamp svm;
  let slot := svm_slot svm in
  parent_hash ← svm_parent_blockhash svm;
  hash ← svm_blockhash svm;
  Ok (mkL2BlockInfo (mkBlockInfo hash slot parent_hash (Prelude.wrap 64 unix_timestamp))
        (mkBlockNumHash (lbi_number l1_block_info) (lbi_hash l1_block_info)) (lbi_sequence_number l1_block_info)).

Definition execute_block (block : list Tx) : ST Svm string Outcome :=
  execution_result ← svm_execute_block block;
  l2_block_info ← (λ svm, (get_l2_block_info svm, svm));
  svm ← gets id;
  mret (mkOutcome l2_block_info B256_ZERO B256_ZERO execution_result (svm_signature_count svm)
          (svm_fee_rate_governor svm)).

(** The accounts of [diff] that are not in [raw] or differ from what is there. *)
Definition modified_accounts (raw : gmap bytes AccountSharedData) (diff : list (Pubkey * AccountSharedData))
    : list (Pubkey * AccountSharedData) :=
  filter (λ entry, Is_true (match raw !! entry.1 with
                            | Some existing => negb (accounts_equal entry.2 existing)
                            | None => true
                            end)) diff.

(** * The block builder *)

Fixpoint convert_transactions (transactions : list bytes) : outcome ExecutorError (list Tx) :=
  match transactions with
  | [] => Ok []
  | tx :: transactions =>
      tx ← map_err FraudInitError (decode_transaction tx);
      rest ← convert_transactions transactions;
      Ok (tx :: rest)
  end.
Definition convert_block (attrs : OpPayloadAttributes) : outcome ExecutorError (list Tx) :=
  convert_transactions (default [] (pa_transactions attrs)).

(** A call on the trie database, its error lifted by [?]. *)
Definition on_trie_db {A} (m : ST TrieDB TrieDBError A) : ST StatelessL2Builder ExecutorError A := λ self,
  let '(r, db) := m (b_trie_db self) in (map_err TrieDBErr r, set_trie_db db self).

Definition with_roots (state_root withdrawal_root : B256) (o : Outcome) : Outcome :=
  mkOutcome (bo_block_info o) state_root withdrawal_root (bo_execution_result o) (bo_signature_count o)
    (bo_fee_rate_governor o).

(** The machine is set up, and runs the transactions of the payload. *)
Definition run_block (attrs : OpPayloadAttributes) (self : StatelessL2Builder)
    : outcome ExecutorError (Outcome * Svm) :=
  parent_bank_hash ← map_err TrieDBErr (bank_hash (b_parent_slot self));
  clock_timestamp ← map_err TrieDBErr (block_time (u64_add (b_parent_slot self) 1));
  genesis_hash ← expect (cfg_genesis_hash (b_config self));
  svm ← map_err FraudExecutorError (svm_init
    {| svm_genesis_hash := genesis_hash;
       svm_parent_slot := b_parent_slot self;
       svm_parent_bank_hash := parent_bank_hash;
       svm_clock_timestamp := clock_timestamp;
       svm_leader_schedule := cfg_sequencer_schedules (b_config self);
       svm_accounts_callback := b_trie_db self;
       svm_init_account := b_last_accounts_diff self |});
  block ← convert_block attrs;
  let '(r, svm) := execute_block block svm in
  outcome ← map_err FraudExecutorError r;
  Ok (outcome, svm).

(** The roots are computed from the accounts that changed since the last block. *)
Definition commit_block (fuel : nat) (ran : Outcome) (svm : Svm) : ST StatelessL2Builder ExecutorError Outcome :=
  self ← gets id;
  let diff_accounts := svm_export_diff_accounts svm in
  let modified_accounts := modified_accounts (b_accounts_diff self) diff_accounts in
  _ ← modify (set_accounts_diff (extend (b_accounts_diff self) diff_accounts));
  roots ← on_trie_db (world_states fuel modified_accounts (b_parent_slot self));
  let ran := with_roots roots.1 roots.2 ran in
  _ ← modify (λ self, set_trie_db (set_parent_block_header
        (mkL2BlockHeader (l2_block_info (bo_block_info ran)) (bo_state_root ran) (bo_withdraw_root ran))
        (b_trie_db self)) self);
  mret ran.

Definition build_block (fuel : nat) (attrs : OpPayloadAttributes) : ST StatelessL2Builder ExecutorError Outcome :=
  self ← gets id;
  ran ← lift (run_block attrs self);
  commit_block fuel ran.1 ran.2.

Definition compute_output_root (self : StatelessL2Builder) : B256 :=
  let parent_header := parent_block_header (b_trie_db self) in
  hash_output_root (mkOutputRoot (hd_account_root parent_header) (hd_widthdraw_root parent_header)
    (bi_hash (hd_block_info parent_header))).

(** * The executor of the driver *)

Record KonaExecutor := mkKonaExecutor {
  kx_rollup_config : SoonRollupConfig;
  kx_inner : option StatelessL2Builder;
}.
Definition set_inner (inner : option StatelessL2Builder) (self : KonaExecutor) : KonaExecutor :=
  mkKonaExecutor (kx_rollup_config self) inner.

(** The builder for the block after [header]. *)
Definition executor_at (self : KonaExecutor) (header : L2BlockHeader) : StatelessL2Builder :=
  let '(last_account_diff, trie_db) :=
    match kx_inner self with
    | None => ([], TrieDB.new header)
    | Some builder => (account_diff builder, b_trie_db builder)
    end in
  new_builder (kx_rollup_config self) header last_account_diff trie_db.
Definition update_safe_head (header : L2BlockHeader) : ST KonaExecutor ExecutorError unit :=
  self ← gets id;
  modify (set_inner (Some (executor_at self header))).

(** A call on the builder, an error when there is none. *)
Definition on_inner {A} (m : ST StatelessL2Builder ExecutorError A) : ST KonaExecutor ExecutorError A := λ self,
  match kx_inner self with
  | None => (Err MissingExecutor, self)
  | Some builder => let '(r, builder) := m builder in (r, set_inner (Some builder) self)
  end.
Definition execute_payload (fuel : nat) (attributes : OpPayloadAttributes) : ST KonaExecutor ExecutorError Outcome :=
  on_inner (build_block fuel attributes).
Definition executor_output_root : ST KonaExecutor ExecutorError B256 :=
  on_inner (gets compute_output_root).
Definition reset (self : KonaExecutor) : KonaExecutor := set_inner None self.
End executor.

(** * The accumulated changes agree with the tries *)

Abbreviation World := (gmap (list Z) bytes).
Abbreviation Entry := (bytes * AccountSharedData)%type.

Section accumulated.
Context `{!Keccak} `{!PathCodec} `{!BridgeProgram}.

(** An update that changed nothing changes nothing in a map that agrees at its path. *)
Lemma local_fixed (f : World → Entry → World) m m' entry :
  local_update f → f m entry = m → m' !! account_path entry.1 = m !! account_path entry.1 → f m' entry = m'.
Proof.
  intros Hf Hm Heq. destruct (Hf entry) as [Hg|[Hg|[v Hg]]]; rewrite Hg in *; [done|..].
  - apply delete_id. rewrite Heq, <- Hm. apply lookup_delete_eq.
  - apply insert_id. rewrite Heq, <- Hm. apply lookup_insert_eq.
Qed.
Lemma local_twice (f : World → Entry → World) m entry : local_update f → f (f m entry) entry = f m entry.
Proof.
  intros Hf. destruct (Hf entry) as [Hg|[Hg|[v Hg]]]; rewrite !Hg; [done|apply delete_delete_eq|apply insert_insert_eq].
Qed.
Lemma foldl_lookup_ne (f : World → Entry → World) m l p :
  local_update f → p ∉ (λ entry : Entry, account_path entry.1) <$> l → foldl f m l !! p = m !! p.
Proof.
  intros Hf. revert m. induction l as [|x l IH]; intros m Hp; [done|]. cbn in *.
  rewrite not_elem_of_cons in Hp. destruct Hp as [Hx Hp]. rewrite IH by done. by apply local_lookup_ne.
Qed.
Lemma foldl_fixed (f : World → Entry → World) m l entry :
  local_update f → NoDup ((λ entry : Entry, account_path entry.1) <$> l) → entry ∈ l →
  f (foldl f m l) entry = foldl f m l.
Proof.
  intros Hf Hn Hin. apply list_elem_of_split in Hin as (l1 & l2 & ->).
  assert (l1 ++ entry :: l2 ≡ₚ (l1 ++ l2) ++ [entry]) as Hp by (rewrite <- app_assoc; f_equiv; apply Permutation_cons_append).
  rewrite (foldl_permutation f m _ _ Hf Hn Hp), foldl_app. by apply local_twice.
Qed.

Lemma extend_lookup_None m l k : k ∉ l.*1 → extend m l !! k = m !! k.
Proof.
  revert m. induction l as [|[k' v'] l IH]; intros m Hk; [done|]. cbn in *. rewrite not_elem_of_cons in Hk.
  destruct Hk as [Hne Hk]. rewrite IH by done. by apply lookup_insert_ne.
Qed.
Lemma extend_lookup_Some m l k v : NoDup l.*1 → (k, v) ∈ l → extend m l !! k = Some v.
Proof.
  revert m. induction l as [|[k' v'] l IH]; intros m Hn Hin; [by apply elem_of_nil in Hin|]. cbn in *.
  apply NoDup_cons in Hn as [Hk Hn]. apply elem_of_cons in Hin as [[= <- <-]|Hin]; [|by apply IH].
  change (extend (<[k:=v]> m) l !! k = Some v). rewrite extend_lookup_None by done. apply lookup_insert_eq.
Qed.
(** Collecting the entries of a map gives the map back. *)
Lemma extend_account_diff (self : StatelessL2Builder) : extend ∅ (account_diff self) = b_accounts_diff self.
Proof.
  assert (account_diff self ≡ₚ map_to_list (b_accounts_diff self)) as Hp by apply sort_by_key_perm.
  apply map_eq. intros k. destruct (b_accounts_diff self !! k) as [v|] eqn:Hk.
  - apply extend_lookup_Some; [rewrite Hp; apply NoDup_fst_map_to_list|]. rewrite Hp. by apply elem_of_map_to_list.
  - rewrite extend_lookup_None; [apply lookup_empty|]. rewrite Hp. intros ([k' v] & -> & Hin)%list_elem_of_fmap.
    apply elem_of_map_to_list in Hin. cbn in Hk. congruence.
Qed.

(** Every accumulated change is in the maps of the tries already. *)
Definition synced (diff : gmap bytes AccountSharedData) (m w : World) : Prop :=
  ∀ k v, diff !! k = Some v → state_update m (k, v) = m ∧ withdrawal_update w (k, v) = w.

(** The keys of the accounts involved have hashes of their own. *)
Definition distinct_paths (diff : gmap bytes AccountSharedData) (l : list Entry) : Prop :=
  NoDup ((λ entry, account_path entry.1) <$> l) ∧
  ∀ k entry, is_Some (diff !! k) → entry ∈ l → account_path k = account_path entry.1 → k = entry.1.

Lemma extend_synced diff l m w :
  synced diff m w → distinct_paths diff l →
  synced (extend diff l) (foldl state_update m l) (foldl withdrawal_update w l).
Proof.
  intros Hs [Hn Hd] k v Hk. assert (NoDup l.*1) as Hn1.
  { apply (NoDup_fmap_1 account_path). by rewrite <- list_fmap_compose. }
  destruct (decide (k ∈ l.*1)) as [Hin|Hout].
  - apply list_elem_of_fmap in Hin as ([k' v'] & -> & Hin). cbn in Hk.
    rewrite (extend_lookup_Some diff l k' v' Hn1 Hin) in Hk. injection Hk as <-.
    split; apply (foldl_fixed _ _ l (k', v')); try done; [apply state_update_local|apply withdrawal_update_local].
  - rewrite extend_lookup_None in Hk by done. destruct (Hs k v Hk) as [Hm Hw].
    assert (account_path k ∉ (λ entry : Entry, account_path entry.1) <$> l) as Hp.
    { intros (entry & He & Hin)%list_elem_of_fmap. apply Hout. rewrite (Hd k entry ltac:(by eexists) Hin He).
      by apply list_elem_of_fmap_2. }
    split; [apply (local_fixed _ m)|apply (local_fixed _ w)]; try done;
      try apply foldl_lookup_ne; try done; (apply state_update_local || apply withdrawal_update_local).
Qed.
End accumulated.

Section commits.
Context `{!Rlp} `{!Keccak} `{!PathCodec} `{!UnpackLaws} `{!TrieProvider} `{!TrieHinter} `{!TrieHash}.
Context `{!NibblesOps} `{!NibblesLaws} `{!BridgeProgram} `{!TrieDBProvider}.
Context {Svm Tx TransactionResult FeeRateGovernor : Type} `{!LiteSVM Svm Tx TransactionResult FeeRateGovernor}.
Context (Hkeccak : ∀ s, len (keccak256 s) = 32).
Context (Hhint : ∀ hash last_slot, hint_account_proof hash last_slot = Ok tt).
Context (Hequal : ∀ x y, accounts_equal x y = true → x = y).
Abbreviation Outcome := (BlockBuildingOutcome TransactionResult FeeRateGovernor).

(** Leaving out the unmodified accounts leaves out no change. *)
Lemma foldl_modified (f : World → Entry → World) raw diff : ∀ m,
  local_update f → NoDup ((λ entry : Entry, account_path entry.1) <$> diff) →
  (∀ entry, entry ∈ diff → raw !! entry.1 = Some entry.2 → f m entry = m) →
  foldl f m (modified_accounts raw diff) = foldl f m diff.
Proof.
  induction diff as [|x diff IH]; intros m Hf Hn Hs; [done|]. cbn [fmap list_fmap] in Hn. apply NoDup_cons in Hn as [Hx Hn].
  assert (∀ m', (∀ entry : Entry, entry ∈ diff → m' !! account_path entry.1 = m !! account_path entry.1) →
    foldl f m' (modified_accounts raw diff) = foldl f m' diff) as Hrest.
  { intros m' Hm'. apply IH; [done..|]. intros entry Hin Hraw. apply (local_fixed f m); [done| |by apply Hm'].
    apply Hs; [by apply elem_of_cons; right|done]. }
  unfold modified_accounts in *. destruct (decide (Is_true (match raw !! x.1 with Some existing => negb (accounts_equal x.2 existing)
    | None => true end))) as [Ht|Ht].
  - rewrite filter_cons_True by done. cbn [foldl]. apply Hrest. intros entry Hin. apply local_lookup_ne; [done|].
    intros Heq. apply Hx. rewrite <- Heq. by apply (list_elem_of_fmap_2 (λ entry : Entry, account_path entry.1)).
  - rewrite filter_cons_False by done. cbn [foldl]. rewrite Hrest by done.
    destruct (raw !! x.1) as [existing|] eqn:Hraw; [|by destruct Ht].
    destruct (accounts_equal x.2 existing) eqn:He; [|by destruct Ht]. apply Hequal in He as <-.
    rewrite (Hs x); [done|by apply elem_of_cons; left|done].
Qed.

Lemma modified_sublist raw diff : sublist (modified_accounts raw diff) diff.
Proof. apply sublist_filter. Qed.

(** The builder holds the tries of [m] and [w], and its accumulated changes agree with them. *)
Definition builder_ok (F : nat) (self : StatelessL2Builder) (m w : World) : Prop :=
  holds F (b_trie_db self) m w ∧ synced (b_accounts_diff self) m w.

(** The changes of a block can be committed. *)
Definition committable (self : StatelessL2Builder) (diff : list Entry) (m w : World) : Prop :=
  distinct_paths (b_accounts_diff self) diff ∧
  Forall (deletable m w) (modified_accounts (b_accounts_diff self) diff).

Lemma commit_block_ok F fuel ran svm self m w :
  let diff := svm_export_diff_accounts svm in
  builder_ok F self m w → committable self diff m w → (F + 2 * length diff <= fuel)%nat →
  ∃ self' state_root withdrawal_root,
    commit_block fuel ran svm self = (Ok (with_roots state_root withdrawal_root ran), self')
    ∧ state_root = blind (root_node (b_trie_db self')) ∧ withdrawal_root = blind (withdrawal_node (b_trie_db self'))
    ∧ parent_block_header (b_trie_db self') = mkL2BlockHeader (l2_block_info (bo_block_info ran)) state_root withdrawal_root
    ∧ builder_ok (F + 2 * length diff) self' (foldl state_update m diff) (foldl withdrawal_update w diff).
Proof.
  intros diff [Hh Hs] [[Hn Hd] Hdel] Hf. set (modified := modified_accounts (b_accounts_diff self) diff) in *.
  assert (sublist modified diff) as Hsub by apply modified_sublist.
  assert (NoDup ((λ entry, account_path entry.1) <$> modified)) as Hnm.
  { eapply sublist_NoDup; [exact Hn|]. by apply fmap_sublist. }
  pose proof (sublist_length _ _ Hsub) as Hle.
  destruct (world_states_holds Hkeccak Hhint F fuel (b_trie_db self) m w modified (b_parent_slot self) Hh) as (db & Hrun & Hh' & _);
    [lia|done|done|].
  assert (foldl state_update m modified = foldl state_update m diff
    ∧ foldl withdrawal_update w modified = foldl withdrawal_update w diff) as [Hm Hw].
  { split; (apply foldl_modified; [apply state_update_local || apply withdrawal_update_local|done|]);
      intros [k v] _ Hraw; by apply Hs. }
  rewrite Hm, Hw in Hh'.
  exists (set_trie_db (set_parent_block_header
    (mkL2BlockHeader (l2_block_info (bo_block_info ran)) (blind (root_node db)) (blind (withdrawal_node db))) db)
    (set_accounts_diff (extend (b_accounts_diff self) diff) self)), (blind (root_node db)), (blind (withdrawal_node db)).
  split_and!; [|done|done|done|].
  - unfold commit_block. rewrite run_gets, run_modify. unfold on_trie_db at 1. unfold mbind at 1, st_bind.
    cbn [b_trie_db set_accounts_diff b_parent_slot id]. fold diff. fold modified. unfold id. fold diff modified. rewrite Hrun. done.
  - split; [|by apply extend_synced].
    destruct Hh' as [Hr1 Hr2]. split; (eapply represents_mono; [eassumption|lia]).
Qed.

(** The next builder starts from what the last one holds. *)
Lemma executor_at_ok F kx header self m w :
  kx_inner kx = Some self → builder_ok F self m w → builder_ok F (executor_at kx header) m w.
Proof.
  intros Hin [Hh Hs]. unfold executor_at. rewrite Hin. split; [done|]. cbn [b_accounts_diff new_builder].
  by rewrite extend_account_diff.
Qed.

Lemma execute_payload_ok F fuel kx self attributes m w ran svm :
  let diff := svm_export_diff_accounts svm in
  builder_ok F self m w → run_block attributes self = Ok (ran, svm) → committable self diff m w →
  (F + 2 * length diff <= fuel)%nat →
  ∃ self' state_root withdrawal_root,
    execute_payload fuel attributes (set_inner (Some self) kx)
      = (Ok (with_roots state_root withdrawal_root ran), set_inner (Some self') kx)
    ∧ executor_output_root (set_inner (Some self') kx)
      = (Ok (hash_output_root (mkOutputRoot state_root withdrawal_root (bi_hash (l2_block_info (bo_block_info ran))))),
         set_inner (Some self') kx)
    ∧ state_root = blind (root_node (b_trie_db self')) ∧ withdrawal_root = blind (withdrawal_node (b_trie_db self'))
    ∧ builder_ok (F + 2 * length diff) self' (foldl state_update m diff) (foldl withdrawal_update w diff).
Proof.
  intros diff Hok Hrun Hc Hf.
  destruct (commit_block_ok F fuel ran svm self m w) as (self' & s & wr & Hcommit & Hs & Hwr & Hp & Hok'); [done..|].
  exists self', s, wr. split_and!; [| |done..].
  - unfold execute_payload, on_inner. cbn [kx_inner set_inner].
    assert (build_block fuel attributes self = (Ok (with_roots s wr ran), self')) as ->; [|done].
    unfold build_block. rewrite run_gets. unfold id. by rewrite (run_lift_Ok _ _ _ _ Hrun).
  - unfold executor_output_root, on_inner. cbn [kx_inner set_inner gets]. unfold compute_output_root. by rewrite Hp.
Qed.

(** What the executor does with a payload, once told the safe head. *)
Definition step_executor (fuel : nat) (header : L2BlockHeader) (attributes : OpPayloadAttributes)
    : ST KonaExecutor ExecutorError (Outcome * B256) :=
  _ ← update_safe_head header;
  ran ← execute_payload fuel attributes;
  output_root ← executor_output_root;
  mret (ran, output_root).

(** C16. A block advances the committed state: when the virtual machine runs the payload and its
    changes can be committed, the executor answers the outcome with the commitments of tries
    that hold the world state and the withdrawal accounts with all the changes applied (though
    it only applies those that differ from the accumulated ones), its output root is the hash
    of these commitments and of the hash of the block, and it is ready for the next block. *)
Theorem executor_commits_block F fuel kx header attributes m w ran svm :
  let diff := svm_export_diff_accounts svm in
  builder_ok F (executor_at kx header) m w → run_block attributes (executor_at kx header) = Ok (ran, svm) →
  committable (executor_at kx header) diff m w → (F + 2 * length diff <= fuel)%nat →
  ∃ kx' self state_root withdrawal_root,
    step_executor fuel header attributes kx
      = (Ok (with_roots state_root withdrawal_root ran,
             hash_output_root (mkOutputRoot state_root withdrawal_root (bi_hash (l2_block_info (bo_block_info ran))))), kx')
    ∧ kx_inner kx' = Some self
    ∧ state_root = blind (root_node (b_trie_db self)) ∧ withdrawal_root = blind (withdrawal_node (b_trie_db self))
    ∧ builder_ok (F + 2 * length diff) self (foldl state_update m diff) (foldl withdrawal_update w diff).
Proof.
  intros diff Hok Hrun Hc Hf.
  destruct (execute_payload_ok F fuel kx (executor_at kx header) attributes m w ran svm) as (self & s & wr & He & Hr & Hrest);
    [done..|].
  exists (set_inner (Some self) kx), self, s, wr. split_and!; [|done|apply Hrest..].
  unfold step_executor, update_safe_head. rewrite bind_run, run_gets. unfold modify, id. by rewrite bind_run, He, bind_run, Hr.
Qed.
End commits.

(** * A machine that replays changes

    Its transactions name the accounts they write. *)
Module Replaying.
#[local] Existing Instances Two.keccak Two.bridge Two.provider Two.unpack_laws Small.hinter Small.nibbles
  Small.nibbles_laws Concrete.paths Concrete.empty_root.
Definition opened : Entry := ([byte1], mkAccount 5 [] [byte0] false 0).
Definition closed : Entry := ([byte0], mkAccount 0 [] [byte0] false 0).
#[local] Instance machine : LiteSVM (list Entry) (list Entry) unit unit := {|
  svm_init config := Ok [];
  svm_execute_block block svm := (Ok (replicate (length block) tt), svm ++ mjoin block);
  svm_signature_count svm := 0;
  svm_fee_rate_governor svm := tt;
  svm_unix_timestamp svm := Ok 1700;
  svm_slot svm := 8;
  svm_parent_blockhash svm := Ok [byte1];
  svm_blockhash svm := Ok (replicate 32 byte1);
  svm_l1_block_info svm := None;
  svm_export_diff_accounts svm := svm;
  decode_transaction tx :=
    if decide (tx = []) then Err "empty"%string else Ok (if decide (tx = [byte1]) then [opened] else [closed]);
  accounts_equal x y :=
    bool_decide ((acc_lamports x, acc_data x, acc_owner x, acc_executable x, acc_rent_epoch x)
               = (acc_lamports y, acc_data y, acc_owner y, acc_executable y, acc_rent_epoch y));
|}.
#[local] Instance database : TrieDBProvider := {|
  provider_bank_hash _ := Ok (replicate 32 byte0);
  provider_block_time _ := Ok 1700;
  provider_data_by_hash _ := Ok [];
  hint_bank_hash _ := Ok tt;
  hint_block_time _ := Ok tt;
  decode_account _ := Err "none"%string;
|}.
Lemma accounts_equal_eq (x y : AccountSharedData) : accounts_equal x y = true → x = y.
Proof. destruct x, y. cbn. intros ?%bool_decide_eq_true. naive_solver. Qed.
Definition config : SoonRollupConfig :=
  let c := mock_roll_up_config in
  {| cfg_l1_chain_id := cfg_l1_chain_id c; cfg_max_sequencer_drift := cfg_max_sequencer_drift c;
     cfg_seq_window_size := cfg_seq_window_size c; cfg_channel_timeout := cfg_channel_timeout c;
     cfg_batch_inbox_address := cfg_batch_inbox_address c; cfg_optimism_portal_address := cfg_optimism_portal_address c;
     cfg_l1_system_config_address := cfg_l1_system_config_address c; cfg_l1_standard_bridge := cfg_l1_standard_bridge c;
     cfg_l1_cross_domain_messenger := cfg_l1_cross_domain_messenger c;
     cfg_derive_delay_l1_block_num := cfg_derive_delay_l1_block_num c; cfg_max_frame_size := cfg_max_frame_size c;
     cfg_channel_size := cfg_channel_size c; cfg_block_time := cfg_block_time c; cfg_shred_version := cfg_shred_version c;
     cfg_genesis_hash := Some (replicate 32 byte0); cfg_upgrade_schedules := cfg_upgrade_schedules c;
     cfg_sequencer_schedules := [] |}.
Definition builder : StatelessL2Builder := new_builder config Two.header [] Two.db.
Definition executor : KonaExecutor := mkKonaExecutor config (Some builder).
Definition payload (transactions : list bytes) : OpPayloadAttributes :=
  mkOpPayloadAttributes 1700 B256_ZERO [] None (Some transactions) None None None.
Definition ran : BlockBuildingOutcome unit unit :=
  mkOutcome (mkL2BlockInfo (mkBlockInfo (replicate 32 byte1) 8 [byte1] 1700) (mkBlockNumHash 0 B256_ZERO) 0)
    B256_ZERO B256_ZERO [tt] 0 tt.
End Replaying.
#[local] Existing Instances Two.keccak Two.bridge Two.provider Two.unpack_laws Small.hinter Small.nibbles
  Small.nibbles_laws Concrete.paths Concrete.empty_root Replaying.machine Replaying.database.

Lemma executor_commits_block_witness :
  ∃ kx' self'' state_root withdrawal_root,
    step_executor 3 Two.header (Replaying.payload [[byte1]]) Replaying.executor
      = (Ok (with_roots state_root withdrawal_root Replaying.ran,
             hash_output_root (mkOutputRoot state_root withdrawal_root (replicate 32 byte1))), kx')
    ∧ kx_inner kx' = Some self''
    ∧ state_root = blind (root_node (b_trie_db self'')) ∧ withdrawal_root = blind (withdrawal_node (b_trie_db self''))
    ∧ builder_ok 3 self'' (state_update ∅ Replaying.opened) (withdrawal_update ∅ Replaying.opened).
Proof.
  apply (executor_commits_block Two.digest_32 (λ _ _, eq_refl) Replaying.accounts_equal_eq 1 3 Replaying.executor
    Two.header (Replaying.payload [[byte1]]) ∅ ∅ Replaying.ran [Replaying.opened]).
  - split; [apply Two.holds_empty|]. intros k v Hk. by vm_compute in Hk.
  - by vm_compute.
  - split; [split; [apply (bool_decide_unpack _); by vm_compute|]|apply (bool_decide_unpack _); by vm_compute].
    intros k entry [v Hk]. by vm_compute in Hk.
  - cbn. lia.
Defined.

(** A block that fails after it ran leaves its changes behind: they are accumulated before the roots
    are computed, and the next block that leaves the same accounts in the same state takes them
    for unmodified.  Here the first block closes an account the trie does not hold and fails, and
    the second one opens an account, which its state trie does not get. *)
Example failed_block_remembered :
  let first := step_executor 3 Two.header (Replaying.payload [[byte0]; [byte1]]) Replaying.executor in
  let second := step_executor 3 Two.header (Replaying.payload [[byte1]]) first.2 in
  let state_empty (kx : KonaExecutor) := (λ b, is_empty (root_node (b_trie_db b))) <$> kx_inner kx in
  first.1 = Err (TrieDBErr (TrieNodeErr KeyNotFound)) ∧
  is_ok second.1 = true ∧ state_empty second.2 = Some true ∧
  state_empty (step_executor 3 Two.header (Replaying.payload [[byte1]]) Replaying.executor).2 = Some false.
Proof. cbv zeta. by split_and!; vm_compute. Qed.
