(* ===== verification/Offchain.v ===== *)
(** The block builder over offchain data (src/crates/proof/executor/src/builder/offchain.rs): the accounts
    before a block are one preimage, and the state root is computed from all accounts after it
    (src/crates/executor/fraud/src/accounts.rs).

    [offchain_root_agrees]: the accounts its state root commits to are those of the stateless builder's
    world state exactly when the block destroys no account.
    [mismatch_ignored]: a root that is not the expected one is answered all the same. *)
From S2P Require Import Prelude Blocks Types AttributesQueue Reader Rlp Mpt MptReveal MptUpdate MptMap NodeCodec TrieDB Executor.
#[local] Open Scope Z_scope.

Abbreviation SoonAccounts := (list (Pubkey * AccountSharedData)).

(** bincode and the root of a Merkle Patricia trie of given keys and values (triehash). *)
Class OffchainCodec := {
  accounts_deserialize : bytes → outcome string SoonAccounts;
  i64_deserialize : bytes → outcome string Z;
  trie_root : list (B256 * bytes) → B256;
}.

(** The settings of the machine of this builder; [offchain_init] is [LiteSVM::new_soon] with them and
    [finish_init], an error given by its text. *)
Record OffchainConfig := mkOffchainConfig {
  oc_genesis_hash : bytes;
  oc_parent_slot : Z;
  oc_parent_bank_hash : bytes;
  oc_leader_schedule : list (Z * Pubkey);
  oc_accounts_callback : SoonAccounts;
  oc_clock_timestamp : Z;
}.
Class OffchainMachine (Svm : Type) := offchain_init : OffchainConfig → outcome string Svm.

Record OffchainL2Builder := mkOffchainBuilder {
  ob_config : SoonRollupConfig;
  ob_parent_header : L2BlockHeader;
  ob_diff_accounts : SoonAccounts;
  ob_state_root : B256;
}.
Definition set_diff_accounts (x : SoonAccounts) (self : OffchainL2Builder) : OffchainL2Builder :=
  mkOffchainBuilder (ob_config self) (ob_parent_header self) x (ob_state_root self).
Definition set_state_root (x : B256) (self : OffchainL2Builder) : OffchainL2Builder :=
  mkOffchainBuilder (ob_config self) (ob_parent_header self) (ob_diff_accounts self) x.

Section offchain.
Context `{!Keccak} `{!TrieDBProvider} `{!OffchainCodec}.
Context {Svm Tx TransactionResult FeeRateGovernor : Type} `{!LiteSVM Svm Tx TransactionResult FeeRateGovernor}.
Context `{!OffchainMachine Svm}.
Abbreviation Outcome := (BlockBuildingOutcome TransactionResult FeeRateGovernor).
Abbreviation Builder A := (ST OffchainL2Builder ExecutorError A).

(** * Accounts (fraud/src/accounts.rs, utils.rs) *)

Definition add_trie_account (target : list (B256 * TrieSolanaAccount)) (pubkey : Pubkey) (account : AccountSharedData)
    : list (B256 * TrieSolanaAccount) := target ++ [(keccak256 pubkey, account_from_solana_native account)].
Definition mpt_accounts (accounts : SoonAccounts) : list (B256 * TrieSolanaAccount) :=
  foldl (λ target '(pubkey, account), add_trie_account target pubkey account) [] accounts.
Definition encoded_accounts (accounts : SoonAccounts) : list (B256 * bytes) :=
  (λ '(address, account), (address, sol_account_encoder account)) <$> mpt_accounts accounts.
Definition soon_state_root (accounts : SoonAccounts) : B256 := trie_root (encoded_accounts accounts).
(** From a [BTreeMap], in the order of its keys. *)
Definition accounts_from_map (m : gmap bytes AccountSharedData) : SoonAccounts := sort_by_key fst (map_to_list m).

(** * The builder *)

Definition slot_spec_hash (slot : Z) (suffix : bytes) : B256 := keccak256 (be_bytes 8 slot ++ suffix).
Definition text (s : string) : bytes := Strings.String.list_byte_of_string s.
Definition cal_soon_accounts_hash (slot : Z) : B256 := slot_spec_hash slot (text "soon_accounts").
Definition cal_init_state_root_hash (slot : Z) : B256 := slot_spec_hash slot (text "init_state_root").
Definition cal_svm_bank_hash (slot : Z) : B256 := slot_spec_hash slot (text "svm_bank_hash").
Definition cal_svm_clock_timestamp (slot : Z) : B256 := slot_spec_hash slot (text "svm_clock_timestamp").

Definition new_offchain (config : SoonRollupConfig) (parent_header : L2BlockHeader) : OffchainL2Builder :=
  mkOffchainBuilder config parent_header [] B256_ZERO.
Definition parent_slot (self : OffchainL2Builder) : Z := bi_number (hd_block_info (ob_parent_header self)).
Definition current_slot (self : OffchainL2Builder) : Z := u64_add (parent_slot self) 1.

(** [data_by_hash] with the error that names what was asked for. *)
Definition fetch (hash : B256) (error : string) : outcome ExecutorError bytes :=
  map_err (λ _, FraudInitError error) (provider_data_by_hash hash).
(** [Hash::new] and [B256::try_from(..).unwrap()]: 32 bytes, or a panic. *)
Definition exactly_32 (data : bytes) : outcome ExecutorError bytes := expect (try_array 32 data).

Definition get_init_accounts (self : OffchainL2Builder) : outcome ExecutorError SoonAccounts :=
  soon_accounts ← fetch (cal_soon_accounts_hash (parent_slot self)) "Failed to get soon accounts code";
  map_err FraudInitError (accounts_deserialize soon_accounts).

(** The machine is set up over the accounts of the parent, and runs the transactions of the payload. *)
Definition offchain_run_block (attrs : OpPayloadAttributes) (self : OffchainL2Builder)
    : outcome ExecutorError (SoonAccounts * Outcome * Svm) :=
  soon_accounts ← get_init_accounts self;
  parent_bank_hash ← fetch (cal_svm_bank_hash (parent_slot self)) "Failed to get svm parent bank hash code";
  parent_bank_hash ← exactly_32 parent_bank_hash;
  clock_timestamp ← fetch (cal_svm_clock_timestamp (current_slot self)) "Failed to get clock timestamp";
  clock_timestamp ← map_err FraudInitError (i64_deserialize clock_timestamp);
  genesis_hash ← expect (cfg_genesis_hash (ob_config self));
  svm ← map_err FraudExecutorError (offchain_init
    {| oc_genesis_hash := genesis_hash;
       oc_parent_slot := parent_slot self;
       oc_parent_bank_hash := parent_bank_hash;
       oc_leader_schedule := cfg_sequencer_schedules (ob_config self);
       oc_accounts_callback := soon_accounts;
       oc_clock_timestamp := clock_timestamp |});
  block ← convert_block attrs;
  let '(r, svm) := execute_block block svm in
  outcome ← map_err FraudExecutorError r;
  Ok (soon_accounts, outcome, svm).

(** The accounts after the block: those before it, overwritten with the changes. *)
Definition accounts_after (soon_accounts diff : SoonAccounts) : SoonAccounts :=
  accounts_from_map (extend (extend ∅ soon_accounts) diff).

Definition with_state_root (state_root : B256) (o : Outcome) : Outcome :=
  mkOutcome (bo_block_info o) state_root (bo_withdraw_root o) (bo_execution_result o) (bo_signature_count o)
    (bo_fee_rate_governor o).

(** The expected root is read, and compared only for the log. *)
Definition offchain_build_block (attrs : OpPayloadAttributes) : Builder Outcome :=
  self ← gets id;
  ran ← lift (offchain_run_block attrs self);
  let '(soon_accounts, outcome, svm) := ran in
  let diff := svm_export_diff_accounts svm in
  modify (set_diff_accounts diff);;
  let state_root := soon_state_root (accounts_after soon_accounts diff) in
  modify (set_state_root state_root);;
  actual_root ← lift (fetch (cal_init_state_root_hash (current_slot self)) "Failed to get init state root");
  _ ← lift (exactly_32 actual_root);
  mret (with_state_root state_root outcome).

Definition offchain_output_root : Builder B256 :=
  self ← gets id;
  (if decide (ob_state_root self = B256_ZERO) then
     soon_accounts ← lift (get_init_accounts self);
     modify (set_state_root (soon_state_root soon_accounts))
   else mret tt);;
  gets ob_state_root.
Definition offchain_account_diff (self : OffchainL2Builder) : SoonAccounts := ob_diff_accounts self.
(** [todo!()]. *)
Definition offchain_trie_db (self : OffchainL2Builder) : outcome ExecutorError TrieDB := Panic.

(** * The accounts a state root commits to *)

Context `{!PathCodec}.

(** The map whose trie has the root [trie_root pairs]. *)
Definition pairs_world (pairs : list (B256 * bytes)) : World := list_to_map ((λ '(k, v), (unpack k, v)) <$> pairs).

(** Accounts whose keys, and the hashes of their keys, are different. *)
Definition distinct (accounts : SoonAccounts) : Prop := NoDup ((λ entry, account_path entry.1) <$> accounts).

Definition encoded (account : AccountSharedData) : bytes := sol_account_encoder (account_from_solana_native account).

Lemma mpt_accounts_fmap accounts :
  mpt_accounts accounts = (λ entry, (keccak256 entry.1, account_from_solana_native entry.2)) <$> accounts.
Proof.
  unfold mpt_accounts. rewrite <- (app_nil_l (_ <$> accounts)). generalize (@nil (B256 * TrieSolanaAccount)).
  induction accounts as [|[k a] l IH]; intros target; cbn; [by rewrite app_nil_r|]. rewrite IH. unfold add_trie_account.
  by rewrite <- app_assoc.
Qed.
Lemma pairs_world_eq accounts :
  pairs_world (encoded_accounts accounts) = list_to_map ((λ entry, (account_path entry.1, encoded entry.2)) <$> accounts).
Proof.
  unfold pairs_world, encoded_accounts. rewrite mpt_accounts_fmap, <- !list_fmap_compose. done.
Qed.

Lemma world_lookup accounts p v :
  distinct accounts →
  pairs_world (encoded_accounts accounts) !! p = Some v ↔ ∃ entry, entry ∈ accounts ∧ p = account_path entry.1 ∧ v = encoded entry.2.
Proof.
  intros Hd. rewrite pairs_world_eq, <- elem_of_list_to_map, list_elem_of_fmap; [naive_solver|].
  rewrite <- list_fmap_compose. exact Hd.
Qed.

(** The keys of the two lists of accounts are told apart by their hashes. *)
Definition told_apart (before diff : SoonAccounts) : Prop :=
  distinct before ∧ distinct diff ∧
  ∀ x y, x ∈ before → y ∈ diff → account_path x.1 = account_path y.1 → x.1 = y.1.

Lemma distinct_keys (accounts : SoonAccounts) : distinct accounts → NoDup accounts.*1.
Proof. intros Hd. apply (NoDup_fmap_1 account_path). rewrite <- list_fmap_compose. exact Hd. Qed.
Lemma distinct_inj (accounts : SoonAccounts) x y :
  distinct accounts → x ∈ accounts → y ∈ accounts → account_path x.1 = account_path y.1 → x = y.
Proof.
  intros Hd (i & Hi)%list_elem_of_lookup (j & Hj)%list_elem_of_lookup Hp.
  assert (i = j) as ->; [|congruence]. eapply (NoDup_lookup _ _ _ (account_path x.1) Hd); rewrite list_lookup_fmap, ?Hi, ?Hj; cbn; congruence.
Qed.

Lemma elem_of_after before diff x :
  told_apart before diff →
  x ∈ accounts_after before diff ↔ x ∈ diff ∨ x ∈ before ∧ x.1 ∉ diff.*1.
Proof.
  intros (Hb & Hd & _). destruct x as [k a]. unfold accounts_after, accounts_from_map. rewrite sort_by_key_perm, elem_of_map_to_list.
  pose proof (distinct_keys _ Hb) as Nb. pose proof (distinct_keys _ Hd) as Nd. cbn.
  destruct (decide (k ∈ diff.*1)) as [Hin|Hout].
  - apply list_elem_of_fmap in Hin as ([k' v] & -> & Hin). cbn. rewrite (extend_lookup_Some _ diff k' v Nd Hin).
    split; [intros [= ->]; by left|]. intros [Hx|[_ Hx]].
    + f_equal. by injection (distinct_inj diff (k', v) (k', a) Hd Hin Hx eq_refl).
    + destruct Hx. by apply (list_elem_of_fmap_2 fst _ (k', v)).
  - rewrite extend_lookup_None by done. split.
    + intros Hk. right. split; [|done]. destruct (decide (k ∈ before.*1)) as [Hin|Hn].
      * apply list_elem_of_fmap in Hin as ([k' v] & -> & Hin). cbn in *. rewrite (extend_lookup_Some _ before k' v Nb Hin) in Hk.
        by injection Hk as ->.
      * by rewrite extend_lookup_None in Hk.
    + intros [Hx|[Hx _]]; [|by apply extend_lookup_Some]. destruct Hout. by apply (list_elem_of_fmap_2 fst _ (k, a)).
Qed.

Lemma distinct_after before diff : told_apart before diff → distinct (accounts_after before diff).
Proof.
  intros Hta. pose proof Hta as (Hb & Hd & Hx). unfold distinct.
  assert (NoDup (accounts_after before diff)) as Hn.
  { unfold accounts_after, accounts_from_map. rewrite sort_by_key_perm. apply NoDup_map_to_list. }
  apply NoDup_fmap_2_strong; [|exact Hn]. intros x y Hxi Hyi Hp. cbn in Hp.
  rewrite !elem_of_after in * by done.
  destruct Hxi as [Hxi|[Hxi Hxo]], Hyi as [Hyi|[Hyi Hyo]].
  - by apply (distinct_inj diff).
  - destruct Hyo. rewrite (Hx y x) by done. by apply list_elem_of_fmap_2.
  - destruct Hxo. rewrite (Hx x y) by done. by apply list_elem_of_fmap_2.
  - by apply (distinct_inj before).
Qed.

Lemma after_world_agrees before diff :
  told_apart before diff →
  pairs_world (encoded_accounts (accounts_after before diff)) = foldl state_update (pairs_world (encoded_accounts before)) diff
  ↔ Forall (λ entry, acc_lamports entry.2 ≠ 0) diff.
Proof.
  intros Hta. pose proof Hta as (Hb & Hd & Hx). pose proof (distinct_after before diff Hta) as Ha.
  split.
  - intros Heq. apply Forall_forall. intros entry Hin Hdead.
    pose proof (foldl_fixed state_update (pairs_world (encoded_accounts before)) diff entry state_update_local Hd Hin) as Hfix.
    rewrite <- Heq in Hfix. assert (pairs_world (encoded_accounts (accounts_after before diff)) !! account_path entry.1 = None) as Hnone.
    { rewrite <- Hfix. unfold state_update. rewrite decide_True by done. apply lookup_delete_eq. }
    assert (pairs_world (encoded_accounts (accounts_after before diff)) !! account_path entry.1 = Some (encoded entry.2)) as Hsome.
    { apply world_lookup; [done|]. exists entry. split; [|done]. apply elem_of_after; [done|by left]. }
    congruence.
  - intros Halive. apply map_eq. intros p. destruct (decide (p ∈ (λ entry : Entry, account_path entry.1) <$> diff)) as [Hin|Hout].
    + apply list_elem_of_fmap in Hin as (entry & -> & Hin).
      rewrite <- (foldl_fixed state_update _ diff entry state_update_local Hd Hin). unfold state_update at 1.
      rewrite decide_False by (by eapply Forall_forall in Halive). rewrite lookup_insert_eq.
      apply world_lookup; [done|]. exists entry. split; [|done]. apply elem_of_after; [done|by left].
    + rewrite foldl_lookup_ne by (apply state_update_local || done). apply option_eq. intros v. rewrite !world_lookup by done.
      split; intros (entry & Hin & -> & ->); exists entry.
      * rewrite elem_of_after in Hin by done. destruct Hin as [Hin|[Hin _]]; [|done].
        destruct Hout. by apply (list_elem_of_fmap_2 (λ entry : Entry, account_path entry.1)).
      * split; [|done]. apply elem_of_after; [done|]. right. split; [done|].
        intros (y & Hy & Hyi)%list_elem_of_fmap. apply Hout. rewrite Hy. by apply (list_elem_of_fmap_2 (λ entry : Entry, account_path entry.1)).
Qed.

(** C29. The state root of a block that the offchain builder builds is the root of all accounts after it.
    These are the accounts of the stateless builder's world state (the parent's, with the changes applied)
    exactly when the block destroys no account: the stateless builder deletes a destroyed account, this one
    keeps a leaf for it. *)
Theorem offchain_root_agrees attrs self outcome self' :
  offchain_build_block attrs self = (Ok outcome, self') →
  ∃ before, get_init_accounts self = Ok before ∧
    let diff := offchain_account_diff self' in
    bo_state_root outcome = trie_root (encoded_accounts (accounts_after before diff)) ∧
    (told_apart before diff →
     pairs_world (encoded_accounts (accounts_after before diff)) = foldl state_update (pairs_world (encoded_accounts before)) diff
     ↔ Forall (λ entry, acc_lamports entry.2 ≠ 0) diff).
Proof.
  intros Hbuild. unfold offchain_build_block in Hbuild. rewrite run_gets, run_lift in Hbuild.
  destruct (offchain_run_block attrs (id self)) as [[[before ran] svm]|e|] eqn:Hrun; [|done|done].
  apply obind_Ok in Hrun as (before' & Hbefore & Hrun). exists before. split.
  - unfold id in Hbefore. rewrite Hbefore. f_equal. repeat (apply obind_Ok in Hrun as (? & _ & Hrun)).
    destruct (execute_block _ _) as [r svm'] in Hrun. apply obind_Ok in Hrun as (? & _ & Hrun). congruence.
  - rewrite !run_modify in Hbuild. apply bind_Ok in Hbuild as (? & s1 & Hf & Hbuild). apply bind_Ok in Hbuild as (? & s2 & Hf' & Hbuild).
    injection Hf as _ <-. injection Hf' as _ <-. injection Hbuild as <- <-. cbn. split; [done|]. apply after_world_agrees.
Qed.
End offchain.

(** * A block on the machine that replays changes *)

Module Files.
#[local] Existing Instances Two.keccak Concrete.paths Replaying.machine.
(** The parent has one account; the preimages are told apart by the first letter after the slot. *)
Definition parent_accounts : SoonAccounts := [Replaying.opened; ([byte0], mkAccount 3 [] [byte0] false 0)].
#[local] Instance files : TrieDBProvider := {|
  provider_bank_hash _ := Err "none"%string;
  provider_block_time _ := Err "none"%string;
  provider_data_by_hash hash := Ok (replicate 32 byte0);
  hint_bank_hash _ := Ok tt;
  hint_block_time _ := Ok tt;
  decode_account _ := Err "none"%string;
|}.
#[local] Instance codec : OffchainCodec := {|
  accounts_deserialize _ := Ok parent_accounts;
  i64_deserialize _ := Ok 1700;
  trie_root pairs := keccak256 (mjoin (snd <$> pairs) ++ mjoin (fst <$> pairs));
|}.
#[local] Instance machine : OffchainMachine (list Entry) := λ config, Ok [].
Definition builder : OffchainL2Builder := new_offchain Replaying.config Two.header.
End Files.
#[local] Existing Instances Two.keccak Concrete.paths Replaying.machine Files.files Files.codec Files.machine.

(** A block that closes an account. *)
Definition closing : OpPayloadAttributes := Replaying.payload [[byte0]].
Lemma offchain_root_agrees_witness :
  let '(r, self') := offchain_build_block closing Files.builder in
  is_ok r = true ∧
  pairs_world (encoded_accounts (accounts_after Files.parent_accounts (offchain_account_diff self'))) ≠
    foldl state_update (pairs_world (encoded_accounts Files.parent_accounts)) (offchain_account_diff self').
Proof.
  assert (is_ok (offchain_build_block closing Files.builder).1 = true) as Hok by (vm_compute; reflexivity).
  assert (offchain_account_diff (offchain_build_block closing Files.builder).2 = [Replaying.closed]) as Hdiff
    by (vm_compute; reflexivity).
  destruct (offchain_build_block closing Files.builder) as [r self'] eqn:Hb. cbn [fst snd] in Hok, Hdiff. split; [exact Hok|].
  destruct r as [outcome|e|]; [|done|done].
  destruct (offchain_root_agrees closing Files.builder outcome self' Hb) as (before & [= <-] & _ & Hiff).
  rewrite Hdiff in *. intros Heq. apply Hiff in Heq; [by inversion Heq|].
  split; [|split]; [apply (bool_decide_unpack _); by vm_compute..|].
  intros x y Hx Hy Hp. apply list_elem_of_singleton in Hy as ->.
  change (x ∈ Replaying.opened :: [([byte0], mkAccount 3 [] [byte0] false 0)]) in Hx.
  apply elem_of_cons in Hx as [->|Hx]; [|apply list_elem_of_singleton in Hx as ->; done].
  exfalso. revert Hp. by vm_compute.
Defined.

(** The root that was expected is all zeroes, and the block is built. *)
Example mismatch_ignored :
  is_ok (offchain_build_block closing Files.builder).1 = true ∧
  exactly_32 (replicate 32 byte0) = Ok B256_ZERO ∧
  bool_decide (ob_state_root (offchain_build_block closing Files.builder).2 = B256_ZERO) = false.
Proof. by split_and!; vm_compute. Qed.
(** What it answers as an output root is the state root itself. *)
Example output_root_is_state_root :
  run offchain_output_root (offchain_build_block closing Files.builder).2
    = Ok (ob_state_root (offchain_build_block closing Files.builder).2).
Proof. by vm_compute. Qed.
