(* ===== verification/Cursor.v ===== *)
(** The cursor of the driver (src/crates/protocol/driver/src/cursor.rs, tip.rs): the L2 tip of
    every recent L1 origin, in a cache with first-in first-out eviction.

    The theorem follows a cursor through any sequence of [advance]s whose L1 origins do not go
    back: the tip is always the last block given, a cached tip is the last one of its origin, and
    a tip is evicted only in favour of newer origins. *)
From stdpp Require Import sorting.
From S2P Require Import Prelude Blocks Types TrieDB.
#[local] Open Scope Z_scope.

Record TipCursor := mkTipCursor {
  tc_l2_safe_head : L2BlockInfo;
  tc_l2_safe_head_header : L2BlockHeader;
  tc_l2_safe_head_output_root : B256;
}.

Record PipelineCursor := mkPipelineCursor {
  cu_capacity : Z;
  cu_channel_timeout : Z;
  cu_origin : BlockInfo;
  cu_origins : list Z;
  cu_origin_infos : gmap Z BlockInfo;
  cu_tips : gmap Z TipCursor;
}.

(** [BTreeMap::last_key_value], and [range(..=bound).next_back()]. *)
Definition later {A} (kv : Z * A) (best : option (Z * A)) : option (Z * A) :=
  match best with
  | None => Some kv
  | Some b => if decide (b.1 < kv.1) then Some kv else Some b
  end.
Definition last_key_value {A} (m : gmap Z A) : option (Z * A) := foldr later None (map_to_list m).
Definition range_last {A} (bound : Z) (m : gmap Z A) : option (Z * A) :=
  last_key_value (filter (λ kv, kv.1 <= bound) m).

(** * Operations *)

(** [usize] has 64 bits. *)
Definition new (channel_timeout : Z) (origin : BlockInfo) : PipelineCursor :=
  {| cu_capacity := u64_add channel_timeout 5;
     cu_channel_timeout := channel_timeout;
     cu_origin := origin;
     cu_origins := [bi_number origin];
     cu_origin_infos := {[bi_number origin := origin]};
     cu_tips := ∅ |}.

Definition tip {E} (self : PipelineCursor) : outcome E TipCursor :=
  match last_key_value (cu_tips self) with
  | Some (_, l2_tip) => Ok l2_tip
  | None => Panic
  end.

(** The oldest entry makes room. *)
Definition evict {E} : ST PipelineCursor E unit := λ self,
  match cu_origins self with
  | [] => (Panic, self)
  | key :: origins =>
      (Ok tt, mkPipelineCursor (cu_capacity self) (cu_channel_timeout self) (cu_origin self) origins
                (cu_origin_infos self) (delete key (cu_tips self)))
  end.
Definition record_tip (origin : BlockInfo) (l2_tip_block : TipCursor) (self : PipelineCursor) : PipelineCursor :=
  {| cu_capacity := cu_capacity self;
     cu_channel_timeout := cu_channel_timeout self;
     cu_origin := origin;
     cu_origins := cu_origins self ++ [bi_number origin];
     cu_origin_infos := <[bi_number origin := origin]> (cu_origin_infos self);
     cu_tips := <[bi_number origin := l2_tip_block]> (cu_tips self) |}.

Definition advance {E} (origin : BlockInfo) (l2_tip_block : TipCursor) : ST PipelineCursor E unit :=
  self ← gets id;
  _ ← (if decide (Z.of_nat (size (cu_tips self)) >= cu_capacity self) then evict else mret tt);
  modify (record_tip origin l2_tip_block).

Definition reset {E} (fork_block : Z) (self : PipelineCursor) : outcome E (TipCursor * BlockInfo) :=
  let channel_start := u64_sub fork_block (cu_channel_timeout self) in
  match cu_tips self !! channel_start with
  | Some l2_safe_tip =>
      info ← expect (cu_origin_infos self !! channel_start);
      Ok (l2_safe_tip, info)
  | None =>
      '(last_l1_known_tip, l2_known_tip) ← expect (range_last channel_start (cu_tips self));
      info ← expect (cu_origin_infos self !! last_l1_known_tip);
      Ok (l2_known_tip, info)
  end.

(** A sequence of [advance]s. *)
Definition advances {E} (history : list (BlockInfo * TipCursor)) : ST PipelineCursor E unit :=
  for_each (λ '(origin, l2_tip_block), advance origin l2_tip_block) history.

(** * The last entry of a map *)

Section last_entry.
Context {A : Type}.
Implicit Types m : gmap Z A.

Lemma later_spec (l : list (Z * A)) :
  match foldr later None l with
  | Some kv => kv ∈ l ∧ Forall (λ kv', kv'.1 <= kv.1) l
  | None => l = []
  end.
Proof.
  induction l as [|x l IH]; [done|]. cbn. destruct (foldr later None l) as [b|]; cbn.
  - destruct IH as [Hin Hl]. destruct (decide (b.1 < x.1)).
    + split; [left|]. constructor; [lia|]. eapply Forall_impl; [exact Hl|]. cbn. lia.
    + split; [by right|]. constructor; [lia|done].
  - subst l. split; [left|]. by repeat constructor.
Qed.

Lemma last_key_value_Some m k v :
  last_key_value m = Some (k, v) ↔ m !! k = Some v ∧ ∀ k', is_Some (m !! k') → k' <= k.
Proof.
  unfold last_key_value. pose proof (later_spec (map_to_list m)) as Hl.
  destruct (foldr later None (map_to_list m)) as [[k1 v1]|].
  - destruct Hl as [Hin Hall]. apply elem_of_map_to_list in Hin. rewrite Forall_forall in Hall.
    assert (∀ k', is_Some (m !! k') → k' <= k1) as Hmax.
    { intros k' [v' Hv]. apply (Hall (k', v')). by apply elem_of_map_to_list. }
    split; [intros [= -> ->]; done|]. intros [Hk Hk']. assert (k = k1) as ->.
    { apply Z.le_antisymm; [apply Hmax|apply Hk']; by eexists. }
    congruence.
  - apply map_to_list_empty_iff in Hl as ->. split; [done|]. intros [Hk _]. by rewrite lookup_empty in Hk.
Qed.
Lemma last_key_value_None m : last_key_value m = None ↔ m = ∅.
Proof.
  split.
  - unfold last_key_value. pose proof (later_spec (map_to_list m)) as Hl. intros Hn. rewrite Hn in Hl.
    by apply map_to_list_empty_iff.
  - intros ->. done.
Qed.

Lemma range_last_Some bound m k v :
  range_last bound m = Some (k, v) ↔ m !! k = Some v ∧ k <= bound ∧ ∀ k', is_Some (m !! k') → k' <= bound → k' <= k.
Proof.
  unfold range_last. rewrite last_key_value_Some, map_lookup_filter_Some. cbn. split.
  - intros [[Hk Hb] Hm]. split_and!; [done..|]. intros k' [v' Hv] Hb'. apply Hm. exists v'.
    by apply map_lookup_filter_Some.
  - intros (Hk & Hb & Hm). split; [done|]. intros k' [v' [Hv Hb']%map_lookup_filter_Some]. apply Hm; [by eexists|done].
Qed.
End last_entry.

(** The number of entries newer than [k]. *)
Definition newer {A} (k : Z) (m : gmap Z A) : Z := Z.of_nat (size (filter (λ kv, k < kv.1) m)).

Section newer.
Context {A : Type}.
Implicit Types m : gmap Z A.

Lemma size_mono (m1 m2 : gmap Z A) : dom m1 ⊆ dom m2 → (size m1 <= size m2)%nat.
Proof. intros Hd. rewrite <- !size_dom. by apply subseteq_size. Qed.
Lemma newer_insert k m o t : newer k m <= newer k (<[o := t]> m).
Proof.
  unfold newer. apply inj_le, size_mono. intros x. rewrite !elem_of_dom. intros [v [Hv Hk]%map_lookup_filter_Some].
  destruct (decide (o = x)) as [->|Hne].
  - exists t. apply map_lookup_filter_Some. by rewrite lookup_insert_eq.
  - exists v. apply map_lookup_filter_Some. by rewrite lookup_insert_ne.
Qed.
Lemma newer_below k m : (∀ k', is_Some (m !! k') → k < k') → newer k m = Z.of_nat (size m).
Proof.
  intros Hm. unfold newer. do 2 f_equal. apply map_eq. intros x. destruct (m !! x) as [v|] eqn:Hx.
  - apply map_lookup_filter_Some. split; [done|]. apply Hm. by eexists.
  - rewrite map_lookup_filter_None. by left.
Qed.
(** Removing the first entry leaves the capacity but one. *)
Lemma newer_delete k m f c :
  (∀ k', is_Some (m !! k') → f <= k') → c <= Z.of_nat (size m) → c - 1 <= newer k m ∨ k = f → 
  c - 1 <= newer k (delete f m).
Proof.
  intros Hf Hc Hk. destruct (decide (k < f)) as [Hlt|Hge].
  - rewrite newer_below.
    + destruct (m !! f) as [v|] eqn:Hmf; [rewrite map_size_delete_Some by (by eexists); lia|].
      rewrite map_size_delete_None by done. lia.
    + intros k' [v [Hne Hv]%lookup_delete_Some]. pose proof (Hf k' ltac:(by eexists)). lia.
  - destruct Hk as [Hk| ->].
    + etrans; [exact Hk|]. unfold newer. apply inj_le, size_mono. intros x. rewrite !elem_of_dom.
      intros [v [Hv Hx]%map_lookup_filter_Some]. cbn in Hx. exists v. apply map_lookup_filter_Some.
      split; [apply lookup_delete_Some; split; [lia|done]|done].
    + rewrite newer_below.
      * destruct (m !! f) as [v|] eqn:Hmf; [rewrite map_size_delete_Some by (by eexists); lia|].
        rewrite map_size_delete_None by done. lia.
      * intros k' [v [Hne Hv]%lookup_delete_Some]. pose proof (Hf k' ltac:(by eexists)). lia.
Qed.
End newer.

(** * What a cursor holds after its history *)

Abbreviation History := (list (BlockInfo * TipCursor)).
Definition last_entry (history : History) (k : Z) : option (BlockInfo * TipCursor) :=
  last (filter (λ entry, bi_number entry.1 = k) history).

Lemma last_entry_snoc history o t k :
  last_entry (history ++ [(o, t)]) k = if decide (bi_number o = k) then Some (o, t) else last_entry history k.
Proof.
  unfold last_entry. rewrite filter_app. case_decide as Ho.
  - rewrite filter_cons_True by done. change (filter _ []) with (@nil (BlockInfo * TipCursor)). by rewrite last_snoc.
  - rewrite filter_cons_False by done. cbn. by rewrite app_nil_r.
Qed.

Lemma elem_of_suffix {A} (x : A) l k : l `suffix_of` k → x ∈ l → x ∈ k.
Proof. intros [p ->] Hx. apply elem_of_app. by right. Qed.

Record tracks (history : History) (c : PipelineCursor) : Prop := {
  t_queued k : is_Some (cu_tips c !! k) → k ∈ cu_origins c;
  t_sorted : StronglySorted Z.le (cu_origins c);
  t_newest k : k ∈ cu_origins c → k <= bi_number (cu_origin c);
  t_nonempty : cu_origins c ≠ [];
  t_tips k t : cu_tips c !! k = Some t → ∃ i, last_entry history k = Some (i, t);
  t_infos k i t : last_entry history k = Some (i, t) → cu_origin_infos c !! k = Some i;
  t_kept k i t : last_entry history k = Some (i, t) → cu_tips c !! k = Some t ∨ cu_capacity c - 1 <= newer k (cu_tips c);
}.

Lemma new_tracks channel_timeout origin : tracks [] (new channel_timeout origin).
Proof.
  split; cbn; try done.
  - intros k. rewrite lookup_empty. by intros [].
  - by repeat constructor.
  - intros k ->%list_elem_of_singleton. done.
Qed.

Lemma evict_tracks {E} history c :
  tracks history c → Z.of_nat (size (cu_tips c)) >= cu_capacity c →
  ∃ key origins, cu_origins c = key :: origins ∧
    evict (E:=E) c = (Ok tt, mkPipelineCursor (cu_capacity c) (cu_channel_timeout c) (cu_origin c) origins
                       (cu_origin_infos c) (delete key (cu_tips c))) ∧
    (∀ k, is_Some (delete key (cu_tips c) !! k) → k ∈ origins) ∧
    (∀ k i t, last_entry history k = Some (i, t) →
       delete key (cu_tips c) !! k = Some t ∨ cu_capacity c - 1 <= newer k (delete key (cu_tips c))).
Proof.
  intros Ht Hfull. destruct (cu_origins c) as [|key origins] eqn:Ho; [by destruct (t_nonempty _ _ Ht)|].
  exists key, origins. split; [done|]. split; [by unfold evict; rewrite Ho|].
  pose proof (t_sorted _ _ Ht) as Hs. rewrite Ho in Hs. apply StronglySorted_inv in Hs as [_ Hs].
  rewrite Forall_forall in Hs. split.
  - intros k [t [Hne Hk]%lookup_delete_Some]. pose proof (t_queued _ _ Ht k ltac:(by eexists)) as Hq.
    rewrite Ho in Hq. apply elem_of_cons in Hq. naive_solver.
  - intros k i t Hk. destruct (decide (k = key)) as [->|Hne].
    + right. apply newer_delete; [|lia|by right]. intros k' Hk'. pose proof (t_queued _ _ Ht k' Hk') as Hq.
      rewrite Ho in Hq. apply elem_of_cons in Hq as [->|Hq]; [done|]. by apply Hs.
    + destruct (t_kept _ _ Ht k i t Hk) as [Hkept|Hkept]; [left; by rewrite lookup_delete_ne|].
      right. apply newer_delete; [|lia|by left]. intros k' Hk'. pose proof (t_queued _ _ Ht k' Hk') as Hq.
      rewrite Ho in Hq. apply elem_of_cons in Hq as [->|Hq]; [done|]. by apply Hs.
Qed.

Lemma record_tracks history c o t origins tips :
  tracks history c → bi_number (cu_origin c) <= bi_number o → origins `suffix_of` cu_origins c →
  (∀ k t, tips !! k = Some t → cu_tips c !! k = Some t) → (∀ k, is_Some (tips !! k) → k ∈ origins) →
  (∀ k i t, last_entry history k = Some (i, t) → tips !! k = Some t ∨ cu_capacity c - 1 <= newer k tips) →
  tracks (history ++ [(o, t)])
    (record_tip o t (mkPipelineCursor (cu_capacity c) (cu_channel_timeout c) (cu_origin c) origins (cu_origin_infos c) tips)).
Proof.
  intros Ht Ho Hsub Htips Hq Hkept.
  assert (∀ k, k ∈ origins → k <= bi_number o) as Hle.
  { intros k Hk. etrans; [|exact Ho]. apply (t_newest _ _ Ht). by eapply elem_of_suffix. }
  split; cbn.
  - intros k [t' Hk]. apply elem_of_app. apply lookup_insert_Some in Hk as [[<- _]|[_ Hk]]; [right; left|].
    left. apply Hq. by eexists.
  - destruct Hsub as [popped Hsub]. pose proof (t_sorted _ _ Ht) as Hs. rewrite Hsub in Hs.
    apply StronglySorted_app in Hs as (_ & _ & Hs). apply StronglySorted_app_2; [|done|by repeat constructor].
    intros x y Hx ->%list_elem_of_singleton. by apply Hle.
  - intros k [Hk| ->%list_elem_of_singleton]%elem_of_app; [by apply Hle|done].
  - by destruct origins.
  - intros k t'. rewrite last_entry_snoc, lookup_insert_Some. intros [[-> ->]|[Hne Hk]].
    + rewrite decide_True by done. by eexists.
    + rewrite decide_False by done. apply (t_tips _ _ Ht). by apply Htips.
  - intros k i t'. rewrite last_entry_snoc. case_decide as Hk.
    + intros [= <- <-]. subst k. by rewrite lookup_insert_eq.
    + intros He. rewrite lookup_insert_ne by done. by apply (t_infos _ _ Ht) in He.
  - intros k i t'. rewrite last_entry_snoc. case_decide as Hk.
    + intros [= <- <-]. subst k. left. by rewrite lookup_insert_eq.
    + intros He. rewrite lookup_insert_ne by done. destruct (Hkept k i t' He) as [Hin|Hin]; [by left|right].
      etrans; [exact Hin|]. apply newer_insert.
Qed.

Lemma advance_tracks {E} history c o t :
  tracks history c → bi_number (cu_origin c) <= bi_number o →
  ∃ c', advance (E:=E) o t c = (Ok tt, c') ∧ tracks (history ++ [(o, t)]) c' ∧ cu_origin c' = o ∧
    cu_capacity c' = cu_capacity c ∧ cu_channel_timeout c' = cu_channel_timeout c ∧
    ∀ E', tip (E:=E') c' = Ok t.
Proof.
  intros Ht Ho.
  assert (∃ origins tips,
    (if decide (Z.of_nat (size (cu_tips c)) >= cu_capacity c) then evict else mret tt) c
      = (Ok (E:=E) tt, mkPipelineCursor (cu_capacity c) (cu_channel_timeout c) (cu_origin c) origins (cu_origin_infos c) tips) ∧
    origins `suffix_of` cu_origins c ∧ (∀ k t, tips !! k = Some t → cu_tips c !! k = Some t) ∧
    (∀ k, is_Some (tips !! k) → k ∈ origins) ∧
    (∀ k i t, last_entry history k = Some (i, t) → tips !! k = Some t ∨ cu_capacity c - 1 <= newer k tips))
    as (origins & tips & Hrun & Hsub & Htips & Hq & Hkept).
  { case_decide as Hfull.
    - destruct (evict_tracks (E:=E) history c Ht Hfull) as (key & origins & Hor & Hev & Hq & Hkept).
      exists origins, (delete key (cu_tips c)). split_and!; [done| | |done|done].
      + rewrite Hor. by exists [key].
      + by intros k t' [_ Hk]%lookup_delete_Some.
    - exists (cu_origins c), (cu_tips c). split_and!; [by destruct c|done..|apply (t_queued _ _ Ht)|apply (t_kept _ _ Ht)]. }
  eexists. split_and!.
  - unfold advance. rewrite run_gets. unfold id. rewrite (run_op _ _ _ _ _ Hrun). unfold modify. reflexivity.
  - by apply record_tracks.
  - done.
  - done.
  - done.
  - intros E'. unfold tip. assert (last_key_value (<[bi_number o := t]> tips) = Some (bi_number o, t)) as Hl.
    { apply last_key_value_Some. split; [apply lookup_insert_eq|]. intros k' [t' Hk].
      apply lookup_insert_Some in Hk as [[<- _]|[_ Hk]]; [done|]. etrans; [|exact Ho].
      apply (t_newest _ _ Ht). eapply elem_of_suffix; [exact Hsub|]. apply Hq. by eexists. }
    cbn [cu_tips record_tip]. by rewrite Hl.
Qed.

Lemma advances_tracks {E} history : ∀ past c,
  tracks past c → StronglySorted Z.le (bi_number (cu_origin c) :: ((λ entry, bi_number entry.1) <$> history)) →
  ∃ c', advances (E:=E) history c = (Ok tt, c') ∧ tracks (past ++ history) c' ∧
    cu_capacity c' = cu_capacity c ∧ cu_channel_timeout c' = cu_channel_timeout c ∧
    (∀ o t, last history = Some (o, t) → cu_origin c' = o ∧ ∀ E', tip (E:=E') c' = Ok t).
Proof.
  induction history as [|[o t] history IH]; intros past c Ht Hs.
  { exists c. rewrite app_nil_r. by split_and!. }
  cbn [fmap list_fmap] in Hs. apply StronglySorted_inv in Hs as [Hs Hle]. apply Forall_cons in Hle as [Hle _]. cbn in Hle.
  destruct (advance_tracks (E:=E) past c o t Ht Hle) as (c1 & Hrun & Ht1 & Ho1 & Hc1 & Hct1 & Htip1).
  destruct (IH (past ++ [(o, t)]) c1 Ht1) as (c2 & Hrun2 & Ht2 & Hc2 & Hct2 & Hlast); [by rewrite Ho1|].
  exists c2. split_and!; [|by rewrite <- app_assoc in Ht2|congruence|congruence|].
  - unfold advances. cbn [for_each]. by rewrite (run_op _ _ _ _ _ Hrun).
  - intros o' t'. rewrite last_cons. destruct (last history) as [[o2 t2]|] eqn:Hl.
    + intros [= -> ->]. by apply Hlast.
    + intros [= -> ->]. apply last_None in Hl as ->. injection Hrun2 as <-. by split.
Qed.

(** What [reset] answers. *)
Lemma reset_tracks {E} history c fork_block k t :
  tracks history c → range_last (u64_sub fork_block (cu_channel_timeout c)) (cu_tips c) = Some (k, t) →
  ∃ i, last_entry history k = Some (i, t) ∧ reset (E:=E) fork_block c = Ok (t, i).
Proof.
  intros Ht Hr. pose proof Hr as Hk. apply range_last_Some in Hk as (Hk & Hle & Hmax).
  destruct (t_tips _ _ Ht k t Hk) as [i Hi]. exists i. split; [done|].
  pose proof (t_infos _ _ Ht k i t Hi) as Hinfo. unfold reset.
  destruct (cu_tips c !! u64_sub fork_block (cu_channel_timeout c)) as [t'|] eqn:Hexact.
  - assert (k = u64_sub fork_block (cu_channel_timeout c)) as ->.
    { apply Z.le_antisymm; [done|]. apply Hmax; [by eexists|done]. }
    rewrite Hinfo. cbn. congruence.
  - rewrite Hr. cbn. by rewrite Hinfo.
Qed.

(** C37. Whatever blocks the driver derives, as long as their L1 origins do not go back, advancing
    the cursor never panics; its tip is the last block and its origin that block's origin; a
    cached tip is the last block of its L1 origin, and a tip that was evicted left at least
    [capacity - 1] newer L1 origins in the cache; a reset answers the tip of the newest cached L1
    origin at or before the start of the channel, with that origin's block. *)
Theorem cursor_follows_history {E} channel_timeout origin (history : History) o t :
  StronglySorted Z.le (bi_number origin :: ((λ entry, bi_number entry.1) <$> history)) → last history = Some (o, t) →
  ∃ c, advances (E:=E) history (new channel_timeout origin) = (Ok tt, c) ∧
    cu_origin c = o ∧ tip (E:=E) c = Ok t ∧
    (∀ k t, cu_tips c !! k = Some t → ∃ i, last_entry history k = Some (i, t)) ∧
    (∀ k i t, last_entry history k = Some (i, t) →
       cu_tips c !! k = Some t ∨ u64_add channel_timeout 5 - 1 <= newer k (cu_tips c)) ∧
    (∀ fork_block k t, range_last (u64_sub fork_block channel_timeout) (cu_tips c) = Some (k, t) →
       ∃ i, last_entry history k = Some (i, t) ∧ reset (E:=E) fork_block c = Ok (t, i)).
Proof.
  intros Hs Hl.
  destruct (advances_tracks (E:=E) history [] (new channel_timeout origin) (new_tracks _ _) Hs) as (c & Hrun & Ht & Hc & Hct & Hlast).
  destruct (Hlast o t Hl) as [Ho Htip]. cbn in Hc, Hct. exists c. split_and!; [done|done|apply Htip|apply (t_tips _ _ Ht)| |].
  - rewrite <- Hc. apply (t_kept _ _ Ht).
  - rewrite <- Hct. intros fork_block k t'. by apply reset_tracks.
Qed.

(** * Examples *)

Module Origins.
Definition block (n : Z) : BlockInfo := mkBlockInfo [] n [] 0.
Definition l2 (n : Z) : TipCursor :=
  mkTipCursor (mkL2BlockInfo (block n) (mkBlockNumHash 0 []) 0) (mkL2BlockHeader (block n) [] []) [].
(** Two L2 blocks of L1 block 1, then one of each of the blocks 2 to 7. *)
Definition history : History :=
  [(block 1, l2 10); (block 1, l2 11); (block 2, l2 12); (block 3, l2 13); (block 4, l2 14); (block 5, l2 15);
   (block 6, l2 16); (block 7, l2 17)].
End Origins.

Lemma cursor_follows_history_witness :
  ∃ c, advances (E:=Empty_set) Origins.history (new 0 (Origins.block 1)) = (Ok tt, c) ∧
    cu_origin c = Origins.block 7 ∧ tip (E:=Empty_set) c = Ok (Origins.l2 17) ∧
    (∀ k t, cu_tips c !! k = Some t → ∃ i, last_entry Origins.history k = Some (i, t)) ∧
    (∀ k i t, last_entry Origins.history k = Some (i, t) → cu_tips c !! k = Some t ∨ 5 - 1 <= newer k (cu_tips c)) ∧
    (∀ fork_block k t, range_last (u64_sub fork_block 0) (cu_tips c) = Some (k, t) →
       ∃ i, last_entry Origins.history k = Some (i, t) ∧ reset (E:=Empty_set) fork_block c = Ok (t, i)).
Proof.
  apply (cursor_follows_history 0 (Origins.block 1) Origins.history (Origins.block 7) (Origins.l2 17)); [|done].
  repeat constructor; vm_compute; discriminate.
Defined.

(** The cache of capacity 5 holds 6 tips: when the second entry of L1 block 1 comes out of the queue
    its tip is gone already, and nothing is evicted. *)
Example cache_exceeds_capacity :
  let c := (advances (E:=Empty_set) Origins.history (new 0 (Origins.block 1))).2 in
  cu_capacity c = 5 ∧ size (cu_tips c) = 6%nat.
Proof. by vm_compute. Qed.
