(* ===== verification/Driver.v ===== *)
(** The driver of the proof program (src/crates/protocol/driver/src/core.rs, pipeline.rs,
    executor.rs, errors.rs), the oracle pipeline it drives
    (src/crates/proof/proof/src/l1/pipeline.rs) and the start of its cursor
    (src/crates/proof/proof/src/sync.rs).

    The theorems: [produce_payload] answers the first payload the derivation pipeline prepares,
    however many steps that takes; and [advance_to_target] executes the derived payloads one after
    the other, dropping those the virtual machine rejects, until it answers the safe head and the
    output root of the last one, which commits to the tries of the world state with the changes of
    all the executed blocks. *)
From S2P Require Import Prelude Blocks SystemConfig Types AttributesQueue Pipeline Reader Rlp Mpt MptReveal MptUpdate MptMap NodeCodec TrieDB Executor Cursor.
From stdpp Require Import sorting.
#[local] Open Scope Z_scope.

(** * Calls that may not return *)

(** A method with an unbounded [loop] is given fuel; without enough it has no result. *)
Definition Diverging (S E A : Type) : Type := S → option (outcome E A * S).

#[global] Instance diverging_ret S E : MRet (Diverging S E) := λ A a s, Some (Ok a, s).
#[global] Instance diverging_bind S E : MBind (Diverging S E) := λ A B k m s,
  match m s with
  | Some (Ok a, s') => k a s'
  | Some (Err e, s') => Some (Err e, s')
  | Some (Panic, s') => Some (Panic, s')
  | None => None
  end.
Definition returns {S E A} (m : ST S E A) : Diverging S E A := λ s, Some (m s).
Definition catching {S E E' A B} (m : Diverging S E A) (k : outcome E A → Diverging S E' B) : Diverging S E' B := λ s,
  match m s with
  | Some (Panic, s') => Some (Panic, s')
  | Some (r, s') => k r s'
  | None => None
  end.

(** [loop]: the body answers how to go on, or the result. *)
Fixpoint loop {S E L A} (fuel : nat) (body : L → Diverging S E (L + A)) (l : L) : Diverging S E A :=
  match fuel with
  | O => λ _, None
  | Datatypes.S fuel => next ← body l; match next with inl l => loop fuel body l | inr a => mret a end
  end.

(** * The interfaces of the driver *)

(** [DriverPipeline], with the methods of [Pipeline] and [Iterator] it uses. *)
Class DriverPipeline (DP : Type) := {
  dp_origin :: OriginProvider DP;
  dp_receiver :: SignalReceiver DP;
  dp_step : L2BlockInfo → ST DP Empty_set StepResult;
  dp_next : DP → option OpAttributesWithParent * DP;
  dp_system_config_by_number : Z → PipelineM DP SystemConfig;
  dp_flush : DP → DP;
}.

Class DriverExecutor (X TransactionResult FeeRateGovernor : Type) := {
  ex_error : Type;
  ex_update_safe_head : L2BlockHeader → ST X ex_error unit;
  ex_execute_payload : OpPayloadAttributes → ST X ex_error (BlockBuildingOutcome TransactionResult FeeRateGovernor);
  ex_compute_output_root : ST X ex_error B256;
  ex_reset : X → X;
}.

Inductive DriverError (E : Type) :=
| PipelineErr (e : PipelineErrorKind)
| ExecutorErr (e : E)
| DriverRlpErr (msg : string).
Arguments PipelineErr {E}.
Arguments ExecutorErr {E}.
Arguments DriverRlpErr {E}.

(** * Producing a payload *)

Section produce.
Context {DP : Type} `{!DriverPipeline DP}.

Definition known_origin : PipelineM DP BlockInfo := λ self, (ok_or (origin self) (crit MissingOrigin), self).

(** The answer to a reset error. *)
Definition on_reset (l2_safe_head : L2BlockInfo) (e : ResetError) : PipelineM DP unit :=
  system_config ← dp_system_config_by_number (bi_number (l2_block_info l2_safe_head));
  match e with
  | HoloceneActivation =>
      l1_origin ← known_origin;
      signal (Activation (mkActivationSignal l2_safe_head l1_origin (Some system_config)))
  | _ =>
      _ ← match e with ReorgDetected _ _ => modify dp_flush | _ => mret tt end;
      l1_origin ← known_origin;
      signal (Reset (mkResetSignal l2_safe_head l1_origin (Some system_config)))
  end.

(** What a step means; [false] is the loop's [continue].  The origin is for the log line. *)
Definition after_step (l2_safe_head : L2BlockInfo) (r : StepResult) : PipelineM DP bool :=
  match r with
  | PreparedAttributes => mret true
  | AdvancedOrigin => _ ← known_origin; mret true
  | OriginAdvanceErr e | StepFailed e =>
      match e with
      | Temporary _ => mret false
      | ResetKind e => _ ← on_reset l2_safe_head e; mret true
      | Critical _ => fail e
      end
  end.

Definition next_payload : PipelineM DP (unit + OpAttributesWithParent) := λ self,
  let '(attrs, self) := dp_next self in
  (Ok (match attrs with Some attrs => inr attrs | None => inl tt end), self).

Definition produce_once (l2_safe_head : L2BlockInfo) : PipelineM DP (unit + OpAttributesWithParent) :=
  r ← infallible (dp_step l2_safe_head);
  go_on ← after_step l2_safe_head r;
  if go_on : bool then next_payload else mret (inl tt).

Definition produce_payload (fuel : nat) (l2_safe_head : L2BlockInfo)
    : Diverging DP PipelineErrorKind OpAttributesWithParent :=
  loop fuel (λ _, returns (produce_once l2_safe_head)) tt.
End produce.

(** * The driver *)

Record Driver (X DP TransactionResult FeeRateGovernor : Type) := mkDriver {
  dr_cursor : PipelineCursor;
  dr_executor : X;
  dr_pipeline : DP;
  dr_safe_head_artifacts : option (BlockBuildingOutcome TransactionResult FeeRateGovernor * list bytes);
}.
Arguments mkDriver {X DP TransactionResult FeeRateGovernor}.
Arguments dr_cursor {X DP TransactionResult FeeRateGovernor}.
Arguments dr_executor {X DP TransactionResult FeeRateGovernor}.
Arguments dr_pipeline {X DP TransactionResult FeeRateGovernor}.
Arguments dr_safe_head_artifacts {X DP TransactionResult FeeRateGovernor}.

Section driver.
Context {X DP TransactionResult FeeRateGovernor : Type}.
Context `{!DriverExecutor X TransactionResult FeeRateGovernor} `{!DriverPipeline DP}.
Abbreviation Outcome := (BlockBuildingOutcome TransactionResult FeeRateGovernor).
Abbreviation Self := (Driver X DP TransactionResult FeeRateGovernor).
Abbreviation Error := (DriverError (ex_error (X:=X))).

Definition driver_new (cursor : PipelineCursor) (executor : X) (pipeline : DP) : Self :=
  mkDriver cursor executor pipeline None.

Definition set_cursor (c : PipelineCursor) (self : Self) : Self :=
  mkDriver c (dr_executor self) (dr_pipeline self) (dr_safe_head_artifacts self).
Definition set_executor (x : X) (self : Self) : Self :=
  mkDriver (dr_cursor self) x (dr_pipeline self) (dr_safe_head_artifacts self).
Definition set_pipeline (p : DP) (self : Self) : Self :=
  mkDriver (dr_cursor self) (dr_executor self) p (dr_safe_head_artifacts self).
Definition set_artifacts (a : option (Outcome * list bytes)) (self : Self) : Self :=
  mkDriver (dr_cursor self) (dr_executor self) (dr_pipeline self) a.

Definition on_executor {A} (m : ST X ex_error A) : ST Self Error A := λ self,
  let '(r, x) := m (dr_executor self) in (map_err ExecutorErr r, set_executor x self).
Definition on_pipeline {A} (m : Diverging DP PipelineErrorKind A) : Diverging Self PipelineErrorKind A := λ self,
  '(r, p) ← m (dr_pipeline self); Some (r, set_pipeline p self).

(** The part of the loop after the block ran: the cursor and the artifacts follow it. *)
Definition record_block (attributes : OpPayloadAttributes) (ran : Outcome) : ST Self Error unit :=
  pipeline ← gets dr_pipeline;
  origin ← lift (ok_or (origin pipeline) (PipelineErr (crit MissingOrigin)));
  output_root ← on_executor ex_compute_output_root;
  let header := mkL2BlockHeader (l2_block_info (bo_block_info ran)) (bo_state_root ran) (bo_withdraw_root ran) in
  let tip_cursor := mkTipCursor (bo_block_info ran) header output_root in
  _ ← zoom dr_cursor set_cursor (Cursor.advance origin tip_cursor);
  modify (set_artifacts (Some (ran, default [] (pa_transactions attributes)))).

(** The payload is executed on the tip; one that fails is dropped. *)
Definition drive_block (tip_cursor : TipCursor) (attributes : OpPayloadAttributes) : ST Self Error unit :=
  _ ← on_executor (ex_update_safe_head (tc_l2_safe_head_header tip_cursor));
  catch (on_executor (ex_execute_payload attributes)) (λ r,
    match r with
    | Ok ran => record_block attributes ran
    | Err _ => mret tt
    | Panic => panic
    end).

Definition reached (target : option Z) (tip_cursor : TipCursor) : bool :=
  match target with
  | Some tb => bool_decide (bi_number (l2_block_info (tc_l2_safe_head tip_cursor)) >= tb)
  | None => false
  end.

Definition advance_once (steps : nat) (target : option Z) : Diverging Self Error (option Z + L2BlockInfo * B256) :=
  tip_cursor ← returns (λ self, (Cursor.tip (dr_cursor self), self));
  if reached target tip_cursor then
    mret (inr (tc_l2_safe_head tip_cursor, tc_l2_safe_head_output_root tip_cursor))
  else
    catching (on_pipeline (produce_payload steps (tc_l2_safe_head tip_cursor))) (λ r,
      match r with
      | Ok attrs => _ ← returns (drive_block tip_cursor (awp_attributes attrs)); mret (inl target)
      | Err (Critical EndOfSource) =>
          mret (inl (match target with
                     | Some _ => Some (bi_number (l2_block_info (tc_l2_safe_head tip_cursor)))
                     | None => None
                     end))
      | Err e => returns (fail (PipelineErr e))
      | Panic => returns panic
      end).

Definition advance_to_target (steps fuel : nat) (target : option Z) : Diverging Self Error (L2BlockInfo * B256) :=
  loop fuel (advance_once steps) target.
End driver.

(** * The implementations *)

Class FlushableCache (O : Type) := cache_flush : O → O.

Record OraclePipeline (S P O : Type) := mkOraclePipeline {
  op_pipeline : DerivationPipeline S P;
  op_caching_oracle : O;
}.
Arguments mkOraclePipeline {S P O}.
Arguments op_pipeline {S P O}.
Arguments op_caching_oracle {S P O}.

Section oracle_pipeline.
Context {S P O : Type} `{!Stage S} `{!NextAttributes S} `{!L2ChainProvider P} `{!FlushableCache O}.
Context (to_string : l2_error (F:=P) → string).
Abbreviation Self := (OraclePipeline S P O).

Definition set_op_pipeline (p : DerivationPipeline S P) (self : Self) : Self :=
  mkOraclePipeline p (op_caching_oracle self).
Definition op_flush (self : Self) : Self := mkOraclePipeline (op_pipeline self) (cache_flush (op_caching_oracle self)).
Definition op_next (self : Self) : option OpAttributesWithParent * Self :=
  let '(a, p) := Pipeline.next (op_pipeline self) in (a, set_op_pipeline p self).

#[global] Instance oracle_pipeline : DriverPipeline Self := {|
  dp_origin self := pipeline_origin (op_pipeline self);
  dp_receiver s := zoom op_pipeline set_op_pipeline (signal_pipeline to_string s);
  dp_step cursor := zoom op_pipeline set_op_pipeline (Pipeline.step cursor);
  dp_next := op_next;
  dp_system_config_by_number number := zoom op_pipeline set_op_pipeline (Pipeline.system_config_by_number number);
  dp_flush := op_flush;
|}.
End oracle_pipeline.

(** The executor of the proof program; [fuel] bounds the depth of its tries. *)
Section kona_executor.
Context `{!Rlp} `{!Keccak} `{!PathCodec} `{!TrieProvider} `{!TrieHinter} `{!TrieHash} `{!NibblesOps}.
Context `{!BridgeProgram} `{!TrieDBProvider}.
Context {Svm Tx TransactionResult FeeRateGovernor : Type} `{!LiteSVM Svm Tx TransactionResult FeeRateGovernor}.

Definition kona_executor (fuel : nat) : DriverExecutor KonaExecutor TransactionResult FeeRateGovernor := {|
  ex_error := ExecutorError;
  ex_update_safe_head := update_safe_head;
  ex_execute_payload := execute_payload fuel;
  ex_compute_output_root := executor_output_root;
  ex_reset := Executor.reset;
|}.
End kona_executor.

(** The cursor starts [channel_timeout] blocks before the L1 origin of the safe head; the errors of
    both providers are those of the oracle. *)
Section sync.
Context {L1 L2 E : Type} `{!ChainProvider L1} `{!L2ChainProvider L2}.
Context (from_l1 : l1_error (F:=L1) → E) (from_l2 : l2_error (F:=L2) → E).

Definition new_oracle_pipeline_cursor (rollup_config : SoonRollupConfig) (safe_header : L2BlockHeader)
    (chain_provider : L1) : ST L2 E PipelineCursor :=
  safe_head_info ← (λ p, let '(r, p) := l2_block_info_by_number (bi_number (hd_block_info safe_header)) p in
                         (map_err from_l2 r, p));
  l1_origin ← lift (map_err from_l1 (block_info_by_number chain_provider (bnh_number (l2_l1_origin safe_head_info))));
  let channel_timeout := cfg_channel_timeout rollup_config in
  let l1_origin_number := Z.max 0 (bi_number l1_origin - channel_timeout) in
  origin ← lift (map_err from_l1 (block_info_by_number chain_provider l1_origin_number));
  let cursor := Cursor.new channel_timeout origin in
  let tip := mkTipCursor safe_head_info safe_header B256_ZERO in
  let '(r, cursor) := Cursor.advance origin tip cursor in
  _ ← lift r; mret cursor.

(** The cursor starts with the safe head as its tip. *)
Lemma new_cursor_tracks rollup_config safe_header chain_provider p c p' :
  new_oracle_pipeline_cursor rollup_config safe_header chain_provider p = (Ok c, p') →
  ∃ origin safe_head_info,
    tracks [(origin, mkTipCursor safe_head_info safe_header B256_ZERO)] c ∧ cu_origin c = origin ∧
    ∀ E', tip (E:=E') c = Ok (mkTipCursor safe_head_info safe_header B256_ZERO).
Proof.
  unfold new_oracle_pipeline_cursor. intros (head & p1 & _ & Hc)%bind_Ok. cbv beta zeta in Hc.
  apply bind_Ok in Hc as (l1_origin & p2 & _ & Hc). cbv beta zeta in Hc.
  apply bind_Ok in Hc as (origin & p3 & _ & Hc). cbv beta zeta in Hc.
  destruct (advance_tracks (E:=E) [] _ origin (mkTipCursor head safe_header B256_ZERO)
    (new_tracks (cfg_channel_timeout rollup_config) origin)) as (c1 & Hrun & Ht & Ho & _ & _ & Htip); [cbn; lia|].
  rewrite Hrun in Hc. injection Hc as <- _. by exists origin, head.
Qed.
End sync.

(** * Producing a payload *)

Lemma loop_S {S E L A} fuel (body : L → Diverging S E (L + A)) l s :
  loop (Datatypes.S fuel) body l s =
  match body l s with
  | Some (Ok (inl l'), s') => loop fuel body l' s'
  | Some (Ok (inr a), s') => Some (Ok a, s')
  | Some (Err e, s') => Some (Err e, s')
  | Some (Panic, s') => Some (Panic, s')
  | None => None
  end.
Proof. cbn [loop]. unfold mbind, diverging_bind. destruct (body l s) as [[[[l'|a]|e|] s']|]; done. Qed.

(** A step after which the loop steps again. *)
Definition quiet (r : StepResult) : Prop :=
  match r with
  | AdvancedOrigin | OriginAdvanceErr (Temporary _) | StepFailed (Temporary _) => True
  | _ => False
  end.

Section produces.
Context {S P O : Type} `{!Stage S} `{!StageLaws S} `{!NextAttributes S} `{!NextAttributesLaws S}.
Context `{!L2ChainProvider P} `{!FlushableCache O} (to_string : l2_error (F:=P) → string).
#[local] Existing Instance oracle_pipeline.
#[local] Instance the_pipeline : DriverPipeline (OraclePipeline S P O) := oracle_pipeline to_string.
Implicit Types self : OraclePipeline S P O.

Definition pipeline_ready (head : L2BlockInfo) (p : DerivationPipeline S P) : Prop :=
  st_inv (dp_attributes p) ∧ na_ready (dp_attributes p) head ∧ dp_prepared p = [].

Lemma produce_payload_S fuel head self :
  produce_payload (Datatypes.S fuel) head self =
  match produce_once head self with
  | (Ok (inl _), self') => produce_payload fuel head self'
  | (Ok (inr a), self') => Some (Ok a, self')
  | (Err e, self') => Some (Err e, self')
  | (Panic, self') => Some (Panic, self')
  end.
Proof.
  unfold produce_payload. rewrite loop_S. unfold returns.
  destruct (produce_once head self) as [[[[]|a]|e|] self']; done.
Qed.

Lemma produce_once_step head self r p :
  step head (op_pipeline self) = (Ok r, p) →
  produce_once head self = (go_on ← after_step head r; if go_on : bool then next_payload else mret (inl tt))
                             (set_op_pipeline p self).
Proof. intros Hs. unfold produce_once, infallible. rewrite bind_run. cbn [dp_step the_pipeline oracle_pipeline]. unfold zoom. by rewrite Hs. Qed.

Lemma produce_quiet head self r p :
  step head (op_pipeline self) = (Ok r, p) → quiet r → pipeline_ready head p →
  produce_once head self = (Ok (inl tt), set_op_pipeline p self).
Proof.
  intros Hs Hq (Hi & _ & Hp). rewrite (produce_once_step _ _ _ _ Hs), bind_run.
  destruct r as [| |[]|[]]; try done. cbn [after_step]. unfold known_origin. rewrite bind_run. cbn.
  destruct (st_origin _ Hi) as [o Ho]. unfold pipeline_origin. rewrite Ho. cbn.
  unfold next_payload. cbn. unfold op_next, Pipeline.next. cbn. rewrite Hp. done.
Qed.

Lemma step_ready head p r p' :
  pipeline_ready head p → step head p = (Ok r, p') → quiet r → pipeline_ready head p'.
Proof.
  intros (Hi & Hr & Hp) Hs Hq. destruct (step_run head p Hi Hr) as (r' & p'' & Hs' & Hi' & Hr' & Hok).
  rewrite Hs in Hs'. injection Hs' as <- <-. split_and!; [done..|]. rewrite <- Hp. by destruct r; cbn in *; destruct_and?.
Qed.

Lemma produce_quiet_run head n : ∀ self rs p,
  pipeline_ready head (op_pipeline self) → steps (replicate n head) (op_pipeline self) = (Ok <$> rs, p) → Forall quiet rs →
  pipeline_ready head p ∧
  (∀ fuel, produce_payload (n + fuel) head self = produce_payload fuel head (set_op_pipeline p self)) ∧
  (∀ fuel, (fuel <= n)%nat → produce_payload fuel head self = None).
Proof.
  induction n as [|n IH]; intros self rs p Hr Hs Hq; cbn [replicate steps] in Hs.
  { injection Hs as _ <-. split_and!; [done|by destruct self|]. intros fuel Hf. by replace fuel with 0%nat by lia. }
  destruct (step head (op_pipeline self)) as [r p1] eqn:Hstep.
  destruct (steps (replicate n head) p1) as [rs1 p2] eqn:Hrest. injection Hs as Hrs ->.
  destruct rs as [|q rs]; [done|]. injection Hrs as -> ->. apply Forall_cons in Hq as [Hq1 Hq].
  pose proof (step_ready head _ q p1 Hr Hstep Hq1) as Hr1.
  pose proof (produce_quiet head self q p1 Hstep Hq1 Hr1) as Honce.
  destruct (IH (set_op_pipeline p1 self) rs p) as (Hrp & Hgo & Hnone); [done..|].
  split_and!; [done| |].
  - intros fuel. change (Datatypes.S n + fuel)%nat with (Datatypes.S (n + fuel)). by rewrite produce_payload_S, Honce, Hgo.
  - intros [|fuel] Hf; [done|]. rewrite produce_payload_S, Honce. apply Hnone. lia.
Qed.

(** Signals leave the queue of prepared payloads alone. *)
Lemma on_reset_prepared head e self r self' :
  on_reset head e self = (r, self') → dp_prepared (op_pipeline self') = dp_prepared (op_pipeline self).
Proof.
  assert (∀ s (x : OraclePipeline S P O), dp_prepared (op_pipeline (exec (signal s) x)) = dp_prepared (op_pipeline x)) as Hsignal.
  { intros s x. unfold exec, signal, dp_receiver, the_pipeline, oracle_pipeline, zoom. unfold signal_pipeline.
    destruct (Pipeline.l2_safe_head s); rewrite ?bind_run; unfold fetch_system_config, catch, zoom.
    - destruct (l2_system_config_by_number _ _) as [[c|err|] p1]; [|done..]. cbn.
      destruct (signal _ _) as [[u|err|] a]; [done| |done]. cbn. by destruct (is_temp_eof err).
    - by destruct (signal _ _) as [[u|err|] a]. }
  unfold on_reset. rewrite bind_run. cbn [dp_system_config_by_number the_pipeline oracle_pipeline].
  unfold zoom at 1, Pipeline.system_config_by_number, fetch_system_config.
  destruct (l2_system_config_by_number _ _) as [[c|err|] p1]; cbn -[signal known_origin]; [|by intros [= _ <-]..].
  assert (∀ mk (x : OraclePipeline S P O),
    dp_prepared (op_pipeline (exec (l1_origin ← known_origin; signal (mk l1_origin)) x)) = dp_prepared (op_pipeline x)) as Hall.
  { intros mk x. unfold exec. rewrite bind_run. unfold known_origin. destruct (ok_or _ _); [apply Hsignal|done..]. }
  intros Hrun. change self' with ((r, self').2). rewrite <- Hrun. set (x := set_op_pipeline _ self).
  destruct e; [apply (Hall (λ o, Reset (mkResetSignal head o (Some c))) x)..| | |].
  - rewrite run_modify. etrans; [exact (Hall (λ o, Reset (mkResetSignal head o (Some c))) (op_flush x))|done].
  - apply (Hall (λ o, Reset (mkResetSignal head o (Some c))) x).
  - apply (Hall (λ o, Activation (mkActivationSignal head o (Some c))) x).
Qed.

Lemma produce_reset head self r e p :
  step head (op_pipeline self) = (Ok r, p) → r = OriginAdvanceErr (ResetKind e) ∨ r = StepFailed (ResetKind e) →
  dp_prepared p = [] → ∀ fuel,
  produce_payload (Datatypes.S fuel) head self =
  match on_reset head e (set_op_pipeline p self) with
  | (Ok _, self') => produce_payload fuel head self'
  | (Err e, self') => Some (Err e, self')
  | (Panic, self') => Some (Panic, self')
  end.
Proof.
  intros Hs Hr Hp fuel. rewrite produce_payload_S, (produce_once_step _ _ _ _ Hs), bind_run.
  assert (after_step head r (set_op_pipeline p self) = (_ ← on_reset head e; mret true) (set_op_pipeline p self)) as Ha
    by (by destruct Hr as [-> | ->]).
  rewrite Ha, bind_run. destruct (on_reset head e (set_op_pipeline p self)) as [[u|err|] self'] eqn:Hreset; [|done..].
  apply on_reset_prepared in Hreset. cbn in Hreset. rewrite Hp in Hreset.
  unfold next_payload. cbn. unfold op_next, Pipeline.next. rewrite Hreset. cbn. by destruct self'.
Qed.

(** C30. Producing a payload is stepping the derivation pipeline until it prepares one: steps that
    advance the origin or fail temporarily are followed by another step, without end if need be;
    the first payload prepared is answered, and it is for the given safe head; a critical
    error is answered, and after a reset error the stages are reset and the stepping goes on. *)
Theorem produce_payload_first n head self rs p :
  pipeline_ready head (op_pipeline self) → steps (replicate n head) (op_pipeline self) = (Ok <$> rs, p) → Forall quiet rs →
  (∀ fuel, (fuel <= n)%nat → produce_payload fuel head self = None) ∧
  ∃ r p', step head p = (Ok r, p') ∧
  match r with
  | PreparedAttributes =>
      ∃ a, awp_parent a = head ∧ dp_prepared p' = [a] ∧
      ∀ fuel, (n < fuel)%nat → produce_payload fuel head self = Some (Ok a, set_op_pipeline (set_prepared [] p') self)
  | OriginAdvanceErr (Critical e) | StepFailed (Critical e) =>
      ∀ fuel, (n < fuel)%nat → produce_payload fuel head self = Some (Err (Critical e), set_op_pipeline p' self)
  | OriginAdvanceErr (ResetKind e) | StepFailed (ResetKind e) =>
      ∀ fuel, produce_payload (n + Datatypes.S fuel) head self =
      match on_reset head e (set_op_pipeline p' self) with
      | (Ok _, self') => produce_payload fuel head self'
      | (Err e, self') => Some (Err e, self')
      | (Panic, self') => Some (Panic, self')
      end
  | _ => quiet r
  end.
Proof.
  intros Hr Hs Hq. destruct (produce_quiet_run head n self rs p Hr Hs Hq) as (Hr1 & Hgo & Hnone). split; [done|].
  pose proof Hr1 as (Hi & Hn & Hp). destruct (step_run head p Hi Hn) as (r & p' & Hstep & Hi' & _ & Hok).
  exists r, p'. split; [done|].
  assert (∀ fuel, (n < fuel)%nat → produce_payload fuel head self
    = produce_payload (Datatypes.S (fuel - n - 1)) head (set_op_pipeline p self)) as Hfuel.
  { intros fuel Hf. rewrite <- Hgo. f_equal. lia. }
  assert (∀ e, r = OriginAdvanceErr (Critical e) ∨ r = StepFailed (Critical e) → ∀ fuel, (n < fuel)%nat →
    produce_payload fuel head self = Some (Err (Critical e), set_op_pipeline p' self)) as Hcrit.
  { intros e He fuel Hf. rewrite Hfuel by done.
    rewrite produce_payload_S, (produce_once_step _ (set_op_pipeline p self) _ _ Hstep), bind_run.
    by destruct He as [-> | ->]. }
  destruct r as [| |[e|e|e]|[e|e|e]]; cbn [quiet]; [|done|done| | |done| |]; [|by apply Hcrit; auto| |by apply Hcrit; auto|].
  - destruct Hok as (a & Ha & Hpar). rewrite Hp in Ha. exists a. split_and!; [done..|]. intros fuel Hf. rewrite Hfuel by done.
    rewrite produce_payload_S, (produce_once_step _ (set_op_pipeline p self) _ _ Hstep), bind_run. cbn.
    unfold next_payload. cbn. unfold op_next, Pipeline.next. cbn. by rewrite Ha.
  - intros fuel. rewrite Hgo. apply (produce_reset head (set_op_pipeline p self) _ e p' Hstep); [by left|].
    destruct Hok as [-> _]. done.
  - intros fuel. rewrite Hgo. apply (produce_reset head (set_op_pipeline p self) _ e p' Hstep); [by right|].
    destruct Hok as [-> _]. done.
Qed.

Context `{!L2ChainLaws P}.

Lemma signal_pipeline_ready head s h :
  Pipeline.l2_safe_head s = Some h →
  safe (pipeline_ready head) (λ _, True) (λ _, True) (signal_pipeline to_string s).
Proof.
  intros Hs p (Hi & Hr & Hp). unfold signal_pipeline. rewrite Hs, bind_run. unfold fetch_system_config.
  pose proof (l2_system_config_safe (bi_number (l2_block_info h)) (dp_l2_chain_provider p) I) as Hc.
  destruct (l2_system_config_by_number _ _) as [[c|e|] l2]; [|by split|done]. cbn [map_err]. cbv zeta. unfold catch, zoom.
  assert (configured (with_system_config s c)) as Hconf by (destruct s; cbn; [by eexists..|done]).
  pose proof (na_signal_ready head _ Hconf (dp_attributes p) (conj Hi Hr)) as Ha. cbn [dp_attributes set_provider].
  destruct (signal _ (dp_attributes p)) as [[u|e|] a]; [|..|done]; destruct Ha as [_ [Hi' Hr']]; [by split_and!|].
  cbn. by destruct (is_temp_eof e).
Qed.

Lemma on_reset_ready head e :
  safe (λ self, pipeline_ready head (op_pipeline self)) (λ _, True) (λ _, True) (on_reset head e).
Proof.
  assert (∀ s h, Pipeline.l2_safe_head s = Some h →
    safe (λ self, pipeline_ready head (op_pipeline self)) (λ _, True) (λ _, True) (signal s)) as Hsignal.
  { intros s h Hs. apply (safe_zoom _ _ (pipeline_ready head) (λ _, True));
      [by apply (signal_pipeline_ready head s h)|done|done|done]. }
  assert (safe (λ self, pipeline_ready head (op_pipeline self)) (λ _, True) (λ _, True) known_origin) as Horigin.
  { intros self Hr. unfold known_origin. by destruct (origin self). }
  unfold on_reset. apply (safe_bind _ _ (λ _, True)).
  { apply (safe_zoom _ _ (pipeline_ready head) (λ _, True)); [|done..]. intros p Hr.
    unfold Pipeline.system_config_by_number, fetch_system_config.
    pose proof (l2_system_config_safe (bi_number (l2_block_info head)) (dp_l2_chain_provider p) I) as Hc.
    destruct (l2_system_config_by_number _ _) as [[c|err|] l2]; [by split..|done]. }
  intros c _.
  assert (∀ mk, (∀ o, Pipeline.l2_safe_head (mk o) = Some head) →
    safe (λ self, pipeline_ready head (op_pipeline self)) (λ _, True) (λ _, True)
      (l1_origin ← known_origin; signal (mk l1_origin))) as Hall.
  { intros mk Hmk. apply (safe_bind _ _ (λ _, True)); [exact Horigin|]. intros o _. by apply (Hsignal _ head). }
  destruct e; try (apply (safe_bind _ _ (λ _, True)); [by first [apply safe_ret|apply safe_modify]|]; intros _ _);
    by apply Hall.
Qed.

Lemma produce_once_ready head :
  safe (λ self, pipeline_ready head (op_pipeline self)) (λ _, True)
    (λ r, match r with inl _ => True | inr a => awp_parent a = head end) (produce_once head).
Proof.
  intros self Hr. pose proof Hr as (Hi & Hn & Hp). destruct (step_run head _ Hi Hn) as (r & p & Hs & Hi' & Hn' & Hok).
  rewrite (produce_once_step _ _ _ _ Hs), bind_run.
  assert (∀ self', pipeline_ready head (op_pipeline self') →
    next_payload self' = (Ok (inl tt), self')) as Hnext.
  { intros self' (_ & _ & Hp'). unfold next_payload. cbn. unfold op_next, Pipeline.next. rewrite Hp'. by destruct self'. }
  destruct r as [| |[e|e|e]|[e|e|e]]; cbn [step_ok] in Hok; cbn [after_step].
  - destruct Hok as (a & Ha & Hpar). rewrite Hp in Ha. cbn. unfold next_payload. cbn. unfold op_next, Pipeline.next. cbn.
    rewrite Ha. by split.
  - destruct (st_origin _ Hi') as [o Ho].
    assert (known_origin (set_op_pipeline p self) = (Ok o, set_op_pipeline p self)) as Hk
      by (unfold known_origin, origin; cbn; unfold pipeline_origin; by rewrite Ho).
    rewrite (run_op _ _ _ _ _ Hk). unfold mret, st_ret.
    rewrite Hnext; [split; [done|]|]; cbn; split_and!; congruence.
  - split; [done|]. destruct Hok as [Hq _]. cbn; split_and!; congruence.
  - split; [done|]. destruct Hok as [Hq _]. cbn; split_and!; congruence.
  - rewrite bind_run. destruct Hok as [Hq _].
    pose proof (on_reset_ready head e (set_op_pipeline p self) ltac:(cbn; split_and!; congruence)) as Hreset.
    destruct (on_reset head e _) as [[u|err|] self']; [|done|done]. unfold mret, st_ret. rewrite Hnext by apply Hreset. by destruct Hreset.
  - split; [done|]. destruct Hok as [Hq _]. cbn; split_and!; congruence.
  - split; [done|]. destruct Hok as [Hq _]. cbn; split_and!; congruence.
  - rewrite bind_run. destruct Hok as [Hq _].
    pose proof (on_reset_ready head e (set_op_pipeline p self) ltac:(cbn; split_and!; congruence)) as Hreset.
    destruct (on_reset head e _) as [[u|err|] self']; [|done|done]. unfold mret, st_ret. rewrite Hnext by apply Hreset. by destruct Hreset.
Qed.

Lemma produce_payload_ready fuel head : ∀ self,
  pipeline_ready head (op_pipeline self) →
  match produce_payload fuel head self with
  | Some (Ok a, self') => awp_parent a = head ∧ pipeline_ready head (op_pipeline self')
  | Some (Err e, self') => pipeline_ready head (op_pipeline self')
  | Some (Panic, _) => False
  | None => True
  end.
Proof.
  induction fuel as [|fuel IH]; intros self Hr; [done|]. rewrite produce_payload_S.
  pose proof (produce_once_ready head self Hr) as Ho. destruct (produce_once head self) as [[[[]|a]|e|] self']; [|done| |done].
  - apply IH, Ho.
  - apply Ho.
Qed.
End produces.

(** * Driving the proof program's executor *)

Section drives.
Context `{!Rlp} `{!Keccak} `{!PathCodec} `{!UnpackLaws} `{!TrieProvider} `{!TrieHinter} `{!TrieHash}.
Context `{!NibblesOps} `{!NibblesLaws} `{!BridgeProgram} `{!TrieDBProvider}.
Context {Svm Tx TransactionResult FeeRateGovernor : Type} `{!LiteSVM Svm Tx TransactionResult FeeRateGovernor}.
Context (Hkeccak : ∀ s, len (keccak256 s) = 32).
Context (Hhint : ∀ hash last_slot, hint_account_proof hash last_slot = Ok tt).
Context (Hequal : ∀ x y, accounts_equal x y = true → x = y).
Context {DP : Type} `{!DriverPipeline DP}.
(** The fuel of [produce_payload], that of the tries, and the target block. *)
Context (steps depth : nat) (target : Z).
#[local] Instance the_executor : DriverExecutor KonaExecutor TransactionResult FeeRateGovernor := kona_executor depth.
Abbreviation Self := (Driver KonaExecutor DP TransactionResult FeeRateGovernor).

(** Where a derivation stands: the tip, the executor and the pipeline, and the maps of the two tries. *)
Record Progress := mkProgress {
  pg_tip : TipCursor;
  pg_executor : KonaExecutor;
  pg_pipeline : DP;
  pg_state : World;
  pg_withdrawals : World;
}.
Definition head_number (tip : TipCursor) : Z := bi_number (l2_block_info (tc_l2_safe_head tip)).
Definition pg_builder (pg : Progress) : StatelessL2Builder :=
  executor_at (pg_executor pg) (tc_l2_safe_head_header (pg_tip pg)).
Definition produces (pg : Progress) (attrs : OpAttributesWithParent) (dp : DP) : Prop :=
  produce_payload steps (tc_l2_safe_head (pg_tip pg)) (pg_pipeline pg) = Some (Ok attrs, dp).
(** The tip of a block. *)
Definition block_tip (ran : BlockBuildingOutcome TransactionResult FeeRateGovernor) (output_root : B256) : TipCursor :=
  mkTipCursor (bo_block_info ran)
    (mkL2BlockHeader (l2_block_info (bo_block_info ran)) (bo_state_root ran) (bo_withdraw_root ran)) output_root.

(** The rounds of a derivation: payloads that become blocks, or that the machine rejects; with the
    L1 origins and tips of the blocks, the number of rounds and that of changed accounts. *)
Inductive derives : Progress → History → nat → nat → Progress → Prop :=
| derives_done pg : derives pg [] 0 0 pg
| derives_block pg attrs dp o ran svm outcome root executor history rounds changes pg' :
    head_number (pg_tip pg) < target → produces pg attrs dp → origin dp = Some o →
    run_block (awp_attributes attrs) (pg_builder pg) = Ok (ran, svm) →
    committable (pg_builder pg) (svm_export_diff_accounts svm) (pg_state pg) (pg_withdrawals pg) →
    step_executor depth (tc_l2_safe_head_header (pg_tip pg)) (awp_attributes attrs) (pg_executor pg)
      = (Ok (outcome, root), executor) →
    derives (mkProgress (block_tip outcome root) executor dp (foldl state_update (pg_state pg) (svm_export_diff_accounts svm))
               (foldl withdrawal_update (pg_withdrawals pg) (svm_export_diff_accounts svm))) history rounds changes pg' →
    derives pg ((o, block_tip outcome root) :: history) (Datatypes.S rounds)
      (length (svm_export_diff_accounts svm) + changes) pg'
| derives_dropped pg attrs dp e history rounds changes pg' :
    head_number (pg_tip pg) < target → produces pg attrs dp →
    run_block (awp_attributes attrs) (pg_builder pg) = Err e →
    derives (mkProgress (pg_tip pg) (set_inner (Some (pg_builder pg)) (pg_executor pg)) dp (pg_state pg) (pg_withdrawals pg))
      history rounds changes pg' →
    derives pg history (Datatypes.S rounds) changes pg'.

(** The builder holds the tries of the maps, and the output root of the tip commits to them. *)
Definition ready (F : nat) (pg : Progress) : Prop := builder_ok F (pg_builder pg) (pg_state pg) (pg_withdrawals pg).
Definition committed (pg : Progress) : Prop :=
  ∃ builder, kx_inner (pg_executor pg) = Some builder ∧
    tc_l2_safe_head_output_root (pg_tip pg) = hash_output_root (mkOutputRoot
      (blind (root_node (b_trie_db builder))) (blind (withdrawal_node (b_trie_db builder)))
      (bi_hash (l2_block_info (tc_l2_safe_head (pg_tip pg))))).

(** The driver stands where the derivation does. *)
Record driver_at (pg : Progress) (past : History) (self : Self) : Prop := {
  at_executor : dr_executor self = pg_executor pg;
  at_pipeline : dr_pipeline self = pg_pipeline pg;
  at_tracks : tracks past (dr_cursor self);
  at_tip : ∀ E, tip (E:=E) (dr_cursor self) = Ok (pg_tip pg);
}.

Lemma loop_continue {S E L A} fuel (body : L → Diverging S E (L + A)) l s l' s' :
  body l s = Some (Ok (inl l'), s') → loop (Datatypes.S fuel) body l s = loop fuel body l' s'.
Proof. intros Hb. by rewrite loop_S, Hb. Qed.

Lemma returns_bind {S E A B} (m : ST S E A) (k : A → Diverging S E B) s a s' :
  m s = (Ok a, s') → (returns m ≫= k) s = k a s'.
Proof. intros Hm. unfold returns, mbind, diverging_bind. by rewrite Hm. Qed.

(** A round of the driver is executing the payload on the tip. *)
Lemma advance_once_payload pg past self attrs dp :
  driver_at pg past self → head_number (pg_tip pg) < target → produces pg attrs dp →
  advance_once steps (Some target) self =
  (_ ← returns (drive_block (pg_tip pg) (awp_attributes attrs)); mret (inl (Some target))) (set_pipeline dp self).
Proof.
  intros Hat Hn Hp. unfold advance_once. erewrite returns_bind by (by rewrite (at_tip _ _ _ Hat)).
  unfold reached. rewrite bool_decide_false by (unfold head_number in Hn; lia).
  unfold catching, on_pipeline, produces in *. rewrite (at_pipeline _ _ _ Hat), Hp. done.
Qed.

Lemma drive_block_ok pg past self attrs dp o outcome root executor :
  driver_at pg past self → origin dp = Some o → bi_number (cu_origin (dr_cursor self)) <= bi_number o →
  step_executor depth (tc_l2_safe_head_header (pg_tip pg)) attrs (pg_executor pg) = (Ok (outcome, root), executor) →
  ∃ self', drive_block (pg_tip pg) attrs (set_pipeline dp self) = (Ok tt, self') ∧
    dr_executor self' = executor ∧ dr_pipeline self' = dp ∧ tracks (past ++ [(o, block_tip outcome root)]) (dr_cursor self') ∧
    cu_origin (dr_cursor self') = o ∧ (∀ E, tip (E:=E) (dr_cursor self') = Ok (block_tip outcome root)).
Proof.
  intros Hat Ho Hle (u & x1 & Hupdate & Hrest)%bind_Ok.
  apply bind_Ok in Hrest as (ran & x2 & Hexec & (root' & x3 & Hroot & [= -> -> ->])%bind_Ok).
  destruct (advance_tracks (E:=DriverError (ex_error (X:=KonaExecutor))) past _ o (block_tip outcome root) (at_tracks _ _ _ Hat) Hle)
    as (c & Hadv & Ht & Hc & _ & _ & Htip).
  eexists. split.
  - unfold drive_block. rewrite bind_run. unfold on_executor at 1. cbn [dr_executor set_pipeline ex_update_safe_head the_executor kona_executor].
    rewrite (at_executor _ _ _ Hat), Hupdate. cbn [map_err]. unfold catch, on_executor.
    cbn [dr_executor set_executor ex_execute_payload the_executor kona_executor]. rewrite Hexec. cbn [map_err].
    unfold record_block. rewrite run_gets. cbn [dr_pipeline set_executor set_pipeline]. rewrite Ho. cbn [ok_or].
    rewrite (run_lift_Ok _ _ _ o eq_refl), bind_run. unfold on_executor.
    cbn [dr_executor set_executor ex_compute_output_root the_executor kona_executor]. rewrite Hroot. cbn [map_err].
    fold (block_tip outcome root). rewrite bind_run. unfold zoom. cbn [dr_cursor set_executor set_pipeline].
    rewrite Hadv. reflexivity.
  - by split_and!.
Qed.

Lemma drive_block_dropped pg self attrs dp e :
  dr_executor self = pg_executor pg → run_block attrs (pg_builder pg) = Err e →
  drive_block (pg_tip pg) attrs (set_pipeline dp self)
  = (Ok tt, set_executor (set_inner (Some (pg_builder pg)) (pg_executor pg)) (set_pipeline dp self)).
Proof.
  intros Hx Hrun. unfold drive_block. rewrite bind_run. unfold on_executor at 1.
  cbn [dr_executor set_pipeline ex_update_safe_head the_executor kona_executor]. rewrite Hx. unfold update_safe_head.
  rewrite run_gets. cbn [modify map_err]. unfold id. fold (pg_builder pg). unfold catch, on_executor.
  cbn [dr_executor set_executor ex_execute_payload the_executor kona_executor].
  unfold execute_payload, on_inner. cbn [kx_inner set_inner]. unfold build_block. rewrite run_gets, run_lift. unfold id.
  by rewrite Hrun.
Qed.

Lemma committed_dropped pg dp :
  committed pg →
  committed (mkProgress (pg_tip pg) (set_inner (Some (pg_builder pg)) (pg_executor pg)) dp (pg_state pg) (pg_withdrawals pg)).
Proof.
  intros (builder & Hin & Hroot). exists (pg_builder pg). split; [done|]. cbn [pg_tip]. rewrite Hroot.
  unfold pg_builder, executor_at. by rewrite Hin.
Qed.

(** A block leaves the executor ready for the next one, with the output root of its tip. *)
Lemma block_ready F pg attrs dp o ran svm outcome root executor :
  ready F pg → run_block attrs (pg_builder pg) = Ok (ran, svm) →
  committable (pg_builder pg) (svm_export_diff_accounts svm) (pg_state pg) (pg_withdrawals pg) →
  (F + 2 * length (svm_export_diff_accounts svm) <= depth)%nat → origin dp = Some o →
  step_executor depth (tc_l2_safe_head_header (pg_tip pg)) attrs (pg_executor pg) = (Ok (outcome, root), executor) →
  let pg1 := mkProgress (block_tip outcome root) executor dp (foldl state_update (pg_state pg) (svm_export_diff_accounts svm))
               (foldl withdrawal_update (pg_withdrawals pg) (svm_export_diff_accounts svm)) in
  ready (F + 2 * length (svm_export_diff_accounts svm)) pg1 ∧ committed pg1.
Proof.
  intros Hr Hrun Hc Hf _ Hstep. cbv zeta.
  destruct (execute_payload_ok Hkeccak Hhint Hequal F depth (pg_executor pg) (pg_builder pg) attrs _ _ ran svm Hr Hrun Hc Hf)
    as (self & s & w & Hexec & Hroot & -> & -> & Hok).
  apply bind_Ok in Hstep as (u & x1 & Hupdate & Hrest). unfold update_safe_head in Hupdate. rewrite run_gets in Hupdate.
  injection Hupdate as _ <-. unfold id in Hrest. fold (pg_builder pg) in Hrest.
  rewrite (run_op _ _ _ _ _ Hexec), (run_op _ _ _ _ _ Hroot) in Hrest. injection Hrest as <- <- <-. split.
  - eapply executor_at_ok; [done|exact Hok].
  - by exists self.
Qed.

Lemma derives_runs pg history rounds changes pg' :
  derives pg history rounds changes pg' → ∀ F past self,
  (F + 2 * changes <= depth)%nat → ready F pg → driver_at pg past self →
  StronglySorted Z.le (bi_number (cu_origin (dr_cursor self)) :: ((λ entry, bi_number entry.1) <$> history)) →
  ∃ self', (∀ fuel, advance_to_target steps (rounds + fuel) (Some target) self
                    = advance_to_target steps fuel (Some target) self') ∧
    driver_at pg' (past ++ history) self' ∧ ready (F + 2 * changes) pg' ∧ (history ≠ [] ∨ committed pg → committed pg').
Proof.
  induction 1 as [pg|pg attrs dp o ran svm outcome root executor history rounds changes pg' Hn Hp Ho Hrun Hc Hstep Hd IH
                 |pg attrs dp e history rounds changes pg' Hn Hp Hrun Hd IH]; intros F past self Hf Hr Hat Hs.
  - exists self. rewrite app_nil_r, Nat.add_0_r. split_and!; [done..|]. by intros [].
  - cbn [fmap list_fmap] in Hs. apply StronglySorted_inv in Hs as [Hs Hle]. apply Forall_cons in Hle as [Hle _]. cbn in Hle.
    destruct (drive_block_ok pg past self _ dp o outcome root executor Hat Ho Hle Hstep)
      as (self1 & Hdrive & Hx & Hdp & Ht & Horigin & Htip).
    destruct (block_ready F pg _ dp o ran svm outcome root executor Hr Hrun Hc) as [Hr1 Hcom]; [lia|done..|].
    edestruct IH as (self' & Hgo & Hat' & Hr' & Hcom'); [|exact Hr1|by split| |].
    { lia. }
    { by rewrite Horigin. }
    exists self'. split_and!.
    + intros fuel. unfold advance_to_target. change (Datatypes.S rounds + fuel)%nat with (Datatypes.S (rounds + fuel)).
      rewrite (loop_continue _ _ _ _ (Some target) self1); [apply Hgo|].
      rewrite (advance_once_payload pg past self attrs dp Hat Hn Hp). by erewrite returns_bind by exact Hdrive.
    + by rewrite <- app_assoc in Hat'.
    + by replace (F + 2 * (length (svm_export_diff_accounts svm) + changes))%nat
        with (F + 2 * length (svm_export_diff_accounts svm) + 2 * changes)%nat by lia.
    + intros _. apply Hcom'. by right.
  - set (pg1 := mkProgress _ _ _ _ _) in *.
    set (self1 := set_executor (set_inner (Some (pg_builder pg)) (pg_executor pg)) (set_pipeline dp self)).
    destruct (IH F past self1) as (self' & Hgo & Hat' & Hr' & Hcom'); [done| | |done|].
    { unfold ready, pg_builder at 1. by apply (executor_at_ok F _ _ (pg_builder pg)). }
    { destruct Hat. by split. }
    exists self'. split_and!; [|done..|].
    + intros fuel. unfold advance_to_target. change (Datatypes.S rounds + fuel)%nat with (Datatypes.S (rounds + fuel)).
      rewrite (loop_continue _ _ _ _ (Some target) self1); [apply Hgo|].
      rewrite (advance_once_payload pg past self attrs dp Hat Hn Hp).
      by erewrite returns_bind by (apply (drive_block_dropped _ _ _ _ e); [apply Hat|done]).
    + intros [Hne|Hcom]; apply Hcom'; [by left|right]. by apply committed_dropped.
Qed.

(** The end of a derivation: the target, or the end of the data. *)
Definition exhausted (pg : Progress) : Prop :=
  ∃ dp, produce_payload steps (tc_l2_safe_head (pg_tip pg)) (pg_pipeline pg) = Some (Err (Critical EndOfSource), dp).

Lemma advance_reached pg past self t fuel :
  driver_at pg past self → t <= head_number (pg_tip pg) →
  advance_to_target steps (Datatypes.S fuel) (Some t) self
  = Some (Ok (tc_l2_safe_head (pg_tip pg), tc_l2_safe_head_output_root (pg_tip pg)), self).
Proof.
  intros Hat Hn. unfold advance_to_target. rewrite loop_S. unfold advance_once.
  erewrite returns_bind by (by rewrite (at_tip _ _ _ Hat)). unfold reached.
  by rewrite bool_decide_true by (unfold head_number in Hn; lia).
Qed.
Lemma advance_exhausted pg past self :
  driver_at pg past self → head_number (pg_tip pg) < target → exhausted pg →
  ∃ self', (∀ fuel, advance_to_target steps (Datatypes.S (Datatypes.S fuel)) (Some target) self
    = Some (Ok (tc_l2_safe_head (pg_tip pg), tc_l2_safe_head_output_root (pg_tip pg)), self')) ∧
    dr_executor self' = pg_executor pg.
Proof.
  intros Hat Hn [dp Hp]. exists (set_pipeline dp self). split; [|apply Hat]. intros fuel.
  assert (advance_once steps (Some target) self = Some (Ok (inl (Some (head_number (pg_tip pg)))), set_pipeline dp self)) as Ho.
  { unfold advance_once. erewrite returns_bind by (by rewrite (at_tip _ _ _ Hat)).
    unfold reached. rewrite bool_decide_false by (unfold head_number in Hn; lia).
    unfold catching, on_pipeline. by rewrite (at_pipeline _ _ _ Hat), Hp. }
  unfold advance_to_target. rewrite (loop_continue _ _ _ _ _ _ Ho).
  apply (advance_reached (mkProgress (pg_tip pg) (pg_executor pg) dp (pg_state pg) (pg_withdrawals pg)) past); [|done].
  destruct Hat. by split.
Qed.

(** C1. The claim of the proof program: when the derivation pipeline produces payloads until the
    target block or the end of the data, and the virtual machine runs them or rejects them, the
    driver answers the head of the last block that ran and its output root, which is the
    hash of the commitments of tries that hold the state and the withdrawals with the changes of
    all the blocks applied, and of the block's hash. *)
Theorem driver_proves_chain F past self pg history rounds changes pg' fuel :
  derives pg history rounds changes pg' → history ≠ [] → target <= head_number (pg_tip pg') ∨ exhausted pg' →
  (F + 2 * changes <= depth)%nat → (rounds + 2 <= fuel)%nat → ready F pg → driver_at pg past self →
  StronglySorted Z.le (bi_number (cu_origin (dr_cursor self)) :: ((λ entry, bi_number entry.1) <$> history)) →
  ∃ self' builder root,
    advance_to_target steps fuel (Some target) self = Some (Ok (tc_l2_safe_head (pg_tip pg'), root), self') ∧
    kx_inner (dr_executor self') = Some builder ∧
    root = hash_output_root (mkOutputRoot (blind (root_node (b_trie_db builder)))
             (blind (withdrawal_node (b_trie_db builder))) (bi_hash (l2_block_info (tc_l2_safe_head (pg_tip pg'))))) ∧
    holds (F + 2 * changes) (b_trie_db builder) (pg_state pg') (pg_withdrawals pg').
Proof.
  intros Hd Hne Hend Hdepth Hfuel Hr Hat Hs.
  destruct (derives_runs pg history rounds changes pg' Hd F past self Hdepth Hr Hat Hs) as (self1 & Hgo & Hat1 & Hr1 & Hcom).
  destruct (Hcom (or_introl Hne)) as (builder & Hin & Hroot).
  assert (holds (F + 2 * changes) (b_trie_db builder) (pg_state pg') (pg_withdrawals pg')) as Hh.
  { destruct Hr1 as [Hh _]. unfold pg_builder, executor_at in Hh. by rewrite Hin in Hh. }
  assert (∃ self', advance_to_target steps fuel (Some target) self
    = Some (Ok (tc_l2_safe_head (pg_tip pg'), tc_l2_safe_head_output_root (pg_tip pg')), self') ∧
    dr_executor self' = pg_executor pg') as (self' & Hrun & Hx).
  { replace fuel with (rounds + (Datatypes.S (Datatypes.S (fuel - rounds - 2))))%nat by lia. rewrite Hgo.
    destruct (decide (target <= head_number (pg_tip pg'))) as [Hle|Hgt].
    - exists self1. split; [|apply Hat1]. by eapply advance_reached.
    - destruct Hend as [Hend|Hend]; [lia|].
      destruct (advance_exhausted pg' _ self1 Hat1 ltac:(lia) Hend) as (self' & Hrun & Hx). by exists self'. }
  exists self', builder, (tc_l2_safe_head_output_root (pg_tip pg')). by rewrite Hx.
Qed.
End drives.

(** * A scripted pipeline *)

Module Scripted.
#[local] Existing Instances Two.keccak Two.bridge Two.provider Two.unpack_laws Small.hinter Small.nibbles
  Small.nibbles_laws Concrete.paths Concrete.empty_root Replaying.machine Replaying.database.
(** A last stage that waits at every [None]. *)
Abbreviation Script := (Replay (option OpPayloadAttributes)).
#[local] Instance script : NextAttributes Script := λ head self,
  match rp_items self with
  | [] | None :: _ => (Err (temp Eof), mkReplay (rp_origin self) (tail (rp_items self)))
  | Some a :: items => (Ok (mkOpAttributesWithParent a head true), mkReplay (rp_origin self) items)
  end.
#[local] Instance script_laws : StageLaws Script := replay_laws (λ _, True).
Lemma inv_all (s : Script) : st_inv s.
Proof. by apply Forall_true. Qed.
#[local] Instance script_next_laws : NextAttributesLaws Script.
Proof.
  refine {| na_ready _ _ := True |}; [| |done|by intros head sg _ self _; split; [|split; [apply inv_all|]]].
  - intros head o self (_ & _ & Ho). unfold na_next_attributes, script.
    destruct (rp_items self) as [|[a|] items]; (split; [done|]); split_and!; try apply inv_all; done.
  - intros head self _. split; [done|]. by split; [apply inv_all|].
Defined.
#[local] Instance no_cache : FlushableCache unit := id.
#[local] Instance driver_pipeline : DriverPipeline (OraclePipeline Script unit unit) := oracle_pipeline (λ _, "none"%string).
#[local] Instance executor : DriverExecutor KonaExecutor unit unit := kona_executor 3.

Definition waiting (script : list (option OpPayloadAttributes)) : OraclePipeline Script unit unit :=
  mkOraclePipeline (Pipeline.new (mkReplay (mkBlockInfo [] 3 [] 0) script) Replaying.config tt) tt.
(** Two payloads: one the machine rejects, and one that opens an account. *)
Definition pipeline : OraclePipeline Script unit unit :=
  waiting [None; Some (Replaying.payload [[]]); None; Some (Replaying.payload [[byte1]])].
Definition head_tip : TipCursor :=
  mkTipCursor (mkL2BlockInfo (hd_block_info Two.header) (mkBlockNumHash 0 []) 0) Two.header B256_ZERO.
Definition history : History := [(mkBlockInfo [] 2 [] 0, head_tip)].
Definition cursor : PipelineCursor := (advances (E:=Empty_set) history (Cursor.new 10 (mkBlockInfo [] 2 [] 0))).2.
Definition driver : Driver KonaExecutor (OraclePipeline Script unit unit) unit unit :=
  driver_new cursor Replaying.executor pipeline.
Definition start : Progress := mkProgress head_tip Replaying.executor pipeline ∅ ∅.
Definition block_run : outcome ExecutorError (BlockBuildingOutcome unit unit * B256) * KonaExecutor :=
  step_executor 3 Two.header (Replaying.payload [[byte1]]) (set_inner (Some (pg_builder start)) Replaying.executor).
Definition outcome_of (r : outcome ExecutorError (BlockBuildingOutcome unit unit * B256))
    : BlockBuildingOutcome unit unit * B256 := match r with Ok x => x | _ => (Replaying.ran, B256_ZERO) end.
Definition last_tip : TipCursor := block_tip (outcome_of block_run.1).1 (outcome_of block_run.1).2.
Definition finish : Progress :=
  mkProgress last_tip block_run.2 (waiting []) (foldl state_update ∅ [Replaying.opened])
    (foldl withdrawal_update ∅ [Replaying.opened]).
End Scripted.
#[local] Existing Instances Two.keccak Two.bridge Two.provider Two.unpack_laws Small.hinter Small.nibbles
  Small.nibbles_laws Concrete.paths Concrete.empty_root Replaying.machine Replaying.database Scripted.script
  Scripted.script_laws Scripted.script_next_laws Scripted.no_cache Scripted.driver_pipeline Scripted.executor.

Lemma produce_payload_first_witness :
  let waiting := (step (tc_l2_safe_head Scripted.head_tip) (op_pipeline Scripted.pipeline)).2 in
  (∀ fuel, (fuel <= 1)%nat →
     produce_payload fuel (tc_l2_safe_head Scripted.head_tip) Scripted.pipeline = None) ∧
  ∃ r p', step (tc_l2_safe_head Scripted.head_tip) waiting = (Ok r, p') ∧
  match r with
  | PreparedAttributes =>
      ∃ a, awp_parent a = tc_l2_safe_head Scripted.head_tip ∧ dp_prepared p' = [a] ∧
      ∀ fuel, (1 < fuel)%nat → produce_payload fuel (tc_l2_safe_head Scripted.head_tip) Scripted.pipeline
        = Some (Ok a, set_op_pipeline (set_prepared [] p') Scripted.pipeline)
  | _ => True
  end.
Proof.
  cbv zeta.
  destruct (produce_payload_first (λ _, "none"%string) 1 (tc_l2_safe_head Scripted.head_tip) Scripted.pipeline
    [OriginAdvanceErr (temp Eof)] (step (tc_l2_safe_head Scripted.head_tip) (op_pipeline Scripted.pipeline)).2)
    as (Hnone & r & p' & Hs & Hr).
  - split; [apply Scripted.inv_all|done].
  - reflexivity.
  - by repeat constructor.
  - split; [exact Hnone|]. exists r, p'. split; [exact Hs|]. by destruct r.
Defined.

Lemma derives_example : derives (Svm:=list Entry) (Tx:=list Entry) 4 3 8 Scripted.start
  [(mkBlockInfo [] 3 [] 0, Scripted.last_tip)] 2 1 Scripted.finish.
Proof.
  eapply derives_dropped with (attrs := mkOpAttributesWithParent (Replaying.payload [[]]) _ true)
    (dp := Scripted.waiting [None; Some (Replaying.payload [[byte1]])]); [done|reflexivity|by vm_compute|].
  unfold Scripted.last_tip.
  epose proof (derives_block 4 3 8 _ (mkOpAttributesWithParent (Replaying.payload [[byte1]]) _ true) (Scripted.waiting [])
    _ Replaying.ran [Replaying.opened] (Scripted.outcome_of Scripted.block_run.1).1 (Scripted.outcome_of Scripted.block_run.1).2
    Scripted.block_run.2 [] 0 0 Scripted.finish) as Hblock.
  eapply Hblock; clear Hblock; [done|reflexivity|done|by vm_compute| | |].
  - split; [split; [apply (bool_decide_unpack _); by vm_compute|]|apply (bool_decide_unpack _); by vm_compute].
    intros k entry [v Hk]. by vm_compute in Hk.
  - by vm_compute.
  - apply derives_done.
Qed.

Lemma driver_proves_chain_witness :
  ∃ self' builder root,
    advance_to_target 4 4 (Some 8) Scripted.driver = Some (Ok (tc_l2_safe_head Scripted.last_tip, root), self') ∧
    kx_inner (dr_executor self') = Some builder ∧
    root = hash_output_root (mkOutputRoot (blind (root_node (b_trie_db builder)))
             (blind (withdrawal_node (b_trie_db builder))) (bi_hash (l2_block_info (tc_l2_safe_head Scripted.last_tip)))) ∧
    holds 3 (b_trie_db builder) (foldl state_update ∅ [Replaying.opened]) (foldl withdrawal_update ∅ [Replaying.opened]).
Proof.
  apply (driver_proves_chain Two.digest_32 (λ _ _, eq_refl) Replaying.accounts_equal_eq 4 3 8 1 Scripted.history Scripted.driver
    Scripted.start [(mkBlockInfo [] 3 [] 0, Scripted.last_tip)] 2 1 Scripted.finish 4).
  - apply derives_example.
  - done.
  - left. by vm_compute.
  - lia.
  - lia.
  - apply (executor_at_ok 1 _ _ Replaying.builder); [done|]. split; [apply Two.holds_empty|].
    intros k v Hk. by vm_compute in Hk.
  - split; [done|done| |done].
    destruct (advances_tracks (E:=Empty_set) Scripted.history [] (Cursor.new 10 (mkBlockInfo [] 2 [] 0)) (new_tracks _ _))
      as (c & Hrun & Ht & _); [repeat constructor; vm_compute; discriminate|].
    unfold Scripted.driver, driver_new. cbn [dr_cursor]. unfold Scripted.cursor. by rewrite Hrun.
  - repeat constructor; vm_compute; discriminate.
Defined.
