(* ===== verification/Guarded.v ===== *)
(** Panics of one stage seen from the whole pipeline.

    Two implementations of a stage that differ only where the first one panics in a state [D]
    make pipelines that differ only there: every operation above the stage either does the same
    with both, or panics with the stage in [D].  So what is proved of a pipeline over the guarded
    channel reader ([guarded_stream]) holds of the real one up to that panic. *)
From S2P Require Import Prelude Blocks SystemConfig Types SingleBatch SpanBatch Batch BatchStream BatchQueue AttributesQueue Pipeline Cursor Executor Driver.
#[local] Open Scope Z_scope.

(** [m] does what [n] does, unless it panics in a state of [D]. *)
Definition unless {S E A} (D : S → Prop) (m n : ST S E A) : Prop :=
  ∀ s, m s = n s ∨ ∃ s', m s = (Panic, s') ∧ D s'.

Lemma unless_refl {S E A} D (m : ST S E A) : unless D m m.
Proof. intros s. by left. Qed.
Lemma unless_bind {S E A B} D (m n : ST S E A) (k j : A → ST S E B) :
  unless D m n → (∀ a, unless D (k a) (j a)) → unless D (m ≫= k) (n ≫= j).
Proof.
  intros Hm Hk s. rewrite !bind_run. destruct (Hm s) as [->|(s' & -> & Hs)]; [|right; by eexists].
  destruct (n s) as [[a|e|] s']; [apply Hk|by left..].
Qed.
Lemma unless_catch {S E A B} D (m n : ST S E A) (k j : outcome E A → ST S E B) :
  unless D m n → (∀ a, unless D (k a) (j a)) → unless D (catch m k) (catch n j).
Proof.
  intros Hm Hk s. unfold catch. destruct (Hm s) as [->|(s' & -> & Hs)]; [|right; by eexists].
  destruct (n s) as [[a|e|] s']; [apply Hk..|by left].
Qed.
Lemma unless_zoom {S P E A} (C : P → Prop) (D : S → Prop) (get : S → P) (set : P → S → S) (m n : ST P E A) :
  unless C m n → (∀ s p, C p → D (set p s)) → unless D (zoom get set m) (zoom get set n).
Proof.
  intros Hm HD s. unfold zoom. destruct (Hm (get s)) as [->|(p & -> & Hp)]; [by left|right].
  eexists. split; [done|by apply HD].
Qed.
Lemma unless_infallible {S E A} D (m n : ST S Empty_set A) :
  unless D m n → unless (E:=E) D (infallible m) (infallible n).
Proof.
  intros Hm s. unfold infallible. destruct (Hm s) as [->|(s' & -> & Hs)]; [by left|right; by eexists].
Qed.

(** Goes through a method up to the calls that differ. *)
Ltac unless_step :=
  repeat first [ apply unless_refl | apply unless_bind; [|intros ?] | apply unless_catch; [|intros ?]
               | apply unless_infallible | case_match ].

(** * The batch stream *)

Section stream.
Context {P F : Type} `{!Stage P} `{!L2ChainProvider F} (D : P → Prop).
Context (n1 n2 : PipelineM P Batch) (f : P → P).
Abbreviation i1 := {| bs_next_batch := n1; bs_flush := f |}.
Abbreviation i2 := {| bs_next_batch := n2; bs_flush := f |}.

Lemma stream_unless parent l1 :
  unless D n1 n2 →
  unless (λ s : BatchStream P F, D (str_prev s))
    (@BatchStream.next_batch P F _ i1 _ parent l1) (@BatchStream.next_batch P F _ i2 _ parent l1).
Proof.
  intros Hn.
  assert (unless (λ s : BatchStream P F, D (str_prev s)) (zoom str_prev BatchStream.set_prev n1)
            (zoom str_prev BatchStream.set_prev n2)) as Hz by by apply (unless_zoom D).
  unfold BatchStream.next_batch. unless_step; exact Hz.
Qed.
End stream.

(** * The batch queue *)

Section queue.
Context {P F : Type} `{!Stage P} `{!L2ChainProvider F} (D : P → Prop).
Context (n1 n2 : L2BlockInfo → list BlockInfo → PipelineM P Batch) (size : P → Z) (f : P → P).
Abbreviation i1 := {| nb_next_batch := n1; nb_span_buffer_size := size; nb_flush := f |}.
Abbreviation i2 := {| nb_next_batch := n2; nb_span_buffer_size := size; nb_flush := f |}.

Lemma queue_unless parent :
  (∀ l1, unless D (n1 parent l1) (n2 parent l1)) →
  unless (λ s : BatchQueue P F, D (bq_prev s))
    (@BatchQueue.next_batch P F _ i1 _ parent) (@BatchQueue.next_batch P F _ i2 _ parent).
Proof.
  intros Hn.
  assert (unless (λ s : BatchQueue P F, D (bq_prev s)) (@BatchQueue.next_uncached P F _ i1 _ parent)
            (@BatchQueue.next_uncached P F _ i2 _ parent)) as Hu.
  { unfold next_uncached.
    apply unless_bind; [apply unless_refl|intros []]. apply unless_bind; [apply unless_refl|intros behind].
    apply unless_bind; [apply unless_refl|intros []].
    apply unless_bind; [|intros out; apply unless_refl].
    unfold BatchQueue.load_batch. apply unless_bind; [apply unless_refl|intros l1].
    apply unless_catch; [|intros r; apply unless_refl]. by apply (unless_zoom D). }
  unfold BatchQueue.next_batch. apply unless_bind; [apply unless_refl|intros spans].
  apply unless_bind; [apply unless_refl|intros cfg]. destruct spans as [|b bs]; [exact Hu|].
  destruct (decide _); [apply unless_refl|]. apply unless_bind; [apply unless_refl|intros []]. exact Hu.
Qed.
End queue.

(** * The attributes queue *)

Section attributes.
Context {P AB : Type} `{!Stage P} `{!AttributesBuilder AB} (D : P → Prop).
Context (n1 n2 : L2BlockInfo → PipelineM P SingleBatch) (last : P → bool).
Abbreviation i1 := {| ap_next_batch := n1; ap_is_last_in_span := last |}.
Abbreviation i2 := {| ap_next_batch := n2; ap_is_last_in_span := last |}.

Lemma attributes_unless parent :
  unless D (n1 parent) (n2 parent) →
  unless (λ s : AttributesQueue P AB, D (aq_prev s))
    (@AttributesQueue.next_attributes P AB i1 _ parent) (@AttributesQueue.next_attributes P AB i2 _ parent).
Proof.
  intros Hn. unfold next_attributes. apply unless_bind; [|intros b; apply unless_refl].
  unfold AttributesQueue.load_batch. apply unless_bind; [apply unless_refl|intros [b|]]; [apply unless_refl|].
  apply unless_bind; [|intros []; apply unless_refl].
  apply unless_bind; [|intros b; apply unless_refl]. by apply (unless_zoom D).
Qed.
End attributes.

(** * The pipeline and the driver's loop *)

Section pipeline.
Context {S T O : Type} `{!Stage S} `{!L2ChainProvider T} `{!FlushableCache O} (to_string : l2_error (F:=T) → string).
Context (D : S → Prop) (n1 n2 : NextAttributes S) (Hn : ∀ parent, unless D (n1 parent) (n2 parent)).
Abbreviation pipeline1 := (@oracle_pipeline S T O _ n1 _ _ to_string).
Abbreviation pipeline2 := (@oracle_pipeline S T O _ n2 _ _ to_string).

Lemma step_unless cursor :
  unless (λ s : DerivationPipeline S T, D (dp_attributes s)) (@step S T _ n1 cursor) (@step S T _ n2 cursor).
Proof.
  intros s. unfold step.
  assert (unless (λ s : DerivationPipeline S T, D (dp_attributes s)) (zoom dp_attributes set_attributes (n1 cursor))
            (zoom dp_attributes set_attributes (n2 cursor))) as Hz by by apply (unless_zoom D).
  destruct (Hz s) as [Heq|(s' & Hp & Hs)]; [left|right].
  - unfold na_next_attributes. by rewrite Heq.
  - exists s'. unfold na_next_attributes. by rewrite Hp.
Qed.

Lemma produce_once_unless head :
  unless (λ self, D (dp_attributes (op_pipeline self))) (@produce_once _ pipeline1 head) (@produce_once _ pipeline2 head).
Proof.
  unfold produce_once. apply unless_bind; [|intros r; apply unless_refl]. apply unless_infallible.
  apply (unless_zoom (λ s, D (dp_attributes s))); [apply step_unless|done].
Qed.

Lemma produce_payload_unless fuel head : ∀ self,
  @produce_payload _ pipeline1 fuel head self = @produce_payload _ pipeline2 fuel head self
  ∨ ∃ self', @produce_payload _ pipeline1 fuel head self = Some (Panic, self') ∧ D (dp_attributes (op_pipeline self')).
Proof.
  induction fuel as [|fuel IH]; intros self; [by left|]. rewrite !produce_payload_S. unfold the_pipeline.
  destruct (produce_once_unless head self) as [->|(self' & -> & Hs)]; [|right; by eexists].
  destruct (@produce_once _ pipeline2 head self) as [[[u|a]|e|] self']; [apply IH|by left..].
Qed.
End pipeline.
