(* ===== verification/Builder.v ===== *)
(** The pipeline builder (src/crates/derive/src/pipeline/builder.rs): the stages composed into the
    derivation pipeline of the proof program, and what their interfaces give together. *)
From S2P Require Import Prelude Blocks SystemConfig Types FrameQueue ChannelBank ChannelProvider Reader SingleBatch SpanBatch Batch BatchStream BatchQueue AttributesQueue Pipeline Sources L1Traversal L1Retrieval TxData Inflate ChannelReader TrieDB Executor Cursor Driver Guarded.
From stdpp Require Import sorting.
#[local] Open Scope Z_scope.

Definition L1TraversalStage (P : Type) : Type := L1Traversal P.
Definition L1RetrievalStage (DAP P : Type) : Type := L1Retrieval DAP (L1Traversal P).
Abbreviation FrameQueueStage DAP P := (FrameQueue (L1Retrieval DAP (L1Traversal P))).
Abbreviation ChannelProviderStage DAP P := (ChannelProvider (FrameQueueStage DAP P)).
Abbreviation ChannelReaderStage DAP P := (ChannelReader (ChannelProviderStage DAP P)).
Abbreviation BatchStreamStage DAP P T := (BatchStream (ChannelReaderStage DAP P) T).
Abbreviation BatchProviderStage DAP P T := (BatchQueue (BatchStreamStage DAP P T) T).
Abbreviation AttributesQueueStage DAP P T B := (AttributesQueue (BatchProviderStage DAP P T) B).

Record PipelineBuilder (B P T D : Type) := mkPipelineBuilder {
  pb_l2_chain_provider : option T;
  pb_dap_source : option D;
  pb_chain_provider : option P;
  pb_builder : option B;
  pb_origin : option BlockInfo;
  pb_rollup_config : option SoonRollupConfig;
  pb_system_config : option SystemConfig;
}.
Arguments mkPipelineBuilder {B P T D}.
Arguments pb_l2_chain_provider {B P T D}.
Arguments pb_dap_source {B P T D}.
Arguments pb_chain_provider {B P T D}.
Arguments pb_builder {B P T D}.
Arguments pb_origin {B P T D}.
Arguments pb_rollup_config {B P T D}.
Arguments pb_system_config {B P T D}.

Section builder.
Context {B P T D : Type}.
Implicit Types self : PipelineBuilder B P T D.

Definition system_config (c : SystemConfig) self : PipelineBuilder B P T D :=
  mkPipelineBuilder (pb_l2_chain_provider self) (pb_dap_source self) (pb_chain_provider self) (pb_builder self)
    (pb_origin self) (pb_rollup_config self) (Some c).

End builder.

(** * The oracle pipeline *)

Section oracle.
Context {B P T D O : Type} `{!ChainProvider P} `{!AbiDecoder} `{!DataAvailabilityProvider D} `{!L2ChainProvider T}.
Context `{!AttributesBuilder B} `{!TxCodec} `{!Varint} `{!BatchCodec} `{!FlushableCache O}.
(** [StatefulAttributesBuilder::new], and the [Display] text of the provider's errors. *)
Context (new_builder : SoonRollupConfig → T → P → B) (to_string : l2_error (F:=T) → string).



End oracle.


Section safety.
Context {B P T D O : Type} `{!ChainProvider P} `{!ChainProviderLaws P} `{!AbiDecoder}.
Context `{!DataAvailabilityProvider D} `{!DataAvailabilityLaws D} `{!L2ChainProvider T} `{!L2ChainLaws T}.
Context `{!AttributesBuilder B} `{!AttributesBuilderLaws B} `{!TxCodec} `{!Varint} `{!BatchCodec} `{!InflateCoreLaws}.
Context `{!FlushableCache O} (new_builder : SoonRollupConfig → T → P → B) (to_string : l2_error (F:=T) → string).

Abbreviation Self := (OraclePipeline (AttributesQueueStage D P T B) T O).

(** The pipeline over the guarded channel reader, which keeps its interface. *)
Definition guarded_attributes : NextAttributes (AttributesQueueStage D P T B) :=
  @attributes_queue_provider _ B
    (@batch_queue_provider _ T _ (@batch_stream_provider (ChannelReaderStage D P) T _ guarded_stream _) _) _.
#[local] Instance guarded_laws : @NextAttributesLaws _ _ _ guarded_attributes :=
  attributes_queue_laws (AttributesProviderLaws0:=batch_queue_laws
    (NextBatchLaws0:=batch_stream_laws (BatchStreamLaws0:=guarded_stream_laws))).
Abbreviation ready := (pipeline_ready (P:=T) (NextAttributes0:=guarded_attributes)).
Abbreviation guarded_pipeline :=
  (@oracle_pipeline (AttributesQueueStage D P T B) T O _ guarded_attributes _ _ to_string).
Abbreviation real_pipeline := (@oracle_pipeline (AttributesQueueStage D P T B) T O _ _ _ _ to_string).







End safety.

(** * The Ethereum data source answers every call *)

Class DAProviderLaws (DA : Type) `{!DAProvider DA} := dap_get_input (da : DA) c : get_input da c ≠ Panic.

Section ethereum.
Context {CP DA : Type} `{!ChainProvider CP} `{!ChainProviderLaws CP} `{!DAProvider DA} `{!DAProviderLaws DA}.

Definition ethereum_err (e : PipelineErrorKind) : Prop :=
  e = temp Eof ∨ (∃ e' : l1_error (F:=CP), e = l1_error_into e') ∨ ∃ e' : da_error (F:=DA), e = da_error_into e'.

Lemma calldata_next_safe b a :
  safe (λ _ : CalldataSource CP, True) ethereum_err (λ _, True) (Calldata.next b a).
Proof.
  unfold Calldata.next. apply (safe_bind _ _ (λ _, True)).
  - intros self _. unfold Calldata.load_calldata. destruct (cs_open self); [done|].
    pose proof (cp_transactions (cs_chain_provider self) (bi_hash b)) as Hp.
    destruct (get_block_transactions_by_hash _ _) as [txs|e|]; [done| |done].
    split; [|done]. right. left. by eexists.
  - intros _ _ self Hs. pose proof (pop_front_calldata_safe self Hs) as Hp.
    destruct (Calldata.pop_front self) as [[d|e|] self']; [done| |done]. destruct Hp as [-> _]. split; [by left|done].
Qed.

#[export] Program Instance ethereum_laws : DataAvailabilityLaws (EthereumDataSource CP DA) := {| da_err := ethereum_err |}.
Next Obligation.
  intros b a. apply (safe_zoom _ _ (λ _, True) ethereum_err); [|done..].
  unfold DAServer.next. apply (safe_bind _ _ (λ _, True)).
  { apply (safe_zoom _ _ (λ _, True) ethereum_err); [apply calldata_next_safe|done..]. }
  intros c _. apply (safe_bind _ _ (λ _, True)).
  - intros self _. unfold DAServer.load_da_server_data. pose proof (dap_get_input (ds_server_provider self) c) as Hp.
    destruct (get_input _ _) as [d|e|]; [done| |done]. split; [|done]. right. right. by eexists.
  - intros _ _ self _. unfold DAServer.pop_front. destruct (ds_data self); [|done]. split; [by left|done].
Qed.
End ethereum.

(** * A chain without receipts *)

Module Plain.
Record PlainChain := mkPlainChain { blocks : list ListedBlock }.
Definition plain_hash {A} (f : ListedBlock → A) (self : PlainChain) (h : B256) : outcome unit A :=
  listed f (has_hash h) (blocks self).
#[local] Instance plain_chain : ChainProvider PlainChain :=
  {| l1_error := unit;
     l1_error_into _ := crit EndOfSource;
     header_by_hash self h :=
       plain_hash (λ b, mkL1Header (bi_hash (lb_info b)) (bi_parent_hash (lb_info b))
                      (bi_number (lb_info b)) (bi_timestamp (lb_info b)) B256_ZERO B256_ZERO B256_ZERO) self h;
     block_info_by_hash self h := plain_hash lb_info self h;
     block_info_by_number self n := listed lb_info (λ b, bool_decide (bi_number b = n)) (blocks self);
     receipts_by_hash self h := plain_hash (λ _, []) self h;
     get_block_transactions_by_hash self h := plain_hash lb_transactions self h |}.
Lemma listed_answers {A} (f : ListedBlock → A) p l : listed f p l ≠ Panic.
Proof. unfold listed. by destruct (List.find _ l). Qed.
#[local] Instance plain_laws : ChainProviderLaws PlainChain.
Proof.
  split; try (intros; apply listed_answers). intros self h rs Hrs. cbn in Hrs. unfold plain_hash, listed in Hrs.
  destruct (List.find _ _); [|done]. by injection Hrs as <-.
Qed.
#[local] Instance echo_laws : DAProviderLaws EchoDA.
Proof. done. Qed.
#[local] Existing Instance word_abi.
End Plain.
#[local] Existing Instances Plain.plain_chain Plain.plain_laws Plain.echo_laws Rle.core_laws word_abi Scripted.no_cache.

