(* ===== verification/Preimage.v ===== *)
(** The preimage oracle (src/crates/proof/preimage/src/): the keys (key.rs), the channels between
    the client and the host (traits.rs, native_channel.rs; the file channel of
    src/crates/proof/std-fpvm/src/channel.rs), the request protocol (oracle.rs), and the cache in
    front of it (src/crates/proof/proof/src/caching_oracle.rs). The hints are
    those of Hint.v.

    Client and host run concurrently: each is a process that writes to and reads from the
    channel, and they interleave in any way.  The theorems: a key is read back from its 32 bytes;
    whatever the interleaving, a client that asks for preimages gets them, in order, and the two
    sides do not block each other; the cache does not change the answers. *)
From S2P Require Import Prelude Blocks Rlp NodeCodec.
#[local] Open Scope Z_scope.

(** * Errors and keys *)

Inductive ChannelError := Closed | UnexpectedEOF.
Inductive PreimageOracleError :=
| IOError (e : ChannelError)
| InvalidPreimageKey
| KeyNotFound
| BufferLengthMismatch (expected got : Z)
| HintParseFailed (msg : string)
| OtherErr (msg : string).

Inductive PreimageKeyType :=
| Local_
| Keccak256
| GlobalGeneric
| Sha256
| Blob
| Precompile
| BlockSlot
| DAProxyBlob
| L2AccountProof
| BankHash
| BlockTime.
#[global] Instance preimage_key_type_eq_dec : EqDecision PreimageKeyType.
Proof. solve_decision. Defined.

(** [key_type as u8], and [TryFrom<u8>]. *)
Definition key_type_u8 (t : PreimageKeyType) : Z :=
  match t with
  | Local_ => 1 | Keccak256 => 2 | GlobalGeneric => 3 | Sha256 => 4 | Blob => 5 | Precompile => 6
  | BlockSlot => 7 | DAProxyBlob => 8 | L2AccountProof => 9 | BankHash => 10 | BlockTime => 11
  end.
Definition key_type_try_from (value : Z) : outcome PreimageOracleError PreimageKeyType :=
  match value with
  | 1 => Ok Local_ | 2 => Ok Keccak256 | 3 => Ok GlobalGeneric | 4 => Ok Sha256 | 5 => Ok Blob | 6 => Ok Precompile
  | 7 => Ok BlockSlot | 8 => Ok DAProxyBlob | 9 => Ok L2AccountProof | 10 => Ok BankHash | 11 => Ok BlockTime
  | _ => Err InvalidPreimageKey
  end.

(** The data has 31 bytes. *)
Record PreimageKey := mkPreimageKey { pk_data : bytes; pk_key_type : PreimageKeyType }.
#[global] Instance preimage_key_eq_dec : EqDecision PreimageKey.
Proof. solve_decision. Defined.

(** [&key[1..]] of a 32-byte array. *)
Definition key_new (key : bytes) (key_type : PreimageKeyType) : PreimageKey := mkPreimageKey (drop 1 key) key_type.
Definition new_local (local_ident : Z) : PreimageKey :=
  mkPreimageKey (replicate 23 byte0 ++ be_bytes 8 local_ident) Local_.
Definition new_keccak256 (digest : bytes) : PreimageKey := key_new digest Keccak256.

Section hashed.
Context `{!Keccak}.
Definition new_precompile (precompile_addr input : bytes) : PreimageKey :=
  mkPreimageKey (drop 1 (keccak256 (precompile_addr ++ input))) Precompile.
Definition new_block_slot (block_slot : Z) : PreimageKey := key_new (keccak256 (be_bytes 8 block_slot)) BlockSlot.
Definition new_da_proxy_blob (key_data : bytes) : PreimageKey := key_new (keccak256 key_data) DAProxyBlob.
Definition new_l2_bank_hash (block_number : Z) : PreimageKey := key_new (keccak256 (be_bytes 8 block_number)) BankHash.
Definition new_l2_block_time (block_number : Z) : PreimageKey := key_new (keccak256 (be_bytes 8 block_number)) BlockTime.
End hashed.
Definition new_l2_account_proof (hashed_account : bytes) : PreimageKey := key_new hashed_account L2AccountProof.

Definition key_value (self : PreimageKey) : Z := be_val (pk_data self).

(** The 32 bytes of a key, and back. *)
Definition key_bytes (key : PreimageKey) : bytes := z2b (key_type_u8 (pk_key_type key)) :: pk_data key.
Definition key_try_from (value : bytes) : outcome PreimageOracleError PreimageKey :=
  first ← index value 0;
  key_type ← key_type_try_from (b2z first);
  Ok (key_new value key_type).

Definition key_wf (key : PreimageKey) : Prop := length (pk_data key) = 31%nat.

Lemma key_bytes_try_from key : key_try_from (key_bytes key) = Ok key.
Proof. destruct key as [data []]; done. Qed.
Lemma key_type_inv value t : key_type_try_from value = Ok t → key_type_u8 t = value.
Proof.
  unfold key_type_try_from. destruct value as [|p|p]; [done| |done].
  do 4 (try destruct p as [p|p|]); first [done|by intros [= <-]].
Qed.
Lemma key_type_cases value :
  (1 <= value <= 11 ∧ ∃ t, key_type_try_from value = Ok t) ∨
  (¬ 1 <= value <= 11 ∧ key_type_try_from value = Err InvalidPreimageKey).
Proof.
  unfold key_type_try_from. destruct value as [|p|p]; [right; split; [lia|done]| |right; split; [lia|done]].
  do 4 (try destruct p as [p|p|]); first [left; split; [lia|by eexists]|right; split; [lia|done]].
Qed.

Lemma key_try_from_cons first rest :
  key_try_from (first :: rest) = (t ← key_type_try_from (b2z first); Ok (key_new (first :: rest) t)).
Proof. done. Qed.

(** Keys survive their 32 bytes: a key is read back from them, the bytes that are read as a
    key are those it is written as, and exactly the type bytes 1 to 11 are accepted. *)
Theorem preimage_key_roundtrip value key :
  key_try_from (key_bytes key) = Ok key ∧
  (key_try_from value = Ok key → key_bytes key = value) ∧
  (∀ first rest, value = first :: rest →
     (1 <= b2z first <= 11 ∧ ∃ key, key_try_from value = Ok key) ∨
     (¬ 1 <= b2z first <= 11 ∧ key_try_from value = Err InvalidPreimageKey)).
Proof.
  split; [apply key_bytes_try_from|]. split.
  - destruct value as [|first rest]; [done|]. rewrite key_try_from_cons.
    destruct (key_type_try_from (b2z first)) as [t|e|] eqn:Ht; [|done..]. intros [= <-].
    unfold key_bytes. cbn -[z2b b2z]. by rewrite (key_type_inv _ _ Ht), z2b_b2z.
  - intros first rest ->. rewrite key_try_from_cons.
    destruct (key_type_cases (b2z first)) as [[Hr [t ->]]|[Hr ->]]; [left|right]; split; try done. by eexists.
Qed.

(** * Channels *)

(** One direction of a channel; reading waits ([None]) until there is something to read. *)
Class Channel (C : Type) := {
  ch_empty : C;
  ch_write : bytes → C → C;
  ch_read_exact : nat → C → option (outcome ChannelError bytes * C);
}.

(** The content of a channel, as the messages written to it and not read yet. *)
Class ChannelLaws (C : Type) `{!Channel C} := {
  holds : C → list bytes → Prop;
  holds_empty : holds ch_empty [];
  holds_write c ms m : holds c ms → holds (ch_write m c) (ms ++ [m]);
  holds_read c m ms : holds c (m :: ms) → ∃ c', ch_read_exact (length m) c = Some (Ok m, c') ∧ holds c' ms;
  holds_wait c n : holds c [] → (0 < n)%nat → ch_read_exact n c = None;
}.

(** A native channel carries messages; [copy_from_slice] panics when the lengths differ. *)
#[global] Instance native_channel : Channel (list bytes) := {|
  ch_empty := [];
  ch_write m c := c ++ [m];
  ch_read_exact n c :=
    match c with
    | [] => None
    | m :: c => Some (if decide (length m = n) then Ok m else Panic, c)
    end;
|}.
#[global] Program Instance native_channel_laws : ChannelLaws (list bytes) := {| holds := eq |}.
Next Obligation. done. Qed.
Next Obligation. by intros c ms m ->. Qed.
Next Obligation. intros c m ms ->. cbn. rewrite decide_True by done. by eexists. Qed.
Next Obligation. by intros c n ->. Qed.

(** A file channel carries bytes; reading polls until the buffer is full. *)
#[global] Instance file_channel : Channel bytes := {|
  ch_empty := [];
  ch_write m c := c ++ m;
  ch_read_exact n c := if decide (n <= length c)%nat then Some (Ok (take n c), drop n c) else None;
|}.
#[global] Program Instance file_channel_laws : ChannelLaws bytes := {| holds c ms := c = mjoin ms |}.
Next Obligation. done. Qed.
Next Obligation. intros c ms m ->. cbn. rewrite join_app. cbn. by rewrite app_nil_r. Qed.
Next Obligation.
  intros c m ms ->. cbn. change (mjoin (m :: ms)) with (m ++ mjoin ms).
  rewrite decide_True by (rewrite length_app; lia). rewrite take_app_length, drop_app_length. by eexists.
Qed.
Next Obligation. intros c n -> Hn. cbn. rewrite decide_False; [done|]. cbn. lia. Qed.

(** * Processes *)

Inductive Proc (A : Type) : Type :=
| Done (r : outcome PreimageOracleError A)
| Write (buf : bytes) (k : Proc A)
| ReadExact (n : nat) (k : bytes → Proc A).
Arguments Done {A}.
Arguments Write {A}.
Arguments ReadExact {A}.

#[global] Instance proc_ret : MRet Proc := λ A a, Done (Ok a).
Fixpoint proc_bind_ {A B} (k : A → Proc B) (p : Proc A) : Proc B :=
  match p with
  | Done (Ok a) => k a
  | Done (Err e) => Done (Err e)
  | Done Panic => Done Panic
  | Write buf p => Write buf (proc_bind_ k p)
  | ReadExact n q => ReadExact n (λ b, proc_bind_ k (q b))
  end.
#[global] Instance proc_bind : MBind Proc := @proc_bind_.

Definition write (buf : bytes) : Proc unit := Write buf (Done (Ok tt)).
Definition read_exact (n : nat) : Proc bytes := ReadExact n (λ b, Done (Ok b)).
Definition answer {A} (r : outcome PreimageOracleError A) : Proc A := Done r.

(** * The request protocol *)

Definition write_key (key : PreimageKey) : Proc Z :=
  _ ← write (key_bytes key);
  length_buffer ← read_exact 8;
  mret (be_val length_buffer).

Definition reader_get (key : PreimageKey) : Proc bytes :=
  length ← write_key key;
  if decide (length = 0) then mret [] else read_exact (Z.to_nat length).

(** The buffer of [get_exact] has [buf_len] bytes. *)
Definition reader_get_exact (key : PreimageKey) (buf_len : Z) : Proc bytes :=
  length ← write_key key;
  if decide (buf_len ≠ length) then answer (Err (BufferLengthMismatch length buf_len))
  else if decide (length = 0) then mret []
  else read_exact (Z.to_nat buf_len).

Definition next_preimage_request (fetcher : PreimageKey → outcome PreimageOracleError bytes) : Proc unit :=
  buf ← read_exact 32;
  preimage_key ← answer (key_try_from buf);
  value ← answer (fetcher preimage_key);
  _ ← write (be_bytes 8 (len value));
  if decide (len value > 0) then write value else mret tt.

(** A client that asks for one preimage after the other. *)
Fixpoint get_all (acc : list bytes) (keys : list PreimageKey) : Proc (list bytes) :=
  match keys with
  | [] => mret acc
  | key :: keys => value ← reader_get key; get_all (acc ++ [value]) keys
  end.

(** * Sessions *)

Record Session (C A : Type) := mkSession {
  ss_client : Proc A;
  ss_server : Proc unit;
  ss_requests : C;
  ss_answers : C;
}.
Arguments mkSession {C A}.
Arguments ss_client {C A}.
Arguments ss_server {C A}.
Arguments ss_requests {C A}.
Arguments ss_answers {C A}.

Section session.
Context {C : Type} `{!Channel C} {A : Type}.
(** What the host runs for a request. *)
Context (request : Proc unit).

Definition resume {B} (r : outcome ChannelError bytes) (k : bytes → Proc B) : Proc B :=
  match r with Ok b => k b | Err e => Done (Err (IOError e)) | Panic => Done Panic end.

(** Client and host take their steps in any order; the host serves one request after the other. *)
Inductive session_step : Session C A → Session C A → Prop :=
| client_writes buf k server requests answers :
    session_step (mkSession (Write buf k) server requests answers) (mkSession k server (ch_write buf requests) answers)
| client_reads n k r server requests answers answers' :
    ch_read_exact n answers = Some (r, answers') →
    session_step (mkSession (ReadExact n k) server requests answers) (mkSession (resume r k) server requests answers')
| server_writes buf k client requests answers :
    session_step (mkSession client (Write buf k) requests answers) (mkSession client k requests (ch_write buf answers))
| server_reads n k r client requests requests' answers :
    ch_read_exact n requests = Some (r, requests') →
    session_step (mkSession client (ReadExact n k) requests answers) (mkSession client (resume r k) requests' answers)
| server_loops client requests answers :
    session_step (mkSession client (Done (Ok tt)) requests answers) (mkSession client request requests answers).

Definition session_start (client : Proc A) : Session C A := mkSession client request ch_empty ch_empty.
End session.

Section conversation.
Context {C : Type} `{!Channel C} `{!ChannelLaws C}.
Context (fetcher : PreimageKey → outcome PreimageOracleError bytes) (preimage : PreimageKey → bytes).
Abbreviation Conversation := (Session C (list bytes)).
Abbreviation serve := (next_preimage_request fetcher).
Abbreviation session_step := (session_step (C:=C) (A:=list bytes) serve).

(** A key the client may ask for. *)
Definition served (key : PreimageKey) : Prop :=
  key_wf key ∧ fetcher key = Ok (preimage key) ∧ len (preimage key) < 2 ^ 64.

Definition await (acc : list bytes) (keys : list PreimageKey) : Proc (list bytes) :=
  ReadExact 8 (λ b, value ← (if decide (be_val b = 0) then mret [] else read_exact (Z.to_nat (be_val b)));
                    get_all (acc ++ [value]) keys).
Definition receive (n : nat) (acc : list bytes) (keys : list PreimageKey) : Proc (list bytes) :=
  ReadExact n (λ b, get_all (acc ++ [b]) keys).
Definition serving (value : bytes) : Proc unit :=
  Write (be_bytes 8 (len value)) (if decide (len value > 0) then write value else mret tt).

(** The host waits for a request, or is about to. *)
Inductive waiting : Proc unit → nat → Prop :=
| waiting_request : waiting serve 0
| waiting_loop : waiting (Done (Ok tt)) 1.

(** Where client and host are, with what is in the channels; the number bounds the steps left. *)
Inductive phase : list bytes → list PreimageKey → nat → Proc (list bytes) → Proc unit → list bytes → list bytes → Prop :=
| phase_idle acc keys server w :
    waiting server w → phase acc keys (10 * length keys + w) (get_all acc keys) server [] []
| phase_asked acc key keys server w :
    waiting server w → phase acc (key :: keys) (10 * length keys + 8 + w) (await acc keys) server [key_bytes key] []
| phase_serving acc key keys :
    phase acc (key :: keys) (10 * length keys + 7) (await acc keys) (serving (preimage key)) [] []
| phase_sized acc key keys :
    preimage key ≠ [] →
    phase acc (key :: keys) (10 * length keys + 6) (await acc keys) (write (preimage key)) []
      [be_bytes 8 (len (preimage key))]
| phase_sent acc key keys server w :
    preimage key ≠ [] → waiting server w →
    phase acc (key :: keys) (10 * length keys + 4 + w) (await acc keys) server []
      [be_bytes 8 (len (preimage key)); preimage key]
| phase_sent_empty acc key keys server w :
    preimage key = [] → waiting server w →
    phase acc (key :: keys) (10 * length keys + 4 + w) (await acc keys) server [] [be_bytes 8 (len (preimage key))]
| phase_reading acc key keys :
    preimage key ≠ [] →
    phase acc (key :: keys) (10 * length keys + 5) (receive (length (preimage key)) acc keys) (write (preimage key)) [] []
| phase_read acc key keys server w :
    preimage key ≠ [] → waiting server w →
    phase acc (key :: keys) (10 * length keys + 2 + w) (receive (length (preimage key)) acc keys) server []
      [preimage key].

(** A state of the conversation that ends with the client holding [total]. *)
Definition conversing (total : list bytes) (n : nat) (s : Conversation) : Prop :=
  ∃ acc keys requests answers,
    phase acc keys n (ss_client s) (ss_server s) requests answers ∧ Forall served keys ∧ total = acc ++ (preimage <$> keys) ∧
    holds (ss_requests s) requests ∧ holds (ss_answers s) answers.

Lemma size_read (value : bytes) : len value < 2 ^ 64 → be_val (be_bytes 8 (len value)) = len value.
Proof. intros Hv. rewrite be_val_bytes. apply Z.mod_small. pose proof (len_nonneg value). lia. Qed.

(** The client reads the length. *)
Lemma await_read acc keys (value : bytes) :
  len value < 2 ^ 64 →
  resume (Ok (be_bytes 8 (len value)))
    (λ b, value ← (if decide (be_val b = 0) then mret [] else read_exact (Z.to_nat (be_val b))); get_all (acc ++ [value]) keys)
  = if decide (value = []) then get_all (acc ++ [[]]) keys else receive (length value) acc keys.
Proof.
  intros Hv. cbn [resume]. rewrite size_read by done. unfold len. destruct value as [|b value]; [done|].
  rewrite !decide_False by (cbn; lia). rewrite Nat2Z.id. done.
Qed.

(** The host reads a request. *)
Lemma request_read key :
  served key →
  resume (Ok (key_bytes key)) (λ buf, preimage_key ← answer (key_try_from buf); value ← answer (fetcher preimage_key);
    _ ← write (be_bytes 8 (len (A:=byte) value)); if decide (len (A:=byte) value > 0) then write value else mret tt)
  = serving (preimage key).
Proof.
  intros (Hk & Hf & _). cbn [resume]. rewrite key_bytes_try_from. unfold answer, mbind, proc_bind. cbn [proc_bind_].
  by rewrite Hf.
Qed.

Lemma get_all_cons acc key keys : get_all acc (key :: keys) = Write (key_bytes key) (await acc keys).
Proof. done. Qed.

Lemma key_bytes_length key : served key → length (key_bytes key) = 32%nat.
Proof. intros (Hk & _). unfold key_bytes. cbn. by rewrite Hk. Qed.

(** A read of the first message. *)
Lemma read_first (c : C) n r (c' : C) m ms :
  holds c (m :: ms) → length m = n → ch_read_exact n c = Some (r, c') → r = Ok m ∧ holds c' ms.
Proof. intros Hc <- Hr. destruct (holds_read c m ms Hc) as (c1 & Hr1 & Hc1). rewrite Hr1 in Hr. by injection Hr as <- <-. Qed.


(** Some step can be taken until the client is done. *)
Lemma conversation_goes_on total n s :
  conversing total n s → (∃ s', session_step s s') ∨ ss_client s = Done (Ok total).
Proof.
  intros (acc & keys & requests & answers & Hp & Hs & -> & Hreq & Hans). destruct s as [client server creq cans]. cbn in *.
  destruct Hp as [acc keys server w Hw|acc key keys server w Hw|acc key keys|acc key keys Hne|acc key keys server w Hne Hw
    |acc key keys server w He Hw|acc key keys Hne|acc key keys server w Hne Hw].
  - destruct keys as [|key keys]; [right; cbn; by rewrite app_nil_r|left]. rewrite get_all_cons. eexists. apply client_writes.
  - left. destruct Hw; [|eexists; apply server_loops]. apply Forall_cons in Hs as [Hk _].
    destruct (holds_read _ _ _ Hreq) as (c' & Hr & _). rewrite key_bytes_length in Hr by done.
    eexists. apply (server_reads _ 32 _ _ _ _ _ _ Hr).
  - left. eexists. apply server_writes.
  - left. eexists. apply server_writes.
  - left. destruct (holds_read _ _ _ Hans) as (c' & Hr & _). rewrite length_be_bytes in Hr. eexists.
    apply (client_reads _ 8 _ _ _ _ _ _ Hr).
  - left. destruct (holds_read _ _ _ Hans) as (c' & Hr & _). rewrite length_be_bytes in Hr. eexists.
    apply (client_reads _ 8 _ _ _ _ _ _ Hr).
  - left. eexists. apply server_writes.
  - left. destruct (holds_read _ _ _ Hans) as (c' & Hr & _). eexists. apply (client_reads _ _ _ _ _ _ _ _ Hr).
Qed.

Definition client_moves (client : Proc (list bytes)) (requests answers : C) (client' : Proc (list bytes)) (requests' answers' : C) : Prop :=
  match client with
  | Done _ => False
  | Write buf k => client' = k ∧ requests' = ch_write buf requests ∧ answers' = answers
  | ReadExact n k => requests' = requests ∧ ∃ r, ch_read_exact n answers = Some (r, answers') ∧ client' = resume r k
  end.
Definition server_moves (server : Proc unit) (requests answers : C) (server' : Proc unit) (requests' answers' : C) : Prop :=
  match server with
  | Done r => r = Ok tt ∧ server' = serve ∧ requests' = requests ∧ answers' = answers
  | Write buf k => server' = k ∧ requests' = requests ∧ answers' = ch_write buf answers
  | ReadExact n k => answers' = answers ∧ ∃ r, ch_read_exact n requests = Some (r, requests') ∧ server' = resume r k
  end.
Lemma step_moves s s' :
  session_step s s' →
  (ss_server s' = ss_server s ∧
     client_moves (ss_client s) (ss_requests s) (ss_answers s) (ss_client s') (ss_requests s') (ss_answers s')) ∨
  (ss_client s' = ss_client s ∧
     server_moves (ss_server s) (ss_requests s) (ss_answers s) (ss_server s') (ss_requests s') (ss_answers s')).
Proof. intros []; cbn; eauto 10. Qed.

(** A waiting host with no request can only come round the loop. *)
Lemma waiting_moves server w requests answers server' requests' answers' :
  waiting server w → holds requests [] → server_moves server requests answers server' requests' answers' →
  w = 1%nat ∧ server' = serve ∧ requests' = requests ∧ answers' = answers.
Proof.
  intros [] Hr Hm; [|by destruct Hm as (_ & -> & -> & ->)]. destruct Hm as (_ & r & Hread & _).
  by rewrite (holds_wait _ 32 Hr) in Hread by lia.
Qed.

(** The client waits for an answer that is not there. *)
Lemma await_blocked acc keys requests answers client' requests' answers' :
  holds answers [] → ¬ client_moves (await acc keys) requests answers client' requests' answers'.
Proof. intros Ha (_ & r & Hread & _). by rewrite (holds_wait _ 8 Ha) in Hread by lia. Qed.

Lemma conversation_step total n s s' :
  conversing total n s → session_step s s' → ∃ n', (n' < n)%nat ∧ conversing total n' s'.
Proof.
  intros (acc & keys & requests & answers & Hp & Hs & -> & Hreq & Hans) Hstep%step_moves.
  destruct s as [client server creq cans], s' as [client' server' creq' cans']. cbn in *.
  assert (∀ n' acc' keys' requests' answers', (n' < n)%nat → phase acc' keys' n' client' server' requests' answers' →
    Forall served keys' → acc ++ (preimage <$> keys) = acc' ++ (preimage <$> keys') → holds creq' requests' →
    holds cans' answers' → ∃ n', (n' < n)%nat ∧ conversing (acc ++ (preimage <$> keys)) n' (mkSession client' server' creq' cans')) as Hgo.
  { intros n' acc' keys' requests' answers' Hn Hp' Hs' Htot Hr' Ha'. exists n'. split; [done|].
    by exists acc', keys', requests', answers'. }
  destruct Hp as [acc keys server w Hw|acc key keys server w Hw|acc key keys|acc key keys Hne|acc key keys server w Hne Hw
    |acc key keys server w He Hw|acc key keys Hne|acc key keys server w Hne Hw]; destruct Hstep as [[-> Hm]|[-> Hm]].
  - destruct keys as [|key keys]; [done|]. rewrite get_all_cons in Hm. destruct Hm as (-> & -> & ->).
    eapply Hgo; [|by apply phase_asked|done|done|by apply (holds_write _ [])|done]. cbn. lia.
  - destruct (waiting_moves _ _ _ _ _ _ _ Hw Hreq Hm) as (-> & -> & -> & ->).
    eapply Hgo; [|apply phase_idle, waiting_request|done..]. lia.
  - by apply (await_blocked _ _ _ _ _ _ _ Hans) in Hm.
  - destruct Hw; [|destruct Hm as (_ & -> & -> & ->); eapply Hgo; [|apply phase_asked, waiting_request|done..]; lia].
    destruct Hm as (-> & r & Hread & Heq). pose proof Hs as [Hk _]%Forall_cons.
    destruct (read_first _ 32 _ _ _ _ Hreq (key_bytes_length key Hk) Hread) as [-> Hreq'].
    assert (server' = serving (preimage key)) as -> by (rewrite Heq; exact (request_read key Hk)). eapply Hgo; [|apply phase_serving|done..]. lia.
  - by apply (await_blocked _ _ _ _ _ _ _ Hans) in Hm.
  - destruct Hm as (Heq & -> & ->). pose proof (holds_write _ _ (be_bytes 8 (len (preimage key))) Hans) as Hans'.
    destruct (decide (preimage key = [])) as [He|Hne].
    + rewrite decide_False in Heq by (rewrite He, len_nil; lia). subst server'. eapply Hgo; [|by apply phase_sent_empty, waiting_loop|done..]. lia.
    + rewrite decide_True in Heq by (unfold len; destruct (preimage key); cbn; [done|lia]). subst server'.
      eapply Hgo; [|by apply phase_sized|done..]. lia.
  - destruct Hm as (-> & r & Hread & Heq). pose proof Hs as [(_ & _ & Hlen) _]%Forall_cons.
    destruct (read_first _ 8 _ _ _ _ Hans (length_be_bytes _ _) Hread) as [-> Hans'].
    rewrite await_read, decide_False in Heq by done. subst client'. eapply Hgo; [|by apply phase_reading|done..]. lia.
  - destruct Hm as (-> & -> & ->). eapply Hgo; [|by apply phase_sent, waiting_loop|done..|by apply (holds_write _ [_])]. lia.
  - destruct Hm as (-> & r & Hread & Heq). pose proof Hs as [(_ & _ & Hlen) _]%Forall_cons.
    destruct (read_first _ 8 _ _ _ _ Hans (length_be_bytes _ _) Hread) as [-> Hans'].
    rewrite await_read, decide_False in Heq by done. subst client'. eapply Hgo; [|by apply phase_read|done..]. lia.
  - destruct (waiting_moves _ _ _ _ _ _ _ Hw Hreq Hm) as (-> & -> & -> & ->).
    eapply Hgo; [|by apply phase_sent, waiting_request|done..]. lia.
  - destruct Hm as (-> & r & Hread & Heq). pose proof Hs as [(_ & _ & Hlen) Hs']%Forall_cons.
    destruct (read_first _ 8 _ _ _ _ Hans (length_be_bytes _ _) Hread) as [-> Hans'].
    rewrite await_read, decide_True in Heq by done. subst client'. eapply Hgo; [|by apply phase_idle|done| |done..]; [lia|].
    cbn. by rewrite He, <- app_assoc.
  - destruct (waiting_moves _ _ _ _ _ _ _ Hw Hreq Hm) as (-> & -> & -> & ->).
    eapply Hgo; [|by apply phase_sent_empty, waiting_request|done..]. lia.
  - destruct Hm as (_ & r & Hread & _). rewrite (holds_wait _ _ Hans) in Hread; [done|]. destruct (preimage key); [done|cbn; lia].
  - destruct Hm as (-> & -> & ->). eapply Hgo; [|by apply phase_read, waiting_loop|done..|by apply (holds_write _ [])]. lia.
  - destruct Hm as (-> & r & Hread & ->). pose proof Hs as [_ Hs']%Forall_cons.
    destruct (read_first _ _ _ _ _ _ Hans eq_refl Hread) as [-> Hans'].
    eapply Hgo; [|by apply phase_idle|done| |done..]; [lia|]. cbn. by rewrite <- app_assoc.
  - destruct (waiting_moves _ _ _ _ _ _ _ Hw Hreq Hm) as (-> & -> & -> & ->).
    eapply Hgo; [|by apply phase_read, waiting_request|done..]. lia.
Qed.

Lemma conversing_done total n s r : conversing total n s → ss_client s = Done r → r = Ok total.
Proof.
  intros (acc & keys & requests & answers & Hp & _ & -> & _) Hd.
  destruct Hp as [acc keys server w Hw| | | | | | | ]; try done. destruct keys; [|done].
  injection Hd as <-. cbn. by rewrite app_nil_r.
Qed.
Lemma conversing_start keys : Forall served keys → conversing (preimage <$> keys) (10 * length keys) (session_start serve (get_all [] keys)).
Proof.
  intros Hs. exists [], keys, [], []. split_and!; [|done|done|apply holds_empty..].
  rewrite <- (Nat.add_0_r (10 * length keys)). apply phase_idle, waiting_request.
Qed.
Lemma conversing_reaches total n s s' : rtc session_step s s' → conversing total n s → ∃ n', conversing total n' s'.
Proof.
  intros Hr. revert n. induction Hr as [s|s s1 s2 Hs Hr IH]; intros n Hc; [by exists n|].
  destruct (conversation_step total n s s1 Hc Hs) as (n' & _ & Hc'). by apply (IH n').
Qed.
Lemma conversing_sn total n : ∀ s, conversing total n s → sn session_step s.
Proof.
  induction (lt_wf n) as [n _ IH]. intros s Hc. constructor. intros s' Hs.
  destruct (conversation_step total n s s' Hc Hs) as (n' & Hn & Hc'). by apply (IH n').
Qed.

(** C6. The request protocol under concurrency: a client that asks for preimages the host has, and
    the host that serves them, never deadlock and always terminate, in whatever order their
    writes and reads interleave; the client ends with exactly the preimages, in order. *)
Theorem client_gets_preimages keys :
  Forall served keys →
  let start := session_start serve (get_all [] keys) in
  sn session_step start ∧
  ∀ s, rtc session_step start s →
    ((∃ s', session_step s s') ∨ ss_client s = Done (Ok (preimage <$> keys))) ∧
    ∀ r, ss_client s = Done r → r = Ok (preimage <$> keys).
Proof.
  intros Hs start. pose proof (conversing_start keys Hs) as Hc. split; [by eapply conversing_sn|].
  intros s Hr. destruct (conversing_reaches _ _ _ _ Hr Hc) as [n Hn].
  split; [by eapply conversation_goes_on|]. intros r. by eapply conversing_done.
Qed.
End conversation.

(** * The cache *)

Class PreimageOracleClient (O : Type) := {
  oc_get : PreimageKey → ST O PreimageOracleError bytes;
  (** The contents of a buffer of this length. *)
  oc_get_exact : PreimageKey → nat → ST O PreimageOracleError bytes;
}.
Class HintWriterClient (H : Type) := hw_write : string → ST H PreimageOracleError unit.

(** An [LruCache], bounded by the size it was made with. *)
Class LruCache (C : Type) := {
  lru_new : Z → C;
  lru_get : PreimageKey → C → option bytes * C;
  lru_put : PreimageKey → bytes → C → C;
  lru_clear : C → C;
}.

Record CachingOracle (C O H : Type) := mkCachingOracle {
  co_cache : C;
  co_oracle_reader : O;
  co_hint_writer : H;
}.
Arguments mkCachingOracle {C O H}.
Arguments co_cache {C O H}.
Arguments co_oracle_reader {C O H}.
Arguments co_hint_writer {C O H}.

Section caching.
Context {C O H : Type} `{!LruCache C} `{!PreimageOracleClient O} `{!HintWriterClient H}.
Abbreviation Self := (CachingOracle C O H).

Definition caching_new (cache_size : Z) (oracle_reader : O) (hint_writer : H) : outcome Empty_set Self :=
  if decide (cache_size = 0) then Panic else Ok (mkCachingOracle (lru_new cache_size) oracle_reader hint_writer).
Definition set_cache (c : C) (self : Self) : Self := mkCachingOracle c (co_oracle_reader self) (co_hint_writer self).
Definition set_oracle_reader (o : O) (self : Self) : Self := mkCachingOracle (co_cache self) o (co_hint_writer self).
Definition set_hint_writer (h : H) (self : Self) : Self := mkCachingOracle (co_cache self) (co_oracle_reader self) h.

Definition caching_flush (self : Self) : Self := set_cache (lru_clear (co_cache self)) self.

(** Looking a key up refreshes it. *)
Definition cached (key : PreimageKey) : ST Self PreimageOracleError (option bytes) := λ self,
  let '(value, c) := lru_get key (co_cache self) in (Ok value, set_cache c self).

Definition caching_get (key : PreimageKey) : ST Self PreimageOracleError bytes :=
  hit ← cached key;
  match hit with
  | Some value => mret value
  | None =>
      value ← zoom co_oracle_reader set_oracle_reader (oc_get key);
      _ ← modify (λ self, set_cache (lru_put key value (co_cache self)) self);
      mret value
  end.

(** [copy_from_slice] panics when the lengths differ. *)
Definition caching_get_exact (key : PreimageKey) (buf_len : nat) : ST Self PreimageOracleError bytes :=
  hit ← cached key;
  match hit with
  | Some value => if decide (length value = buf_len) then mret value else panic
  | None =>
      buf ← zoom co_oracle_reader set_oracle_reader (oc_get_exact key buf_len);
      _ ← modify (λ self, set_cache (lru_put key buf (co_cache self)) self);
      mret buf
  end.

Definition caching_write (hint : string) : ST Self PreimageOracleError unit :=
  zoom co_hint_writer set_hint_writer (hw_write hint).

#[export] Instance caching_oracle : PreimageOracleClient Self :=
  {| oc_get := caching_get; oc_get_exact := caching_get_exact |}.
End caching.

(** What the cache relies on: it holds entries that were put into it. *)
Class LruLaws (C : Type) `{!LruCache C} := {
  lru_has : C → PreimageKey → bytes → Prop;
  lru_new_has n k v : ¬ lru_has (lru_new n) k v;
  lru_clear_has c k v : ¬ lru_has (lru_clear c) k v;
  lru_get_has c k r c' : lru_get k c = (r, c') →
    (∀ v, r = Some v → lru_has c k v) ∧ ∀ k' v', lru_has c' k' v' → lru_has c k' v';
  lru_put_has c k v k' v' : lru_has (lru_put k v c) k' v' → (k' = k ∧ v' = v) ∨ lru_has c k' v';
}.

Section transparent.
Context {C O H : Type} `{!LruCache C} `{!LruLaws C} `{!PreimageOracleClient O} `{!HintWriterClient H}.
(** An oracle that serves these preimages. *)
Context (preimage : PreimageKey → bytes) (serving_ : O → Prop).
Context (oracle_get : ∀ key o, serving_ o → ∃ o', oc_get key o = (Ok (preimage key), o') ∧ serving_ o').
Context (oracle_get_exact : ∀ key n o, serving_ o → ∃ o', serving_ o' ∧
  oc_get_exact key n o = (if decide (length (preimage key) = n) then Ok (preimage key)
                          else Err (BufferLengthMismatch (len (preimage key)) (Z.of_nat n)), o')).
Abbreviation Self := (CachingOracle C O H).

(** A call of the client, answered by the oracle with the preimage when a buffer has its length. *)
Inductive Request := Get (key : PreimageKey) | GetExact (key : PreimageKey) (n : nat) | Flush.
Definition requested (r : Request) : ST Self PreimageOracleError bytes :=
  match r with
  | Get key => caching_get key
  | GetExact key n => caching_get_exact key n
  | Flush => _ ← modify caching_flush; mret []
  end.
Fixpoint requests (rs : list Request) : ST Self PreimageOracleError (list bytes) :=
  match rs with
  | [] => mret []
  | r :: rs => value ← requested r; values ← requests rs; mret (value :: values)
  end.
Definition well_sized (r : Request) : Prop := match r with GetExact key n => length (preimage key) = n | _ => True end.
Definition expected (r : Request) : bytes := match r with Get key | GetExact key _ => preimage key | Flush => [] end.

Definition cache_ok (self : Self) : Prop :=
  serving_ (co_oracle_reader self) ∧ ∀ k v, lru_has (co_cache self) k v → v = preimage k.

Lemma cached_run key self :
  cache_ok self → ∃ r self', cached key self = (Ok r, self') ∧ cache_ok self' ∧ ∀ v, r = Some v → v = preimage key.
Proof.
  intros [Hs Hc]. unfold cached. destruct (lru_get key (co_cache self)) as [r c] eqn:Hr.
  destruct (lru_get_has _ _ _ _ Hr) as [Hin Hsub]. exists r, (set_cache c self). split_and!; [done| |by auto].
  split; [done|]. intros k v Hv. by apply Hc, Hsub.
Qed.
Lemma put_ok key o (self : Self) :
  cache_ok self → serving_ o → cache_ok (set_cache (lru_put key (preimage key) (co_cache self)) (set_oracle_reader o self)).
Proof. intros [_ Hc] Ho. split; [done|]. intros k v [[-> ->]|Hv]%lru_put_has; [done|by apply Hc]. Qed.

Lemma requested_run r self :
  cache_ok self → well_sized r → ∃ self', requested r self = (Ok (expected r), self') ∧ cache_ok self'.
Proof.
  intros Hok Hw. destruct r as [key|key n|]; cbn [requested expected well_sized] in *.
  - unfold caching_get. destruct (cached_run key self Hok) as (r & s1 & Hr & Hok1 & Hv). rewrite (run_op _ _ _ _ _ Hr).
    destruct r as [v|]; [rewrite (Hv v eq_refl); by exists s1|].
    destruct (oracle_get key (co_oracle_reader s1) (proj1 Hok1)) as (o' & Ho & Hs').
    eexists. rewrite bind_run. unfold zoom. rewrite Ho. split; [reflexivity|]. by apply (put_ok key o' s1).
  - unfold caching_get_exact. destruct (cached_run key self Hok) as (r & s1 & Hr & Hok1 & Hv). rewrite (run_op _ _ _ _ _ Hr).
    destruct r as [v|]; [rewrite (Hv v eq_refl), decide_True by done; by exists s1|].
    destruct (oracle_get_exact key n (co_oracle_reader s1) (proj1 Hok1)) as (o' & Hs' & Ho).
    rewrite decide_True in Ho by done. eexists. rewrite bind_run. unfold zoom. rewrite Ho. split; [reflexivity|].
    by apply (put_ok key o' s1).
  - exists (caching_flush self). split; [done|]. destruct Hok as [Ho _]. split; [done|].
    intros k v Hv. by apply lru_clear_has in Hv.
Qed.

(** The cache is transparent: over an oracle that serves some preimages, any sequence of calls of
    a fresh caching oracle, flushes included, is answered with the preimages, provided the
    buffers of [get_exact] have their length. *)
Theorem cache_transparent cache_size o h rs :
  cache_size ≠ 0 → serving_ o → Forall well_sized rs →
  ∃ self self', caching_new (C:=C) (O:=O) (H:=H) cache_size o h = Ok self ∧
    requests rs self = (Ok (expected <$> rs), self').
Proof.
  intros Hn Ho Hw. exists (mkCachingOracle (lru_new cache_size) o h).
  assert (cache_ok (mkCachingOracle (lru_new cache_size) o h)) as Hok.
  { split; [done|]. intros k v Hv. by apply lru_new_has in Hv. }
  enough (∀ self, cache_ok self → ∃ self', requests rs self = (Ok (expected <$> rs), self')) as Hr.
  { destruct (Hr _ Hok) as [self' Hr']. exists self'. split; [|done]. unfold caching_new. by rewrite decide_False. }
  clear Hok Hn Ho. induction Hw as [|r rs Hr Hw IH]; intros self Hok; [by exists self|].
  destruct (requested_run r self Hok Hr) as (s1 & Hrun & Hok1). destruct (IH s1 Hok1) as (s2 & Hrun2).
  exists s2. cbn [requests fmap list_fmap]. by rewrite (run_op _ _ _ _ _ Hrun), (run_op _ _ _ _ _ Hrun2).
Qed.
End transparent.

(** * Examples *)

Module Echoing.
(** The preimage of a key is its data, without the zeroes in front. *)
Definition preimage (key : PreimageKey) : bytes := List.filter (λ b, negb (bool_decide (b = byte0))) (pk_data key).
Definition fetcher (key : PreimageKey) : outcome PreimageOracleError bytes := Ok (preimage key).
Definition keys : list PreimageKey := [new_local 7; new_local 0; new_local 300].
#[local] Instance oracle : PreimageOracleClient unit := {|
  oc_get key := mret (preimage key);
  oc_get_exact key n := λ o,
    (if decide (length (preimage key) = n) then Ok (preimage key)
     else Err (BufferLengthMismatch (len (preimage key)) (Z.of_nat n)), o);
|}.
#[local] Instance hints : HintWriterClient unit := λ _, mret tt.
(** A cache that evicts the oldest entry. *)
#[local] Instance lru : LruCache (Z * list (PreimageKey * bytes)) := {|
  lru_new n := (n, []);
  lru_get key c := ((λ r, r.2.2) <$> list_find (λ e, e.1 = key) c.2, c);
  lru_put key v c := (c.1, take (Z.to_nat c.1) ((key, v) :: c.2));
  lru_clear c := (c.1, []);
|}.
#[local] Program Instance lru_laws : LruLaws (Z * list (PreimageKey * bytes)) := {| lru_has c k v := (k, v) ∈ c.2 |}.
Next Obligation. intros n k v Hv. by apply not_elem_of_nil in Hv. Qed.
Next Obligation. intros c k v Hv. by apply not_elem_of_nil in Hv. Qed.
Next Obligation.
  intros [n c] k r c' [= <- <-]. split; [|done]. intros v Hv. cbn in *.
  destruct (list_find (λ e, e.1 = k) c) as [[i [k' v']]|] eqn:Hf; [|done].
  apply list_find_Some in Hf as (Hi & Hk & _). injection Hv as <-. cbn in Hk. subst k'.
  by apply list_elem_of_lookup_2 in Hi.
Qed.
Next Obligation.
  intros [n c] k v k' v' Hv. cbn -[take] in Hv. apply elem_of_take in Hv as (i & Hi & _).
  apply list_elem_of_lookup_2, elem_of_cons in Hi as [[= -> ->]|Hi]; [by left|by right].
Qed.
End Echoing.
#[local] Existing Instances Echoing.oracle Echoing.hints Echoing.lru Echoing.lru_laws.

Lemma preimage_key_roundtrip_witness :
  let key := new_local 7 in
  key_bytes key = key_bytes (mkPreimageKey (pk_data key) Local_) ∧
  ∃ key', key_try_from (key_bytes (new_keccak256 (key_bytes key))) = Ok key'.
Proof.
  split.
  - apply (proj1 (proj2 (preimage_key_roundtrip (key_bytes (mkPreimageKey (pk_data (new_local 7)) Local_)) (new_local 7)))).
    reflexivity.
  - destruct (proj2 (proj2 (preimage_key_roundtrip (key_bytes (new_keccak256 (key_bytes (new_local 7)))) (new_local 7)))
      _ _ eq_refl) as [[_ Hk]|[Hn _]]; [exact Hk|]. exfalso. apply Hn. vm_compute. split; discriminate.
Defined.

Lemma client_gets_preimages_witness :
  let start := session_start (C:=bytes) (next_preimage_request Echoing.fetcher) (get_all [] Echoing.keys) in
  sn (session_step (next_preimage_request Echoing.fetcher)) start ∧
  (Echoing.preimage <$> Echoing.keys) = [[z2b 7]; []; [z2b 1; z2b 44]].
Proof.
  split; [|by vm_compute].
  refine (proj1 (client_gets_preimages (C:=bytes) Echoing.fetcher Echoing.preimage Echoing.keys _)).
  repeat apply Forall_cons_2; [..|apply Forall_nil_2]; split_and!; by vm_compute.
Defined.

(** The same key twice, in a cache of one entry, around another one and a flush. *)
Lemma cache_transparent_witness :
  let rs := [Get (new_local 7); GetExact (new_local 7) 1; Get (new_local 300); Flush; GetExact (new_local 300) 2] in
  ∃ self self', caching_new (C:=Z * list (PreimageKey * bytes)) (O:=unit) (H:=unit) 1 tt tt = Ok self ∧
    requests rs self = (Ok [[z2b 7]; [z2b 7]; [z2b 1; z2b 44]; []; [z2b 1; z2b 44]], self').
Proof.
  refine (cache_transparent Echoing.preimage (λ _, True) _ _ 1 tt tt
    [Get (new_local 7); GetExact (new_local 7) 1; Get (new_local 300); Flush; GetExact (new_local 300) 2] _ _ _).
  - intros key o _. by exists o.
  - intros key n o _. exists o. split; [done|]. cbn. by destruct (decide _).
  - done.
  - done.
  - repeat apply Forall_cons_2; [..|apply Forall_nil_2]; by vm_compute.
Defined.

(** A buffer of another length is an error of the oracle, but a panic once the value is cached. *)
Example cached_length_panics :
  (caching_get_exact (new_local 7) 2 (mkCachingOracle (lru_new 8) tt tt)).1 = Err (BufferLengthMismatch 1 2) ∧
  ((_ ← caching_get (new_local 7); caching_get_exact (new_local 7) 2) (mkCachingOracle (lru_new 8) tt tt)).1 = Panic.
Proof. by vm_compute. Qed.
