(* ===== verification/ProgramCodec.v ===== *)
(** The byte codecs of the on-chain programs (src/crates/programs/): how an instruction is
    read from its bytes, field by field, and the lemmas that say a reader takes back what
    was written ([reads]) and takes nothing else ([exactly]).

    Integers are little-endian in instructions and big-endian in accounts.  [ProgramError]
    is the part of solana_program's error type the programs use. *)
From S2P Require Import Prelude Blocks.
#[local] Open Scope Z_scope.

(** * Errors *)

Inductive ProgramError :=
| CustomError (code : Z)
| InvalidAccountData.
#[global] Instance program_error_eq_dec : EqDecision ProgramError.
Proof. solve_decision. Defined.

(** * Accounts and instructions (solana_program) *)

Record AccountInfo := mkAccountInfo { ai_key : Pubkey; ai_is_signer : bool; ai_data : bytes }.
Record AccountMeta := mkAccountMeta { am_pubkey : Pubkey; am_is_signer : bool; am_is_writable : bool }.
Record Instruction := mkInstruction {
  in_program_id : Pubkey;
  in_accounts : list AccountMeta;
  in_data : bytes;
}.
Definition meta_new (pubkey : Pubkey) (is_signer : bool) : AccountMeta := mkAccountMeta pubkey is_signer true.
Definition meta_new_readonly (pubkey : Pubkey) (is_signer : bool) : AccountMeta := mkAccountMeta pubkey is_signer false.

(** [Pubkey::find_program_address]: the derived address and its bump seed. *)
Class Pda := find_program_address : list bytes → Pubkey → Pubkey * byte.

(** [Pack::pack] of solana_program, given the length and the method of the type. *)
Class ProgramPack := pack_account : nat → (bytes → outcome ProgramError bytes) → bytes → outcome ProgramError bytes.
Class ProgramPackLaws `{!ProgramPack} := {
  pack_account_fits n f dst : length dst = n → pack_account n f dst = f dst;
  pack_account_other n f dst : length dst ≠ n → pack_account n f dst = Err InvalidAccountData;
}.

(** [target[a..].copy_from_slice(src)]. *)
Definition copy_at {E} (a : nat) (src target : bytes) : outcome E bytes :=
  if decide (a + length src <= length target)%nat
  then Ok (take a target ++ src ++ drop (a + length src) target) else Panic.

Lemma copy_at_fill {E} a src pre old :
  length pre = a → (length src <= length old)%nat →
  copy_at (E:=E) a src (pre ++ old) = Ok ((pre ++ src) ++ drop (length src) old).
Proof.
  intros <- Ho. unfold copy_at. rewrite length_app, decide_True by lia. rewrite take_app_length.
  rewrite drop_app_ge by lia. replace (length pre + length src - length pre)%nat with (length src) by lia.
  by rewrite app_assoc.
Qed.
Lemma slice_skip {E A} (k rest : list A) n a b :
  len k = n → n <= a → slice (E:=E) (k ++ rest) a b = slice rest (a - n) (b - n).
Proof.
  intros <- Ha. unfold slice, len in *. rewrite length_app. case_decide as Hd; [|by rewrite decide_False by lia].
  rewrite decide_True by lia. rewrite drop_app_ge by lia. f_equal. f_equal; [lia|]. f_equal. lia.
Qed.

(** * Little-endian integers *)

Definition le_bytes (n : nat) (z : Z) : bytes := reverse (be_bytes n z).
Definition le_val (l : bytes) : Z := be_val (reverse l).

Lemma length_le_bytes n z : length (le_bytes n z) = n.
Proof. unfold le_bytes. by rewrite length_reverse, length_be_bytes. Qed.
Lemma len_le_bytes n z : len (le_bytes n z) = Z.of_nat n.
Proof. unfold len. by rewrite length_le_bytes. Qed.
Lemma le_val_bytes n z : 0 <= z < 256 ^ Z.of_nat n → le_val (le_bytes n z) = z.
Proof. intros Hz. unfold le_val, le_bytes. by rewrite reverse_involutive, be_val_be_bytes_small. Qed.
Lemma le_bytes_val l : le_bytes (length l) (le_val l) = l.
Proof. unfold le_val, le_bytes. rewrite <- (length_reverse l), be_bytes_val. apply reverse_involutive. Qed.
Lemma le_val_range l : 0 <= le_val l < 256 ^ len l.
Proof. unfold le_val. pose proof (be_val_range (reverse l)) as Hr. unfold len in *. by rewrite length_reverse in Hr. Qed.

(** * Reading fields *)

(** A reader answers its field and what is left of the input. *)
Abbreviation Unpack A := (ST bytes ProgramError A) (only parsing).

Definition split_bytes (e : ProgramError) (n : nat) : Unpack bytes := λ input,
  if decide (n <= length input)%nat then (Ok (take n input), drop n input) else (Err e, input).
Definition split_uint (e : ProgramError) (n : nat) : Unpack Z := data ← split_bytes e n; mret (le_val data).
Definition split_u8 (e : ProgramError) : Unpack byte := λ input,
  match input with value :: rest => (Ok value, rest) | [] => (Err e, input) end.
Definition split_bool (e : ProgramError) : Unpack bool :=
  byte_value ← split_u8 e;
  if decide (byte_value = byte0) then mret false
  else if decide (byte_value = byte1) then mret true
  else fail e.

Definition bool_byte (b : bool) : byte := if b then byte1 else byte0.

(** The reader takes [b] from the front of any input and answers [a]. *)
Definition reads {A} (m : Unpack A) (b : bytes) (a : A) : Prop := ∀ rest, m (b ++ rest) = (Ok a, rest).
(** Whatever the reader answers was written that way at the front of the input. *)
Definition exactly {A} (m : Unpack A) (write : A → bytes) (P : A → Prop) : Prop :=
  ∀ input a rest, m input = (Ok a, rest) → input = write a ++ rest ∧ P a.

Create HintDb codec.

Lemma reads_ret {A} (a : A) : reads (mret a) [] a.
Proof. by intros rest. Qed.
Lemma reads_bind {A B} (m : Unpack A) (k : A → Unpack B) b c a r :
  reads m b a → reads (k a) c r → reads (m ≫= k) (b ++ c) r.
Proof. intros Hm Hk rest. rewrite <- app_assoc. by rewrite (run_op _ _ _ _ _ (Hm _)). Qed.
Lemma reads_last {A B} (m : Unpack A) (k : A → Unpack B) b a r :
  reads m b a → reads (k a) [] r → reads (m ≫= k) b r.
Proof. intros Hm Hk. rewrite <- (app_nil_r b). by eapply reads_bind. Qed.
Lemma reads_bytes e n b : length b = n → reads (split_bytes e n) b b.
Proof.
  intros <- rest. unfold split_bytes. rewrite decide_True by (rewrite length_app; lia).
  by rewrite take_app_length, drop_app_length.
Qed.
Lemma reads_uint e n z : 0 <= z < 256 ^ Z.of_nat n → reads (split_uint e n) (le_bytes n z) z.
Proof.
  intros Hz. eapply reads_last; [apply reads_bytes, length_le_bytes|]. rewrite le_val_bytes by done. apply reads_ret.
Qed.
Lemma reads_u64 e z : is_u64 z → reads (split_uint e 8) (le_bytes 8 z) z.
Proof. intros Hz. apply reads_uint. exact Hz. Qed.
Lemma reads_u128 e z : in_width 128 z → reads (split_uint e 16) (le_bytes 16 z) z.
Proof. intros Hz. apply reads_uint. exact Hz. Qed.
Lemma reads_u8 e b : reads (split_u8 e) [b] b.
Proof. by intros rest. Qed.
Lemma reads_bool e b : reads (split_bool e) [bool_byte b] b.
Proof. by destruct b; intros rest. Qed.
#[export] Hint Resolve reads_ret reads_bytes reads_u64 reads_u128 reads_u8 reads_bool : codec.

Lemma exactly_bytes e n : exactly (split_bytes e n) (λ b, b) (λ b, length b = n).
Proof.
  intros input a rest. unfold split_bytes. case_decide as Hn; [|done]. intros [= <- <-].
  rewrite take_drop. split; [done|]. rewrite length_take. lia.
Qed.
Lemma exactly_uint e n : exactly (split_uint e n) (le_bytes n) (λ z, 0 <= z < 256 ^ Z.of_nat n).
Proof.
  intros input a rest (b & r & Hb & [= <- <-])%bind_Ok. apply exactly_bytes in Hb as [-> <-].
  rewrite le_bytes_val. split; [done|apply le_val_range].
Qed.
Lemma exactly_u64 e : exactly (split_uint e 8) (le_bytes 8) (in_width 64).
Proof. exact (exactly_uint e 8). Qed.
Lemma exactly_u128 e : exactly (split_uint e 16) (le_bytes 16) (in_width 128).
Proof. exact (exactly_uint e 16). Qed.
Lemma exactly_u8 e : exactly (split_u8 e) (λ b, [b]) (λ _, True).
Proof. intros [|b input] a rest; [done|]. by intros [= -> ->]. Qed.
Lemma exactly_bool e : exactly (split_bool e) (λ b, [bool_byte b]) (λ _, True).
Proof.
  intros input a rest (b & r & Hb & Hk)%bind_Ok. apply exactly_u8 in Hb as [-> _].
  repeat (case_decide; [subst; by injection Hk as <- <-|]). done.
Qed.

(** Inverts a successful run of a sequence of readers. *)
Ltac invert_unpack :=
  repeat match goal with
  | H : (?m ≫= _) _ = (Ok _, _) |- _ =>
      let a := fresh "v" in let r := fresh "r" in let Hm := fresh "Hm" in
      apply bind_Ok in H as (a & r & Hm & H)
  end.
(** Runs a sequence of readers over what was written. *)
Ltac run_unpack := repeat (eapply reads_bind; [solve [eauto with codec]|]); try (eapply reads_last; [solve [eauto with codec]|]).
