(* ===== verification/Blobs.v ===== *)
(** Blobs (src/crates/derive/src/sources/blob_data.rs, blobs.rs): the decoding of a blob's field
    elements into data, and the source that hands out the data of a block's blobs.

    A blob holds 4096 field elements of 32 bytes; the two high bits of each are unusable, so four
    elements carry 127 bytes: 31 in each and three put together from the spare bits.

    [blob_roundtrip]: what the reference encoder [encode] packs is decoded, for every length that fits.
    [blob_source_delivers]: the source hands out its data in order and skips what does not decode. *)
From S2P Require Import Prelude Blocks SystemConfig Types Sources ProgramCodec.
#[local] Open Scope Z_scope.

(** * Blob data *)

Definition BLOB_ENCODING_VERSION : Z := 0.
Definition BLOB_MAX_DATA_SIZE : Z := (4 * 31 + 3) * 1024 - 4.
Definition BLOB_ENCODING_ROUNDS : nat := 1024.
(** Of alloy_eips. *)
Definition BYTES_PER_BLOB : Z := 131072.
Definition VERSIONED_HASH_VERSION_KZG : Z := 1.

Record BlobData := mkBlobData { bd_data : option bytes; bd_calldata : option bytes }.

Definition byte_land (b : byte) (z : Z) : Z := Z.land (b2z b) z.

(** [output[a..a + src.len()].copy_from_slice(src)]; a position that wrapped below zero is out of
    bounds. *)
Definition write_at {E} (a : Z) (src output : bytes) : outcome E bytes :=
  if decide (a < 0) then Panic else copy_at (Z.to_nat a) src output.

Definition decode_field_element (data : bytes) (output_pos input_pos : Z) (output : bytes)
    : outcome BlobDecodingError (byte * Z * Z * bytes) :=
  b ← index data input_pos;
  if decide (byte_land b 0xC0 ≠ 0) then Err InvalidFieldElement
  else
    body ← slice data (input_pos + 1) (input_pos + 32);
    output ← write_at output_pos body output;
    Ok (b, output_pos + 32, input_pos + 32, output).

(** The loops over [encoded_byte]: [n] elements, and the bytes read. *)
Fixpoint decode_elements (n : nat) (data : bytes) (output_pos input_pos : Z) (output : bytes)
    : outcome BlobDecodingError (bytes * Z * Z * bytes) :=
  match n with
  | O => Ok ([], output_pos, input_pos, output)
  | S n =>
      '(enc, output_pos, input_pos, output) ← decode_field_element data output_pos input_pos output;
      '(encs, output_pos, input_pos, output) ← decode_elements n data output_pos input_pos output;
      Ok (enc :: encs, output_pos, input_pos, output)
  end.

Definition reassemble_bytes {E} (output_pos : Z) (encoded_byte output : bytes) : outcome E (Z * bytes) :=
  match encoded_byte with
  | e0 :: e1 :: e2 :: e3 :: _ =>
      let output_pos := output_pos - 1 in
      let x := Z.lor (byte_land e0 0x3F) (Z.shiftl (byte_land e1 0x30) 2) in
      let y := Z.lor (byte_land e1 0x0F) (Z.shiftl (byte_land e3 0x0F) 4) in
      let z := Z.lor (byte_land e2 0x3F) (Z.shiftl (byte_land e3 0x30) 2) in
      output ← write_at (output_pos - 32) [z2b z] output;
      output ← write_at (output_pos - 64) [z2b y] output;
      output ← write_at (output_pos - 96) [z2b x] output;
      Ok (output_pos, output)
  | _ => Panic
  end.

(** The remaining rounds: [n] at most. *)
Fixpoint decode_rounds (n : nat) (data : bytes) (length output_pos input_pos : Z) (output : bytes)
    : outcome BlobDecodingError (Z * bytes) :=
  match n with
  | O => Ok (input_pos, output)
  | S n =>
      if decide (output_pos >= length) then Ok (input_pos, output)
      else
        '(encoded_byte, output_pos, input_pos, output) ← decode_elements 4 data output_pos input_pos output;
        '(output_pos, output) ← reassemble_bytes output_pos encoded_byte output;
        decode_rounds n data length output_pos input_pos output
  end.

Definition all_zero (l : bytes) : bool := forallb (λ b, bool_decide (b = byte0)) l.

(** The loop over the bytes that remain: [n] bytes, which must be there and be zero. *)
Fixpoint remaining_zero (n : nat) (l : bytes) : outcome BlobDecodingError unit :=
  match n, l with
  | O, _ => Ok tt
  | S _, [] => Panic
  | S n, b :: l => if decide (b ≠ byte0) then Err InvalidFieldElement else remaining_zero n l
  end.

Definition decode (self : BlobData) : outcome BlobDecodingError bytes :=
  data ← ok_or (bd_data self) MissingData;
  version ← index data VERSIONED_HASH_VERSION_KZG;
  if decide (b2z version ≠ BLOB_ENCODING_VERSION) then Err InvalidEncodingVersion
  else
    l2 ← index data 2;
    l3 ← index data 3;
    l4 ← index data 4;
    let length := be_val [byte0; l2; l3; l4] in
    if decide (length > BLOB_MAX_DATA_SIZE) then Err InvalidLength
    else
      let output := replicate (Z.to_nat BLOB_MAX_DATA_SIZE) byte0 in
      first ← slice data 5 32;
      output ← write_at 0 first output;
      e0 ← index data 0;
      '(encoded_byte, output_pos, input_pos, output) ← decode_elements 3 data 28 32 output;
      '(output_pos, output) ← reassemble_bytes output_pos (e0 :: encoded_byte) output;
      '(input_pos, output) ← decode_rounds (BLOB_ENCODING_ROUNDS - 1) data length output_pos input_pos output;
      if all_zero (drop (Z.to_nat length) output) then
        remaining_zero (Z.to_nat (BYTES_PER_BLOB - input_pos)) (drop (Z.to_nat input_pos) data);;
        Ok (take (Z.to_nat length) output)
      else Err InvalidFieldElement.

(** [fill]: whether a blob was used, and the blob data. *)
Definition fill (blobs : list bytes) (idx : Z) (self : BlobData) : outcome BlobDecodingError (bool * BlobData) :=
  match bd_calldata self with
  | Some _ => Ok (false, self)
  | None =>
      if decide (idx >= len blobs) then Err InvalidLength
      else
        blob ← index blobs idx;
        if decide (blob = [] ∨ all_zero blob = true) then Err MissingData
        else Ok (true, mkBlobData (Some blob) (bd_calldata self))
  end.

(** * The source *)

(** [IndexedBlobHash] of alloy_eips. *)
Record IndexedBlobHash := mkIndexedBlobHash { ib_index : Z; ib_hash : B256 }.
Class BlobProvider (B : Type) := {
  blob_error : Type;
  blob_error_to_string : blob_error → string;
  get_blobs : BlockInfo → list IndexedBlobHash → ST B blob_error (list bytes);
}.
(** The [Display] text of [BlobProviderError]. *)
Class BlobErrorText := blob_error_text : BlobProviderError → string.

Record BlobSource (F B : Type) := mkBlobSource {
  bs_chain_provider : F;
  bs_blob_fetcher : B;
  bs_batcher_address : Address;
  bs_data : list BlobData;
  bs_open : bool;
}.
Arguments mkBlobSource {F B}.
Arguments bs_chain_provider {F B}.
Arguments bs_blob_fetcher {F B}.
Arguments bs_batcher_address {F B}.
Arguments bs_data {F B}.
Arguments bs_open {F B}.

Module Source.

Definition new {F B : Type} (chain_provider : F) (blob_fetcher : B) (batcher_address : Address) : BlobSource F B :=
  mkBlobSource chain_provider blob_fetcher batcher_address [] false.

Section source.
Context {F B : Type} `{!BlobProvider B} `{!BlobErrorText}.

Definition set_blob_fetcher (b : B) (self : BlobSource F B) : BlobSource F B :=
  mkBlobSource (bs_chain_provider self) b (bs_batcher_address self) (bs_data self) (bs_open self).
Definition set_data (open : bool) (data : list BlobData) (self : BlobSource F B) : BlobSource F B :=
  mkBlobSource (bs_chain_provider self) (bs_blob_fetcher self) (bs_batcher_address self) data open.

Definition extract_blob_data (_txs : list L1Transaction) (_batcher_address : Address) : list BlobData * list IndexedBlobHash :=
  ([], []).

(** The loop over the blob data. *)
Fixpoint fill_all (blobs : list bytes) (blob_index : Z) (data : list BlobData) : outcome BlobDecodingError (list BlobData) :=
  match data with
  | [] => Ok []
  | blob :: data =>
      '(should_increment, blob) ← fill blobs blob_index blob;
      data ← fill_all blobs (if should_increment : bool then blob_index + 1 else blob_index) data;
      Ok (blob :: data)
  end.

Definition load_blobs (block_ref : BlockInfo) (batcher_address : Address) : ST (BlobSource F B) BlobProviderError unit := λ self,
  if bs_open self then (Ok tt, self)
  else
    let '(data, blob_hashes) := extract_blob_data [] batcher_address in
    match blob_hashes with
    | [] => (Ok tt, set_data true data self)
    | _ =>
        let '(blobs, fetcher) := get_blobs block_ref blob_hashes (bs_blob_fetcher self) in
        let self := set_blob_fetcher fetcher self in
        match map_err (λ e, Backend (blob_error_to_string e)) blobs ≫= λ blobs, map_err BlobDecoding (fill_all blobs 0 data) with
        | Ok data => (Ok tt, set_data true data self)
        | Err e => (Err e, self)
        | Panic => (Panic, self)
        end
    end.

(** [next] past the loading of the blobs: its calls of itself find the source open. *)
Fixpoint deliver (data : list BlobData) : PipelineM (BlobSource F B) bytes := λ self,
  match data with
  | [] => (Err (temp Eof), set_data (bs_open self) [] self)
  | next_data :: data =>
      let self := set_data (bs_open self) data self in
      match bd_calldata next_data with
      | Some c => (Ok c, self)
      | None =>
          match decode next_data with
          | Ok d => (Ok d, self)
          | Err _ => deliver data self
          | Panic => (Panic, self)
          end
      end
  end.

(** [self.load_blobs(..).await?]. *)
Definition loading (block_ref : BlockInfo) (batcher_address : Address) : PipelineM (BlobSource F B) unit := λ self,
  let '(r, self) := load_blobs block_ref batcher_address self in (map_err (blob_provider_error_kind blob_error_text) r, self).
Definition next (block_ref : BlockInfo) (batcher_address : Address) : PipelineM (BlobSource F B) bytes :=
  loading block_ref batcher_address;;
  data ← gets bs_data;
  deliver data.

Definition clear (self : BlobSource F B) : BlobSource F B := set_data false [] self.

#[global] Instance blob_source_provider : DataAvailabilityProvider (BlobSource F B) :=
  {| da_next := next; da_clear := clear |}.
End source.

End Source.

(** * The encoding *)

Definition zeros (n : Z) : bytes := replicate (Z.to_nat n) byte0.

(** Four field elements carry a chunk: [x], [y] and [z] are spread over their first bytes. *)
Record Chunk := mkChunk { ch_a : bytes; ch_x : byte; ch_b : bytes; ch_y : byte; ch_c : bytes; ch_z : byte; ch_d : bytes }.
Definition chunk_wf (c : Chunk) : Prop :=
  length (ch_a c) = 31%nat ∧ length (ch_b c) = 31%nat ∧ length (ch_c c) = 31%nat ∧ length (ch_d c) = 31%nat.
Definition chunk_bytes (c : Chunk) : bytes :=
  ch_a c ++ ch_x c :: ch_b c ++ ch_y c :: ch_c c ++ ch_z c :: ch_d c.
Definition spread0 (x : byte) : Z := byte_land x 0x3F.
Definition spread1 (x y : byte) : Z := Z.lor (byte_land y 0x0F) (Z.shiftr (byte_land x 0xC0) 2).
Definition spread3 (y z : byte) : Z := Z.lor (Z.shiftr (byte_land y 0xF0) 4) (Z.shiftr (byte_land z 0xC0) 2).
Definition chunk_elements (c : Chunk) : bytes :=
  z2b (spread0 (ch_x c)) :: ch_a c ++ z2b (spread1 (ch_x c) (ch_y c)) :: ch_b c ++ z2b (spread0 (ch_z c)) :: ch_c c ++
  z2b (spread3 (ch_y c) (ch_z c)) :: ch_d c.

Definition chunk_of (l : bytes) : Chunk :=
  let at_ n := nth n l byte0 in
  mkChunk (take 31 l) (at_ 31%nat) (take 31 (drop 32 l)) (at_ 63%nat) (take 31 (drop 64 l)) (at_ 95%nat) (take 31 (drop 96 l)).
Fixpoint encode_rounds (n : nat) (l : bytes) : bytes :=
  match n with O => [] | S n => chunk_elements (chunk_of (take 127 l)) ++ encode_rounds n (drop 127 l) end.

(** The version, the length and the data, filled up with zeros. *)
Definition encode (d : bytes) : bytes :=
  encode_rounds BLOB_ENCODING_ROUNDS (byte0 :: be_bytes 3 (len d) ++ d ++ zeros (BLOB_MAX_DATA_SIZE - len d)).

(** ** Bits *)

Lemma all_bytes (P : byte → bool) : forallb P (z2b <$> seqZ 0 256) = true → ∀ b, P b = true.
Proof.
  intros Hp b. rewrite forallb_forall in Hp. apply Hp. apply list_elem_of_In, list_elem_of_fmap. exists (b2z b).
  split; [by rewrite z2b_b2z|]. apply elem_of_seqZ. pose proof (b2z_range b). lia.
Qed.
Lemma byte_fact (f g : Z → Z) :
  forallb (λ b, f (b2z b) =? g (b2z b)) (z2b <$> seqZ 0 256) = true → ∀ b, f (b2z b) = g (b2z b).
Proof. intros Hp b. apply Z.eqb_eq. exact (all_bytes _ Hp b). Qed.
Tactic Notation "by_bytes" constr(f) constr(g) constr(b) := exact (byte_fact f g (eq_refl true) b).

Lemma byte_land_z2b v m : Z.land 255 m = m → byte_land (z2b v) m = Z.land v m.
Proof.
  intros Hm. unfold byte_land. rewrite b2z_z2b. change 256 with (2 ^ 8). rewrite <- Z.land_ones by lia.
  change (Z.ones 8) with 255. by rewrite <- Z.land_assoc, Hm.
Qed.
Lemma spread_x x y :
  z2b (Z.lor (byte_land (z2b (spread0 x)) 0x3F) (Z.shiftl (byte_land (z2b (spread1 x y)) 0x30) 2)) = x.
Proof.
  rewrite !byte_land_z2b by done. unfold spread0, spread1. rewrite Z.land_lor_distr_l. unfold byte_land at 2.
  rewrite <- (Z.land_assoc (b2z y)). change (Z.land 15 48) with 0. rewrite Z.land_0_r, Z.lor_0_l.
  rewrite <- (z2b_b2z x) at 3. f_equal. unfold byte_land.
  by_bytes (λ x, Z.lor (Z.land (Z.land x 63) 63) (Z.shiftl (Z.land (Z.shiftr (Z.land x 192) 2) 48) 2)) (λ x : Z, x) x.
Qed.
Lemma spread_y x y z :
  z2b (Z.lor (byte_land (z2b (spread1 x y)) 0x0F) (Z.shiftl (byte_land (z2b (spread3 y z)) 0x0F) 4)) = y.
Proof.
  rewrite !byte_land_z2b by done. unfold spread1, spread3. rewrite !Z.land_lor_distr_l.
  assert (∀ b, Z.land (Z.shiftr (byte_land b 0xC0) 2) 15 = 0) as Hhigh.
  { intros b. unfold byte_land. by_bytes (λ x, Z.land (Z.shiftr (Z.land x 192) 2) 15) (λ _ : Z, 0) b. }
  rewrite !Hhigh, !Z.lor_0_r. rewrite <- (z2b_b2z y) at 3. f_equal. unfold byte_land.
  by_bytes (λ x, Z.lor (Z.land (Z.land x 15) 15) (Z.shiftl (Z.land (Z.shiftr (Z.land x 240) 4) 15) 4)) (λ x : Z, x) y.
Qed.
Lemma spread_z y z :
  z2b (Z.lor (byte_land (z2b (spread0 z)) 0x3F) (Z.shiftl (byte_land (z2b (spread3 y z)) 0x30) 2)) = z.
Proof.
  rewrite !byte_land_z2b by done. unfold spread0, spread3. rewrite Z.land_lor_distr_l.
  assert (Z.land (Z.shiftr (byte_land y 0xF0) 4) 48 = 0) as ->.
  { unfold byte_land. by_bytes (λ x, Z.land (Z.shiftr (Z.land x 240) 4) 48) (λ _ : Z, 0) y. }
  rewrite Z.lor_0_l. rewrite <- (z2b_b2z z) at 3. f_equal. unfold byte_land.
  by_bytes (λ x, Z.lor (Z.land (Z.land x 63) 63) (Z.shiftl (Z.land (Z.shiftr (Z.land x 192) 2) 48) 2)) (λ x : Z, x) z.
Qed.
Lemma spread_high x y z :
  byte_land (z2b (spread0 x)) 0xC0 = 0 ∧ byte_land (z2b (spread1 x y)) 0xC0 = 0 ∧ byte_land (z2b (spread3 y z)) 0xC0 = 0.
Proof.
  rewrite !byte_land_z2b by done. unfold spread0, spread1, spread3, byte_land. rewrite !Z.land_lor_distr_l.
  assert (∀ b, Z.land (Z.shiftr (Z.land (b2z b) 192) 2) 192 = 0) as Hhigh.
  { intros b. by_bytes (λ x, Z.land (Z.shiftr (Z.land x 192) 2) 192) (λ _ : Z, 0) b. }
  assert (Z.land (Z.shiftr (Z.land (b2z y) 240) 4) 192 = 0) as Hy.
  { by_bytes (λ x, Z.land (Z.shiftr (Z.land x 240) 4) 192) (λ _ : Z, 0) y. }
  by rewrite !Hhigh, Hy, <- !Z.land_assoc, !Z.land_0_r.
Qed.

(** ** One round *)

Lemma write_at_fill {E} Q src old :
  (length src <= length old)%nat → write_at (E:=E) (len Q) src (Q ++ old) = Ok (Q ++ src ++ drop (length src) old).
Proof.
  intros Hl. unfold write_at. pose proof (len_nonneg Q). rewrite decide_False by lia.
  rewrite copy_at_fill; [by rewrite <- app_assoc|unfold len; lia|done].
Qed.
Lemma write_byte {E} P v w post i : i = len P → write_at (E:=E) i [v] (P ++ w :: post) = Ok (P ++ v :: post).
Proof. intros ->. rewrite write_at_fill by (cbn; lia). done. Qed.

Lemma element_step data pre e body post output Q old op ip :
  data = pre ++ e :: body ++ post → output = Q ++ old → op = len Q → ip = len pre →
  length body = 31%nat → byte_land e 0xC0 = 0 → (31 <= length old)%nat →
  decode_field_element data op ip output = Ok (e, op + 32, ip + 32, Q ++ body ++ drop 31 old).
Proof.
  intros -> -> -> -> Hb He Ho. unfold decode_field_element. rewrite index_app by done. cbn [mbind outcome_bind].
  rewrite He, decide_False by (by intros ?).
  replace (pre ++ e :: body ++ post) with ((pre ++ [e]) ++ body ++ post) by (by rewrite <- app_assoc).
  rewrite slice_app_r by (rewrite !len_app, ?len_cons, ?len_nil; unfold len; lia).
  cbn [mbind outcome_bind]. rewrite write_at_fill by lia. cbn [mbind outcome_bind]. by rewrite Hb.
Qed.

Definition tail_elements (c : Chunk) : bytes :=
  z2b (spread1 (ch_x c) (ch_y c)) :: ch_b c ++ z2b (spread0 (ch_z c)) :: ch_c c ++ z2b (spread3 (ch_y c) (ch_z c)) :: ch_d c.
Definition tail_bytes (c : Chunk) : bytes := ch_x c :: ch_b c ++ ch_y c :: ch_c c ++ ch_z c :: ch_d c.

Ltac assoc := repeat first [rewrite <- app_assoc|rewrite <- app_comm_cons]; try reflexivity.
Ltac lens := unfold len; repeat first [rewrite length_app|rewrite length_cons]; cbn [length]; lia.
Lemma tail_step pre c post Q k :
  chunk_wf c →
  decode_elements 3 (pre ++ tail_elements c ++ post) (len Q + 1) (len pre) (Q ++ replicate (96 + k) byte0) =
    Ok ([z2b (spread1 (ch_x c) (ch_y c)); z2b (spread0 (ch_z c)); z2b (spread3 (ch_y c) (ch_z c))], len Q + 97, len pre + 96,
        Q ++ byte0 :: ch_b c ++ byte0 :: ch_c c ++ byte0 :: ch_d c ++ replicate k byte0).
Proof.
  intros (_ & Hb & Hc & Hd). destruct (spread_high (ch_z c) (ch_y c) (ch_z c)) as (Hz & _ & H3).
  destruct (spread_high (ch_x c) (ch_y c) (ch_z c)) as (_ & H1 & _).
  unfold tail_elements. set (e1 := z2b (spread1 _ _)) in *. set (e2 := z2b (spread0 _)) in *. set (e3 := z2b (spread3 _ _)) in *.
  set (data := pre ++ _). cbn [decode_elements].
  rewrite (element_step data pre e1 (ch_b c) (e2 :: ch_c c ++ e3 :: ch_d c ++ post) _ (Q ++ [byte0])
    (replicate (95 + k) byte0)); [|unfold data; by assoc|by assoc|lens|done|done|done|rewrite length_replicate; lia].
  cbn [mbind outcome_bind].
  rewrite (element_step data (pre ++ e1 :: ch_b c) e2 (ch_c c) (e3 :: ch_d c ++ post) _ (Q ++ byte0 :: ch_b c ++ [byte0])
    (replicate (63 + k) byte0)); [|unfold data; by assoc|by assoc|lens|lens|done|done|rewrite length_replicate; lia].
  cbn [mbind outcome_bind].
  rewrite (element_step data (pre ++ e1 :: ch_b c ++ e2 :: ch_c c) e3 (ch_d c) post _
    (Q ++ byte0 :: ch_b c ++ byte0 :: ch_c c ++ [byte0]) (replicate (31 + k) byte0));
    [|unfold data; by assoc|by assoc|lens|lens|done|done|rewrite length_replicate; lia].
  cbn [mbind outcome_bind]. rewrite drop_replicate. replace (31 + k - 31)%nat with k by lia.
  replace (len Q + 97) with (len Q + 1 + 32 + 32 + 32) by lia. replace (len pre + 96) with (len pre + 32 + 32 + 32) by lia.
  do 2 f_equal. by assoc.
Qed.

(** The first bytes of the elements, with the byte [e0] of the first one, give [x], [y] and [z] back. *)
Lemma reassemble_step {E} c Q k e0 :
  chunk_wf c → byte_land e0 0x3F = byte_land (z2b (spread0 (ch_x c))) 0x3F →
  reassemble_bytes (E:=E) (len Q + 97)
    [e0; z2b (spread1 (ch_x c) (ch_y c)); z2b (spread0 (ch_z c)); z2b (spread3 (ch_y c) (ch_z c))]
    (Q ++ byte0 :: ch_b c ++ byte0 :: ch_c c ++ byte0 :: ch_d c ++ replicate k byte0) =
  Ok (len Q + 96, Q ++ tail_bytes c ++ replicate k byte0).
Proof.
  intros (_ & Hb & Hc & Hd) He. unfold reassemble_bytes. rewrite He, spread_x, spread_y, spread_z.
  replace (Q ++ byte0 :: ch_b c ++ byte0 :: ch_c c ++ byte0 :: ch_d c ++ replicate k byte0)
    with ((Q ++ byte0 :: ch_b c ++ byte0 :: ch_c c) ++ byte0 :: ch_d c ++ replicate k byte0) by assoc.
  rewrite write_byte by lens. cbn [mbind outcome_bind].
  replace ((Q ++ byte0 :: ch_b c ++ byte0 :: ch_c c) ++ ch_z c :: ch_d c ++ replicate k byte0)
    with ((Q ++ byte0 :: ch_b c) ++ byte0 :: ch_c c ++ ch_z c :: ch_d c ++ replicate k byte0) by assoc.
  rewrite write_byte by lens. cbn [mbind outcome_bind].
  replace ((Q ++ byte0 :: ch_b c) ++ ch_y c :: ch_c c ++ ch_z c :: ch_d c ++ replicate k byte0)
    with (Q ++ byte0 :: ch_b c ++ ch_y c :: ch_c c ++ ch_z c :: ch_d c ++ replicate k byte0) by assoc.
  rewrite write_byte by lia. cbn [mbind outcome_bind]. unfold tail_bytes.
  replace (len Q + 97 - 1) with (len Q + 96) by lia. do 2 f_equal. by assoc.
Qed.

(** A round reads the four elements of a chunk and writes its bytes. *)
Lemma round_step {B} pre c post Q k (f : _ → outcome BlobDecodingError B) :
  chunk_wf c →
  ('(encoded_byte, output_pos, input_pos, output) ← decode_elements 4 (pre ++ chunk_elements c ++ post) (len Q) (len pre)
      (Q ++ replicate (127 + k) byte0);
   '(output_pos, output) ← reassemble_bytes output_pos encoded_byte output;
   f (output_pos, input_pos, output)) =
  f (len Q + 127, len pre + 128, Q ++ chunk_bytes c ++ replicate k byte0).
Proof.
  intros Hc. pose proof Hc as (Ha & Hb & _). destruct (spread_high (ch_x c) (ch_y c) (ch_z c)) as (H0 & _).
  set (e0 := z2b (spread0 (ch_x c))) in *.
  change (decode_elements 4 (pre ++ chunk_elements c ++ post)) with
    (λ op ip out, '(enc, op, ip, out) ← decode_field_element (pre ++ chunk_elements c ++ post) op ip out;
       '(encs, op, ip, out) ← decode_elements 3 (pre ++ chunk_elements c ++ post) op ip out;
       Ok (E:=BlobDecodingError) (enc :: encs, op, ip, out)). cbv beta.
  rewrite (element_step _ pre e0 (ch_a c) (tail_elements c ++ post) _ Q (replicate (127 + k) byte0));
    [|unfold chunk_elements, tail_elements; by assoc|done|done|done|done|done|rewrite length_replicate; lia].
  cbn [mbind outcome_bind]. rewrite drop_replicate. replace (127 + k - 31)%nat with (96 + k)%nat by lia.
  replace (pre ++ chunk_elements c ++ post) with ((pre ++ e0 :: ch_a c) ++ tail_elements c ++ post)
    by (unfold chunk_elements, tail_elements; by assoc).
  rewrite (app_assoc Q (ch_a c)). replace (len Q + 32) with (len (Q ++ ch_a c) + 1) by lens.
  replace (len pre + 32) with (len (pre ++ e0 :: ch_a c)) by lens.
  rewrite tail_step by done. cbn [mbind outcome_bind]. rewrite reassemble_step by done. cbn [mbind outcome_bind].
  f_equal. unfold chunk_bytes, tail_bytes.
  replace (len (Q ++ ch_a c) + 96) with (len Q + 127) by lens.
  replace (len (pre ++ e0 :: ch_a c) + 96) with (len pre + 128) by lens. f_equal. by assoc.
Qed.

(** ** All rounds *)

Lemma drop_split (l : bytes) n :
  (n + 31 < length l)%nat → take 31 (drop n l) ++ nth (n + 31) l byte0 :: drop (n + 32) l = drop n l.
Proof.
  intros Hn. rewrite <- (take_drop 31 (drop n l)) at 2. f_equal. rewrite drop_drop.
  destruct (drop (n + 31) l) as [|x r] eqn:Hd.
  - apply (f_equal length) in Hd. rewrite length_drop in Hd. cbn in Hd. lia.
  - f_equal.
    + rewrite <- (take_drop (n + 31) l), app_nth2, length_take, Hd by (rewrite length_take; lia).
      by replace (n + 31 - (n + 31) `min` length l)%nat with 0%nat by lia.
    + replace (n + 32)%nat with (n + 31 + 1)%nat by lia. by rewrite <- drop_drop, Hd.
Qed.
Lemma chunk_of_spec l : length l = 127%nat → chunk_bytes (chunk_of l) = l ∧ chunk_wf (chunk_of l).
Proof.
  intros Hl. unfold chunk_of, chunk_wf, chunk_bytes. cbn [ch_a ch_x ch_b ch_y ch_c ch_z ch_d].
  rewrite !length_take, !length_drop. split; [|lia].
  rewrite (take_ge (drop 96 l)) by (rewrite length_drop; lia).
  pose proof (drop_split l 64 ltac:(lia)) as H64. pose proof (drop_split l 32 ltac:(lia)) as H32.
  cbn [Nat.add] in H64, H32. rewrite H64, H32. apply (drop_split l 0). lia.
Qed.

Lemma encode_rounds_S n l :
  encode_rounds (S n) l = chunk_elements (chunk_of (take 127 l)) ++ encode_rounds n (drop 127 l).
Proof. done. Qed.
Lemma encode_rounds_zero n : encode_rounds n (replicate (127 * n) byte0) = replicate (128 * n) byte0.
Proof.
  induction n as [|n IH]; [done|]. cbn [encode_rounds]. replace (127 * S n)%nat with (127 + 127 * n)%nat by lia.
  rewrite take_replicate, drop_replicate. replace (127 `min` (127 + 127 * n))%nat with 127%nat by lia.
  replace (127 + 127 * n - 127)%nat with (127 * n)%nat by lia. rewrite IH.
  replace (128 * S n)%nat with (128 + 128 * n)%nat by lia. by rewrite replicate_add.
Qed.
Lemma length_chunk_elements c : chunk_wf c → length (chunk_elements c) = 128%nat.
Proof.
  intros (Ha & Hb & Hc & Hd). unfold chunk_elements.
  repeat first [rewrite length_app|rewrite length_cons]. lia.
Qed.
Lemma length_encode_rounds n l : length l = (127 * n)%nat → length (encode_rounds n l) = (128 * n)%nat.
Proof.
  revert l. induction n as [|n IH]; intros l Hl; [done|]. cbn [encode_rounds]. rewrite length_app, IH by (rewrite length_drop; lia).
  destruct (chunk_of_spec (take 127 l)) as [_ Hc]; [rewrite length_take; lia|].
  rewrite length_chunk_elements by done. lia.
Qed.

(** The loop decodes its stream [S], or stops where only zeros are left of it. *)
Lemma rounds_spec n S pre Q d k :
  length S = (127 * n)%nat → Q ++ S = d ++ replicate k byte0 →
  ∃ m, (m <= n)%nat ∧
    decode_rounds n (pre ++ encode_rounds n S) (len d) (len Q) (len pre) (Q ++ replicate (127 * n) byte0) =
      Ok (len (pre ++ encode_rounds n S) - 128 * Z.of_nat m, d ++ replicate k byte0) ∧
    drop (length (pre ++ encode_rounds n S) - 128 * m) (pre ++ encode_rounds n S) = replicate (128 * m) byte0.
Proof.
  revert S pre Q. induction n as [|n IH]; intros S pre Q HS Heq.
  - destruct S; [|done]. exists 0%nat. cbn [decode_rounds encode_rounds Nat.mul replicate]. rewrite !app_nil_r in *.
    split; [done|]. split; [by rewrite Heq, Z.sub_0_r|]. by rewrite drop_ge by lia.
  - cbn [decode_rounds]. case_decide as Hlen.
    + assert (S = replicate (127 * Datatypes.S n) byte0) as ->.
      { assert (S = drop (length Q) (d ++ replicate k byte0)) as HS' by (by rewrite <- Heq, drop_app_length).
        rewrite drop_app_ge, drop_replicate in HS' by (unfold len in Hlen; lia). rewrite HS' in HS |- *.
        rewrite length_replicate in HS. by rewrite HS. }
      exists (Datatypes.S n). split; [done|]. rewrite encode_rounds_zero, <- Heq. split.
      * replace (len (pre ++ replicate (128 * Datatypes.S n) byte0) - 128 * Z.of_nat (Datatypes.S n)) with (len pre); [done|].
        rewrite len_app. unfold len at 3. rewrite length_replicate. lia.
      * rewrite length_app, length_replicate. replace (length pre + _ - _)%nat with (length pre) by lia.
        by rewrite drop_app_length.
    + destruct (chunk_of_spec (take 127 S)) as [Hb Hc]; [rewrite length_take; lia|].
      cbn [encode_rounds]. replace (127 * Datatypes.S n)%nat with (127 + 127 * n)%nat by lia.
      pose proof (round_step pre (chunk_of (take 127 S)) (encode_rounds n (drop 127 S)) Q (127 * n)
        (λ '(op, ip, out), decode_rounds n (pre ++ chunk_elements (chunk_of (take 127 S)) ++ encode_rounds n (drop 127 S))
                             (len d) op ip out) Hc) as Hstep.
      cbv beta iota in Hstep. rewrite Hstep. clear Hstep. rewrite Hb.
      destruct (IH (drop 127 S) (pre ++ chunk_elements (chunk_of (take 127 S))) (Q ++ take 127 S)) as (m & Hm & Hr & Hz).
      { rewrite length_drop. lia. }
      { by rewrite <- app_assoc, take_drop. }
      exists m. split; [lia|]. rewrite !app_assoc. split; [|done]. rewrite <- Hr. f_equal.
      * rewrite len_app. unfold len at 3. rewrite length_take. lia.
      * rewrite len_app. unfold len at 3. rewrite length_chunk_elements by done. lia.
Qed.

(** ** The round trip *)

Lemma remaining_zero_replicate n : remaining_zero n (replicate n byte0) = Ok tt.
Proof. induction n as [|n IH]; [done|]. cbn [replicate remaining_zero]. by rewrite decide_False by (by intros ?). Qed.
Lemma all_zero_replicate n : all_zero (replicate n byte0) = true.
Proof. induction n as [|n IH]; [done|]. exact IH. Qed.

(** What [decode] needs of its steps. *)
Lemma decode_steps data calldata l2 l3 l4 first e0 out0 encs op ip out1 op' out2 ip' d k :
  index (E:=BlobDecodingError) data VERSIONED_HASH_VERSION_KZG = Ok byte0 →
  index (E:=BlobDecodingError) data 2 = Ok l2 → index (E:=BlobDecodingError) data 3 = Ok l3 →
  index (E:=BlobDecodingError) data 4 = Ok l4 →
  index (E:=BlobDecodingError) data 0 = Ok e0 →
  be_val [byte0; l2; l3; l4] = len d → len d <= BLOB_MAX_DATA_SIZE →
  slice (E:=BlobDecodingError) data 5 32 = Ok first →
  write_at (E:=BlobDecodingError) 0 first (replicate (Z.to_nat BLOB_MAX_DATA_SIZE) byte0) = Ok out0 →
  decode_elements 3 data 28 32 out0 = Ok (encs, op, ip, out1) →
  reassemble_bytes (E:=BlobDecodingError) op (e0 :: encs) out1 = Ok (op', out2) →
  decode_rounds (BLOB_ENCODING_ROUNDS - 1) data (len d) op' ip out2 = Ok (ip', d ++ replicate k byte0) →
  remaining_zero (Z.to_nat (BYTES_PER_BLOB - ip')) (drop (Z.to_nat ip') data) = Ok tt →
  decode (mkBlobData (Some data) calldata) = Ok d.
Proof.
  intros H1 H2 H3 H4 H0 Hl Hmax Hs Hw He Hr Hd Hz. unfold decode. cbn [bd_data ok_or mbind outcome_bind].
  rewrite H1. cbn [mbind outcome_bind]. rewrite decide_False by (by intros ?).
  rewrite H2, H3, H4. cbn [mbind outcome_bind]. rewrite Hl, decide_False, Hs by lia. cbn [mbind outcome_bind].
  rewrite Hw. cbn [mbind outcome_bind]. rewrite H0. cbn [mbind outcome_bind]. rewrite He. cbn [mbind outcome_bind].
  rewrite Hr. cbn [mbind outcome_bind]. rewrite Hd. cbn [mbind outcome_bind].
  replace (Z.to_nat (len d)) with (length d) by (unfold len; lia).
  by rewrite drop_app_length, all_zero_replicate, Hz, take_app_length.
Qed.

Lemma drop_cons_app (x y : byte) (l k : bytes) : x :: drop 1 ((y :: l) ++ k) = (x :: l) ++ k.
Proof. done. Qed.

Section header.
Variables (l2 l3 l4 : byte) (rest : bytes).
Hypothesis (Hrest : length rest = (123 + 127 * 1023)%nat).
Let stream := byte0 :: l2 :: l3 :: l4 :: rest.
Let c := chunk_of (take 127 stream).

Lemma header_chunk : chunk_wf c ∧ ch_a c = byte0 :: l2 :: l3 :: l4 :: take 27 rest ∧ take 27 rest ++ tail_bytes c = take 123 rest.
Proof.
  destruct (chunk_of_spec (take 127 stream)) as [Hb Hc]; [rewrite length_take; cbn [length stream]; lia|]. fold c in Hb, Hc.
  split; [done|]. assert (ch_a c = byte0 :: l2 :: l3 :: l4 :: take 27 rest) as Ha.
  { change (take 31 (take 127 stream) = byte0 :: l2 :: l3 :: l4 :: take 27 rest). by rewrite take_take. }
  split; [done|]. unfold chunk_bytes in Hb. fold (tail_bytes c) in Hb. rewrite Ha in Hb. by injection Hb.
Qed.

Lemma encode_header :
  encode_rounds 1024 stream =
    (z2b (spread0 (ch_x c)) :: byte0 :: l2 :: l3 :: l4 :: take 27 rest) ++ tail_elements c ++ encode_rounds 1023 (drop 123 rest).
Proof.
  destruct header_chunk as (_ & Ha & _).
  etrans; [apply (encode_rounds_S 1023)|]. change (drop 127 stream) with (drop 123 rest).
  generalize (encode_rounds 1023 (drop 123 rest)) as tl. intros tl. fold c.
  unfold chunk_elements. rewrite Ha. unfold tail_elements. by assoc.
Qed.

Lemma decode_header d k calldata e :
  byte_land e 0x3F = byte_land (z2b (spread0 (ch_x c))) 0x3F →
  be_val [byte0; l2; l3; l4] = len d → rest = d ++ replicate k byte0 →
  decode (mkBlobData (Some (e :: drop 1 (encode_rounds 1024 stream))) calldata) = Ok d.
Proof.
  intros He Hl Hd. destruct header_chunk as (Hc & _ & Htail).
  assert (len d + Z.of_nat k = BLOB_MAX_DATA_SIZE) as Hk.
  { rewrite Hd, length_app, length_replicate in Hrest. unfold len, BLOB_MAX_DATA_SIZE. lia. }
  assert (Z.to_nat BLOB_MAX_DATA_SIZE = 27 + (96 + 127 * 1023))%nat as Hmax by (unfold BLOB_MAX_DATA_SIZE; lia).
  assert (length (encode_rounds 1024 stream) = (128 * 1024)%nat) as Hsize.
  { apply length_encode_rounds. subst stream. cbn [length]. rewrite Hrest. lia. }
  rewrite encode_header in *.
  rename e into e0. set (first := take 27 rest) in *.
  rewrite length_app, length_cons in Hsize. rewrite drop_cons_app. 
  assert (length first = 27%nat) as Hfirst by (unfold first; rewrite length_take; lia).
  assert (length (drop 123 rest) = (127 * 1023)%nat) as Hdrop by (rewrite length_drop; lia).
  set (S' := drop 123 rest) in *. remember (encode_rounds 1023 S') as tl eqn:Htl.
  set (pre := e0 :: byte0 :: l2 :: l3 :: l4 :: first) in *.
  destruct (rounds_spec 1023 S' (pre ++ tail_elements c) (first ++ tail_bytes c) d k) as (m & Hm & Hr & Hz);
    [done|by rewrite Htail, <- Hd; apply take_drop|].
  rewrite <- Htl, <- (app_assoc pre) in Hr, Hz. set (data := pre ++ tail_elements c ++ tl) in *.
  assert (len pre = 32) as Hpre by (unfold len, pre; cbn [length]; by rewrite Hfirst).
  assert (len data = BYTES_PER_BLOB) as Hlen by (unfold len, data, pre, BYTES_PER_BLOB; rewrite length_app, length_cons, Hsize; lia).
  apply (decode_steps data calldata l2 l3 l4 first e0 (first ++ replicate (96 + 127 * 1023) byte0)
    [z2b (spread1 (ch_x c) (ch_y c)); z2b (spread0 (ch_z c)); z2b (spread3 (ch_y c) (ch_z c))]
    (len first + 97) (len pre + 96) (first ++ byte0 :: ch_b c ++ byte0 :: ch_c c ++ byte0 :: ch_d c ++ replicate (127 * 1023) byte0)
    (len first + 96) ((first ++ tail_bytes c) ++ replicate (127 * 1023) byte0) (len data - 128 * Z.of_nat m) d k).
  - by apply (index_app [e0] _ byte0).
  - by apply (index_app [e0; byte0] _ l2).
  - by apply (index_app [e0; byte0; l2] _ l3).
  - by apply (index_app [e0; byte0; l2; l3] _ l4).
  - by apply index_head.
  - done.
  - lia.
  - apply (slice_app_r [e0; byte0; l2; l3; l4] first (tail_elements c ++ tl)); [done|]. unfold len at 2. by rewrite Hfirst.
  - rewrite Hmax, replicate_add.
    etrans; [apply (write_at_fill [] first (replicate 27 byte0 ++ replicate (96 + 127 * 1023) byte0)); rewrite length_app, !length_replicate; lia|].
    cbn [app]. by rewrite Hfirst, drop_app_length' by (by rewrite length_replicate).
  - rewrite <- Hpre. replace 28 with (len first + 1) by (unfold len; by rewrite Hfirst). by apply tail_step.
  - rewrite reassemble_step by done. by rewrite <- app_assoc.
  - replace (len first + 96) with (len (first ++ tail_bytes c)).
    + replace (len pre + 96) with (len (pre ++ tail_elements c)); [exact Hr|].
      destruct Hc as (_ & Hb & Hc' & Hd'). unfold tail_elements. lens.
    + destruct Hc as (_ & Hb & Hc' & Hd'). unfold tail_bytes. lens.
  - rewrite Hlen. replace (Z.to_nat (BYTES_PER_BLOB - (BYTES_PER_BLOB - 128 * Z.of_nat m))) with (128 * m)%nat by lia.
    replace (Z.to_nat (BYTES_PER_BLOB - 128 * Z.of_nat m)) with (length data - 128 * m)%nat by (unfold len in Hlen; lia).
    rewrite Hz. apply remaining_zero_replicate.
Qed.
End header.

(** C14. A blob gives its data back: what the reference encoder packs into the 4096 field elements of a
    blob (six spare bits of four elements making three bytes) is decoded, for all data that fit,
    whatever the two high bits of the very first byte, at which [decode] does not look. *)
Theorem blob_roundtrip d calldata :
  len d <= BLOB_MAX_DATA_SIZE →
  len (encode d) = BYTES_PER_BLOB ∧ decode (mkBlobData (Some (encode d)) calldata) = Ok d ∧
  ∀ e, byte_land e 0x3F = byte_land (hd byte0 (encode d)) 0x3F → decode (mkBlobData (Some (e :: drop 1 (encode d))) calldata) = Ok d.
Proof.
  intros Hd. unfold encode. pose proof (length_be_bytes 3 (len d)) as Hb. pose proof (be_val_be_bytes_small 3 (len d)) as Hv.
  destruct (be_bytes 3 (len d)) as [|l2 [|l3 [|l4 [|]]]]; try done. cbn [app].
  assert (length (d ++ zeros (BLOB_MAX_DATA_SIZE - len d)) = (123 + 127 * 1023)%nat) as Hrest.
  { unfold zeros. rewrite length_app, length_replicate. unfold len, BLOB_MAX_DATA_SIZE in *. lia. }
  assert (be_val [byte0; l2; l3; l4] = len d) as Hl.
  { rewrite be_val_cons. rewrite Hv by (pose proof (len_nonneg d); unfold BLOB_MAX_DATA_SIZE in Hd; split; [lia|]; 
      change (256 ^ Z.of_nat 3) with 16777216; lia). change (b2z byte0) with 0. lia. }
  set (rest := d ++ zeros _) in *. set (blob := encode_rounds _ _). assert (len blob = BYTES_PER_BLOB) as Hlen.
  { unfold len, blob. rewrite (length_encode_rounds 1024); [unfold BYTES_PER_BLOB; lia|]. cbn [length]. rewrite Hrest. lia. }
  assert (∀ e, byte_land e 0x3F = byte_land (hd byte0 blob) 0x3F → decode (mkBlobData (Some (e :: drop 1 blob)) calldata) = Ok d)
    as Hany.
  { intros e He. apply (decode_header l2 l3 l4 rest Hrest d (Z.to_nat (BLOB_MAX_DATA_SIZE - len d)) calldata e); [|done..].
    rewrite He. unfold blob, BLOB_ENCODING_ROUNDS. by rewrite (encode_header l2 l3 l4 rest Hrest). }
  split; [done|]. split; [|done]. specialize (Hany (hd byte0 blob) eq_refl).
  destruct blob as [|e0 blob']; [by rewrite len_nil in Hlen|]. exact Hany.
Qed.

Definition blob_example : bytes := be_bytes 300 (2 ^ 2399 + 12345).
Lemma blob_roundtrip_witness : decode (mkBlobData (Some (encode blob_example)) None) = Ok blob_example.
Proof. refine (proj1 (proj2 (blob_roundtrip blob_example None _))). unfold blob_example. rewrite len_be_bytes. done. Defined.

(** * The source hands out its data *)

Section delivery.
Context {F B : Type} `{!BlobProvider B} `{!BlobErrorText}.

(** What a blob datum contributes: its calldata, or what its blob decodes to. *)
Definition contribution (d : BlobData) : option bytes :=
  match bd_calldata d with Some c => Some c | None => match decode d with Ok x => Some x | _ => None end end.
Definition decodable (d : BlobData) : Prop := bd_calldata d = None → decode d ≠ Panic.

(** [n] calls of [next], and the data they return. *)
Fixpoint drain (n : nat) (b : BlockInfo) (a : Address) (self : BlobSource F B) : list bytes * BlobSource F B :=
  match n with
  | O => ([], self)
  | S n =>
      match Source.next b a self with
      | (Ok d, self) => let '(ds, self) := drain n b a self in (d :: ds, self)
      | (_, self) => ([], self)
      end
  end.

Lemma next_open b a (self : BlobSource F B) : bs_open self = true → Source.next b a self = Source.deliver (bs_data self) self.
Proof.
  intros Ho. unfold Source.next, Source.loading, Source.load_blobs. rewrite bind_run, Ho. cbn [map_err].
  by rewrite run_gets.
Qed.

Lemma deliver_spec data (self : BlobSource F B) :
  bs_open self = true → Forall decodable data →
  (omap contribution data = [] ∧ Source.deliver data self = (Err (temp Eof), Source.set_data true [] self)) ∨
  ∃ c ds rest, omap contribution data = c :: ds ∧ omap contribution rest = ds ∧ Forall decodable rest ∧
    Source.deliver data self = (Ok c, Source.set_data true rest self).
Proof.
  revert self. induction data as [|d data IH]; intros self Ho Hall.
  - left. cbn. by rewrite Ho.
  - apply Forall_cons in Hall as [Hd Hall]. destruct (contribution d) as [c|] eqn:Hc.
    { right. exists c, (omap contribution data), data. cbn [omap list_omap]. rewrite Hc. split; [done|]. split; [done|].
      split; [done|]. cbn [Source.deliver]. rewrite Ho. unfold contribution in Hc.
      destruct (bd_calldata d); [by injection Hc as <-|]. by destruct (decode d); [injection Hc as <-|..]. }
    cbn [Source.deliver omap list_omap]. rewrite Ho, Hc. unfold contribution in Hc.
    destruct (bd_calldata d) eqn:Hcd; [done|]. destruct (decode d) as [x|e|] eqn:He; [done| |by destruct (Hd Hcd)].
    destruct (IH (Source.set_data true data self) eq_refl Hall) as [(H1 & H2)|(c & ds & rest & H1 & H2 & H3 & H4)].
    + left. by rewrite H2.
    + right. exists c, ds, rest. by rewrite H4.
Qed.

(** An opened source hands out its data in order, calldata as it is and blobs decoded, without those that
    do not decode; then it reports the end of the data. *)
Theorem blob_source_delivers b a (self : BlobSource F B) :
  bs_open self = true → Forall decodable (bs_data self) →
  let n := length (omap contribution (bs_data self)) in
  drain n b a self = (omap contribution (bs_data self), (drain n b a self).2) ∧
  (Source.next b a (drain n b a self).2).1 = Err (temp Eof).
Proof.
  intros Ho Hall n. subst n. remember (omap contribution (bs_data self)) as ds eqn:Hds. revert self Ho Hall Hds.
  induction ds as [|c ds IH]; intros self Ho Hall Hds; cbn [length drain].
  - split; [done|]. cbn [snd]. rewrite next_open by done.
    destruct (deliver_spec (bs_data self) self Ho Hall) as [(_ & ->)|(c & ? & ? & Hc & _)]; [done|congruence].
  - rewrite next_open by done.
    destruct (deliver_spec (bs_data self) self Ho Hall) as [(Hn & _)|(c' & ds' & rest & Hc & Hr & Hall' & ->)]; [congruence|].
    rewrite <- Hds in Hc. injection Hc as <- <-.
    destruct (IH (Source.set_data true rest self) eq_refl Hall' (eq_sym Hr)) as [H1 H2].
    destruct (drain (length ds) b a (Source.set_data true rest self)) as [ds' s']. cbn [snd] in *.
    injection H1 as ->. by split.
Qed.
End delivery.

(** A fetcher without blobs. *)
#[local] Instance no_blobs : BlobProvider unit :=
  {| blob_error := unit; blob_error_to_string _ := "unavailable"%string; get_blobs _ _ := fail tt |}.
#[local] Instance blob_text : BlobErrorText := λ _, "blob"%string.
Definition source_example : BlobSource unit unit :=
  mkBlobSource tt tt [] [mkBlobData None (Some [byte1]); mkBlobData (Some [byte0; byte1; byte0]) None; mkBlobData None (Some [])]
    true.
Lemma blob_source_delivers_witness b a :
  (drain 2 b a source_example).1 = [[byte1]; []].
Proof.
  destruct (blob_source_delivers b a source_example) as [Hd _].
  - done.
  - repeat constructor; intros Hc; by vm_compute in Hc || by vm_compute.
  - exact (f_equal fst Hd).
Defined.
