(* ===== verification/Comp.v ===== *)
(** Compression (src/crates/protocol/comp/src/): the compressors and their traits (zlib.rs, brotli.rs,
    variant.rs, ratio.rs, shadow.rs), and the channel they fill (channel_out.rs).

    The compression functions themselves are parameters. The methods [max_rlp_bytes_per_channel] and
    [is_fjord_active] of the rollup config and the encoding of a batch, which channel_out.rs and
    variant.rs call and no file of the repository defines, are parameters too.

    [variant_compresses_writes]: what a compressor holds is the compression of everything written to
    it since it was reset.  [output_frames_empty]: the frames of a channel are numbered in order, and
    hold no data. *)
From S2P Require Import Prelude Blocks Frame.
#[local] Open Scope Z_scope.

(** * Types *)

Inductive CompressorError := Full | Brotli_.
#[global] Instance compressor_error_eq_dec : EqDecision CompressorError.
Proof. solve_decision. Defined.
Inductive CompressorType := Ratio | Shadow.
Inductive CompressionAlgo := AlgoBrotli9 | AlgoBrotli10 | AlgoBrotli11 | AlgoZlib.
Inductive BrotliLevel := Brotli9 | Brotli10 | Brotli11.
Definition level_u32 (level : BrotliLevel) : Z := match level with Brotli9 => 9 | Brotli10 => 10 | Brotli11 => 11 end.
Definition level_from_algo (algo : CompressionAlgo) : BrotliLevel :=
  match algo with AlgoBrotli9 => Brotli9 | AlgoBrotli11 => Brotli11 | _ => Brotli10 end.

(** [miniz_oxide::deflate::compress_to_vec], [BrotliCompress] (a quality and data), [f64]. *)
Class Compression := {
  compress_to_vec : bytes → Z → bytes;
  decompress_to_vec : bytes → outcome unit bytes;
  brotli_compress : Z → bytes → outcome unit bytes;
  F64 : Type;
  (** [(a as f64 / b) as usize]. *)
  f64_ratio : Z → F64 → Z;
}.

(** * Traits *)

(** [CompressorWriter]; [read] writes to the front of the buffer and returns how much. *)
Class CompressorWriter (C : Type) := {
  cw_write : bytes → ST C CompressorError Z;
  cw_flush : ST C CompressorError unit;
  cw_close : ST C CompressorError unit;
  cw_reset : C → C;
  cw_len : C → Z;
  cw_read : bytes → ST C CompressorError (Z * bytes);
}.
Class ChannelCompressor (C : Type) := { cc_writer :: CompressorWriter C; get_compressed : C → bytes }.

(** [buf[..len].copy_from_slice(&compressed[..len])]. *)
Definition read_compressed (compressed buf : bytes) : Z * bytes :=
  let n := Nat.min (length compressed) (length buf) in (Z.of_nat n, take n compressed ++ drop n buf).

Section compressors.
Context `{!Compression}.

(** * Zlib *)

Definition BEST_ZLIB_COMPRESSION : Z := 9.
Definition compress_zlib (data : bytes) : bytes := compress_to_vec data BEST_ZLIB_COMPRESSION.
Definition decompress_zlib (data : bytes) : outcome unit bytes := decompress_to_vec data.

Record ZlibCompressor := mkZlibCompressor { zc_buffer : bytes; zc_compressed : bytes }.
Definition zlib_new : ZlibCompressor := mkZlibCompressor [] [].
Definition zlib_write (data : bytes) : ST ZlibCompressor CompressorError Z := λ self,
  let buffer := zc_buffer self ++ data in (Ok (len data), mkZlibCompressor buffer (compress_zlib buffer)).
#[export] Instance zlib_writer : CompressorWriter ZlibCompressor := {|
  cw_write := zlib_write;
  cw_flush := mret tt;
  cw_close := mret tt;
  cw_reset _ := mkZlibCompressor [] [];
  cw_len self := len (zc_compressed self);
  cw_read buf := gets (λ self, read_compressed (zc_compressed self) buf);
|}.
#[export] Instance zlib_channel : ChannelCompressor ZlibCompressor := {| get_compressed := zc_compressed |}.

(** * Brotli *)

Definition compress_brotli (input : bytes) (level : BrotliLevel) : outcome unit bytes := brotli_compress (level_u32 level) input.

Record BrotliCompressor := mkBrotliCompressor { bc_compressed : bytes; bc_raw : bytes; bc_closed : bool; bc_level : BrotliLevel }.
Definition brotli_new (level : BrotliLevel) : BrotliCompressor := mkBrotliCompressor [] [] false level.
Definition brotli_write (data : bytes) : ST BrotliCompressor CompressorError Z := λ self,
  if bc_closed self then (Err Brotli_, self)
  else
    let raw := bc_raw self ++ data in
    match compress_brotli raw (bc_level self) with
    | Ok compressed => (Ok (len data), mkBrotliCompressor compressed raw (bc_closed self) (bc_level self))
    | Err _ => (Err Brotli_, mkBrotliCompressor (bc_compressed self) raw (bc_closed self) (bc_level self))
    | Panic => (Panic, self)
    end.
#[export] Instance brotli_writer : CompressorWriter BrotliCompressor := {|
  cw_write := brotli_write;
  cw_flush := mret tt;
  cw_close := modify (λ self, mkBrotliCompressor (bc_compressed self) (bc_raw self) true (bc_level self));
  cw_reset self := mkBrotliCompressor [] [] false (bc_level self);
  cw_len self := len (bc_compressed self);
  cw_read buf := gets (λ self, read_compressed (bc_compressed self) buf);
|}.
#[export] Instance brotli_channel : ChannelCompressor BrotliCompressor := {| get_compressed := bc_compressed |}.

(** * The variants *)

Inductive VariantCompressor := VBrotli (compressor : BrotliCompressor) | VZlib (compressor : ZlibCompressor).

(** [match self { Self::Brotli(c) => m(c), Self::Zlib(c) => m'(c) }] of a method on [&mut self]. *)
Definition on_variant {A} (m : ST BrotliCompressor CompressorError A) (m' : ST ZlibCompressor CompressorError A)
    : ST VariantCompressor CompressorError A := λ self,
  match self with
  | VBrotli c => let '(r, c) := m c in (r, VBrotli c)
  | VZlib c => let '(r, c) := m' c in (r, VZlib c)
  end.
#[export] Instance variant_writer : CompressorWriter VariantCompressor := {|
  cw_write data := on_variant (cw_write data) (cw_write data);
  cw_flush := on_variant cw_flush cw_flush;
  cw_close := on_variant cw_close cw_close;
  cw_reset self := match self with VBrotli c => VBrotli (cw_reset c) | VZlib c => VZlib (cw_reset c) end;
  cw_len self := match self with VBrotli c => cw_len c | VZlib c => cw_len c end;
  cw_read buf := on_variant (cw_read buf) (cw_read buf);
|}.
#[export] Instance variant_channel : ChannelCompressor VariantCompressor :=
  {| get_compressed self := match self with VBrotli c => get_compressed c | VZlib c => get_compressed c end |}.

Definition variant_from_algo (algo : CompressionAlgo) : VariantCompressor :=
  match algo with
  | AlgoBrotli9 | AlgoBrotli10 | AlgoBrotli11 => VBrotli (brotli_new (level_from_algo algo))
  | AlgoZlib => VZlib zlib_new
  end.

(** * The configuration *)

Record Config := mkConfig {
  co_target_output_size : Z;
  co_approx_compr_ratio : F64;
  co_kind : CompressorType;
  co_compression_algo : CompressionAlgo;
}.

(** * Ratio *)

Record RatioCompressor := mkRatioCompressor { rc_config : Config; rc_lake : Z; rc_compressor : VariantCompressor }.
Definition ratio_new (config : Config) (compressor : VariantCompressor) : RatioCompressor := mkRatioCompressor config 0 compressor.
Definition ratio_from (config : Config) : RatioCompressor := ratio_new config (variant_from_algo (co_compression_algo config)).
Definition input_threshold (self : RatioCompressor) : Z :=
  f64_ratio (co_target_output_size (rc_config self)) (co_approx_compr_ratio (rc_config self)).
Definition ratio_is_full (self : RatioCompressor) : bool := bool_decide (input_threshold self <= rc_lake self).
Definition on_ratio {A} (m : ST VariantCompressor CompressorError A) : ST RatioCompressor CompressorError A :=
  zoom rc_compressor (λ c self, mkRatioCompressor (rc_config self) (rc_lake self) c) m.
Definition ratio_write (data : bytes) : ST RatioCompressor CompressorError Z :=
  n ← on_ratio (cw_write data);
  modify (λ self, mkRatioCompressor (rc_config self) (u64_add (rc_lake self) n) (rc_compressor self));;
  mret n.
#[export] Instance ratio_writer : CompressorWriter RatioCompressor := {|
  cw_write := ratio_write;
  cw_flush := on_ratio cw_flush;
  cw_close := on_ratio cw_close;
  cw_reset self := mkRatioCompressor (rc_config self) 0 (cw_reset (rc_compressor self));
  cw_len self := cw_len (rc_compressor self);
  cw_read buf := on_ratio (cw_read buf);
|}.

(** * Shadow *)

Definition SAFE_COMPRESSION_OVERHEAD : Z := 51.
Definition CLOSE_OVERHEAD_ZLIB : Z := 9.

Record ShadowCompressor := mkShadowCompressor {
  sc_config : Config;
  sc_compressor : VariantCompressor;
  sc_shadow : VariantCompressor;
  sc_is_full : bool;
  sc_bound : Z;
}.
Definition shadow_new (config : Config) (compressor shadow : VariantCompressor) : ShadowCompressor :=
  mkShadowCompressor config compressor shadow false SAFE_COMPRESSION_OVERHEAD.
Definition shadow_from (config : Config) : ShadowCompressor :=
  shadow_new config (variant_from_algo (co_compression_algo config)) (variant_from_algo (co_compression_algo config)).
Definition on_compressor {A} (m : ST VariantCompressor CompressorError A) : ST ShadowCompressor CompressorError A :=
  zoom sc_compressor (λ c self, mkShadowCompressor (sc_config self) c (sc_shadow self) (sc_is_full self) (sc_bound self)) m.
Definition on_shadow {A} (m : ST VariantCompressor CompressorError A) : ST ShadowCompressor CompressorError A :=
  zoom sc_shadow (λ c self, mkShadowCompressor (sc_config self) (sc_compressor self) c (sc_is_full self) (sc_bound self)) m.
Definition set_full (self : ShadowCompressor) : ShadowCompressor :=
  mkShadowCompressor (sc_config self) (sc_compressor self) (sc_shadow self) true (sc_bound self).
Definition set_bound (bound : Z) (self : ShadowCompressor) : ShadowCompressor :=
  mkShadowCompressor (sc_config self) (sc_compressor self) (sc_shadow self) (sc_is_full self) bound.

(** The bound of a write, which may find the compressor full. *)
Definition shadow_bound (data : bytes) : ST ShadowCompressor CompressorError Z :=
  target ← gets (λ self, co_target_output_size (sc_config self));
  let newbound := len data in
  if decide (newbound > target) then
    on_shadow cw_flush;;
    newbound ← gets (λ self, u64_add (cw_len (sc_shadow self)) CLOSE_OVERHEAD_ZLIB);
    if decide (newbound > target) then
      modify set_full;;
      compressed ← gets (λ self, cw_len (sc_compressor self));
      if decide (compressed > 0) then fail Full else mret newbound
    else mret newbound
  else mret newbound.
Definition shadow_write (data : bytes) : ST ShadowCompressor CompressorError Z :=
  is_full ← gets sc_is_full;
  if is_full : bool then fail Full
  else
    on_shadow (cw_write data);;
    newbound ← shadow_bound data;
    modify (set_bound newbound);;
    on_compressor (cw_write data).
#[export] Instance shadow_writer : CompressorWriter ShadowCompressor := {|
  cw_write := shadow_write;
  cw_flush := on_shadow cw_flush;
  cw_close := on_shadow cw_close;
  cw_reset self :=
    mkShadowCompressor (sc_config self) (cw_reset (sc_compressor self)) (cw_reset (sc_shadow self)) false
      SAFE_COMPRESSION_OVERHEAD;
  cw_len self := cw_len (sc_compressor self);
  cw_read buf := on_compressor (cw_read buf);
|}.
End compressors.

(** * The channel *)

Inductive ChannelOutError :=
| ChannelClosed
| MaxFrameSizeTooSmall
| MissingData
| CompressionErr (e : CompressorError)
| BatchEncoding
| ExceedsMaxRlpBytesPerChannel.
Definition FRAME_V0_OVERHEAD : Z := 23.

(** The batch of channel_out.rs, and the channel id [SmallRng] makes from the seed 43. *)
Class ChannelBatches := {
  OutBatch : Type;
  batch_encode : OutBatch → outcome unit bytes;
  batch_timestamp : OutBatch → Z;
  max_rlp_bytes_per_channel : SoonRollupConfig → Z → Z;
  is_fjord_active : SoonRollupConfig → Z → bool;
  seeded_id : ChannelId;
}.

Definition from_timestamp `{!ChannelBatches} (config : SoonRollupConfig) (timestamp : Z) : VariantCompressor :=
  if is_fjord_active config timestamp then VBrotli (brotli_new (level_from_algo AlgoBrotli10)) else VZlib zlib_new.

Record ChannelOut (C : Type) := mkChannelOut {
  out_id : ChannelId;
  out_config : SoonRollupConfig;
  out_rlp_length : Z;
  out_closed : bool;
  out_frame_number : Z;
  out_compressor : C;
}.
Arguments mkChannelOut {C}.
Arguments out_id {C}.
Arguments out_config {C}.
Arguments out_rlp_length {C}.
Arguments out_closed {C}.
Arguments out_frame_number {C}.
Arguments out_compressor {C}.

Section channel.
Context {C : Type} `{!ChannelCompressor C} `{!ChannelBatches}.

Definition channel_new (id : ChannelId) (config : SoonRollupConfig) (compressor : C) : ChannelOut C :=
  mkChannelOut id config 0 false 0 compressor.
Definition channel_reset (self : ChannelOut C) : ChannelOut C :=
  mkChannelOut seeded_id (out_config self) 0 false 0 (cw_reset (out_compressor self)).
Definition set_compressor (c : C) (self : ChannelOut C) : ChannelOut C :=
  mkChannelOut (out_id self) (out_config self) (out_rlp_length self) (out_closed self) (out_frame_number self) c.

(** [self.compressor.m().map_err(ChannelOutError::Compression)?]. *)
Definition compressing {A} (m : ST C CompressorError A) : ST (ChannelOut C) ChannelOutError A := λ self,
  let '(r, c) := m (out_compressor self) in (map_err CompressionErr r, set_compressor c self).

Definition add_batch (batch : OutBatch) : ST (ChannelOut C) ChannelOutError unit :=
  closed ← gets out_closed;
  if closed : bool then fail ChannelClosed
  else
    buf ← lift (map_err (λ _, BatchEncoding) (batch_encode batch));
    self ← gets id;
    let max_rlp_bytes := max_rlp_bytes_per_channel (out_config self) (batch_timestamp batch) in
    if decide (u64_add (out_rlp_length self) (len buf) > max_rlp_bytes) then fail ExceedsMaxRlpBytesPerChannel
    else compressing (cw_write buf);; mret tt.

Definition input_bytes (self : ChannelOut C) : Z := out_rlp_length self.
Definition ready_bytes (self : ChannelOut C) : Z := cw_len (out_compressor self).
Definition flush : ST (ChannelOut C) ChannelOutError unit := compressing cw_flush.
Definition close (self : ChannelOut C) : ChannelOut C :=
  mkChannelOut (out_id self) (out_config self) (out_rlp_length self) true (out_frame_number self) (out_compressor self).

(** [Vec::with_capacity] makes an empty vector, and that is the buffer [read] gets. *)
Definition output_frame (max_size : Z) : ST (ChannelOut C) ChannelOutError Frame :=
  if decide (max_size < FRAME_V0_OVERHEAD) then fail MaxFrameSizeTooSmall
  else
    self ← gets id;
    '(_, data) ← compressing (cw_read []);
    modify (λ self, mkChannelOut (out_id self) (out_config self) (out_rlp_length self) (out_closed self)
                      (wrap 16 (out_frame_number self + 1)) (out_compressor self));;
    mret (mkFrame (out_id self) (out_frame_number self) data (out_closed self)).
End channel.

(** * What a compressor holds *)

Section holds.
Context `{!Compression}.

(** One-shot compression with the algorithm of a compressor. *)
Definition compress_with (self : VariantCompressor) (data : bytes) : outcome unit bytes :=
  match self with VBrotli c => compress_brotli data (bc_level c) | VZlib _ => Ok (compress_zlib data) end.

(** The compressor has been written [data], and is open. *)
Definition has_written (data : bytes) (self : VariantCompressor) : Prop :=
  match self with VBrotli c => bc_raw c = data ∧ bc_closed c = false | VZlib c => zc_buffer c = data end.

Lemma variant_write data w self out :
  has_written data self → compress_with self (data ++ w) = Ok out →
  ∃ self', cw_write w self = (Ok (len w), self') ∧ has_written (data ++ w) self' ∧
    compress_with self' = compress_with self ∧ get_compressed self' = out ∧ cw_len self' = len out.
Proof.
  destruct self as [[cmp raw closed level]|[buffer cmp]]; cbn; intros Hdata Hout.
  - destruct Hdata as [-> ->]. exists (VBrotli (mkBrotliCompressor out (data ++ w) false level)).
    unfold on_variant, brotli_write. cbn. by rewrite Hout.
  - subst buffer. injection Hout as <-. by exists (VZlib (mkZlibCompressor (data ++ w) (compress_zlib (data ++ w)))).
Qed.

Lemma variant_writes ws : ∀ data self,
  has_written data self →
  (∀ k, is_ok (compress_with self (data ++ mjoin (take k ws))) = true) →
  ∃ self', mapM (M:=ST VariantCompressor CompressorError) cw_write ws self = (Ok (len <$> ws), self') ∧
    has_written (data ++ mjoin ws) self' ∧ compress_with self' = compress_with self ∧
    (ws ≠ [] → compress_with self (data ++ mjoin ws) = Ok (get_compressed self') ∧
               cw_len self' = len (get_compressed self')).
Proof.
  induction ws as [|w ws IH]; intros data self Hdata Hok.
  { exists self. cbn [mapM mjoin list_join]. by rewrite app_nil_r. }
  pose proof (Hok 1%nat) as H1. change (take 1 (w :: ws)) with [w] in H1.
  assert (mjoin [w] = w) as Hw by apply app_nil_r. rewrite Hw in H1.
  destruct (compress_with self (data ++ w)) as [out| |] eqn:Hout; try discriminate H1.
  destruct (variant_write _ _ _ _ Hdata Hout) as (self1 & Hrun & Hdata1 & Hsame & Hget & Hlen).
  destruct (IH _ _ Hdata1) as (self' & Hruns & Hdata' & Hsame' & Hlast).
  { intros k. specialize (Hok (S k)). rewrite Hsame. cbn [take firstn] in Hok. by rewrite <- app_assoc. }
  exists self'. rewrite <- app_assoc in Hdata'. cbn [mapM].
  rewrite (run_op _ _ _ _ _ Hrun), (run_op _ _ _ _ _ Hruns).
  change (mjoin (w :: ws)) with (w ++ mjoin ws).
  split; [done|]. split; [done|]. split; [congruence|]. intros _.
  destruct ws as [|w' ws].
  - injection Hruns as <-. cbn [mjoin list_join]. rewrite app_nil_r. split; congruence.
  - destruct (Hlast ltac:(done)) as [Hall Hl]. rewrite app_assoc. split; congruence.
Qed.

Lemma variant_reset self : has_written [] (cw_reset self) ∧ compress_with (cw_reset self) = compress_with self.
Proof. by destruct self. Qed.

(** A reset compressor that is written chunks holds the compression of their concatenation, and
    its length is that of what it holds: the writes count every byte, and none is lost or compressed
    apart from the others. *)
Theorem variant_compresses_writes (self : VariantCompressor) (ws : list bytes)
    (Hne : ws ≠ [])
    (Hok : ∀ k, is_ok (compress_with self (mjoin (take k ws))) = true) :
  ∃ self', mapM (M:=ST VariantCompressor CompressorError) cw_write ws (cw_reset self) = (Ok (len <$> ws), self') ∧
    compress_with self (mjoin ws) = Ok (get_compressed self') ∧ cw_len self' = len (get_compressed self').
Proof.
  destruct (variant_reset self) as [Hdata Hsame].
  destruct (variant_writes ws [] _ Hdata) as (self' & Hrun & _ & _ & Hlast).
  { intros k. rewrite Hsame. apply Hok. }
  exists self'. split; [exact Hrun|]. rewrite Hsame in Hlast. exact (Hlast Hne).
Qed.

(** * What a shadow compressor does *)

Lemma variant_flush (self : VariantCompressor) : cw_flush self = (Ok tt, self).
Proof. by destruct self. Qed.

Lemma shadow_full data (self : ShadowCompressor) : sc_is_full self = true → cw_write data self = (Err Full, self).
Proof. intros Hfull. cbn. unfold shadow_write. by rewrite run_gets, Hfull. Qed.

(** A write to a shadow compressor that is not full: the bound is the length of this write's data, and
    only past the target that of everything the shadow holds, with the closing bytes; a bound past the
    target fills the compressor, and the write fails unless it is the first. *)
Lemma shadow_write_spec data (self : ShadowCompressor) n m shadow compressor :
  sc_is_full self = false →
  cw_write data (sc_shadow self) = (Ok n, shadow) →
  cw_write data (sc_compressor self) = (Ok m, compressor) →
  let target := co_target_output_size (sc_config self) in
  let held := u64_add (cw_len shadow) CLOSE_OVERHEAD_ZLIB in
  let bound := if decide (len data > target) then held else len data in
  let full := bool_decide (len data > target ∧ held > target) in
  cw_write data self =
    if full && bool_decide (cw_len (sc_compressor self) > 0)
    then (Err Full, mkShadowCompressor (sc_config self) (sc_compressor self) shadow true (sc_bound self))
    else (Ok m, mkShadowCompressor (sc_config self) compressor shadow full bound).
Proof.
  intros Hfull Hsh Hco target held bound full. subst target held bound full.
  destruct self as [config c s is_full b]. cbn -[cw_write] in Hfull, Hsh, Hco. subst is_full.
  change (cw_write data) with (shadow_write data). unfold shadow_write, shadow_bound. rewrite run_gets. cbn [sc_is_full].
  unfold on_shadow, on_compressor, zoom, mbind, st_bind, gets, modify, fail, mret, st_ret.
  cbn -[cw_write cw_flush cw_len u64_add len bool_decide decide]. rewrite Hsh.
  cbn -[cw_write cw_flush cw_len u64_add len bool_decide decide].
  destruct (decide (len data > co_target_output_size config)) as [H1|H1];
    [|rewrite bool_decide_eq_false_2 by tauto; cbn -[cw_write u64_add len]; by rewrite Hco].
  rewrite variant_flush. cbn -[cw_write cw_flush cw_len u64_add len bool_decide decide].
  destruct (decide (_ > _)) as [H2|H2];
    [|rewrite bool_decide_eq_false_2 by tauto; cbn -[cw_write cw_len u64_add len]; by rewrite Hco].
  rewrite bool_decide_eq_true_2 by tauto. cbn -[cw_write cw_flush cw_len u64_add len bool_decide decide].
  rewrite decide_bool_decide. destruct (bool_decide (cw_len c > 0)); [done|].
  cbn -[cw_write cw_flush cw_len u64_add len]. by rewrite Hco.
Qed.
End holds.

(** * What a channel puts out *)

Section channel_laws.
Context `{!Compression, !ChannelBatches}.

Lemma variant_read_nothing (c : VariantCompressor) : cw_read [] c = (Ok (0, []), c).
Proof.
  assert (∀ data, read_compressed data [] = (0, [])) as Hnone.
  { intros data. unfold read_compressed. rewrite Nat.min_0_r. cbn [take firstn app]. by rewrite drop_nil. }
  destruct c; cbn; unfold on_variant, gets; by rewrite Hnone.
Qed.

Lemma output_frame_spec (max_size : Z) (self : ChannelOut VariantCompressor) :
  FRAME_V0_OVERHEAD <= max_size →
  output_frame max_size self =
    (Ok (mkFrame (out_id self) (out_frame_number self) [] (out_closed self)),
     mkChannelOut (out_id self) (out_config self) (out_rlp_length self) (out_closed self)
       (wrap 16 (out_frame_number self + 1)) (out_compressor self)).
Proof.
  intros Hsize. unfold output_frame. rewrite decide_False by lia. rewrite run_gets.
  unfold compressing, mbind, st_bind. rewrite variant_read_nothing. by destruct self.
Qed.

(** Whatever was written and whatever sizes are asked for, the frames a channel puts out carry its id,
    are numbered in order at 16 bits, are last exactly when the channel is closed, and hold no data. *)
Theorem output_frames_empty (sizes : list Z) : ∀ (self : ChannelOut VariantCompressor),
  Forall (Z.le FRAME_V0_OVERHEAD) sizes → in_width 16 (out_frame_number self) →
  run (mapM (M:=ST (ChannelOut VariantCompressor) ChannelOutError) output_frame sizes) self =
    Ok (imap (λ i _, mkFrame (out_id self) (wrap 16 (out_frame_number self + Z.of_nat i)) [] (out_closed self)) sizes).
Proof.
  unfold run. induction sizes as [|size sizes IH]; intros self Hsizes Hn; [done|].
  apply Forall_cons in Hsizes as [Hsize Hsizes]. cbn [mapM].
  rewrite (run_op _ _ _ _ _ (output_frame_spec size self Hsize)).
  match goal with |- context [(_ ≫= _) ?s] => pose proof (IH s Hsizes) as Hrest; remember s as self1 end.
  unfold mbind, st_bind. destruct (mapM output_frame sizes self1) as [r self'] eqn:Hrun.
  cbn [fst] in Hrest. rewrite Hrest by (subst self1; cbn; apply wrap_range; lia). subst self1.
  unfold mret, st_ret. cbn [fst imap out_frame_number out_id out_closed]. f_equal. f_equal.
  - rewrite Z.add_0_r. by rewrite wrap_small.
  - apply imap_ext. intros i x _. cbn. f_equal. unfold wrap.
    rewrite Zplus_mod_idemp_l. f_equal. lia.
Qed.

(** Whatever batches are added, [rlp_length] stays as it is: the limit of a channel is checked against
    each batch alone. *)
Theorem channel_limit_per_batch (batches : list OutBatch) : ∀ (self : ChannelOut VariantCompressor),
  out_rlp_length (exec (mapM (M:=ST (ChannelOut VariantCompressor) ChannelOutError) add_batch batches) self) =
    out_rlp_length self.
Proof.
  assert (∀ b (self : ChannelOut VariantCompressor), out_rlp_length (add_batch b self).2 = out_rlp_length self) as Hone.
  { intros b self. unfold add_batch. rewrite run_gets. destruct (out_closed self); [done|].
    unfold mbind, st_bind, lift, gets, fail. destruct (batch_encode b); cbn -[len cw_write]; [|done..].
    destruct (decide _); [done|]. unfold compressing.
    match goal with |- context [cw_write ?d ?c] => destruct (cw_write d c) as [[] ?] end; done. }
  unfold exec. induction batches as [|b batches IH]; intros self; [done|].
  cbn [mapM]. rewrite <- (Hone b self). unfold mbind, st_bind.
  destruct (add_batch b self) as [[[]| |] self1]; [|done..]. cbn [snd]. rewrite <- (IH self1).
  by destruct (mapM add_batch batches self1) as [[l| |] self2].
Qed.
End channel_laws.

(** * A concrete channel *)

Module Examples.

#[local] Instance stored : Compression := {|
  compress_to_vec data _ := z2b 1 :: data;
  decompress_to_vec data := Ok (drop 1 data);
  brotli_compress level data := if decide (len data > 9) then Err tt else Ok (z2b level :: data);
  F64 := Z;
  f64_ratio a b := a / b;
|}.
#[local] Instance plain_batches : ChannelBatches := {|
  OutBatch := bytes;
  batch_encode b := Ok b;
  batch_timestamp b := len b;
  max_rlp_bytes_per_channel _ _ := 4;
  is_fjord_active _ t := bool_decide (10 <= t);
  seeded_id := replicate 16 (z2b 7);
|}.
Definition text (n : nat) : bytes := replicate n (z2b 5).
Definition channel : ChannelOut VariantCompressor :=
  channel_new (text 16) (new_for_genesis 1 Address_ZERO 0) (variant_from_algo AlgoZlib).
Definition filled : ChannelOut VariantCompressor :=
  exec (mapM (M:=ST (ChannelOut VariantCompressor) ChannelOutError) add_batch [text 3; text 4; text 4]) channel.

(** The three batches are all compressed, 11 bytes where the limit is 4, and the frame put out holds
    none of the 12 bytes that are ready. *)
Example limit_not_reached : input_bytes filled = 0 ∧ ready_bytes filled = 12 ∧ run (add_batch (text 5)) filled = Err ExceedsMaxRlpBytesPerChannel.
Proof. by vm_compute. Qed.
Example frame_without_data :
  run (output_frame 100) filled = Ok (mkFrame (text 16) 0 [] false) ∧ ready_bytes filled = 12.
Proof. by vm_compute. Qed.

(** A shadow compressor with a target of 12 takes 10 bytes twice: its bound is that of the last write. *)
Definition shadow_config : Config := mkConfig 12 2 Shadow AlgoZlib.
Example bound_of_last_write :
  (λ '(r, c), (r, sc_bound c, cw_len c))
    (mapM (M:=ST ShadowCompressor CompressorError) cw_write [text 10; text 10] (shadow_from shadow_config)) =
    (Ok [10; 10], 10, 21).
Proof. by vm_compute. Qed.

Lemma variant_compresses_writes_witness :
  let self := variant_from_algo AlgoBrotli11 in let ws := [text 3; text 4] in
  ∃ self', mapM (M:=ST VariantCompressor CompressorError) cw_write ws (cw_reset self) = (Ok (len <$> ws), self') ∧
    compress_with self (mjoin ws) = Ok (get_compressed self') ∧ cw_len self' = len (get_compressed self').
Proof.
  apply (variant_compresses_writes (variant_from_algo AlgoBrotli11) [text 3; text 4]); [done|].
  intros [|[|[|k]]]; by vm_compute.
Defined.
End Examples.
