(* ===== verification/L1BlockInfo.v ===== *)
(** The L1 block info program (src/crates/programs/l1-block-info-program/src/): the
    instruction the derivation puts in front of every L2 block, its bytes (instruction.rs),
    the account it is stored in (state.rs) and the processor (processor.rs).

    [l1_info_instruction_roundtrip]: what is packed is unpacked, and only that.
    [update_stores_info]: the processor stores what the instruction says, for the right
    accounts only. *)
From S2P Require Import Prelude Blocks ProgramCodec.
#[local] Open Scope Z_scope.

(** * Parameters: addresses (the [pubkey!] constants) *)

Class L1BlockInfoProgram := {
  l1_block_info_id : Pubkey;
  NO_SIG_TX_PAYER : Pubkey;
}.

(** * Errors *)

Inductive L1BlockInfoError := InvalidInstruction | InvalidL1BlockInfoAccount | InvalidNoSigTxPayer.
Definition program_error (e : L1BlockInfoError) : ProgramError :=
  CustomError match e with InvalidInstruction => 0 | InvalidL1BlockInfoAccount => 1 | InvalidNoSigTxPayer => 2 end.

(** * Data *)

Inductive L1BlockInfoInstruction :=
| CreateL1BlockInfoAccount
| UpdateL1BlockInfo (number timestamp base_fee : Z) (hash : bytes) (sequence_number : Z) (batcher_hash : bytes)
    (fee_overhead fee_scalar gas : Z) (is_system_tx : bool).

Record L1BlockInfo := mkL1BlockInfo {
  li_number : Z;
  li_timestamp : Z;
  li_base_fee : Z;
  li_hash : bytes;
  li_sequence_number : Z;
  li_batcher_hash : bytes;
  li_fee_overhead : Z;
  li_fee_scalar : Z;
  li_gas : Z;
  li_is_system_tx : bool;
}.
#[global] Instance l1_block_info_eq_dec : EqDecision L1BlockInfo.
Proof. solve_decision. Defined.

(** The instruction that carries this information. *)
Definition update_of (i : L1BlockInfo) : L1BlockInfoInstruction :=
  UpdateL1BlockInfo (li_number i) (li_timestamp i) (li_base_fee i) (li_hash i) (li_sequence_number i)
    (li_batcher_hash i) (li_fee_overhead i) (li_fee_scalar i) (li_gas i) (li_is_system_tx i).

(** The widths of the fields. *)
Definition info_wf (i : L1BlockInfo) : Prop :=
  is_u64 (li_number i) ∧ is_u64 (li_timestamp i) ∧ in_width 128 (li_base_fee i) ∧ length (li_hash i) = 32%nat ∧
  is_u64 (li_sequence_number i) ∧ length (li_batcher_hash i) = 32%nat ∧ in_width 128 (li_fee_overhead i) ∧
  in_width 128 (li_fee_scalar i) ∧ is_u64 (li_gas i).
Definition instruction_wf (i : L1BlockInfoInstruction) : Prop :=
  i = CreateL1BlockInfoAccount ∨ ∃ info, i = update_of info ∧ info_wf info.

(** * The instruction *)

Definition unpack_bytes32 : Unpack bytes := split_bytes (program_error InvalidInstruction) 32.
Definition unpack_u128 : Unpack Z := split_uint (program_error InvalidInstruction) 16.
Definition unpack_u64 : Unpack Z := split_uint (program_error InvalidInstruction) 8.
Definition unpack_bool : Unpack bool := split_bool (program_error InvalidInstruction).

Definition unpack_update : Unpack L1BlockInfoInstruction :=
  number ← unpack_u64;
  timestamp ← unpack_u64;
  base_fee ← unpack_u128;
  hash ← unpack_bytes32;
  sequence_number ← unpack_u64;
  batcher_hash ← unpack_bytes32;
  fee_overhead ← unpack_u128;
  fee_scalar ← unpack_u128;
  gas ← unpack_u64;
  is_system_tx ← unpack_bool;
  mret (UpdateL1BlockInfo number timestamp base_fee hash sequence_number batcher_hash fee_overhead fee_scalar gas
          is_system_tx).

Definition unpack (input : bytes) : outcome ProgramError L1BlockInfoInstruction :=
  match input with
  | [] => Err (program_error InvalidInstruction)
  | tag :: rest =>
      match b2z tag with
      | 0 => Ok CreateL1BlockInfoAccount
      | 1 => run unpack_update rest
      | _ => Err (program_error InvalidInstruction)
      end
  end.

Definition pack (self : L1BlockInfoInstruction) : bytes :=
  match self with
  | CreateL1BlockInfoAccount => [byte0]
  | UpdateL1BlockInfo number timestamp base_fee hash sequence_number batcher_hash fee_overhead fee_scalar gas
      is_system_tx =>
      byte1 :: le_bytes 8 number ++ le_bytes 8 timestamp ++ le_bytes 16 base_fee ++ hash ++
        le_bytes 8 sequence_number ++ batcher_hash ++ le_bytes 16 fee_overhead ++ le_bytes 16 fee_scalar ++
        le_bytes 8 gas ++ [bool_byte is_system_tx]
  end.

(** * The account *)

Definition LEN : nat := 145.

Definition pack_into_slice (self : L1BlockInfo) (target : bytes) : outcome ProgramError bytes :=
  target ← copy_at 0 (be_bytes 8 (li_number self)) target;
  target ← copy_at 8 (be_bytes 8 (li_timestamp self)) target;
  target ← copy_at 16 (be_bytes 16 (li_base_fee self)) target;
  target ← copy_at 32 (li_hash self) target;
  target ← copy_at 64 (be_bytes 8 (li_sequence_number self)) target;
  target ← copy_at 72 (li_batcher_hash self) target;
  target ← copy_at 104 (be_bytes 16 (li_fee_overhead self)) target;
  target ← copy_at 120 (be_bytes 16 (li_fee_scalar self)) target;
  target ← copy_at 136 (be_bytes 8 (li_gas self)) target;
  copy_at 144 [bool_byte (li_is_system_tx self)] target.

Definition unpack_from_slice (src : bytes) : outcome ProgramError L1BlockInfo :=
  number ← slice src 0 8;
  timestamp ← slice src 8 16;
  base_fee ← slice src 16 32;
  hash ← slice src 32 64;
  sequence_number ← slice src 64 72;
  batcher_hash ← slice src 72 104;
  fee_overhead ← slice src 104 120;
  fee_scalar ← slice src 120 136;
  gas ← slice src 136 144;
  system ← index src 144;
  is_system_tx ← match b2z system with 0 => Ok false | 1 => Ok true | _ => Err InvalidAccountData end;
  Ok (mkL1BlockInfo (be_val number) (be_val timestamp) (be_val base_fee) hash (be_val sequence_number) batcher_hash
        (be_val fee_overhead) (be_val fee_scalar) (be_val gas) is_system_tx).

(** * The processor *)

Section processor.
Context `{!L1BlockInfoProgram} `{!Pda} `{!ProgramPack}.

Definition L1_BLOCK_INFO_SEED : bytes := Strings.String.list_byte_of_string "l1-block-info".
Definition l1_block_info_pubkey_and_bump (program_id : Pubkey) : Pubkey * byte :=
  find_program_address [L1_BLOCK_INFO_SEED] program_id.
Definition l1_block_info_pubkey : Pubkey := (l1_block_info_pubkey_and_bump l1_block_info_id).1.

(** [array_ref!] panics when there are not enough accounts. *)
Definition update_l1_block_info (program_id : Pubkey) (l1_block_info : L1BlockInfo)
    : ST (list AccountInfo) ProgramError unit := λ accounts,
  match accounts with
  | l1_block_info_account :: no_sig_tx_payer_account :: rest =>
      if decide (ai_key no_sig_tx_payer_account ≠ NO_SIG_TX_PAYER ∨ ai_is_signer no_sig_tx_payer_account = false)
      then (Err (program_error InvalidNoSigTxPayer), accounts)
      else if decide ((l1_block_info_pubkey_and_bump program_id).1 ≠ ai_key l1_block_info_account)
      then (Err (program_error InvalidL1BlockInfoAccount), accounts)
      else
        match pack_account LEN (pack_into_slice l1_block_info) (ai_data l1_block_info_account) with
        | Ok data =>
            (Ok tt, mkAccountInfo (ai_key l1_block_info_account) (ai_is_signer l1_block_info_account) data
                      :: no_sig_tx_payer_account :: rest)
        | Err e => (Err e, accounts)
        | Panic => (Panic, accounts)
        end
  | _ => (Panic, accounts)
  end.

Definition process (program_id : Pubkey) (input : bytes) : ST (list AccountInfo) ProgramError unit :=
  instruction ← lift (unpack input);
  match instruction with
  | CreateL1BlockInfoAccount => mret tt
  | UpdateL1BlockInfo number timestamp base_fee hash sequence_number batcher_hash fee_overhead fee_scalar gas
      is_system_tx =>
      update_l1_block_info program_id
        (mkL1BlockInfo number timestamp base_fee hash sequence_number batcher_hash fee_overhead fee_scalar gas is_system_tx)
  end.
End processor.

(** The instruction the derivation makes ([update_l1_block_info] of instruction.rs). *)
Definition update_instruction `{!L1BlockInfoProgram} `{!Pda} (info : L1BlockInfo) : Instruction :=
  mkInstruction l1_block_info_id
    [meta_new l1_block_info_pubkey false; meta_new_readonly NO_SIG_TX_PAYER true]
    (pack (update_of info)).

(** * Round trips *)

#[local] Hint Unfold unpack_bytes32 unpack_u128 unpack_u64 unpack_bool : codec.

Lemma reads_update i : info_wf i → ∀ rest, run unpack_update (drop 1 (pack (update_of i)) ++ rest) = Ok (update_of i).
Proof.
  intros (? & ? & ? & ? & ? & ? & ? & ? & ?) rest. unfold run.
  enough (reads unpack_update (drop 1 (pack (update_of i))) (update_of i)) as -> by done.
  unfold drop; cbn [pack update_of]. unfold unpack_update, unpack_bytes32, unpack_u128, unpack_u64, unpack_bool.
  run_unpack. apply reads_ret.
Qed.

Lemma exactly_update input i rest :
  unpack_update input = (Ok i, rest) → ∃ info, i = update_of info ∧ info_wf info ∧ input = drop 1 (pack i) ++ rest.
Proof.
  unfold unpack_update. intros Hu. invert_unpack. injection Hu as <- <-.
  repeat match goal with
  | H : unpack_u64 _ = _ |- _ => apply exactly_u64 in H as [-> ?]
  | H : unpack_u128 _ = _ |- _ => apply exactly_u128 in H as [-> ?]
  | H : unpack_bytes32 _ = _ |- _ => apply exactly_bytes in H as [-> ?]
  | H : unpack_bool _ = _ |- _ => apply exactly_bool in H as [-> _]
  end.
  eexists (mkL1BlockInfo _ _ _ _ _ _ _ _ _ _). split; [reflexivity|]. split; [unfold info_wf; by split_and!|].
  unfold drop; cbn [pack]. by rewrite <- !app_assoc.
Qed.

(** The L1 info instruction survives its bytes, whatever follows them; and the bytes that are
    unpacked begin with the packed form of the well-formed instruction they are unpacked as. *)
Theorem l1_info_instruction_roundtrip i input rest :
  instruction_wf i →
  unpack (pack i ++ rest) = Ok i ∧
  (unpack input = Ok i → ∃ tail, input = pack i ++ tail).
Proof.
  intros Hwf. split.
  - destruct Hwf as [->|(info & -> & Hi)]; [done|]. exact (reads_update info Hi rest).
  - destruct input as [|tag input]; [done|]. unfold unpack. intros Hu.
    destruct (b2z tag) as [|[p|p|]|p] eqn:Ht; try done.
    + injection Hu as <-. exists input.
      by assert (tag = byte0) as -> by (by rewrite <- (z2b_b2z tag), Ht).
    + unfold run in Hu. destruct (unpack_update input) as [r tail] eqn:Hr. cbn in Hu. subst r.
      apply exactly_update in Hr as (info & -> & _ & ->). exists tail.
      by assert (tag = byte1) as -> by (by rewrite <- (z2b_b2z tag), Ht).
Qed.

(** * The account *)

Definition account_bytes (i : L1BlockInfo) : bytes :=
  be_bytes 8 (li_number i) ++ be_bytes 8 (li_timestamp i) ++ be_bytes 16 (li_base_fee i) ++ li_hash i ++
  be_bytes 8 (li_sequence_number i) ++ li_batcher_hash i ++ be_bytes 16 (li_fee_overhead i) ++
  be_bytes 16 (li_fee_scalar i) ++ be_bytes 8 (li_gas i) ++ [bool_byte (li_is_system_tx i)].

Lemma pack_into_slice_bytes i target :
  info_wf i → length target = LEN → pack_into_slice i target = Ok (account_bytes i).
Proof.
  intros (_ & _ & _ & Hh & _ & Hb & _ & _ & _) Ht. unfold LEN in Ht. unfold pack_into_slice.
  change target with ([] ++ target).
  do 9 (rewrite copy_at_fill; [cbn [mbind outcome_bind]|
    rewrite ?length_app, ?length_be_bytes, ?Hh, ?Hb; done|
    rewrite ?length_drop, ?length_be_bytes, ?Hh, ?Hb, Ht; lia]).
  rewrite copy_at_fill by (rewrite ?length_app, ?length_drop, ?length_be_bytes, ?Hh, ?Hb, ?Ht; cbn; lia).
  rewrite !drop_drop, !length_be_bytes, Hh, Hb, drop_ge by (rewrite Ht; cbn; lia).
  unfold account_bytes. by rewrite app_nil_r, <- !app_assoc.
Qed.

#[local] Ltac read_field Hh Hb :=
  repeat (erewrite slice_skip; [|first [apply len_be_bytes|unfold len; rewrite ?Hh, ?Hb; reflexivity]|lia]);
  rewrite slice_app by (first [rewrite len_be_bytes|unfold len; rewrite ?Hh, ?Hb]; lia); cbn [mbind outcome_bind].
Lemma unpack_account_bytes i : info_wf i → unpack_from_slice (account_bytes i) = Ok i.
Proof.
  intros (Hn & Ht & Hf & Hh & Hs & Hb & Ho & Hc & Hg). unfold unpack_from_slice, account_bytes.
  do 9 read_field Hh Hb.
  rewrite !app_assoc, index_app.
  - cbn [mbind outcome_bind]. rewrite !be_val_be_bytes_small by assumption. destruct i as [? ? ? ? ? ? ? ? ? []]; done.
  - rewrite !len_app, !len_be_bytes. unfold len. by rewrite Hh, Hb.
Qed.

Section processing.
Context `{!L1BlockInfoProgram} `{!Pda} `{!ProgramPack} `{!ProgramPackLaws}.

(** The accounts the instruction may be run with. *)
Definition authorized (program_id : Pubkey) (info_account payer_account : AccountInfo) : Prop :=
  ai_key payer_account = NO_SIG_TX_PAYER ∧ ai_is_signer payer_account = true ∧
  ai_key info_account = (l1_block_info_pubkey_and_bump program_id).1.

Lemma process_update program_id info tail accounts :
  info_wf info →
  process program_id (pack (update_of info) ++ tail) accounts = update_l1_block_info program_id info accounts.
Proof.
  intros Hw. unfold process.
  assert (unpack (pack (update_of info) ++ tail) = Ok (update_of info)) as -> by exact (reads_update info Hw tail).
  rewrite (run_lift_Ok _ _ _ (update_of info)) by done. by destruct info.
Qed.

(** C31. An update of the L1 block info is stored for the authorized accounts and for no others: then
    the account decodes to the information of the instruction and the rest is unchanged, else
    nothing changes. *)
Theorem update_stores_info program_id info tail info_account payer_account rest :
  info_wf info → length (ai_data info_account) = LEN →
  let accounts := info_account :: payer_account :: rest in
  let '(r, accounts') := process program_id (pack (update_of info) ++ tail) accounts in
  (authorized program_id info_account payer_account ∧ r = Ok tt ∧
     ∃ data, accounts' = mkAccountInfo (ai_key info_account) (ai_is_signer info_account) data :: payer_account :: rest ∧
       unpack_from_slice data = Ok info) ∨
  (¬ authorized program_id info_account payer_account ∧ is_err r = true ∧ accounts' = accounts).
Proof.
  intros Hw Hlen accounts. subst accounts. rewrite process_update by done. unfold update_l1_block_info, authorized.
  case_decide as Hp.
  { right. split; [|done]. intros (Hk & Hs & _). destruct Hp as [Hp|Hp]; [done|by rewrite Hp in Hs]. }
  apply Decidable.not_or in Hp as [Hk%dec_stable Hs%not_false_is_true]. case_decide as Hi.
  { right. split; [|done]. by intros (_ & _ & Hi'). }
  rewrite pack_account_fits, pack_into_slice_bytes by done. left. split; [done|]. split; [done|]. eexists. split; [done|].
  by apply unpack_account_bytes.
Qed.
End processing.

(** * Examples *)

Module Deployed.
#[local] Instance program : L1BlockInfoProgram := {|
  l1_block_info_id := replicate 32 byte1;
  NO_SIG_TX_PAYER := be_bytes 32 5;
|}.
#[local] Instance pda : Pda := λ seeds id, (take 32 (mjoin seeds ++ id), z2b 255).
#[local] Instance packing : ProgramPack := λ n f dst, if decide (length dst = n) then f dst else Err InvalidAccountData.
#[local] Instance packing_laws : ProgramPackLaws.
Proof. split; intros n f dst Hn; unfold pack_account, packing; [by rewrite decide_True|by rewrite decide_False]. Qed.

Definition info : L1BlockInfo := mkL1BlockInfo 7 1700000000 3 (be_bytes 32 99) 2 (le_bytes 32 (2 ^ 159)) 0 0 (2 ^ 64 - 1) true.
Definition info_account : AccountInfo := mkAccountInfo l1_block_info_pubkey false (replicate 145 byte0).
Definition payer_account : AccountInfo := mkAccountInfo NO_SIG_TX_PAYER true [].

Lemma info_wf_info : info_wf info.
Proof. unfold info_wf, in_width. split_and!; by vm_compute. Qed.
End Deployed.
#[local] Existing Instances Deployed.program Deployed.pda Deployed.packing Deployed.packing_laws.

Lemma l1_info_instruction_roundtrip_witness :
  unpack (pack (update_of Deployed.info) ++ [byte1]) = Ok (update_of Deployed.info).
Proof.
  refine (proj1 (l1_info_instruction_roundtrip (update_of Deployed.info) [] [byte1] _)).
  right. exists Deployed.info. split; [done|apply Deployed.info_wf_info].
Defined.

Lemma update_stores_info_witness :
  let '(r, accounts) := process l1_block_info_id (pack (update_of Deployed.info) ++ [])
    [Deployed.info_account; Deployed.payer_account] in
  r = Ok tt ∧ accounts !! 0%nat ≠ Some Deployed.info_account.
Proof.
  generalize (update_stores_info l1_block_info_id Deployed.info [] Deployed.info_account Deployed.payer_account []
    Deployed.info_wf_info eq_refl).
  cbv zeta. match goal with |- context [process ?a ?b ?c] => destruct (process a b c) as [r accounts] end.
  intros [(_ & -> & data & -> & Hd)|(Hn & _)].
  - split; [done|]. intros [= ->]. by vm_compute in Hd.
  - exfalso. apply Hn. by vm_compute.
Defined.
