(* ===== verification/BridgeInstruction.v ===== *)
(** The instructions of the bridge program and their bytes
    (src/crates/programs/bridge-program/src/instruction.rs, error.rs).

    A string field has one byte of length and is UTF-8; [utf8_valid] is Rust's
    [str::from_utf8].  [bridge_instruction_roundtrip]: what is packed is unpacked, and only
    that. *)
From S2P Require Import Prelude Blocks ProgramCodec.
#[local] Open Scope Z_scope.

(** * Errors *)

Inductive BridgeError :=
| InvalidInstruction
| InvalidWithdrawalCounterAccount
| InvalidWithdrawalTransactionAccount
| InvalidVaultAccount
| InvalidDepositorAccount
| InvalidDepositType
| DepositAccountIsFull
| InvalidSPLTokenOwnerAccount
| InvalidSPLTokenMintAccount
| InvalidDepositorAssociatedTokenAccount
| InvalidRemoteTokenAccount
| InvalidSPLTokenProgramId
| InvalidMPLTokenMetadataAccount
| InvalidBridgeConfigAccount
| InvalidAssociatedTokenProgramId
| StringLengthTooLong
| InvalidNoSigTxPayer
| InvalidBridgeOwnerAccount
| InvalidAdmin
| GasLimitTooLow
| InvalidSPLTokenDecimal
| InvalidMetadataProgramId
| InvalidMetadataAccount
| InvalidDepositAmount
| InvalidWithdrawAmount
| UnmatchedTokenAccountOwner.

(** [ProgramError::Custom(e as u32)]. *)
Definition bridge_error (e : BridgeError) : ProgramError :=
  CustomError match e with
  | InvalidInstruction => 0 | InvalidWithdrawalCounterAccount => 1 | InvalidWithdrawalTransactionAccount => 2
  | InvalidVaultAccount => 3 | InvalidDepositorAccount => 4 | InvalidDepositType => 5 | DepositAccountIsFull => 6
  | InvalidSPLTokenOwnerAccount => 7 | InvalidSPLTokenMintAccount => 8
  | InvalidDepositorAssociatedTokenAccount => 9 | InvalidRemoteTokenAccount => 10
  | InvalidSPLTokenProgramId => 11 | InvalidMPLTokenMetadataAccount => 12 | InvalidBridgeConfigAccount => 13
  | InvalidAssociatedTokenProgramId => 14 | StringLengthTooLong => 15 | InvalidNoSigTxPayer => 16
  | InvalidBridgeOwnerAccount => 17 | InvalidAdmin => 18 | GasLimitTooLow => 19 | InvalidSPLTokenDecimal => 20
  | InvalidMetadataProgramId => 21 | InvalidMetadataAccount => 22 | InvalidDepositAmount => 23
  | InvalidWithdrawAmount => 24 | UnmatchedTokenAccountOwner => 25
  end.

(** * Data *)

Record DepositETHData := mkDepositETHData {
  de_from : Address;
  de_to : Address;
  de_mint : Z;
  de_value : Z;
  de_gas : Z;
  de_is_creation : bool;
  de_l1_block_num : Z;
  de_l1_block_hash : bytes;
  de_log_index : Z;
  de_deposit_type : byte;
  de_deposit_from : Address;
  de_deposit_to : Pubkey;
  de_deposit_amount : Z;
  de_deposit_extra_data : bytes;
  de_deposit_l2_contract : Pubkey;
  de_deposit_l1_contract : Address;
}.

(** The fields of [DepositETH] are a record; the strings are their UTF-8 bytes. *)
Inductive BridgeInstruction :=
| CreateVaultAccount
| DepositETH (data : DepositETHData)
| CreateWithdrawalCounterAccount
| WithdrawETH (target : Address) (value gas_limit : Z)
| CreateSPL (remote_token : Address) (name symbol uri : bytes) (decimals : byte)
| DepositERC20 (local_token : Pubkey) (remote_token from : Address) (to : Pubkey) (amount : Z)
| WithdrawSPL (remote_token to : Address) (amount gas_limit : Z)
| CreateBridgeConfigAccount (l1_cross_domain_messenger l1_standard_bridge : Address)
| ChangeBridgeAdmin (new_admin : Pubkey)
| CreateUserWithdrawalCounterAccount
| UpdateSPLMetadata (remote_token : Address) (name symbol uri : bytes).

Definition is_derived (self : BridgeInstruction) : bool :=
  match self with DepositETH _ | DepositERC20 _ _ _ _ _ => true | _ => false end.

(** * UTF-8 *)

(** The well-formed byte sequences of the Unicode standard, which [str::from_utf8] accepts. *)
Definition in_range (lo hi : Z) (b : byte) : bool := bool_decide (lo <= b2z b <= hi).
Fixpoint utf8_valid (s : bytes) : bool :=
  match s with
  | [] => true
  | b0 :: s1 =>
      if in_range 0 0x7F b0 then utf8_valid s1 else
      match s1 with
      | [] => false
      | b1 :: s2 =>
          if in_range 0xC2 0xDF b0 then in_range 0x80 0xBF b1 && utf8_valid s2 else
          match s2 with
          | [] => false
          | b2 :: s3 =>
              if in_range 0xE0 0xEF b0 then
                in_range (if bool_decide (b2z b0 = 0xE0) then 0xA0 else 0x80)
                         (if bool_decide (b2z b0 = 0xED) then 0x9F else 0xBF) b1 &&
                in_range 0x80 0xBF b2 && utf8_valid s3
              else
              match s3 with
              | [] => false
              | b3 :: s4 =>
                  in_range 0xF0 0xF4 b0 &&
                  in_range (if bool_decide (b2z b0 = 0xF0) then 0x90 else 0x80)
                           (if bool_decide (b2z b0 = 0xF4) then 0x8F else 0xBF) b1 &&
                  in_range 0x80 0xBF b2 && in_range 0x80 0xBF b3 && utf8_valid s4
              end
          end
      end
  end.

(** * Unpacking *)

#[local] Abbreviation E := (bridge_error InvalidInstruction).

Definition unpack_address : Unpack Address := split_bytes E 20.
Definition unpack_pubkey : Unpack Pubkey := split_bytes E 32.
Definition unpack_bytes32 : Unpack bytes := split_bytes E 32.
Definition unpack_u128 : Unpack Z := split_uint E 16.
Definition unpack_u64 : Unpack Z := split_uint E 8.
Definition unpack_u8 : Unpack byte := split_u8 E.
Definition unpack_bool : Unpack bool := split_bool E.

Definition unpack_str : Unpack bytes := λ input,
  match input with
  | [] => (Err E, input)
  | first :: rest =>
      let length := b2z first in
      if decide (len input < 1 + length) then (Err E, input)
      else
        let str_bytes := take (Z.to_nat length) rest in
        if utf8_valid str_bytes then (Ok str_bytes, drop (Z.to_nat length) rest) else (Err E, input)
  end.

Definition unpack_deposit_eth : Unpack BridgeInstruction :=
  from ← unpack_address;
  to ← unpack_address;
  mint ← unpack_u128;
  value ← unpack_u128;
  gas ← unpack_u64;
  is_creation ← unpack_bool;
  l1_block_num ← unpack_u64;
  l1_block_hash ← unpack_bytes32;
  log_index ← unpack_u128;
  deposit_type ← unpack_u8;
  deposit_from ← unpack_address;
  deposit_to ← unpack_pubkey;
  deposit_amount ← unpack_u128;
  deposit_extra_data ← unpack_bytes32;
  deposit_l2_contract ← unpack_pubkey;
  deposit_l1_contract ← unpack_address;
  mret (DepositETH (mkDepositETHData from to mint value gas is_creation l1_block_num l1_block_hash log_index
    deposit_type deposit_from deposit_to deposit_amount deposit_extra_data deposit_l2_contract deposit_l1_contract)).

(** The fields after the tag. *)
Definition unpack_fields (tag : Z) : Unpack BridgeInstruction :=
  match tag with
  | 0 => mret CreateVaultAccount
  | 1 => unpack_deposit_eth
  | 2 => mret CreateWithdrawalCounterAccount
  | 3 =>
      target ← unpack_address; value ← unpack_u128; gas_limit ← unpack_u128;
      mret (WithdrawETH target value gas_limit)
  | 4 =>
      remote_token ← unpack_address; name ← unpack_str; symbol ← unpack_str; uri ← unpack_str;
      decimals ← unpack_u8;
      mret (CreateSPL remote_token name symbol uri decimals)
  | 5 =>
      local_token ← unpack_pubkey; remote_token ← unpack_address; from ← unpack_address; to ← unpack_pubkey;
      amount ← unpack_u128;
      mret (DepositERC20 local_token remote_token from to amount)
  | 6 =>
      remote_token ← unpack_address; to ← unpack_address; amount ← unpack_u128; gas_limit ← unpack_u128;
      mret (WithdrawSPL remote_token to amount gas_limit)
  | 7 =>
      l1_cross_domain_messenger ← unpack_address; l1_standard_bridge ← unpack_address;
      mret (CreateBridgeConfigAccount l1_cross_domain_messenger l1_standard_bridge)
  | 8 => new_admin ← unpack_pubkey; mret (ChangeBridgeAdmin new_admin)
  | 9 => mret CreateUserWithdrawalCounterAccount
  | 10 =>
      remote_token ← unpack_address; name ← unpack_str; symbol ← unpack_str; uri ← unpack_str;
      mret (UpdateSPLMetadata remote_token name symbol uri)
  | _ => fail E
  end.

Definition unpack (input : bytes) : outcome ProgramError BridgeInstruction :=
  match input with
  | [] => Err E
  | tag :: rest => run (unpack_fields (b2z tag)) rest
  end.

(** * Packing *)

Definition pack_str (s : bytes) : outcome BridgeError bytes :=
  if decide (len s > 255) then Err StringLengthTooLong else Ok (z2b (len s) :: s).

Definition deposit_eth_bytes (d : DepositETHData) : bytes :=
  de_from d ++ de_to d ++ le_bytes 16 (de_mint d) ++ le_bytes 16 (de_value d) ++ le_bytes 8 (de_gas d) ++
  [bool_byte (de_is_creation d)] ++ le_bytes 8 (de_l1_block_num d) ++ de_l1_block_hash d ++
  le_bytes 16 (de_log_index d) ++ [de_deposit_type d] ++ de_deposit_from d ++ de_deposit_to d ++
  le_bytes 16 (de_deposit_amount d) ++ de_deposit_extra_data d ++ de_deposit_l2_contract d ++
  de_deposit_l1_contract d.

Definition pack (self : BridgeInstruction) : outcome BridgeError bytes :=
  match self with
  | CreateVaultAccount => Ok [z2b 0]
  | DepositETH data => Ok (z2b 1 :: deposit_eth_bytes data)
  | CreateWithdrawalCounterAccount => Ok [z2b 2]
  | WithdrawETH target value gas_limit => Ok (z2b 3 :: target ++ le_bytes 16 value ++ le_bytes 16 gas_limit)
  | CreateSPL remote_token name symbol uri decimals =>
      name ← pack_str name; symbol ← pack_str symbol; uri ← pack_str uri;
      Ok (z2b 4 :: remote_token ++ name ++ symbol ++ uri ++ [decimals])
  | DepositERC20 local_token remote_token from to amount =>
      Ok (z2b 5 :: local_token ++ remote_token ++ from ++ to ++ le_bytes 16 amount)
  | WithdrawSPL remote_token to amount gas_limit =>
      Ok (z2b 6 :: remote_token ++ to ++ le_bytes 16 amount ++ le_bytes 16 gas_limit)
  | CreateBridgeConfigAccount l1_cross_domain_messenger l1_standard_bridge =>
      Ok (z2b 7 :: l1_cross_domain_messenger ++ l1_standard_bridge)
  | ChangeBridgeAdmin new_admin => Ok (z2b 8 :: new_admin)
  | CreateUserWithdrawalCounterAccount => Ok [z2b 9]
  | UpdateSPLMetadata remote_token name symbol uri =>
      name ← pack_str name; symbol ← pack_str symbol; uri ← pack_str uri;
      Ok (z2b 10 :: remote_token ++ name ++ symbol ++ uri)
  end.

(** * Well-formed instructions: the types of the fields *)

Definition is_address (a : Address) : Prop := length a = 20%nat.
Definition is_key (k : bytes) : Prop := length k = 32%nat.
Definition is_u128 (z : Z) : Prop := in_width 128 z.
(** A string that fits its length byte. *)
Definition is_str (s : bytes) : Prop := utf8_valid s = true ∧ len s <= 255.

Definition deposit_eth_wf (d : DepositETHData) : Prop :=
  is_address (de_from d) ∧ is_address (de_to d) ∧ is_u128 (de_mint d) ∧ is_u128 (de_value d) ∧ is_u64 (de_gas d) ∧
  is_u64 (de_l1_block_num d) ∧ is_key (de_l1_block_hash d) ∧ is_u128 (de_log_index d) ∧
  is_address (de_deposit_from d) ∧ is_key (de_deposit_to d) ∧ is_u128 (de_deposit_amount d) ∧
  is_key (de_deposit_extra_data d) ∧ is_key (de_deposit_l2_contract d) ∧ is_address (de_deposit_l1_contract d).
Definition instruction_wf (i : BridgeInstruction) : Prop :=
  match i with
  | CreateVaultAccount | CreateWithdrawalCounterAccount | CreateUserWithdrawalCounterAccount => True
  | DepositETH data => deposit_eth_wf data
  | WithdrawETH target value gas_limit => is_address target ∧ is_u128 value ∧ is_u128 gas_limit
  | CreateSPL remote_token name symbol uri _ => is_address remote_token ∧ is_str name ∧ is_str symbol ∧ is_str uri
  | DepositERC20 local_token remote_token from to amount =>
      is_key local_token ∧ is_address remote_token ∧ is_address from ∧ is_key to ∧ is_u128 amount
  | WithdrawSPL remote_token to amount gas_limit =>
      is_address remote_token ∧ is_address to ∧ is_u128 amount ∧ is_u128 gas_limit
  | CreateBridgeConfigAccount m b => is_address m ∧ is_address b
  | ChangeBridgeAdmin new_admin => is_key new_admin
  | UpdateSPLMetadata remote_token name symbol uri =>
      is_address remote_token ∧ is_str name ∧ is_str symbol ∧ is_str uri
  end.

(** * Reading back *)

Definition str_bytes (s : bytes) : bytes := z2b (len s) :: s.
Lemma pack_str_fits s : is_str s → pack_str s = Ok (str_bytes s).
Proof. intros [_ Hs]. unfold pack_str. by rewrite decide_False by lia. Qed.
Lemma len_byte (s : bytes) : len s <= 255 → b2z (z2b (len s)) = len s.
Proof. intros Hs. rewrite b2z_z2b. apply Z.mod_small. pose proof (len_nonneg s). lia. Qed.
Lemma reads_str s : is_str s → reads unpack_str (str_bytes s) s.
Proof.
  intros [Hu Hs] rest. unfold str_bytes, unpack_str. cbn [app]. rewrite len_byte by done.
  rewrite decide_False by (rewrite len_cons, len_app; pose proof (len_nonneg rest); lia).
  unfold len. by rewrite Nat2Z.id, take_app_length, drop_app_length, Hu.
Qed.
Lemma exactly_str : exactly unpack_str str_bytes is_str.
Proof.
  intros [|first input] s rest; [done|]. unfold unpack_str. pose proof (b2z_range first).
  case_decide as Hn; [done|]. destruct (utf8_valid _) eqn:Hu; [|done]. intros [= <- <-].
  rewrite len_cons in Hn. unfold len in Hn.
  assert (len (take (Z.to_nat (b2z first)) input) = b2z first) as Hl by (unfold len; rewrite length_take; lia).
  unfold str_bytes, is_str. rewrite Hl, z2b_b2z. cbn [app]. rewrite take_drop. split; [done|]. split; [done|lia].
Qed.
#[local] Hint Resolve reads_str : codec.
#[local] Hint Unfold is_address is_key is_u128 : codec.

Lemma reads_address a : is_address a → reads unpack_address a a.
Proof. apply reads_bytes. Qed.
Lemma reads_key k : is_key k → reads unpack_pubkey k k.
Proof. apply reads_bytes. Qed.
Lemma reads_hash k : is_key k → reads unpack_bytes32 k k.
Proof. apply reads_bytes. Qed.
Lemma reads_128 z : is_u128 z → reads unpack_u128 (le_bytes 16 z) z.
Proof. apply reads_u128. Qed.
Lemma reads_64 z : is_u64 z → reads unpack_u64 (le_bytes 8 z) z.
Proof. apply reads_u64. Qed.
Lemma reads_8 b : reads unpack_u8 [b] b.
Proof. apply reads_u8. Qed.
Lemma reads_flag b : reads unpack_bool [bool_byte b] b.
Proof. apply reads_bool. Qed.
#[local] Hint Resolve reads_address reads_key reads_hash reads_128 reads_64 reads_8 reads_flag : codec.

Lemma reads_deposit_eth d : deposit_eth_wf d → reads unpack_deposit_eth (deposit_eth_bytes d) (DepositETH d).
Proof.
  intros (? & ? & ? & ? & ? & ? & ? & ? & ? & ? & ? & ? & ? & ?). unfold unpack_deposit_eth, deposit_eth_bytes.
  run_unpack. destruct d. apply reads_ret.
Qed.

(** Every well-formed instruction is written as a tag and fields that are read back. *)
Lemma pack_wf i :
  instruction_wf i → ∃ tag b, pack i = Ok (z2b tag :: b) ∧ 0 <= tag < 256 ∧ reads (unpack_fields tag) b i.
Proof.
  intros Hw. destruct i; cbn [pack instruction_wf] in *; destruct_and?;
    rewrite ?pack_str_fits by done; cbn [mbind outcome_bind];
    do 2 eexists; (split; [reflexivity|]; split; [lia|]);
    first [by apply reads_deposit_eth | cbn [unpack_fields]; run_unpack; apply reads_ret].
Qed.

Ltac exact_fields :=
  repeat match goal with
  | H : unpack_address _ = _ |- _ => apply exactly_bytes in H as [-> ?]
  | H : unpack_pubkey _ = _ |- _ => apply exactly_bytes in H as [-> ?]
  | H : unpack_bytes32 _ = _ |- _ => apply exactly_bytes in H as [-> ?]
  | H : unpack_u128 _ = _ |- _ => apply exactly_u128 in H as [-> ?]
  | H : unpack_u64 _ = _ |- _ => apply exactly_u64 in H as [-> ?]
  | H : unpack_u8 _ = _ |- _ => apply exactly_u8 in H as [-> _]
  | H : unpack_bool _ = _ |- _ => apply exactly_bool in H as [-> _]
  | H : unpack_str _ = _ |- _ => apply exactly_str in H as [-> ?]
  end.

Lemma exactly_deposit_eth input i rest :
  unpack_deposit_eth input = (Ok i, rest) → ∃ d, i = DepositETH d ∧ deposit_eth_wf d ∧ input = deposit_eth_bytes d ++ rest.
Proof.
  unfold unpack_deposit_eth. intros Hu. invert_unpack. injection Hu as <- <-. exact_fields.
  eexists. split; [reflexivity|]. unfold deposit_eth_wf, deposit_eth_bytes. cbn. split; [by split_and!|].
  by repeat (rewrite <- app_assoc; cbn [app]).
Qed.
Lemma exactly_fields tag input i rest :
  0 <= tag < 256 → unpack_fields tag input = (Ok i, rest) →
  instruction_wf i ∧ ∃ b, pack i = Ok (z2b tag :: b) ∧ input = b ++ rest.
Proof.
  intros Ht Hu. destruct tag as [|tag|]; [|do 4 (try destruct tag as [tag|tag|])|lia]; try done.
  all: cbn [unpack_fields] in Hu.
  all: try (apply exactly_deposit_eth in Hu as (d & -> & Hd & ->); split; [done|by eexists]).
  all: invert_unpack; injection Hu as <- <-; exact_fields; cbn [instruction_wf pack];
    rewrite ?pack_str_fits by done; cbn [mbind outcome_bind]; (split; [by split_and?|]);
    eexists; (split; [reflexivity|by rewrite ?app_nil_r, <- ?app_assoc]).
Qed.

(** Bridge instructions survive their bytes: a well-formed instruction is packed, and unpacked
    from those bytes whatever follows; what is unpacked is well-formed and was packed at the
    front of the input.  A string of 256 bytes or more is not packed. *)
Theorem bridge_instruction_roundtrip i input :
  (instruction_wf i → ∃ b, pack i = Ok b ∧ ∀ rest, unpack (b ++ rest) = Ok i) ∧
  (unpack input = Ok i → instruction_wf i ∧ ∃ b rest, pack i = Ok b ∧ input = b ++ rest) ∧
  (∀ s, len s > 255 → ∀ a m u, pack (UpdateSPLMetadata a s m u) = Err StringLengthTooLong).
Proof.
  split; [|split].
  - intros (tag & b & Hp & Ht & Hr)%pack_wf. exists (z2b tag :: b). split; [done|]. intros rest.
    unfold unpack. cbn [app]. rewrite b2z_z2b, Z.mod_small by done. unfold run. by rewrite Hr.
  - destruct input as [|tag input]; [done|]. unfold unpack, run.
    destruct (unpack_fields (b2z tag) input) as [r rest] eqn:Hu. cbn. intros ->.
    apply exactly_fields in Hu as (Hw & b & Hp & ->); [|apply b2z_range]. rewrite z2b_b2z in Hp.
    split; [done|]. by exists (tag :: b), rest.
  - intros s Hs a m u. cbn [pack].
    assert (pack_str s = Err StringLengthTooLong) as -> by (unfold pack_str; by rewrite decide_True). done.
Qed.

(** A derived instruction is recognised whatever follows its bytes. *)
Definition deposit_example : BridgeInstruction :=
  DepositERC20 (be_bytes 32 1) (be_bytes 20 2) (be_bytes 20 3) (be_bytes 32 4) (2 ^ 127).
Definition create_spl_example : BridgeInstruction :=
  CreateSPL Address_ZERO (Strings.String.list_byte_of_string "name") (z2b 0xC3 :: [z2b 0xA9]) [] (z2b 18).

Lemma bridge_instruction_roundtrip_witness :
  (∃ b, pack create_spl_example = Ok b ∧ ∀ rest, unpack (b ++ rest) = Ok create_spl_example) ∧
  instruction_wf deposit_example.
Proof.
  split.
  - apply (bridge_instruction_roundtrip create_spl_example []). cbn. unfold is_address, is_str.
    split_and!; by vm_compute.
  - refine (proj1 (proj1 (proj2 (bridge_instruction_roundtrip deposit_example
      (match pack deposit_example with Ok b => b | _ => [] end))) _)). by vm_compute.
Defined.

(** [tests::test_str_encoding] expects the same. *)
Example packed_string_too_long : pack_str (replicate 256 byte1) = Err StringLengthTooLong.
Proof. by vm_compute. Qed.
Example invalid_utf8_rejected :
  unpack (z2b 10 :: Address_ZERO ++ [z2b 1; z2b 0xFF; z2b 0; z2b 0]) = Err (bridge_error InvalidInstruction).
Proof. by vm_compute. Qed.
