(* ===== verification/BridgeAccounts.v ===== *)
(** The accounts of the bridge program (src/crates/programs/bridge-program/src/): derived
    addresses (pda.rs), the contents of the accounts (state.rs), and the instructions with the
    accounts they need (instruction.rs).

    [withdrawal_codec]: what an account stores is read back, and the halves of a 256-bit word are
    put together again. *)
From S2P Require Import Prelude Blocks ProgramCodec L1BlockInfo BridgeInstruction.
#[local] Open Scope Z_scope.

(** * Parameters: addresses of other programs *)

Class BridgeAddresses := {
  bridge_id : Pubkey;
  system_program_id : Pubkey;
  rent_id : Pubkey;
  spl_token_id : Pubkey;
  spl_associated_token_account_id : Pubkey;
  get_associated_token_address : Pubkey → Pubkey → Pubkey;
  mpl_token_metadata_id : Pubkey;
  (** [Metadata::find_pda] of the crate mpl_token_metadata. *)
  find_metadata_pda : Pubkey → Pubkey;
}.

Abbreviation seed := Strings.String.list_byte_of_string (only parsing).
Definition VAULT_SEED : bytes := seed "vault".
Definition USER_WITHDRAWAL_COUNTER_SEED : bytes := seed "svm-withdraw-counter".
Definition BRIDGE_CONFIG_SEED : bytes := seed "bridge-config".
Definition SPL_OWNER_SEED : bytes := seed "spl-owner".
Definition SPL_MINT_SEED : bytes := seed "spl-mint".
Definition BRIDGE_OWNER_SEED : bytes := seed "bridge-owner".

Section pda.
Context `{!Pda} `{!BridgeAddresses} `{!L1BlockInfoProgram}.

Definition vault_pubkey_and_bump (program_id : Pubkey) : Pubkey * byte := find_program_address [VAULT_SEED] program_id.
Definition vault_pubkey : Pubkey := (vault_pubkey_and_bump bridge_id).1.
Definition vault_signer_seeds (bump : bytes) : list bytes := [VAULT_SEED; bump].
Definition user_withdrawal_counter_pubkey_and_bump (program_id user_key : Pubkey) : Pubkey * byte :=
  find_program_address [USER_WITHDRAWAL_COUNTER_SEED; user_key] program_id.
Definition user_withdrawal_counter_pubkey (user_key : Pubkey) : Pubkey :=
  (user_withdrawal_counter_pubkey_and_bump bridge_id user_key).1.
Definition user_withdrawal_counter_seeds (user_key : Pubkey) (bump : bytes) : list bytes :=
  [USER_WITHDRAWAL_COUNTER_SEED; user_key; bump].
Definition withdrawal_transaction_pubkey_and_bump (user_key : Pubkey) (counter : Z) (program_id : Pubkey) : Pubkey * byte :=
  find_program_address [user_key; le_bytes 8 counter] program_id.
Definition withdrawal_transaction_pubkey (user_key : Pubkey) (counter : Z) : Pubkey :=
  (withdrawal_transaction_pubkey_and_bump user_key counter bridge_id).1.
Definition withdrawal_transaction_signer_seeds (user_key : Pubkey) (counter_seed bump : bytes) : list bytes :=
  [user_key; counter_seed; bump].
Definition config_pubkey_and_bump (program_id : Pubkey) : Pubkey * byte := find_program_address [BRIDGE_CONFIG_SEED] program_id.
Definition config_pubkey : Pubkey := (config_pubkey_and_bump bridge_id).1.
Definition spl_token_owner_pubkey_and_bump (remote_token : Address) (program_id : Pubkey) : Pubkey * byte :=
  find_program_address [SPL_OWNER_SEED; remote_token] program_id.
Definition spl_token_owner_pubkey (remote_token : Address) : Pubkey := (spl_token_owner_pubkey_and_bump remote_token bridge_id).1.
Definition spl_token_owner_signer_seeds (remote_token : Address) (bump : bytes) : list bytes := [SPL_OWNER_SEED; remote_token; bump].
Definition spl_token_mint_pubkey_and_bump (remote_token : Address) (program_id : Pubkey) : Pubkey * byte :=
  find_program_address [SPL_MINT_SEED; remote_token] program_id.
Definition spl_token_mint_pubkey (remote_token : Address) : Pubkey := (spl_token_mint_pubkey_and_bump remote_token bridge_id).1.
Definition spl_token_mint_signer_seeds (remote_token : Address) (bump : bytes) : list bytes := [SPL_MINT_SEED; remote_token; bump].
Definition bridge_owner_pubkey_and_bump (program_id : Pubkey) : Pubkey * byte := find_program_address [BRIDGE_OWNER_SEED] program_id.
Definition bridge_owner_pubkey : Pubkey := (bridge_owner_pubkey_and_bump bridge_id).1.
Definition spl_token_metadata_pubkey (remote_token : Address) : Pubkey :=
  let mint_key := (spl_token_mint_pubkey_and_bump remote_token bridge_id).1 in find_metadata_pda mint_key.

(** * Instructions *)

(** [self.pack().unwrap()]. *)
Definition instruction {E} (accounts : list AccountMeta) (self : BridgeInstruction) : outcome E Instruction :=
  match pack self with Ok data => Ok (mkInstruction bridge_id accounts data) | _ => Panic end.

Definition create_vault_account {E} (payer : Pubkey) : outcome E Instruction :=
  instruction
    [meta_new_readonly system_program_id false; meta_new_readonly rent_id false; meta_new vault_pubkey false;
     meta_new_readonly payer true]
    CreateVaultAccount.

Definition deposit_eth {E} (from to : Address) (mint value gas : Z) (is_creation : bool) (l1_block_num : Z)
    (l1_block_hash : bytes) (log_index : Z) (deposit_from : Address) (deposit_to : Pubkey) (deposit_amount : Z)
    (deposit_extra_data : bytes) : outcome E Instruction :=
  instruction
    [meta_new_readonly system_program_id false; meta_new deposit_to false; meta_new vault_pubkey false;
     meta_new_readonly NO_SIG_TX_PAYER true]
    (DepositETH (mkDepositETHData from to mint value gas is_creation l1_block_num l1_block_hash log_index byte0
       deposit_from deposit_to deposit_amount deposit_extra_data (replicate 32 byte0) Address_ZERO)).

Definition deposit_erc20 {E} (local_token : Pubkey) (remote_token from : Address) (to : Pubkey) (amount : Z)
    : outcome E Instruction :=
  let spl_token_mint_key := spl_token_mint_pubkey remote_token in
  let depositor_associated_token_key := get_associated_token_address to spl_token_mint_key in
  instruction
    [meta_new_readonly system_program_id false; meta_new_readonly spl_token_id false;
     meta_new_readonly spl_associated_token_account_id false;
     meta_new_readonly (spl_token_owner_pubkey remote_token) false; meta_new spl_token_mint_key false;
     meta_new_readonly to true; meta_new depositor_associated_token_key false; meta_new vault_pubkey false;
     meta_new_readonly NO_SIG_TX_PAYER true]
    (DepositERC20 local_token remote_token from to amount).

Definition create_spl (remote_token : Address) (admin : Pubkey) (name symbol uri : bytes) (decimals : byte)
    : outcome BridgeError Instruction :=
  data ← pack (CreateSPL remote_token name symbol uri decimals);
  Ok (mkInstruction bridge_id
    [meta_new_readonly system_program_id false; meta_new_readonly rent_id false; meta_new_readonly spl_token_id false;
     meta_new_readonly (spl_token_owner_pubkey remote_token) false; meta_new (spl_token_mint_pubkey remote_token) false;
     meta_new vault_pubkey false; meta_new_readonly bridge_owner_pubkey false; meta_new_readonly admin true;
     meta_new_readonly mpl_token_metadata_id false; meta_new (spl_token_metadata_pubkey remote_token) false]
    data).

Definition withdraw_eth {E} (target : Address) (payer : Pubkey) (value gas_limit counter : Z) : outcome E Instruction :=
  instruction
    [meta_new_readonly system_program_id false; meta_new_readonly rent_id false;
     meta_new (user_withdrawal_counter_pubkey payer) false; meta_new (withdrawal_transaction_pubkey payer counter) false;
     meta_new vault_pubkey false; meta_new_readonly config_pubkey false; meta_new payer true]
    (WithdrawETH target value gas_limit).

Definition change_bridge_admin {E} (admin new_admin : Pubkey) : outcome E Instruction :=
  instruction [meta_new bridge_owner_pubkey false; meta_new_readonly admin true] (ChangeBridgeAdmin new_admin).

Definition withdraw_spl {E} (remote_token : Address) (payer : Pubkey) (to : Address) (amount gas_limit counter : Z)
    : outcome E Instruction :=
  let spl_token_mint_key := spl_token_mint_pubkey remote_token in
  let from_associated_token_key := get_associated_token_address payer spl_token_mint_key in
  instruction
    [meta_new_readonly system_program_id false; meta_new_readonly rent_id false; meta_new_readonly spl_token_id false;
     meta_new (user_withdrawal_counter_pubkey payer) false; meta_new (withdrawal_transaction_pubkey payer counter) false;
     meta_new_readonly (spl_token_owner_pubkey remote_token) false; meta_new spl_token_mint_key false;
     meta_new from_associated_token_key false; meta_new_readonly config_pubkey false; meta_new payer true]
    (WithdrawSPL remote_token to amount gas_limit).

Definition create_user_withdrawal_counter_account {E} (payer : Pubkey) : outcome E Instruction :=
  instruction
    [meta_new_readonly system_program_id false; meta_new_readonly rent_id false;
     meta_new (user_withdrawal_counter_pubkey payer) false; meta_new payer true]
    CreateUserWithdrawalCounterAccount.
End pda.

(** * State *)

Definition COUNTER_LEN : nat := 8.
Definition pack_counter (counter : Z) (dst : bytes) : outcome ProgramError bytes := copy_at 0 (le_bytes 8 counter) dst.
Definition unpack_counter (src : bytes) : outcome ProgramError Z := counter ← slice src 0 8; Ok (le_val counter).

Definition ETH_WITHDRAWAL_TRANSACTION_CALLDATA_LEN : nat := 420.
Definition SPL_WITHDRAWAL_TRANSACTION_CALLDATA_LEN : nat := 484.

(** [ETHWithdrawalTransaction] and [SPLWithdrawalTransaction], which differ in the length of their
    calldata; 256-bit integers as [Z]. *)
Record WithdrawalTransaction := mkWithdrawalTransaction {
  wt_nonce : Z;
  wt_sender : Pubkey;
  wt_target : Address;
  wt_value : Z;
  wt_gas_limit : Z;
  wt_data : bytes;
}.
Definition withdrawal_len (calldata_len : nat) : nat := 148 + calldata_len.

(** [U256::high], [U256::low] and [U256::from_words] of the crate ethnum. *)
Definition high (z : Z) : Z := Z.shiftr z 128.
Definition low (z : Z) : Z := z mod 2 ^ 128.
Definition from_words (hi lo : Z) : Z := Z.lor (Z.shiftl hi 128) lo.

Definition pack_withdrawal (self : WithdrawalTransaction) (dst : bytes) : outcome ProgramError bytes :=
  dst ← copy_at 0 (be_bytes 16 (high (wt_nonce self))) dst;
  dst ← copy_at 16 (be_bytes 16 (low (wt_nonce self))) dst;
  dst ← copy_at 32 (wt_sender self) dst;
  dst ← copy_at 64 (wt_target self) dst;
  dst ← copy_at 84 (be_bytes 16 (high (wt_value self))) dst;
  dst ← copy_at 100 (be_bytes 16 (low (wt_value self))) dst;
  dst ← copy_at 116 (be_bytes 16 (high (wt_gas_limit self))) dst;
  dst ← copy_at 132 (be_bytes 16 (low (wt_gas_limit self))) dst;
  copy_at 148 (wt_data self) dst.

Definition unpack_withdrawal (calldata_len : Z) (src : bytes) : outcome ProgramError WithdrawalTransaction :=
  nonce_high ← slice src 0 16;
  nonce_low ← slice src 16 32;
  sender ← slice src 32 64;
  target ← slice src 64 84;
  value_high ← slice src 84 100;
  value_low ← slice src 100 116;
  gas_limit_high ← slice src 116 132;
  gas_limit_low ← slice src 132 148;
  data ← slice src 148 (148 + calldata_len);
  Ok (mkWithdrawalTransaction (from_words (be_val nonce_high) (be_val nonce_low)) sender target
        (from_words (be_val value_high) (be_val value_low)) (from_words (be_val gas_limit_high) (be_val gas_limit_low)) data).

Record BridgeConfig := mkBridgeConfig { bc_l1_cross_domain_messenger : Address; bc_l1_standard_bridge : Address }.
Definition CONFIG_LEN : nat := 40.
Definition pack_config (self : BridgeConfig) (dst : bytes) : outcome ProgramError bytes :=
  dst ← copy_at 0 (bc_l1_cross_domain_messenger self) dst; copy_at 20 (bc_l1_standard_bridge self) dst.
Definition unpack_config (src : bytes) : outcome ProgramError BridgeConfig :=
  l1_cross_domain_messenger ← slice src 0 20;
  l1_standard_bridge ← slice src 20 40;
  Ok (mkBridgeConfig l1_cross_domain_messenger l1_standard_bridge).

(** [BridgeOwner], an admin. *)
Definition OWNER_LEN : nat := 32.
Definition pack_owner (admin : Pubkey) (dst : bytes) : outcome ProgramError bytes :=
  if decide (length dst = length admin) then Ok admin else Panic.
Definition unpack_owner (src : bytes) : outcome ProgramError Pubkey :=
  if decide (length src = 32%nat) then Ok src else Err InvalidAccountData.

(** * Round trips *)

Lemma words_split z : 0 <= z < 2 ^ 256 →
  0 <= high z < 256 ^ Z.of_nat 16 ∧ 0 <= low z < 256 ^ Z.of_nat 16 ∧ from_words (high z) (low z) = z.
Proof.
  intros Hz. unfold high, low, from_words. rewrite Z.shiftr_div_pow2 by lia.
  change (256 ^ Z.of_nat 16) with (2 ^ 128). assert (2 ^ 256 = 2 ^ 128 * 2 ^ 128) as H2 by (by vm_compute).
  split; [split; [apply Z.div_pos; lia|apply Z.div_lt_upper_bound; lia]|].
  split; [apply Z.mod_pos_bound; lia|].
  rewrite <- Z.shiftr_div_pow2 by lia. apply Z.bits_inj'. intros n Hn.
  rewrite Z.lor_spec, Z.shiftl_spec by done. destruct (decide (n < 128)) as [Hl|Hl].
  - rewrite Z.testbit_neg_r, Z.mod_pow2_bits_low by lia. done.
  - rewrite Z.mod_pow2_bits_high, Z.shiftr_spec, orb_false_r by lia. f_equal. lia.
Qed.

Definition withdrawal_wf (self : WithdrawalTransaction) : Prop :=
  0 <= wt_nonce self < 2 ^ 256 ∧ is_key (wt_sender self) ∧ is_address (wt_target self) ∧
  0 <= wt_value self < 2 ^ 256 ∧ 0 <= wt_gas_limit self < 2 ^ 256.

Definition withdrawal_bytes (self : WithdrawalTransaction) : bytes :=
  be_bytes 16 (high (wt_nonce self)) ++ be_bytes 16 (low (wt_nonce self)) ++ wt_sender self ++ wt_target self ++
  be_bytes 16 (high (wt_value self)) ++ be_bytes 16 (low (wt_value self)) ++
  be_bytes 16 (high (wt_gas_limit self)) ++ be_bytes 16 (low (wt_gas_limit self)) ++ wt_data self.

Lemma pack_withdrawal_bytes self dst :
  withdrawal_wf self → length dst = withdrawal_len (length (wt_data self)) → pack_withdrawal self dst = Ok (withdrawal_bytes self).
Proof.
  intros (_ & Hs & Ht & _ & _) Hd. unfold withdrawal_len in Hd. unfold is_key, is_address in *. unfold pack_withdrawal.
  change dst with ([] ++ dst).
  do 8 (rewrite copy_at_fill; [cbn [mbind outcome_bind]|
    rewrite ?length_app, ?length_be_bytes, ?Hs, ?Ht; done|
    rewrite ?length_drop, ?length_be_bytes, ?Hs, ?Ht, Hd; lia]).
  rewrite copy_at_fill by (rewrite ?length_app, ?length_drop, ?length_be_bytes, ?Hs, ?Ht, ?Hd; cbn; lia).
  rewrite !drop_drop, !length_be_bytes, Hs, Ht, drop_ge by (rewrite Hd; cbn; lia).
  unfold withdrawal_bytes. by rewrite app_nil_r, <- !app_assoc.
Qed.

#[local] Ltac read_field Hs Ht :=
  repeat (erewrite slice_skip; [|first [apply len_be_bytes|unfold len; rewrite ?Hs, ?Ht; reflexivity]|lia]);
  rewrite slice_app by (first [rewrite len_be_bytes|unfold len; rewrite ?Hs, ?Ht]; lia); cbn [mbind outcome_bind].
Lemma unpack_withdrawal_bytes self :
  withdrawal_wf self → unpack_withdrawal (len (wt_data self)) (withdrawal_bytes self) = Ok self.
Proof.
  intros (Hn & Hs & Ht & Hv & Hg). unfold is_key, is_address in *. unfold unpack_withdrawal, withdrawal_bytes.
  do 8 read_field Hs Ht.
  repeat (erewrite slice_skip; [|first [apply len_be_bytes|unfold len; rewrite ?Hs, ?Ht; reflexivity]|lia]).
  rewrite <- (app_nil_r (wt_data self)) at 1. rewrite slice_app by lia. cbn [mbind outcome_bind].
  destruct (words_split _ Hn) as (? & ? & Hn'), (words_split _ Hv) as (? & ? & Hv'), (words_split _ Hg) as (? & ? & Hg').
  rewrite !be_val_be_bytes_small, Hn', Hv', Hg' by done. by destruct self.
Qed.

Lemma counter_codec counter dst : is_u64 counter → length dst = COUNTER_LEN →
  pack_counter counter dst = Ok (le_bytes 8 counter) ∧ unpack_counter (le_bytes 8 counter) = Ok counter.
Proof.
  intros Hc Hd. unfold pack_counter, unpack_counter, COUNTER_LEN in *. split.
  - pose proof (copy_at_fill (E:=ProgramError) 0 (le_bytes 8 counter) [] dst eq_refl) as Hp. cbn [app] in Hp.
    rewrite Hp by (rewrite length_le_bytes; lia). rewrite drop_ge, app_nil_r by (rewrite length_le_bytes; lia). done.
  - rewrite <- (app_nil_r (le_bytes 8 counter)), slice_app by (by rewrite len_le_bytes).
    cbn [mbind outcome_bind]. by rewrite le_val_bytes.
Qed.

(** A withdrawal survives its account: packing fills an account of the right length, and what is
    unpacked from it is the withdrawal, its 256-bit words put together from their halves. *)
Theorem withdrawal_codec self dst :
  withdrawal_wf self → length dst = withdrawal_len (length (wt_data self)) →
  ∃ account, pack_withdrawal self dst = Ok account ∧ length account = length dst ∧
    unpack_withdrawal (len (wt_data self)) account = Ok self.
Proof.
  intros Hw Hd. exists (withdrawal_bytes self). rewrite pack_withdrawal_bytes by done. split; [done|].
  split; [|by apply unpack_withdrawal_bytes]. destruct Hw as (_ & Hs & Ht & _ & _). unfold is_key, is_address in *.
  unfold withdrawal_bytes. rewrite !length_app, !length_be_bytes, Hs, Ht, Hd. unfold withdrawal_len. lia.
Qed.

(** Concrete addresses. *)
Module Named.
#[local] Instance addresses : BridgeAddresses := {|
  bridge_id := replicate 32 (z2b 9);
  system_program_id := replicate 32 byte0;
  rent_id := replicate 32 (z2b 10);
  spl_token_id := replicate 32 (z2b 11);
  spl_associated_token_account_id := replicate 32 (z2b 12);
  get_associated_token_address owner mint := take 16 owner ++ take 16 mint;
  mpl_token_metadata_id := replicate 32 (z2b 13);
  find_metadata_pda mint := z2b 14 :: drop 1 mint;
|}.
End Named.

Definition withdrawal_example : WithdrawalTransaction :=
  mkWithdrawalTransaction (2 ^ 200 + 7) (be_bytes 32 1) (be_bytes 20 2) (2 ^ 127) (2 ^ 255) (replicate 420 byte1).
Lemma withdrawal_codec_witness :
  ∃ account, pack_withdrawal withdrawal_example (replicate 568 byte0) = Ok account ∧
    unpack_withdrawal 420 account = Ok withdrawal_example.
Proof.
  destruct (withdrawal_codec withdrawal_example (replicate 568 byte0)) as (account & Hp & _ & Hu).
  - unfold withdrawal_wf, is_key, is_address. split_and!; by vm_compute.
  - done.
  - exists account. split; [exact Hp|]. exact Hu.
Defined.
