(* ===== verification/Bridge.v ===== *)
(** The processor of the bridge program (src/crates/programs/bridge-program/src/processor.rs and
    utils.rs): deposits and withdrawals of ETH and tokens, token creation, the admin of the bridge.

    An [AccountInfo] is a handle: handles with one key share one account, so the accounts live in a
    ledger that the handlers and the programs they invoke update. Invocation, the rent sysvar, the
    other programs' instructions and the ABI encoding are parameters.

    [withdraw_eth_spec], [deposit_eth_spec]: what a withdrawal and a deposit do to the ledger.
    [admin_changes_only_by_admin]: whatever the instruction, only the admin changes the admin.
    [token_amounts_roundtrip]: converting token amounts neither overflows nor loses tokens. *)
From stdpp Require Import gmap.
From S2P Require Import Prelude Blocks NodeCodec ProgramCodec L1BlockInfo BridgeInstruction BridgeAccounts.
#[local] Open Scope Z_scope.

(** * The ledger *)

#[global] Instance byte_countable : Countable byte := inj_countable' b2z z2b z2b_b2z.

Record Account := mkAccount { ac_lamports : Z; ac_data : bytes; ac_owner : Pubkey }.
Abbreviation Ledger := (gmap Pubkey Account).

(** The [AccountInfo] of solana_program, whose lamports and data are shared references. *)
Record AccountRef := mkAccountRef { ar_key : Pubkey; ar_is_signer : bool }.

Abbreviation Handler := (ST Ledger ProgramError).

(** * Parameters: the runtime and other programs *)

(** [invoke_signed]; the rent sysvar. *)
Class Runtime := {
  invoke_signed : Instruction → list AccountRef → list (list bytes) → Handler unit;
  Rent : Type;
  rent_get : outcome ProgramError Rent;
  rent_from_account_info : AccountRef → Ledger → outcome ProgramError Rent;
  minimum_balance : Rent → nat → Z;
}.

(** [Pack::unpack] of solana_program, given the length and the method of a type that is always
    initialized. *)
Class ProgramUnpack :=
  unpack_account : ∀ {A}, nat → (bytes → outcome ProgramError A) → bytes → outcome ProgramError A.
Class ProgramUnpackLaws `{!ProgramUnpack} := {
  unpack_account_fits {A} n (f : bytes → outcome ProgramError A) src : length src = n → unpack_account n f src = f src;
  unpack_account_other {A} n (f : bytes → outcome ProgramError A) src :
    length src ≠ n → unpack_account n f src = Err InvalidAccountData;
}.

(** The instructions of the system program. *)
Class SystemInstructions := {
  transfer : Pubkey → Pubkey → Z → Instruction;
  allocate : Pubkey → nat → Instruction;
  assign : Pubkey → Pubkey → Instruction;
}.

(** [DataV2] of mpl_token_metadata; [creators], [collection] and [uses] are always [None]. *)
Record DataV2 := mkDataV2 { dv_name : bytes; dv_symbol : bytes; dv_uri : bytes; dv_seller_fee_basis_points : Z }.
Record CreateMetadataAccountV3 := mkCreateMetadataAccountV3 {
  cm_metadata : Pubkey;
  cm_mint : Pubkey;
  cm_mint_authority : Pubkey;
  cm_payer : Pubkey;
  cm_update_authority : Pubkey * bool;
  cm_system_program : Pubkey;
  cm_rent : option Pubkey;
}.
Inductive AuthorityType := MintTokens | FreezeAccount | AccountOwner | CloseAccount.

(** The crates spl_token, spl_associated_token_account and mpl_token_metadata. *)
Class TokenPrograms := {
  check_program_account : Pubkey → outcome ProgramError unit;
  MINT_LEN : nat;
  unpack_mint_decimals : bytes → outcome ProgramError byte;
  unpack_token_account_owner : bytes → outcome ProgramError Pubkey;
  initialize_mint : Pubkey → Pubkey → Pubkey → option Pubkey → byte → outcome ProgramError Instruction;
  mint_to : Pubkey → Pubkey → Pubkey → Pubkey → list Pubkey → Z → outcome ProgramError Instruction;
  burn : Pubkey → Pubkey → Pubkey → Pubkey → list Pubkey → Z → outcome ProgramError Instruction;
  set_authority : Pubkey → Pubkey → option Pubkey → AuthorityType → Pubkey → list Pubkey → outcome ProgramError Instruction;
  create_associated_token_account : Pubkey → Pubkey → Pubkey → Pubkey → Instruction;
  create_metadata : CreateMetadataAccountV3 → DataV2 → bool → Instruction;
  update_metadata : Pubkey → Pubkey → option DataV2 → option bool → Instruction;
}.

(** ethabi. *)
Inductive Token := TokenFixedBytes (b : bytes) | TokenBytes (b : bytes) | TokenAddress (a : Address) | TokenUint (z : Z).
Class EthAbi := encode : list Token → bytes.

(** * Token amounts *)

Definition SPL_SHARE_DECIMAL : Z := 9.
Definition MINIMAL_GAS_LIMIT : Z := 500000.
Definition STANDARD_BRIDGE_CALL_GAS_LIMIT : Z := 200000.
Definition MAX_TOKEN_DECIMAL : Z := 9.

(** [10_u128.pow(k)] and [*]: the release build of the programs has its overflow checks on. *)
Definition pow10 {E} (k : Z) : outcome E Z := Prelude.in_range 128 (10 ^ k).
Definition u128_mul {E} (a b : Z) : outcome E Z := Prelude.in_range 128 (a * b).
(** Division of unsigned integers panics on zero. *)
Definition u128_div {E} (a b : Z) : outcome E Z := if decide (b = 0) then Panic else Ok (a / b).

Definition remove_dust {E} (amount from_decimal to_decimal : Z) : outcome E Z :=
  if decide (from_decimal <= to_decimal) then Ok amount
  else
    conversion_rate ← pow10 (from_decimal - to_decimal);
    quotient ← u128_div amount conversion_rate;
    u128_mul quotient conversion_rate.

Definition convert_decimal {E} (amount from_decimal to_decimal : Z) : outcome E Z :=
  if decide (from_decimal > to_decimal)
  then conversion_rate ← pow10 (from_decimal - to_decimal); u128_div amount conversion_rate
  else conversion_rate ← pow10 (to_decimal - from_decimal); u128_mul amount conversion_rate.

(** [to_u64] of num_traits. *)
Definition to_u64 (z : Z) : option Z := if decide (z < 2 ^ 64) then Some z else None.

(** * Calldata of the L1 messenger *)

Definition MESSAGE_VERSION : Z := 1.
Definition encode_versioned_nonce (nonce : Z) : Z :=
  let version_shifted := wrap 256 (Z.shiftl MESSAGE_VERSION 240) in Z.lor version_shifted nonce.

Section calldata.
Context `{!Keccak} `{!EthAbi}.

Definition encode_with_selector (selector_str : bytes) (params : list Token) : bytes :=
  let selector := take 4 (keccak256 selector_str) in selector ++ encode params.

Definition relay_message_selector : bytes := seed "relayMessage(uint256,bytes32,address,uint256,uint256,bytes)".

Definition get_bridge_eth_calldata (program_id : Pubkey) (l1_standard_bridge : Address) (sender : Pubkey)
    (target : Address) (value gas_limit counter : Z) : bytes :=
  let inner_selector := seed "finalizeBridgeETH(bytes32,address,uint256,bytes)" in
  let inner_params := [TokenFixedBytes sender; TokenAddress target; TokenUint value; TokenBytes []] in
  let message_token := TokenBytes (encode_with_selector inner_selector inner_params) in
  encode_with_selector relay_message_selector
    [TokenUint (encode_versioned_nonce counter); TokenFixedBytes program_id; TokenAddress l1_standard_bridge;
     TokenUint value; TokenUint gas_limit; message_token].

Definition get_bridge_erc20_calldata (program_id : Pubkey) (l1_standard_bridge : Address) (local_token : Pubkey)
    (remote_token : Address) (from : Pubkey) (to : Address) (amount gas_limit counter : Z) : bytes :=
  let inner_selector := seed "finalizeBridgeERC20(address,bytes32,bytes32,address,uint256,bytes)" in
  let inner_params :=
    [TokenAddress remote_token; TokenFixedBytes local_token; TokenFixedBytes from; TokenAddress to; TokenUint amount;
     TokenBytes []] in
  let message_token := TokenBytes (encode_with_selector inner_selector inner_params) in
  encode_with_selector relay_message_selector
    [TokenUint (encode_versioned_nonce counter); TokenFixedBytes program_id; TokenAddress l1_standard_bridge;
     TokenUint 0; TokenUint gas_limit; message_token].
End calldata.

(** * Accounts *)

Section processor.
Context `{!L1BlockInfoProgram} `{!BridgeAddresses} `{!Pda} `{!ProgramPack} `{!ProgramUnpack} `{!Runtime}
  `{!SystemInstructions} `{!TokenPrograms} `{!Keccak} `{!EthAbi}.

(** An account nobody created has no lamports and no data and belongs to the system program. *)
Definition account_at (l : Ledger) (k : Pubkey) : Account := default (mkAccount 0 [] system_program_id) (l !! k).
Definition data_at (l : Ledger) (k : Pubkey) : bytes := ac_data (account_at l k).
Definition set_data (k : Pubkey) (data : bytes) (l : Ledger) : Ledger :=
  <[k := mkAccount (ac_lamports (account_at l k)) data (ac_owner (account_at l k))]> l.

(** [P::unpack(&account.data.borrow())] and [P::pack(value, &mut account.data.borrow_mut())]. *)
Definition load {A} (n : nat) (unpack_from_slice : bytes → outcome ProgramError A) (account : AccountRef) : Handler A :=
  λ l, (unpack_account n unpack_from_slice (data_at l (ar_key account)), l).
Definition store (n : nat) (pack_into_slice : bytes → outcome ProgramError bytes) (account : AccountRef) : Handler unit :=
  λ l, match pack_account n pack_into_slice (data_at l (ar_key account)) with
       | Ok data => (Ok tt, set_data (ar_key account) data l)
       | Err e => (Err e, l)
       | Panic => (Panic, l)
       end.

Definition invoke (instruction : Instruction) (accounts : list AccountRef) : Handler unit := invoke_signed instruction accounts [].

Definition cmp_pubkeys (a b : Pubkey) : bool := bool_decide (a = b).
Definition cmp_addresses (a b : Address) : bool := bool_decide (a = b).
(** [if !b { return Err(e.into()) }]. *)
Definition require (b : bool) (e : BridgeError) : Handler unit := if b then mret tt else fail (bridge_error e).
Definition or_error {A} (o : option A) (e : BridgeError) : Handler A := lift (ok_or o (bridge_error e)).

(** * utils.rs *)

Definition invoke_optionally_signed (instruction : Instruction) (account_infos : list AccountRef) (signer_seeds : list bytes)
    : Handler unit :=
  match signer_seeds with
  | [] => invoke instruction account_infos
  | _ => invoke_signed instruction account_infos [signer_seeds]
  end.

Definition create_account (LEN : nat) (rent : Rent) (payer_account_info target_account_info system_program_info : AccountRef)
    (owner : Pubkey) (payer_signer_seeds target_signer_seeds : list bytes) : Handler unit :=
  lamports ← gets (λ l, ac_lamports (account_at l (ar_key target_account_info)));
  let required_lamports := Z.max 0 (minimum_balance rent LEN - lamports) in
  (if decide (required_lamports > 0)
   then invoke_optionally_signed (transfer (ar_key payer_account_info) (ar_key target_account_info) required_lamports)
          [payer_account_info; target_account_info; system_program_info] payer_signer_seeds
   else mret tt);;
  invoke_optionally_signed (allocate (ar_key target_account_info) LEN) [target_account_info; system_program_info]
    target_signer_seeds;;
  invoke_optionally_signed (assign (ar_key target_account_info) owner) [target_account_info; system_program_info]
    target_signer_seeds.

(** * The handlers *)

(** The deprecated handlers do nothing. *)
Definition create_vault_account (program_id : Pubkey) (accounts : list AccountRef) : Handler unit := mret tt.
Definition create_withdrawal_counter_account (program_id : Pubkey) (accounts : list AccountRef) : Handler unit := mret tt.
Definition create_bridge_config_account (program_id : Pubkey) (accounts : list AccountRef)
    (l1_cross_domain_messenger l1_standard_bridge : Address) : Handler unit := mret tt.

(** [array_ref!] panics when there are not enough accounts. *)
Definition deposit_eth (program_id : Pubkey) (accounts : list AccountRef) (data : DepositETHData) : Handler unit :=
  match accounts with
  | system_program_account :: depositor_account :: vault_account :: no_sig_tx_payer_account :: _ =>
      require (cmp_pubkeys (ar_key no_sig_tx_payer_account) NO_SIG_TX_PAYER && ar_is_signer no_sig_tx_payer_account)
        InvalidNoSigTxPayer;;
      let '(vault_key, vault_seed) := vault_pubkey_and_bump program_id in
      require (cmp_pubkeys vault_key (ar_key vault_account)) InvalidVaultAccount;;
      require (cmp_pubkeys (de_deposit_to data) (ar_key depositor_account)) InvalidDepositorAccount;;
      rent ← lift rent_get;
      let min_balance := minimum_balance rent 0 in
      deposit_amount ← or_error (to_u64 (de_value data)) InvalidDepositAmount;
      require (bool_decide (min_balance < deposit_amount)) InvalidDepositAmount;;
      invoke_signed (transfer (ar_key vault_account) (ar_key depositor_account) deposit_amount)
        [system_program_account; vault_account; depositor_account] [vault_signer_seeds [vault_seed]]
  | _ => panic
  end.

Definition withdraw_eth (program_id : Pubkey) (accounts : list AccountRef) (target : Address) (value gas_limit : Z)
    : Handler unit :=
  require (bool_decide (MINIMAL_GAS_LIMIT <= gas_limit)) GasLimitTooLow;;
  match accounts with
  | system_program_account :: rent_sysvar_account :: user_withdrawal_counter_account :: withdrawal_transaction_account
      :: vault_account :: bridge_config_account :: payer_account :: _ =>
      require (cmp_pubkeys config_pubkey (ar_key bridge_config_account)) InvalidBridgeConfigAccount;;
      let '(user_withdrawal_counter_key, _) := user_withdrawal_counter_pubkey_and_bump program_id (ar_key payer_account) in
      require (cmp_pubkeys user_withdrawal_counter_key (ar_key user_withdrawal_counter_account))
        InvalidWithdrawalCounterAccount;;
      counter ← load COUNTER_LEN unpack_counter user_withdrawal_counter_account;
      new_count ← lift (Prelude.in_range 64 (counter + 1));
      store COUNTER_LEN (pack_counter new_count) user_withdrawal_counter_account;;
      let '(withdrawal_transaction_key, bump) :=
        withdrawal_transaction_pubkey_and_bump (ar_key payer_account) counter program_id in
      require (cmp_pubkeys withdrawal_transaction_key (ar_key withdrawal_transaction_account))
        InvalidWithdrawalTransactionAccount;;
      require (cmp_pubkeys vault_pubkey (ar_key vault_account)) InvalidVaultAccount;;
      value ← or_error (to_u64 value) InvalidWithdrawAmount;
      require (negb (bool_decide (value = 0))) InvalidWithdrawAmount;;
      invoke (transfer (ar_key payer_account) vault_pubkey value) [payer_account; vault_account; system_program_account];;
      l ← gets id;
      rent ← lift (rent_from_account_info rent_sysvar_account l);
      create_account (withdrawal_len ETH_WITHDRAWAL_TRANSACTION_CALLDATA_LEN) rent payer_account
        withdrawal_transaction_account system_program_account program_id []
        (withdrawal_transaction_signer_seeds (ar_key payer_account) (le_bytes 8 counter) [bump]);;
      bridge_config ← load CONFIG_LEN unpack_config bridge_config_account;
      let calldata := get_bridge_eth_calldata program_id (bc_l1_standard_bridge bridge_config) (ar_key payer_account)
        target value STANDARD_BRIDGE_CALL_GAS_LIMIT counter in
      calldata_bytes ← lift (ok_or (try_array (Z.of_nat ETH_WITHDRAWAL_TRANSACTION_CALLDATA_LEN) calldata) InvalidAccountData);
      let withdrawal_transaction_info := mkWithdrawalTransaction counter program_id
        (bc_l1_cross_domain_messenger bridge_config) value gas_limit calldata_bytes in
      store (withdrawal_len ETH_WITHDRAWAL_TRANSACTION_CALLDATA_LEN) (pack_withdrawal withdrawal_transaction_info)
        withdrawal_transaction_account
  | _ => panic
  end.

Definition change_bridge_admin (program_id : Pubkey) (accounts : list AccountRef) (new_admin : Pubkey) : Handler unit :=
  match accounts with
  | bridge_owner_account :: admin_account :: _ =>
      let '(bridge_owner_key, _) := bridge_owner_pubkey_and_bump program_id in
      require (cmp_pubkeys bridge_owner_key (ar_key bridge_owner_account)) InvalidBridgeOwnerAccount;;
      admin ← load OWNER_LEN unpack_owner bridge_owner_account;
      require (bool_decide (admin = ar_key admin_account) && ar_is_signer admin_account) InvalidAdmin;;
      store OWNER_LEN (pack_owner new_admin) bridge_owner_account
  | _ => panic
  end.

Definition create_spl (program_id : Pubkey) (accounts : list AccountRef) (remote_token : Address) (name symbol uri : bytes)
    (decimals : byte) : Handler unit :=
  require (bool_decide (b2z decimals <= MAX_TOKEN_DECIMAL)) InvalidSPLTokenDecimal;;
  match accounts with
  | system_program_account :: rent_sysvar_account :: spl_token_program_account :: spl_token_owner_account
      :: spl_token_mint_account :: vault_account :: bridge_owner_account :: admin_account :: token_metadata_program
      :: metadata_account :: _ =>
      lift (map_err (λ _, bridge_error InvalidSPLTokenProgramId) (check_program_account (ar_key spl_token_program_account)));;
      let '(vault_key, vault_bump) := vault_pubkey_and_bump program_id in
      require (cmp_pubkeys vault_key (ar_key vault_account)) InvalidVaultAccount;;
      let '(bridge_owner_key, _) := bridge_owner_pubkey_and_bump program_id in
      require (cmp_pubkeys bridge_owner_key (ar_key bridge_owner_account)) InvalidBridgeOwnerAccount;;
      admin ← load OWNER_LEN unpack_owner bridge_owner_account;
      require (bool_decide (admin = ar_key admin_account) && ar_is_signer admin_account) InvalidAdmin;;
      let '(spl_token_owner_key, spl_token_owner_bump) := spl_token_owner_pubkey_and_bump remote_token program_id in
      require (cmp_pubkeys spl_token_owner_key (ar_key spl_token_owner_account)) InvalidSPLTokenOwnerAccount;;
      let '(spl_token_mint_key, spl_token_mint_bump) := spl_token_mint_pubkey_and_bump remote_token program_id in
      require (cmp_pubkeys spl_token_mint_key (ar_key spl_token_mint_account)) InvalidSPLTokenMintAccount;;
      require (cmp_pubkeys (ar_key token_metadata_program) mpl_token_metadata_id) InvalidMetadataProgramId;;
      require (cmp_pubkeys (find_metadata_pda (ar_key spl_token_mint_account)) (ar_key metadata_account))
        InvalidMetadataAccount;;
      l ← gets id;
      rent ← lift (rent_from_account_info rent_sysvar_account l);
      create_account MINT_LEN rent vault_account spl_token_mint_account system_program_account
        (ar_key spl_token_program_account) (vault_signer_seeds [vault_bump])
        (spl_token_mint_signer_seeds remote_token [spl_token_mint_bump]);;
      instruction ← lift (initialize_mint (ar_key spl_token_program_account) spl_token_mint_key spl_token_owner_key None
                            decimals);
      invoke instruction [spl_token_mint_account; rent_sysvar_account; spl_token_program_account];;
      invoke_signed
        (create_metadata
           (mkCreateMetadataAccountV3 (ar_key metadata_account) (ar_key spl_token_mint_account)
              (ar_key spl_token_owner_account) (ar_key admin_account) (ar_key spl_token_owner_account, false)
              (ar_key system_program_account) (Some (ar_key rent_sysvar_account)))
           (mkDataV2 name symbol uri 0) true)
        [token_metadata_program; metadata_account; spl_token_mint_account; spl_token_owner_account; admin_account;
         rent_sysvar_account]
        [spl_token_owner_signer_seeds remote_token [spl_token_owner_bump]]
  | _ => panic
  end.

Definition update_spl_metadata (program_id : Pubkey) (accounts : list AccountRef) (remote_token : Address)
    (name symbol uri : bytes) : Handler unit :=
  match accounts with
  | metadata_account :: spl_token_mint_account :: spl_token_owner_account :: token_metadata_program
      :: bridge_owner_account :: admin_account :: _ =>
      let '(bridge_owner_key, _) := bridge_owner_pubkey_and_bump program_id in
      require (cmp_pubkeys bridge_owner_key (ar_key bridge_owner_account)) InvalidBridgeOwnerAccount;;
      admin ← load OWNER_LEN unpack_owner bridge_owner_account;
      require (bool_decide (admin = ar_key admin_account) && ar_is_signer admin_account) InvalidAdmin;;
      require (cmp_pubkeys (ar_key token_metadata_program) mpl_token_metadata_id) InvalidMetadataProgramId;;
      require (cmp_pubkeys (find_metadata_pda (ar_key spl_token_mint_account)) (ar_key metadata_account))
        InvalidMetadataAccount;;
      let '(spl_token_owner_key, spl_token_owner_bump) := spl_token_owner_pubkey_and_bump remote_token program_id in
      require (cmp_pubkeys spl_token_owner_key (ar_key spl_token_owner_account)) InvalidSPLTokenOwnerAccount;;
      invoke_signed
        (update_metadata (ar_key metadata_account) (ar_key spl_token_owner_account) (Some (mkDataV2 name symbol uri 0))
           (Some true))
        [token_metadata_program; metadata_account; spl_token_owner_account]
        [spl_token_owner_signer_seeds remote_token [spl_token_owner_bump]]
  | _ => panic
  end.

(** [depositor_token_account.owner] is the owner at the start of the instruction. *)
Definition deposit_erc20 (program_id : Pubkey) (accounts : list AccountRef) (local_token : Pubkey) (remote_token : Address)
    (to : Pubkey) (amount : Z) : Handler unit :=
  match accounts with
  | system_program_account :: spl_token_program_account :: associated_token_program_account :: spl_token_owner_account
      :: spl_token_mint_account :: depositor_account :: depositor_token_account :: vault_account
      :: no_sig_tx_payer_account :: _ =>
      require (cmp_pubkeys (ar_key no_sig_tx_payer_account) NO_SIG_TX_PAYER && ar_is_signer no_sig_tx_payer_account)
        InvalidNoSigTxPayer;;
      lift (map_err (λ _, bridge_error InvalidSPLTokenProgramId) (check_program_account (ar_key spl_token_program_account)));;
      require (bool_decide (ar_key associated_token_program_account = spl_associated_token_account_id))
        InvalidAssociatedTokenProgramId;;
      require (cmp_pubkeys to (ar_key depositor_account) && ar_is_signer depositor_account) InvalidDepositorAccount;;
      let '(vault_key, vault_bump) := vault_pubkey_and_bump program_id in
      require (cmp_pubkeys vault_key (ar_key vault_account)) InvalidVaultAccount;;
      require (cmp_pubkeys local_token (ar_key spl_token_mint_account)) InvalidSPLTokenMintAccount;;
      let '(spl_token_owner_key, spl_token_owner_bump) := spl_token_owner_pubkey_and_bump remote_token program_id in
      require (cmp_pubkeys spl_token_owner_key (ar_key spl_token_owner_account)) InvalidSPLTokenOwnerAccount;;
      let '(spl_token_mint_key, _) := spl_token_mint_pubkey_and_bump remote_token program_id in
      require (cmp_pubkeys spl_token_mint_key (ar_key spl_token_mint_account)) InvalidSPLTokenMintAccount;;
      owner ← gets (λ l, ac_owner (account_at l (ar_key depositor_token_account)));
      (if decide (owner ≠ ar_key spl_token_program_account)
       then
         invoke_signed
           (create_associated_token_account (ar_key vault_account) (ar_key depositor_account)
              (ar_key spl_token_mint_account) (ar_key spl_token_program_account))
           [system_program_account; spl_token_program_account; associated_token_program_account; depositor_account;
            depositor_token_account; spl_token_mint_account; vault_account]
           [vault_signer_seeds [vault_bump]];;
         instruction ← lift (set_authority (ar_key spl_token_program_account) (ar_key depositor_token_account)
                               (Some (ar_key spl_token_owner_account)) CloseAccount (ar_key depositor_account) []);
         invoke instruction [spl_token_program_account; depositor_token_account; depositor_account]
       else
         data ← gets (λ l, data_at l (ar_key depositor_token_account));
         token_account_owner ← lift (unpack_token_account_owner data);
         require (bool_decide (token_account_owner = ar_key depositor_account)) UnmatchedTokenAccountOwner);;
      mint_data ← gets (λ l, data_at l (ar_key spl_token_mint_account));
      spl_token_decimals ← lift (unpack_mint_decimals mint_data);
      amount ← lift (convert_decimal amount SPL_SHARE_DECIMAL (b2z spl_token_decimals));
      amount ← or_error (to_u64 amount) InvalidDepositAmount;
      instruction ← lift (mint_to (ar_key spl_token_program_account) (ar_key spl_token_mint_account)
                            (ar_key depositor_token_account) (ar_key spl_token_owner_account) [] amount);
      invoke_signed instruction
        [spl_token_program_account; spl_token_mint_account; depositor_token_account; spl_token_owner_account; vault_account]
        [spl_token_owner_signer_seeds remote_token [spl_token_owner_bump]]
  | _ => panic
  end.

Definition withdraw_spl (program_id : Pubkey) (accounts : list AccountRef) (remote_token to : Address) (amount gas_limit : Z)
    : Handler unit :=
  require (bool_decide (MINIMAL_GAS_LIMIT <= gas_limit)) GasLimitTooLow;;
  match accounts with
  | system_program_account :: rent_sysvar_account :: spl_token_program_account :: user_withdrawal_counter_account
      :: withdrawal_transaction_account :: spl_token_owner_account :: spl_token_mint_account
      :: payer_spl_associated_token_account :: bridge_config_account :: payer_account :: _ =>
      let '(bridge_config_key, _) := config_pubkey_and_bump program_id in
      require (cmp_pubkeys bridge_config_key (ar_key bridge_config_account)) InvalidBridgeConfigAccount;;
      lift (map_err (λ _, bridge_error InvalidSPLTokenProgramId) (check_program_account (ar_key spl_token_program_account)));;
      let '(user_withdrawal_counter_key, _) := user_withdrawal_counter_pubkey_and_bump program_id (ar_key payer_account) in
      require (cmp_pubkeys user_withdrawal_counter_key (ar_key user_withdrawal_counter_account))
        InvalidWithdrawalCounterAccount;;
      counter ← load COUNTER_LEN unpack_counter user_withdrawal_counter_account;
      new_count ← lift (Prelude.in_range 64 (counter + 1));
      store COUNTER_LEN (pack_counter new_count) user_withdrawal_counter_account;;
      let '(withdrawal_transaction_key, bump) :=
        withdrawal_transaction_pubkey_and_bump (ar_key payer_account) counter program_id in
      require (cmp_pubkeys withdrawal_transaction_key (ar_key withdrawal_transaction_account))
        InvalidWithdrawalTransactionAccount;;
      let '(spl_token_owner_key, _) := spl_token_owner_pubkey_and_bump remote_token program_id in
      require (cmp_pubkeys spl_token_owner_key (ar_key spl_token_owner_account)) InvalidSPLTokenOwnerAccount;;
      let '(spl_token_mint_key, _) := spl_token_mint_pubkey_and_bump remote_token program_id in
      require (cmp_pubkeys spl_token_mint_key (ar_key spl_token_mint_account)) InvalidSPLTokenMintAccount;;
      mint_data ← gets (λ l, data_at l (ar_key spl_token_mint_account));
      spl_token_decimals ← lift (unpack_mint_decimals mint_data);
      amount ← lift (remove_dust amount (b2z spl_token_decimals) SPL_SHARE_DECIMAL);
      amount ← or_error (to_u64 amount) InvalidWithdrawAmount;
      require (negb (bool_decide (amount = 0))) InvalidWithdrawAmount;;
      instruction ← lift (burn (ar_key spl_token_program_account) (ar_key payer_spl_associated_token_account)
                            (ar_key spl_token_mint_account) (ar_key payer_account) [] amount);
      invoke instruction
        [spl_token_program_account; payer_spl_associated_token_account; spl_token_mint_account; payer_account];;
      l ← gets id;
      rent ← lift (rent_from_account_info rent_sysvar_account l);
      create_account (withdrawal_len SPL_WITHDRAWAL_TRANSACTION_CALLDATA_LEN) rent payer_account
        withdrawal_transaction_account system_program_account program_id []
        (withdrawal_transaction_signer_seeds (ar_key payer_account) (le_bytes 8 counter) [bump]);;
      amount ← lift (convert_decimal amount (b2z spl_token_decimals) SPL_SHARE_DECIMAL);
      bridge_config ← load CONFIG_LEN unpack_config bridge_config_account;
      let calldata := get_bridge_erc20_calldata program_id (bc_l1_standard_bridge bridge_config)
        (ar_key spl_token_mint_account) remote_token (ar_key payer_account) to amount STANDARD_BRIDGE_CALL_GAS_LIMIT counter in
      calldata_bytes ← lift (ok_or (try_array (Z.of_nat SPL_WITHDRAWAL_TRANSACTION_CALLDATA_LEN) calldata) InvalidAccountData);
      let withdrawal_transaction_info := mkWithdrawalTransaction counter program_id
        (bc_l1_cross_domain_messenger bridge_config) 0 gas_limit calldata_bytes in
      store (withdrawal_len SPL_WITHDRAWAL_TRANSACTION_CALLDATA_LEN) (pack_withdrawal withdrawal_transaction_info)
        withdrawal_transaction_account
  | _ => panic
  end.

Definition create_user_withdrawal_counter_account (program_id : Pubkey) (accounts : list AccountRef) : Handler unit :=
  match accounts with
  | system_program_account :: rent_sysvar_account :: user_withdrawal_counter_account :: payer_account :: _ =>
      let '(user_withdrawal_counter_key, bump) := user_withdrawal_counter_pubkey_and_bump program_id (ar_key payer_account) in
      require (cmp_pubkeys user_withdrawal_counter_key (ar_key user_withdrawal_counter_account))
        InvalidWithdrawalCounterAccount;;
      l ← gets id;
      rent ← lift (rent_from_account_info rent_sysvar_account l);
      create_account COUNTER_LEN rent payer_account user_withdrawal_counter_account system_program_account program_id []
        (user_withdrawal_counter_seeds (ar_key payer_account) [bump]);;
      store COUNTER_LEN (pack_counter 0) user_withdrawal_counter_account
  | _ => panic
  end.

Definition process_instruction (program_id : Pubkey) (accounts : list AccountRef) (instruction : BridgeInstruction)
    : Handler unit :=
  match instruction with
  | CreateVaultAccount => create_vault_account program_id accounts
  | DepositETH data => deposit_eth program_id accounts data
  | CreateWithdrawalCounterAccount => create_withdrawal_counter_account program_id accounts
  | WithdrawETH target value gas_limit => withdraw_eth program_id accounts target value gas_limit
  | CreateSPL remote_token name symbol uri decimals =>
      create_spl program_id accounts remote_token name symbol uri decimals
  | DepositERC20 local_token remote_token _ to amount =>
      deposit_erc20 program_id accounts local_token remote_token to amount
  | WithdrawSPL remote_token to amount gas_limit => withdraw_spl program_id accounts remote_token to amount gas_limit
  | CreateBridgeConfigAccount l1_cross_domain_messenger l1_standard_bridge =>
      create_bridge_config_account program_id accounts l1_cross_domain_messenger l1_standard_bridge
  | ChangeBridgeAdmin new_admin => change_bridge_admin program_id accounts new_admin
  | CreateUserWithdrawalCounterAccount => create_user_withdrawal_counter_account program_id accounts
  | UpdateSPLMetadata remote_token name symbol uri =>
      update_spl_metadata program_id accounts remote_token name symbol uri
  end.

Definition process (program_id : Pubkey) (accounts : list AccountRef) (input : bytes) : Handler unit :=
  instruction ← lift (BridgeInstruction.unpack input);
  process_instruction program_id accounts instruction.
End processor.

(** * Token amounts *)

Lemma pow10_small {E} k : 0 <= k <= 9 → pow10 (E:=E) k = Ok (10 ^ k).
Proof.
  intros Hk. apply in_range_in. split; [apply Z.pow_nonneg; lia|].
  apply Z.le_lt_trans with (10 ^ 9); [by apply Z.pow_le_mono_r; lia|by vm_compute].
Qed.
Lemma pow10_range k : 0 <= k <= 9 → 1 <= 10 ^ k <= 10 ^ 9.
Proof. intros Hk. split; [pose proof (Z.pow_pos_nonneg 10 k); lia|apply Z.pow_le_mono_r; lia]. Qed.

(** C40. Token amounts keep within their width and survive the bridge: an amount of a token the bridge
    created is withdrawn without dust, its share fits 128 bits, and depositing the share mints
    the amount again; a deposit mints the share up to the dust the token cannot represent. *)
Theorem token_amounts_roundtrip decimals amount share :
  0 <= decimals <= MAX_TOKEN_DECIMAL → is_u64 amount → in_width 128 share →
  let unit := 10 ^ (SPL_SHARE_DECIMAL - decimals) in
  remove_dust (E:=ProgramError) amount decimals SPL_SHARE_DECIMAL = Ok amount ∧
  convert_decimal (E:=ProgramError) amount decimals SPL_SHARE_DECIMAL = Ok (amount * unit) ∧ in_width 128 (amount * unit) ∧
  convert_decimal (E:=ProgramError) (amount * unit) SPL_SHARE_DECIMAL decimals = Ok amount ∧
  ∃ minted, convert_decimal (E:=ProgramError) share SPL_SHARE_DECIMAL decimals = Ok minted ∧
    minted * unit <= share < (minted + 1) * unit ∧
    convert_decimal (E:=ProgramError) minted decimals SPL_SHARE_DECIMAL = Ok (minted * unit).
Proof.
  intros Hd Ha Hs unit. unfold MAX_TOKEN_DECIMAL, SPL_SHARE_DECIMAL in *.
  assert (1 <= unit <= 10 ^ 9) as Hu by (apply pow10_range; lia).
  assert (∀ z, in_width 128 (z * unit) → convert_decimal (E:=ProgramError) z decimals 9 = Ok (z * unit)) as Hup.
  { intros z Hz. unfold convert_decimal. rewrite decide_False, pow10_small by lia. by apply in_range_in. }
  assert (∀ z, in_width 128 z → convert_decimal (E:=ProgramError) z 9 decimals = Ok (z / unit)) as Hdown.
  { clear Hup. intros z Hz. unfold convert_decimal, u128_div, unit in *. case_decide as H9.
    - rewrite pow10_small by lia. cbn [mbind outcome_bind]. rewrite decide_False by (intros ?; lia). done.
    - replace decimals with 9 by lia. rewrite pow10_small by lia. change (10 ^ (9 - 9)) with 1. cbn [mbind outcome_bind].
      unfold u128_mul. by rewrite Z.mul_1_r, in_range_in, Z.div_1_r. }
  assert (in_width 128 (amount * unit)) as Hw by (unfold in_width in *; nia).
  assert (share = unit * (share / unit) + share mod unit ∧ 0 <= share mod unit < unit ∧ 0 <= share / unit) as (Hq & Hm & Hp).
  { split_and!; [apply Z.div_mod; lia|apply Z.mod_pos_bound; lia|apply Z.mod_pos_bound; lia|].
    apply Z.div_pos; [apply Hs|lia]. }
  split; [|split; [by apply Hup|split; [done|split]]].
  - unfold remove_dust. by rewrite decide_True by lia.
  - rewrite Hdown, Z.div_mul by (done || lia). done.
  - exists (share / unit). split; [by apply Hdown|]. split; [nia|]. apply Hup. unfold in_width in *. nia.
Qed.

Lemma token_amounts_roundtrip_witness :
  convert_decimal (E:=ProgramError) 1234567 6 9 = Ok 1234567000 ∧
  ∃ minted, convert_decimal (E:=ProgramError) 1999 9 6 = Ok minted ∧ minted * 1000 <= 1999 < (minted + 1) * 1000.
Proof.
  destruct (token_amounts_roundtrip 6 1234567 1999) as (_ & Hc & _ & _ & minted & Hm & Hb & _).
  - by unfold MAX_TOKEN_DECIMAL.
  - by unfold in_width.
  - by unfold in_width.
  - split; [exact Hc|]. exists minted. split; [exact Hm|exact Hb].
Defined.

(** Outside the decimals of the bridge's own tokens a conversion rate overflows. *)
Example large_rate_panics : remove_dust (E:=ProgramError) 1 255 9 = Panic.
Proof. by vm_compute. Qed.

(** * Sizes *)

Lemma copy_at_length {E} a src t t' : copy_at (E:=E) a src t = Ok t' → length t' = length t.
Proof.
  unfold copy_at. case_decide as Hl; [|done]. intros [= <-]. rewrite !length_app, length_take, length_drop. lia.
Qed.
Lemma pack_counter_length c x y : pack_counter c x = Ok y → length y = length x.
Proof. apply copy_at_length. Qed.
Lemma pack_withdrawal_length w x y : pack_withdrawal w x = Ok y → length y = length x.
Proof.
  unfold pack_withdrawal. intros Hp.
  repeat (apply obind_Ok in Hp as (? & ?%copy_at_length & Hp)). apply copy_at_length in Hp. congruence.
Qed.
Lemma pack_owner_length k x y : pack_owner k x = Ok y → length y = length x.
Proof. unfold pack_owner. case_decide; [|done]. by intros [= <-]. Qed.

(** * The runtime's rules *)

Section laws.
Context `{!L1BlockInfoProgram} `{!BridgeAddresses} `{!Pda} `{!ProgramPack} `{!ProgramUnpack} `{!Runtime}
  `{!SystemInstructions} `{!TokenPrograms} `{!Keccak} `{!EthAbi}.

Definition foreign (i : Instruction) : Prop := in_program_id i ≠ bridge_id.

(** The instructions are made for other programs than the bridge. *)
Class ForeignPrograms := {
  transfer_foreign a b v : foreign (transfer a b v);
  allocate_foreign k n : foreign (allocate k n);
  assign_foreign k o : foreign (assign k o);
  initialize_mint_foreign p m a f d i : initialize_mint p m a f d = Ok i → foreign i;
  mint_to_foreign p m a o s v i : mint_to p m a o s v = Ok i → foreign i;
  burn_foreign p a m o s v i : burn p a m o s v = Ok i → foreign i;
  set_authority_foreign p a n t o s i : set_authority p a n t o s = Ok i → foreign i;
  create_associated_foreign a b c d : foreign (create_associated_token_account a b c d);
  create_metadata_foreign a d m : foreign (create_metadata a d m);
  update_metadata_foreign a b d m : foreign (update_metadata a b d m);
}.

(** Only the owner of an account changes its data and gives it away. *)
Class OwnerRule :=
  foreign_keeps i infos seeds l k :
    foreign i → ac_owner (account_at l k) = bridge_id →
    let l' := (invoke_signed i infos seeds l).2 in
    ac_owner (account_at l' k) = bridge_id ∧ data_at l' k = data_at l k.

(** Addresses derived from seeds of different kinds differ: the counter and the withdrawals of a user
    are not the accounts of the bridge. *)
Class DerivedAddresses := {
  counter_not_owner user :
    is_key user → (user_withdrawal_counter_pubkey_and_bump bridge_id user).1 ≠ (bridge_owner_pubkey_and_bump bridge_id).1;
  counter_not_config user : is_key user → user_withdrawal_counter_pubkey user ≠ config_pubkey;
  withdrawal_not_owner user counter :
    is_key user →
    (withdrawal_transaction_pubkey_and_bump user counter bridge_id).1 ≠ (bridge_owner_pubkey_and_bump bridge_id).1;
  withdrawal_key_fresh user counter :
    is_key user →
    withdrawal_transaction_pubkey user counter ≠ user_withdrawal_counter_pubkey user ∧
    withdrawal_transaction_pubkey user counter ≠ config_pubkey ∧ withdrawal_transaction_pubkey user counter ≠ vault_pubkey;
}.

(** The system program: a transfer needs the lamports, an allocation an empty account. *)
Definition add_lamports (k : Pubkey) (v : Z) (l : Ledger) : Ledger :=
  <[k := mkAccount (ac_lamports (account_at l k) + v) (data_at l k) (ac_owner (account_at l k))]> l.
Definition transferred (a b : Pubkey) (v : Z) (l : Ledger) : Ledger := add_lamports b v (add_lamports a (- v) l).
Definition set_owner (k o : Pubkey) (l : Ledger) : Ledger :=
  <[k := mkAccount (ac_lamports (account_at l k)) (data_at l k) o]> l.
Class SystemRules := {
  transfer_Ok a b v infos seeds l l' :
    invoke_signed (transfer a b v) infos seeds l = (Ok tt, l') → v <= ac_lamports (account_at l a) ∧ l' = transferred a b v l;
  allocate_Ok k n infos seeds l l' :
    invoke_signed (allocate k n) infos seeds l = (Ok tt, l') → data_at l k = [] ∧ l' = set_data k (replicate n byte0) l;
  assign_Ok k o infos seeds l l' :
    invoke_signed (assign k o) infos seeds l = (Ok tt, l') → l' = set_owner k o l;
}.

(** * Reading the ledger *)

Lemma account_get k x l : account_at (<[k := x]> l) k = x.
Proof. unfold account_at. by rewrite lookup_insert_eq. Qed.
Lemma account_get_ne k k' x l : k ≠ k' → account_at (<[k := x]> l) k' = account_at l k'.
Proof. intros Hk. unfold account_at. by rewrite lookup_insert_ne. Qed.
Lemma data_set k d l : data_at (set_data k d l) k = d.
Proof. unfold set_data, data_at. by rewrite account_get. Qed.
Lemma data_set_ne k k' d l : k ≠ k' → data_at (set_data k d l) k' = data_at l k'.
Proof. intros Hk. unfold set_data, data_at. by rewrite account_get_ne. Qed.

(** * What every instruction respects *)

Section respects.
Context `{!ForeignPrograms} `{!OwnerRule} `{!DerivedAddresses} `{!ProgramPackLaws}.
Notation owner_key := (bridge_owner_pubkey_and_bump bridge_id).1.

Variable D : Pubkey → bytes → bytes → Prop.
Hypothesis D_pre : ∀ k, PreOrder (D k).
Hypothesis D_same_size : ∀ k x y, k ≠ owner_key → length x = length y → D k x y.

(** The accounts of the bridge stay its accounts, and their data change only as [D] says. *)
Definition kept (l l' : Ledger) : Prop :=
  ∀ k, ac_owner (account_at l k) = bridge_id → ac_owner (account_at l' k) = bridge_id ∧ D k (data_at l k) (data_at l' k).
Definition respects {A} (Q : A → Prop) (m : Handler A) : Prop :=
  ∀ l, let '(r, l') := m l in kept l l' ∧ ∀ a, r = Ok a → Q a.
Abbreviation anything := (λ _, True) (only parsing).

#[local] Instance kept_pre : PreOrder kept.
Proof.
  split.
  - intros l k Hk. by split; [|apply (D_pre k)].
  - intros l l' l'' Hl Hl' k Hk. destruct (Hl k Hk) as [Hk' Hd]. destruct (Hl' k Hk') as [? ?]. split; [done|].
    by etrans.
Qed.

Lemma respects_ret {A} (Q : A → Prop) a : Q a → respects Q (mret a).
Proof. intros Ha l. split; [done|]. by intros ? [= <-]. Qed.
Lemma respects_panic {A} (Q : A → Prop) : respects Q panic.
Proof. intros l. by split. Qed.
Lemma respects_bind {A B} (Q : A → Prop) (Q' : B → Prop) (m : Handler A) (k : A → Handler B) :
  respects Q m → (∀ a, Q a → respects Q' (k a)) → respects Q' (m ≫= k).
Proof.
  intros Hm Hk l. specialize (Hm l). rewrite bind_run. destruct (m l) as [[a|e|] l']; destruct Hm as [Hl HQ]; [|by split..].
  specialize (Hk a (HQ a eq_refl) l'). destruct (k a l') as [r l'']. destruct Hk as [Hl' Hr]. split; [by etrans|done].
Qed.
Lemma respects_lift {A} (m : outcome ProgramError A) : respects (λ a, m = Ok a) (lift m).
Proof. intros l. by split. Qed.
Lemma respects_gets {A} (f : Ledger → A) : respects anything (gets f).
Proof. intros l. by split. Qed.
Lemma respects_load {A} n f a : respects (A:=A) anything (load n f a).
Proof. intros l. by split. Qed.
Lemma respects_require b e : respects (λ _, b = true) (require b e).
Proof. intros l. destruct b; by split. Qed.
Lemma respects_weaken {A} (Q : A → Prop) (m : Handler A) : respects Q m → respects anything m.
Proof. intros Hm l. specialize (Hm l). destruct (m l) as [r l']. by destruct Hm. Qed.
Lemma respects_invoke i infos seeds : foreign i → respects anything (invoke_signed i infos seeds).
Proof.
  intros Hi l. destruct (invoke_signed i infos seeds l) as [r l'] eqn:Hr. split; [|done]. intros k Hk.
  destruct (foreign_keeps i infos seeds l k Hi Hk) as [Ho Hd]. rewrite Hr in Ho, Hd. cbn in Ho, Hd.
  split; [done|]. rewrite Hd. by apply D_pre.
Qed.
Lemma respects_invoke_optionally i infos seeds : foreign i → respects anything (invoke_optionally_signed i infos seeds).
Proof. intros Hi. destruct seeds; by apply respects_invoke. Qed.
Lemma respects_or_error {A} (o : option A) e : respects anything (or_error o e).
Proof. intros l. by split. Qed.
Lemma respects_if {A} (P : Prop) `{!Decision P} (Q : A → Prop) (m m' : Handler A) :
  respects Q m → respects Q m' → respects Q (if decide P then m else m').
Proof. intros Hm Hm'. by case_decide. Qed.

Lemma kept_set_data k y l : D k (data_at l k) y → kept l (set_data k y l).
Proof.
  intros Hd k' Hk'. unfold set_data, data_at. destruct (decide (k = k')) as [<-|Hn].
  - by rewrite account_get.
  - rewrite account_get_ne by done. split; [done|]. by apply D_pre.
Qed.
Lemma respects_store' n f a :
  (∀ x y, length x = length y → D (ar_key a) x y) → (∀ x y, f x = Ok y → length y = length x) →
  respects anything (store n f a).
Proof.
  intros HD Hf l. unfold store. destruct (decide (length (data_at l (ar_key a)) = n)) as [Hn|Hn].
  - rewrite pack_account_fits by done. destruct (f _) as [y|e|] eqn:Hy; split; try done.
    apply kept_set_data, HD. symmetry. by apply Hf.
  - by rewrite pack_account_other.
Qed.
Lemma respects_store n f a :
  ar_key a ≠ owner_key → (∀ x y, f x = Ok y → length y = length x) → respects anything (store n f a).
Proof. intros Hk. apply respects_store'. intros x y. by apply D_same_size. Qed.

(** Walk down a handler. *)
#[local] Ltac walk_step :=
  match goal with
  | |- respects _ (mret _) => by apply respects_ret
  | |- respects _ panic => apply respects_panic
  | |- respects _ (if decide _ then _ else _) => apply respects_if
  | |- respects _ (match ?l with [] => _ | _ :: _ => _ end) => destruct l
  | |- respects _ (let '(_, _) := ?p in _) => let k := fresh "k" in let b := fresh "b" in destruct p as [k b] eqn:?
  | |- respects _ (let _ := _ in _) => cbv zeta
  | |- respects _ (_ ≫= _) => eapply respects_bind; [|intros ? ?]
  | |- respects _ (lift _) => apply respects_lift
  | |- respects _ (gets _) => apply respects_gets
  | |- respects _ (load _ _ _) => apply respects_load
  | |- respects _ (require _ _) => first [apply respects_require|eapply respects_weaken, respects_require]
  | |- respects _ (or_error _ _) => apply respects_or_error
  | |- respects _ (invoke_signed _ _ _) => apply respects_invoke
  | |- respects _ (invoke _ _) => apply respects_invoke
  | |- respects _ (invoke_optionally_signed _ _ _) => apply respects_invoke_optionally
  end.
#[local] Hint Resolve transfer_foreign allocate_foreign assign_foreign initialize_mint_foreign mint_to_foreign burn_foreign
  set_authority_foreign create_associated_foreign create_metadata_foreign update_metadata_foreign : foreign.
#[local] Ltac walk := repeat walk_step; cbv beta in *; eauto with foreign.

Lemma respects_create_account n rent payer target system o ps ts :
  respects anything (create_account n rent payer target system o ps ts).
Proof. unfold create_account. walk. Qed.
#[local] Hint Resolve respects_create_account : foreign.

Lemma derived_key_not_owner {p : Pubkey * byte} {k b a} :
  p = (k, b) → cmp_pubkeys k (ar_key a) = true → p.1 ≠ owner_key → ar_key a ≠ owner_key.
Proof. unfold cmp_pubkeys. intros -> Hk%bool_decide_eq_true. by rewrite <- Hk. Qed.

Definition keys_ok (accounts : list AccountRef) : Prop := Forall (λ a, is_key (ar_key a)) accounts.
#[local] Ltac key_ok := unfold keys_ok in *; decompose_Forall_hyps; assumption.
#[local] Ltac store_ok :=
  apply respects_store;
  [match goal with
   | Hc : cmp_pubkeys ?k (ar_key ?a) = true, Hp : _ = (?k, _) |- ar_key ?a ≠ _ => apply (derived_key_not_owner Hp Hc)
   end; first [apply counter_not_owner|apply withdrawal_not_owner]; key_ok
  |by eauto using pack_counter_length, pack_withdrawal_length].

Lemma respects_deposit_eth accounts d : respects anything (deposit_eth bridge_id accounts d).
Proof. unfold deposit_eth. walk. Qed.
Lemma respects_create_spl accounts t n s u d : respects anything (create_spl bridge_id accounts t n s u d).
Proof. unfold create_spl. walk. Qed.
Lemma respects_update_spl accounts t n s u : respects anything (update_spl_metadata bridge_id accounts t n s u).
Proof. unfold update_spl_metadata. walk. Qed.
Lemma respects_deposit_erc20 accounts lt rt to v : respects anything (deposit_erc20 bridge_id accounts lt rt to v).
Proof. unfold deposit_erc20. walk. Qed.
Lemma respects_create_counter accounts :
  keys_ok accounts → respects anything (create_user_withdrawal_counter_account bridge_id accounts).
Proof. intros Hk. unfold create_user_withdrawal_counter_account. walk. store_ok. Qed.
Lemma respects_withdraw_eth accounts t v g : keys_ok accounts → respects anything (withdraw_eth bridge_id accounts t v g).
Proof. intros Hk. unfold withdraw_eth. walk. all: store_ok. Qed.
Lemma respects_withdraw_spl accounts rt to v g : keys_ok accounts → respects anything (withdraw_spl bridge_id accounts rt to v g).
Proof. intros Hk. unfold withdraw_spl. walk. all: store_ok. Qed.
Lemma respects_change_admin accounts new_admin :
  (∀ x y, length x = length y → D owner_key x y) → respects anything (change_bridge_admin bridge_id accounts new_admin).
Proof.
  intros HD. assert (∀ k x y, length x = length y → D k x y) as HD'.
  { intros k x y Hl. destruct (decide (k = owner_key)) as [->|Hn]; [by apply HD|by apply D_same_size]. }
  clear HD. unfold change_bridge_admin. walk. apply respects_store'; eauto using pack_owner_length.
Qed.

Lemma respects_instruction accounts i :
  keys_ok accounts → (∀ x y, length x = length y → D owner_key x y) ∨ (∀ new_admin, i ≠ ChangeBridgeAdmin new_admin) →
  respects anything (process_instruction bridge_id accounts i).
Proof.
  intros Hk Hi. destruct i; cbn [process_instruction]; [by apply respects_ret| | | | | | | | | |].
  - apply respects_deposit_eth.
  - by apply respects_ret.
  - by apply respects_withdraw_eth.
  - apply respects_create_spl.
  - apply respects_deposit_erc20.
  - by apply respects_withdraw_spl.
  - by apply respects_ret.
  - destruct Hi as [HD|Hn]; [by apply respects_change_admin|by destruct (Hn new_admin)].
  - by apply respects_create_counter.
  - apply respects_update_spl.
Qed.
End respects.

(** * The properties *)

Section properties.
Context `{!ForeignPrograms} `{!OwnerRule} `{!DerivedAddresses} `{!ProgramPackLaws} `{!ProgramUnpackLaws}.
Notation owner_key := (bridge_owner_pubkey_and_bump bridge_id).1.

Lemma change_bridge_admin_Ok accounts new_admin l r l' :
  change_bridge_admin bridge_id accounts new_admin l = (r, l') →
  l' = l ∨
  ∃ owner_account admin_account rest, accounts = owner_account :: admin_account :: rest ∧ r = Ok tt ∧
    ar_key owner_account = owner_key ∧ ar_is_signer admin_account = true ∧ data_at l owner_key = ar_key admin_account ∧
    l' = set_data owner_key new_admin l.
Proof.
  unfold change_bridge_admin. destruct accounts as [|oa [|aa rest]]; [by intros [= <- <-]; left..|].
  destruct (bridge_owner_pubkey_and_bump bridge_id) as [k b]. cbn [fst].
  unfold require, cmp_pubkeys. case_bool_decide as Hk; [|by intros [= <- <-]; left].
  rewrite bind_run. cbn [mret st_ret]. rewrite bind_run. unfold load. cbn [fst snd].
  destruct (unpack_account _ _ _) as [admin|e|] eqn:Hu; [|by intros [= <- <-]; left..].
  destruct (bool_decide (admin = ar_key aa)) eqn:Ha; [|by intros [= <- <-]; left].
  destruct (ar_is_signer aa) eqn:Hs; [|by intros [= <- <-]; left].
  rewrite bind_run. cbn [mret st_ret andb]. unfold store.
  destruct (pack_account _ _ _) as [data|e|] eqn:Hd; [|by intros [= <- <-]; left..].
  intros [= <- <-]. right. exists oa, aa, rest. apply bool_decide_eq_true in Ha as ->. subst k. split_and!; try done.
  - destruct (decide (length (data_at l (ar_key oa)) = OWNER_LEN)) as [Hl|Hl].
    + rewrite unpack_account_fits in Hu by done. unfold unpack_owner in Hu. case_decide; [|done]. by injection Hu.
    + by rewrite unpack_account_other in Hu.
  - f_equal. destruct (decide (length (data_at l (ar_key oa)) = OWNER_LEN)) as [Hl|Hl].
    + rewrite pack_account_fits in Hd by done. unfold pack_owner in Hd. case_decide; [|done]. by injection Hd.
    + by rewrite pack_account_other in Hd.
Qed.

(** An admin who signs hands the bridge over. *)
Lemma change_bridge_admin_signed owner_account admin_account rest new_admin l :
  ar_key owner_account = owner_key → ar_is_signer admin_account = true → data_at l owner_key = ar_key admin_account →
  is_key (ar_key admin_account) → is_key new_admin →
  change_bridge_admin bridge_id (owner_account :: admin_account :: rest) new_admin l = (Ok tt, set_data owner_key new_admin l).
Proof.
  intros Ho Hs Hd Ha Hn. unfold change_bridge_admin, is_key in *.
  destruct (bridge_owner_pubkey_and_bump bridge_id) as [k b]. cbn [fst] in *.
  unfold require, cmp_pubkeys. rewrite bool_decide_true by done. rewrite bind_run. cbn [mret st_ret].
  rewrite bind_run. unfold load. rewrite Ho, Hd, unpack_account_fits by done. unfold unpack_owner.
  rewrite decide_True by done. rewrite bool_decide_true, Hs by done. rewrite bind_run. cbn [mret st_ret andb].
  unfold store. rewrite Ho, Hd, pack_account_fits by done. unfold pack_owner. by rewrite decide_True by congruence.
Qed.

(** C21. Only the admin changes the admin: when processing anything changes the account that records
    the admin of the bridge, the instruction was [ChangeBridgeAdmin], the recorded admin had signed, and
    the account now records the admin the instruction names; and an admin who signs succeeds. *)
Theorem admin_changes_only_by_admin accounts input l r l' :
  keys_ok accounts → process bridge_id accounts input l = (r, l') → ac_owner (account_at l owner_key) = bridge_id →
  let signed_by_admin := ∃ owner_account admin_account rest,
    accounts = owner_account :: admin_account :: rest ∧ ar_key owner_account = owner_key ∧
    ar_is_signer admin_account = true ∧ data_at l owner_key = ar_key admin_account in
  (data_at l' owner_key ≠ data_at l owner_key →
     ∃ new_admin, BridgeInstruction.unpack input = Ok (ChangeBridgeAdmin new_admin) ∧ signed_by_admin ∧
       r = Ok tt ∧ data_at l' owner_key = new_admin) ∧
  (∀ new_admin, BridgeInstruction.unpack input = Ok (ChangeBridgeAdmin new_admin) → is_key new_admin → signed_by_admin →
     r = Ok tt ∧ data_at l' owner_key = new_admin).
Proof.
  intros Hk Hp Hb signed. unfold process in Hp. rewrite run_lift in Hp. split.
  - intros Hc. destruct (BridgeInstruction.unpack input) as [i|e|]; [|by injection Hp as <- <-..].
    assert ((∃ new_admin, i = ChangeBridgeAdmin new_admin) ∨ ∀ new_admin, i ≠ ChangeBridgeAdmin new_admin)
      as [[new_admin ->]|Hn] by (destruct i; eauto).
    + exists new_admin. split; [done|].
      destruct (change_bridge_admin_Ok _ _ _ _ _ Hp) as [->|(oa & aa & rest & -> & -> & Ho & Hs & Hd & ->)]; [done|].
      rewrite data_set. split; [by exists oa, aa, rest|done].
    + pose proof (respects_instruction (λ k x y, k = owner_key → x = y)) as Hr.
      specialize (Hr ltac:(intros k; split; [by intros ?|by intros ? ? ? H1' H2' Hk'; rewrite H1', H2'])
        ltac:(by intros k x y Hne _ ?) accounts i Hk ltac:(by right) l).
      rewrite Hp in Hr. destruct Hr as [Hr _]. destruct (Hr owner_key Hb) as [_ Hd]. by destruct Hc; rewrite Hd.
  - intros new_admin Hu Hn (oa & aa & rest & -> & Ho & Hs & Hd). rewrite Hu in Hp. cbn [process_instruction] in Hp.
    assert (is_key (ar_key aa)) as Ha by (unfold keys_ok in Hk; by decompose_Forall_hyps).
    rewrite change_bridge_admin_signed in Hp by done. injection Hp as <- <-. by rewrite data_set.
Qed.

(** * Successful runs *)

Context `{!SystemRules}.

Lemma require_Ok b e l a l' : require b e l = (Ok a, l') → b = true ∧ l' = l.
Proof. unfold require. destruct b; by intros [= <-]. Qed.
Lemma lift_Ok {A} (m : outcome ProgramError A) (l : Ledger) a l' : lift m l = (Ok a, l') → m = Ok a ∧ l' = l.
Proof. by intros [= -> <-]. Qed.
Lemma load_Ok {A} n f x l (a : A) l' :
  load n f x l = (Ok a, l') → l' = l ∧ length (data_at l (ar_key x)) = n ∧ f (data_at l (ar_key x)) = Ok a.
Proof.
  unfold load. intros [= Hu <-]. split; [done|].
  destruct (decide (length (data_at l (ar_key x)) = n)) as [Hn|Hn].
  - by rewrite unpack_account_fits in Hu.
  - by rewrite unpack_account_other in Hu.
Qed.
Lemma store_Ok n f x l a l' :
  store n f x l = (Ok a, l') →
  ∃ data, length (data_at l (ar_key x)) = n ∧ f (data_at l (ar_key x)) = Ok data ∧ l' = set_data (ar_key x) data l.
Proof.
  unfold store. destruct (pack_account _ _ _) as [data|e|] eqn:Hp; [|done..]. intros [= _ <-]. exists data.
  destruct (decide (length (data_at l (ar_key x)) = n)) as [Hn|Hn].
  - by rewrite pack_account_fits in Hp.
  - by rewrite pack_account_other in Hp.
Qed.
Lemma to_u64_Ok z e l a l' : or_error (to_u64 z) e l = (Ok a, l') → a = z ∧ z < 2 ^ 64 ∧ l' = l.
Proof. unfold or_error, to_u64. case_decide; [|done]. by intros [= <- <-]. Qed.
Lemma invoke_transfer_Ok a b v infos seeds l u l' :
  invoke_signed (transfer a b v) infos seeds l = (Ok u, l') → v <= ac_lamports (account_at l a) ∧ l' = transferred a b v l.
Proof. destruct u. apply transfer_Ok. Qed.

Lemma run_require {B} (b : bool) (e : BridgeError) (k : unit → Handler B) (l : Ledger) :
  (require b e ≫= k) l = if b then k tt l else (Err (bridge_error e), l).
Proof. by destruct b. Qed.
(** Past a check, or the run is refused here. *)
Ltac refused H Hb :=
  rewrite run_require in H;
  match type of H with (if ?b then _ else _) = _ => destruct b eqn:Hb end; [|by injection H as <- <-].

(** Read a successful run from its first step on. *)
Ltac run_step H :=
  let Hm := fresh "Hm" in let u := fresh "u" in let s := fresh "s" in
  apply bind_Ok in H as (u & s & Hm & H); cbv beta zeta in H;
  match type of Hm with
  | require _ _ _ = _ => apply require_Ok in Hm as [Hm ->]
  | lift _ _ = _ => apply lift_Ok in Hm as [Hm ->]
  | load _ _ _ _ = _ => apply load_Ok in Hm as (-> & ? & Hm)
  | store _ _ _ _ = _ => apply store_Ok in Hm as (? & ? & Hm & ->)
  | or_error (to_u64 _) _ _ = _ => apply to_u64_Ok in Hm as (-> & Hm & ->)
  | gets _ _ = _ => injection Hm as <- <-
  | _ => idtac
  end.
Ltac key_eq H := unfold cmp_pubkeys in H; apply bool_decide_eq_true in H.

(** What a transfer does to lamports. *)
Lemma transferred_data a b v l k : data_at (transferred a b v l) k = data_at l k.
Proof.
  unfold transferred, add_lamports, data_at. destruct (decide (b = k)) as [<-|Hb].
  - rewrite account_get. cbn. destruct (decide (a = b)) as [<-|Ha]; [by rewrite account_get|by rewrite account_get_ne].
  - rewrite account_get_ne by done. destruct (decide (a = k)) as [<-|Ha]; [by rewrite account_get|by rewrite account_get_ne].
Qed.
Lemma transferred_lamports a b v l k :
  ac_lamports (account_at (transferred a b v l) k) =
    ac_lamports (account_at l k) - (if decide (a = k) then v else 0) + (if decide (b = k) then v else 0).
Proof.
  unfold transferred, add_lamports. destruct (decide (b = k)) as [<-|Hb].
  - rewrite account_get. cbn. destruct (decide (a = b)) as [<-|Ha]; [by rewrite account_get|rewrite account_get_ne by done; lia].
  - rewrite account_get_ne by done. destruct (decide (a = k)) as [<-|Ha]; [rewrite account_get; cbn; lia|rewrite account_get_ne by done; lia].
Qed.

(** A deposit of ETH forwards exactly its value from the vault to the account it names, and only for
    the rollup's own signer and a value that keeps the account alive; refused, it changes nothing. *)
Theorem deposit_eth_spec system_account depositor vault payer rest d l r l' :
  deposit_eth bridge_id (system_account :: depositor :: vault :: payer :: rest) d l = (r, l') →
  let allowed :=
    ar_key payer = NO_SIG_TX_PAYER ∧ ar_is_signer payer = true ∧ ar_key vault = vault_pubkey ∧
    ar_key depositor = de_deposit_to d ∧ ∃ rent, rent_get = Ok rent ∧ minimum_balance rent 0 < de_value d < 2 ^ 64 in
  (¬ allowed → r ≠ Ok tt ∧ l' = l) ∧
  (r = Ok tt → allowed ∧ de_value d <= ac_lamports (account_at l vault_pubkey) ∧
     (∀ k, data_at l' k = data_at l k ∧
       ac_lamports (account_at l' k) = ac_lamports (account_at l k)
         - (if decide (vault_pubkey = k) then de_value d else 0) + (if decide (de_deposit_to d = k) then de_value d else 0))).
Proof.
  intros Hr allowed. split.
  - intros Hn. unfold deposit_eth in Hr. unfold vault_pubkey in *.
    destruct (vault_pubkey_and_bump bridge_id) as [k b]. cbn [fst] in *.
    refused Hr H1'. refused Hr H2'. refused Hr H3'.
    rewrite run_lift in Hr. destruct rent_get as [rent|e|] eqn:H4'; [|by injection Hr as <- <-..].
    unfold or_error in Hr. rewrite run_lift in Hr. unfold to_u64 in Hr. case_decide as H5'; [|by injection Hr as <- <-].
    cbn [ok_or] in Hr. refused Hr H6'. destruct Hn. unfold allowed.
    apply andb_true_iff in H1' as [H1' Hs]. key_eq H1'. key_eq H2'. key_eq H3'. apply bool_decide_eq_true in H6'.
    split_and!; try done. by exists rent.
  - intros ->. unfold deposit_eth in Hr. run_step Hr. unfold vault_pubkey in *.
    destruct (vault_pubkey_and_bump bridge_id) as [k b]. cbn [fst] in *.
    do 5 run_step Hr. apply andb_true_iff in Hm as [Hm Hs]. key_eq Hm. key_eq Hm0. key_eq Hm1. apply bool_decide_eq_true in Hm4.
    apply invoke_transfer_Ok in Hr as [Hv ->]. rewrite <- Hm1, <- Hm0 in *. split; [unfold allowed; split_and!; eauto|].
    split; [done|]. intros k'. by rewrite transferred_data, transferred_lamports.
Qed.

Lemma lamports_set_data k d l k' : ac_lamports (account_at (set_data k d l) k') = ac_lamports (account_at l k').
Proof. unfold set_data. destruct (decide (k = k')) as [<-|Hk]; [by rewrite account_get|by rewrite account_get_ne]. Qed.
Lemma owner_set_data k d l k' : ac_owner (account_at (set_data k d l) k') = ac_owner (account_at l k').
Proof. unfold set_data. destruct (decide (k = k')) as [<-|Hk]; [by rewrite account_get|by rewrite account_get_ne]. Qed.
Lemma lamports_set_owner k o l k' : ac_lamports (account_at (set_owner k o l) k') = ac_lamports (account_at l k').
Proof. unfold set_owner. destruct (decide (k = k')) as [<-|Hk]; [by rewrite account_get|by rewrite account_get_ne]. Qed.
Lemma data_set_owner k o l k' : data_at (set_owner k o l) k' = data_at l k'.
Proof.
  unfold set_owner, data_at. destruct (decide (k = k')) as [<-|Hk]; [by rewrite account_get|by rewrite account_get_ne].
Qed.

Lemma transferred_owner a b v l k : ac_owner (account_at (transferred a b v l) k) = ac_owner (account_at l k).
Proof.
  unfold transferred, add_lamports. destruct (decide (b = k)) as [<-|Hb].
  - rewrite account_get. cbn. destruct (decide (a = b)) as [<-|Ha]; [by rewrite account_get|by rewrite account_get_ne].
  - rewrite account_get_ne by done. destruct (decide (a = k)) as [<-|Ha]; [by rewrite account_get|by rewrite account_get_ne].
Qed.
Lemma invoke_optionally_Ok i infos seeds l a l' :
  invoke_optionally_signed i infos seeds l = (Ok a, l') → ∃ seeds', invoke_signed i infos seeds' l = (Ok tt, l').
Proof. destruct a. intros Hr. destruct seeds; eexists; apply Hr. Qed.

Lemma create_account_Ok n rent payer target system o ps ts l a l' :
  create_account n rent payer target system o ps ts l = (Ok a, l') →
  data_at l (ar_key target) = [] ∧ data_at l' (ar_key target) = replicate n byte0 ∧
  ac_owner (account_at l' (ar_key target)) = o ∧
  (∀ k, ar_key target ≠ k → data_at l' k = data_at l k) ∧
  (∀ k, ar_key target ≠ k → ar_key payer ≠ k → ac_lamports (account_at l' k) = ac_lamports (account_at l k)).
Proof.
  unfold create_account. intros Hr. run_step Hr.
  apply bind_Ok in Hr as (u & l1 & Ht & Hr). apply bind_Ok in Hr as (u' & l2 & Ha & Hr).
  assert ((∀ k, data_at l1 k = data_at l k) ∧
    (∀ k, ar_key target ≠ k → ar_key payer ≠ k → ac_lamports (account_at l1 k) = ac_lamports (account_at l k))) as [Hd1 Hl1].
  { case_decide; [|by injection Ht as _ <-].
    apply invoke_optionally_Ok in Ht as (seeds & [_ ->]%invoke_transfer_Ok). split; [intros k; apply transferred_data|].
    intros k Hk Hk'. rewrite transferred_lamports, !decide_False by done. lia. }
  assert (data_at l1 (ar_key target) = [] ∧ l2 = set_data (ar_key target) (replicate n byte0) l1) as [Hempty ->].
  { apply invoke_optionally_Ok in Ha as (seeds & Ha). by apply allocate_Ok in Ha. }
  assert (l' = set_owner (ar_key target) o (set_data (ar_key target) (replicate n byte0) l1)) as ->.
  { apply invoke_optionally_Ok in Hr as (seeds & Hr). by apply assign_Ok in Hr. }
  rewrite <- Hd1. split_and!; [done|by rewrite data_set_owner, data_set| | |].
  - unfold set_owner. by rewrite account_get.
  - intros k Hk. by rewrite data_set_owner, data_set_ne.
  - intros k Hk Hk'. rewrite lamports_set_owner, lamports_set_data. by apply Hl1.
Qed.

Lemma unpack_config_address src c : unpack_config src = Ok c → is_address (bc_l1_cross_domain_messenger c).
Proof.
  unfold unpack_config, is_address. intros Hc. apply obind_Ok in Hc as (a & (? & ? & _ & _ & Ha)%slice_Ok & Hc).
  apply obind_Ok in Hc as (b & _ & [= <-]). cbn. unfold len in Ha. lia.
Qed.
Lemma unpack_counter_u64 src counter : unpack_counter src = Ok counter → is_u64 counter.
Proof.
  unfold unpack_counter. intros Hc. apply obind_Ok in Hc as (a & (? & ? & _ & _ & Ha)%slice_Ok & [= <-]).
  pose proof (le_val_range a) as Hr. rewrite Ha in Hr. exact Hr.
Qed.

(** The steps of a withdrawal that succeeds. *)
Definition eth_withdrawal (counter : Z) (c : BridgeConfig) (payer : Pubkey) (target : Address) (value gas_limit : Z)
    : WithdrawalTransaction :=
  mkWithdrawalTransaction counter bridge_id (bc_l1_cross_domain_messenger c) value gas_limit
    (get_bridge_eth_calldata bridge_id (bc_l1_standard_bridge c) payer target value STANDARD_BRIDGE_CALL_GAS_LIMIT counter).
Definition created (k payer : Pubkey) (n : nat) (l l' : Ledger) : Prop :=
  data_at l k = [] ∧ data_at l' k = replicate n byte0 ∧ ac_owner (account_at l' k) = bridge_id ∧
  (∀ k', k ≠ k' → data_at l' k' = data_at l k') ∧
  (∀ k', k ≠ k' → payer ≠ k' → ac_lamports (account_at l' k') = ac_lamports (account_at l k')).
Lemma withdraw_eth_Ok system_account rent_account counter_account tx_account vault config payer rest target value
    gas_limit l u l' :
  withdraw_eth bridge_id
    (system_account :: rent_account :: counter_account :: tx_account :: vault :: config :: payer :: rest)
    target value gas_limit l = (Ok u, l') →
  let counter_key := user_withdrawal_counter_pubkey (ar_key payer) in
  MINIMAL_GAS_LIMIT <= gas_limit ∧ value < 2 ^ 64 ∧ value ≠ 0 ∧
  ∃ counter c l2 data,
    let tx_key := withdrawal_transaction_pubkey (ar_key payer) counter in
    let w := eth_withdrawal counter c (ar_key payer) target value gas_limit in
    length (data_at l counter_key) = COUNTER_LEN ∧ unpack_counter (data_at l counter_key) = Ok counter ∧ is_u64 (counter + 1) ∧
    created tx_key (ar_key payer) 568
      (transferred (ar_key payer) vault_pubkey value (set_data counter_key (le_bytes 8 (counter + 1)) l)) l2 ∧
    unpack_config (data_at l2 config_pubkey) = Ok c ∧ length (wt_data w) = 420%nat ∧
    pack_withdrawal w (data_at l2 tx_key) = Ok data ∧ l' = set_data tx_key data l2.
Proof.
  intros Hr counter_key. unfold withdraw_eth in Hr. run_step Hr. apply bool_decide_eq_true in Hm. split; [done|].
  subst counter_key. unfold user_withdrawal_counter_pubkey, withdrawal_transaction_pubkey.
  destruct (user_withdrawal_counter_pubkey_and_bump bridge_id (ar_key payer)) as [ck cb].
  run_step Hr. key_eq Hm0. run_step Hr. key_eq Hm1. run_step Hr. rename u3 into counter, Hm2 into Hcounter.
  run_step Hr. apply in_range_Ok in Hm2 as [Hcount ->]. run_step Hr.
  destruct (withdrawal_transaction_pubkey_and_bump (ar_key payer) counter bridge_id) as [tk tb] eqn:Htk.
  run_step Hr. key_eq Hm3. run_step Hr. key_eq Hm4. do 8 run_step Hr.
  apply store_Ok in Hr as (data & _ & Hdata & ->).
  apply invoke_transfer_Ok in Hm7 as [_ ->]. apply create_account_Ok in Hm9.
  split; [done|]. split; [by intros ->|]. rewrite <- Hm0, <- Hm1, <- Hm3 in *. cbn [fst].
  destruct (counter_codec (counter + 1) (data_at l ck)) as [Hpack _]; [done..|].
  rewrite Hpack in Hm2. injection Hm2 as <-.
  apply ok_or_Ok in Hm11. unfold try_array in Hm11. case_decide as Hlen; [|done]. injection Hm11 as <-.
  eexists counter, _, s0, data. rewrite Htk. cbn [fst]. split_and!; try done. by apply Nat2Z.inj in Hlen.
Qed.

(** The version of the messenger's nonces is the highest bits of 256. *)
Lemma versioned_nonce counter : is_u64 counter → encode_versioned_nonce counter = 2 ^ 240 + counter.
Proof.
  intros Hc. unfold encode_versioned_nonce. change (wrap 256 (Z.shiftl MESSAGE_VERSION 240)) with (2 ^ 240).
  assert (Z.land (2 ^ 240) counter = 0) as Hdisjoint; [|by rewrite <- Z.lxor_lor, Z.add_nocarry_lxor].
  apply Z.bits_inj'. intros n Hn. rewrite Z.land_spec, Z.pow2_bits_eqb, Z.bits_0 by lia.
  destruct (Z.eqb_spec 240 n) as [<-|]; [|done]. cbn [andb]. unfold in_width in Hc.
  apply Z.testbit_false; [lia|]. by rewrite Z.div_small by lia.
Qed.

(** C20. A withdrawal of ETH that succeeds takes the user's next number: the account derived from the
    user and that number, empty before, belongs to the bridge and records the message for L1. The
    sender of the record is the bridge program and its target the messenger of L1 (its fields are
    described as the user who withdraws and the user's address in L1); the user and the address are
    inside its calldata: relayMessage with the nonce of version 1, from the bridge program to the
    standard bridge of L1, of the value with 200000 gas, whose message is finalizeBridgeETH from the
    user to the address. The counter of the user moves on, by one and without wrapping; the vault has
    received the value; and no other data changed. *)
Theorem withdraw_eth_spec system_account rent_account counter_account tx_account vault config payer rest target value
    gas_limit l u l' :
  is_key bridge_id → is_key (ar_key payer) → ar_key payer ≠ vault_pubkey → 0 <= value → is_u128 gas_limit →
  withdraw_eth bridge_id
    (system_account :: rent_account :: counter_account :: tx_account :: vault :: config :: payer :: rest)
    target value gas_limit l = (Ok u, l') →
  let counter_key := user_withdrawal_counter_pubkey (ar_key payer) in
  MINIMAL_GAS_LIMIT <= gas_limit ∧ 0 < value < 2 ^ 64 ∧
  ∃ counter bridge_config calldata,
    let tx_key := withdrawal_transaction_pubkey (ar_key payer) counter in
    unpack_counter (data_at l counter_key) = Ok counter ∧
    unpack_config (data_at l config_pubkey) = Ok bridge_config ∧
    (let message := take 4 (keccak256 (seed "finalizeBridgeETH(bytes32,address,uint256,bytes)")) ++
       encode [TokenFixedBytes (ar_key payer); TokenAddress target; TokenUint value; TokenBytes []] in
     calldata = take 4 (keccak256 (seed "relayMessage(uint256,bytes32,address,uint256,uint256,bytes)")) ++
       encode [TokenUint (2 ^ 240 + counter); TokenFixedBytes bridge_id;
               TokenAddress (bc_l1_standard_bridge bridge_config); TokenUint value; TokenUint 200000; TokenBytes message]) ∧
    data_at l tx_key = [] ∧ ac_owner (account_at l' tx_key) = bridge_id ∧
    unpack_withdrawal 420 (data_at l' tx_key) =
      Ok (mkWithdrawalTransaction counter bridge_id (bc_l1_cross_domain_messenger bridge_config) value gas_limit calldata) ∧
    counter + 1 < 2 ^ 64 ∧ unpack_counter (data_at l' counter_key) = Ok (counter + 1) ∧
    ac_lamports (account_at l' vault_pubkey) = ac_lamports (account_at l vault_pubkey) + value ∧
    ∀ k, k ≠ tx_key → k ≠ counter_key → data_at l' k = data_at l k.
Proof.
  intros Hb Hp Hpv Hv Hg Hr counter_key. apply withdraw_eth_Ok in Hr. destruct Hr as (Hmin & Hv64 & Hv0 & Hr).
  split; [done|]. split; [lia|]. destruct Hr as (counter & c & l2 & data & Hlen & Hcounter & Hcount & Hc & Hcfg & Hcall & Hpack & ->).
  destruct (withdrawal_key_fresh (ar_key payer) counter Hp) as (Htc & Htf & Htv).
  destruct Hc as (Hempty & Hzero & Howner & Hdata & Hlam).
  assert (∀ k, withdrawal_transaction_pubkey (ar_key payer) counter ≠ k → user_withdrawal_counter_pubkey (ar_key payer) ≠ k →
    data_at l2 k = data_at l k) as Hframe.
  { intros k Hk Hk'. by rewrite Hdata, transferred_data, data_set_ne. }
  rewrite Hframe in Hcfg by (done || by apply counter_not_config).
  assert (withdrawal_wf (eth_withdrawal counter c (ar_key payer) target value gas_limit)) as Hw.
  { apply unpack_counter_u64 in Hcounter. apply unpack_config_address in Hcfg.
    unfold withdrawal_wf, eth_withdrawal, is_u128, in_width in *. cbn. split_and!; try done; lia. }
  eexists counter, c, _. split; [done|]. split; [done|].
  split; [rewrite <- versioned_nonce by (by apply unpack_counter_u64 in Hcounter); reflexivity|].
  rewrite transferred_data, data_set_ne in Hempty by done. split; [done|]. rewrite owner_set_data. split; [done|].
  rewrite data_set, data_set_ne by done. split; [|split; [apply Hcount|split; [|split]]].
  - rewrite pack_withdrawal_bytes in Hpack; [|done|by rewrite Hzero, length_replicate, Hcall].
    injection Hpack as <-. pose proof (unpack_withdrawal_bytes _ Hw) as Hu. unfold len in Hu. by rewrite Hcall in Hu.
  - rewrite Hdata, transferred_data, data_set by done. by apply (counter_codec _ (data_at l counter_key)).
  - rewrite lamports_set_data, Hlam, transferred_lamports, lamports_set_data by (done || by intros ->).
    rewrite decide_False, decide_True by done. lia.
  - intros k Hk Hk'. rewrite data_set_ne by done. by apply Hframe.
Qed.
End properties.
End laws.

(** * Examples *)

(** A runtime with the system program, whose other programs do nothing. *)
Module Local.
#[local] Existing Instances L1BlockInfo.Deployed.program L1BlockInfo.Deployed.packing L1BlockInfo.Deployed.packing_laws
  BridgeAccounts.Named.addresses.

(** 32-byte addresses that begin with the size of the seeds. *)
#[local] Instance pda : Pda := λ seeds id,
  let all := mjoin seeds in (z2b (len all) :: take 31 (all ++ replicate 31 byte0), z2b 255).
#[local] Instance unpacking : ProgramUnpack := λ A n f src,
  if decide (length src = n) then f src else Err InvalidAccountData.
#[local] Instance unpacking_laws : ProgramUnpackLaws.
Proof. split; intros A n f src Hn; unfold unpack_account, unpacking; [by rewrite decide_True|by rewrite decide_False]. Qed.

(** Integers of any size in the instructions of the system program. *)
Definition int_bytes (z : Z) : bytes :=
  bool_byte (bool_decide (z < 0)) :: be_bytes (Z.to_nat (Z.log2_up (Z.abs z + 1))) (Z.abs z).
Definition int_val (b : bytes) : Z := match b with s :: m => (if decide (s = byte1) then -1 else 1) * be_val m | [] => 0 end.
Lemma int_val_bytes z : int_val (int_bytes z) = z.
Proof.
  unfold int_val, int_bytes. rewrite be_val_be_bytes_small.
  - case_bool_decide; cbn; [rewrite decide_True by done|rewrite decide_False by done]; lia.
  - split; [lia|]. rewrite Z2Nat.id by apply Z.log2_up_nonneg.
    apply Z.lt_le_trans with (2 ^ Z.log2_up (Z.abs z + 1)).
    + destruct (decide (z = 0)) as [->|Hz]; [done|]. pose proof (Z.log2_up_spec (Z.abs z + 1)). lia.
    + apply Z.pow_le_mono_l. lia.
Qed.

#[local] Instance system : SystemInstructions := {|
  transfer a b v := mkInstruction system_program_id [meta_new a true; meta_new b false] (z2b 2 :: int_bytes v);
  allocate k n := mkInstruction system_program_id [meta_new k true] (z2b 8 :: int_bytes (Z.of_nat n));
  assign k o := mkInstruction system_program_id [meta_new k true] (z2b 1 :: o);
|}.

Definition system_run (i : Instruction) : Handler unit := λ l,
  match in_accounts i, in_data i with
  | [a; b], _ :: v =>
      if decide (int_val v <= ac_lamports (account_at l (am_pubkey a)))
      then (Ok tt, transferred (am_pubkey a) (am_pubkey b) (int_val v) l) else (Err InvalidAccountData, l)
  | [k], tag :: d =>
      if decide (data_at l (am_pubkey k) = [] ∧ b2z tag = 8 ∧ ac_owner (account_at l (am_pubkey k)) = system_program_id)
      then (Ok tt, set_data (am_pubkey k) (replicate (Z.to_nat (int_val d)) byte0) l)
      else if decide (b2z tag = 1 ∧ ac_owner (account_at l (am_pubkey k)) = system_program_id)
      then (Ok tt, set_owner (am_pubkey k) d l)
      else (Err InvalidAccountData, l)
  | _, _ => (Err InvalidAccountData, l)
  end.
#[local] Instance runtime : Runtime := {|
  invoke_signed i infos seeds := if decide (in_program_id i = system_program_id) then system_run i else mret tt;
  Rent := unit;
  rent_get := Ok tt;
  rent_from_account_info _ _ := Ok tt;
  minimum_balance _ n := (128 + Z.of_nat n) * 6960;
|}.

Definition token_instruction : Instruction := mkInstruction spl_token_id [] [].
#[local] Instance token : TokenPrograms := {|
  check_program_account k := if decide (k = spl_token_id) then Ok tt else Err InvalidAccountData;
  MINT_LEN := 82;
  unpack_mint_decimals b := index b 44;
  unpack_token_account_owner b := slice b 32 64;
  initialize_mint _ _ _ _ _ := Ok token_instruction;
  mint_to _ _ _ _ _ _ := Ok token_instruction;
  burn _ _ _ _ _ _ := Ok token_instruction;
  set_authority _ _ _ _ _ _ := Ok token_instruction;
  create_associated_token_account _ _ _ _ := token_instruction;
  create_metadata _ _ _ := token_instruction;
  update_metadata _ _ _ _ := token_instruction;
|}.
#[local] Instance keccak : Keccak := λ b, be_bytes 32 (be_val b).

#[local] Instance foreign_programs : ForeignPrograms.
Proof.
  split; unfold foreign; intros; repeat match goal with H : _ = Ok _ |- _ => injection H as <- end; vm_compute; discriminate.
Qed.

#[local] Instance owner_rule : OwnerRule.
Proof.
  intros i infos seeds l k _ Hb. cbn [invoke_signed runtime]. case_decide; [|done]. unfold system_run.
  assert (ac_owner (account_at l k) ≠ system_program_id) as Hn by (by rewrite Hb).
  destruct (in_accounts i) as [|a [|b [|]]], (in_data i) as [|tag v]; try done.
  - case_decide as Ha; [|case_decide as Ha'; [|done]].
    + destruct Ha as (_ & _ & Ha). assert (am_pubkey a ≠ k) by (by intros <-).
      cbn [snd]. by rewrite owner_set_data, data_set_ne.
    + destruct Ha' as [_ Ha']. assert (am_pubkey a ≠ k) as Hk by (by intros <-). cbn [snd].
      rewrite data_set_owner. unfold set_owner. by rewrite account_get_ne.
  - case_decide; [|done]. cbn [snd]. by rewrite transferred_data, transferred_owner.
Qed.

#[local] Instance system_rules : SystemRules.
Proof.
  split.
  - intros a b v infos seeds l l'. cbn [invoke_signed runtime transfer system in_program_id]. rewrite decide_True by done.
    unfold system_run. cbn [in_accounts in_data am_pubkey meta_new]. rewrite int_val_bytes. case_decide; [|done].
    by intros [= <-].
  - intros k n infos seeds l l'. cbn [invoke_signed runtime allocate system in_program_id]. rewrite decide_True by done.
    unfold system_run. cbn [in_accounts in_data am_pubkey meta_new]. rewrite int_val_bytes, Nat2Z.id.
    case_decide as Hd; [|by rewrite decide_False by (by intros [? _])]. intros [= <-]. by destruct Hd.
  - intros k o infos seeds l l'. cbn [invoke_signed runtime assign system in_program_id]. rewrite decide_True by done.
    unfold system_run. cbn [in_accounts in_data am_pubkey meta_new].
    rewrite decide_False by (by intros (_ & ? & _)). case_decide; [|done]. by intros [= <-].
Qed.

Lemma derived_size s s' id :
  (find_program_address s id).1 = (find_program_address s' id).1 →
  Z.of_nat (sum_list (length <$> s)) mod 256 = Z.of_nat (sum_list (length <$> s')) mod 256.
Proof.
  intros Hs. apply (f_equal (λ k, b2z (hd byte0 k))) in Hs. cbn [find_program_address pda fst hd] in Hs.
  unfold find_program_address, pda in Hs. cbn [fst hd] in Hs. rewrite !b2z_z2b in Hs. unfold len in Hs. by rewrite !length_join in Hs.
Qed.
#[local] Instance derived : DerivedAddresses.
Proof.
  split; unfold is_key, user_withdrawal_counter_pubkey, withdrawal_transaction_pubkey, config_pubkey, vault_pubkey,
    user_withdrawal_counter_pubkey_and_bump, withdrawal_transaction_pubkey_and_bump, config_pubkey_and_bump,
    vault_pubkey_and_bump, bridge_owner_pubkey_and_bump;
    [intros user Hu|intros user Hu|intros user counter Hu|intros user counter Hu; split_and!];
    intros Hk; apply derived_size in Hk; cbn [fmap list_fmap sum_list] in Hk; rewrite ?length_le_bytes, ?Hu in Hk;
    vm_compute in Hk; discriminate Hk.
Qed.

(** The ABI encoding: the static words, with the offsets of the dynamic parts, and these parts. *)
Definition pad32 (b : bytes) : bytes := b ++ replicate (Z.to_nat (- len b mod 32)) byte0.
Fixpoint encode_parts (tokens : list Token) (offset : Z) : bytes * bytes :=
  match tokens with
  | [] => ([], [])
  | t :: ts =>
      let '(word, part) :=
        match t with
        | TokenFixedBytes b => (pad32 b, [])
        | TokenAddress a => (replicate 12 byte0 ++ a, [])
        | TokenUint z => (be_bytes 32 z, [])
        | TokenBytes b => (be_bytes 32 offset, be_bytes 32 (len b) ++ pad32 b)
        end in
      let '(words, parts) := encode_parts ts (offset + len part) in (word ++ words, part ++ parts)
  end.
#[local] Instance abi : EthAbi := λ tokens,
  let '(words, parts) := encode_parts tokens (32 * len tokens) in words ++ parts.

(** A ledger with a user who has withdrawn five times. *)
Definition user : Pubkey := be_bytes 32 77.
Definition admin : Pubkey := be_bytes 32 1000.
Definition owner_key : Pubkey := (bridge_owner_pubkey_and_bump bridge_id).1.
Definition ledger : Ledger := list_to_map [
  (user, mkAccount (10 ^ 12) [] system_program_id);
  (vault_pubkey, mkAccount (10 ^ 12) [] system_program_id);
  (user_withdrawal_counter_pubkey user, mkAccount 1 (le_bytes 8 5) bridge_id);
  (config_pubkey, mkAccount 1 (be_bytes 20 7 ++ be_bytes 20 8) bridge_id);
  (owner_key, mkAccount 1 admin bridge_id)].
Definition ref (k : Pubkey) : AccountRef := mkAccountRef k false.
Definition signer (k : Pubkey) : AccountRef := mkAccountRef k true.
Definition withdraw_accounts : list AccountRef :=
  [ref system_program_id; ref rent_id; ref (user_withdrawal_counter_pubkey user); ref (withdrawal_transaction_pubkey user 5);
   ref vault_pubkey; ref config_pubkey; signer user].
Definition after_withdrawal : outcome ProgramError unit * Ledger :=
  withdraw_eth bridge_id withdraw_accounts (be_bytes 20 3) 1000 600000 ledger.
Definition admin_accounts : list AccountRef := [ref owner_key; signer admin].
Definition new_admin_input : bytes := match pack (ChangeBridgeAdmin user) with Ok b => b | _ => [] end.
End Local.
#[local] Existing Instances L1BlockInfo.Deployed.program L1BlockInfo.Deployed.packing L1BlockInfo.Deployed.packing_laws
  BridgeAccounts.Named.addresses Local.pda Local.unpacking Local.unpacking_laws Local.runtime Local.system Local.token
  Local.keccak Local.abi Local.foreign_programs Local.owner_rule Local.derived Local.system_rules.

Lemma withdraw_eth_spec_witness :
  let '(r, l') := Local.after_withdrawal in
  r = Ok tt ∧ unpack_counter (data_at l' (user_withdrawal_counter_pubkey Local.user)) = Ok 6 ∧
  ac_lamports (account_at l' vault_pubkey) = 10 ^ 12 + 1000.
Proof.
  destruct Local.after_withdrawal as [r l'] eqn:Hr.
  assert (r = Ok tt) as -> by (change r with ((r, l').1); rewrite <- Hr; vm_compute; reflexivity).
  destruct (withdraw_eth_spec (Local.ref system_program_id) (Local.ref rent_id)
    (Local.ref (user_withdrawal_counter_pubkey Local.user)) (Local.ref (withdrawal_transaction_pubkey Local.user 5))
    (Local.ref vault_pubkey) (Local.ref config_pubkey) (Local.signer Local.user) [] (be_bytes 20 3) 1000 600000
    Local.ledger tt l') as (_ & _ & counter & c & calldata & Hcounter & _ & _ & _ & _ & _ & _ & Hcounter' & Hvault & _).
  - done.
  - done.
  - vm_compute. discriminate.
  - lia.
  - unfold is_u128, in_width. lia.
  - exact Hr.
  - split; [done|]. split.
    + etrans; [exact Hcounter'|]. vm_compute in Hcounter. injection Hcounter as <-. vm_compute. reflexivity.
    + etrans; [exact Hvault|]. vm_compute. reflexivity.
Defined.

Lemma deposit_eth_spec_witness :
  let '(r, l') := deposit_eth bridge_id
    [Local.ref system_program_id; Local.ref (be_bytes 32 5); Local.ref vault_pubkey; Local.signer Local.user]
    (mkDepositETHData (be_bytes 20 0) (be_bytes 20 0) 0 1000000 0 false 0 [] 0 byte0 (be_bytes 20 0) (be_bytes 32 5) 0 [] []
       (be_bytes 20 0)) Local.ledger in
  r ≠ Ok tt ∧ l' = Local.ledger.
Proof.
  match goal with |- context [deposit_eth ?p ?a ?d ?l] => destruct (deposit_eth p a d l) as [r l'] eqn:Hr end.
  apply (deposit_eth_spec _ _ _ _ _ _ _ _ _ Hr). intros (Hk & _). vm_compute in Hk. discriminate Hk.
Defined.

Lemma keys_ok_admin : keys_ok Local.admin_accounts.
Proof. unfold keys_ok. repeat constructor. Qed.

Lemma admin_changes_only_by_admin_witness :
  data_at (process bridge_id Local.admin_accounts Local.new_admin_input Local.ledger).2 Local.owner_key = Local.user.
Proof.
  destruct (process bridge_id Local.admin_accounts Local.new_admin_input Local.ledger) as [r l'] eqn:Hp.
  destruct (admin_changes_only_by_admin Local.admin_accounts Local.new_admin_input Local.ledger r l' keys_ok_admin Hp)
    as [_ Ha].
  - by vm_compute.
  - apply (Ha Local.user).
    + by vm_compute.
    + done.
    + eexists _, _, _. split; [reflexivity|]. split; [done|]. split; [done|]. by vm_compute.
Defined.
