(* ===== verification/Native.v ===== *)
(** Solana transactions as the rollup sees them: the transactions the derivation makes
    (src/crates/primitives/src/native_tx/) and the labelled transactions of an L2 block
    (src/crates/primitives/src/l2blocks.rs).

    The transaction types of the Solana SDK are the class [SolanaSdk]; [SolanaSdkLaws] is what
    the program relies on.  [native_transaction_recognised]: the instructions the rollup derives
    are recognised in the transactions it makes, and so no user may send them;
    [block_from_entries]: a block lists the transactions of its entries in order, every batch
    behind a head that tells its length. *)
From S2P Require Import Prelude Blocks ProgramCodec L1BlockInfo BridgeInstruction BridgeAccounts.
#[local] Open Scope Z_scope.

(** * The Solana SDK *)

Record CompiledInstruction := mkCompiledInstruction { ci_program_id_index : Z; ci_data : bytes }.

Class SolanaSdk := {
  Message : Type;
  (** [Message::new_with_blockhash]. *)
  new_with_blockhash : list Instruction → option Pubkey → bytes → Message;
  num_required_signatures : Message → nat;
  account_keys : Message → list Pubkey;
  instructions : Message → list CompiledInstruction;
}.

(** [Transaction] and [VersionedTransaction]; a signature has 64 bytes. *)
Record Transaction `{!SolanaSdk} := mkTransaction { tx_signatures : list bytes; tx_message : Message }.
Arguments mkTransaction {_}.
Arguments tx_signatures {_}.
Arguments tx_message {_}.

(** Compiling keeps the instructions, in order, and needs the payer's signature. *)
Class SolanaSdkLaws `{!SolanaSdk} := {
  compiled_instructions ixs payer hash :
    Forall2 (λ (i : Instruction) c, ci_data c = in_data i ∧ 0 <= ci_program_id_index c ∧
        account_keys (new_with_blockhash ixs payer hash) !! Z.to_nat (ci_program_id_index c) = Some (in_program_id i))
      ixs (instructions (new_with_blockhash ixs payer hash));
  payer_signs ixs payer hash : is_Some payer → (0 < num_required_signatures (new_with_blockhash ixs payer hash))%nat;
}.

Section native.
Context `{!SolanaSdk} `{!L1BlockInfoProgram} `{!BridgeAddresses}.

(** * Native transactions *)

Definition SIGNATURE_BYTES : nat := 64.
(** [Transaction::new_unsigned]. *)
Definition new_unsigned (message : Message) : Transaction :=
  mkTransaction (replicate (num_required_signatures message) (replicate SIGNATURE_BYTES byte0)) message.

Definition hash_to_signature (hash : bytes) : bytes := hash ++ replicate (SIGNATURE_BYTES - 32) byte0.

Definition new_native_transaction {E} (ixs : list Instruction) (source_hash : B256) : outcome E Transaction :=
  let blockhash := source_hash in
  let message := new_with_blockhash ixs (Some NO_SIG_TX_PAYER) blockhash in
  let tx := new_unsigned message in
  match tx_signatures tx with
  | [] => Panic
  | _ :: signatures => Ok (mkTransaction (hash_to_signature blockhash :: signatures) message)
  end.

(** * Native instructions *)

(** [iter().any(..)] over a predicate that may panic. *)
Fixpoint any {E A} (p : A → outcome E bool) (l : list A) : outcome E bool :=
  match l with
  | [] => Ok false
  | x :: l => b ← p x; if b : bool then Ok true else any p l
  end.

Definition has_update_l1_block_info_instruction (tx : Transaction) : outcome Empty_set bool :=
  any (λ ix, program ← index (account_keys (tx_message tx)) (ci_program_id_index ix);
             Ok (bool_decide (program = l1_block_info_id)))
    (instructions (tx_message tx)).

Definition has_derived_bridge_instruction (tx : Transaction) : outcome Empty_set bool :=
  any (λ ix, program ← index (account_keys (tx_message tx)) (ci_program_id_index ix);
             Ok (bool_decide (program = bridge_id) &&
                 match BridgeInstruction.unpack (ci_data ix) with Ok i => is_derived i | _ => false end))
    (instructions (tx_message tx)).

Definition has_native_instruction (tx : Transaction) : outcome Empty_set bool :=
  update ← has_update_l1_block_info_instruction tx;
  if update : bool then Ok true else has_derived_bridge_instruction tx.

(** * Labelled transactions and L2 blocks *)

Inductive L2Transaction :=
| Head (length : Z) (tx : Transaction)
| Body (tx : Transaction).

Definition new_from_derived_tx (tx : Transaction) : L2Transaction := Head 1 tx.
Definition transaction (self : L2Transaction) : Transaction := match self with Head _ tx | Body tx => tx end.
Definition is_head (self : L2Transaction) : bool := match self with Head _ _ => true | Body _ => false end.
Definition batch_length (self : L2Transaction) : option Z :=
  match self with Head length _ => Some length | Body _ => None end.
Definition is_deposit_tx (self : L2Transaction) : outcome Empty_set bool := has_native_instruction (transaction self).

Inductive L2BlockError :=
| InsufficientTransactions
| UnmatchedEntriesAndTransactions.

(** The fields of [EntrySummary] that are read. *)
Record EntrySummary := mkEntrySummary { en_num_transactions : Z; en_starting_transaction_index : Z }.

Definition USIZE_MAX : Z := 2 ^ 64 - 1.
Definition saturating_add (a b : Z) : Z := Z.min (a + b) USIZE_MAX.

Definition batch_from_entry_and_block_txs (entry : EntrySummary) (block_txs : list Transaction)
    : outcome L2BlockError (list L2Transaction) :=
  if decide (en_num_transactions entry = 0) then Ok [] else
  let start_index := en_starting_transaction_index entry in
  if decide (start_index >= len block_txs) then Err InsufficientTransactions else
  let end_index := saturating_add (en_starting_transaction_index entry) (en_num_transactions entry) in
  if decide (end_index > len block_txs) then Err InsufficientTransactions else
  txs ← slice block_txs start_index end_index;
  Ok (imap (λ index tx, if decide (index = 0%nat) then Head (en_num_transactions entry) tx else Body tx) txs).

Record L2Block := mkL2Block {
  lb_previous_blockhash : string;
  lb_blockhash : string;
  lb_parent_slot : Z;
  lb_block_time : Z;
  lb_block_height : Z;
  lb_transactions : list L2Transaction;
}.

(** The confirmed block the conversion reads; the block time is an [i64]. *)
Record ConfirmedBlock := mkConfirmedBlock {
  cb_previous_blockhash : string;
  cb_blockhash : string;
  cb_parent_slot : Z;
  cb_block_time : option Z;
  cb_transactions : list Transaction;
}.

Fixpoint batches_from_entries (entries : list EntrySummary) (block_txs : list Transaction) (l2_txs : list L2Transaction)
    : outcome L2BlockError (list L2Transaction) :=
  match entries with
  | [] => Ok l2_txs
  | entry :: entries =>
      tx_batch ← batch_from_entry_and_block_txs entry block_txs;
      batches_from_entries entries block_txs (l2_txs ++ tx_batch)
  end.

Definition block_try_from (block : ConfirmedBlock) (entries : list EntrySummary) : outcome L2BlockError L2Block :=
  let block_txs := cb_transactions block in
  l2_txs ← batches_from_entries entries block_txs [];
  if decide (len l2_txs ≠ len block_txs) then Err UnmatchedEntriesAndTransactions
  else Ok (mkL2Block (cb_previous_blockhash block) (cb_blockhash block) (cb_parent_slot block)
             (wrap 64 (default 0 (cb_block_time block))) (u64_add (cb_parent_slot block) 1) l2_txs).
End native.

(** * Native transactions are recognised *)

Section recognised.
Context `{!SolanaSdk} `{!SolanaSdkLaws} `{!L1BlockInfoProgram} `{!BridgeAddresses}.

Definition derived_bridge (ix : Instruction) : bool :=
  bool_decide (in_program_id ix = bridge_id) &&
  match BridgeInstruction.unpack (in_data ix) with Ok i => is_derived i | _ => false end.
(** An instruction only the rollup may issue. *)
Definition native (ix : Instruction) : bool := bool_decide (in_program_id ix = l1_block_info_id) || derived_bridge ix.

Lemma any_Forall2 {E A B} (p : A → outcome E bool) (q : B → bool) l k :
  Forall2 (λ b a, p a = Ok (q b)) k l → any p l = Ok (existsb q k).
Proof. induction 1 as [|b a k l Hp Hl IH]; [done|]. cbn. rewrite Hp. cbn. rewrite IH. by destruct (q b). Qed.

Lemma existsb_orb {A} (p q : A → bool) l : existsb p l || existsb q l = existsb (λ x, p x || q x) l.
Proof. induction l as [|x l IH]; [done|]. cbn. rewrite <- IH. by destruct (p x), (q x), (existsb p l). Qed.

Lemma has_native_compiled ixs payer hash signatures :
  has_native_instruction (mkTransaction signatures (new_with_blockhash ixs payer hash)) = Ok (existsb native ixs).
Proof.
  pose proof (compiled_instructions ixs payer hash) as Hc.
  assert (has_update_l1_block_info_instruction (mkTransaction signatures (new_with_blockhash ixs payer hash))
    = Ok (existsb (λ ix, bool_decide (in_program_id ix = l1_block_info_id)) ixs)) as Hu.
  { apply any_Forall2. eapply Forall2_impl; [exact Hc|]. intros ix c (_ & Hi & Hk). cbn beta.
    by rewrite (proj2 (index_Ok _ _ _) (conj Hi Hk)). }
  assert (has_derived_bridge_instruction (mkTransaction signatures (new_with_blockhash ixs payer hash))
    = Ok (existsb derived_bridge ixs)) as Hd.
  { apply any_Forall2. eapply Forall2_impl; [exact Hc|]. intros ix c (Hd & Hi & Hk). cbn beta.
    rewrite (proj2 (index_Ok _ _ _) (conj Hi Hk)). unfold derived_bridge. by rewrite <- Hd. }
  unfold has_native_instruction. rewrite Hu, Hd. cbn [mbind outcome_bind].
  unfold native. rewrite <- existsb_orb. by destruct (existsb (λ ix, bool_decide _) ixs).
Qed.

(** The transaction made of some instructions carries its source hash as blockhash and in its
    first signature, and is taken for a native transaction exactly if one of the instructions is
    an update of the L1 block info or a deposit of the bridge. *)
Theorem native_transaction_recognised {E} ixs source_hash :
  length source_hash = 32%nat →
  ∃ tx signatures, new_native_transaction (E:=E) ixs source_hash = Ok tx ∧
    tx_message tx = new_with_blockhash ixs (Some NO_SIG_TX_PAYER) source_hash ∧
    tx_signatures tx = (source_hash ++ replicate 32 byte0) :: signatures ∧
    Forall (λ s, length s = SIGNATURE_BYTES) (tx_signatures tx) ∧
    is_deposit_tx (new_from_derived_tx tx) = Ok (existsb native ixs).
Proof.
  intros Hh. unfold new_native_transaction, new_unsigned. cbn [tx_signatures].
  pose proof (payer_signs ixs (Some NO_SIG_TX_PAYER) source_hash ltac:(by eexists)) as Hn.
  destruct (num_required_signatures _) as [|n]; [lia|]. cbn [replicate]. do 2 eexists. split; [reflexivity|].
  split; [done|]. split; [reflexivity|]. split.
  - constructor; [unfold hash_to_signature; rewrite length_app, Hh; done|]. by apply Forall_replicate.
  - apply has_native_compiled.
Qed.
End recognised.

(** * Blocks from entries *)

Section entries.
Context `{!SolanaSdk}.

(** The entries list the transactions from [start] on, one after the other. *)
Fixpoint consecutive (start n : Z) (entries : list EntrySummary) : Prop :=
  match entries with
  | [] => start = n
  | entry :: entries =>
      0 <= en_num_transactions entry ∧
      (en_num_transactions entry ≠ 0 → en_starting_transaction_index entry = start) ∧
      consecutive (start + en_num_transactions entry) n entries
  end.

(** A batch: its head tells its length. *)
Definition label (chunk : list Transaction) : list L2Transaction :=
  match chunk with [] => [] | tx :: txs => Head (len chunk) tx :: (Body <$> txs) end.

Lemma imap_body (n : Z) txs (k : nat) :
  imap (λ index tx, if decide (S k + index = 0)%nat then Head n tx else Body tx) txs = Body <$> txs.
Proof.
  revert k. induction txs as [|tx txs IH]; intros k; [done|]. cbn. f_equal. rewrite <- (IH (S k)).
  apply imap_ext. intros i tx' _. cbn. by replace (k + S i)%nat with (S (k + i)) by lia.
Qed.
Lemma imap_label chunk :
  imap (λ index tx, if decide (index = 0%nat) then Head (len chunk) tx else Body tx) chunk = label chunk.
Proof.
  destruct chunk as [|tx chunk]; [done|]. cbn [imap label]. f_equal. exact (imap_body (len (tx :: chunk)) chunk 0).
Qed.
Lemma transaction_label chunk : transaction <$> label chunk = chunk.
Proof. destruct chunk as [|tx chunk]; [done|]. cbn. f_equal. rewrite <- list_fmap_compose. apply list_fmap_id. Qed.

Lemma batch_run (pre chunk rest : list Transaction) (entry : EntrySummary) :
  len (pre ++ chunk ++ rest) < 2 ^ 64 → chunk ≠ [] →
  en_num_transactions entry = len chunk → en_starting_transaction_index entry = len pre →
  batch_from_entry_and_block_txs entry (pre ++ chunk ++ rest) = Ok (label chunk).
Proof.
  intros Hl Hc Hn Hs. pose proof (len_nonneg rest) as Hrest. pose proof (len_nonneg pre) as Hpre.
  assert (0 < len chunk) as Hpos by (destruct chunk; [done|]; rewrite len_cons; pose proof (len_nonneg chunk); lia).
  rewrite !len_app in Hl. unfold batch_from_entry_and_block_txs, saturating_add, USIZE_MAX. rewrite Hn, Hs.
  rewrite decide_False by lia. rewrite decide_False by (rewrite !len_app; lia).
  rewrite Z.min_l by lia. rewrite decide_False by (rewrite !len_app; lia).
  rewrite (slice_app_r pre chunk rest) by lia. cbn [mbind outcome_bind]. by rewrite imap_label.
Qed.

Lemma batches_run entries : ∀ pre rest l2_txs,
  len (pre ++ rest) < 2 ^ 64 → consecutive (len pre) (len (pre ++ rest)) entries →
  ∃ chunks, mjoin chunks = rest ∧
    len <$> chunks = List.filter (λ n, negb (n =? 0)) (en_num_transactions <$> entries) ∧
    batches_from_entries entries (pre ++ rest) l2_txs = Ok (l2_txs ++ mjoin (label <$> chunks)).
Proof.
  induction entries as [|entry entries IH]; intros pre rest l2_txs Hl Hc; cbn [consecutive] in Hc.
  - exists []. cbn. rewrite len_app in Hc. split; [symmetry; apply len_zero_nil; lia|].
    split; [done|]. by rewrite app_nil_r.
  - destruct Hc as (Hn & Hs & Hc). cbn [batches_from_entries fmap list_fmap List.filter].
    destruct (decide (en_num_transactions entry = 0)) as [H0|H0].
    + rewrite H0, Z.add_0_r in Hc. destruct (IH pre rest l2_txs Hl Hc) as (chunks & Hj & Hf & Hb).
      exists chunks. rewrite H0. cbn. split; [done|]. split; [done|].
      assert (batch_from_entry_and_block_txs entry (pre ++ rest) = Ok []) as ->
        by (unfold batch_from_entry_and_block_txs; by rewrite decide_True). cbn. by rewrite app_nil_r.
    + set (n := en_num_transactions entry) in *.
      assert (n <= len rest) as Hle.
      { clear -Hc Hn. rewrite len_app in Hc. assert (∀ es s m, consecutive s m es → s <= m) as Hmono.
        { induction es as [|e es IH]; intros s m; cbn; [lia|]. intros (? & _ & Hc'%IH). lia. }
        apply Hmono in Hc. lia. }
      assert (rest = take (Z.to_nat n) rest ++ drop (Z.to_nat n) rest) as Hr by (by rewrite take_drop).
      set (chunk := take (Z.to_nat n) rest) in *. set (rest' := drop (Z.to_nat n) rest) in *.
      assert (len chunk = n) as Hlen by (unfold chunk, len in *; rewrite length_take; lia).
      assert (chunk ≠ []) as Hne by (intros He; rewrite He, len_nil in Hlen; lia).
      rewrite Hr. rewrite (batch_run pre chunk rest' entry); [|by rewrite <- Hr|done|done|by apply Hs].
      cbn [mbind outcome_bind]. rewrite app_assoc.
      destruct (IH (pre ++ chunk) rest' (l2_txs ++ label chunk)) as (chunks & Hj & Hf & Hb).
      { by rewrite <- app_assoc, <- Hr. }
      { rewrite <- app_assoc, <- Hr, len_app, Hlen. exact Hc. }
      exists (chunk :: chunks). split; [|split].
      * change (mjoin (chunk :: chunks)) with (chunk ++ mjoin chunks). by rewrite Hj.
      * cbn. by rewrite Hlen, Hf, (proj2 (Z.eqb_neq n 0) H0).
      * rewrite Hb, <- app_assoc. done.
Qed.

(** The L2 block of a confirmed block whose entries list its transactions one after the other:
    the same transactions in the same order, cut into the batches of the non-empty entries, each
    a head that tells the length of its batch followed by bodies. *)
Theorem block_from_entries block entries :
  len (cb_transactions block) < 2 ^ 64 → consecutive 0 (len (cb_transactions block)) entries →
  ∃ l2_block chunks, block_try_from block entries = Ok l2_block ∧
    mjoin chunks = cb_transactions block ∧
    len <$> chunks = List.filter (λ n, negb (n =? 0)) (en_num_transactions <$> entries) ∧
    lb_transactions l2_block = mjoin (label <$> chunks) ∧
    transaction <$> lb_transactions l2_block = cb_transactions block.
Proof.
  intros Hl Hc. destruct (batches_run entries [] (cb_transactions block) [] Hl Hc) as (chunks & Hj & Hf & Hb).
  cbn [app] in Hb. assert (transaction <$> mjoin (label <$> chunks) = cb_transactions block) as Ht.
  { rewrite <- Hj. clear. induction chunks as [|chunk chunks IH]; [done|].
    change (transaction <$> label chunk ++ mjoin (label <$> chunks) = chunk ++ mjoin chunks).
    by rewrite fmap_app, transaction_label, IH. }
  assert (len (mjoin (label <$> chunks)) = len (cb_transactions block)) as Hlen.
  { unfold len. by rewrite <- Ht, length_fmap. }
  unfold block_try_from. rewrite Hb. cbn [mbind outcome_bind]. rewrite decide_False by (intros Hn; by rewrite Hlen in Hn).
  do 2 eexists. by split_and!.
Qed.
End entries.

(** * Examples *)

(** Messages that list the program of every instruction after the payer. *)
Module Plainly.
Record PlainMessage := mkPlainMessage { pm_keys : list Pubkey; pm_instructions : list CompiledInstruction; pm_hash : bytes }.
#[local] Instance sdk : SolanaSdk := {|
  Message := PlainMessage;
  new_with_blockhash ixs payer hash := mkPlainMessage (default [] payer :: (in_program_id <$> ixs))
    (imap (λ i ix, mkCompiledInstruction (Z.of_nat (S i)) (in_data ix)) ixs) hash;
  num_required_signatures _ := 1%nat;
  account_keys := pm_keys;
  instructions := pm_instructions;
|}.
#[local] Instance sdk_laws : SolanaSdkLaws.
Proof.
  split; [|intros; cbn; lia]. intros ixs payer hash. apply Forall2_same_length_lookup. cbn [instructions sdk new_with_blockhash pm_instructions].
  split; [by rewrite length_imap|]. intros i ix c Hi Hc. rewrite list_lookup_imap, Hi in Hc. injection Hc as <-.
  cbn [ci_data ci_program_id_index]. split; [done|]. split; [lia|]. rewrite Nat2Z.id. cbn [account_keys sdk pm_keys lookup list_lookup].
  change ((in_program_id <$> ixs) !! i = Some (in_program_id ix)). by rewrite list_lookup_fmap, Hi.
Qed.
Definition tx (n : Z) : Transaction := mkTransaction [[z2b n]] (mkPlainMessage [] [] []).
Definition confirmed : ConfirmedBlock := mkConfirmedBlock "previous" "this" 7 None [tx 1; tx 2; tx 3].
Definition entries : list EntrySummary := [mkEntrySummary 2 0; mkEntrySummary 0 99; mkEntrySummary 1 2].
End Plainly.
#[local] Existing Instances Plainly.sdk Plainly.sdk_laws BridgeAccounts.Named.addresses L1BlockInfo.Deployed.program L1BlockInfo.Deployed.pda.

Lemma native_transaction_recognised_witness :
  ∃ tx : Transaction, new_native_transaction (E:=unit) [update_instruction L1BlockInfo.Deployed.info] (replicate 32 byte1) = Ok tx ∧
    is_deposit_tx (new_from_derived_tx tx) = Ok true.
Proof.
  destruct (native_transaction_recognised (E:=unit) [update_instruction L1BlockInfo.Deployed.info] (replicate 32 byte1) eq_refl)
    as (tx & signatures & Htx & _ & _ & _ & Hd).
  exists tx. split; [exact Htx|]. by rewrite Hd.
Defined.

Lemma block_from_entries_witness :
  ∃ b, block_try_from Plainly.confirmed Plainly.entries = Ok b ∧
    transaction <$> lb_transactions b = [Plainly.tx 1; Plainly.tx 2; Plainly.tx 3].
Proof.
  destruct (block_from_entries Plainly.confirmed Plainly.entries ltac:(by vm_compute) ltac:(by vm_compute))
    as (b & chunks & Hb & _ & _ & _ & Ht).
  by exists b.
Defined.

(** Entries are taken at their word: two entries that list the same transactions pass the check of
    the lengths, and the block repeats one transaction and misses another. *)
Example entries_not_checked_for_overlap :
  (λ b, transaction <$> lb_transactions b) <$>
    block_try_from Plainly.confirmed [mkEntrySummary 2 0; mkEntrySummary 1 0] = Ok [Plainly.tx 1; Plainly.tx 2; Plainly.tx 1].
Proof. by vm_compute. Qed.
