(* ===== verification/Deposits.v ===== *)
(** Deposits: the transactions the derivation makes from the deposit events of L1
    (src/crates/primitives/src/deposit.rs).

    [derive_deposits] reads the logs of an L1 block; [derived] is the rule it implements, and
    [deposit_event_parsed] follows the fields of a deposit from the event the bridge contracts
    emit.  [alias_roundtrip] is the address alias; [source_hashes_distinct] says that equal source
    hashes of different deposits exhibit a collision of keccak256. *)
From S2P Require Import Prelude Blocks SystemConfig SpanBits Rlp NodeCodec ProgramCodec L1BlockInfo BridgeInstruction BridgeAccounts Native.
#[local] Open Scope Z_scope.

(** * Parameters *)

(** The [Display] texts of alloy's types, and hex encoding. *)
Class AlloyText := {
  address_to_string : Address → string;
  b256_to_string : B256 → string;
  hex_encode : bytes → string;
}.

(** [BigUint::to_bytes_be] of the crate num_bigint: no zeroes in front. *)
Class BigUint := to_bytes_be : Z → bytes.
Class BigUintLaws `{!BigUint} := {
  to_bytes_be_val n : 0 <= n → be_val (to_bytes_be n) = n;
  to_bytes_be_len n k : 0 <= n < 256 ^ k → 0 < k → len (to_bytes_be n) <= k;
}.

Class SanitizedSdk `{!SolanaSdk} := {
  SanitizedTransaction : Type;
  (** [SanitizedTransaction::try_from_legacy_transaction] without reserved keys; an error is its text. *)
  try_from_legacy_transaction : Transaction → outcome string SanitizedTransaction;
  to_versioned_transaction : SanitizedTransaction → Transaction;
}.

(** * Data *)

Inductive DepositError :=
| ParseDepositTxError (msg : string)
| ParseL1BlockInfoTxError (msg : string)
| InvalidPubKey
| InvalidDecimals
| InvalidTransaction (msg : string)
| InvalidNativeTransaction (msg : string)
| InvalidDomainMessenger (got : string)
| InvalidL2CrossDomainMessenger (got : string)
| InvalidL2StandardBridge (got : string)
| InvalidL1StandardBridge (got : string)
| InvalidRelaySelector (got : string)
| InvalidDepositSelector (got : string)
| InvalidDataLength.

Definition SOON_DEPOSIT_EVENT_ABI : string := "TransactionDeposited(address,bytes32,uint256,bytes)".
Definition ETH_DEPOSIT_SELECTOR : bytes := be_bytes 4 0x596a37c5.
Definition ERC20_DEPOSIT_SELECTOR : bytes := be_bytes 4 0xf73fb39c.
Definition CROSS_DOMAIN_MESSENGER_RELAY_SELECTOR : bytes := be_bytes 4 0xE5D0A3D7.
Definition SOON_BRIDGE_PUBKEY_HEX : string := "0x02c806312cb859f1bc25448e39f87aa09857d83ccb4a837df55648e000000000".
Definition USER_DEPOSIT_SOURCE_DOMAIN : Z := 0.
Definition L1_INFO_DEPOSIT_SOURCE_DOMAIN : Z := 1.

Record EthDepositData := mkEthDepositData {
  ed_from : Address;
  ed_to : Pubkey;
  ed_amount : Z;
  ed_extra_data : bytes;
}.
Record Erc20DepositData := mkErc20DepositData {
  rd_l2_contract : Pubkey;
  rd_l1_contract : Address;
  rd_from : Address;
  rd_to : Pubkey;
  rd_amount : Z;
  rd_extra_data : bytes;
}.
Inductive DepositType := ETH (data : EthDepositData) | ERC20 (data : Erc20DepositData).

Record UserDeposited := mkUserDeposited {
  ud_bridge_sender : Address;
  ud_bridge_target : string;
  ud_mint : Z;
  ud_value : Z;
  ud_gas : Z;
  ud_is_creation : bool;
  ud_l1_block_num : Z;
  ud_l1_block_hash : B256;
  ud_log_index : Z;
  ud_deposit_type : DepositType;
}.

Record ExternalData := mkExternalData {
  xd_from : Address;
  xd_to : string;
  xd_mint : Z;
  xd_value : Z;
  xd_gas : Z;
  xd_is_creation : bool;
  xd_extra_data : bytes;
}.

Record AttributesDeposited := mkAttributesDeposited {
  ad_l1_block_num : Z;
  ad_timestamp : Z;
  ad_base_fee : Z;
  ad_l1_block_hash : B256;
  ad_sequence_number : Z;
  ad_batcher_hash : Z;
  ad_fee_overhead : Z;
  ad_fee_scalar : Z;
  ad_gas : Z;
  ad_is_system_tx : bool;
}.

(** [str::to_lowercase], for the ASCII texts it is used on. *)
Definition lower_byte (b : byte) : byte := if decide (65 <= b2z b <= 90) then z2b (b2z b + 32) else b.
Definition to_lowercase (s : string) : string :=
  Strings.String.string_of_list_byte (lower_byte <$> Strings.String.list_byte_of_string s).

(** * Address aliases *)

Definition l1_to_l2_offset : Z := 0x1111000000000000000000000000000000001111.
Definition max_address_to_uint : Z := 2 ^ 160 - 1.
Definition padding_0_for_address_data (data : bytes) : bytes := replicate (20 - length data) byte0 ++ data.
(** [Address::from_slice] panics unless it is given 20 bytes. *)
Definition address_from_slice {E} (s : bytes) : outcome E Address := if decide (length s = 20%nat) then Ok s else Panic.
(** [BigUint::sub] panics below zero. *)
Definition biguint_sub {E} (a b : Z) : outcome E Z := if decide (b <= a) then Ok (a - b) else Panic.

Section alias.
Context `{!BigUint}.

Definition apply_l1_to_l2_alias {E} (l1_address : Address) : outcome E Address :=
  let l2_alias_num := be_val l1_address + l1_to_l2_offset in
  l2_alias_num ← (if decide (l2_alias_num > max_address_to_uint)
                  then n ← biguint_sub l2_alias_num max_address_to_uint; biguint_sub n 1
                  else Ok l2_alias_num);
  address_from_slice (padding_0_for_address_data (to_bytes_be l2_alias_num)).

Definition undo_l1_to_l2_alias {E} (l2_alias : Address) : outcome E Address :=
  let l2_alias_num := be_val l2_alias in
  let l2_alias_num := if decide (l2_alias_num < l1_to_l2_offset)
                      then l2_alias_num + max_address_to_uint + 1 else l2_alias_num in
  l1_num ← biguint_sub l2_alias_num l1_to_l2_offset;
  address_from_slice (padding_0_for_address_data (to_bytes_be l1_num)).
End alias.

(** * Reading an event *)

Section reading.
Context `{!AlloyText} `{!BigUint} `{!Rlp}.

(** [opaque_data.length()] is alloy_rlp's [Encodable::length]. *)
Definition extract (opaque_data : bytes) : outcome DepositError (ExternalData * bytes) :=
  if decide (string_length opaque_data < 305) then Err InvalidDataLength else
  mint ← slice opaque_data 0 32;
  value ← slice opaque_data 32 64;
  gas ← slice opaque_data 64 72;
  is_creation ← index opaque_data 72;
  relay_selector ← slice opaque_data 73 77;
  if decide (relay_selector ≠ CROSS_DOMAIN_MESSENGER_RELAY_SELECTOR) then Err (InvalidRelaySelector (hex_encode relay_selector)) else
  _ ← slice (E:=DepositError) opaque_data 77 109;
  from ← slice opaque_data 121 141;
  to ← slice opaque_data 141 173;
  _ ← slice (E:=DepositError) opaque_data 173 205;
  _ ← slice (E:=DepositError) opaque_data 205 237;
  _ ← slice (E:=DepositError) opaque_data 237 269;
  _ ← slice (E:=DepositError) opaque_data 269 301;
  deposit_selector ← slice opaque_data 301 305;
  if decide (deposit_selector ≠ ETH_DEPOSIT_SELECTOR ∧ deposit_selector ≠ ERC20_DEPOSIT_SELECTOR)
  then Err (InvalidDepositSelector (hex_encode deposit_selector)) else
  extra_data ← slice opaque_data 73 301;
  rest ← slice opaque_data 301 (len opaque_data);
  Ok (mkExternalData from (b256_to_string to) (be_val mint) (be_val value) (be_val gas)
        (negb (bool_decide (is_creation = byte0))) extra_data, rest).

Definition eth_try_from (value : bytes) : outcome DepositError EthDepositData :=
  from ← slice value 12 32;
  to ← slice value 32 64;
  amount ← slice value 64 96;
  extra_data ← slice value 96 (len value);
  Ok (mkEthDepositData from to (be_val amount) (resize 32 byte0 extra_data)).

Definition erc20_try_from (value : bytes) : outcome DepositError Erc20DepositData :=
  l2_contract ← slice value 0 32;
  l1_contract ← slice value 44 64;
  from ← slice value 76 96;
  to ← slice value 96 128;
  amount ← slice value 128 160;
  extra_data ← slice value 160 (len value);
  Ok (mkErc20DepositData l2_contract l1_contract from to (be_val amount) extra_data).

Definition deposit_type_try_from (data : bytes) : outcome DepositError DepositType :=
  selector ← slice data 0 4;
  let data := drop 4 data in
  if decide (selector = ETH_DEPOSIT_SELECTOR) then d ← eth_try_from data; Ok (ETH d)
  else if decide (selector = ERC20_DEPOSIT_SELECTOR) then d ← erc20_try_from data; Ok (ERC20 d)
  else Err (ParseDepositTxError "unknown deposit type").

(** [drain(..64)] panics when there is less. *)
Definition parse_from_log (l1_block_num : Z) (l1_block_hash : B256) (log_index : Z) (log : Log)
    (expected_bridge_sender expected_relay_sender : Address) : outcome DepositError UserDeposited :=
  opaque_data ← slice (log_data log) 64 (len (log_data log));
  topic1 ← index (log_topics log) 1;
  let bridge_sender := drop 12 topic1 in
  bridge_sender ← undo_l1_to_l2_alias bridge_sender;
  if decide (bridge_sender ≠ expected_bridge_sender) then Err (InvalidDomainMessenger (address_to_string bridge_sender)) else
  topic2 ← index (log_topics log) 2;
  let bridge_target := to_lowercase (b256_to_string topic2) in
  if decide (bridge_target ≠ SOON_BRIDGE_PUBKEY_HEX) then Err (InvalidL2CrossDomainMessenger bridge_target) else
  '(ext, data) ← extract opaque_data;
  if decide (xd_from ext ≠ expected_relay_sender) then Err (InvalidL1StandardBridge (address_to_string (xd_from ext))) else
  if decide (xd_to ext ≠ SOON_BRIDGE_PUBKEY_HEX) then Err (InvalidL2StandardBridge (xd_to ext)) else
  deposit_type ← deposit_type_try_from data;
  Ok (mkUserDeposited bridge_sender bridge_target (xd_mint ext) (xd_value ext) (xd_gas ext) (xd_is_creation ext)
        l1_block_num l1_block_hash log_index deposit_type).

(** * Deriving the deposits of a block *)

Context `{!Keccak}.
Definition deposit_event_signature : B256 := keccak256 (Strings.String.list_byte_of_string SOON_DEPOSIT_EVENT_ABI).

Section block.
Context (l1_block_num : Z) (l1_block_hash : B256) (deposit_contract l1_cross_domain_messenger l1_standard_bridge : Address).

(** The running log index and the deposits so far. *)
Definition derive_log (acc : Z * list UserDeposited) (l : Log) : outcome Empty_set (Z * list UserDeposited) :=
  let '(global_index, res) := acc in
  let curr_index := global_index in
  let global_index := u64_add global_index 1 in
  match log_topics l with
  | [] => Ok (global_index, res)
  | topic0 :: _ =>
      if decide (topic0 ≠ deposit_event_signature) then Ok (global_index, res) else
      if decide (log_address l ≠ deposit_contract) then Ok (global_index, res) else
      match parse_from_log l1_block_num l1_block_hash curr_index l l1_cross_domain_messenger l1_standard_bridge with
      | Ok user_deposit => Ok (global_index, res ++ [user_deposit])
      | Err _ => Ok (global_index, res)
      | Panic => Panic
      end
  end.
Fixpoint derive_logs (acc : Z * list UserDeposited) (logs : list Log) : outcome Empty_set (Z * list UserDeposited) :=
  match logs with
  | [] => Ok acc
  | l :: logs => acc ← derive_log acc l; derive_logs acc logs
  end.
Fixpoint derive_receipts (acc : Z * list UserDeposited) (receipts : list Receipt) : outcome Empty_set (Z * list UserDeposited) :=
  match receipts with
  | [] => Ok acc
  | r :: receipts =>
      if decide (receipt_status r = Eip658 false) then derive_receipts acc receipts
      else acc ← derive_logs acc (receipt_logs r); derive_receipts acc receipts
  end.
Definition derive_deposits (receipts : list Receipt) : outcome Empty_set (list UserDeposited) :=
  acc ← derive_receipts (0, []) receipts; Ok acc.2.
End block.
End reading.

(** * The transactions of deposits *)

(** [U256::try_into::<u128>]. *)
Definition to_u128 {E} (z : Z) (e : E) : outcome E Z := if decide (z < 2 ^ 128) then Ok z else Err e.

Section transactions.
Context `{!SolanaSdk} `{!SanitizedSdk} `{!Pda} `{!BridgeAddresses} `{!L1BlockInfoProgram} `{!Keccak}.

(** keccak256 of the domain and the hash of the L1 block and an index in it. *)
Definition source_hash_of (domain : Z) (l1_block_hash : B256) (n : Z) : B256 :=
  let input := l1_block_hash ++ replicate 24 byte0 ++ be_bytes 8 n in
  let deposit_id_hash := keccak256 input in
  let domain_input := replicate 28 byte0 ++ be_bytes 4 domain ++ deposit_id_hash in
  keccak256 domain_input.

Definition user_source_hash (self : UserDeposited) : B256 :=
  source_hash_of USER_DEPOSIT_SOURCE_DOMAIN (ud_l1_block_hash self) (ud_log_index self).
Definition attributes_source_hash (self : AttributesDeposited) : B256 :=
  source_hash_of L1_INFO_DEPOSIT_SOURCE_DOMAIN (ad_l1_block_hash self) (ad_sequence_number self).

(** [data.extra_data.try_into::<[u8; 32]>()]. *)
Definition extra_data_array (extra_data : bytes) : outcome DepositError bytes :=
  if decide (length extra_data = 32%nat) then Ok extra_data else Err (ParseDepositTxError "Invalid extra data").

Definition deposit_instruction (self : UserDeposited) : outcome DepositError Instruction :=
  match ud_deposit_type self with
  | ETH data =>
      mint ← to_u128 (ud_mint self) (ParseDepositTxError "Invalid mint");
      value ← to_u128 (ed_amount data) (ParseDepositTxError "Invalid amount");
      deposit_amount ← to_u128 (ed_amount data) (ParseDepositTxError "Invalid amount");
      extra_data ← extra_data_array (ed_extra_data data);
      deposit_eth (ud_bridge_sender self) Address_ZERO mint value (ud_gas self) (ud_is_creation self)
        (ud_l1_block_num self) (ud_l1_block_hash self) (ud_log_index self) (ed_from data) (ed_to data) deposit_amount extra_data
  | ERC20 data =>
      amount ← to_u128 (rd_amount data) (ParseDepositTxError "Invalid amount");
      deposit_erc20 (rd_l2_contract data) (rd_l1_contract data) (rd_from data) (rd_to data) amount
  end.

Definition user_to_sanitized_transaction (self : UserDeposited) : outcome DepositError SanitizedTransaction :=
  instruction ← deposit_instruction self;
  tx ← new_native_transaction [instruction] (user_source_hash self);
  map_err InvalidTransaction (try_from_legacy_transaction tx).

Definition attributes_try_from (block : BlockInfo) (sequence_number batcher_hash : Z) : outcome DepositError AttributesDeposited :=
  Ok (mkAttributesDeposited (bi_number block) (bi_timestamp block) 0 (bi_hash block) sequence_number batcher_hash 0 0 0 true).

Definition attributes_instruction (self : AttributesDeposited) : outcome DepositError Instruction :=
  fee_overhead ← to_u128 (ad_fee_overhead self) (ParseL1BlockInfoTxError "Invalid fee overhead");
  fee_scalar ← to_u128 (ad_fee_scalar self) (ParseL1BlockInfoTxError "Invalid fee scalar");
  Ok (update_instruction (mkL1BlockInfo (ad_l1_block_num self) (ad_timestamp self) (ad_base_fee self)
    (ad_l1_block_hash self) (ad_sequence_number self) (le_bytes 32 (ad_batcher_hash self)) fee_overhead fee_scalar
    (ad_gas self) (ad_is_system_tx self))).

Definition attributes_to_sanitized_transaction (self : AttributesDeposited) : outcome DepositError SanitizedTransaction :=
  instruction ← attributes_instruction self;
  tx ← new_native_transaction [instruction] (attributes_source_hash self);
  map_err InvalidTransaction (try_from_legacy_transaction tx).
End transactions.

(** * The rule for the deposits of a block *)

Section rule.
Context `{!AlloyText} `{!BigUint} `{!Rlp} `{!Keccak}.
Context (l1_block_num : Z) (l1_block_hash : B256) (deposit_contract l1_cross_domain_messenger l1_standard_bridge : Address).

(** The logs of the receipts that did not fail, in order. *)
Definition block_logs (receipts : list Receipt) : list Log :=
  concat ((λ r, if bool_decide (receipt_status r = Eip658 false) then [] else receipt_logs r) <$> receipts).
Definition is_deposit_event (l : Log) : bool :=
  bool_decide (log_topics l !! 0%nat = Some deposit_event_signature) && bool_decide (log_address l = deposit_contract).
Abbreviation parse i l := (parse_from_log l1_block_num l1_block_hash i l l1_cross_domain_messenger l1_standard_bridge).

(** Every event of the deposit contract that can be parsed, with its index among all the logs. *)
Definition derived (receipts : list Receipt) : list UserDeposited :=
  mjoin (imap (λ i l, if is_deposit_event l then match parse (Z.of_nat i) l with Ok d => [d] | _ => [] end else [])
           (block_logs receipts)).

(** The shape of an event: alloy decodes what the contract emitted, which has its indexed fields,
    and the data of a bridge deposit its fields. *)
Definition event_ok (i : Z) (l : Log) : Prop := is_deposit_event l = true → parse i l ≠ Panic.

Lemma derive_log_run i res l :
  0 <= i < 2 ^ 64 - 1 → event_ok i l →
  derive_log l1_block_num l1_block_hash deposit_contract l1_cross_domain_messenger l1_standard_bridge (i, res) l =
  Ok (i + 1, res ++ (if is_deposit_event l then match parse i l with Ok d => [d] | _ => [] end else [])).
Proof.
  intros Hi Hok. unfold derive_log, event_ok, is_deposit_event in *. rewrite u64_add_small by lia.
  destruct (log_topics l) as [|topic0 topics]; [by rewrite app_nil_r|]. cbn [lookup list_lookup] in *.
  destruct (decide (topic0 ≠ deposit_event_signature)) as [Ht|Ht].
  { rewrite bool_decide_false by (intros [= Hs]; by apply Ht). by rewrite app_nil_r. }
  apply dec_stable in Ht as ->. rewrite bool_decide_true in * by done. cbn [andb] in *.
  destruct (decide (log_address l ≠ deposit_contract)) as [Ha|Ha].
  { rewrite bool_decide_false by done. by rewrite app_nil_r. }
  apply dec_stable in Ha. rewrite bool_decide_true in * by done.
  destruct (parse i l) as [d|e|] eqn:Hp; [done|by rewrite app_nil_r|]. by destruct (Hok eq_refl).
Qed.

Lemma derive_logs_run logs : ∀ i res,
  0 <= i → i + len logs < 2 ^ 64 → (∀ j l, logs !! j = Some l → event_ok (i + Z.of_nat j) l) →
  derive_logs l1_block_num l1_block_hash deposit_contract l1_cross_domain_messenger l1_standard_bridge (i, res) logs =
  Ok (i + len logs, res ++ mjoin (imap (λ j l, if is_deposit_event l
        then match parse (i + Z.of_nat j) l with Ok d => [d] | _ => [] end else []) logs)).
Proof.
  induction logs as [|l logs IH]; intros i res Hi Hl Hok; [by cbn; rewrite app_nil_r, len_nil, Z.add_0_r|].
  rewrite len_cons in *. pose proof (len_nonneg logs). cbn [derive_logs].
  rewrite derive_log_run; [|lia|rewrite <- (Z.add_0_r i); by apply (Hok 0%nat l)]. cbn [mbind outcome_bind].
  rewrite IH; [|lia|lia|].
  - f_equal. f_equal; [lia|]. rewrite <- app_assoc. f_equal. cbn [imap]. unfold mjoin. cbn [list_join].
    rewrite Z.add_0_r. f_equal. f_equal. apply imap_ext. intros j l' _. cbn. by replace (i + Z.of_nat (S j)) with (i + 1 + Z.of_nat j) by lia.
  - intros j l' Hj. replace (i + 1 + Z.of_nat j) with (i + Z.of_nat (S j)) by lia. by apply Hok.
Qed.

Lemma derive_logs_app acc k l :
  derive_logs l1_block_num l1_block_hash deposit_contract l1_cross_domain_messenger l1_standard_bridge acc (k ++ l) =
  (acc ← derive_logs l1_block_num l1_block_hash deposit_contract l1_cross_domain_messenger l1_standard_bridge acc k;
   derive_logs l1_block_num l1_block_hash deposit_contract l1_cross_domain_messenger l1_standard_bridge acc l).
Proof.
  revert acc. induction k as [|x k IH]; intros acc; [done|]. cbn [app derive_logs].
  destruct (derive_log _ _ _ _ _ acc x); cbn [mbind outcome_bind]; [apply IH|done..].
Qed.
Lemma derive_receipts_logs receipts acc :
  derive_receipts l1_block_num l1_block_hash deposit_contract l1_cross_domain_messenger l1_standard_bridge acc receipts =
  derive_logs l1_block_num l1_block_hash deposit_contract l1_cross_domain_messenger l1_standard_bridge acc (block_logs receipts).
Proof.
  revert acc. induction receipts as [|r receipts IH]; intros acc; [done|]. unfold block_logs. cbn [derive_receipts fmap list_fmap concat].
  fold (block_logs receipts). destruct (decide (receipt_status r = Eip658 false)) as [Hr|Hr].
  - rewrite bool_decide_true by done. apply IH.
  - rewrite bool_decide_false by done. rewrite derive_logs_app.
    destruct (derive_logs _ _ _ _ _ acc (receipt_logs r)); cbn [mbind outcome_bind]; [apply IH|done..].
Qed.

(** C18. The deposits of a block are those of the events of the deposit contract that can be parsed,
    in the order of the logs of the receipts that did not fail, each with the index of its log
    among all these logs; an event that cannot be parsed is left out. *)
Theorem derive_deposits_spec receipts :
  len (block_logs receipts) < 2 ^ 64 →
  (∀ i l, block_logs receipts !! i = Some l → event_ok (Z.of_nat i) l) →
  derive_deposits l1_block_num l1_block_hash deposit_contract l1_cross_domain_messenger l1_standard_bridge receipts =
  Ok (derived receipts).
Proof.
  intros Hl Hok. unfold derive_deposits. rewrite derive_receipts_logs, derive_logs_run; [done|lia|lia|exact Hok].
Qed.
End rule.

(** * Aliases *)

Section aliases.
Context `{!BigUint} `{!BigUintLaws}.

Lemma pad_bytes {E} n : 0 <= n < 2 ^ 160 →
  address_from_slice (E:=E) (padding_0_for_address_data (to_bytes_be n)) = Ok (be_bytes 20 n).
Proof.
  intros Hn. pose proof (to_bytes_be_len n 20 Hn ltac:(lia)) as Hl.
  assert (length (padding_0_for_address_data (to_bytes_be n)) = 20%nat) as H20.
  { unfold padding_0_for_address_data. rewrite length_app, length_replicate. unfold len in Hl. lia. }
  unfold address_from_slice. rewrite decide_True by done. f_equal. rewrite <- H20. rewrite <- be_bytes_val at 1.
  f_equal. unfold padding_0_for_address_data. rewrite be_val_app, be_val_zeros, to_bytes_be_val by lia. lia.
Qed.
Lemma address_range (a : Address) : length a = 20%nat → 0 <= be_val a < 2 ^ 160.
Proof. intros Ha. pose proof (be_val_range a) as Hr. unfold len in Hr. by rewrite Ha in Hr. Qed.

Definition aliased (a : Address) : Address := be_bytes 20 ((be_val a + l1_to_l2_offset) mod 2 ^ 160).
Lemma mod_once n m : m <= n < 2 * m → 0 < m → n mod m = n - m.
Proof. intros Hn Hm. symmetry. apply Z.mod_unique with (q := 1); lia. Qed.

Lemma apply_alias {E} a : length a = 20%nat → apply_l1_to_l2_alias (E:=E) a = Ok (aliased a).
Proof.
  intros Ha%address_range. unfold apply_l1_to_l2_alias, aliased, max_address_to_uint.
  assert (0 < l1_to_l2_offset < 2 ^ 160) as Ho by (by vm_compute). unfold biguint_sub.
  destruct (decide (be_val a + l1_to_l2_offset > 2 ^ 160 - 1)) as [Hc|Hc].
  - rewrite decide_True by lia. cbn [mbind outcome_bind]. rewrite decide_True by lia. cbn [mbind outcome_bind].
    rewrite pad_bytes by lia. rewrite mod_once by lia. do 2 f_equal. lia.
  - cbn [mbind outcome_bind]. rewrite pad_bytes by lia. by rewrite Z.mod_small by lia.
Qed.
Lemma undo_alias {E} a : length a = 20%nat →
  undo_l1_to_l2_alias (E:=E) a = Ok (be_bytes 20 ((be_val a - l1_to_l2_offset) mod 2 ^ 160)).
Proof.
  intros Ha%address_range. unfold undo_l1_to_l2_alias, max_address_to_uint.
  assert (0 < l1_to_l2_offset < 2 ^ 160) as Ho by (by vm_compute). unfold biguint_sub.
  destruct (decide (be_val a < l1_to_l2_offset)) as [Hc|Hc].
  - rewrite decide_True by lia. cbn [mbind outcome_bind]. rewrite pad_bytes by lia.
    rewrite <- (Z.mod_add _ 1), Z.mod_small by lia. do 2 f_equal. lia.
  - rewrite decide_True by lia. cbn [mbind outcome_bind]. rewrite pad_bytes by lia. by rewrite Z.mod_small by lia.
Qed.
Lemma be_val_20 n : be_val (be_bytes 20 n) = n mod 2 ^ 160.
Proof. exact (be_val_bytes 20 n). Qed.

Lemma unalias a : length a = 20%nat → be_bytes 20 ((be_val (aliased a) - l1_to_l2_offset) mod 2 ^ 160) = a.
Proof.
  intros Ha. unfold aliased. rewrite be_val_20, Z.mod_mod, Zminus_mod_idemp_l by lia.
  replace (be_val a + l1_to_l2_offset - l1_to_l2_offset) with (be_val a) by lia.
  rewrite Z.mod_small by (by apply address_range). by rewrite <- Ha, be_bytes_val.
Qed.

(** The address alias is addition of the offset modulo 2^160, never panics on an address, and
    undoing it gives the address back, as does applying it to what was undone. *)
Theorem alias_roundtrip {E} a :
  length a = 20%nat →
  apply_l1_to_l2_alias (E:=E) a = Ok (aliased a) ∧
  (b ← apply_l1_to_l2_alias (E:=E) a; undo_l1_to_l2_alias b) = Ok a ∧
  (b ← undo_l1_to_l2_alias (E:=E) a; apply_l1_to_l2_alias b) = Ok a.
Proof.
  intros Ha. rewrite apply_alias, undo_alias by done. cbn [mbind outcome_bind].
  rewrite undo_alias, apply_alias by apply length_be_bytes. rewrite unalias by done. split; [done|]. split; [done|].
  unfold aliased. rewrite be_val_20, Z.mod_mod, Zplus_mod_idemp_l by lia.
  replace (be_val a - l1_to_l2_offset + l1_to_l2_offset) with (be_val a) by lia.
  rewrite Z.mod_small by (by apply address_range). rewrite <- Ha, be_bytes_val. done.
Qed.
End aliases.

(** * Source hashes *)

Lemma be_bytes_inj n a b : 0 <= a < 256 ^ Z.of_nat n → 0 <= b < 256 ^ Z.of_nat n → be_bytes n a = be_bytes n b → a = b.
Proof. intros Ha Hb He. by rewrite <- (be_val_be_bytes_small n a), <- (be_val_be_bytes_small n b), He. Qed.

(** Source hashes tell deposits apart: when the L1 info deposit or the user deposit of some L1
    block and index has the source hash of another one, keccak256 has a collision among the
    hashed words. *)
Theorem source_hashes_distinct `{!Keccak} (d d' : Z) (h h' : B256) (n n' : Z) :
  d ∈ [USER_DEPOSIT_SOURCE_DOMAIN; L1_INFO_DEPOSIT_SOURCE_DOMAIN] →
  d' ∈ [USER_DEPOSIT_SOURCE_DOMAIN; L1_INFO_DEPOSIT_SOURCE_DOMAIN] →
  length h = 32%nat → length h' = 32%nat → is_u64 n → is_u64 n' →
  source_hash_of d h n = source_hash_of d' h' n' →
  (d = d' ∧ h = h' ∧ n = n') ∨ ∃ x y, x ≠ y ∧ keccak256 x = keccak256 y.
Proof.
  intros Hd Hd' Hh Hh' Hn Hn' Hs. unfold source_hash_of in Hs.
  match type of Hs with keccak256 ?x = keccak256 ?y => destruct (decide (x = y)) as [Ho|Hne]; [|right; by exists x, y] end.
  apply app_inv_head in Ho. apply app_inj_1 in Ho as [Hdom Hi]; [|by rewrite !length_be_bytes].
  match type of Hi with keccak256 ?x = keccak256 ?y => destruct (decide (x = y)) as [Hx|Hne]; [|right; by exists x, y] end.
  left. apply app_inj_1 in Hx as [-> Hx]; [|by rewrite Hh, Hh']. apply app_inv_head in Hx.
  split; [|split; [done|by apply (be_bytes_inj 8)]].
  apply (be_bytes_inj 4 d d'); [..|done]; clear -Hd Hd'; set_unfold; intuition subst; by vm_compute.
Qed.

(** * The event of a bridge deposit *)

(** A deposit, as the bridge contracts of L1 send it: a call of the standard bridge on L2, in a
    message of the cross-domain messenger, in a transaction of the portal. *)
Record BridgeDeposit := mkBridgeDeposit {
  bd_mint : Z;
  bd_value : Z;
  bd_gas : Z;
  bd_is_creation : bool;
  bd_nonce : Z;
  bd_message_value : Z;
  bd_min_gas : Z;
  bd_type : DepositType;
}.

Definition address_word (a : Address) : bytes := replicate 12 byte0 ++ a.
(** The call of [finalizeBridgeETH] or [finalizeBridgeERC20], and its padding. *)
Definition bridge_selector (t : DepositType) : bytes :=
  match t with ETH _ => ETH_DEPOSIT_SELECTOR | ERC20 _ => ERC20_DEPOSIT_SELECTOR end.
Definition bridge_args (t : DepositType) : bytes :=
  match t with
  | ETH d => address_word (ed_from d) ++ ed_to d ++ be_bytes 32 (ed_amount d) ++ ed_extra_data d
  | ERC20 d => rd_l2_contract d ++ address_word (rd_l1_contract d) ++ address_word (rd_from d) ++
      rd_to d ++ be_bytes 32 (rd_amount d) ++ rd_extra_data d
  end.
Definition bridge_call (t : DepositType) : bytes := bridge_selector t ++ bridge_args t.
Definition opaque_data_of (bridge_key : B256) (l1_standard_bridge : Address) (d : BridgeDeposit) : bytes :=
  be_bytes 32 (bd_mint d) ++ be_bytes 32 (bd_value d) ++ be_bytes 8 (bd_gas d) ++ [bool_byte (bd_is_creation d)] ++
  CROSS_DOMAIN_MESSENGER_RELAY_SELECTOR ++ be_bytes 32 (bd_nonce d) ++ address_word l1_standard_bridge ++ bridge_key ++
  be_bytes 32 (bd_message_value d) ++ be_bytes 32 (bd_min_gas d) ++ be_bytes 32 0xC0 ++
  be_bytes 32 (len (bridge_call (bd_type d))) ++ bridge_call (bd_type d).

Definition bridge_type_wf (t : DepositType) : Prop :=
  match t with
  | ETH d => is_address (ed_from d) ∧ is_key (ed_to d) ∧ 0 <= ed_amount d < 2 ^ 256
  | ERC20 d => is_key (rd_l2_contract d) ∧ is_address (rd_l1_contract d) ∧ is_address (rd_from d) ∧ is_key (rd_to d) ∧
      0 <= rd_amount d < 2 ^ 256
  end.
Definition bridge_deposit_wf (d : BridgeDeposit) : Prop :=
  0 <= bd_mint d < 2 ^ 256 ∧ 0 <= bd_value d < 2 ^ 256 ∧ is_u64 (bd_gas d) ∧ bridge_type_wf (bd_type d).

(** An ETH deposit keeps 32 bytes of extra data. *)
Definition kept (t : DepositType) : DepositType :=
  match t with
  | ETH d => ETH (mkEthDepositData (ed_from d) (ed_to d) (ed_amount d) (resize 32 byte0 (ed_extra_data d)))
  | ERC20 d => ERC20 d
  end.

(** The fields of a concatenation, by their number. *)
Lemma slice_chunk {E} (chunks : list bytes) i k a b :
  chunks !! i = Some k → a = len (concat (take i chunks)) → b = a + len k → slice (E:=E) (concat chunks) a b = Ok k.
Proof.
  intros Hi -> ->. rewrite <- (take_drop_middle chunks i k Hi) at 1. rewrite concat_app. cbn [concat].
  pose proof (len_nonneg (concat (take i chunks))). pose proof (len_nonneg k).
  unfold slice. rewrite decide_True by (rewrite ?len_app; pose proof (len_nonneg (concat (drop (S i) chunks))); lia).
  f_equal. rewrite drop_app_length' by (unfold len; lia). apply take_app_length'. unfold len. lia.
Qed.
Lemma slice_chunks {E} (chunks : list bytes) i a :
  a = len (concat (take i chunks)) → slice (E:=E) (concat chunks) a (len (concat chunks)) = Ok (concat (drop i chunks)).
Proof.
  intros ->. assert (concat chunks = concat (take i chunks) ++ concat (drop i chunks)) as ->
    by (by rewrite <- concat_app, take_drop).
  apply slice_suffix.
Qed.
Ltac bytes_len := unfold is_address, is_key, address_word, bool_byte, CROSS_DOMAIN_MESSENGER_RELAY_SELECTOR, len in *; cbn [take concat];
  rewrite ?length_app, ?length_replicate, ?length_be_bytes; cbn [length]; lia.
(** Reads field number [i], from [a] to [b]. *)
Ltac field i a b := erewrite (slice_chunk _ i _ a b); [|reflexivity|bytes_len|bytes_len]; cbn [mbind outcome_bind].
Ltac field_rest i a := rewrite (slice_chunks _ i a) by bytes_len; cbn [drop concat mbind outcome_bind].

Lemma bridge_call_parsed t : bridge_type_wf t → deposit_type_try_from (bridge_call t) = Ok (kept t).
Proof.
  intros Hw. unfold deposit_type_try_from. unfold bridge_call.
  destruct t as [d|d]; cbn [bridge_selector bridge_args kept bridge_type_wf] in *.
  - destruct Hw as (Hf & Ht & Ha). rewrite (slice_app ETH_DEPOSIT_SELECTOR) by done. cbn [mbind outcome_bind].
    rewrite decide_True by done. rewrite (drop_app_length' ETH_DEPOSIT_SELECTOR) by done.
    unfold eth_try_from. 
    replace (address_word (ed_from d) ++ _) with (concat [replicate 12 byte0; ed_from d; ed_to d; be_bytes 32 (ed_amount d); ed_extra_data d])
      by (unfold address_word; cbn [concat]; rewrite app_nil_r, <- app_assoc; done).
    field 1%nat 12 32. field 2%nat 32 64. field 3%nat 64 96. field_rest 4%nat 96.
    rewrite app_nil_r, be_val_be_bytes_small by done. done.
  - destruct Hw as (Hl & Hl1 & Hf & Ht & Ha). rewrite (slice_app ERC20_DEPOSIT_SELECTOR) by done. cbn [mbind outcome_bind].
    rewrite decide_False, decide_True by done. rewrite (drop_app_length' ERC20_DEPOSIT_SELECTOR) by done.
    unfold erc20_try_from.
    replace (rd_l2_contract d ++ _) with (concat [rd_l2_contract d; replicate 12 byte0; rd_l1_contract d; replicate 12 byte0; rd_from d; rd_to d; be_bytes 32 (rd_amount d); rd_extra_data d])
      by (unfold address_word; cbn [concat]; rewrite app_nil_r, <- !app_assoc; done).
    field 0%nat 0 32. field 2%nat 44 64. field 4%nat 76 96. field 5%nat 96 128. field 6%nat 128 160. field_rest 7%nat 160.
    rewrite app_nil_r, be_val_be_bytes_small by done. by destruct d.
Qed.

Lemma index_second {E A} (x y : A) l : index (E:=E) (x :: y :: l) 1 = Ok y.
Proof. by apply (index_app [x] l y). Qed.
Lemma index_third {E A} (x y z : A) l : index (E:=E) (x :: y :: z :: l) 2 = Ok z.
Proof. by apply (index_app [x; y] l z). Qed.
Lemma index_chunk {E} (chunks : list bytes) i x a :
  chunks !! i = Some [x] → a = len (concat (take i chunks)) → index (E:=E) (concat chunks) a = Ok x.
Proof.
  intros Hi ->. rewrite <- (take_drop_middle chunks i _ Hi) at 1. rewrite concat_app. by apply index_app.
Qed.

Section event.
Context `{!AlloyText} `{!BigUint} `{!BigUintLaws} `{!Rlp} `{!RlpLaws}.
Context (bridge_key : B256) (l1_cross_domain_messenger l1_standard_bridge : Address).
Context (Hkey : is_key bridge_key) (Htext : b256_to_string bridge_key = SOON_BRIDGE_PUBKEY_HEX).
Context (Hmessenger : is_address l1_cross_domain_messenger) (Hbridge : is_address l1_standard_bridge).

Definition opaque_chunks (d : BridgeDeposit) : list bytes :=
  [be_bytes 32 (bd_mint d); be_bytes 32 (bd_value d); be_bytes 8 (bd_gas d); [bool_byte (bd_is_creation d)];
   CROSS_DOMAIN_MESSENGER_RELAY_SELECTOR; be_bytes 32 (bd_nonce d); replicate 12 byte0; l1_standard_bridge; bridge_key;
   be_bytes 32 (bd_message_value d); be_bytes 32 (bd_min_gas d); be_bytes 32 0xC0;
   be_bytes 32 (len (bridge_call (bd_type d))); bridge_selector (bd_type d); bridge_args (bd_type d)].

Lemma opaque_data_chunks d : opaque_data_of bridge_key l1_standard_bridge d = concat (opaque_chunks d).
Proof.
  unfold opaque_data_of, opaque_chunks, address_word, bridge_call. cbn [concat]. rewrite app_nil_r, <- !app_assoc. done.
Qed.
Lemma selector_len t : length (bridge_selector t) = 4%nat.
Proof. by destruct t. Qed.

Lemma extract_opaque d :
  bridge_deposit_wf d → rlp_size (len (opaque_data_of bridge_key l1_standard_bridge d)) →
  ∃ xs, extract (opaque_data_of bridge_key l1_standard_bridge d) =
    Ok (mkExternalData l1_standard_bridge SOON_BRIDGE_PUBKEY_HEX (bd_mint d) (bd_value d) (bd_gas d) (bd_is_creation d) xs,
        bridge_call (bd_type d)).
Proof.
  intros (Hm & Hv & Hg & Hw) Hs. pose proof (selector_len (bd_type d)) as Hsel.
  rewrite opaque_data_chunks in *. unfold extract, opaque_chunks in *.
  match type of Hs with rlp_size (len ?x) => assert (305 <= len x) as Hlen by bytes_len end.
  rewrite decide_False by (rewrite string_length_spec, string_len by (done || lia);
    match type of Hs with rlp_size ?n => pose proof (length_of_length_range n Hs) end; lia).
  field 0%nat 0 32. field 1%nat 32 64. field 2%nat 64 72.
  erewrite (index_chunk _ 3%nat _ 72); [|reflexivity|bytes_len]. cbn [mbind outcome_bind].
  field 4%nat 73 77. rewrite decide_False by (intros Hn; by apply Hn). cbn [mbind outcome_bind].
  field 5%nat 77 109. field 7%nat 121 141. field 8%nat 141 173. field 9%nat 173 205. field 10%nat 205 237.
  field 11%nat 237 269. field 12%nat 269 301. field 13%nat 301 305.
  rewrite decide_False by (destruct (bd_type d); cbn; tauto).
  match goal with |- context [slice ?l 73 301] => destruct (slice_total (E:=DepositError) l 73 301) as (xs & -> & _); [lia|lia|] end.
  cbn [mbind outcome_bind]. field_rest 13%nat 301. exists xs. rewrite Htext, app_nil_r.
  rewrite !be_val_be_bytes_small by done. by destruct (bd_is_creation d).
Qed.

(** The log of a deposit: its topics are the event, the sender under its L2 alias, the bridge and
    the version; its data is the offset and length of the opaque data, and the data. *)
Definition deposit_log (contract : Address) (signature : B256) (version : list B256) (prefix : bytes) (d : BridgeDeposit) : Log :=
  mkLog contract (signature :: address_word (aliased l1_cross_domain_messenger) :: bridge_key :: version)
    (prefix ++ opaque_data_of bridge_key l1_standard_bridge d).

(** C19. A deposit that goes from the bridge contracts of L1 through their messenger is read back
    from its event: sender, target, mint, value, gas, kind and each field of the bridge call,
    whatever the nonce, the gas limit and the message value; of an ETH deposit's extra data, 32
    bytes, padded with zeroes, are kept. *)
Theorem deposit_event_parsed contract signature version prefix d number hash i :
  length prefix = 64%nat → bridge_deposit_wf d → rlp_size (len (opaque_data_of bridge_key l1_standard_bridge d)) →
  parse_from_log number hash i (deposit_log contract signature version prefix d) l1_cross_domain_messenger l1_standard_bridge =
  Ok (mkUserDeposited l1_cross_domain_messenger SOON_BRIDGE_PUBKEY_HEX (bd_mint d) (bd_value d) (bd_gas d) (bd_is_creation d)
        number hash i (kept (bd_type d))).
Proof.
  intros Hp Hw Hs. unfold parse_from_log, deposit_log. cbn [log_data log_topics].
  assert (64 = len prefix) as -> by (unfold len; lia). rewrite slice_suffix. cbn [mbind outcome_bind].
  rewrite index_second. cbn [mbind outcome_bind]. unfold address_word. rewrite (drop_app_length' (replicate 12 byte0)) by done.
  rewrite undo_alias by apply length_be_bytes. cbn [mbind outcome_bind].
  replace (be_bytes 20 _) with l1_cross_domain_messenger by (symmetry; by apply unalias).
  rewrite decide_False by (intros Hn; by apply Hn). rewrite index_third. cbn [mbind outcome_bind].
  rewrite Htext. change (to_lowercase SOON_BRIDGE_PUBKEY_HEX) with SOON_BRIDGE_PUBKEY_HEX.
  rewrite decide_False by (intros Hn; by apply Hn). destruct (extract_opaque d Hw Hs) as [xs ->]. cbn [mbind outcome_bind xd_from xd_to].
  rewrite !decide_False by (intros Hn; by apply Hn). rewrite bridge_call_parsed by apply Hw. done.
Qed.
End event.

(** * Examples *)

Module Texts.
#[local] Instance text : AlloyText := {|
  address_to_string _ := "0x";
  b256_to_string h := if decide (h = replicate 32 byte1) then SOON_BRIDGE_PUBKEY_HEX else "0x";
  hex_encode _ := EmptyString;
|}.
#[local] Instance biguint : BigUint := λ n, be_bytes (Z.to_nat (Z.log2 n / 8 + 1)) n.
#[local] Instance biguint_laws : BigUintLaws.
Proof.
  assert (∀ n, 0 <= Z.log2 n / 8) as Hl by (intros n; apply Z.div_pos; [apply Z.log2_nonneg|lia]).
  split; unfold to_bytes_be, biguint.
  - intros n Hn. rewrite be_val_bytes. pose proof (Hl n). apply Z.mod_small. split; [done|].
    rewrite Z2Nat.id by lia. destruct (decide (n = 0)) as [->|Hz]; [done|].
    change 256 with (2 ^ 8). rewrite <- Z.pow_mul_r by lia. apply Z.log2_lt_pow2; [lia|].
    pose proof (Z.div_mod (Z.log2 n) 8 ltac:(lia)). pose proof (Z.mod_pos_bound (Z.log2 n) 8 ltac:(lia)). lia.
  - intros n k Hn Hk. unfold len. rewrite length_be_bytes. pose proof (Hl n). rewrite Z2Nat.id by lia.
    destruct (decide (n = 0)) as [->|Hz]; [change (Z.log2 0 / 8 + 1) with 1; lia|]. change 256 with (2 ^ 8) in Hn. rewrite <- Z.pow_mul_r in Hn by lia.
    assert (Z.log2 n < 8 * k) by (apply Z.log2_lt_pow2; lia). assert (Z.log2 n / 8 < k) by (apply Z.div_lt_upper_bound; lia). lia.
Qed.
#[local] Instance keccak : Keccak := λ s, be_bytes 32 (be_val s).
Definition contract : Address := be_bytes 20 0xC0.
Definition messenger : Address := be_bytes 20 0x4200.
Definition bridge : Address := be_bytes 20 0x4300.
Definition key : B256 := replicate 32 byte1.
Definition deposit : BridgeDeposit :=
  mkBridgeDeposit 5 7 200000 false 1 5 100 (ETH (mkEthDepositData (be_bytes 20 1) (be_bytes 32 2) 5 [byte1])).
Definition event : Log := deposit_log key messenger bridge contract deposit_event_signature [replicate 32 byte0] (replicate 64 byte0) deposit.
Definition other : Log := mkLog contract [replicate 32 byte0] [].
Definition receipts : list Receipt :=
  [mkReceipt (Eip658 true) [other; event]; mkReceipt (Eip658 false) [event]; mkReceipt (Eip658 true) [other; event]].
(** A log like [event], whose opaque data ends after the lengths of the message. *)
Definition cut_event (n : nat) : Log := mkLog contract (log_topics event) (take (64 + n) (log_data event)).
End Texts.
#[local] Existing Instances Texts.text Texts.biguint Texts.biguint_laws Texts.keccak.

Lemma derive_deposits_spec_witness :
  derive_deposits 9 (replicate 32 byte0) Texts.contract Texts.messenger Texts.bridge Texts.receipts =
    Ok (derived 9 (replicate 32 byte0) Texts.contract Texts.messenger Texts.bridge Texts.receipts) ∧
  ud_log_index <$> derived 9 (replicate 32 byte0) Texts.contract Texts.messenger Texts.bridge Texts.receipts = [1; 3].
Proof.
  split; [|by vm_compute].
  apply (derive_deposits_spec 9 (replicate 32 byte0) Texts.contract Texts.messenger Texts.bridge Texts.receipts); [done|].
  intros i l Hl Hd Hp. do 4 (destruct i as [|i]; [injection Hl as <-; first [clear Hd; vm_compute in Hp; discriminate|clear Hp; vm_compute in Hd; discriminate]|]). done.
Defined.

Lemma alias_roundtrip_witness :
  (b ← apply_l1_to_l2_alias (E:=unit) Texts.messenger; undo_l1_to_l2_alias b) = Ok Texts.messenger.
Proof. exact (proj1 (proj2 (alias_roundtrip (E:=unit) Texts.messenger eq_refl))). Defined.

Lemma source_hashes_distinct_witness :
  let h := be_bytes 32 7 in ∃ d n d' n',
    source_hash_of d h n = source_hash_of d' h n' ∧
    ((d = d' ∧ h = h ∧ n = n') ∨ ∃ x y : bytes, x ≠ y ∧ keccak256 x = keccak256 y).
Proof.
  intros h. exists 1, 3, 1, 3. split; [done|].
  apply (source_hashes_distinct 1 1 h h 3 3); [by right; left|by right; left|done|done|by vm_compute|by vm_compute|done].
Defined.

Lemma deposit_event_parsed_witness :
  parse_from_log 9 (replicate 32 byte0) 1 Texts.event Texts.messenger Texts.bridge =
  Ok (mkUserDeposited Texts.messenger SOON_BRIDGE_PUBKEY_HEX 5 7 200000 false 9 (replicate 32 byte0) 1
        (ETH (mkEthDepositData (be_bytes 20 1) (be_bytes 32 2) 5 (byte1 :: replicate 31 byte0)))).
Proof.
  apply (deposit_event_parsed Texts.key Texts.messenger Texts.bridge ltac:(by vm_compute) ltac:(by vm_compute) ltac:(by vm_compute) ltac:(by vm_compute)
    Texts.contract deposit_event_signature [replicate 32 byte0] (replicate 64 byte0) Texts.deposit 9 (replicate 32 byte0) 1);
    [done|unfold bridge_deposit_wf; split_and!; by vm_compute|by vm_compute].
Defined.

(** The length check counts the RLP header of the data: 302 bytes pass it, and the slice that reads
    the selector panics; 301 are refused. *)
Example short_event_panics :
  parse_from_log 9 (replicate 32 byte0) 1 (Texts.cut_event 301) Texts.messenger Texts.bridge = Err InvalidDataLength ∧
  parse_from_log 9 (replicate 32 byte0) 1 (Texts.cut_event 302) Texts.messenger Texts.bridge = Panic ∧
  derive_deposits 9 (replicate 32 byte0) Texts.contract Texts.messenger Texts.bridge
    [mkReceipt (Eip658 true) [Texts.cut_event 302]] = Panic.
Proof. split_and!; by vm_compute. Qed.
