(* ===== verification/Attributes.v ===== *)
(** Attributes: the payload attributes of the next L2 block
    (src/crates/derive/src/attributes/stateful.rs, primitives/src/derive.rs).

    [payload_attributes_spec]: a payload is determined by the L1 block of its epoch and the system
    config of its parent: the L1 info transaction, and in the first block of an epoch the
    transactions of the deposits of the L1 block.  The builder is an [AttributesBuilder] of the
    pipeline ([AttributesBuilderLaws]); [large_deposit_halts] says that a deposit of 2^128 tokens
    or more stops the derivation. *)
From S2P Require Import Prelude Blocks SystemConfig Types L1Traversal SingleBatch Batch BatchQueue AttributesQueue SpanBits Rlp NodeCodec ProgramCodec L1BlockInfo BridgeInstruction BridgeAccounts Native Deposits.
#[local] Open Scope Z_scope.

(** [bincode::serialize]; an error is its text. *)
Class L2TxCodec `{!SolanaSdk} := bincode_serialize : L2Transaction → outcome string bytes.

(** The [Display] texts of errors. *)
Class ErrorTexts (L1P L2P : Type) `{!ChainProvider L1P} `{!L2ChainProvider L2P} := {
  l1_error_to_string : l1_error (F:=L1P) → string;
  l2_error_to_string : l2_error (F:=L2P) → string;
  deposit_error_to_string : DepositError → string;
}.

(** * The builder *)

Record StatefulAttributesBuilder (L1P L2P : Type) := mkStatefulAttributesBuilder {
  rollup_cfg : SoonRollupConfig;
  config_fetcher : L2P;
  receipts_fetcher : L1P;
}.
Arguments mkStatefulAttributesBuilder {L1P L2P}.
Arguments rollup_cfg {L1P L2P}.
Arguments config_fetcher {L1P L2P}.
Arguments receipts_fetcher {L1P L2P}.

Definition set_config_fetcher {L1P L2P} (f : L2P) (self : StatefulAttributesBuilder L1P L2P) : StatefulAttributesBuilder L1P L2P :=
  mkStatefulAttributesBuilder (rollup_cfg self) f (receipts_fetcher self).
Definition new {L1P L2P} (rcfg : SoonRollupConfig) (sys_cfg_fetcher : L2P) (receipts : L1P) : StatefulAttributesBuilder L1P L2P :=
  mkStatefulAttributesBuilder rcfg sys_cfg_fetcher receipts.

Definition SEQUENCER_FEE_VAULT_ADDRESS : Address := be_bytes 20 0x4200000000000000000000000000000000000011.

(** [U256::from_be_slice] of the address behind twelve zeroes. *)
Definition address_to_hash (address : Address) : Z := be_val (replicate 12 byte0 ++ address).

Definition eip_1559_params_from_system_config (rollup_config : SoonRollupConfig) (parent_timestamp next_timestamp : Z)
    (sys_config : SystemConfig) : option bytes := Some (replicate 8 byte0).

(** A call that cannot fail, from one that can. *)
Definition absurd {E} (e : Empty_set) : E := match e with end.

Section builder.
Context {L1P L2P : Type} `{!ChainProvider L1P} `{!L2ChainProvider L2P} `{!ErrorTexts L1P L2P} `{!AbiDecoder}.
Context `{!SolanaSdk} `{!SanitizedSdk} `{!L2TxCodec} `{!Pda} `{!BridgeAddresses} `{!L1BlockInfoProgram}.
Context `{!AlloyText} `{!BigUint} `{!Rlp} `{!Keccak}.
Implicit Types self : StatefulAttributesBuilder L1P L2P.

Definition sanitized_derived_tx_to_bytes (sanitized_tx : SanitizedTransaction) : outcome PipelineEncodingError bytes :=
  let version_tx := to_versioned_transaction sanitized_tx in
  let tx := new_from_derived_tx version_tx in
  map_err L2TxSerializeErr (bincode_serialize tx).

(** The loop over the deposits. *)
Fixpoint deposit_transactions (res : list bytes) (deposit_txs : list UserDeposited) : outcome PipelineEncodingError (list bytes) :=
  match deposit_txs with
  | [] => Ok res
  | user_deposit :: deposit_txs =>
      sanitized_tx ← map_err (λ e, DepositErr (deposit_error_to_string e)) (user_to_sanitized_transaction user_deposit);
      tx ← sanitized_derived_tx_to_bytes sanitized_tx;
      deposit_transactions (res ++ [tx]) deposit_txs
  end.
Definition derive_sanitized_deposit_tx (l1_block_num : Z) (l1_block_hash : B256) (receipts : list Receipt)
    (deposit_contract l1_cross_domain_messenger l1_standard_bridge : Address) : outcome PipelineEncodingError (list bytes) :=
  deposit_txs ← map_err absurd (derive_deposits l1_block_num l1_block_hash deposit_contract l1_cross_domain_messenger
                                  l1_standard_bridge receipts);
  deposit_transactions [] deposit_txs.

(** What the two branches on the epoch leave: the L1 origin, the deposits, the sequence number and
    the system config. *)
Definition epoch_branch (cfg : SoonRollupConfig) (provider : L1P) (l2_parent : L2BlockInfo) (epoch : BlockNumHash)
    (sys_config : SystemConfig) : outcome PipelineErrorKind (BlockInfo * list bytes * Z * SystemConfig) :=
  let provider_error := λ e, temp (Provider (l1_error_to_string e)) in
  if decide (bnh_number (l2_l1_origin l2_parent) ≠ bnh_number epoch) then
    epoch_info ← map_err provider_error (block_info_by_hash provider (bnh_hash epoch));
    if decide (bnh_hash (l2_l1_origin l2_parent) ≠ bi_parent_hash epoch_info)
    then Err (ResetKind (RAttributesBuilder (BlockMismatchEpochReset epoch (l2_l1_origin l2_parent) (bi_parent_hash epoch_info)))) else
    block_receipts ← map_err provider_error (receipts_by_hash provider (bnh_hash epoch));
    deposits ← map_err (λ e, crit (BadEncoding e))
                 (derive_sanitized_deposit_tx (bnh_number epoch) (bnh_hash epoch) block_receipts
                    (cfg_optimism_portal_address cfg) (cfg_l1_cross_domain_messenger cfg) (cfg_l1_standard_bridge cfg));
    let '(updated, sys_config) := update_with_receipts block_receipts (cfg_l1_system_config_address cfg) sys_config in
    _ ← map_err (λ e, crit (SystemConfigUpdateErr e)) updated;
    Ok (epoch_info, deposits, 0, sys_config)
  else if decide (bnh_hash (l2_l1_origin l2_parent) ≠ bnh_hash epoch)
  then Err (ResetKind (RAttributesBuilder (BlockMismatch epoch (l2_l1_origin l2_parent)))) else
  epoch_info ← map_err provider_error (block_info_by_hash provider (bnh_hash epoch));
  Ok (epoch_info, [], u64_add (l2_seq_num l2_parent) 1, sys_config).

(** The L1 info transaction of a block. *)
Definition l1_info_transaction (l1_origin : BlockInfo) (sequence_number : Z) (sys_config : SystemConfig)
    : outcome PipelineErrorKind bytes :=
  let info_error := λ e, temp (ParseL1BlockInfoTxErr (deposit_error_to_string e)) in
  l1_info_tx ← map_err info_error (attributes_try_from l1_origin sequence_number (address_to_hash (batcher_address sys_config)));
  encoded_l1_info_tx ← map_err info_error (attributes_to_sanitized_transaction l1_info_tx);
  map_err (λ e, crit (BadEncoding e)) (sanitized_derived_tx_to_bytes encoded_l1_info_tx).

Definition prepare_payload_attributes_ (l2_parent : L2BlockInfo) (epoch : BlockNumHash)
    : PipelineM (StatefulAttributesBuilder L1P L2P) OpPayloadAttributes :=
  sys_config ← zoom config_fetcher set_config_fetcher
                 (λ f, let '(r, f) := l2_system_config_by_number (bi_number (l2_block_info l2_parent)) f in
                       (map_err (λ e, temp (Provider (l2_error_to_string e))) r, f));
  cfg ← gets rollup_cfg;
  provider ← gets receipts_fetcher;
  '(l1_origin, deposits, sequence_number, sys_config) ← lift (epoch_branch cfg provider l2_parent epoch sys_config);
  let next_l2_time := u64_add (bi_timestamp (l2_block_info l2_parent)) (cfg_block_time cfg) in
  let upgrade_transactions := [] in
  info_tx ← lift (l1_info_transaction l1_origin sequence_number sys_config);
  let txs := [info_tx] ++ deposits ++ upgrade_transactions in
  mret (mkOpPayloadAttributes next_l2_time B256_ZERO SEQUENCER_FEE_VAULT_ADDRESS None (Some txs) (Some true)
          (Some (gas_limit sys_config))
          (eip_1559_params_from_system_config cfg (bi_timestamp (l2_block_info l2_parent)) 0 sys_config)).
#[export] Instance stateful_attributes_builder : AttributesBuilder (StatefulAttributesBuilder L1P L2P) := prepare_payload_attributes_.
End builder.

(** * What a payload holds *)

Class SanitizedSdkLaws `{!SolanaSdk} `{!SanitizedSdk} := {
  sanitized_versioned tx s : try_from_legacy_transaction tx = Ok s → to_versioned_transaction s = tx;
  sanitize_total tx : try_from_legacy_transaction tx ≠ Panic;
}.
Class L2TxCodecLaws `{!SolanaSdk} `{!L2TxCodec} := bincode_total tx : bincode_serialize tx ≠ Panic.

Section payload.
Context {L1P L2P : Type} `{!ChainProvider L1P} `{!ChainProviderLaws L1P} `{!L2ChainProvider L2P} `{!ErrorTexts L1P L2P} `{!AbiDecoder}.
Context `{!SolanaSdk} `{!SanitizedSdk} `{!SanitizedSdkLaws} `{!L2TxCodec} `{!Pda} `{!BridgeAddresses} `{!L1BlockInfoProgram}.
Context `{!AlloyText} `{!BigUint} `{!Rlp} `{!Keccak}.
Implicit Types self : StatefulAttributesBuilder L1P L2P.

(** The bytes of the batch of one transaction the rollup makes of an instruction: the source hash
    is its blockhash and its signature. *)
Definition derived_tx (ix : Instruction) (source_hash : B256) (tx_bytes : bytes) : Prop :=
  ∃ tx signatures, tx_message tx = new_with_blockhash [ix] (Some NO_SIG_TX_PAYER) source_hash ∧
    tx_signatures tx = hash_to_signature source_hash :: signatures ∧ bincode_serialize (Head 1 tx) = Ok tx_bytes.

Definition deposit_tx (d : UserDeposited) (tx_bytes : bytes) : Prop :=
  ∃ ix, deposit_instruction d = Ok ix ∧ derived_tx ix (user_source_hash d) tx_bytes.

(** The information about the L1 origin, its batcher and the position in the epoch. *)
Definition l1_info_of (l1_origin : BlockInfo) (seq : Z) (batcher : Address) : L1BlockInfo :=
  mkL1BlockInfo (bi_number l1_origin) (bi_timestamp l1_origin) 0 (bi_hash l1_origin) seq
    (le_bytes 32 (address_to_hash batcher)) 0 0 0 true.

Lemma new_native_Ok {E} ixs h tx :
  new_native_transaction (E:=E) ixs h = Ok tx →
  tx_message tx = new_with_blockhash ixs (Some NO_SIG_TX_PAYER) h ∧ ∃ signatures, tx_signatures tx = hash_to_signature h :: signatures.
Proof. unfold new_native_transaction. cbn. destruct (replicate _ _) as [|s ss]; [done|]. intros [= <-]. split; [done|]. by eexists. Qed.

Lemma derived_run {E} (to_kind : DepositError → E) (to_kind' : PipelineEncodingError → E) ix h tx_bytes :
  (s ← map_err to_kind (tx ← new_native_transaction [ix] h; map_err InvalidTransaction (try_from_legacy_transaction tx));
   map_err to_kind' (sanitized_derived_tx_to_bytes s)) = Ok tx_bytes → derived_tx ix h tx_bytes.
Proof.
  destruct (new_native_transaction [ix] h) as [tx|e|] eqn:Hn; [|done..]. cbn [mbind outcome_bind].
  destruct (try_from_legacy_transaction tx) as [s|e|] eqn:Hs; [|done..]. cbn [mbind outcome_bind map_err].
  unfold sanitized_derived_tx_to_bytes. rewrite (sanitized_versioned tx s Hs).
  destruct (bincode_serialize _) as [b|e|] eqn:Hb; [|done..]. intros [= <-].
  apply new_native_Ok in Hn as [Hm [signatures Hg]]. exists tx, signatures. by rewrite Hm, Hg.
Qed.

Lemma deposit_transactions_run ds : ∀ res txs,
  deposit_transactions (L1P:=L1P) (L2P:=L2P) res ds = Ok txs → ∃ txs', txs = res ++ txs' ∧ Forall2 deposit_tx ds txs'.
Proof.
  induction ds as [|d ds IH]; intros res txs; cbn [deposit_transactions].
  { intros [= <-]. exists []. by rewrite app_nil_r. }
  intros Hr. unfold user_to_sanitized_transaction in Hr.
  destruct (deposit_instruction d) as [ix|e|] eqn:Hi; [|done..]. cbn [mbind outcome_bind] in Hr.
  destruct (map_err _ _) as [s|e|] eqn:Hs in Hr; [|done..]. cbn [mbind outcome_bind] in Hr.
  destruct (sanitized_derived_tx_to_bytes s) as [b|e|] eqn:Hb; [|done..]. cbn [mbind outcome_bind] in Hr.
  apply IH in Hr as (txs' & -> & Hf). exists (b :: txs'). rewrite <- app_assoc. split; [done|]. constructor; [|done].
  exists ix. split; [done|]. eapply (derived_run _ id). by rewrite Hs; cbn [mbind outcome_bind]; rewrite Hb.
Qed.

Lemma info_run b seq c tx_bytes :
  l1_info_transaction (L1P:=L1P) (L2P:=L2P) b seq c = Ok tx_bytes →
  derived_tx (update_instruction (l1_info_of b seq (batcher_address c)))
    (source_hash_of L1_INFO_DEPOSIT_SOURCE_DOMAIN (bi_hash b) seq) tx_bytes.
Proof. intros Hr. eapply derived_run. exact Hr. Qed.

(** The rule for the two kinds of block. *)
Definition epoch_rule (self : StatefulAttributesBuilder L1P L2P) (l2_parent : L2BlockInfo) (epoch : BlockNumHash) (c : SystemConfig)
    (b : BlockInfo) (seq : Z) (batcher : Address) (deposits : list bytes) : Prop :=
  let cfg := rollup_cfg self in
  if decide (bnh_number (l2_l1_origin l2_parent) ≠ bnh_number epoch) then
    bi_parent_hash b = bnh_hash (l2_l1_origin l2_parent) ∧ seq = 0 ∧
    ∃ rs ds us, receipts_by_hash (receipts_fetcher self) (bnh_hash epoch) = Ok rs ∧
      derive_deposits (bnh_number epoch) (bnh_hash epoch) (cfg_optimism_portal_address cfg) (cfg_l1_cross_domain_messenger cfg)
        (cfg_l1_standard_bridge cfg) rs = Ok ds ∧
      Forall2 deposit_tx ds deposits ∧
      Forall2 (λ log u, build log = Ok u) (config_logs (cfg_l1_system_config_address cfg) rs) us ∧
      batcher = default (batcher_address c) (last (omap batcher_of us))
  else bnh_hash (l2_l1_origin l2_parent) = bnh_hash epoch ∧ seq = u64_add (l2_seq_num l2_parent) 1 ∧
    deposits = [] ∧ batcher = batcher_address c.

Lemma epoch_branch_run self l2_parent epoch c b deposits seq c' :
  epoch_branch (L1P:=L1P) (L2P:=L2P) (rollup_cfg self) (receipts_fetcher self) l2_parent epoch c = Ok (b, deposits, seq, c') →
  block_info_by_hash (receipts_fetcher self) (bnh_hash epoch) = Ok b ∧ c' = set_batcher_address (batcher_address c') c ∧
  epoch_rule self l2_parent epoch c b seq (batcher_address c') deposits.
Proof.
  unfold epoch_branch, epoch_rule. destruct (decide (bnh_number _ ≠ _)) as [Hn|Hn].
  - destruct (block_info_by_hash _ _) as [b0|e|]; [|done..]. cbn [map_err mbind outcome_bind].
    destruct (decide (_ ≠ bi_parent_hash b0)) as [Hp|Hp]; [done|]. apply dec_stable in Hp.
    destruct (receipts_by_hash _ _) as [rs|e|] eqn:Hrs; [|done..]. cbn [map_err mbind outcome_bind].
    unfold derive_sanitized_deposit_tx.
    destruct (derive_deposits _ _ _ _ _ rs) as [ds|[]|] eqn:Hds; [|done]. cbn [map_err mbind outcome_bind].
    destruct (deposit_transactions [] ds) as [txs|e|] eqn:Htx; [|done..]. cbn [map_err mbind outcome_bind].
    destruct (update_with_receipts_run rs (cfg_l1_system_config_address (rollup_cfg self)) c (cp_receipts_wf _ _ _ Hrs))
      as (dn & us & rest & Hl & Hus & Hc & Hr). unfold run, exec in Hc, Hr.
    destruct (update_with_receipts _ _ c) as [[u|e|] c1]; [|done..]. cbn [fst snd] in Hc, Hr. cbn [map_err mbind outcome_bind].
    intros [= -> <- <- <-]. subst rest. rewrite app_nil_r in Hl. apply deposit_transactions_run in Htx as (txs' & -> & Htx).
    split; [done|]. rewrite Hc. split; [done|]. split; [done|]. split; [done|]. exists rs, ds, us. by rewrite Hl.
  - destruct (decide (_ ≠ bnh_hash epoch)) as [Hp|Hp]; [done|]. apply dec_stable in Hp.
    destruct (block_info_by_hash _ _) as [b0|e|]; [|done..]. cbn [map_err mbind outcome_bind].
    intros [= -> <- <- <-]. split; [done|]. split; [by destruct c|]. done.
Qed.

(** C4. The payload of a block is determined by its parent and its L1 origin: its time follows the
    parent's, its gas limit is the parent's system config's, and its transactions are the L1 info
    transaction, which carries the L1 origin, the batcher and the position in the epoch, and in the
    first block of an epoch, which must be the child of the parent's L1 origin, one transaction for
    each deposit of the L1 block, with the batcher as of its last update; in a later block of an
    epoch there is nothing else. *)
Theorem payload_attributes_spec l2_parent epoch self self' a :
  prepare_payload_attributes l2_parent epoch self = (Ok a, self') →
  ∃ c f b seq batcher info deposits,
    l2_system_config_by_number (bi_number (l2_block_info l2_parent)) (config_fetcher self) = (Ok c, f) ∧
    self' = set_config_fetcher f self ∧
    block_info_by_hash (receipts_fetcher self) (bnh_hash epoch) = Ok b ∧
    epoch_rule self l2_parent epoch c b seq batcher deposits ∧
    derived_tx (update_instruction (l1_info_of b seq batcher)) (source_hash_of L1_INFO_DEPOSIT_SOURCE_DOMAIN (bi_hash b) seq) info ∧
    pa_transactions a = Some (info :: deposits) ∧
    pa_timestamp a = u64_add (bi_timestamp (l2_block_info l2_parent)) (cfg_block_time (rollup_cfg self)) ∧
    pa_gas_limit a = Some (gas_limit c) ∧ pa_no_tx_pool a = Some true.
Proof.
  unfold prepare_payload_attributes, stateful_attributes_builder, prepare_payload_attributes_. rewrite bind_run. unfold zoom.
  destruct (l2_system_config_by_number _ _) as [[c|e|] f] eqn:Hc; [|done..]. cbn [map_err]. cbn [rollup_cfg receipts_fetcher].
  rewrite bind_run. unfold gets at 1. cbn [rollup_cfg set_config_fetcher]. rewrite bind_run. unfold gets at 1. cbn [receipts_fetcher set_config_fetcher].
  rewrite bind_run. unfold lift at 1. destruct (epoch_branch _ _ _ _ c) as [[[[b deposits] seq] c']|e|] eqn:He; [|done..].
  apply epoch_branch_run in He as (Hb & Hc' & Hr). rewrite bind_run. unfold lift at 1.
  destruct (l1_info_transaction b seq c') as [info|e|] eqn:Hi; [|done..]. apply info_run in Hi. intros [= <- <-].
  exists c, f, b, seq, (batcher_address c'), info, deposits. repeat (split; [done|]). cbn [pa_transactions pa_timestamp pa_gas_limit pa_no_tx_pool].
  rewrite app_nil_r. split; [done|]. split; [done|]. split; [|done]. f_equal. by rewrite Hc'.
Qed.
End payload.

(** * Errors *)

(** Providers that answer every call, with receipts whose deposit events can be read or refused. *)
Class BuilderProviders (L1P L2P : Type) `{!ChainProvider L1P} `{!L2ChainProvider L2P} `{!AlloyText} `{!BigUint} `{!Rlp} `{!Keccak} := {
  l1_blocks (p : L1P) h : block_info_by_hash p h ≠ Panic;
  l1_deposits (p : L1P) h rs number hash portal messenger bridge :
    receipts_by_hash p h = Ok rs → derive_deposits number hash portal messenger bridge rs ≠ Panic;
  l2_configs (f : L2P) number : (l2_system_config_by_number number f).1 ≠ Panic;
}.

Section errors.
Context {L1P L2P : Type} `{!ChainProvider L1P} `{!ChainProviderLaws L1P} `{!L2ChainProvider L2P} `{!ErrorTexts L1P L2P} `{!AbiDecoder}.
Context `{!SolanaSdk} `{!SolanaSdkLaws} `{!SanitizedSdk} `{!SanitizedSdkLaws} `{!L2TxCodec} `{!L2TxCodecLaws}.
Context `{!Pda} `{!BridgeAddresses} `{!L1BlockInfoProgram} `{!AlloyText} `{!BigUint} `{!Rlp} `{!Keccak}.
Implicit Types self : StatefulAttributesBuilder L1P L2P.

(** An outcome that is not a panic, its error one of [F]. *)
Definition settled {E A} (F : E → Prop) (r : outcome E A) : Prop :=
  match r with Ok _ => True | Err e => F e | Panic => False end.
Lemma settled_bind {E A B} (F : E → Prop) (m : outcome E A) (k : A → outcome E B) :
  settled F m → (∀ a, m = Ok a → settled F (k a)) → settled F (m ≫= k).
Proof. destruct m; cbn; auto. Qed.
Lemma settled_map_err {E E' A} (F : E' → Prop) (f : E → E') (m : outcome E A) :
  m ≠ Panic → (∀ e, F (f e)) → settled F (map_err f m).
Proof. destruct m; cbn; auto. Qed.
Lemma settled_any {E A} (F : E → Prop) (m : outcome E A) : settled F m → m ≠ Panic.
Proof. by destruct m. Qed.

Lemma native_settled {E} (F : E → Prop) ixs h : settled F (new_native_transaction (E:=E) ixs h).
Proof.
  unfold new_native_transaction. cbn. pose proof (payer_signs ixs (Some NO_SIG_TX_PAYER) h ltac:(by eexists)).
  destruct (num_required_signatures _); [lia|done].
Qed.
Lemma to_u128_settled (z : Z) (e : DepositError) : settled (λ _, True) (to_u128 z e).
Proof. unfold to_u128. by destruct (decide _). Qed.
Lemma deposit_instruction_settled d : settled (λ _, True) (deposit_instruction d).
Proof.
  unfold deposit_instruction. destruct (ud_deposit_type d) as [data|data];
    repeat (apply settled_bind; [apply to_u128_settled|]; intros ? _); [|done].
  apply settled_bind; [unfold extra_data_array; by destruct (decide _)|]. done.
Qed.
Lemma user_transaction_settled d : settled (λ _, True) (user_to_sanitized_transaction d).
Proof.
  apply settled_bind; [apply deposit_instruction_settled|]. intros ix _. apply settled_bind; [apply native_settled|].
  intros tx _. by apply settled_map_err; [apply sanitize_total|].
Qed.
Lemma tx_bytes_settled s : settled (λ _, True) (sanitized_derived_tx_to_bytes s).
Proof. by apply settled_map_err; [apply bincode_total|]. Qed.
Lemma deposit_transactions_settled ds : ∀ res, settled (λ _, True) (deposit_transactions (L1P:=L1P) (L2P:=L2P) res ds).
Proof.
  induction ds as [|d ds IH]; intros res; [done|]. cbn [deposit_transactions].
  apply settled_bind; [apply settled_map_err; [eapply settled_any, user_transaction_settled|done]|]. intros s _.
  apply settled_bind; [apply tx_bytes_settled|]. intros b _. apply IH.
Qed.

(** The errors of the builder. *)
Definition builder_err (e : PipelineErrorKind) : Prop :=
  match e with
  | Temporary (Provider _) | Temporary (ParseL1BlockInfoTxErr _) | Critical (BadEncoding _) | Critical (SystemConfigUpdateErr _)
  | ResetKind (RAttributesBuilder (BlockMismatch _ _)) | ResetKind (RAttributesBuilder (BlockMismatchEpochReset _ _ _)) => True
  | _ => False
  end.

Lemma info_settled b seq c : settled builder_err (l1_info_transaction (L1P:=L1P) (L2P:=L2P) b seq c).
Proof.
  unfold l1_info_transaction. apply settled_bind; [done|]. intros d Hd. injection Hd as <-.
  apply settled_bind.
  - apply settled_map_err; [|done]. apply (settled_any (λ _, True)). apply settled_bind; [by vm_compute|]. intros ix _.
    apply settled_bind; [apply native_settled|]. intros tx _. by apply settled_map_err; [apply sanitize_total|].
  - intros s _. apply settled_map_err; [eapply settled_any, tx_bytes_settled|done].
Qed.

Lemma epoch_branch_settled `{!BuilderProviders L1P L2P} cfg provider l2_parent epoch c :
  settled builder_err (epoch_branch (L1P:=L1P) (L2P:=L2P) cfg provider l2_parent epoch c).
Proof.
  unfold epoch_branch. destruct (decide _); [|destruct (decide _); [done|]];
    (apply settled_bind; [by apply settled_map_err; [apply (l1_blocks (L2P:=L2P))|]|]; intros b _); [|done].
  destruct (decide _); [done|].
  apply settled_bind; [by apply settled_map_err; [apply cp_receipts|]|]. intros rs Hrs.
  destruct (receipts_by_hash provider _) as [rs'|e|] eqn:Hr; [|done..]. injection Hrs as ->.
  apply settled_bind.
  - apply settled_map_err; [|done]. apply (settled_any (λ _, True)). unfold derive_sanitized_deposit_tx.
    apply settled_bind; [apply settled_map_err; [by apply (l1_deposits (L2P:=L2P) provider (bnh_hash epoch))|by intros []]|].
    intros ds _. apply deposit_transactions_settled.
  - intros txs _. pose proof (update_with_receipts_run rs (cfg_l1_system_config_address cfg) c (cp_receipts_wf _ _ _ Hr))
      as (dn & us & rest & _ & _ & _ & Hu). unfold run in Hu.
    by destruct (update_with_receipts rs _ c) as [[u|e|] c'].
Qed.

(** The builder keeps its promise to the attributes queue. *)
#[export] Program Instance stateful_attributes_builder_laws `{!BuilderProviders L1P L2P} :
  AttributesBuilderLaws (StatefulAttributesBuilder L1P L2P) := {| ab_err := builder_err |}.
Next Obligation.
  intros HB parent epoch self _. unfold prepare_payload_attributes, stateful_attributes_builder, prepare_payload_attributes_.
  rewrite bind_run. unfold zoom. pose proof (l2_configs (config_fetcher self) (bi_number (l2_block_info parent))) as Hc.
  destruct (l2_system_config_by_number _ _) as [[c|e|] f]; [|done..]. cbn [map_err fst] in *.
  rewrite bind_run. unfold gets at 1. rewrite bind_run. unfold gets at 1.
  rewrite bind_run. unfold lift at 1. pose proof (epoch_branch_settled (rollup_cfg self) (receipts_fetcher self) parent epoch c) as He.
  cbn [rollup_cfg receipts_fetcher set_config_fetcher].
  destruct (epoch_branch _ _ _ _ c) as [[[[b deposits] seq] c']|e|]; [|done..]. cbn in He.
  rewrite bind_run. unfold lift at 1. pose proof (info_settled b seq c') as Hi. by destruct (l1_info_transaction b seq c').
Qed.

Lemma large_deposit_fails d data ds : ∀ res,
  d ∈ ds → ud_deposit_type d = ERC20 data → 2 ^ 128 <= rd_amount data →
  ∃ e, deposit_transactions (L1P:=L1P) (L2P:=L2P) res ds = Err e.
Proof.
  induction ds as [|d' ds IH]; intros res Hd Ht Ha; [by apply not_elem_of_nil in Hd|]. cbn [deposit_transactions].
  pose proof (user_transaction_settled d') as Hs. pose proof (tx_bytes_settled) as Hb.
  destruct (user_to_sanitized_transaction d') as [s|e|] eqn:Hu; [|by eexists|done]. cbn [map_err mbind outcome_bind].
  specialize (Hb s). destruct (sanitized_derived_tx_to_bytes s); [|by eexists|done]. cbn [mbind outcome_bind].
  apply IH; [|done..]. apply elem_of_cons in Hd as [<-|Hd]; [|done]. exfalso.
  unfold user_to_sanitized_transaction, deposit_instruction in Hu. rewrite Ht in Hu.
  unfold to_u128 in Hu. by rewrite decide_False in Hu by lia.
Qed.

(** C32. A token deposit of 2^128 or more, which L1 accepts, cannot be turned into a transaction of
    L2: the first block of its epoch cannot be built, and the error is critical, whatever else the
    L1 block holds. *)
Theorem large_deposit_halts self l2_parent epoch c f b rs ds d data :
  l2_system_config_by_number (bi_number (l2_block_info l2_parent)) (config_fetcher self) = (Ok c, f) →
  bnh_number (l2_l1_origin l2_parent) ≠ bnh_number epoch →
  block_info_by_hash (receipts_fetcher self) (bnh_hash epoch) = Ok b → bi_parent_hash b = bnh_hash (l2_l1_origin l2_parent) →
  receipts_by_hash (receipts_fetcher self) (bnh_hash epoch) = Ok rs →
  derive_deposits (bnh_number epoch) (bnh_hash epoch) (cfg_optimism_portal_address (rollup_cfg self))
    (cfg_l1_cross_domain_messenger (rollup_cfg self)) (cfg_l1_standard_bridge (rollup_cfg self)) rs = Ok ds →
  d ∈ ds → ud_deposit_type d = ERC20 data → 2 ^ 128 <= rd_amount data →
  ∃ e, run (prepare_payload_attributes l2_parent epoch) self = Err (Critical (BadEncoding e)).
Proof.
  intros Hc Hn Hb Hp Hrs Hds Hd Ht Ha.
  destruct (large_deposit_fails d data ds [] Hd Ht Ha) as [e He]. exists e.
  unfold run, prepare_payload_attributes, stateful_attributes_builder, prepare_payload_attributes_. rewrite bind_run. unfold zoom.
  rewrite Hc. cbn [map_err]. rewrite bind_run. unfold gets at 1. rewrite bind_run. unfold gets at 1. rewrite bind_run.
  unfold lift at 1. cbn [rollup_cfg receipts_fetcher set_config_fetcher]. unfold epoch_branch.
  rewrite decide_True by done. rewrite Hb. cbn [map_err mbind outcome_bind]. rewrite decide_False by (by intros Hx; apply Hx).
  rewrite Hrs. cbn [map_err mbind outcome_bind]. unfold derive_sanitized_deposit_tx. rewrite Hds. cbn [map_err mbind outcome_bind].
  by rewrite He.
Qed.
End errors.

(** * Examples *)

#[local] Existing Instances Texts.text Texts.biguint Texts.biguint_laws Texts.keccak Plainly.sdk Plainly.sdk_laws
  BridgeAccounts.Named.addresses L1BlockInfo.Deployed.program L1BlockInfo.Deployed.pda SystemConfig.word_abi.

Module OneChain.
(** Two L1 blocks after a common parent: one with the deposits of [Texts], one with a large one. *)
Definition parent_hash : B256 := replicate 32 (z2b 1).
Definition small : BlockInfo := mkBlockInfo (replicate 32 (z2b 2)) 5 parent_hash 1000.
Definition large : BlockInfo := mkBlockInfo (replicate 32 (z2b 3)) 5 parent_hash 1000.
Definition large_deposit : BridgeDeposit :=
  mkBridgeDeposit 0 0 200000 false 2 0 100
    (ERC20 (mkErc20DepositData (be_bytes 32 1) (be_bytes 20 2) (be_bytes 20 3) (be_bytes 32 4) (2 ^ 128) [])).
Definition large_receipts : list Receipt :=
  [mkReceipt (Eip658 true) [deposit_log Texts.key Texts.messenger Texts.bridge Texts.contract deposit_event_signature [] (replicate 64 byte0) large_deposit]].
Definition receipts_of (h : B256) : list Receipt :=
  if decide (h = bi_hash small) then Texts.receipts else large_receipts.
#[local] Instance l1 : ChainProvider unit := {|
  l1_error := unit;
  l1_error_into _ := crit EndOfSource;
  header_by_hash _ _ := Err tt;
  block_info_by_hash _ h := Ok (if decide (h = bi_hash small) then small else large);
  block_info_by_number _ _ := Err tt;
  receipts_by_hash _ h := Ok (receipts_of h);
  get_block_transactions_by_hash _ _ := Err tt;
|}.
#[local] Instance l1_laws : ChainProviderLaws unit.
Proof.
  split; [done|done| |done]. intros p h rs [= <-]. unfold receipts_of.
  destruct (decide _); repeat constructor.
Qed.
Definition config : SystemConfig := mkSystemConfig (be_bytes 20 77) 0 0 30000000 None None None None None None.
#[local] Instance l2 : L2ChainProvider unit := {|
  l2_error := unit;
  l2_error_into _ := crit EndOfSource;
  l2_block_info_by_number _ := fail tt;
  l2_system_config_by_number _ := mret config;
|}.
#[local] Instance texts : ErrorTexts unit unit := {|
  l1_error_to_string _ := "l1"; l2_error_to_string _ := "l2"; deposit_error_to_string _ := "deposit" |}.
#[local] Instance sanitized : SanitizedSdk := {|
  SanitizedTransaction := Transaction; try_from_legacy_transaction tx := Ok tx; to_versioned_transaction tx := tx |}.
#[local] Instance sanitized_laws : SanitizedSdkLaws.
Proof. split; [by intros tx s [= ->]|done]. Qed.
#[local] Instance bincode : L2TxCodec := λ tx, Ok (mjoin (tx_signatures (transaction tx))).
#[local] Instance bincode_laws : L2TxCodecLaws.
Proof. done. Qed.
Definition cfg : SoonRollupConfig :=
  mkSoonRollupConfig 1 0 0 0 Address_ZERO Texts.contract Address_ZERO Texts.bridge Texts.messenger 0 0 0 2 None None ∅ [].
Definition builder : StatefulAttributesBuilder unit unit := new cfg tt tt.
Definition parent : L2BlockInfo := mkL2BlockInfo (mkBlockInfo (replicate 32 (z2b 9)) 40 (replicate 32 (z2b 8)) 998) (mkBlockNumHash 4 parent_hash) 3.
End OneChain.
#[local] Existing Instances OneChain.l1 OneChain.l1_laws OneChain.l2 OneChain.texts OneChain.sanitized OneChain.sanitized_laws
  OneChain.bincode OneChain.bincode_laws.

Lemma payload_attributes_spec_witness :
  ∃ a self' info deposits, prepare_payload_attributes OneChain.parent (bi_id OneChain.small) OneChain.builder = (Ok a, self') ∧
    pa_transactions a = Some (info :: deposits) ∧ pa_timestamp a = 1000 ∧ length deposits = 2%nat.
Proof.
  destruct (prepare_payload_attributes OneChain.parent (bi_id OneChain.small) OneChain.builder) as [[a|e|] self'] eqn:Hr;
    [|vm_compute in Hr; discriminate..].
  pose proof (payload_attributes_spec OneChain.parent (bi_id OneChain.small) OneChain.builder self' a Hr)
    as (c & f & b & seq & batcher & info & deposits & _ & _ & _ & _ & _ & Ht & Htime & _).
  exists a, self', info, deposits. split; [done|]. split; [exact Ht|]. split; [rewrite Htime; by vm_compute|].
  assert (length <$> pa_transactions a = Some 3%nat) as Hl by (vm_compute in Hr; injection Hr as <- _; by vm_compute).
  rewrite Ht in Hl. by injection Hl.
Defined.

Lemma large_deposit_halts_witness :
  ∃ e, run (prepare_payload_attributes OneChain.parent (bi_id OneChain.large)) OneChain.builder = Err (Critical (BadEncoding e)).
Proof.
  destruct (derive_deposits (bi_number OneChain.large) (bi_hash OneChain.large) Texts.contract Texts.messenger Texts.bridge
    OneChain.large_receipts) as [[|d ds]|[]|] eqn:Hds; [vm_compute in Hds; discriminate| |vm_compute in Hds; discriminate].
  assert (∃ data, ud_deposit_type d = ERC20 data ∧ rd_amount data = 2 ^ 128) as (data & Ht & Ha)
    by (vm_compute in Hds; injection Hds as <- _; eexists; split; by vm_compute).
  apply (large_deposit_halts OneChain.builder OneChain.parent (bi_id OneChain.large) OneChain.config tt OneChain.large
    OneChain.large_receipts (d :: ds) d data); [done|done| |done| |exact Hds|by left|exact Ht|lia].
  - cbn. by rewrite decide_False by (by vm_compute).
  - cbn. unfold OneChain.receipts_of. by rewrite decide_False by (by vm_compute).
Defined.
