(* ===== verification/Hint.v ===== *)
(** Hints: what the client tells the host to prepare (src/crates/proof/proof/src/hint.rs), and
    the protocol they are sent by (src/crates/proof/preimage/src/hint.rs).

    [hint_roundtrip]: a hint is read back from its text.  [hint_acknowledged]: the host reads a
    hint off the messages the writer sends, and whatever it makes of it acknowledges it once,
    which is what the writer waits for. *)
From S2P Require Import Prelude Blocks Rlp NodeCodec ProgramCodec BridgeInstruction Preimage.
#[local] Open Scope Z_scope.

Abbreviation text := Strings.String.list_byte_of_string.

(** The [Display] of alloy's [Bytes], and [hex::decode] with its error text. *)
Class HexText := {
  display_bytes : bytes → bytes;
  hex_decode : bytes → outcome string bytes;
}.
Definition space : byte := z2b 32.
Class HexTextLaws `{!HexText} := {
  hex_decode_display b : hex_decode (display_bytes b) = Ok b;
  display_no_space b : space ∉ display_bytes b;
}.

(** * Hints *)

(** A hint; its text is the UTF-8 bytes of a string. *)
Record Hint (HT : Type) := mkHint { h_ty : HT; h_data : bytes }.
Arguments mkHint {HT}.
Arguments h_ty {HT}.
Arguments h_data {HT}.

Inductive HintType :=
| L1BlockHeader | L1Transactions | L1Receipts | L1Blob | DAProxyBlob_ | L1Precompile | StartingL2Output
| L2StateNode | L2AccountProof_ | L2BlockData | L2BankHash | L2BlockTime.
#[global] Instance hint_type_eq_dec : EqDecision HintType.
Proof. solve_decision. Defined.

(** [HintParsingError], with its message. *)
Inductive HintParsingError := HintParsing (msg : bytes).

Definition with_data {HT} (self : Hint HT) (data : bytes) : Hint HT :=
  if decide (data = []) then self else mkHint (h_ty self) (h_data self ++ data).
Definition split {HT} (self : Hint HT) : HT * bytes := (h_ty self, h_data self).
(** [HintType::with_data]: the data, concatenated. *)
Definition type_with_data (self : HintType) (data : list bytes) : Hint HintType :=
  mkHint self (foldl (λ acc d, acc ++ d) [] data).

Definition type_text (value : HintType) : bytes :=
  text match value with
       | L1BlockHeader => "l1-block-header"
       | L1Transactions => "l1-transactions"
       | L1Receipts => "l1-receipts"
       | L1Blob => "l1-blob"
       | DAProxyBlob_ => "da-proxy-blob"
       | L1Precompile => "l1-precompile"
       | StartingL2Output => "starting-l2-output"
       | L2StateNode => "l2-state-node"
       | L2AccountProof_ => "l2-account-proof"
       | L2BlockData => "l2-block-data"
       | L2BankHash => "l2-bank-hash"
       | L2BlockTime => "l2-block-time"
       end.
Definition type_from_str (value : bytes) : outcome HintParsingError HintType :=
  if decide (value = text "l1-block-header") then Ok L1BlockHeader
  else if decide (value = text "l1-transactions") then Ok L1Transactions
  else if decide (value = text "l1-receipts") then Ok L1Receipts
  else if decide (value = text "l1-blob") then Ok L1Blob
  else if decide (value = text "da-proxy-blob") then Ok DAProxyBlob_
  else if decide (value = text "l1-precompile") then Ok L1Precompile
  else if decide (value = text "starting-l2-output") then Ok StartingL2Output
  else if decide (value = text "l2-state-node") then Ok L2StateNode
  else if decide (value = text "l2-account-proof") then Ok L2AccountProof_
  else if decide (value = text "l2-block-data") then Ok L2BlockData
  else if decide (value = text "l2-bank-hash") then Ok L2BankHash
  else if decide (value = text "l2-block-time") then Ok L2BlockTime
  else Err (HintParsing value).

(** [str::split(' ')]. *)
Fixpoint split_spaces (s : bytes) : list bytes :=
  match s with
  | [] => [[]]
  | b :: s =>
      if decide (b = space) then [] :: split_spaces s
      else match split_spaces s with
           | part :: parts => (b :: part) :: parts
           | [] => [[b]]
           end
  end.

Section text.
Context `{!HexText}.

Definition encode_hint (self : Hint HintType) : bytes := type_text (h_ty self) ++ [space] ++ display_bytes (h_data self).

Definition hint_from_str (s : bytes) : outcome HintParsingError (Hint HintType) :=
  match split_spaces s with
  | [ty; data] =>
      hint_type ← type_from_str ty;
      hint_data ← map_err (λ e, HintParsing (text e)) (hex_decode data);
      Ok (mkHint hint_type hint_data)
  | _ => Err (HintParsing (text "Invalid hint format: " ++ s))
  end.
End text.

(** * The protocol *)

(** The writer sends the length and the hint, and waits for a byte. *)
Definition hint_write (hint : bytes) : Proc unit :=
  _ ← write (be_bytes 4 (len hint));
  _ ← write hint;
  _ ← read_exact 1;
  mret tt.

(** The result of a process that first writes an acknowledgement. *)
Definition next_hint (route_hint : bytes → outcome PreimageOracleError unit) (utf8_error : bytes → string) : Proc unit :=
  len_buf ← read_exact 4;
  let len := be_val len_buf in
  raw_payload ← read_exact (Z.to_nat len);
  if decide (utf8_valid raw_payload = true) then
    match route_hint raw_payload with
    | Ok _ => write [byte0]
    | Err e => _ ← write [byte0]; answer (Err e)
    | Panic => answer Panic
    end
  else _ ← write [byte0]; answer (Err (OtherErr (utf8_error raw_payload))).

(** A process on its own: what it sends and how it ends, given the messages it will read; [None]
    when it waits for one more.  A message is read by a buffer of its length. *)
Fixpoint proc_run {A} (p : Proc A) (inbox : list bytes) : list bytes * option (outcome PreimageOracleError A) :=
  match p with
  | Done r => ([], Some r)
  | Write buf p => let '(sent, r) := proc_run p inbox in (buf :: sent, r)
  | ReadExact n q =>
      match inbox with
      | [] => ([], None)
      | m :: inbox => if decide (length m = n) then proc_run (q m) inbox else ([], Some Panic)
      end
  end.

(** * Theorems *)

Lemma split_none s : space ∉ s → split_spaces s = [s].
Proof.
  induction s as [|b s IH]; intros Hs; [done|]. cbn [split_spaces]. rewrite not_elem_of_cons in Hs. destruct Hs as [Hb Hs].
  rewrite decide_False by done. by rewrite IH.
Qed.
Lemma split_app s t : space ∉ s → split_spaces (s ++ space :: t) = s :: split_spaces t.
Proof.
  induction s as [|b s IH]; intros Hs; cbn [app split_spaces].
  - by rewrite decide_True.
  - rewrite not_elem_of_cons in Hs. destruct Hs as [Hb Hs]. rewrite decide_False by done. by rewrite IH.
Qed.
Lemma split_cons s part parts :
  split_spaces s = part :: parts →
  match parts with
  | [] => s = part
  | _ => ∃ t, s = part ++ space :: t ∧ split_spaces t = parts
  end.
Proof.
  revert part parts. induction s as [|b s IH]; intros part parts; cbn [split_spaces]; [by intros [= <- <-]|].
  destruct (decide (b = space)) as [->|Hb].
  - intros [= <- <-]. destruct (split_spaces s) as [|p ps] eqn:Hs; [by destruct s; cbn in Hs; repeat case_match|].
    by exists s.
  - destruct (split_spaces s) as [|p ps] eqn:Hs; [by destruct s; cbn in Hs; repeat case_match|].
    intros [= <- <-]. specialize (IH p ps eq_refl). destruct ps; [by subst|].
    destruct IH as (t & -> & Ht). by exists t.
Qed.
Lemma type_text_from_str ty : type_from_str (type_text ty) = Ok ty.
Proof. by destruct ty. Qed.
Lemma type_from_str_text s ty : type_from_str s = Ok ty → s = type_text ty.
Proof.
  unfold type_from_str. repeat (case_decide as H; [intros Hr; injection Hr as <-; exact H|clear H]). intros Hr. discriminate Hr.
Qed.

Lemma hint_from_str_encode `{!HexText} `{!HexTextLaws} (h : Hint HintType) : hint_from_str (encode_hint h) = Ok h.
Proof.
  unfold hint_from_str, encode_hint. cbn [app]. rewrite split_app by (by destruct (h_ty h); vm_compute; set_solver).
  rewrite split_none by apply display_no_space. rewrite type_text_from_str, hex_decode_display. by destruct h.
Qed.

(** A hint is read back from its text, type and data; only the texts of its type followed by
    hex of its data are read as it; and data given in parts is sent as one. *)
Theorem hint_roundtrip `{!HexText} `{!HexTextLaws} (h : Hint HintType) s parts data :
  hint_from_str (encode_hint h) = Ok h ∧
  (hint_from_str s = Ok h → ∃ hex, s = type_text (h_ty h) ++ [space] ++ hex ∧ hex_decode hex = Ok (h_data h)) ∧
  split (with_data (type_with_data (h_ty h) parts) data) = (h_ty h, mjoin parts ++ data).
Proof.
  split; [|split].
  - apply hint_from_str_encode.
  - unfold hint_from_str. destruct (split_spaces s) as [|ty [|hex [|]]] eqn:Hs; try done.
    apply split_cons in Hs as (t & -> & Ht). apply split_cons in Ht as ->.
    destruct (type_from_str ty) as [ty'|e|] eqn:Hty; [|done..]. apply type_from_str_text in Hty as ->.
    cbn [mbind outcome_bind]. destruct (hex_decode hex) as [d|e|] eqn:Hd; [|done..]. intros [= <-]. by exists hex.
  - assert (∀ acc, foldl (λ acc d : bytes, acc ++ d) acc parts = acc ++ mjoin parts) as Hf.
    { induction parts as [|p parts IH]; intros acc; [by rewrite app_nil_r|]. cbn [foldl]. rewrite IH, <- app_assoc. done. }
    unfold with_data, type_with_data. rewrite Hf. cbn [h_data h_ty app].
    destruct (decide (data = [])) as [->|]; [by rewrite app_nil_r|done].
Qed.

(** The writer sends two messages and ends when it reads one byte; reading these two messages
    the host hands the router exactly the hint, and acknowledges with one byte whether the router
    takes it, the router fails, or the hint is not text, so that the writer is never left waiting. *)
Theorem hint_acknowledged (hint : bytes) (route_hint : bytes → outcome PreimageOracleError unit) (utf8_error : bytes → string) :
  len hint < 2 ^ 32 → route_hint hint ≠ Panic →
  let '(sent, r) := proc_run (hint_write hint) [] in
  r = None ∧
  proc_run (next_hint route_hint utf8_error) sent =
    ([[byte0]], Some (if utf8_valid hint then route_hint hint else Err (OtherErr (utf8_error hint)))) ∧
  proc_run (hint_write hint) [[byte0]] = (sent, Some (Ok tt)).
Proof.
  intros Hl Hr. cbn. split; [done|]. split; [|done].
  rewrite decide_True by apply length_be_bytes. cbn.
  rewrite be_val_be_bytes_small by (pose proof (len_nonneg hint); split; [lia|exact Hl]). unfold len. rewrite Nat2Z.id.
  rewrite decide_True by done. destruct (utf8_valid hint); [|done]. by destruct (route_hint hint) as [[]|e|].
Qed.

(** ** Witnesses *)

Module Hex.
Definition digit (z : Z) : byte := z2b (if decide (z < 10) then 48 + z else 87 + z).
Definition value (b : byte) : option Z :=
  if decide (48 <= b2z b < 58) then Some (b2z b - 48) else if decide (97 <= b2z b < 103) then Some (b2z b - 87) else None.
Fixpoint digits (s : bytes) : bytes := match s with [] => [] | b :: s => digit (b2z b / 16) :: digit (b2z b mod 16) :: digits s end.
Fixpoint undigits (s : bytes) : outcome string bytes :=
  match s with
  | [] => Ok []
  | a :: b :: s =>
      match value a, value b with
      | Some a, Some b => rest ← undigits s; Ok (z2b (16 * a + b) :: rest)
      | _, _ => Err "invalid character"%string
      end
  | _ => Err "odd number of digits"%string
  end.
#[local] Instance hex : HexText := {|
  display_bytes s := text "0x" ++ digits s;
  hex_decode s := match s with a :: b :: t => if decide ([a; b] = text "0x") then undigits t else undigits s | _ => undigits s end |}.
Lemma value_digit z : 0 <= z < 16 → value (digit z) = Some z ∧ digit z ≠ space.
Proof.
  intros Hz. assert (bool_decide (value (digit z) = Some z) && negb (bool_decide (digit z = space)) = true) as Hv.
  { assert (List.forallb (λ z, bool_decide (value (digit z) = Some z) && negb (bool_decide (digit z = space))) (seqZ 0 16) = true) as Hall
      by (by vm_compute).
    rewrite List.forallb_forall in Hall. apply Hall, list_elem_of_In, elem_of_seqZ. lia. }
  apply andb_prop in Hv as [Hv Hs]. split; [by apply bool_decide_eq_true in Hv|]. intros He. by rewrite bool_decide_true in Hs.
Qed.
#[local] Instance hex_laws : HexTextLaws.
Proof.
  assert (∀ b : byte, 0 <= b2z b / 16 < 16 ∧ 0 <= b2z b mod 16 < 16) as Hd.
  { intros b. pose proof (b2z_range b). split; [split; [apply Z.div_pos; lia|apply Z.div_lt_upper_bound; lia]|apply Z.mod_pos_bound; lia]. }
  split.
  - intros s. change (undigits (digits s) = Ok s). induction s as [|b s IH]; [done|]. destruct (Hd b) as [H1 H2]. cbn.
    destruct (value_digit _ H1) as [-> _], (value_digit _ H2) as [-> _]. rewrite IH. cbn.
    f_equal. f_equal. rewrite <- Z.div_mod by lia. apply z2b_b2z.
  - intros s. cbn. rewrite !not_elem_of_cons. split; [done|]. split; [done|].
    induction s as [|b s IH]; cbn; [apply not_elem_of_nil|]. destruct (Hd b) as [H1 H2].
    rewrite !not_elem_of_cons. split; [by intros He; apply (value_digit _ H1)|]. split; [by intros He; apply (value_digit _ H2)|done].
Qed.
End Hex.
#[local] Existing Instances Hex.hex Hex.hex_laws.

Lemma hint_roundtrip_witness :
  hint_from_str (text "l2-block-data 0x01fe") = Ok (mkHint L2BlockData [z2b 1; z2b 254]) ∧
  hint_from_str (encode_hint (mkHint L2BlockData [z2b 1; z2b 254])) = Ok (mkHint L2BlockData [z2b 1; z2b 254]).
Proof.
  split; [by vm_compute|].
  exact (proj1 (hint_roundtrip (mkHint L2BlockData [z2b 1; z2b 254]) [] [] [])).
Defined.

Lemma hint_acknowledged_witness :
  proc_run (next_hint (λ _, Err KeyNotFound) (λ _, "utf8"%string)) [be_bytes 4 5; text "l1-bl"] = ([[byte0]], Some (Err KeyNotFound)).
Proof. exact (proj1 (proj2 (hint_acknowledged (text "l1-bl") (λ _, Err KeyNotFound) (λ _, "utf8"%string) eq_refl ltac:(done)))). Defined.
