(* ===== verification/Providers.v ===== *)
(** Providers: the chains as the proof program reads them from the preimage oracle
    (src/crates/proof/proof/src/l1/chain_provider.rs, l2/chain_provider.rs, errors.rs), and the
    system config as the node's provider reads it (src/crates/l2provider/src/chain_provider.rs).

    [block_found_by_number]: the walk from the L1 head ends at the block asked for.
    [receipts_of_root]: the receipts are those the header commits to, in order.
    [block_read_back]: the L1 origin and the batcher are read back from the L1 info transaction of
    an L2 block, but by the proof program's provider only if the batcher is a palindrome. *)
From S2P Require Import Prelude Blocks SystemConfig Types Reader Rlp Mpt MptReveal NodeCodec ListWalker ProgramCodec L1BlockInfo Preimage Hint BridgeInstruction BridgeAccounts Native Deposits Attributes.
#[local] Open Scope Z_scope.

(** * Parameters *)

(** The client of the preimage oracle, whose answers do not depend on earlier calls. *)
Class CommsClient := {
  oracle_get : PreimageKey → outcome PreimageOracleError bytes;
  oracle_write : bytes → outcome PreimageOracleError unit;
}.

(** alloy's [Header]: RLP, hash and the fields that are read. *)
Class AlloyHeader := {
  Header : Type;
  header_rlp : bytes → outcome RlpError Header;
  hash_slow : Header → B256;
  al_parent_hash : Header → B256;
  al_number : Header → Z;
  al_timestamp : Header → Z;
  al_state_root : Header → B256;
  al_transactions_root : Header → B256;
  al_receipts_root : Header → B256;
}.

(** [TxEnvelope], by the fields that are read. *)
Inductive TxEnvelope :=
| Legacy (to : option Address) (input : bytes)
| Eip2930 (to : option Address) (input : bytes)
| Eip1559 (to : option Address) (input : bytes)
| Eip4844 (to : Address) (input : bytes)
| Eip4844WithSidecar (to : Address) (input : bytes)
| Eip7702 (to : Address) (input : bytes).

(** EIP-2718 envelopes: decoding, [as_receipt], the hash and the recovered signer. *)
Class Envelopes := {
  ReceiptEnvelope : Type;
  receipt_decode_2718 : bytes → outcome RlpError ReceiptEnvelope;
  as_receipt : ReceiptEnvelope → option Receipt;
  tx_decode_2718 : bytes → outcome RlpError TxEnvelope;
  envelope_hash : TxEnvelope → B256;
  recover_signer : TxEnvelope → option Address;
}.

(** * Errors *)

Inductive OracleProviderError :=
| BlockNumberPastHead (block_number head_number : Z)
| OPreimage (e : PreimageOracleError)
| TrieWalker (e : OrderedListWalkerError)
| ORlp (e : RlpError)
| SliceConversion
| Serde (msg : string)
| FetchBlockInfoFailed (msg : string).

(** [From<OracleProviderError> for PipelineErrorKind]; an error's text is a parameter. *)
Class OracleErrorText := oracle_error_to_string : OracleProviderError → string.
Definition oracle_error_into `{!OracleErrorText} (val : OracleProviderError) : PipelineErrorKind :=
  match val with
  | BlockNumberPastHead _ _ => crit EndOfSource
  | _ => crit (Types.Provider (oracle_error_to_string val))
  end.

(** [Hint::send]. *)
Definition hint_send `{!CommsClient} `{!HexText} (self : Hint HintType) : outcome OracleProviderError unit :=
  map_err OPreimage (oracle_write (encode_hint self)).

(** * L1 *)

Record OracleL1ChainProvider := mkOracleL1ChainProvider { l1_head : B256 }.

(** Collecting results: the first error ends it. *)
Fixpoint collect_results {E A B} (f : A → outcome E B) (l : list A) : outcome E (list B) :=
  match l with
  | [] => Ok []
  | x :: l => y ← f x; ys ← collect_results f l; Ok (y :: ys)
  end.

(** The items of a walker; every call of [next] takes one. *)
Fixpoint iterate (fuel : nat) (self : OrderedListWalker) : list Entry :=
  match fuel with
  | O => []
  | S fuel => match ListWalker.next self with (Some item, self) => item :: iterate fuel self | (None, _) => [] end
  end.
Definition into_iter (self : OrderedListWalker) : list Entry := iterate (length (default [] (w_inner self))) self.

Section l1.
Context `{!CommsClient} `{!HexText} `{!AlloyHeader} `{!Envelopes} `{!OracleErrorText} `{!Rlp} `{!PathCodec}.
(** A bound on the depth of the tries of a block. *)
Context (depth : nat).
Implicit Types self : OracleL1ChainProvider.

Definition l1_header_from (header : Header) : L1Header :=
  mkL1Header (hash_slow header) (al_parent_hash header) (al_number header) (al_timestamp header) (al_state_root header)
    (al_transactions_root header) (al_receipts_root header).
Definition block_info_from (header : L1Header) : BlockInfo :=
  mkBlockInfo (hdr_hash header) (hdr_number header) (hdr_parent_hash header) (hdr_timestamp header).

Definition header_by_hash_ self (hash : B256) : outcome OracleProviderError L1Header :=
  _ ← hint_send (type_with_data L1BlockHeader [hash]);
  header_bytes ← map_err OPreimage (oracle_get (new_keccak256 hash));
  header ← map_err ORlp (header_rlp header_bytes);
  Ok (l1_header_from header).

Definition block_info_by_hash_ self (hash : B256) : outcome OracleProviderError BlockInfo :=
  header ← header_by_hash_ self hash;
  Ok (block_info_from header).

(** The loop; it runs at most as long as the numbers can go down. *)
Fixpoint walk_back (fuel : nat) self (block_number : Z) (header : L1Header) : outcome OracleProviderError L1Header :=
  if decide (hdr_number header > block_number) then
    match fuel with
    | O => Panic
    | S fuel => header ← header_by_hash_ self (hdr_parent_hash header); walk_back fuel self block_number header
    end
  else Ok header.
Definition block_info_by_number_ self (block_number : Z) : outcome OracleProviderError BlockInfo :=
  header ← header_by_hash_ self (l1_head self);
  if decide (block_number > hdr_number header) then Err (BlockNumberPastHead block_number (hdr_number header)) else
  header ← walk_back (Z.to_nat (hdr_number header)) self block_number header;
  Ok (block_info_from header).

Definition oracle_trie_node (key : B256) : outcome OracleProviderError TrieNode :=
  data ← map_err OPreimage (oracle_get (key_new key Keccak256));
  map_err ORlp (run decode data).
(** The walker keeps the text of an error. *)
#[export] Instance oracle_trie_provider : TrieProvider := λ key, map_err oracle_error_to_string (oracle_trie_node key).

Definition decode_receipt (item : Entry) : outcome RlpError Receipt :=
  envelope ← receipt_decode_2718 item.2;
  expect (as_receipt envelope).
Definition receipts_by_hash_ self (hash : B256) : outcome OracleProviderError (list Receipt) :=
  header ← header_by_hash_ self hash;
  _ ← hint_send (type_with_data L1Receipts [hash]);
  trie_walker ← map_err TrieWalker (try_new_hydrated depth (hdr_receipts_root header));
  map_err ORlp (collect_results decode_receipt (into_iter trie_walker)).

Definition l1_transaction (tx : TxEnvelope) : outcome RlpError L1Transaction :=
  let '(to, data) := match tx with
                     | Legacy to input | Eip2930 to input | Eip1559 to input => (to, input)
                     | Eip4844 to input | Eip4844WithSidecar to input | Eip7702 to input => (Some to, input)
                     end in
  from ← expect (recover_signer tx);
  Ok (mkL1Transaction (envelope_hash tx) from data to).
Definition get_block_transactions_by_hash_ self (hash : B256) : outcome OracleProviderError (list L1Transaction) :=
  header ← header_by_hash_ self hash;
  _ ← hint_send (type_with_data L1Transactions [hash]);
  trie_walker ← map_err TrieWalker (try_new_hydrated depth (hdr_transactions_root header));
  transactions ← map_err ORlp (collect_results (λ item : Entry, tx_decode_2718 item.2) (into_iter trie_walker));
  map_err ORlp (collect_results l1_transaction transactions).

#[export] Instance oracle_l1_provider : ChainProvider OracleL1ChainProvider := {|
  l1_error := OracleProviderError;
  l1_error_into := oracle_error_into;
  header_by_hash := header_by_hash_;
  block_info_by_hash := block_info_by_hash_;
  block_info_by_number := block_info_by_number_;
  receipts_by_hash := receipts_by_hash_;
  get_block_transactions_by_hash := get_block_transactions_by_hash_;
|}.
End l1.

(** * L2 *)

(** The decoding of a block, and of base58; a block hash that is not 32 bytes of base58 panics. *)
Class L2BlockCodec `{!SolanaSdk} := {
  l2_block_decode : bytes → outcome RlpError L2Block;
  str_block_hash_to : ∀ {E}, string → outcome E B256;
  program_error_text : ProgramError → string;
}.

(** The default of the fields the L1 info does not hold. *)
Definition SystemConfig_default (batcher_address : Address) : SystemConfig :=
  mkSystemConfig batcher_address 0 0 0 None None None None None None.

Section l2.
Context `{!CommsClient} `{!HexText} `{!SolanaSdk} `{!L2BlockCodec} `{!Keccak}.

(** [get_l1_block_info], of both providers; [fetch_failed] is [FetchBlockInfoFailed]. *)
Definition get_l1_block_info {E} (fetch_failed : string → E) (block : L2Block) : outcome E L1BlockInfoInstruction :=
  l1_block_info_tx ← ok_or (head (lb_transactions block)) (fetch_failed "No l1 block info tx found"%string);
  l1_block_info_tx_data ← ok_or (head (instructions (tx_message (transaction l1_block_info_tx)))) (fetch_failed "No instruction found"%string);
  map_err (λ err, fetch_failed (program_error_text err)) (L1BlockInfo.unpack (ci_data l1_block_info_tx_data)).

(** [l2_block_info_by_number] once the block is there, of both providers. *)
Definition l2_block_info_of {E} (fetch_failed : string → E) (number : Z) (block : L2Block) : outcome E L2BlockInfo :=
  hash ← str_block_hash_to (lb_blockhash block);
  parent_hash ← str_block_hash_to (lb_previous_blockhash block);
  let block_info := mkBlockInfo hash number parent_hash (lb_block_time block) in
  l1_block_info_instruction ← get_l1_block_info fetch_failed block;
  match l1_block_info_instruction with
  | UpdateL1BlockInfo number _ _ hash sequence_number _ _ _ _ _ => Ok (mkL2BlockInfo block_info (mkBlockNumHash number hash) sequence_number)
  | _ => Err (fetch_failed "Invalid l1 block info instruction"%string)
  end.

(** [U160::from_be_slice] and [U160::from_le_slice] of 20 bytes, as an address. *)
Definition address_from_be (s : bytes) : Address := be_bytes 20 (be_val s).
Definition address_from_le (s : bytes) : Address := be_bytes 20 (le_val s).

(** [system_config_by_number] of the node's provider, once the block is there. *)
Definition fetcher_system_config {E} (fetch_failed : string → E) (block : L2Block) : outcome E SystemConfig :=
  l1_block_info_instruction ← get_l1_block_info fetch_failed block;
  match l1_block_info_instruction with
  | UpdateL1BlockInfo _ _ _ _ _ batcher_hash _ _ _ _ =>
      address_value ← slice batcher_hash 0 20;
      Ok (SystemConfig_default (address_from_le address_value))
  | _ => Err (fetch_failed "Invalid l1 block info instruction"%string)
  end.

Definition get_block_by_number (number : Z) : outcome OracleProviderError L2Block :=
  let number_bytes := be_bytes 8 number in
  _ ← hint_send (type_with_data L2BlockData [number_bytes]);
  block_bytes ← map_err OPreimage (oracle_get (new_block_slot number));
  map_err ORlp (l2_block_decode block_bytes).
Definition get_l2_block_info_by_number (number : Z) : outcome OracleProviderError L2BlockInfo :=
  block ← get_block_by_number number;
  l2_block_info_of FetchBlockInfoFailed number block.
(** The system config of a block, once it is there. *)
Definition oracle_system_config (block : L2Block) : outcome OracleProviderError SystemConfig :=
  l1_block_info_instruction ← get_l1_block_info FetchBlockInfoFailed block;
  match l1_block_info_instruction with
  | UpdateL1BlockInfo _ _ _ _ _ batcher_hash _ _ _ _ =>
      address_value ← slice batcher_hash 12 32;
      Ok (SystemConfig_default (address_from_be address_value))
  | _ => Err (FetchBlockInfoFailed "Invalid l1 block info instruction"%string)
  end.
Definition oracle_system_config_by_number (number : Z) : outcome OracleProviderError SystemConfig :=
  block ← get_block_by_number number;
  oracle_system_config block.

(** The provider's fields that its reads do not depend on are left out. *)
Record OracleL2ChainProvider := mkOracleL2ChainProvider {
  op_l2_head : B256;
  op_cursor : option L2BlockInfo;
  op_chain_id : option Z;
}.
Definition set_chain_id (chain_id : option Z) (self : OracleL2ChainProvider) : OracleL2ChainProvider :=
  mkOracleL2ChainProvider (op_l2_head self) (op_cursor self) chain_id.
(** The cursor, by the safe head it holds. *)
Definition set_cursor (cursor : L2BlockInfo) (self : OracleL2ChainProvider) : OracleL2ChainProvider :=
  mkOracleL2ChainProvider (op_l2_head self) (Some cursor) (op_chain_id self).
Definition l2_safe_head (self : OracleL2ChainProvider) : B256 :=
  match op_cursor self with None => op_l2_head self | Some cursor => bi_hash (l2_block_info cursor) end.

#[export] Instance oracle_l2_provider `{!OracleErrorText} : L2ChainProvider OracleL2ChainProvider := {|
  l2_error := OracleProviderError;
  l2_error_into := oracle_error_into;
  l2_block_info_by_number number := lift (get_l2_block_info_by_number number);
  l2_system_config_by_number number := lift (oracle_system_config_by_number number);
|}.
End l2.

(** * L1 blocks by number *)

Section blocks.
Context `{!CommsClient} `{!HexText} `{!AlloyHeader} `{!OracleErrorText}.
Implicit Types self : OracleL1ChainProvider.

(** The headers behind [header], each the parent of the one before. *)
Fixpoint linked self (header : L1Header) (chain : list L1Header) : Prop :=
  match chain with
  | [] => True
  | parent :: chain => header_by_hash_ self (hdr_parent_hash header) = Ok parent ∧ hdr_number header = hdr_number parent + 1 ∧ linked self parent chain
  end.

Lemma linked_number self chain : ∀ header k x, linked self header chain → (header :: chain) !! k = Some x → hdr_number header = hdr_number x + Z.of_nat k.
Proof.
  induction chain as [|p chain IH]; intros header [|k] x Hl Hk; cbn in Hk; try done; try (injection Hk as <-; lia).
  destruct Hl as (_ & Hn & Hl). rewrite Hn, (IH p k x Hl Hk). lia.
Qed.
Lemma walk_back_run self chain : ∀ header k x fuel, linked self header chain → (header :: chain) !! k = Some x → (k <= fuel)%nat →
  walk_back fuel self (hdr_number x) header = Ok x.
Proof.
  induction chain as [|p chain IH]; intros header [|k] x fuel Hl Hk Hf; cbn in Hk; try done;
    try (injection Hk as <-; destruct fuel; cbn [walk_back]; by rewrite decide_False by lia).
  pose proof (linked_number self (p :: chain) header (S k) x Hl Hk) as Hn. destruct Hl as (Hp & Hn' & Hl).
  destruct fuel as [|fuel]; [lia|]. cbn [walk_back]. rewrite decide_True by lia. rewrite Hp. cbn [mbind outcome_bind].
  apply (IH p k); [done..|lia].
Qed.

(** On a chain of headers that go down one number at a time from the L1 head, every block is
    found by its number, however far back, and a number past the head is an error, the critical end
    of the source. *)
Theorem block_found_by_number self head chain :
  header_by_hash_ self (l1_head self) = Ok head → linked self head chain →
  Forall (λ h, 0 <= hdr_number h) (head :: chain) →
  (∀ x, x ∈ head :: chain → block_info_by_number_ self (hdr_number x) = Ok (block_info_from x)) ∧
  (∀ n, hdr_number head < n → map_err oracle_error_into (block_info_by_number_ self n) = Err (Critical EndOfSource)).
Proof.
  intros Hh Hl Hpos. unfold block_info_by_number_. rewrite Hh. cbn [mbind outcome_bind]. split.
  - intros x [k Hk]%list_elem_of_lookup. pose proof (linked_number _ _ _ _ _ Hl Hk) as Hn.
    pose proof (proj1 (Forall_lookup _ _) Hpos k x Hk) as Hx. cbn in Hx. rewrite decide_False by lia.
    rewrite (walk_back_run self chain head k x) by (done || lia). done.
  - intros n Hn. rewrite decide_True by lia. done.
Qed.
End blocks.

(** * Receipts *)

Section receipts.
Context `{!CommsClient} `{!HexText} `{!AlloyHeader} `{!Envelopes} `{!OracleErrorText} `{!Rlp} `{!PathCodec} `{!TrieHash}.
Context (Hempty : oracle_trie_node EMPTY_ROOT_HASH = Ok Empty).
Context (Hnode : ∀ hash node, oracle_trie_node hash = Ok node → is_blinded node = false).
Implicit Types self : OracleL1ChainProvider.

Lemma iterate_run es root : iterate (length es) (mkWalker root (Some es)) = es.
Proof.
  induction es as [|e es IH]; [done|]. cbn [length iterate]. unfold ListWalker.next. cbn [w_inner head tail].
  destruct (decide (es = [])) as [->|_]; [done|]. f_equal. exact IH.
Qed.
Lemma iterate_items es root : into_iter (mkWalker root (Some es)) = es.
Proof. apply iterate_run. Qed.
Lemma collect_Forall2 {E A B} (f : A → outcome E B) l ys : Forall2 (λ x y, f x = Ok y) l ys → collect_results f l = Ok ys.
Proof. induction 1 as [|x y l ys Hf _ IH]; [done|]. cbn. rewrite Hf. cbn. by rewrite IH. Qed.

(** C33. The receipts of a block are exactly those its header commits to, in their order: when the
    oracle has the trie below the receipts root, the items of the trie are decoded one by one. *)
Theorem receipts_of_root depth self hash header key (items : list bytes) t rs :
  header_by_hash_ self hash = Ok header → hint_send (type_with_data L1Receipts [hash]) = Ok tt →
  reveal depth (Blinded (hdr_receipts_root header)) = Ok t → holds_list key items t →
  Forall2 (λ item r, ∃ e, receipt_decode_2718 item = Ok e ∧ as_receipt e = Some r) items rs →
  receipts_by_hash_ depth self hash = Ok rs.
Proof.
  intros Hh Hs Ht Hl Hr. unfold receipts_by_hash_. rewrite Hh. cbn [mbind outcome_bind]. rewrite Hs. cbn [mbind outcome_bind].
  assert (∃ es : list Entry, try_new_hydrated depth (hdr_receipts_root header) = Ok (mkWalker (hdr_receipts_root header) (Some es)) ∧ snd <$> es = items)
    as (es & -> & He); [apply (walker_items (H:=oracle_trie_provider)) with (key:=key) (t:=t); [| |done..]|].
  - unfold trie_node_by_hash, oracle_trie_provider. by rewrite Hempty.
  - intros h node. unfold trie_node_by_hash, oracle_trie_provider. destruct (oracle_trie_node h) eqn:Hn; [|done..].
    intros [= <-]. by eapply Hnode.
  - cbn [map_err mbind outcome_bind]. rewrite iterate_items. subst items. rewrite (collect_Forall2 _ _ rs); [done|].
    apply Forall2_fmap_l in Hr. eapply Forall2_impl; [exact Hr|]. intros item r (e & Hd & Ha). unfold decode_receipt.
    change (snd item) with (item.2) in *. rewrite Hd. cbn [mbind outcome_bind]. by rewrite Ha.
Qed.
End receipts.

(** * Reading an L2 block back *)

Section read_back.
Context `{!SolanaSdk} `{!SolanaSdkLaws} `{!L2BlockCodec} `{!Pda} `{!BridgeAddresses} `{!L1BlockInfoProgram}.

(** The batcher as the proof program's provider reads it. *)
Definition oracle_batcher (batcher : Address) : Address := reverse (take 8 batcher) ++ replicate 12 byte0.

Lemma batcher_hash_bytes batcher : length batcher = 20%nat →
  le_bytes 32 (address_to_hash batcher) = reverse batcher ++ replicate 12 byte0.
Proof.
  intros Hb. unfold le_bytes, address_to_hash.
  assert (32%nat = length (replicate 12 byte0 ++ batcher)) as -> by (by rewrite length_app, Hb).
  rewrite be_bytes_val, reverse_app. f_equal.
Qed.
Lemma be_bytes_id s n : length s = n → be_bytes n (be_val s) = s.
Proof. intros <-. apply be_bytes_val. Qed.

Lemma l1_block_info_read {E} (ff : string → E) block tx rest payer hash b seq batcher :
  lb_transactions block = Head 1 tx :: rest →
  tx_message tx = new_with_blockhash [update_instruction (l1_info_of b seq batcher)] payer hash →
  info_wf (l1_info_of b seq batcher) →
  get_l1_block_info ff block = Ok (update_of (l1_info_of b seq batcher)).
Proof.
  intros Ht Hm Hw. unfold get_l1_block_info. rewrite Ht. cbn [head ok_or mbind outcome_bind transaction]. rewrite Hm.
  pose proof (compiled_instructions [update_instruction (l1_info_of b seq batcher)] payer hash) as Hc.
  destruct (instructions _) as [|c cs]; [by inversion Hc|]. inversion Hc as [|? ? ? ? (Hd & _)]; subst.
  cbn [head ok_or mbind outcome_bind]. rewrite Hd. cbn [in_data update_instruction].
  assert (L1BlockInfo.unpack (L1BlockInfo.pack (update_of (l1_info_of b seq batcher))) = Ok (update_of (l1_info_of b seq batcher))) as ->.
  { pose proof (reads_update _ Hw []) as Hr. rewrite app_nil_r in Hr. exact Hr. }
  done.
Qed.

Lemma l1_info_of_wf b seq batcher :
  is_u64 (bi_number b) → is_u64 (bi_timestamp b) → is_key (bi_hash b) → is_u64 seq → info_wf (l1_info_of b seq batcher).
Proof.
  intros Hn Ht Hh Hs. unfold info_wf. cbn [l1_info_of li_number li_timestamp li_base_fee li_hash li_sequence_number li_batcher_hash
    li_fee_overhead li_fee_scalar li_gas]. rewrite length_le_bytes. unfold in_width. split_and!; done || lia || apply Hn || apply Ht || apply Hs.
Qed.

(** C7. What a derived block tells about itself: when its first transaction is the L1 info
    transaction of an L1 block, a position in its epoch and a batcher, both providers read back the
    L1 block and the position, and the node's provider the batcher; but the provider of the proof
    program reads the batcher off the other end of the little-endian hash, and gets the right one
    only if its last twelve bytes are zero and the first eight a palindrome. *)
Theorem block_read_back {E} (ff : string → E) block tx rest payer hash b seq batcher number block_hash previous :
  lb_transactions block = Head 1 tx :: rest →
  tx_message tx = new_with_blockhash [update_instruction (l1_info_of b seq batcher)] payer hash →
  is_u64 (bi_number b) → is_u64 (bi_timestamp b) → is_key (bi_hash b) → is_u64 seq → is_address batcher →
  str_block_hash_to (E:=E) (lb_blockhash block) = Ok block_hash → str_block_hash_to (E:=E) (lb_previous_blockhash block) = Ok previous →
  l2_block_info_of ff number block = Ok (mkL2BlockInfo (mkBlockInfo block_hash number previous (lb_block_time block)) (bi_id b) seq) ∧
  fetcher_system_config ff block = Ok (SystemConfig_default batcher) ∧
  oracle_system_config block = Ok (SystemConfig_default (oracle_batcher batcher)) ∧
  (oracle_batcher batcher = batcher ↔ drop 8 batcher = replicate 12 byte0 ∧ reverse (take 8 batcher) = take 8 batcher).
Proof.
  intros Ht Hm Hn Hts Hh Hs Hb Hbh Hph. pose proof (l1_info_of_wf b seq batcher Hn Hts Hh Hs) as Hw.
  pose proof (l1_block_info_read ff _ _ _ _ _ _ _ _ Ht Hm Hw) as Hr.
  pose proof (l1_block_info_read FetchBlockInfoFailed _ _ _ _ _ _ _ _ Ht Hm Hw) as Hr'. unfold is_address in Hb.
  assert (length (reverse batcher) = 20%nat) as Hlr by (by rewrite length_reverse).
  unfold l2_block_info_of, fetcher_system_config, oracle_system_config. rewrite Hbh, Hph. cbn [mbind outcome_bind]. rewrite Hr, Hr'.
  cbn [mbind outcome_bind update_of l1_info_of li_batcher_hash]. rewrite batcher_hash_bytes by done.
  split; [done|]. split; [|split].
  - rewrite slice_app by (unfold len; lia). cbn [mbind outcome_bind]. unfold address_from_le, le_val. rewrite reverse_involutive, be_bytes_id by done. done.
  - assert (reverse batcher = reverse (drop 8 batcher) ++ reverse (take 8 batcher)) as -> by (by rewrite <- reverse_app, take_drop).
    rewrite <- app_assoc, <- (app_nil_r (reverse (take 8 batcher) ++ replicate 12 byte0)).
    rewrite slice_app_r by (unfold len; rewrite ?length_app, ?length_reverse, ?length_drop, ?length_take, ?length_replicate; lia).
    cbn [mbind outcome_bind]. unfold address_from_be. rewrite be_bytes_id by (by rewrite length_app, length_reverse, length_take, length_replicate, Hb). done.
  - unfold oracle_batcher. split.
    + intros He. rewrite <- (take_drop 8 batcher) in He at 2. apply app_inj_1 in He as [He1 He2]; [|by rewrite length_reverse].
      by rewrite <- He2.
    + intros [Hd He]. by rewrite <- (take_drop 8 batcher) at 2; rewrite Hd, He.
Qed.
End read_back.

(** ** Witnesses *)

(** Blocks 1 to 3; block 2 has one receipt, at the key of index 0. *)
Module ThreeBlocks.
#[local] Existing Instances Hex.hex NodeCodec.Concrete.keccak NodeCodec.Concrete.paths.
Definition hash (n : Z) : B256 := be_bytes 32 n.
Definition root : B256 := be_bytes 32 99.
#[local] Instance empty_root : TrieHash := be_bytes 32 98.
Definition leaf : TrieNode := Leaf [8; 0] [byte1; byte1].
#[local] Instance oracle : CommsClient := {|
  oracle_get key :=
    if decide (key = new_keccak256 (hash 1)) then Ok [z2b 1]
    else if decide (key = new_keccak256 (hash 2)) then Ok [z2b 2]
    else if decide (key = new_keccak256 (hash 3)) then Ok [z2b 3]
    else if decide (key = new_keccak256 root) then Ok (encode leaf)
    else if decide (key = new_keccak256 EMPTY_ROOT_HASH) then Ok [z2b 0x80]
    else Err Preimage.KeyNotFound;
  oracle_write _ := Ok tt;
|}.
#[local] Instance header : AlloyHeader := {|
  Header := Z;
  header_rlp s := Ok (be_val s);
  hash_slow := hash;
  al_parent_hash n := hash (n - 1);
  al_number n := n;
  al_timestamp n := 1000 + 12 * n;
  al_state_root _ := B256_ZERO;
  al_transactions_root _ := B256_ZERO;
  al_receipts_root _ := root;
|}.
Definition receipt : Receipt := mkReceipt (Eip658 true) [].
#[local] Instance envelopes : Envelopes := {|
  ReceiptEnvelope := bytes;
  receipt_decode_2718 s := Ok s;
  as_receipt s := if decide (s = [byte1; byte1]) then Some receipt else None;
  tx_decode_2718 _ := Err UnexpectedLength;
  envelope_hash _ := B256_ZERO;
  recover_signer _ := None;
|}.
#[local] Instance texts : OracleErrorText := λ _, "error"%string.
Definition provider : OracleL1ChainProvider := mkOracleL1ChainProvider (hash 3).
Definition block (n : Z) : L1Header := l1_header_from (n : Header).
End ThreeBlocks.
#[local] Existing Instances Hex.hex NodeCodec.Concrete.keccak NodeCodec.Concrete.paths ThreeBlocks.empty_root ThreeBlocks.oracle ThreeBlocks.header
  ThreeBlocks.envelopes ThreeBlocks.texts.

Lemma block_found_by_number_witness :
  block_info_by_number_ ThreeBlocks.provider 1 = Ok (mkBlockInfo (ThreeBlocks.hash 1) 1 (ThreeBlocks.hash 0) 1012) ∧
  map_err oracle_error_into (block_info_by_number_ ThreeBlocks.provider 4) = Err (Critical EndOfSource).
Proof.
  destruct (block_found_by_number ThreeBlocks.provider (ThreeBlocks.block 3) [ThreeBlocks.block 2; ThreeBlocks.block 1]) as [Hf He].
  - by vm_compute.
  - cbn [linked]. split_and!; by vm_compute.
  - repeat constructor; by vm_compute.
  - split; [exact (Hf (ThreeBlocks.block 1) ltac:(by right; right; left))|by apply (He 4); vm_compute].
Defined.

Lemma receipts_of_root_witness : receipts_by_hash_ 3 ThreeBlocks.provider (ThreeBlocks.hash 2) = Ok [ThreeBlocks.receipt].
Proof.
  apply (receipts_of_root) with (header := ThreeBlocks.block 2) (key := λ _, [8; 0]) (items := [[byte1; byte1]]) (t := ThreeBlocks.leaf).
  - by vm_compute.
  - intros h node. unfold oracle_trie_node, oracle_get, ThreeBlocks.oracle.
    repeat (destruct (decide (key_new h Keccak256 = _)); [vm_compute; intros Hn; by first [discriminate Hn|injection Hn as <-]|]). done.
  - by vm_compute.
  - by vm_compute.
  - by vm_compute.
  - apply holds_list_intro; [repeat constructor|reflexivity].
  - repeat constructor. by eexists.
Defined.

Module ReadBack.
#[local] Existing Instances Plainly.sdk Plainly.sdk_laws BridgeAccounts.Named.addresses L1BlockInfo.Deployed.program L1BlockInfo.Deployed.pda.
#[local] Instance blocks : L2BlockCodec := {|
  l2_block_decode _ := Err UnexpectedLength;
  str_block_hash_to _ _ := Ok B256_ZERO;
  program_error_text _ := "error"%string;
|}.
Definition origin : BlockInfo := mkBlockInfo (replicate 32 (z2b 2)) 5 (replicate 32 (z2b 1)) 1000.
Definition batcher : Address := be_bytes 20 0x0102030405060708090a0b0c0d0e0f1011121314.
Definition tx : Transaction :=
  mkTransaction [] (new_with_blockhash [update_instruction (l1_info_of origin 2 batcher)] (Some NO_SIG_TX_PAYER) B256_ZERO).
Definition block : L2Block := mkL2Block "parent" "block" 6 1700000000 7 [Head 1 tx].
End ReadBack.
#[local] Existing Instances Plainly.sdk Plainly.sdk_laws BridgeAccounts.Named.addresses L1BlockInfo.Deployed.program L1BlockInfo.Deployed.pda
  ReadBack.blocks.

Lemma block_read_back_witness :
  fetcher_system_config (E:=string) id ReadBack.block = Ok (SystemConfig_default ReadBack.batcher) ∧
  oracle_system_config ReadBack.block ≠ Ok (SystemConfig_default ReadBack.batcher).
Proof.
  destruct (block_read_back (E:=string) id ReadBack.block ReadBack.tx [] (Some NO_SIG_TX_PAYER) B256_ZERO ReadBack.origin 2
    ReadBack.batcher 7 B256_ZERO B256_ZERO) as (_ & Hf & Ho & Hi);
    [done|done|by vm_compute..|].
  split; [exact Hf|]. rewrite Ho. by intros [=].
Defined.
