(* ===== verification/L1Provider.v ===== *)
(** The node's L1 provider (src/crates/l1provider/src/): the clients of the two kinds of L1 node
    (l1_provider/), the caches in front of them and the task that fills the caches
    (chain_provider.rs).

    A method holds one lock at a time, so it is a [thread] of actions, and threads interleave ([happen],
    [step]); the background task's loop body is also given as it runs with nothing in between
    ([background_step]; [turn_alone]: the same thread).

    [l1_provider_transparent]: what a call gives, however calls, background turns and progress of the L1
    interleave.  [stale_block_cached]: a schedule with the one answer that is not the node's.
    [background_progress]: what a turn fetches, and how far it comes. *)
From S2P Require Import Prelude Blocks SystemConfig Types Providers.
#[local] Open Scope Z_scope.

(** * Data *)

(** alloy's block ids. *)
Inductive BlockNumberOrTag := Latest | Finalized | Safe | Earliest | Pending | Number (n : Z).
Inductive BlockId := IdHash (hash : B256) (require_canonical : option bool) | IdNumber (number : BlockNumberOrTag).
#[global] Instance block_number_or_tag_eq_dec : EqDecision BlockNumberOrTag.
Proof. solve_decision. Defined.

Inductive AlloyChainProviderError :=
| Transport (e : string)
| BlockNotFound (id : BlockId)
| ReceiptsConversion (hash : B256).
Class BlockIdText := block_id_text : BlockId → string.
Definition alloy_error_into `{!BlockIdText} (e : AlloyChainProviderError) : PipelineErrorKind :=
  match e with
  | Transport e => temp (Types.Provider ("Transport error: " +:+ e))
  | BlockNotFound id => temp (Types.Provider ("L1 Block not found: " +:+ block_id_text id))
  | ReceiptsConversion _ => temp (Types.Provider "Failed to convert RPC receipts into consensus receipts")
  end.

(** What a JSON-RPC node answers: the header as it enters consensus, and the hash the node gives for it. *)
Record RpcTransaction := mkRpcTransaction {
  rt_block_hash : option B256;
  rt_tx_hash : B256;
  rt_signer : Address;
  rt_to : option Address;
  rt_input : bytes;
}.
Record RpcBlock (Header : Type) := mkRpcBlock { rb_hash : B256; rb_header : Header; rb_transactions : list RpcTransaction }.
Arguments mkRpcBlock {Header}.
Arguments rb_hash {Header}.
Arguments rb_header {Header}.
Arguments rb_transactions {Header}.

(** alloy's provider over HTTP; [W] is the world it asks, which may change with every call. *)
Class L1Rpc (W Header : Type) := {
  RpcReceipt : Type;
  rpc_as_receipt : RpcReceipt → option Receipt;
  rpc_block_number : ST W string Z;
  rpc_block_by_hash : B256 → ST W string (option (RpcBlock Header));
  rpc_block_by_number : BlockNumberOrTag → ST W string (option (RpcBlock Header));
  rpc_block_receipts : BlockId → ST W string (option (list RpcReceipt));
}.

(** The trait [L1Client]. *)
Class L1Client (W : Type) := {
  get_block_number : ST W AlloyChainProviderError Z;
  get_header_by_hash : B256 → ST W AlloyChainProviderError L1Header;
  get_header_by_number : BlockNumberOrTag → ST W AlloyChainProviderError L1Header;
  get_block_receipts_by_hash : B256 → ST W AlloyChainProviderError (list Receipt);
  get_full_block_by_hash : B256 → ST W AlloyChainProviderError (BlockInfo * list L1Transaction);
}.

(** * The clients *)

Section clients.
Context `{!AlloyHeader} {W : Type}.

(** [?] on a call of alloy's provider. *)
Definition asking {A} (m : ST W string A) : ST W AlloyChainProviderError A := λ w, let '(r, w) := m w in (map_err Transport r, w).

Section client.
Context (Rpc : L1Rpc W Header).
Definition rpc_get_header_by_hash (hash : B256) : ST W AlloyChainProviderError L1Header :=
  res_block ← asking (rpc_block_by_hash hash);
  match res_block with
  | Some block => mret (l1_header_from (rb_header block))
  | None => fail (BlockNotFound (IdHash hash None))
  end.
Definition rpc_get_header_by_number (number : BlockNumberOrTag) : ST W AlloyChainProviderError L1Header :=
  res_block ← asking (rpc_block_by_number number);
  match res_block with
  | Some block => mret (l1_header_from (rb_header block))
  | None => fail (BlockNotFound (IdNumber number))
  end.
Definition full_block_info (block : RpcBlock Header) : BlockInfo :=
  mkBlockInfo (rb_hash block) (al_number (rb_header block)) (al_parent_hash (rb_header block)) (al_timestamp (rb_header block)).
Definition rpc_get_full_block_by_hash (transaction : RpcTransaction → L1Transaction) (hash : B256)
    : ST W AlloyChainProviderError (BlockInfo * list L1Transaction) :=
  res_block ← asking (rpc_block_by_hash hash);
  match res_block with
  | Some block => mret (full_block_info block, transaction <$> rb_transactions block)
  | None => fail (BlockNotFound (IdHash hash None))
  end.
Definition rpc_receipts (hash : B256) : ST W AlloyChainProviderError (list RpcReceipt) :=
  receipts ← asking (rpc_block_receipts (IdHash hash (Some true)));
  lift (ok_or receipts (BlockNotFound (IdHash hash None))).
End client.

(** [EthProviderImpl]. *)
Definition eth_transaction (tx : RpcTransaction) : L1Transaction :=
  mkL1Transaction (default B256_ZERO (rt_block_hash tx)) (rt_signer tx) (rt_input tx) (rt_to tx).
Definition eth_receipts (Rpc : L1Rpc W Header) (hash : B256) : ST W AlloyChainProviderError (list Receipt) :=
  receipts ← rpc_receipts Rpc hash;
  lift (ok_or (mapM rpc_as_receipt receipts) (ReceiptsConversion hash)).
Definition EthProviderImpl (Rpc : L1Rpc W Header) : L1Client W := {|
  get_block_number := asking rpc_block_number;
  get_header_by_hash := rpc_get_header_by_hash Rpc;
  get_header_by_number := rpc_get_header_by_number Rpc;
  get_block_receipts_by_hash := eth_receipts Rpc;
  get_full_block_by_hash := rpc_get_full_block_by_hash Rpc eth_transaction;
|}.

(** [BaseProviderImpl]. *)
Definition base_transaction (tx : RpcTransaction) : L1Transaction :=
  mkL1Transaction (rt_tx_hash tx) (rt_signer tx) (rt_input tx) (rt_to tx).
Definition convert_base_receipt_consensus_receipt {Rpc : L1Rpc W Header} (receipt : RpcReceipt)
    : outcome AlloyChainProviderError Receipt := expect (rpc_as_receipt receipt).
Definition base_receipts (Rpc : L1Rpc W Header) (hash : B256) : ST W AlloyChainProviderError (list Receipt) :=
  receipts ← rpc_receipts Rpc hash;
  lift (collect_results convert_base_receipt_consensus_receipt receipts).
Definition BaseProviderImpl (Rpc : L1Rpc W Header) : L1Client W := {|
  get_block_number := asking rpc_block_number;
  get_header_by_hash := rpc_get_header_by_hash Rpc;
  get_header_by_number := rpc_get_header_by_number Rpc;
  get_block_receipts_by_hash := base_receipts Rpc;
  get_full_block_by_hash := rpc_get_full_block_by_hash Rpc base_transaction;
|}.

(** Base is 8453, its test network 84532. *)
Definition create_l1_provider (Ethereum Optimism : L1Rpc W Header) (chain_id : Z) : L1Client W :=
  if decide (chain_id = 8453 ∨ chain_id = 84532) then BaseProviderImpl Optimism else EthProviderImpl Ethereum.
End clients.

(** * The caches *)

(** The crate lru; [lru_peek] is its [peek], which only the laws use. *)
Class Lru := {
  LruCache : Type → Type → Type;
  lru_new {K V} : Z → LruCache K V;
  lru_get {K V} `{EqDecision K} : K → LruCache K V → option V * LruCache K V;
  lru_put {K V} `{EqDecision K} : K → V → LruCache K V → LruCache K V;
  lru_peek {K V} `{EqDecision K} : K → LruCache K V → option V;
}.
(** A cache forgets, and holds nothing but what was put last. *)
Class LruLaws `{!Lru} := {
  lru_peek_new {K V} `{EqDecision K} (k : K) n : lru_peek k (lru_new (V:=V) n) = None;
  lru_get_peek {K V} `{EqDecision K} (k : K) (c : LruCache K V) : (lru_get k c).1 = lru_peek k c;
  lru_peek_get {K V} `{EqDecision K} (k k' : K) (c : LruCache K V) v :
    lru_peek k' (lru_get k c).2 = Some v → lru_peek k' c = Some v;
  lru_peek_put {K V} `{EqDecision K} (k k' : K) v (c : LruCache K V) v' :
    lru_peek k' (lru_put k v c) = Some v' → k' = k ∧ v' = v ∨ k' ≠ k ∧ lru_peek k' c = Some v';
}.

Definition CACHE_SIZE : Z := 2048.
Definition BACKGROUND_TASK_STEP_INTERVAL : Z := 1000.
Definition DERIVE_HEAD_BLOCK_UPDATE_INTERVAL : Z := 5.
Definition DERIVE_FINALIZE_BLOCK_UPDATE_INTERVAL : Z := 100.

Section provider.
Context {W : Type} `{Client : !L1Client W} `{Caches : !Lru}.

(** * The provider *)

(** The fields behind a lock or an atomic are the state; every lock is held only within one call. *)
Record L1ChainProvider := mkL1ChainProvider {
  derive_delay_l1_block_num : Z;
  l1_chain_id : Z;
  inner : W;
  next_fetch_block_receipt_height : Z;
  header_by_hash_cache : LruCache B256 L1Header;
  receipts_by_hash_cache : LruCache B256 (list Receipt);
  block_info_by_number_cache : LruCache Z BlockInfo;
  latest_finalized_block_info : option BlockInfo;
  latest_safe_block_info : option BlockInfo;
  latest_head_block_info : option BlockInfo;
  is_background_task_running : bool;
}.
Implicit Types self : L1ChainProvider.

Definition set_inner (x : W) self : L1ChainProvider :=
  mkL1ChainProvider (derive_delay_l1_block_num self) (l1_chain_id self) x (next_fetch_block_receipt_height self)
    (header_by_hash_cache self) (receipts_by_hash_cache self) (block_info_by_number_cache self)
    (latest_finalized_block_info self) (latest_safe_block_info self) (latest_head_block_info self) (is_background_task_running self).
Definition set_next_fetch (x : Z) self : L1ChainProvider :=
  mkL1ChainProvider (derive_delay_l1_block_num self) (l1_chain_id self) (inner self) x
    (header_by_hash_cache self) (receipts_by_hash_cache self) (block_info_by_number_cache self)
    (latest_finalized_block_info self) (latest_safe_block_info self) (latest_head_block_info self) (is_background_task_running self).
Definition set_header_cache (x : LruCache B256 L1Header) self : L1ChainProvider :=
  mkL1ChainProvider (derive_delay_l1_block_num self) (l1_chain_id self) (inner self) (next_fetch_block_receipt_height self)
    x (receipts_by_hash_cache self) (block_info_by_number_cache self)
    (latest_finalized_block_info self) (latest_safe_block_info self) (latest_head_block_info self) (is_background_task_running self).
Definition set_receipts_cache (x : LruCache B256 (list Receipt)) self : L1ChainProvider :=
  mkL1ChainProvider (derive_delay_l1_block_num self) (l1_chain_id self) (inner self) (next_fetch_block_receipt_height self)
    (header_by_hash_cache self) x (block_info_by_number_cache self)
    (latest_finalized_block_info self) (latest_safe_block_info self) (latest_head_block_info self) (is_background_task_running self).
Definition set_number_cache (x : LruCache Z BlockInfo) self : L1ChainProvider :=
  mkL1ChainProvider (derive_delay_l1_block_num self) (l1_chain_id self) (inner self) (next_fetch_block_receipt_height self)
    (header_by_hash_cache self) (receipts_by_hash_cache self) x
    (latest_finalized_block_info self) (latest_safe_block_info self) (latest_head_block_info self) (is_background_task_running self).
Definition set_latest_finalized (x : option BlockInfo) self : L1ChainProvider :=
  mkL1ChainProvider (derive_delay_l1_block_num self) (l1_chain_id self) (inner self) (next_fetch_block_receipt_height self)
    (header_by_hash_cache self) (receipts_by_hash_cache self) (block_info_by_number_cache self)
    x (latest_safe_block_info self) (latest_head_block_info self) (is_background_task_running self).
Definition set_latest_safe (x : option BlockInfo) self : L1ChainProvider :=
  mkL1ChainProvider (derive_delay_l1_block_num self) (l1_chain_id self) (inner self) (next_fetch_block_receipt_height self)
    (header_by_hash_cache self) (receipts_by_hash_cache self) (block_info_by_number_cache self)
    (latest_finalized_block_info self) x (latest_head_block_info self) (is_background_task_running self).
Definition set_latest_head (x : option BlockInfo) self : L1ChainProvider :=
  mkL1ChainProvider (derive_delay_l1_block_num self) (l1_chain_id self) (inner self) (next_fetch_block_receipt_height self)
    (header_by_hash_cache self) (receipts_by_hash_cache self) (block_info_by_number_cache self)
    (latest_finalized_block_info self) (latest_safe_block_info self) x (is_background_task_running self).
Definition set_derive_delay (x : Z) self : L1ChainProvider :=
  mkL1ChainProvider x (l1_chain_id self) (inner self) (next_fetch_block_receipt_height self)
    (header_by_hash_cache self) (receipts_by_hash_cache self) (block_info_by_number_cache self)
    (latest_finalized_block_info self) (latest_safe_block_info self) (latest_head_block_info self) (is_background_task_running self).

(** [connection] is the client made for the url. *)
Definition new (chain_id : Z) (connection : W) : L1ChainProvider :=
  mkL1ChainProvider 0 chain_id connection 0 (lru_new CACHE_SIZE) (lru_new CACHE_SIZE) (lru_new CACHE_SIZE) None None None false.
Definition reset_provider (connection : W) self : L1ChainProvider := set_inner connection self.

Abbreviation Asking := (ST L1ChainProvider AlloyChainProviderError).

(** ** What is done under one lock

    A method takes the locks one after the other: between the node's answer and the use of a cache
    other calls and the background task go on.  An [action] is what happens under one lock; a
    method is a [thread], a tree of actions.  [Choose] asks the executor which of two futures that
    are awaited together it polls. *)
Inductive action :=
| LookHeader (hash : B256) | LookReceipts (hash : B256) | LookNumber (n : Z)
| AskNumber | AskHeader (hash : B256) | AskAt (number : BlockNumberOrTag) | AskReceipts (hash : B256) | AskFull (hash : B256)
| PutHeader (hash : B256) (header : L1Header) | PutReceipts (hash : B256) (receipts : list Receipt)
| PutNumber (n : Z) (block_info : BlockInfo)
| ReadFinalized | SetHead (b : BlockInfo) | SetSafe (b : BlockInfo) | SetFinalized (b : BlockInfo) | SetNext (n : Z)
| Choose.
Definition reply (a : action) : Type :=
  match a with
  | LookHeader _ => option L1Header
  | LookReceipts _ => option (list Receipt)
  | LookNumber _ | ReadFinalized => option BlockInfo
  | AskNumber => outcome AlloyChainProviderError Z
  | AskHeader _ | AskAt _ => outcome AlloyChainProviderError L1Header
  | AskReceipts _ => outcome AlloyChainProviderError (list Receipt)
  | AskFull _ => outcome AlloyChainProviderError (BlockInfo * list L1Transaction)
  | Choose => bool
  | _ => unit
  end.

(** A call of the node, under the read lock of [inner]. *)
Definition on_inner {A} (m : ST W AlloyChainProviderError A) self : outcome AlloyChainProviderError A * L1ChainProvider :=
  let '(r, w) := m (inner self) in (r, set_inner w self).
(** [cache.lock().await.get(..)] and [put(..)]: a hit makes an entry the latest used. *)
Definition cached {K V} `{EqDecision K} (cache : L1ChainProvider → LruCache K V)
    (set : LruCache K V → L1ChainProvider → L1ChainProvider) (k : K) self : option V * L1ChainProvider :=
  let '(hit, c) := lru_get k (cache self) in (hit, set c self).
Definition cache_put {K V} `{EqDecision K} (cache : L1ChainProvider → LruCache K V)
    (set : LruCache K V → L1ChainProvider → L1ChainProvider) (k : K) (v : V) self : unit * L1ChainProvider :=
  (tt, set (lru_put k v (cache self)) self).

(** [choice] is the executor's, where it is asked. *)
Definition perform (a : action) (choice : bool) self : reply a * L1ChainProvider :=
  match a with
  | LookHeader hash => cached header_by_hash_cache set_header_cache hash self
  | LookReceipts hash => cached receipts_by_hash_cache set_receipts_cache hash self
  | LookNumber n => cached block_info_by_number_cache set_number_cache n self
  | AskNumber => on_inner get_block_number self
  | AskHeader hash => on_inner (get_header_by_hash hash) self
  | AskAt number => on_inner (get_header_by_number number) self
  | AskReceipts hash => on_inner (get_block_receipts_by_hash hash) self
  | AskFull hash => on_inner (get_full_block_by_hash hash) self
  | PutHeader hash header => cache_put header_by_hash_cache set_header_cache hash header self
  | PutReceipts hash receipts => cache_put receipts_by_hash_cache set_receipts_cache hash receipts self
  | PutNumber n block_info => cache_put block_info_by_number_cache set_number_cache n block_info self
  | ReadFinalized => (latest_finalized_block_info self, self)
  | SetHead b => (tt, set_latest_head (Some b) self)
  | SetSafe b => (tt, set_latest_safe (Some b) self)
  | SetFinalized b => (tt, set_latest_finalized (Some b) self)
  | SetNext n => (tt, set_next_fetch n self)
  | Choose => (choice, self)
  end.

Inductive thread (A : Type) : Type :=
| Finished (r : outcome AlloyChainProviderError A)
| Atomic (a : action) (k : reply a → thread A).
Arguments Finished {A}.
Arguments Atomic {A}.

#[global] Instance thread_ret : MRet thread := λ A a, Finished (Ok a).
#[global] Instance thread_bind : MBind thread := λ A B k,
  fix bind t :=
    match t with
    | Finished (Ok a) => k a
    | Finished (Err e) => Finished (Err e)
    | Finished Panic => Finished Panic
    | Atomic a j => Atomic a (λ x, bind (j x))
    end.
Definition act (a : action) : thread (reply a) := Atomic a (λ x, Finished (Ok x)).
(** [?] on the answer of the node. *)
Definition answered {A} (r : outcome AlloyChainProviderError A) : thread A := Finished r.

(** [tokio::try_join!]: the two futures advance in any order; the first error is the answer. *)
Definition try_join {A B} : thread A → thread B → thread (A * B) :=
  fix join t := fix join' u :=
    match t, u with
    | Finished (Err e), _ | _, Finished (Err e) => Finished (Err e)
    | Finished Panic, _ | _, Finished Panic => Finished Panic
    | Finished (Ok a), Finished (Ok b) => Finished (Ok (a, b))
    | Atomic a k, Finished (Ok _) => Atomic a (λ x, join (k x) u)
    | Finished (Ok _), Atomic a' k' => Atomic a' (λ y, join' (k' y))
    | Atomic a k, Atomic a' k' =>
        Atomic Choose (λ first : bool, if first then Atomic a (λ x, join (k x) u) else Atomic a' (λ y, join' (k' y)))
    end.
(** [futures::future::try_join_all]. *)
Fixpoint try_join_all {A} (ts : list (thread A)) : thread (list A) :=
  match ts with
  | [] => mret []
  | t :: ts => '(x, xs) ← try_join t (try_join_all ts); mret (x :: xs)
  end.

(** A thread that runs with nothing in between, the first of two futures first. *)
Fixpoint alone {A} (t : thread A) : Asking A := λ self,
  match t with
  | Finished r => (r, self)
  | Atomic a k => let '(x, self) := perform a true self in alone (k x) self
  end.

(** ** The methods *)

Definition latest_block_number : thread Z := r ← act AskNumber; answered r.
Definition header_by_hash (hash : B256) : thread L1Header :=
  hit ← act (LookHeader hash);
  match hit with
  | Some header => mret header
  | None =>
      r ← act (AskHeader hash);
      header ← answered r;
      act (PutHeader hash header);;
      mret header
  end.
Definition block_info_by_hash (hash : B256) : thread BlockInfo :=
  header ← header_by_hash hash;
  mret (block_info_from header).

(** What follows the node's answer in [block_info_by_number]. *)
Definition store_header (header : L1Header) : thread unit :=
  finalized ← act ReadFinalized;
  (if decide (bi_number (default BlockInfo_default finalized) >= hdr_number header)
   then act (PutNumber (hdr_number header) (block_info_from header)) else mret tt);;
  act (PutHeader (hdr_hash header) header).
Definition fetch_by_number (number : BlockNumberOrTag) : thread BlockInfo :=
  r ← act (AskAt number);
  header ← answered r;
  store_header header;;
  mret (block_info_from header).
Definition block_info_by_number (number : BlockNumberOrTag) : thread BlockInfo :=
  match number with
  | Number n =>
      hit ← act (LookNumber n);
      match hit with Some block_info => mret block_info | None => fetch_by_number number end
  | _ => fetch_by_number number
  end.
Definition receipts_by_hash (hash : B256) : thread (list Receipt) :=
  hit ← act (LookReceipts hash);
  match hit with
  | Some receipts => mret receipts
  | None =>
      r ← act (AskReceipts hash);
      res_receipts ← answered r;
      act (PutReceipts hash res_receipts);;
      mret res_receipts
  end.
Definition get_block_transactions_by_hash (hash : B256) : thread (list L1Transaction) :=
  r ← act (AskFull hash);
  block ← answered r;
  mret block.2.
Definition get_latest_head_block_info self : BlockInfo := default BlockInfo_default (latest_head_block_info self).

(** * The background task *)

Definition pre_fetch_receipts (number : Z) : thread unit :=
  block_info ← block_info_by_number (Number number);
  _ ← receipts_by_hash (bi_hash block_info);
  mret tt.
Definition get_concurrency_level self : Z := if decide (l1_chain_id self = 1 ∨ l1_chain_id self = 11155111) then 3 else 6.

(** The variables of the thread around the provider it shares. *)
Record BackgroundTask := mkBackgroundTask {
  bt_provider : L1ChainProvider;
  last_head_update_timestamp : Z;
  last_finalize_update_timestamp : Z;
  next_fetch_height : Z;
}.
Implicit Types task : BackgroundTask.
Definition set_bt_provider (x : L1ChainProvider) task : BackgroundTask :=
  mkBackgroundTask x (last_head_update_timestamp task) (last_finalize_update_timestamp task) (next_fetch_height task).
Definition set_last_head (x : Z) task : BackgroundTask :=
  mkBackgroundTask (bt_provider task) x (last_finalize_update_timestamp task) (next_fetch_height task).
Definition set_last_finalize (x : Z) task : BackgroundTask :=
  mkBackgroundTask (bt_provider task) (last_head_update_timestamp task) x (next_fetch_height task).
Definition set_next_fetch_height (x : Z) task : BackgroundTask :=
  mkBackgroundTask (bt_provider task) (last_head_update_timestamp task) (last_finalize_update_timestamp task) x.

Definition saturating_sub (a b : Z) : Z := Z.max 0 (a - b).

(** [start_background_task]: it does not start where one is known to run. *)
Definition start_background_task (next_fetch_block_receipt_height derive_delay_l1_block_num : Z) self : option BackgroundTask :=
  if is_background_task_running self then None
  else Some (mkBackgroundTask (set_derive_delay derive_delay_l1_block_num self) 0 0 next_fetch_block_receipt_height).

(** One turn of the loop, in three parts: the head, the finalized block and the prefetches.  They read
    the variables of the thread; a part answers what it assigns to them. *)
Definition update_head (now latest_number last_head delay : Z) : thread Z :=
  if decide (now - last_head > DERIVE_HEAD_BLOCK_UPDATE_INTERVAL) then
    head ← block_info_by_number (Number (saturating_sub latest_number delay));
    act (SetHead head);;
    mret now
  else mret last_head.
Definition update_finalized (now last_finalize : Z) : thread Z :=
  if decide (now - last_finalize > DERIVE_FINALIZE_BLOCK_UPDATE_INTERVAL) then
    '(safe, finalized) ← try_join (block_info_by_number Safe) (block_info_by_number Finalized);
    act (SetSafe safe);;
    act (SetFinalized finalized);;
    mret now
  else mret last_finalize.
(** How far the prefetches came, and whether there is more to catch up. *)
Definition prefetch (latest_number next delay level : Z) : thread (Z * bool) :=
  let concurrency := Z.min level (saturating_sub latest_number next) in
  if decide (concurrency = 0) then mret (next, false) else
  try_join_all ((λ i, pre_fetch_receipts (u64_add next i)) <$> seqZ 0 concurrency);;
  let next := u64_add next concurrency in
  act (SetNext next);;
  mret (next, bool_decide (next < saturating_sub latest_number delay)).
Definition turn (now last_head last_finalize next delay level : Z) : thread (Z * bool) :=
  latest_number ← latest_block_number;
  update_head now latest_number last_head delay;;
  update_finalized now last_finalize;;
  prefetch latest_number next delay level.

(** The turn with the variables of the thread, nothing in between: an assignment stays when a later
    part fails. *)
Abbreviation Stepping := (ST BackgroundTask AlloyChainProviderError).
Definition on_provider {A} (t : thread A) : Stepping A := zoom bt_provider set_bt_provider (alone t).
Definition background_step (now : Z) : Stepping bool :=
  task ← gets id;
  let delay := derive_delay_l1_block_num (bt_provider task) in
  latest_number ← on_provider latest_block_number;
  last_head ← on_provider (update_head now latest_number (last_head_update_timestamp task) delay);
  modify (set_last_head last_head);;
  last_finalize ← on_provider (update_finalized now (last_finalize_update_timestamp task));
  modify (set_last_finalize last_finalize);;
  '(next, more) ← on_provider (prefetch latest_number (next_fetch_height task) delay (get_concurrency_level (bt_provider task)));
  modify (set_next_fetch_height next);;
  mret more.
(** How long the task sleeps after it, in milliseconds. *)
Definition idle_duration (step_result : outcome AlloyChainProviderError bool) : Z :=
  match step_result with Ok true => 300 | _ => BACKGROUND_TASK_STEP_INTERVAL end.

(** * The provider without its caches *)

Inductive question := QNumber | QHeader (hash : B256) | QBlock (hash : B256) | QBlockAt (number : BlockNumberOrTag)
| QReceipts (hash : B256) | QTransactions (hash : B256).
Definition answer (q : question) : Type :=
  match q with
  | QNumber => Z
  | QHeader _ => L1Header
  | QBlock _ | QBlockAt _ => BlockInfo
  | QReceipts _ => list Receipt
  | QTransactions _ => list L1Transaction
  end.
Definition call (q : question) : thread (answer q) :=
  match q with
  | QNumber => latest_block_number
  | QHeader hash => header_by_hash hash
  | QBlock hash => block_info_by_hash hash
  | QBlockAt number => block_info_by_number number
  | QReceipts hash => receipts_by_hash hash
  | QTransactions hash => get_block_transactions_by_hash hash
  end.
Definition block_info_of (m : ST W AlloyChainProviderError L1Header) : ST W AlloyChainProviderError BlockInfo :=
  header ← m; mret (block_info_from header).
Definition ask_node (q : question) : ST W AlloyChainProviderError (answer q) :=
  match q with
  | QNumber => get_block_number
  | QHeader hash => get_header_by_hash hash
  | QBlock hash => block_info_of (get_header_by_hash hash)
  | QBlockAt number => block_info_of (get_header_by_number number)
  | QReceipts hash => get_block_receipts_by_hash hash
  | QTransactions hash => block ← get_full_block_by_hash hash; mret block.2
  end.

(** What the provider may rely on: asking only lets the L1 move on; a hash names one header and one list
    of receipts for good; up to a height that only grows, so does a number, and the block a node calls
    finalized is not above it. *)
Class ConsistentL1 := {
  later : W → W → Prop;
  later_order :: PreOrder later;
  finalized_to : W → Z;
  asking_moves q w : later w (ask_node q w).2;
  finalized_grows w w' : later w w' → finalized_to w ≤ finalized_to w';
  genesis_final w : 0 ≤ finalized_to w;
  hash_names_header h w x w' y :
    run (get_header_by_hash h) w = Ok x → later w w' → run (get_header_by_hash h) w' = Ok y → y = x;
  header_has_hash t w x w' y :
    run (get_header_by_number t) w = Ok x → later w w' → run (get_header_by_hash (hdr_hash x)) w' = Ok y → y = x;
  hash_names_receipts h w x w' y :
    run (get_block_receipts_by_hash h) w = Ok x → later w w' → run (get_block_receipts_by_hash h) w' = Ok y → y = x;
  final_stays t w x w' y :
    run (get_header_by_number t) w = Ok x → hdr_number x ≤ finalized_to w → later w w' →
    run (get_header_by_number (Number (hdr_number x))) w' = Ok y → y = x;
  finalized_tag w x : run (get_header_by_number Finalized) w = Ok x → hdr_number x ≤ finalized_to w;
}.

(** * Calls and turns side by side *)

(** What goes on beside the L1: calls, each with what the L1 was when it began, and turns of background
    tasks. *)
Inductive running :=
| Calling (q : question) (t : thread (answer q)) (since : W)
| Turning (t : thread (Z * bool)).
(** What can happen: a call begins; a turn begins, whatever the variables of its thread; the [i]-th
    thread performs its next action; the L1 moves on, or the provider is reset to a new client of it. *)
Inductive event :=
| BeginCall (q : question)
| BeginTurn (now last_head last_finalize next delay level : Z)
| Advance (i : nat) (choice : bool)
| Moves (w : W).
Definition pool : Type := L1ChainProvider * list running.
Definition happen (e : event) (s : pool) : option pool :=
  let '(p, ts) := s in
  match e with
  | BeginCall q => Some (p, ts ++ [Calling q (call q) (inner p)])
  | BeginTurn now last_head last_finalize next delay level => Some (p, ts ++ [Turning (turn now last_head last_finalize next delay level)])
  | Advance i choice =>
      match ts !! i with
      | Some (Calling q (Atomic a k) since) => let '(x, p) := perform a choice p in Some (p, <[i := Calling q (k x) since]> ts)
      | Some (Turning (Atomic a k)) => let '(x, p) := perform a choice p in Some (p, <[i := Turning (k x)]> ts)
      | _ => None
      end
  | Moves w => Some (reset_provider w p, ts)
  end.
Definition happens (s : pool) (es : list event) : option pool := foldl (λ s e, s ≫= happen e) (Some s) es.
(** The L1 only moves on. *)
Inductive step `{L1 : !ConsistentL1} (s s' : pool) : Prop :=
| stepped e : happen e s = Some s' → (∀ w, e = Moves w → later (inner s.1) w) → step s s'.

(** The answer [r] stands for the node's answer [r']: it is the same, or the node failed. *)
Definition serves {A} (r r' : outcome AlloyChainProviderError A) : Prop := r = r' ∨ (is_ok r = true ∧ is_ok r' = false).

Section transparency.
Context `{Forgetful : !LruLaws} `{L1 : !ConsistentL1}.

(** [b] is a block of number [n] that the node answered when [n] was not final yet; it is now. *)
Definition stale (n : Z) (b : BlockInfo) (w : W) : Prop :=
  ∃ t w0 x, later w0 w ∧ run (get_header_by_number t) w0 = Ok x ∧ b = block_info_from x ∧ hdr_number x = n ∧
    finalized_to w0 < n <= finalized_to w.
Definition stale_answer (q : question) (w : W) : outcome AlloyChainProviderError (answer q) → Prop :=
  match q with QBlockAt (Number n) => λ r, ∃ b, r = Ok b ∧ stale n b w | _ => λ _, False end.
(** What a call may answer at [w]: what is not cached comes from the node; a cached answer is the node's,
    unless the node fails; but a block asked for by its number may be one the node gave earlier. *)
Definition served (q : question) (r : outcome AlloyChainProviderError (answer q)) (w : W) : Prop :=
  match q with
  | QHeader _ | QBlock _ | QReceipts _ => serves r (run (ask_node q) w)
  | QBlockAt (Number _) => serves r (run (ask_node q) w) ∨ stale_answer q w r
  | _ => r = run (ask_node q) w
  end.
(** At some moment since [since]. *)
Definition served_since (q : question) (since : W) (r : outcome AlloyChainProviderError (answer q)) (w : W) : Prop :=
  ∃ w0, later since w0 ∧ later w0 w ∧ served q r w0.

(** [x] is what [m] answers from here on. *)
Definition lasting {A} (m : ST W AlloyChainProviderError A) (w : W) (x : A) : Prop :=
  ∀ w' y, later w w' → run m w' = Ok y → y = x.
Definition numbered (n : Z) (b : BlockInfo) (w : W) : Prop :=
  lasting (block_info_of (get_header_by_number (Number n))) w b ∨ stale n b w.
Record sound (p : L1ChainProvider) : Prop := {
  sound_headers h x : lru_peek h (header_by_hash_cache p) = Some x → lasting (get_header_by_hash h) (inner p) x;
  sound_receipts h x : lru_peek h (receipts_by_hash_cache p) = Some x → lasting (get_block_receipts_by_hash h) (inner p) x;
  sound_numbers n b : lru_peek n (block_info_by_number_cache p) = Some b → numbered n b (inner p);
  sound_finalized : bi_number (default BlockInfo_default (latest_finalized_block_info p)) ≤ finalized_to (inner p);
}.

Lemma lasting_later {A} (m : ST W AlloyChainProviderError A) w w' x : lasting m w x → later w w' → lasting m w' x.
Proof. intros H Hw v y Hv. apply H. by trans w'. Qed.
Lemma stale_later n b w w' : stale n b w → later w w' → stale n b w'.
Proof.
  intros (t & w0 & x & Hw0 & Hx & Hb & Hn & Hf) Hw. exists t, w0, x. pose proof (finalized_grows _ _ Hw).
  split_and!; [by trans w|done..|lia|lia].
Qed.
Lemma numbered_later n b w w' : numbered n b w → later w w' → numbered n b w'.
Proof. intros [H|H] Hw; [left; by eapply lasting_later|right; by eapply stale_later]. Qed.
Lemma serves_lasting {A} (m : ST W AlloyChainProviderError A) w x : lasting m w x → serves (Ok x) (run m w).
Proof.
  intros Hx. destruct (run m w) as [y|e|] eqn:Hm; [left|by right..]. f_equal. symmetry. by eapply Hx.
Qed.
Lemma serves_fmap {A B} (f : A → B) (r r' : outcome AlloyChainProviderError A) : serves r r' → serves (f <$> r) (f <$> r').
Proof. intros [->|[Hr Hr']]; [by left|]. right. by destruct r, r'. Qed.
Lemma block_info_of_run m w : run (block_info_of m) w = block_info_from <$> run m w.
Proof. unfold run, block_info_of. rewrite bind_run. by destruct (m w) as [[x|e|] w']. Qed.
Lemma block_info_of_world m w : (block_info_of m w).2 = (m w).2.
Proof. unfold block_info_of. rewrite bind_run. by destruct (m w) as [[x|e|] w']. Qed.
Lemma block_info_of_Ok m w b : run (block_info_of m) w = Ok b ↔ ∃ x, run m w = Ok x ∧ b = block_info_from x.
Proof. rewrite block_info_of_run. destruct (run m w); cbn; naive_solver. Qed.
Lemma transactions_of (m : ST W AlloyChainProviderError (BlockInfo * list L1Transaction)) w :
  (block ← m; mret block.2) w = (block ← (m w).1; Ok block.2, (m w).2).
Proof. rewrite bind_run. by destruct (m w) as [[x|e|] w']. Qed.

(** ** What an action needs and gives *)

Definition promised (a : action) (w : W) : Prop :=
  match a with
  | PutHeader hash header => lasting (get_header_by_hash hash) w header
  | PutReceipts hash receipts => lasting (get_block_receipts_by_hash hash) w receipts
  | PutNumber n b => numbered n b w
  | SetFinalized b => bi_number b <= finalized_to w
  | _ => True
  end.
Definition granted (a : action) (w : W) : reply a → W → Prop :=
  match a with
  | LookHeader hash => λ hit w', ∀ x, hit = Some x → lasting (get_header_by_hash hash) w' x
  | LookReceipts hash => λ hit w', ∀ x, hit = Some x → lasting (get_block_receipts_by_hash hash) w' x
  | LookNumber n => λ hit w', ∀ b, hit = Some b → numbered n b w'
  | AskNumber => λ r _, r = run get_block_number w
  | AskHeader hash => λ r _, r = run (get_header_by_hash hash) w
  | AskAt number => λ r _, r = run (get_header_by_number number) w
  | AskReceipts hash => λ r _, r = run (get_block_receipts_by_hash hash) w
  | AskFull hash => λ r _, r = run (get_full_block_by_hash hash) w
  | ReadFinalized => λ b w', bi_number (default BlockInfo_default b) <= finalized_to w'
  | _ => λ _ _, True
  end.

Lemma sound_new n w : sound (new n w).
Proof. split; cbn; intros; [by rewrite lru_peek_new in *..|apply genesis_final]. Qed.
Lemma sound_moved w p : sound p → later (inner p) w → sound (set_inner w p).
Proof.
  intros [Hh Hr Hn Hf] Hw. split; cbn.
  - intros h x Hx. eapply lasting_later; [by apply Hh|done].
  - intros h x Hx. eapply lasting_later; [by apply Hr|done].
  - intros n b Hb. eapply numbered_later; [by apply Hn|done].
  - pose proof (finalized_grows _ _ Hw). lia.
Qed.

Lemma perform_asking {A} (m : ST W AlloyChainProviderError A) p r p' :
  sound p → later (inner p) (m (inner p)).2 → on_inner m p = (r, p') →
  sound p' ∧ later (inner p) (inner p') ∧ r = run m (inner p).
Proof.
  intros Hp Hw. unfold on_inner, run. destruct (m (inner p)) as [r' w]. cbn in *. intros [= <- <-].
  split; [by apply sound_moved|done].
Qed.
Lemma perform_sound a choice p x p' :
  sound p → promised a (inner p) → perform a choice p = (x, p') →
  sound p' ∧ later (inner p) (inner p') ∧ granted a (inner p) x (inner p').
Proof.
  intros Hp Ha Hx. pose proof Hp as [Hh Hr Hn Hf].
  destruct a; cbn [perform promised granted reply] in *;
    try (injection Hx as <- <-; split; [by split|done]).
  - unfold cached in Hx. destruct (lru_get hash (header_by_hash_cache p)) as [hit c] eqn:Hg. injection Hx as <- <-.
    split; [|split; [done|]].
    + split; [|done..]. intros k y Hy. apply Hh, (lru_peek_get hash). by rewrite Hg.
    + intros y ->. apply Hh. by rewrite <- lru_get_peek, Hg.
  - unfold cached in Hx. destruct (lru_get hash (receipts_by_hash_cache p)) as [hit c] eqn:Hg. injection Hx as <- <-.
    split; [|split; [done|]].
    + split; [done| |done..]. intros k y Hy. apply Hr, (lru_peek_get hash). by rewrite Hg.
    + intros y ->. apply Hr. by rewrite <- lru_get_peek, Hg.
  - unfold cached in Hx. destruct (lru_get n (block_info_by_number_cache p)) as [hit c] eqn:Hg. injection Hx as <- <-.
    split; [|split; [done|]].
    + split; [done..| |done]. intros k y Hy. apply Hn, (lru_peek_get n). by rewrite Hg.
    + intros y ->. apply Hn. by rewrite <- lru_get_peek, Hg.
  - apply (perform_asking get_block_number); [done| |done]. apply (asking_moves QNumber).
  - apply (perform_asking (get_header_by_hash hash)); [done| |done]. apply (asking_moves (QHeader hash)).
  - apply (perform_asking (get_header_by_number number)); [done| |done].
    pose proof (asking_moves (QBlockAt number) (inner p)) as H. cbn [ask_node] in H. by rewrite block_info_of_world in H.
  - apply (perform_asking (get_block_receipts_by_hash hash)); [done| |done]. apply (asking_moves (QReceipts hash)).
  - apply (perform_asking (get_full_block_by_hash hash)); [done| |done].
    pose proof (asking_moves (QTransactions hash) (inner p)) as H. cbn [ask_node] in H. by rewrite transactions_of in H.
  - injection Hx as <- <-. split; [|done]. split; [|done..].
    intros k v [[-> ->]|[_ Hv]]%lru_peek_put; [done|by apply Hh].
  - injection Hx as <- <-. split; [|done]. split; [done| |done..].
    intros k v [[-> ->]|[_ Hv]]%lru_peek_put; [done|by apply Hr].
  - injection Hx as <- <-. split; [|done]. split; [done..| |done].
    intros k v [[-> ->]|[_ Hv]]%lru_peek_put; [done|by apply Hn].
Qed.

(** ** Threads among others *)

(** Whatever the others do before each action of the thread, the action may be performed, and what the
    thread finishes with satisfies [Q] from then on. *)
Fixpoint fine {A} (Q : outcome AlloyChainProviderError A → W → Prop) (t : thread A) (w : W) : Prop :=
  match t with
  | Finished r => ∀ v, later w v → Q r v
  | Atomic a k => ∀ v, later w v → promised a v ∧ ∀ x v', later v v' → granted a v x v' → fine Q (k x) v'
  end.

Lemma fine_later {A} (Q : outcome AlloyChainProviderError A → W → Prop) t w w' : fine Q t w → later w w' → fine Q t w'.
Proof. destruct t; cbn; intros H Hw v Hv; apply H; by trans w'. Qed.
Lemma fine_mono {A} (Q R : outcome AlloyChainProviderError A → W → Prop) t : ∀ w,
  fine Q t w → (∀ r v, later w v → Q r v → R r v) → fine R t w.
Proof.
  induction t as [r|a k IH]; intros w H HQ; cbn in *; intros v Hv; [by apply HQ; [|apply H]|].
  destruct (H v Hv) as [Ha Hk]. split; [done|]. intros x v' Hv' Hx. apply IH; [by apply Hk|].
  intros r u Hu. apply HQ. by trans v'; [trans v|].
Qed.
Lemma fine_ret {A} (Q : outcome AlloyChainProviderError A → W → Prop) a w : (∀ v, later w v → Q (Ok a) v) → fine Q (mret a) w.
Proof. done. Qed.
Lemma fine_bind {A B} (Q : outcome AlloyChainProviderError A → W → Prop) (R : outcome AlloyChainProviderError B → W → Prop)
    t (k : A → thread B) : ∀ w,
  fine Q t w →
  (∀ r v, later w v → Q r v →
    match r with Ok a => fine R (k a) v | Err e => R (Err e) v | Panic => R Panic v end) →
  fine R (t ≫= k) w.
Proof.
  induction t as [[a|e|]|a j IH]; intros w H HQ.
  - by apply (HQ (Ok a) w), H.
  - intros v Hv. by apply (HQ (Err e)), H.
  - intros v Hv. by apply (HQ Panic), H.
  - intros v Hv. destruct (H v Hv) as [Ha Hk]. split; [done|]. intros x v' Hv' Hx. apply IH; [by apply Hk|].
    intros r u Hu. apply HQ. by trans v'; [trans v|].
Qed.
(** An action, then the rest. *)
Lemma fine_act {B} (R : outcome AlloyChainProviderError B → W → Prop) a (k : reply a → thread B) w :
  (∀ v, later w v → promised a v ∧ ∀ x v', later v v' → granted a v x v' → fine R (k x) v') → fine R (act a ≫= k) w.
Proof. done. Qed.
(** A question to the node, then the rest. *)
Lemma fine_answered {A B} (R : outcome AlloyChainProviderError B → W → Prop) (r : outcome AlloyChainProviderError A)
    (k : A → thread B) w :
  match r with Ok a => fine R (k a) w | Err e => ∀ v, later w v → R (Err e) v | Panic => ∀ v, later w v → R Panic v end →
  fine R (answered r ≫= k) w.
Proof. by destruct r. Qed.
Definition settled {A} : outcome AlloyChainProviderError A → W → Prop := λ _ _, True.
Lemma fine_settled {A} (Q : outcome AlloyChainProviderError A → W → Prop) t w : fine Q t w → fine settled t w.
Proof. intros H. by eapply fine_mono. Qed.
Lemma fine_settled_bind {A B} t (k : A → thread B) w :
  fine settled t w → (∀ a v, later w v → fine settled (k a) v) → fine settled (t ≫= k) w.
Proof. intros Ht Hk. apply (fine_bind settled); [done|]. intros [a|e|] v Hv _; [by apply Hk|done..]. Qed.

Definition both {A B} (Q : outcome AlloyChainProviderError A → W → Prop) (R : outcome AlloyChainProviderError B → W → Prop)
    (r : outcome AlloyChainProviderError (A * B)) (w : W) : Prop :=
  match r with Ok (a, b) => Q (Ok a) w ∧ R (Ok b) w | _ => True end.
Lemma fine_join {A B} (Q : outcome AlloyChainProviderError A → W → Prop) (R : outcome AlloyChainProviderError B → W → Prop) t :
  ∀ u w, fine Q t w → fine R u w → fine (both Q R) (try_join t u) w.
Proof.
  induction t as [r|a k IH]; intros u; induction u as [r'|a' k' IH']; intros w Ht Hu.
  - destruct r as [x|e|], r' as [y|e'|]; intros v Hv; try done. split; [by apply Ht|by apply Hu].
  - destruct r as [x|e|]; [|done..]. intros v Hv. destruct (Hu v Hv) as [Ha Hk]. split; [done|].
    intros y v' Hv' Hy. apply IH'; [by eapply fine_later; [exact Ht|trans v]|by apply Hk].
  - destruct r' as [y|e|]; [|done..]. intros v Hv. destruct (Ht v Hv) as [Ha Hk]. split; [done|].
    intros x v' Hv' Hx. apply IH; [by apply Hk|by eapply fine_later; [exact Hu|trans v]].
  - intros v0 Hv0. split; [done|]. intros [|] v1 Hv1 _ v Hv; (assert (later w v) as Hwv by (by trans v1; [trans v0|])).
    + destruct (Ht v Hwv) as [Ha Hk]. split; [done|].
      intros x v' Hv' Hx. apply IH; [by apply Hk|by eapply fine_later; [exact Hu|trans v]].
    + destruct (Hu v Hwv) as [Ha Hk]. split; [done|].
      intros y v' Hv' Hy. apply IH'; [by eapply fine_later; [exact Ht|trans v]|by apply Hk].
Qed.
Lemma fine_join_all {A} (ts : list (thread A)) w : Forall (λ t, fine settled t w) ts → fine settled (try_join_all ts) w.
Proof.
  induction 1 as [|t ts Ht _ IH]; [done|]. cbn [try_join_all]. apply fine_settled_bind; [|by intros [x xs]].
  by eapply fine_settled, (fine_join settled settled).
Qed.

(** ** The methods among others *)

Lemma served_later q since r w w' : served_since q since r w → later w w' → served_since q since r w'.
Proof. intros (w0 & H1 & H2 & H3) Hw. exists w0. split_and!; [done|by trans w|done]. Qed.
Lemma served_now q since r w0 w : later since w0 → served q r w0 → later w0 w → served_since q since r w.
Proof. by exists w0. Qed.

Lemma number_fine w : fine (served_since QNumber w) latest_block_number w.
Proof.
  apply fine_act. intros v Hv. split; [done|]. intros r v' Hv' ->.
  intros u Hu. apply (served_now QNumber w _ v); [done|done|by trans v'].
Qed.
Lemma transactions_fine hash w : fine (served_since (QTransactions hash) w) (get_block_transactions_by_hash hash) w.
Proof.
  apply fine_act. intros v Hv. split; [done|]. intros r v' Hv' ->.
  assert (∀ u, later v' u → served_since (QTransactions hash) w (block ← run (get_full_block_by_hash hash) v; Ok block.2) u) as H.
  { intros u Hu. apply (served_now (QTransactions hash) w _ v); [done| |by trans v'].
    cbn [served ask_node]. unfold run. by rewrite transactions_of. }
  apply fine_answered. by destruct (run (get_full_block_by_hash hash) v).
Qed.
Lemma header_fine hash w : fine (served_since (QHeader hash) w) (header_by_hash hash) w.
Proof.
  apply fine_act. intros v Hv. split; [done|]. intros [x|] v' Hv' Hx.
  { intros u Hu. apply (served_now (QHeader hash) w _ v'); [by trans v|by apply serves_lasting, Hx|done]. }
  apply fine_act. intros v1 Hv1. split; [done|]. intros r v2 Hv2 ->. cbn [reply].
  assert (later w v1) as Hw1 by (by trans v'; [trans v|]).
  assert (∀ u, later v2 u → served_since (QHeader hash) w (run (get_header_by_hash hash) v1) u) as H.
  { intros u Hu. apply (served_now (QHeader hash) w _ v1); [done|by left|by trans v2]. }
  apply fine_answered. destruct (run (get_header_by_hash hash) v1) as [x|e|] eqn:Hh; [|done..].
  apply fine_act. intros v3 Hv3. split; [|intros _ v4 Hv4 _ u Hu; apply H; by trans v4; [trans v3|]].
  intros w' y Hw' Hy. eapply hash_names_header; [exact Hh| |exact Hy]. by trans v3; [trans v2|].
Qed.
Lemma block_fine hash w : fine (served_since (QBlock hash) w) (block_info_by_hash hash) w.
Proof.
  apply (fine_bind (served_since (QHeader hash) w)); [apply header_fine|].
  intros r v Hv (w0 & Hw0 & Hw & Hs). apply (serves_fmap block_info_from) in Hs.
  assert (∀ u, later v u → served_since (QBlock hash) w (block_info_from <$> r) u) as H.
  { intros u Hu. exists w0. split_and!; [done|by trans v|]. cbn [served ask_node]. by rewrite block_info_of_run. }
  destruct r; [exact H|by apply H..].
Qed.
Lemma receipts_fine hash w : fine (served_since (QReceipts hash) w) (receipts_by_hash hash) w.
Proof.
  apply fine_act. intros v Hv. split; [done|]. intros [x|] v' Hv' Hx.
  { intros u Hu. apply (served_now (QReceipts hash) w _ v'); [by trans v|by apply serves_lasting, Hx|done]. }
  apply fine_act. intros v1 Hv1. split; [done|]. intros r v2 Hv2 ->. cbn [reply].
  assert (later w v1) as Hw1 by (by trans v'; [trans v|]).
  assert (∀ u, later v2 u → served_since (QReceipts hash) w (run (get_block_receipts_by_hash hash) v1) u) as H.
  { intros u Hu. apply (served_now (QReceipts hash) w _ v1); [done|by left|by trans v2]. }
  apply fine_answered. destruct (run (get_block_receipts_by_hash hash) v1) as [x|e|] eqn:Hh; [|done..].
  apply fine_act. intros v3 Hv3. split; [|intros _ v4 Hv4 _ u Hu; apply H; by trans v4; [trans v3|]].
  intros w' y Hw' Hy. eapply hash_names_receipts; [exact Hh| |exact Hy]. by trans v3; [trans v2|].
Qed.

(** The header the node answered at [w0] is stored, however late: by its number only when that is known
    to be final, and then it is final or was replaced since. *)
Lemma store_fine t w0 x w : run (get_header_by_number t) w0 = Ok x → later w0 w → fine (λ r _, r = Ok tt) (store_header x) w.
Proof.
  intros Hx Hw0. apply fine_act. intros v Hv. split; [done|]. intros finalized v1 Hv1 Hf. cbn [granted] in Hf.
  assert (∀ v2, later w0 v2 → fine (λ r _, r = Ok tt) (act (PutHeader (hdr_hash x) x)) v2) as Hput.
  { intros v2 Hv2 v3 Hv3. split; [|by intros [] v4 _ _ u _]. intros w' y Hw' Hy.
    eapply header_has_hash; [exact Hx| |exact Hy]. by trans v3; [trans v2|]. }
  assert (later w0 v1) as Hw1 by (by trans v; [trans w|]).
  case_decide as Hd; [|by apply Hput]. apply fine_act. intros v2 Hv2. split; [|intros _ v3 Hv3 _; apply Hput; by trans v2; [trans v1|]].
  destruct (decide (hdr_number x <= finalized_to w0)) as [Hle|Hgt].
  - left. intros w' b Hw' (y & Hy & ->)%block_info_of_Ok. f_equal. eapply final_stays; [exact Hx|done| |exact Hy].
    by trans v2; [trans v1|].
  - right. exists t, w0, x. pose proof (finalized_grows _ _ Hv2). split_and!; [by trans v1|done..|lia|lia].
Qed.
Lemma fetch_fine t w :
  fine (λ r v, ∃ w0, later w w0 ∧ later w0 v ∧ r = run (block_info_of (get_header_by_number t)) w0) (fetch_by_number t) w.
Proof.
  apply fine_act. intros v Hv. split; [done|]. intros r v1 Hv1 ->. cbn [reply].
  assert (∀ u, later v1 u → ∃ w0, later w w0 ∧ later w0 u ∧
    (block_info_from <$> run (get_header_by_number t) v) = run (block_info_of (get_header_by_number t)) w0) as H.
  { intros u Hu. exists v. split_and!; [done|by trans v1|by rewrite block_info_of_run]. }
  apply fine_answered. destruct (run (get_header_by_number t) v) as [x|e|] eqn:Hx; [|exact H..].
  apply (fine_bind (λ r _, r = Ok tt)); [by eapply store_fine|]. intros r v2 Hv2 -> u Hu. apply H. by trans v2.
Qed.
Lemma at_number_fine t w : fine (served_since (QBlockAt t) w) (block_info_by_number t) w.
Proof.
  assert (∀ v, later w v → fine (served_since (QBlockAt t) w) (fetch_by_number t) v) as Hfetch.
  { intros v Hv. apply (fine_mono _ _ _ _ (fetch_fine t v)). intros r u _ (w0 & Hw0 & Hu & ->).
    exists w0. split_and!; [by trans v|done|]. destruct t; try done. by left; left. }
  destruct t as [| | | | |n]; try by apply Hfetch.
  apply fine_act. intros v Hv. split; [done|]. intros [b|] v' Hv' Hb; [|apply Hfetch; by trans v].
  intros u Hu. apply (served_now (QBlockAt (Number n)) w _ v'); [by trans v| |done].
  destruct (Hb b eq_refl) as [Hl|Hs]; [left; by apply serves_lasting|right; by exists b].
Qed.
Lemma call_fine q w : fine (served_since q w) (call q) w.
Proof.
  destruct q; [apply number_fine|apply header_fine|apply block_fine|apply at_number_fine|apply receipts_fine|apply transactions_fine].
Qed.

(** The block the node calls finalized is final by then. *)
Lemma finalized_final since r w b : served_since (QBlockAt Finalized) since r w → r = Ok b → bi_number b <= finalized_to w.
Proof.
  intros (w0 & _ & Hw & ->) (x & Hx & ->)%block_info_of_Ok. apply finalized_tag in Hx. apply finalized_grows in Hw.
  change (bi_number (block_info_from x)) with (hdr_number x). lia.
Qed.
Lemma turn_fine now last_head last_finalize next delay level w :
  fine settled (turn now last_head last_finalize next delay level) w.
Proof.
  apply fine_settled_bind; [eapply fine_settled, number_fine|]. intros latest v1 _.
  apply fine_settled_bind.
  { unfold update_head. case_decide; [|done]. apply fine_settled_bind; [eapply fine_settled, at_number_fine|]. done. }
  intros _ v2 _. apply fine_settled_bind.
  { unfold update_finalized. case_decide; [|done].
    apply (fine_bind (both settled (served_since (QBlockAt Finalized) v2))).
    - apply fine_join; [eapply fine_settled, at_number_fine|apply at_number_fine].
    - intros [[safe b]|e|] v3 _; [|done..]. intros [_ Hb]. apply fine_act. intros v4 Hv4. split; [done|]. intros _ v5 Hv5 _.
      apply fine_act. intros v6 Hv6. split; [|done]. eapply finalized_final; [|done]. eapply served_later; [exact Hb|].
      by trans v5; [trans v4|]. }
  intros _ v3 _. unfold prefetch. case_decide; [done|]. apply fine_settled_bind; [|done].
  apply fine_join_all, Forall_fmap, Forall_true. intros i. unfold pre_fetch_receipts, compose.
  apply fine_settled_bind; [eapply fine_settled, at_number_fine|]. intros b v4 _.
  apply fine_settled_bind; [eapply fine_settled, receipts_fine|done].
Qed.

(** ** All of them *)

Definition going_fine (w : W) (r : running) : Prop :=
  match r with Calling q t since => fine (served_since q since) t w | Turning t => fine settled t w end.
Definition good (s : pool) : Prop := sound s.1 ∧ Forall (going_fine (inner s.1)) s.2.

Lemma going_later w w' r : going_fine w r → later w w' → going_fine w' r.
Proof. destruct r; apply fine_later. Qed.
Lemma all_later w w' ts : Forall (going_fine w) ts → later w w' → Forall (going_fine w') ts.
Proof. intros H Hw. eapply Forall_impl; [exact H|]. intros r Hr. by eapply going_later. Qed.
Lemma good_step s s' : step s s' → good s → good s'.
Proof.
  intros [e He Hw] [Hp Hts]. destruct s as [p ts]. cbn [fst snd] in *. destruct e as [q|now lh lf next delay level|i choice|w]; cbn in He.
  - injection He as <-. split; [done|]. apply Forall_app. split; [done|]. apply Forall_singleton, call_fine.
  - injection He as <-. split; [done|]. apply Forall_app. split; [done|]. apply Forall_singleton, turn_fine.
  - destruct (ts !! i) as [[q [r|a k] since|[r|a k]]|] eqn:Hi; try done;
      (pose proof (proj1 (Forall_lookup _ _) Hts i _ Hi (inner p) ltac:(done)) as [Ha Hk];
       destruct (perform a choice p) as [x p'] eqn:Hx; injection He as <-;
       destruct (perform_sound a choice p x p' Hp Ha Hx) as (Hp' & Hl & Hg); split; [done|];
       apply Forall_insert; [by eapply all_later|]; by apply Hk).
  - injection He as <-. specialize (Hw w eq_refl). split; [by apply sound_moved|by eapply all_later].
Qed.

(** C15. The node's L1 provider among threads. A method locks one thing at a time, so the actions of
    calls and of background turns (any number of either), reorganisations and resets of the client
    interleave in any order. A call that has finished gives what the node answers at one moment of the
    call: exactly for what is not cached; for headers, blocks and receipts by hash a cached answer may
    stand in where the node fails. A block by number is the node's as well, or a stale one: a block of
    that number which a node answered before the number was final, and which was cached although
    the number was final by then. *)
Theorem l1_provider_transparent chain_id w p ts q r since :
  rtc step (new chain_id w, []) (p, ts) → Calling q (Finished r) since ∈ ts →
  ∃ w0, later since w0 ∧ later w0 (inner p) ∧ served q r w0.
Proof.
  intros Hs Hin. assert (good (new chain_id w, [])) as Hg by (split; [apply sound_new|constructor]).
  assert (good (p, ts)) as [_ Hts]; [by induction Hs; [|eauto using good_step]|].
  rewrite Forall_forall in Hts. by apply (Hts _ Hin).
Qed.

(** A schedule that happens. *)
Definition moves_on (s : pool) (es : list event) : Prop :=
  ∀ es1 w es2 s', es = es1 ++ Moves w :: es2 → happens s es1 = Some s' → later (inner s'.1) w.
Lemma happens_steps es : ∀ s s', happens s es = Some s' → moves_on s es → rtc step s s'.
Proof.
  induction es as [|e es IH] using rev_ind; intros s s'; unfold happens; [by intros [= <-]|].
  rewrite foldl_app. cbn. destruct (foldl _ (Some s) es) as [s1|] eqn:H1; [|done]. cbn. intros He Hm.
  eapply rtc_r; [apply IH; [exact H1|]|].
  - intros es1 w es2 s2 -> H2. by apply (Hm es1 w (es2 ++ [e])); [rewrite <- app_assoc|].
  - apply (stepped _ _ e He). intros w ->. by apply (Hm es w []).
Qed.
End transparency.

(** * The progress of the background task *)

Lemma alone_bind {A B} (t : thread A) (k : A → thread B) : ∀ p,
  alone (t ≫= k) p = (x ← alone t; alone (k x)) p.
Proof.
  induction t as [[a|e|]|a j IH]; intros p; [done..|]. cbn [alone]. rewrite bind_run. cbn [alone mbind thread_bind].
  destruct (perform a true p) as [x p']. rewrite <- bind_run. apply IH.
Qed.
Lemma on_provider_run {A} (t : thread A) task :
  on_provider t task = ((alone t (bt_provider task)).1, set_bt_provider (alone t (bt_provider task)).2 task).
Proof. unfold on_provider, zoom. by destruct (alone t (bt_provider task)). Qed.

(** A turn with nothing in between is the thread [turn], run alone. *)
Lemma turn_alone now task :
  alone (turn now (last_head_update_timestamp task) (last_finalize_update_timestamp task) (next_fetch_height task)
           (derive_delay_l1_block_num (bt_provider task)) (get_concurrency_level (bt_provider task))) (bt_provider task) =
  (more ← (background_step now task).1; Ok (next_fetch_height (background_step now task).2, more),
   bt_provider (background_step now task).2).
Proof.
  unfold turn, background_step. rewrite run_gets, alone_bind, !bind_run, on_provider_run. cbn [id].
  destruct (alone latest_block_number (bt_provider task)) as [[latest|e|] p1]; [cbn [fst snd]|done..].
  rewrite alone_bind, !bind_run, on_provider_run. cbn [bt_provider set_bt_provider last_head_update_timestamp].
  destruct (alone (update_head _ _ _ _) p1) as [[head|e|] p2]; [cbn [fst snd]|done..].
  rewrite alone_bind, run_modify, !bind_run, on_provider_run.
  cbn [bt_provider set_bt_provider set_last_head last_finalize_update_timestamp].
  destruct (alone (update_finalized _ _) p2) as [[finalize|e|] p3]; [cbn [fst snd]|done..].
  rewrite run_modify, !bind_run, on_provider_run. cbn [bt_provider set_bt_provider set_last_finalize next_fetch_height].
  by destruct (alone (prefetch _ _ _ _) p3) as [[[n more]|e|] p4].
Qed.

(** What the questions leave as it is. *)
Definition settings (p : L1ChainProvider) : Z * Z * Z := (l1_chain_id p, derive_delay_l1_block_num p, next_fetch_block_receipt_height p).
Fixpoint quiet {A} (t : thread A) : Prop :=
  match t with Finished _ => True | Atomic a k => (∀ n, a ≠ SetNext n) ∧ ∀ x, quiet (k x) end.
Lemma quiet_bind {A B} (t : thread A) (k : A → thread B) : quiet t → (∀ a, quiet (k a)) → quiet (t ≫= k).
Proof. intros Ht Hk. induction t as [[a|e|]|a j IH]; [apply Hk|done..|]. destruct Ht as [Ha Hj]. split; [done|]. intros x. by apply IH. Qed.
Lemma quiet_act a : (∀ n, a ≠ SetNext n) → quiet (act a).
Proof. by split. Qed.
Lemma quiet_join {A B} (t : thread A) : ∀ u : thread B, quiet t → quiet u → quiet (try_join t u).
Proof.
  induction t as [r|a k IH]; intros u; induction u as [r'|a' k' IH']; intros Ht Hu.
  - by destruct r, r'.
  - destruct r; [|done..]. destruct Hu as [Ha Hk]. split; [done|]. intros x. by apply IH'.
  - destruct r'; [|done..]. destruct Ht as [Ha Hk]. split; [done|]. intros x. by apply IH.
  - split; [done|]. destruct Ht as [Ha Hk], Hu as [Ha' Hk'].
    intros [|]; (split; [done|]); intros x; [apply IH|apply IH']; done.
Qed.
Lemma settings_perform a choice p : (∀ n, a ≠ SetNext n) → settings (perform a choice p).2 = settings p.
Proof.
  intros Ha. destruct a; cbn [perform]; unfold cached, on_inner, cache_put; try (by destruct (Ha n)); try done.
  all: match goal with |- context [let '(_, _) := ?m in _] => by destruct m end.
Qed.
Lemma settings_alone {A} (t : thread A) : ∀ p, quiet t → settings (alone t p).2 = settings p.
Proof.
  induction t as [r|a k IH]; intros p Ht; [done|]. destruct Ht as [Ha Hk]. cbn [alone].
  pose proof (settings_perform a true p Ha) as Hs. destruct (perform a true p) as [x p']. cbn in Hs. rewrite <- Hs. by apply IH.
Qed.
Lemma quiet_at_number t : quiet (block_info_by_number t).
Proof.
  assert (quiet (fetch_by_number t)) as Hf.
  { split; [done|]. intros [x|e|]; [|done..]. split; [done|]. intros b. cbn. case_decide; by repeat split. }
  destruct t as [| | | | |n]; try exact Hf. split; [done|]. by intros [b|].
Qed.
Lemma quiet_receipts h : quiet (receipts_by_hash h).
Proof. split; [done|]. intros [rs|]; [done|]. split; [done|]. intros [rs|e|]; by repeat split. Qed.
Lemma quiet_pre_fetch n : quiet (pre_fetch_receipts n).
Proof. apply quiet_bind; [apply quiet_at_number|]. intros b. by apply quiet_bind; [apply quiet_receipts|]. Qed.
Lemma quiet_head now latest last delay : quiet (update_head now latest last delay).
Proof. unfold update_head. case_decide; [|done]. apply quiet_bind; [apply quiet_at_number|]. by repeat split. Qed.
Lemma quiet_finalized now last : quiet (update_finalized now last).
Proof.
  unfold update_finalized. case_decide; [|done].
  apply quiet_bind; [apply quiet_join; apply quiet_at_number|]. intros [safe finalized]. by repeat split.
Qed.
Lemma quiet_join_all {A} (ts : list (thread A)) : Forall quiet ts → quiet (try_join_all ts).
Proof. induction 1 as [|t ts Ht _ IH]; [done|]. apply quiet_bind; [by apply quiet_join|]. by intros [x xs]. Qed.

(** Two futures that have not failed yet run one after the other. *)
Definition live {A} (t : thread A) : Prop := match t with Finished (Err _) | Finished Panic => False | _ => True end.
Lemma alone_join_Ok {A B} (x : A) (u : thread B) : ∀ p,
  alone (try_join (Finished (Ok x)) u) p = (y ← alone u; mret (x, y)) p.
Proof.
  induction u as [[y|e|]|a k IH]; intros p; [done..|]. cbn [alone try_join]. rewrite bind_run. cbn [alone].
  destruct (perform a true p) as [z p']. rewrite <- bind_run. apply (IH z).
Qed.
Lemma alone_join {A B} (t : thread A) (u : thread B) : live u → ∀ p,
  alone (try_join t u) p = (x ← alone t; y ← alone u; mret (x, y)) p.
Proof.
  intros Hu. induction t as [[x|e|]|a k IH]; intros p.
  - apply alone_join_Ok.
  - by destruct u as [[]|].
  - by destruct u as [[]|].
  - rewrite bind_run. cbn [alone]. specialize (IH (perform a true p).1 (perform a true p).2). rewrite bind_run in IH. revert IH.
    destruct u as [[y|e|]|a' k']; try done; cbn [try_join alone perform]; by destruct (perform a true p) as [z p'].
Qed.
Lemma live_bind {A B} (t : thread A) (k : A → thread B) : live t → (∀ a, live (k a)) → live (t ≫= k).
Proof. destruct t as [[]|]; try done. intros _ Hk. apply Hk. Qed.
Lemma live_join {A B} (t : thread A) (u : thread B) : live t → live u → live (try_join t u).
Proof. by destruct t as [[]|], u as [[]|]. Qed.
Lemma live_join_all {A} (ts : list (thread A)) : Forall live ts → live (try_join_all ts).
Proof. induction 1 as [|t ts Ht _ IH]; [done|]. apply live_bind; [by apply live_join|]. by intros [x xs]. Qed.

(** The blocks from [n] up to [m], without [m], were looked up by their numbers, and the receipts of each
    by its hash, one after the other. *)
Inductive prefetched (m : Z) : Z → L1ChainProvider → L1ChainProvider → Prop :=
| prefetched_all p : prefetched m m p p
| prefetched_block n b receipts p p1 p2 p' :
    n < m → alone (block_info_by_number (Number n)) p = (Ok b, p1) → alone (receipts_by_hash (bi_hash b)) p1 = (Ok receipts, p2) →
    prefetched m (n + 1) p2 p' → prefetched m n p p'.

Lemma prefetch_all next count : ∀ i p r p',
  0 <= next → 0 <= i → next + i + Z.of_nat count < 2 ^ 64 →
  alone (try_join_all ((λ i, pre_fetch_receipts (u64_add next i)) <$> seqZ i (Z.of_nat count))) p = (Ok r, p') →
  prefetched (next + i + Z.of_nat count) (next + i) p p'.
Proof.
  induction count as [|count IH]; intros i p r p' Hn Hi Hm Hr.
  - injection Hr as _ <-. rewrite Z.add_0_r. constructor.
  - rewrite Nat2Z.inj_succ in *. rewrite seqZ_cons, fmap_cons in Hr by lia. cbn [try_join_all] in Hr. rewrite alone_bind in Hr.
    apply bind_Ok in Hr as ([u us] & p3 & Hr & Hlast). injection Hlast as _ <-.
  rewrite alone_join in Hr by (apply live_join_all; by apply Forall_fmap, Forall_true).
    apply bind_Ok in Hr as (u' & p4 & Hpre & Hr). apply bind_Ok in Hr as (us' & p5 & Hr & Hret). injection Hret as -> -> ->.
    unfold pre_fetch_receipts in Hpre. rewrite alone_bind in Hpre. apply bind_Ok in Hpre as (b & p6 & Hb & Hpre).
    rewrite alone_bind in Hpre. apply bind_Ok in Hpre as (rs & p7 & Hrs & Hpre). injection Hpre as _ ->.
    rewrite u64_add_small in Hb by lia.
    eapply prefetched_block; [lia|exact Hb|exact Hrs|].
    replace (next + i + Z.succ (Z.of_nat count)) with (next + (i + 1) + Z.of_nat count) by lia.
    rewrite Z.pred_succ in Hr. replace (next + i + 1) with (next + (i + 1)) by lia. apply (IH (i + 1) p4 us); [lia..|exact Hr].
Qed.

Lemma level_positive p : 0 < get_concurrency_level p.
Proof. unfold get_concurrency_level. case_decide; lia. Qed.

(** Where the prefetches of a turn end. *)
Lemma prefetch_Ok latest next delay level p n more p' :
  is_u64 latest → is_u64 next → 0 <= delay → 0 < level → alone (prefetch latest next delay level) p = (Ok (n, more), p') →
  n = Z.max next (Z.min (next + level) latest) ∧ more = bool_decide (next < n ∧ n < latest - delay) ∧
  ∃ p2, prefetched n next p p2 ∧ p' = if decide (next < n) then set_next_fetch n p2 else p2.
Proof.
  intros Hl Hn Hd Hlevel. unfold prefetch, saturating_sub, in_width in *. case_decide as Hc.
  - intros [= <- <- <-]. assert (next = Z.max next (Z.min (next + level) latest)) as Hmax by lia.
    split_and!; [done|by rewrite bool_decide_eq_false_2 by lia|]. exists p. split; [constructor|]. by rewrite decide_False by lia.
  - rewrite alone_bind. intros Hr. apply bind_Ok in Hr as (us & p2 & Hr & Hrest).
    set (count := Z.min level (Z.max 0 (latest - next))) in *.
    assert (0 < count ∧ count <= level ∧ count <= latest - next ∧ (count = level ∨ count = latest - next)) as Hcount by lia.
    clearbody count. rewrite u64_add_small in Hrest by lia. cbn in Hrest. injection Hrest as <- <- <-.
    split_and!; [lia|apply bool_decide_ext; lia|]. exists p2. rewrite decide_True by lia. split; [|done].
    pose proof (prefetch_all next (Z.to_nat count) 0 p us p2) as H. rewrite Z2Nat.id, !Z.add_0_r in H by lia.
    apply H; [lia..|exact Hr].
Qed.

Lemma prefetch_failed latest next delay level p :
  is_ok (alone (prefetch latest next delay level) p).1 = false →
  settings (alone (prefetch latest next delay level) p).2 = settings p.
Proof.
  unfold prefetch. case_decide; [done|]. rewrite alone_bind, bind_run.
  match goal with |- context [alone (try_join_all ?ts) p] => pose proof (settings_alone (try_join_all ts) p) as Hs end.
  destruct (alone (try_join_all _) p) as [[us|e|] p']; [done|..]; intros _; apply Hs;
    (apply quiet_join_all, Forall_fmap, Forall_true; intros i; apply quiet_pre_fetch).
Qed.

(** C39. A turn of the background task with nothing in between. One that succeeds asks the node for the
    head of the L1, updates the head block and the finalized block when their time has come, and then
    looks up, one by one and in order, every block from the height it had reached to the next, and the
    receipts of each by its hash: as many as its level allows, up to the head and no further. The
    height it came to is published, and it says whether it is still behind by more than the delay. A turn
    that fails in any part leaves the height and what is published as they were, so that the next starts
    over. *)
Theorem background_progress now task r task' :
  (∀ w n, run get_block_number w = Ok n → is_u64 n) →
  is_u64 (next_fetch_height task) → 0 <= derive_delay_l1_block_num (bt_provider task) →
  background_step now task = (r, task') →
  match r with
  | Ok more =>
      ∃ latest w head finalize p0 p1 p2,
        let height := next_fetch_height task in
        let next := Z.max height (Z.min (height + get_concurrency_level (bt_provider task)) latest) in
        get_block_number (inner (bt_provider task)) = (Ok latest, w) ∧
        alone (update_head now latest (last_head_update_timestamp task) (derive_delay_l1_block_num (bt_provider task)))
          (set_inner w (bt_provider task)) = (Ok head, p0) ∧
        alone (update_finalized now (last_finalize_update_timestamp task)) p0 = (Ok finalize, p1) ∧
        prefetched next height p1 p2 ∧
        task' = mkBackgroundTask (if decide (height < next) then set_next_fetch next p2 else p2) head finalize next ∧
        more = bool_decide (height < next ∧ next < latest - derive_delay_l1_block_num (bt_provider task))
  | _ =>
      next_fetch_height task' = next_fetch_height task ∧
      next_fetch_block_receipt_height (bt_provider task') = next_fetch_block_receipt_height (bt_provider task)
  end.
Proof.
  intros Hnum Hn Hd. unfold background_step. rewrite run_gets, bind_run, on_provider_run. cbn [id].
  assert (settings (alone latest_block_number (bt_provider task)).2 = settings (bt_provider task)) as H0
    by (by apply settings_alone; split; [|intros []]).
  destruct (alone latest_block_number (bt_provider task)) as [[latest|e|] p] eqn:Hlatest; cbn [fst snd] in *;
    [|intros [= <- <-]; split; [done|by injection H0 as _ _ H0]..].
  assert (∃ w, get_block_number (inner (bt_provider task)) = (Ok latest, w) ∧ p = set_inner w (bt_provider task)) as (w & Hw & Hp).
  { revert Hlatest. cbn. unfold on_inner. destruct (get_block_number (inner (bt_provider task))) as [rn w]. cbn.
    intros [= -> <-]. by eexists. }
  rewrite bind_run, on_provider_run. cbn [bt_provider set_bt_provider last_head_update_timestamp].
  pose proof (settings_alone _ p (quiet_head now latest (last_head_update_timestamp task) (derive_delay_l1_block_num (bt_provider task)))) as H1.
  rewrite H0 in H1.
  destruct (alone (update_head _ _ _ _) p) as [[head|e|] p0] eqn:Hhead; cbn [fst snd] in *;
    [|intros [= <- <-]; split; [done|by injection H1 as _ _ H1]..].
  rewrite run_modify, bind_run, on_provider_run. cbn [bt_provider set_bt_provider set_last_head last_finalize_update_timestamp].
  pose proof (settings_alone _ p0 (quiet_finalized now (last_finalize_update_timestamp task))) as H2. rewrite H1 in H2.
  destruct (alone (update_finalized _ _) p0) as [[finalize|e|] p1] eqn:Hfin; cbn [fst snd] in *;
    [|intros [= <- <-]; split; [done|by injection H2 as _ _ H2]..].
  rewrite run_modify, bind_run, on_provider_run. cbn [bt_provider set_bt_provider set_last_finalize next_fetch_height].
  set (level := get_concurrency_level (bt_provider task)).
  pose proof (prefetch_failed latest (next_fetch_height task) (derive_delay_l1_block_num (bt_provider task)) level p1) as H3.
  destruct (alone (prefetch _ _ _ level) p1) as [[[n more]|e|] p2] eqn:Hpre; cbn [fst snd] in *;
    [|rewrite H2 in H3; intros [= <- <-]; split; [done|by injection (H3 eq_refl) as _ _ H4]..].
  intros [= <- <-]. apply prefetch_Ok in Hpre as (Hnext & Hmore & p3 & Hp3 & Hset);
    [|by eapply Hnum; unfold run; rewrite Hw|done|done|apply level_positive].
  exists latest, w, head, finalize, p0, p1, p3. cbv zeta. fold level. rewrite <- Hnext. subst p. by rewrite <- Hset.
Qed.
End provider.
Arguments Finished {A}.
Arguments Atomic {A}.

(** * A small L1 *)

(** Six blocks, of which the last is replaced and then final; a header is its number and its branch, and
    its hash tells both. *)
Module Forked.
#[local] Instance header : AlloyHeader := {|
  Header := Z * Z;
  header_rlp _ := Panic;
  hash_slow h := be_bytes 32 (2 * h.1 + h.2);
  al_parent_hash h := be_bytes 32 (2 * (h.1 - 1));
  al_number h := h.1;
  al_timestamp h := 12 * h.1;
  al_state_root _ := B256_ZERO;
  al_transactions_root _ := B256_ZERO;
  al_receipts_root _ := B256_ZERO;
|}.

(** An association list, the latest used first. *)
Fixpoint alookup {K V} `{EqDecision K} (k : K) (l : list (K * V)) : option V :=
  match l with [] => None | (k', v) :: l => if decide (k' = k) then Some v else alookup k l end.
Definition without {K V} `{EqDecision K} (k : K) (l : list (K * V)) : list (K * V) := filter (λ e, e.1 ≠ k) l.
Lemma alookup_without {K V} `{EqDecision K} (k k' : K) (l : list (K * V)) v :
  alookup k' (without k l) = Some v → k' ≠ k ∧ alookup k' l = Some v.
Proof.
  unfold without. induction l as [|[k0 v0] l IH]; [done|]. rewrite filter_cons. cbn. repeat case_decide; cbn; subst; try naive_solver.
  - rewrite decide_True by done. naive_solver.
  - rewrite decide_False by done. naive_solver.
Qed.
Lemma alookup_take {K V} `{EqDecision K} n (k : K) (l : list (K * V)) v : alookup k (take n l) = Some v → alookup k l = Some v.
Proof.
  revert n. induction l as [|[k0 v0] l IH]; intros [|n]; try done. cbn. case_decide; [done|apply IH].
Qed.
#[local] Instance caches : Lru := {|
  LruCache K V := (nat * list (K * V))%type;
  lru_new K V n := (Z.to_nat n, []);
  lru_get K V _ k c :=
    match alookup k c.2 with
    | Some v => (Some v, (c.1, (k, v) :: without k c.2))
    | None => (None, c)
    end;
  lru_put K V _ k v c := (c.1, take c.1 ((k, v) :: without k c.2));
  lru_peek K V _ k c := alookup k c.2;
|}.
#[local] Instance caches_forget : LruLaws.
Proof.
  split; cbn; intros K V HK.
  - done.
  - intros k c. by destruct (alookup k c.2).
  - intros k k' c v. destruct (alookup k c.2) as [v0|] eqn:Hk; [cbn|done].
    case_decide as Hd; [subst; by intros [= <-]|]. intros Hv. by apply alookup_without in Hv as [_ Hv].
  - intros k k' v c v' Hv. apply alookup_take in Hv. cbn in Hv. case_decide as Hd; [left; naive_solver|].
    right. by apply alookup_without in Hv as [? ?].
Qed.

(** The world is whether the last block has been replaced. *)
Definition transaction (n : Z) : RpcTransaction := mkRpcTransaction (Some (be_bytes 32 10)) (be_bytes 32 (1000 + n)) (be_bytes 20 7) None [].
Definition block_of (h : Header) : RpcBlock Header := mkRpcBlock (hash_slow h) h [transaction 1; transaction 2].
Definition final (replaced : bool) : Z := if replaced then 5 else 0.
Definition block_at (n : Z) (replaced : bool) : option (RpcBlock Header) :=
  if decide (0 ≤ n ≤ 5) then Some (block_of (n, if decide (n = 5) then Z.b2z replaced else 0)) else None.
Definition number_of (t : BlockNumberOrTag) (replaced : bool) : Z :=
  match t with Number n => n | Finalized | Safe => final replaced | Earliest => 0 | Latest | Pending => 5 end.
#[local] Instance rpc : L1Rpc bool Header := {|
  RpcReceipt := unit;
  rpc_as_receipt _ := None;
  rpc_block_number := mret 5;
  rpc_block_by_hash h := mret (Some (block_of (be_val h / 2, be_val h mod 2) : RpcBlock Header));
  rpc_block_by_number t := λ w, (Ok (block_at (number_of t w) w), w);
  rpc_block_receipts _ := mret (Some []);
|}.
#[local] Instance client : L1Client bool := create_l1_provider rpc rpc 1.

Lemma by_number_stays t w : (get_header_by_number t w).2 = w.
Proof.
  change ((rpc_get_header_by_number rpc t w).2 = w). unfold rpc_get_header_by_number. rewrite bind_run. unfold asking.
  cbn [rpc_block_by_number rpc map_err]. by destruct (block_at (number_of t w) w).
Qed.
Lemma by_number t w x :
  run (get_header_by_number t) w = Ok x →
  0 ≤ number_of t w ≤ 5 ∧ x = l1_header_from ((number_of t w, if decide (number_of t w = 5) then Z.b2z w else 0) : Header).
Proof.
  change (run (rpc_get_header_by_number rpc t) w = Ok x →
    0 ≤ number_of t w ≤ 5 ∧ x = l1_header_from ((number_of t w, if decide (number_of t w = 5) then Z.b2z w else 0) : Header)).
  unfold run, rpc_get_header_by_number. rewrite bind_run. unfold asking. cbn [rpc_block_by_number rpc map_err]. unfold block_at.
  case_decide; cbn; [|done]. by intros [= <-].
Qed.
Lemma of_hash (n b : Z) : 0 ≤ n ≤ 5 → 0 ≤ b ≤ 1 →
  (be_val (be_bytes 32 (2 * n + b)) / 2, be_val (be_bytes 32 (2 * n + b)) mod 2) = (n, b).
Proof.
  intros Hn Hb. rewrite be_val_be_bytes_small by (cbn; lia). f_equal; [|rewrite Z.add_comm, Z.mul_comm, Z.mod_add by lia; apply Z.mod_small; lia].
  rewrite Z.mul_comm, Z.div_add_l by lia. rewrite Z.div_small by lia. lia.
Qed.
#[local] Program Instance consistent : ConsistentL1 := {|
  later w w' := w = true → w' = true;
  finalized_to := final;
|}.
Next Obligation. split; [by intros w Hw|]. intros a b c. naive_solver. Qed.
Next Obligation.
  intros q w Hw. destruct q as [| | |t| |]; try exact Hw. cbn [ask_node]. by rewrite block_info_of_world, by_number_stays.
Qed.
Next Obligation. intros [|] [|] H; cbn; naive_solver lia. Qed.
Next Obligation. intros [|]; cbn; lia. Qed.
Next Obligation. intros h w x w' y Hx _ Hy. injection Hx as <-. by injection Hy as <-. Qed.
Next Obligation.
  intros t w x w' y [Hn ->]%by_number _ Hy. injection Hy as <-. cbn [hdr_hash l1_header_from hash_slow header fst snd].
  unfold l1_header_from, block_of. cbn [rb_header]. rewrite of_hash; [done|done|]. case_decide; [destruct w; cbn; lia|lia].
Qed.
Next Obligation. intros h w x w' y Hx _ Hy. injection Hx as <-. by injection Hy as <-. Qed.
Next Obligation.
  intros t w x w' y [Hn ->]%by_number Hf Hw [_ ->]%by_number. cbn [number_of hdr_number l1_header_from al_number header fst] in *.
  case_decide as H5; [|done]. destruct w; [by rewrite Hw|]. cbn in Hf. lia.
Qed.
Next Obligation. intros w x [_ ->]%by_number. cbn. lia. Qed.

(** A call for the last block asks the node; the block is replaced and the new one becomes final, a turn
    of the background task learns that, and then the call goes on and caches what it was given. *)
Definition race : list (event (W:=bool)) :=
  [BeginCall (QBlockAt (Number 5)); Advance 0 true; Advance 0 true; Moves true; BeginTurn 1000 1000 0 5 0 3] ++
  replicate 12 (Advance 1 true) ++ replicate 3 (Advance 0 true).
(** Then the block is asked for again. *)
Definition asked_again : list (event (W:=bool)) := race ++ [BeginCall (QBlockAt (Number 5)); Advance 2 true].
(** What the [i]-th thread has finished with, where it asked for a block by its number: the number, the
    hash of the block, and what the L1 was when it began. *)
Definition block_given (i : nat) (s : option (pool (W:=bool))) : option (Z * B256 * bool) :=
  '(_, ts) ← s;
  match ts !! i with
  | Some (Calling (QBlockAt (Number n)) (Finished (Ok b)) since) => Some (n, bi_hash b, since)
  | _ => None
  end.
(** A provider whose background task caught up. *)
Definition caught_up : option BackgroundTask := start_background_task 3 1 (new 1 true).
Definition later_on : L1ChainProvider :=
  match caught_up with Some task => bt_provider (exec (background_step 1000) task) | None => new 1 true end.
End Forked.
#[local] Existing Instances Forked.header Forked.caches Forked.caches_forget Forked.rpc Forked.client Forked.consistent.

Lemma asked_again_steps :
  ∃ p ts b, rtc step (new 1 false, []) (p, ts) ∧ Calling (QBlockAt (Number 5)) (Finished (Ok b)) true ∈ ts ∧ bi_hash b = be_bytes 32 10.
Proof.
  assert (Forked.block_given 2 (happens (new 1 false, []) Forked.asked_again) = Some (5, be_bytes 32 10, true)) as Hgiven
    by (vm_compute; reflexivity).
  destruct (happens (new 1 false, []) Forked.asked_again) as [[p ts]|] eqn:Hs; [|done]. unfold Forked.block_given in Hgiven.
  cbn [mbind option_bind] in Hgiven. destruct (ts !! 2%nat) as [[q t since|]|] eqn:Hi; [|done..].
  destruct q as [| | |[| | | | |n]| |]; try done. destruct t as [[b|e|]|]; try done. injection Hgiven as -> Hb ->.
  exists p, ts, b. split_and!; [|by eapply list_elem_of_lookup_2|done].
  apply (happens_steps Forked.asked_again); [done|]. intros es1 w es2 s' Hes _ _.
  assert (Forall (λ e, match e with Moves w => w = true | _ => True end) Forked.asked_again) as Hall by (repeat constructor).
  rewrite Hes, Forall_app, Forall_cons in Hall. by destruct Hall as (_ & -> & _).
Qed.

Lemma l1_provider_transparent_witness :
  ∃ p ts b, rtc step (new 1 false, []) (p, ts) ∧ Calling (QBlockAt (Number 5)) (Finished (Ok b)) true ∈ ts ∧
    ∃ w0, later true w0 ∧ later w0 (inner p) ∧ served (QBlockAt (Number 5)) (Ok b) w0.
Proof.
  destruct asked_again_steps as (p & ts & b & Hs & Hin & _). exists p, ts, b. split; [exact Hs|]. split; [exact Hin|].
  exact (l1_provider_transparent 1 false p ts (QBlockAt (Number 5)) (Ok b) true Hs Hin).
Defined.

Definition three_behind : BackgroundTask := mkBackgroundTask (set_derive_delay 0 (new 1 true)) 0 0 1.
Lemma background_progress_witness :
  ∃ task' head finalize p0 p1 p2,
    background_step 1000 three_behind = (Ok true, task') ∧ prefetched 4 1 p1 p2 ∧
    task' = mkBackgroundTask (set_next_fetch 4 p2) head finalize 4 ∧
    alone (update_finalized 1000 0) p0 = (Ok finalize, p1).
Proof.
  assert ((background_step 1000 three_behind).1 = Ok true) as Hr by (vm_compute; reflexivity).
  destruct (background_step 1000 three_behind) as [r task] eqn:Hstep. cbn [fst] in Hr. subst r.
  destruct (background_progress 1000 three_behind (Ok true) task) as (latest & w & head & finalize & p0 & p1 & p2 & Hl & _ & Hf & Hp & Ht & _).
  - intros w n Hn. injection Hn as <-. unfold in_width. lia.
  - unfold three_behind, in_width. cbn. lia.
  - apply Z.le_refl.
  - exact Hstep.
  - injection Hl as <- <-. exists task, head, finalize, p0, p1, p2. by split_and!.
Defined.

(** The provider answers the replaced block, when the new one has been final since before the call. *)
Example stale_block_cached :
  ∃ p ts b, rtc step (new 1 false, []) (p, ts) ∧ Calling (QBlockAt (Number 5)) (Finished (Ok b)) true ∈ ts ∧
    bi_hash b = be_bytes 32 10 ∧ finalized_to true = 5 ∧
    bi_hash <$> run (ask_node (QBlockAt (Number 5))) true = Ok (be_bytes 32 11).
Proof.
  destruct asked_again_steps as (p & ts & b & Hs & Hin & Hb). exists p, ts, b.
  split_and!; [exact Hs|exact Hin|exact Hb|done|by vm_compute].
Qed.
(** The client of an Ethereum node gives every transaction the hash of its block. *)
Example eth_transactions_share_hash :
  run (alone (get_block_transactions_by_hash (be_bytes 32 10))) (new 1 false) =
    Ok (List.map eth_transaction [Forked.transaction 1; Forked.transaction 2]) ∧
  List.map l1tx_hash (List.map eth_transaction [Forked.transaction 1; Forked.transaction 2]) = [be_bytes 32 10; be_bytes 32 10] ∧
  List.map l1tx_hash (List.map base_transaction [Forked.transaction 1; Forked.transaction 2]) = [be_bytes 32 1001; be_bytes 32 1002].
Proof. by vm_compute. Qed.

(** A second background task starts while the first is running. *)
Example second_task_starts :
  next_fetch_block_receipt_height Forked.later_on = 5 ∧
  match start_background_task 0 0 Forked.later_on with Some task => next_fetch_height task = 0 | None => False end.
Proof. by vm_compute. Qed.
