(* ===== verification/Host.v ===== *)
(** The host of the proof program (src/bin/host/src/): the key-value stores (kv/, single/local_kv.rs),
    the backends that serve preimages (backend/), the handler of hints (single/handler.rs); and the
    boot information the client loads from it (src/crates/proof/proof/src/boot.rs).

    [boot_info_loaded]: the client boots with what the host was started with.
    [preimages_stay_sound]: under a hash the store holds only a preimage of it.
    [get_preimage_spec] and [failing_hint_never_returns]: how a key is looked up. *)
From S2P Require Import Prelude Blocks Rlp NodeCodec Mpt Executor Preimage ProgramCodec BridgeInstruction Hint Providers.
#[local] Open Scope Z_scope.

(** * Key-value stores *)

Class KeyValueStore (KV : Type) := {
  kv_get : B256 → KV → option bytes;
  kv_set : B256 → bytes → ST KV string unit;
}.

(** [MemoryKeyValueStore]. *)
#[global] Instance memory_store : KeyValueStore (gmap bytes bytes) := {|
  kv_get key store := store !! key;
  kv_set key value store := (Ok tt, <[key := value]> store);
|}.

(** [SingleChainHost]: its arguments, and the rollup config as read from its file. *)
Record SingleChainHost := mkSingleChainHost {
  sh_l1_head : B256;
  sh_agreed_l2_block_number : Z;
  sh_agreed_l2_output_root : B256;
  sh_claimed_l2_output_root : B256;
  sh_claimed_l2_block_number : Z;
  sh_l2_chain_id : option Z;
  sh_rollup_config : outcome string SoonRollupConfig;
}.

(** [serde_json] on the rollup config. *)
Class RollupJson := {
  json_to_vec : SoonRollupConfig → outcome string bytes;
  json_from_slice : bytes → outcome string SoonRollupConfig;
}.

Definition L1_HEAD_KEY : Z := 1.
Definition L2_OUTPUT_ROOT_KEY : Z := 2.
Definition L2_AGREED_BLOCK_NUMBER_KEY : Z := 3.
Definition L2_CLAIM_KEY : Z := 4.
Definition L2_CLAIM_BLOCK_NUMBER_KEY : Z := 5.
Definition L2_CHAIN_ID_KEY : Z := 6.
Definition L2_ROLLUP_CONFIG_KEY : Z := 7.

(** [Result::ok]. *)
Definition ok {E A} (r : outcome E A) : option A := match r with Ok a => Some a | _ => None end.

Section local.
Context `{!RollupJson}.

(** [SingleChainLocalInputs]; it is never written to. *)
Definition local_get (key : B256) (cfg : SingleChainHost) : option bytes :=
  preimage_key ← ok (key_try_from key);
  match key_value preimage_key with
  | 1 => Some (sh_l1_head cfg)
  | 2 => Some (sh_agreed_l2_output_root cfg)
  | 3 => Some (be_bytes 8 (sh_agreed_l2_block_number cfg))
  | 4 => Some (sh_claimed_l2_output_root cfg)
  | 5 => Some (be_bytes 8 (sh_claimed_l2_block_number cfg))
  | 6 => Some (be_bytes 8 (default 0 (sh_l2_chain_id cfg)))
  | 7 => rollup_config ← ok (sh_rollup_config cfg);
         ok (json_to_vec rollup_config)
  | _ => None
  end.
#[export] Instance local_inputs : KeyValueStore SingleChainHost := {|
  kv_get := local_get;
  kv_set _ _ := panic;
|}.
End local.

(** [SplitKeyValueStore]. *)
Record SplitKeyValueStore (L R : Type) := mkSplit { sp_local_store : L; sp_remote_store : R }.
Arguments mkSplit {L R}.
Arguments sp_local_store {L R}.
Arguments sp_remote_store {L R}.

#[global] Instance split_store {L R} `{!KeyValueStore L} `{!KeyValueStore R} : KeyValueStore (SplitKeyValueStore L R) := {|
  kv_get key self :=
    first ← head key;
    t ← ok (key_type_try_from (b2z first));
    if decide (t = Local_) then kv_get key (sp_local_store self) else kv_get key (sp_remote_store self);
  kv_set key value := zoom sp_remote_store (λ r self, mkSplit (sp_local_store self) r) (kv_set key value);
|}.

(** [OfflineHostBackend]. *)
Definition offline_get_preimage {KV} `{!KeyValueStore KV} (inner : KV) (key : PreimageKey) : outcome PreimageOracleError bytes :=
  ok_or (kv_get (key_bytes key) inner) KeyNotFound.

(** * Boot information *)

Record BootInfo := mkBootInfo {
  bt_l1_head : B256;
  bt_agreed_l2_output_root : B256;
  bt_agreed_l2_block_number : Z;
  bt_claimed_l2_output_root : B256;
  bt_claimed_l2_block_number : Z;
  bt_chain_id : Z;
  bt_rollup_config : SoonRollupConfig;
}.

Section boot.
Context {O : Type} `{!PreimageOracleClient O} `{!RollupJson}.

(** A call to the oracle, and one whose answer is a [u64]. *)
Definition boot_call {A} (m : ST O PreimageOracleError A) : ST O OracleProviderError A := λ o,
  let '(r, o) := m o in (map_err OPreimage r, o).
Definition boot_u64 (key : Z) : ST O OracleProviderError Z :=
  value ← boot_call (oc_get (new_local key));
  if decide (length value = 8%nat) then mret (be_val value) else fail SliceConversion.

Definition boot_load : ST O OracleProviderError BootInfo :=
  l1_head ← boot_call (oc_get_exact (new_local L1_HEAD_KEY) 32);
  l2_output_root ← boot_call (oc_get_exact (new_local L2_OUTPUT_ROOT_KEY) 32);
  agreed_l2_block_number ← boot_u64 L2_AGREED_BLOCK_NUMBER_KEY;
  l2_claim ← boot_call (oc_get_exact (new_local L2_CLAIM_KEY) 32);
  l2_claim_block ← boot_u64 L2_CLAIM_BLOCK_NUMBER_KEY;
  chain_id ← boot_u64 L2_CHAIN_ID_KEY;
  ser_cfg ← boot_call (oc_get (new_local L2_ROLLUP_CONFIG_KEY));
  rollup_config ← lift (map_err Serde (json_from_slice ser_cfg));
  mret (mkBootInfo l1_head l2_output_root agreed_l2_block_number l2_claim l2_claim_block chain_id rollup_config).
End boot.

(** * Hints *)

(** An account with its proofs; the account is given by its RLP encoding. *)
Record AccountWithTrie := mkAccountWithTrie { at_account : option bytes; at_proofs : list bytes; at_withdrawal_proofs : list bytes }.

(** The nodes the host asks, by what of their answers is stored: encodings of transactions and
    blocks are made by the types of other crates.  An error is given by its text. *)
Class HostProviders (P : Type) := {
  get_raw_header : B256 → ST P string bytes;
  get_transactions : B256 → ST P string (option (list bytes));
  get_raw_receipts : B256 → ST P string (list bytes);
  download_preimage : bytes → ST P string bytes;
  output_at_block : Z → ST P string OutputRoot;
  get_tried_account_proof : B256 → Z → ST P string AccountWithTrie;
  get_encoded_block : Z → ST P string bytes;
  (** The text is base58, decoded here; what is not base58 panics. *)
  get_bank_hash : Z → ST P string (option (outcome Empty_set bytes));
  get_block_time : Z → ST P string (option Z);
}.
(** The precompiles, and the nodes of the trie of an ordered list. *)
Class HostMaths := {
  execute_precompile : Address → bytes → Z → outcome string bytes;
  trie_nodes : list bytes → list bytes;
}.

Definition EMPTY_STRING_CODE : byte := z2b 0x80.

Section handler.
Context {KV P : Type} `{!KeyValueStore KV} `{!HostProviders P} `{!HostMaths} `{!Keccak} `{!TrieHash}.
Abbreviation HostM := (ST (KV * P) string).

Definition with_kv {A} (m : ST KV string A) : HostM A := zoom fst (λ kv s, (kv, s.2)) m.
Definition with_providers {A} (m : ST P string A) : HostM A := zoom snd (λ p s, (s.1, p)) m.
Definition set (key : PreimageKey) (value : bytes) : HostM unit := with_kv (kv_set (key_bytes key) value).
Definition ensure (cond : bool) (msg : string) : HostM unit := if cond then mret tt else fail msg.

(** [try_for_each] over the nodes. *)
Definition set_node (node : bytes) : HostM unit := set (new_keccak256 (keccak256 node)) node.

Definition store_ordered_trie (values : list bytes) : HostM unit :=
  if decide (values = []) then set (key_new EMPTY_ROOT_HASH Keccak256) [EMPTY_STRING_CODE]
  else for_each (λ value, set (key_new (keccak256 value) Keccak256) value) (trie_nodes values).

Definition fetch_hint (hint : Hint HintType) (cfg : SingleChainHost) : HostM unit :=
  let data := h_data hint in
  match h_ty hint with
  | L1BlockHeader =>
      _ ← ensure (len data =? 32) "Invalid hint data length for l1 block header";
      raw_header ← with_providers (get_raw_header data);
      set (new_keccak256 data) raw_header
  | L1Transactions =>
      _ ← ensure (len data =? 32) "Invalid hint data length for l1 transaction";
      block ← with_providers (get_transactions data);
      transactions ← lift (ok_or block "Block not found"%string);
      store_ordered_trie transactions
  | L1Receipts =>
      _ ← ensure (len data =? 32) "Invalid hint data length for l1 receipts";
      raw_receipts ← with_providers (get_raw_receipts data);
      store_ordered_trie raw_receipts
  | L1Blob => mret tt
  | DAProxyBlob_ =>
      blob ← with_providers (download_preimage data);
      set (new_da_proxy_blob data) blob
  | L1Precompile =>
      _ ← ensure (28 <=? len data) "Invalid hint data length for l1 precompile";
      address ← lift (slice data 0 20);
      gas ← lift (slice data 20 28);
      input ← lift (slice data 28 (len data));
      let input_hash := keccak256 data in
      result ← match execute_precompile address input (be_val gas) with
               | Ok raw_res => mret (byte1 :: raw_res)
               | Err _ => mret [byte0]
               | Panic => panic
               end;
      _ ← set (new_keccak256 input_hash) data;
      set (key_new input_hash Precompile) result
  | StartingL2Output =>
      _ ← ensure (len data =? 32) "Invalid hint data length for starting l2 output";
      output_res ← with_providers (output_at_block (sh_agreed_l2_block_number cfg));
      let output_root_hash := hash_output_root output_res in
      _ ← ensure (bool_decide (output_root_hash = sh_agreed_l2_output_root cfg)) "Output root does not match L2 head.";
      set (new_keccak256 output_root_hash) (encode_output_root output_res)
  | L2StateNode => mret tt
  | L2AccountProof_ =>
      _ ← ensure (len data =? 8 + 32) "Invalid hint req for L2AccountProof";
      block_number ← lift (slice data 0 8);
      hashed_address ← lift (slice data 8 40);
      tried_account ← with_providers (get_tried_account_proof hashed_address (be_val block_number));
      _ ← set (new_l2_account_proof hashed_address) (default [] (at_account tried_account));
      _ ← for_each set_node (at_proofs tried_account);
      for_each set_node (at_withdrawal_proofs tried_account)
  | L2BlockData =>
      _ ← ensure (len data =? 8) "Invalid hint data length for l2 block data";
      block_number ← lift (slice data 0 8);
      block ← with_providers (get_encoded_block (be_val block_number));
      set (new_block_slot (be_val block_number)) block
  | L2BankHash =>
      _ ← ensure (len data =? 8) "Invalid hint data length for l2 bank hash";
      block_number ← lift (slice data 0 8);
      bank_hash ← with_providers (get_bank_hash (be_val block_number));
      bank_hash_bytes ← match bank_hash with
                        | Some (Ok hash) => mret hash
                        | Some _ => panic
                        | None => mret []
                        end;
      set (new_l2_bank_hash (be_val block_number)) bank_hash_bytes
  | L2BlockTime =>
      _ ← ensure (len data =? 8) "Invalid hint data length for l2 block time";
      block_number ← lift (slice data 0 8);
      block_time ← with_providers (get_block_time (be_val block_number));
      set (new_l2_block_time (be_val block_number)) (match block_time with Some time => be_bytes 8 time | None => [] end)
  end.

(** * The backend *)

(** [OnlineHostBackend], with the state of its store and providers. *)
Record OnlineHostBackend := mkBackend {
  ob_cfg : SingleChainHost;
  ob_world : KV * P;
  ob_proactive_hints : list HintType;
  ob_last_hint : option (Hint HintType);
}.
Definition set_world (w : KV * P) (self : OnlineHostBackend) : OnlineHostBackend :=
  mkBackend (ob_cfg self) w (ob_proactive_hints self) (ob_last_hint self).
Definition set_last_hint (h : Hint HintType) (self : OnlineHostBackend) : OnlineHostBackend :=
  mkBackend (ob_cfg self) (ob_world self) (ob_proactive_hints self) (Some h).
Definition with_proactive_hint (t : HintType) (self : OnlineHostBackend) : OnlineHostBackend :=
  mkBackend (ob_cfg self) (ob_world self) (t :: ob_proactive_hints self) (ob_last_hint self).

Context `{!HexText}.
(** The [Display] text of a parsing error. *)
Context (parse_error_text : HintParsingError → string).

Definition fetch (hint : Hint HintType) : ST OnlineHostBackend string unit := λ self,
  zoom ob_world set_world (fetch_hint hint (ob_cfg self)) self.

Definition route_hint (hint : bytes) : ST OnlineHostBackend PreimageOracleError unit := λ self,
  match hint_from_str hint with
  | Ok parsed_hint =>
      if decide (h_ty parsed_hint ∈ ob_proactive_hints self) then
        let '(r, self) := fetch parsed_hint self in (map_err OtherErr r, self)
      else (Ok tt, set_last_hint parsed_hint self)
  | Err e => (Err (HintParseFailed (parse_error_text e)), self)
  | Panic => (Panic, self)
  end.

(** The loop, with [count] as in the code; [None] when the fuel is used up. *)
Fixpoint get_preimage_loop (fuel : nat) (key : PreimageKey) (count : Z) (self : OnlineHostBackend)
    : option (outcome PreimageOracleError bytes) * OnlineHostBackend :=
  match fuel with
  | O => (None, self)
  | S fuel =>
      let after preimage self :=
        if decide (count + 1 > 10) then (Some (Err (OtherErr "query hint over time")), self)
        else match preimage with
             | Some value => (Some (Ok value), self)
             | None => get_preimage_loop fuel key (count + 1) self
             end in
      match ob_last_hint self with
      | Some hint =>
          match fetch hint self with
          | (Ok _, self) => after (kv_get (key_bytes key) (ob_world self).1) self
          | (Err _, self) => get_preimage_loop fuel key count self
          | (Panic, self) => (Some Panic, self)
          end
      | None => after None self
      end
  end.
Definition get_preimage (fuel : nat) (key : PreimageKey) (self : OnlineHostBackend)
    : option (outcome PreimageOracleError bytes) * OnlineHostBackend :=
  match kv_get (key_bytes key) (ob_world self).1 with
  | Some value => (Some (Ok value), self)
  | None => get_preimage_loop fuel key 0 self
  end.
End handler.

(** * The boot information *)

Section boot_info.
Context {O : Type} `{!PreimageOracleClient O} `{!RollupJson}.

(** An oracle that serves the local inputs, as the host does. *)
Definition serves_local (o : O) (cfg : SingleChainHost) : Prop :=
  ∀ ident value, local_get (key_bytes (new_local ident)) cfg = Some value →
    oc_get (new_local ident) o = (Ok value, o) ∧ oc_get_exact (new_local ident) (length value) o = (Ok value, o).

Definition boot_info_of (cfg : SingleChainHost) (rollup_config : SoonRollupConfig) : BootInfo :=
  mkBootInfo (sh_l1_head cfg) (sh_agreed_l2_output_root cfg) (sh_agreed_l2_block_number cfg) (sh_claimed_l2_output_root cfg)
    (sh_claimed_l2_block_number cfg) (default 0 (sh_l2_chain_id cfg)) rollup_config.

Lemma boot_exact o cfg ident value n {B} (k : bytes → ST O OracleProviderError B) :
  serves_local o cfg → local_get (key_bytes (new_local ident)) cfg = Some value → length value = n →
  (boot_call (oc_get_exact (new_local ident) n) ≫= k) o = k value o.
Proof. intros Ho Hg <-. rewrite bind_run. unfold boot_call. by rewrite (proj2 (Ho ident value Hg)). Qed.
Lemma boot_get o cfg ident value {B} (k : bytes → ST O OracleProviderError B) :
  serves_local o cfg → local_get (key_bytes (new_local ident)) cfg = Some value →
  (boot_call (oc_get (new_local ident)) ≫= k) o = k value o.
Proof. intros Ho Hg. rewrite bind_run. unfold boot_call. by rewrite (proj1 (Ho ident value Hg)). Qed.
Lemma boot_number o cfg ident z {B} (k : Z → ST O OracleProviderError B) :
  serves_local o cfg → local_get (key_bytes (new_local ident)) cfg = Some (be_bytes 8 z) → is_u64 z →
  (boot_u64 ident ≫= k) o = k z o.
Proof.
  intros Ho Hg Hz. rewrite bind_run. unfold boot_u64. rewrite (boot_get o cfg _ _ _ Ho Hg).
  rewrite decide_True by apply length_be_bytes. rewrite be_val_be_bytes_small by exact Hz. done.
Qed.

Lemma local_rollup cfg : local_get (key_bytes (new_local L2_ROLLUP_CONFIG_KEY)) cfg =
  (rollup_config ← ok (sh_rollup_config cfg); ok (json_to_vec rollup_config)).
Proof. done. Qed.

(** The client boots with what the host was started with: every local input survives the
    store, its key and its bytes, and a host without a chain id stands for chain 0. *)
Theorem boot_info_loaded o cfg rollup_config json :
  serves_local o cfg → length (sh_l1_head cfg) = 32%nat → length (sh_agreed_l2_output_root cfg) = 32%nat →
  length (sh_claimed_l2_output_root cfg) = 32%nat → is_u64 (sh_agreed_l2_block_number cfg) →
  is_u64 (sh_claimed_l2_block_number cfg) → is_u64 (default 0 (sh_l2_chain_id cfg)) →
  sh_rollup_config cfg = Ok rollup_config → json_to_vec rollup_config = Ok json → json_from_slice json = Ok rollup_config →
  boot_load o = (Ok (boot_info_of cfg rollup_config), o).
Proof.
  intros Ho Hh Ha Hc Hn Hm Hi Hr Hj Hf. unfold boot_load.
  rewrite (boot_exact o cfg _ (sh_l1_head cfg)) by done. rewrite (boot_exact o cfg _ (sh_agreed_l2_output_root cfg)) by done.
  rewrite (boot_number o cfg _ (sh_agreed_l2_block_number cfg)) by done.
  rewrite (boot_exact o cfg _ (sh_claimed_l2_output_root cfg)) by done.
  rewrite (boot_number o cfg _ (sh_claimed_l2_block_number cfg)) by done.
  rewrite (boot_number o cfg _ (default 0 (sh_l2_chain_id cfg))) by done.
  rewrite (boot_get o cfg _ json) by (try done; rewrite local_rollup, Hr; cbn; by rewrite Hj).
  rewrite bind_run. unfold lift. rewrite Hf. done.
Qed.
End boot_info.

(** * What the store holds *)

Section sound.
Context {P : Type} `{!HostProviders P} `{!HostMaths} `{!Keccak} `{!TrieHash}.
Abbreviation HostM := (ST (gmap bytes bytes * P) string).

(** Under the key of a hash there is only a preimage of the hash: of its 31 bytes that the key has. *)
Definition sound (kv : gmap bytes bytes) : Prop :=
  ∀ hash data, kv !! key_bytes (new_keccak256 hash) = Some data → drop 1 (keccak256 data) = drop 1 hash.

(** However a step ends, the store is still sound. *)
Definition keeps {A} (m : HostM A) : Prop := ∀ s, sound s.1 → sound (m s).2.1.

Lemma keeps_pure {A} (f : gmap bytes bytes * P → outcome string A) : keeps (λ s, (f s, s)).
Proof. by intros s Hs. Qed.
Lemma keeps_bind {A B : Type} (m : HostM A) (k : A → HostM B) : keeps m → (∀ a, keeps (k a)) → keeps (m ≫= k).
Proof. intros Hm Hk s Hs. specialize (Hm s Hs). rewrite bind_run. destruct (m s) as [[a|e|] s']; [by apply Hk|done..]. Qed.
Lemma keeps_providers {A} (m : ST P string A) : keeps (with_providers m).
Proof. intros s Hs. unfold with_providers, zoom. by destruct (m s.2). Qed.
Lemma keeps_for_each {A : Type} (f : A → HostM unit) l : (∀ x, keeps (f x)) → keeps (for_each f l).
Proof. intros Hf. induction l as [|x l IH]; [apply (keeps_pure (λ _, Ok tt))|]. by apply keeps_bind. Qed.
Lemma keeps_set key data :
  (∀ hash, key_bytes key = key_bytes (new_keccak256 hash) → drop 1 (keccak256 data) = drop 1 hash) → keeps (set key data).
Proof.
  intros Hk [kv p] Hs hash d. unfold set, with_kv, zoom. cbn. destruct (decide (key_bytes key = key_bytes (new_keccak256 hash))) as [He|He].
  - unfold key_bytes, new_keccak256 in *. rewrite <- He, lookup_insert_eq. intros [= <-]. by apply Hk.
  - unfold key_bytes, new_keccak256 in *. rewrite lookup_insert_ne by done. apply Hs.
Qed.
Lemma keeps_set_hash hash data : drop 1 (keccak256 data) = drop 1 hash → keeps (set (new_keccak256 hash) data).
Proof. intros Hh. apply keeps_set. unfold key_bytes, new_keccak256, key_new. cbn. intros h [= He]. by rewrite Hh. Qed.
Lemma keeps_set_other key data : pk_key_type key ≠ Keccak256 → keeps (set key data).
Proof. intros Hk. apply keeps_set. intros h. destruct key as [d []]; try done; unfold key_bytes; cbn; intros [=]. Qed.
Lemma keeps_ensure cond msg : keeps (ensure cond msg).
Proof. intros s Hs. by destruct cond. Qed.
Lemma keeps_trie values : keccak256 [EMPTY_STRING_CODE] = EMPTY_ROOT_HASH → keeps (store_ordered_trie values).
Proof.
  intros He. unfold store_ordered_trie. destruct (decide (values = [])).
  - apply keeps_set_hash. by rewrite He.
  - apply keeps_for_each. intros value. by apply keeps_set_hash.
Qed.
Lemma keeps_lift {A} (r : outcome string A) : keeps (lift r).
Proof. apply (keeps_pure (λ _, r)). Qed.
Lemma keeps_ret {A} (a : A) : keeps (mret a).
Proof. apply (keeps_pure (λ _, Ok a)). Qed.
(** Steps that do not touch the store. *)
Ltac handle := repeat first
  [apply keeps_ret | apply keeps_lift | apply keeps_ensure | apply keeps_providers | apply keeps_bind; [|intros ?]].

(** C34. Whatever hint the host handles, and however that ends, its store holds under every hash
    only a preimage of the hash, if it did before and the L1 node answers with the header that was
    asked for; the trie nodes of receipts, transactions and accounts and the output root are
    stored under their own hash, so that no node can pass off other data. *)
Theorem preimages_stay_sound hint cfg s :
  keccak256 [EMPTY_STRING_CODE] = EMPTY_ROOT_HASH →
  (∀ hash p raw p', get_raw_header hash p = (Ok raw, p') → keccak256 raw = hash) →
  sound s.1 → sound (fetch_hint hint cfg s).2.1.
Proof.
  intros He Hheader. assert (keeps (fetch_hint hint cfg)) as Hkeep; [|exact (Hkeep s)]. unfold fetch_hint. cbv zeta.
  destruct (h_ty hint).
  - apply keeps_bind; [apply keeps_ensure|]. intros _ [kv p] Hs. rewrite bind_run. unfold with_providers at 1, zoom at 1.
    destruct (get_raw_header (h_data hint) p) as [[raw|e|] p'] eqn:Hr; cbn [snd]; rewrite Hr; [|done..].
    by apply keeps_set_hash; [rewrite (Hheader _ _ _ _ Hr)|].
  - handle. by apply keeps_trie.
  - handle. by apply keeps_trie.
  - handle.
  - handle. by apply keeps_set_other.
  - handle; [|by apply keeps_set_hash|by apply keeps_set_other].
    destruct (execute_precompile _ _ _); [apply keeps_ret..|by intros s'].
  - handle. by apply keeps_set_hash.
  - handle.
  - handle; [by apply keeps_set_other|..]; apply keeps_for_each; intros node; by apply keeps_set_hash.
  - handle. by apply keeps_set_other.
  - handle; [|by apply keeps_set_other]. repeat case_match; first [apply keeps_ret|by intros s'].
  - handle. by apply keeps_set_other.
Qed.
End sound.

(** * Serving preimages *)

Section serving.
Context {KV P : Type} `{!KeyValueStore KV} `{!HostProviders P} `{!HostMaths} `{!Keccak} `{!TrieHash} `{!HexText} `{!HexTextLaws}.
Implicit Types self : OnlineHostBackend (KV:=KV) (P:=P).
Context (parse_error_text : HintParsingError → string).

Lemma no_hint_runs key self : ob_last_hint self = None → ∀ k count fuel,
  Z.of_nat k = 11 - count → 0 <= count <= 10 → (k <= fuel)%nat →
  get_preimage_loop fuel key count self = (Some (Err (OtherErr "query hint over time")), self).
Proof.
  intros Hn. induction k as [|k IH]; intros count fuel Hk Hc Hf; [lia|]. destruct fuel as [|fuel]; [lia|].
  cbn [get_preimage_loop]. rewrite Hn. destruct (decide (count + 1 > 10)) as [Hd|Hd]; [done|].
  apply (IH (count + 1)); lia.
Qed.

(** How a key is looked up: a key of the store is served at once; a hint, once routed, is kept
    and handled when a key is missing, and what it stored under the key is served; without a hint
    the lookup gives up after eleven rounds.  [fuel] bounds the rounds of the loop. *)
Theorem get_preimage_spec self key hint value w fuel :
  (kv_get (key_bytes key) (ob_world self).1 = Some value → get_preimage fuel key self = (Some (Ok value), self)) ∧
  (kv_get (key_bytes key) (ob_world self).1 = None → h_ty hint ∉ ob_proactive_hints self →
    fetch_hint hint (ob_cfg self) (ob_world self) = (Ok tt, w) → kv_get (key_bytes key) w.1 = Some value → (0 < fuel)%nat →
    let '(r, self') := route_hint parse_error_text (encode_hint hint) self in
    r = Ok tt ∧ get_preimage fuel key self' = (Some (Ok value), set_world w self')) ∧
  (kv_get (key_bytes key) (ob_world self).1 = None → ob_last_hint self = None → (11 <= fuel)%nat →
    get_preimage fuel key self = (Some (Err (OtherErr "query hint over time")), self)).
Proof.
  unfold get_preimage. split; [by intros ->|]. split.
  - intros Hk Hp Hf Hv Hfuel. unfold route_hint. rewrite (hint_from_str_encode hint), decide_False by done.
    split; [done|]. cbn [ob_world set_last_hint]. rewrite Hk. destruct fuel as [|fuel]; [lia|].
    cbn [get_preimage_loop ob_last_hint set_last_hint]. unfold fetch, zoom. cbn [ob_cfg ob_world set_last_hint]. rewrite Hf.
    cbn [ob_world set_world]. rewrite decide_False by lia. by rewrite Hv.
  - intros Hk Hn Hfuel. rewrite Hk. by apply (no_hint_runs key self Hn 11).
Qed.

(** While the handling of the last hint keeps failing, the lookup of a missing key never returns:
    a failure is not counted as a round. *)
Theorem failing_hint_never_returns self key hint :
  kv_get (key_bytes key) (ob_world self).1 = None → ob_last_hint self = Some hint →
  (∀ w, ∃ e w', fetch_hint hint (ob_cfg self) w = (Err e, w')) →
  ∀ fuel, (get_preimage fuel key self).1 = None.
Proof.
  intros Hk Hh Hf fuel. unfold get_preimage. rewrite Hk. generalize 0. clear Hk. revert self Hh Hf.
  induction fuel as [|fuel IH]; intros self Hh Hf count; [done|]. cbn [get_preimage_loop]. rewrite Hh.
  unfold fetch, zoom. destruct (Hf (ob_world self)) as (e & w & ->). by apply IH.
Qed.
End serving.

(** ** Witnesses *)

Module Node.
#[local] Existing Instances Hex.hex Hex.hex_laws.
Definition config : SoonRollupConfig := mock_roll_up_config.
#[local] Instance json : RollupJson := {|
  json_to_vec _ := Ok [byte1];
  json_from_slice s := if decide (s = [byte1]) then Ok config else Err "json"%string;
|}.
Definition cfg : SingleChainHost :=
  mkSingleChainHost (be_bytes 32 11) 7 (be_bytes 32 12) (be_bytes 32 13) 9 (Some 42) (Ok config).
(** The host itself as an oracle. *)
#[local] Instance host_oracle : PreimageOracleClient SingleChainHost := {|
  oc_get key cfg := (offline_get_preimage cfg key, cfg);
  oc_get_exact key n cfg :=
    (value ← offline_get_preimage cfg key; if decide (length value = n) then Ok value else Err (BufferLengthMismatch (len value) (Z.of_nat n)), cfg);
|}.
Lemma serves : serves_local cfg cfg.
Proof.
  intros ident value Hv. unfold oc_get, oc_get_exact, host_oracle, offline_get_preimage, kv_get, local_inputs. rewrite Hv.
  cbn [ok_or mbind outcome_bind]. by rewrite decide_True.
Qed.
(** A hash that is read off the data, and a node that knows one header. *)
#[local] Instance keccak : Keccak := λ s, be_bytes 32 (be_val s).
#[local] Instance empty_root : TrieHash := be_bytes 32 0x80.
#[local] Instance node : HostProviders unit := {|
  get_raw_header hash := if decide (hash = be_bytes 32 7) then mret [z2b 7] else fail "no header"%string;
  get_transactions _ := mret None;
  get_raw_receipts _ := mret [[z2b 5]];
  download_preimage _ := fail "da"%string;
  output_at_block _ := fail "output"%string;
  get_tried_account_proof _ _ := mret (mkAccountWithTrie None [[z2b 3]] []);
  get_encoded_block _ := fail "block"%string;
  get_bank_hash _ := mret None;
  get_block_time _ := mret (Some 1700000000);
|}.
#[local] Instance maths : HostMaths := {| execute_precompile _ _ _ := Err "none"%string; trie_nodes values := values |}.
(** A store that lists its entries. *)
#[local] Instance listed : KeyValueStore (list (bytes * bytes)) := {|
  kv_get key store := snd <$> List.find (λ e, bool_decide (e.1 = key)) store;
  kv_set key value store := (Ok tt, (key, value) :: store);
|}.
Definition backend : OnlineHostBackend (KV:=list (bytes * bytes)) (P:=unit) := mkBackend cfg ([], tt) [] None.
Definition after : list (bytes * bytes) * unit := ([(key_bytes (new_keccak256 (be_bytes 32 7)), [z2b 7])], tt).
End Node.
#[local] Existing Instances Hex.hex Hex.hex_laws Node.json Node.host_oracle Node.keccak Node.empty_root Node.node Node.maths Node.listed.

Lemma boot_info_loaded_witness : boot_load Node.cfg = (Ok (boot_info_of Node.cfg Node.config), Node.cfg).
Proof. apply (boot_info_loaded Node.cfg Node.cfg Node.config [byte1]); by first [exact Node.serves|vm_compute]. Defined.

Lemma preimages_stay_sound_witness :
  let s := (fetch_hint (mkHint L1Receipts (be_bytes 32 1)) Node.cfg ((∅ : gmap bytes bytes), tt)).2 in
  sound s.1 ∧ s.1 !! key_bytes (new_keccak256 (be_bytes 32 5)) = Some [z2b 5].
Proof.
  split; [|by vm_compute]. apply (preimages_stay_sound (mkHint L1Receipts (be_bytes 32 1)) Node.cfg ((∅ : gmap bytes bytes), tt)).
  - by vm_compute.
  - intros hash [] raw p'. cbn. destruct (decide (hash = be_bytes 32 7)) as [->|]; [|done]. intros [= <- _]. by vm_compute.
  - intros hash data. cbn [fst]. by rewrite lookup_empty.
Defined.

Lemma get_preimage_spec_witness :
  let header := mkHint L1BlockHeader (be_bytes 32 7) in
  let '(r, self) := route_hint (λ _, EmptyString) (encode_hint header) Node.backend in
  r = Ok tt ∧ (get_preimage 1 (new_keccak256 (be_bytes 32 7)) self).1 = Some (Ok [z2b 7]).
Proof.
  intros header.
  pose proof (proj1 (proj2 (get_preimage_spec (λ _, EmptyString) Node.backend (new_keccak256 (be_bytes 32 7)) header [z2b 7] Node.after 1))) as Hs.
  specialize (Hs ltac:(by vm_compute) ltac:(apply not_elem_of_nil) ltac:(by vm_compute) ltac:(by vm_compute) ltac:(lia)).
  revert Hs. match goal with |- context [route_hint ?a ?b ?c] => destruct (route_hint a b c) as [r self] end.
  intros [Hr Hg]. split; [exact Hr|]. by rewrite Hg.
Defined.

Lemma failing_hint_never_returns_witness :
  (get_preimage 1000 (new_block_slot 3) (set_last_hint (mkHint L2BlockData (be_bytes 8 3)) Node.backend)).1 = None.
Proof.
  apply (failing_hint_never_returns _ (new_block_slot 3) (mkHint L2BlockData (be_bytes 8 3))); [done|done|].
  intros [kv []]. by do 2 eexists.
Defined.
