(* ===== verification/OracleBlobs.v ===== *)
(** The blob provider of the proof program (src/crates/proof/proof/src/l1/blob_provider.rs): a blob
    is read field element by field element, each under the key of the commitment and the root of
    unity at which the blob's polynomial takes it.

    [roots_of_unity_spec]: the roots are the powers of a primitive 4096th root of unity in
    bit-reversed order.
    [blob_assembled]: the blob is the field elements the oracle holds, in their order. *)
From Stdlib Require Import Zpow_facts.
From S2P Require Import Prelude Blocks Types Rlp NodeCodec ProgramCodec Preimage Hint Providers Blobs.
#[local] Open Scope Z_scope.

(** * Roots of unity *)

(** [Fr] of ark_bls12_381: integers modulo the order of the BLS12-381 scalar field. *)
Definition Fr_MODULUS : Z := 52435875175126190479447740508185965837690552500527637822603658699938581184513.
Definition fr_mul (a b : Z) : Z := (a * b) mod Fr_MODULUS.
Definition fr_pow (a e : Z) : Z := Zpow_mod a e Fr_MODULUS.
(** [into_bigint().to_bytes_be()]. *)
Definition fr_bytes (a : Z) : bytes := be_bytes 32 a.

Definition FIELD_ELEMENTS_PER_BLOB : nat := 4096.
Definition MAX_ORDER_ROOT : Z := 32.
(** [FIELD_ELEMENTS_PER_BLOB.trailing_zeros()]. *)
Definition LOG_FIELD_ELEMENTS : Z := 12.

(** [u64::reverse_bits]. *)
Definition reverse_bits (i : Z) : Z :=
  foldr (λ b acc, if Z.testbit i b then Z.lor acc (2 ^ (63 - b)) else acc) 0 (seqZ 0 64).

Definition root_of_unity : Z := 10238227357739495823651030575849232062558860180284477541189508159991286009131.
Definition generator : Z :=
  let expo := Z.shiftl 1 (MAX_ORDER_ROOT - LOG_FIELD_ELEMENTS) in fr_pow root_of_unity expo.

(** The multiplicative subgroup, from [current] on. *)
Fixpoint powers (n : nat) (current : Z) : list Z :=
  match n with O => [] | S n => current :: powers n (fr_mul current generator) end.

Definition index_reversed (i : nat) : nat :=
  Z.to_nat (Z.shiftr (reverse_bits (Z.of_nat i)) (64 - LOG_FIELD_ELEMENTS)).

(** [roots_of_unity.swap(i, irev)]. *)
Definition swap (i j : nat) (l : list Z) : list Z :=
  match l !! i, l !! j with Some x, Some y => <[i := y]> (<[j := x]> l) | _, _ => l end.
Definition swap_step (l : list Z) (i : nat) : list Z :=
  let irev := index_reversed i in if decide (i < irev)%nat then swap i irev l else l.

Definition generate_roots_of_unity : list Z :=
  let roots_of_unity := powers FIELD_ELEMENTS_PER_BLOB 1 in
  foldl swap_step roots_of_unity (seq 0 FIELD_ELEMENTS_PER_BLOB).
Definition ROOTS_OF_UNITY : list Z := generate_roots_of_unity.

(** * The provider *)

Section provider.
Context `{!CommsClient} `{!HexText} `{!Keccak}.

(** [get_exact] into a buffer of [n] bytes. *)
Definition oracle_get_exact (key : PreimageKey) (n : Z) : outcome PreimageOracleError bytes :=
  data ← oracle_get key;
  if decide (n ≠ len data) then Err (BufferLengthMismatch (len data) n) else Ok data.

(** The loop over the field elements: [roots] from index [i] on. *)
Fixpoint read_elements (commitment : bytes) (roots : list Z) (i : Z) (blob : bytes) : outcome OracleProviderError bytes :=
  match roots with
  | [] => Ok blob
  | root :: roots =>
      let field_element_key := commitment ++ fr_bytes root in
      field_element ← map_err OPreimage (oracle_get_exact (key_new (keccak256 field_element_key) Preimage.Blob) 32);
      blob ← write_at (Z.shiftl i 5) field_element blob;
      read_elements commitment roots (i + 1) blob
  end.

Definition get_blob (block_ref : BlockInfo) (blob_hash : IndexedBlobHash) : outcome OracleProviderError bytes :=
  let blob_req_meta := ib_hash blob_hash ++ be_bytes 8 (ib_index blob_hash) ++ be_bytes 8 (bi_timestamp block_ref) in
  hint_send (type_with_data L1Blob [blob_req_meta]);;
  commitment ← map_err OPreimage (oracle_get_exact (key_new (ib_hash blob_hash) Sha256) 48);
  read_elements commitment ROOTS_OF_UNITY 0 (replicate (Z.to_nat BYTES_PER_BLOB) byte0).

Definition get_blobs (block_ref : BlockInfo) (blob_hashes : list IndexedBlobHash) : outcome OracleProviderError (list bytes) :=
  collect_results (get_blob block_ref) blob_hashes.
End provider.

(** * The order of the roots *)

Lemma length_powers n c : length (powers n c) = n.
Proof. revert c. induction n as [|n IH]; intros c; [done|]. cbn. by rewrite IH. Qed.
Lemma powers_lookup n c i : (i < n)%nat → powers n c !! i = Some (if decide (i = 0)%nat then c else (c * generator ^ Z.of_nat i) mod Fr_MODULUS).
Proof.
  revert c i. induction n as [|n IH]; intros c i Hi; [lia|]. cbn [powers]. destruct i as [|i]; [done|].
  cbn [lookup list_lookup]. rewrite IH by lia. f_equal. rewrite (decide_False (P := S i = 0%nat)) by lia.
  unfold fr_mul. case_decide as Hz.
  - subst i. change (Z.of_nat 1) with 1. by rewrite Z.pow_1_r.
  - rewrite Z.mul_mod_idemp_l by done. f_equal. rewrite Nat2Z.inj_succ, Z.pow_succ_r by lia. lia.
Qed.

(** An index is 12 bits. *)
Lemma reverse_bits_fold i l b :
  Forall (λ k, 0 <= k <= 63) l → 0 <= b →
  Z.testbit (foldr (λ b acc, if Z.testbit i b then Z.lor acc (2 ^ (63 - b)) else acc) 0 l) b =
    bool_decide (63 - b ∈ l) && Z.testbit i (63 - b).
Proof.
  intros Hl Hb. induction Hl as [|k l Hk Hl IH]; cbn [foldr]; [by rewrite Z.bits_0|].
  destruct (Z.testbit i k) eqn:Hi.
  - rewrite Z.lor_spec, IH, Z.pow2_bits_eqb by lia. destruct (Z.eqb_spec (63 - k) b) as [<-|Hn].
    + rewrite orb_true_r. replace (63 - (63 - k)) with k by lia. rewrite Hi, andb_true_r. symmetry. apply bool_decide_eq_true.
      left.
    + rewrite orb_false_r. f_equal. apply bool_decide_ext. rewrite elem_of_cons. split; [by right|]. intros [?|?]; [lia|done].
  - rewrite IH. destruct (decide (63 - b = k)) as [<-|Hn]; [by rewrite Hi, !andb_false_r|]. f_equal. apply bool_decide_ext.
    rewrite elem_of_cons. split; [by right|]. by intros [?|?].
Qed.
Lemma index_reversed_bits i b :
  (i < 4096)%nat → 0 <= b → Z.testbit (Z.of_nat (index_reversed i)) b = bool_decide (b < 12) && Z.testbit (Z.of_nat i) (11 - b).
Proof.
  intros Hi Hb. unfold index_reversed.
  assert (0 <= reverse_bits (Z.of_nat i)) as Hpos.
  { apply Z.bits_iff_nonneg_ex. exists 64. intros m Hm. unfold reverse_bits.
    rewrite reverse_bits_fold by (lia || (apply Forall_forall; intros k Hk%elem_of_seqZ; lia)).
    rewrite bool_decide_false by (rewrite elem_of_seqZ; lia). done. }
  rewrite Z2Nat.id by (by apply Z.shiftr_nonneg). rewrite Z.shiftr_spec by done. unfold reverse_bits, LOG_FIELD_ELEMENTS.
  rewrite reverse_bits_fold by (lia || (apply Forall_forall; intros k Hk%elem_of_seqZ; lia)).
  replace (63 - (b + (64 - 12))) with (11 - b) by lia. case_bool_decide as H1; case_bool_decide as H2; rewrite elem_of_seqZ in H1; try done; lia.
Qed.
Lemma index_reversed_spec i : (i < 4096)%nat → (index_reversed i < 4096)%nat ∧ index_reversed (index_reversed i) = i.
Proof.
  intros Hi. assert (index_reversed i < 4096)%nat as Hr.
  { enough (Z.of_nat (index_reversed i) < 2 ^ 12) by lia.
    destruct (decide (Z.of_nat (index_reversed i) = 0)) as [->|Hn]; [done|]. apply Z.log2_lt_pow2; [lia|].
    apply Z.nle_gt. intros Hlog. pose proof (Z.bit_log2 (Z.of_nat (index_reversed i)) ltac:(lia)) as Hbit.
    rewrite index_reversed_bits, bool_decide_false in Hbit by lia. done. }
  split; [done|]. apply Nat2Z.inj, Z.bits_inj'. intros b Hb. rewrite index_reversed_bits by done.
  case_bool_decide as H12.
  - rewrite index_reversed_bits by lia. rewrite bool_decide_true by lia. replace (11 - (11 - b)) with b by lia. done.
  - symmetry. destruct (decide (Z.of_nat i = 0)) as [->|Hn]; [by rewrite Z.bits_0|]. apply Z.bits_above_log2; [lia|].
    apply Z.log2_lt_pow2; [lia|]. apply Z.lt_le_trans with (2 ^ 12); [lia|apply Z.pow_le_mono_r; lia].
Qed.

Lemma swaps_length is_ (l : list Z) n : length l = n → length (foldl swap_step l is_) = n.
Proof.
  revert l. induction is_ as [|j is_ IH]; intros l Hl; [done|]. cbn. apply IH. unfold swap_step, swap. case_decide; [|done].
  destruct (l !! j); [|done]. destruct (l !! index_reversed j); [|done]. by rewrite !length_insert.
Qed.

(** The swaps reverse the indices: after the indices below [n], a position is swapped if the lower
    position of its pair is one of them. *)
Lemma swaps_spec (l : list Z) n i :
  length l = 4096%nat → (n <= 4096)%nat → (i < 4096)%nat →
  foldl swap_step l (seq 0 n) !! i = if decide (i `min` index_reversed i < n)%nat then l !! index_reversed i else l !! i.
Proof.
  intros Hl. revert i. induction n as [|n IH]; intros i Hn Hi.
  - cbn. by rewrite decide_False by lia.
  - rewrite seq_S, foldl_app. cbn [foldl Nat.add]. set (m := foldl swap_step l (seq 0 n)) in *.
    assert (length m = 4096%nat) as Hm by (by apply swaps_length).
    destruct (index_reversed_spec n ltac:(lia)) as [Hrn Hrrn]. destruct (index_reversed_spec i Hi) as [Hri Hrri].
    unfold swap_step. case_decide as Hsw.
    + unfold swap.
      destruct (lookup_lt_is_Some_2 m n ltac:(lia)) as [x Hx]. destruct (lookup_lt_is_Some_2 m (index_reversed n) ltac:(lia)) as [y Hy].
      rewrite Hx, Hy.
      destruct (decide (n = i)) as [<-|Hni].
      * rewrite list_lookup_insert_eq by (rewrite length_insert; lia). rewrite decide_True by lia.
        rewrite IH in Hy by lia. rewrite Hrrn, decide_False in Hy by lia. done.
      * rewrite list_lookup_insert_ne by done. destruct (decide (index_reversed n = i)) as [<-|Hri'].
        -- rewrite list_lookup_insert_eq by lia. rewrite Hrrn, decide_True by lia. rewrite IH in Hx by lia.
           by rewrite decide_False in Hx by lia.
        -- rewrite list_lookup_insert_ne, IH by (done || lia).
           assert (index_reversed i ≠ n) by (intros <-; done).
           destruct (decide (i `min` index_reversed i < n)%nat); [by rewrite decide_True by lia|by rewrite decide_False by lia].
    + rewrite IH by lia. destruct (decide (i `min` index_reversed i < n)%nat) as [H1|H1]; [by rewrite decide_True by lia|].
      case_decide as H2; [|done].
      assert (i `min` index_reversed i = n)%nat as H3 by lia. destruct (decide (i = n)) as [->|Hin].
      * assert (index_reversed n = n) as -> by lia. done.
      * assert (index_reversed i = n) as H4 by lia. rewrite <- H4, Hrri in Hsw. lia.
Qed.

Lemma roots_length : length ROOTS_OF_UNITY = FIELD_ELEMENTS_PER_BLOB.
Proof.
  unfold ROOTS_OF_UNITY, generate_roots_of_unity. cbv zeta. generalize (seq 0 FIELD_ELEMENTS_PER_BLOB) as js.
  intros js. refine (swaps_length js _ _ _). exact (length_powers FIELD_ELEMENTS_PER_BLOB 1).
Qed.
Lemma roots_lookup i : (i < 4096)%nat → ROOTS_OF_UNITY !! i = powers FIELD_ELEMENTS_PER_BLOB 1 !! index_reversed i.
Proof.
  intros Hi. destruct (index_reversed_spec i Hi) as [Hr _].
  unfold ROOTS_OF_UNITY, generate_roots_of_unity. cbv zeta.
  pose proof (length_powers FIELD_ELEMENTS_PER_BLOB 1) as Hl. revert Hl.
  generalize (powers FIELD_ELEMENTS_PER_BLOB 1) as l. intros l Hl. unfold FIELD_ELEMENTS_PER_BLOB in *.
  rewrite (swaps_spec l 4096 i Hl) by lia. by rewrite decide_True by lia.
Qed.

(** The roots of unity are the powers of the generator, which has order 4096, at the reversed bits of
    their index. *)
Theorem roots_of_unity_spec i :
  (i < FIELD_ELEMENTS_PER_BLOB)%nat →
  length ROOTS_OF_UNITY = FIELD_ELEMENTS_PER_BLOB ∧
  ROOTS_OF_UNITY !! i = Some (generator ^ Z.of_nat (index_reversed i) mod Fr_MODULUS) ∧
  (∀ b, 0 <= b < 12 → Z.testbit (Z.of_nat (index_reversed i)) b = Z.testbit (Z.of_nat i) (11 - b)) ∧
  generator ^ 2048 mod Fr_MODULUS = Fr_MODULUS - 1.
Proof.
  intros Hi. destruct (index_reversed_spec i Hi) as [Hr Hrr]. split; [apply roots_length|]. split; [|split].
  - rewrite roots_lookup by done. rewrite powers_lookup by done. f_equal. case_decide as H0; [by rewrite H0|]. by rewrite Z.mul_1_l.
  - intros b Hb. rewrite index_reversed_bits by (done || lia). by rewrite bool_decide_true by lia.
  - rewrite <- Zpow_mod_correct by done. by vm_compute.
Qed.

Lemma roots_of_unity_spec_witness : ROOTS_OF_UNITY !! 1%nat = Some (generator ^ Z.of_nat (index_reversed 1) mod Fr_MODULUS).
Proof. apply (roots_of_unity_spec 1). unfold FIELD_ELEMENTS_PER_BLOB. lia. Defined.

(** * The blob *)

Section provider.
Context `{!CommsClient} `{!HexText} `{!Keccak}.

(** The oracle's field element at a root. *)
Definition element_key (commitment : bytes) (root : Z) : PreimageKey :=
  key_new (keccak256 (commitment ++ fr_bytes root)) Preimage.Blob.

Lemma read_elements_spec commitment roots elements done_ :
  Forall2 (λ root e, oracle_get (element_key commitment root) = Ok e ∧ length e = 32%nat) roots elements →
  ∀ i, len done_ = 32 * i →
  read_elements commitment roots i (done_ ++ replicate (32 * length roots) byte0) = Ok (done_ ++ mjoin elements).
Proof.
  intros Hall. revert done_. induction Hall as [|root e roots elements [He Hl] Hall IH]; intros done_ i Hi.
  - cbn. by rewrite app_nil_r.
  - cbn [read_elements]. unfold oracle_get_exact. unfold element_key in He. rewrite He. cbn [mbind outcome_bind map_err].
    rewrite decide_False by (unfold len; rewrite Hl; lia). cbn [mbind outcome_bind map_err].
    rewrite Z.shiftl_mul_pow2 by lia. replace (i * 2 ^ 5) with (len done_) by lia.
    cbn [length]. replace (32 * S (length roots))%nat with (32 + 32 * length roots)%nat by lia. rewrite replicate_add.
    rewrite write_at_fill by (rewrite length_app, !length_replicate; lia). cbn [mbind outcome_bind].
    rewrite Hl, drop_app_length' by (by rewrite length_replicate). rewrite app_assoc, IH by (rewrite len_app; unfold len in *; lia).
    by rewrite <- app_assoc.
Qed.

(** A blob is put together from the field elements the oracle holds for its commitment, each at the
    root of its position, and has the size of a blob. *)
Theorem blob_assembled block_ref blob_hash commitment elements :
  hint_send (type_with_data L1Blob
    [ib_hash blob_hash ++ be_bytes 8 (ib_index blob_hash) ++ be_bytes 8 (bi_timestamp block_ref)]) = Ok tt →
  oracle_get (key_new (ib_hash blob_hash) Sha256) = Ok commitment → length commitment = 48%nat →
  Forall2 (λ root e, oracle_get (element_key commitment root) = Ok e ∧ length e = 32%nat) ROOTS_OF_UNITY elements →
  get_blob block_ref blob_hash = Ok (mjoin elements) ∧ len (mjoin elements) = BYTES_PER_BLOB.
Proof.
  intros Hh Hc Hl Hall. unfold get_blob. rewrite Hh. cbn [mbind outcome_bind]. unfold oracle_get_exact at 1. rewrite Hc.
  cbn [mbind outcome_bind]. rewrite decide_False by (unfold len; rewrite Hl; lia). cbn [mbind outcome_bind map_err].
  split.
  - pose proof (read_elements_spec commitment _ elements [] Hall 0 eq_refl) as Hr. rewrite roots_length in Hr. cbn [app] in Hr.
    assert (Z.to_nat BYTES_PER_BLOB = (32 * FIELD_ELEMENTS_PER_BLOB)%nat) as -> by
      (unfold BYTES_PER_BLOB, FIELD_ELEMENTS_PER_BLOB; lia).
    exact Hr.
  - unfold len. rewrite length_join. pose proof (Forall2_length _ _ _ Hall) as Hn. rewrite roots_length in Hn.
    enough (sum_list (length <$> elements) = 32 * length elements)%nat as ->.
    { unfold BYTES_PER_BLOB, FIELD_ELEMENTS_PER_BLOB in *. lia. }
    clear -Hall. induction Hall as [|root e roots elements [_ He] _ IH]; [done|]. cbn. rewrite He, IH. lia.
Qed.
End provider.

Lemma roots_elements {A} (f : Z → A) (P : Z → A → Prop) (l : list Z) : (∀ z, P z (f z)) → Forall2 P l (f <$> l).
Proof. intros Hf. induction l; by constructor. Qed.

(** An oracle that answers the root for a field element. *)
Module Named.
#[local] Instance oracle : CommsClient := {|
  oracle_get key := match pk_key_type key with Sha256 => Ok (replicate 48 byte1) | _ => Ok (be_bytes 32 7) end;
  oracle_write _ := Ok tt;
|}.
#[local] Instance hex : HexText := {| display_bytes b := b; hex_decode b := Ok b |}.
#[local] Instance keccak : Keccak := λ b, be_bytes 32 (len b).
End Named.
#[local] Existing Instances Named.oracle Named.hex Named.keccak.
Lemma blob_assembled_witness block_ref : is_ok (get_blob block_ref (mkIndexedBlobHash 0 (be_bytes 32 5))) = true.
Proof.
  destruct (blob_assembled block_ref (mkIndexedBlobHash 0 (be_bytes 32 5)) (replicate 48 byte1)
    ((λ _, be_bytes 32 7) <$> ROOTS_OF_UNITY)) as [-> _]; [done|done|done| |done].
  apply roots_elements. intros z. by split.
Defined.
