(* ===== verification/Entries.v ===== *)
(** The entries of a block (src/crates/executor/svm/src/): the Merkle tree of signatures
    (entry/merkle_tree.rs), the proof-of-history chain (entry/poh.rs, entry/mod.rs), the batches of a
    raw block and its labelled form (block.rs), and the entries a block of batches makes (the last part
    of lib.rs: [batches_to_data_entries], [complete_entries]).

    SHA-256 is a parameter; the capacity the tree reserves for its nodes is not modelled.

    [merkle_root_reference]: the nodes the tree computes level by level end in the root of the
    recursive definition.  [merkle_root_binds]: lists of the same length with the same root are the
    same, unless two of the inputs hashed for them collide.  [next_hash_spec]: the hash of an entry.
    [raw_block_roundtrip]: labelling a block and reading it back loses only its empty batches. *)
From S2P Require Import Prelude Blocks ProgramCodec Native.
#[local] Open Scope Z_scope.

(** * Hashes *)

Class Sha256 := sha256 : bytes → bytes.
Class Sha256Laws `{!Sha256} := { length_sha256 data : length (sha256 data) = 32%nat }.

(** [solana_program::hash::hash] and [hashv], which hashes the concatenation. *)
Definition hash `{!Sha256} (data : bytes) : bytes := sha256 data.
Definition hashv `{!Sha256} (parts : list bytes) : bytes := sha256 (mjoin parts).
Definition Hash_default : bytes := replicate 32 byte0.

(** * The Merkle tree *)

Definition LEAF_PREFIX : bytes := [byte0].
Definition INTERMEDIATE_PREFIX : bytes := [byte1].

Section merkle.
Context `{!Sha256}.

Definition hash_leaf (d : bytes) : bytes := hashv [LEAF_PREFIX; d].
Definition hash_intermediate (l r : bytes) : bytes := hashv [INTERMEDIATE_PREFIX; l; r].

Record MerkleTree := mkMerkleTree { mt_nodes : list bytes }.

Definition next_level_len (level_len : Z) : Z := if decide (level_len = 1) then 0 else (level_len + 1) / 2.

(** The body of the loop over a level. *)
Definition push_node (prev_level_start prev_level_len i : Z) : ST MerkleTree Empty_set unit :=
  mt ← gets mt_nodes;
  let prev_level_idx := 2 * i in
  lsib ← lift (index mt (prev_level_start + prev_level_idx));
  rsib ← lift (if decide (prev_level_idx + 1 < prev_level_len)
               then index mt (prev_level_start + prev_level_idx + 1)
               else index mt (prev_level_start + prev_level_idx));
  modify (λ self, mkMerkleTree (mt_nodes self ++ [hash_intermediate lsib rsib])).

(** [while level_len > 0]; as a level has at least one node less, [fuel] of the number of leaves is enough. *)
Fixpoint levels (fuel : nat) (level_len level_start prev_level_len prev_level_start : Z)
    : ST MerkleTree Empty_set unit :=
  match fuel with
  | O => panic
  | S fuel =>
      if decide (level_len > 0) then
        for_each (push_node prev_level_start prev_level_len) (seqZ 0 level_len);;
        levels fuel (next_level_len level_len) (level_start + level_len) level_len level_start
      else mret tt
  end.

Definition merkle_new (items : list bytes) : outcome Empty_set MerkleTree :=
  let '(r, mt) := levels (S (length items)) (next_level_len (len items)) (len items) (len items) 0
                    (mkMerkleTree (hash_leaf <$> items)) in
  _ ← r; Ok mt.
Definition get_root (self : MerkleTree) : option bytes := last (mt_nodes self).

(** * Proof of history *)

Definition LOW_POWER_MODE : Z := 2 ^ 64 - 1.
Record Poh := mkPoh { poh_hash : bytes; poh_num_hashes : Z; hashes_per_tick : Z; remaining_hashes : Z; tick_number : Z }.

Definition new_with_slot_info (hash : bytes) (per_tick : option Z) (tick_number : Z) : outcome Empty_set Poh :=
  let per_tick := default LOW_POWER_MODE per_tick in
  if decide (per_tick > 1) then Ok (mkPoh hash 0 per_tick per_tick tick_number) else Panic.
Definition poh_new (hash : bytes) (per_tick : option Z) : outcome Empty_set Poh := new_with_slot_info hash per_tick 0.

Definition poh_hash_n (max_num_hashes : Z) : ST Poh Empty_set bool := λ self,
  let num_hashes := Z.min (u64_sub (remaining_hashes self) 1) max_num_hashes in
  let self := mkPoh (Nat.iter (Z.to_nat num_hashes) hash (poh_hash self)) (u64_add (poh_num_hashes self) num_hashes)
                (hashes_per_tick self) (u64_sub (remaining_hashes self) num_hashes) (tick_number self) in
  if decide (remaining_hashes self > 0) then (Ok (bool_decide (remaining_hashes self = 1)), self) else (Panic, self).

Definition poh_record (mixin : bytes) : ST Poh Empty_set (option bytes) := λ self,
  if decide (remaining_hashes self = 1) then (Ok None, self)
  else
    let hash := hashv [poh_hash self; mixin] in
    (Ok (Some hash),
     mkPoh hash 0 (hashes_per_tick self) (u64_sub (remaining_hashes self) 1) (tick_number self)).

Definition poh_tick : ST Poh Empty_set (option bytes) := λ self,
  let self := mkPoh (hash (poh_hash self)) (u64_add (poh_num_hashes self) 1) (hashes_per_tick self)
                (u64_sub (remaining_hashes self) 1) (tick_number self) in
  if decide (hashes_per_tick self ≠ LOW_POWER_MODE ∧ remaining_hashes self ≠ 0) then (Ok None, self)
  else
    let self := mkPoh (poh_hash self) 0 (hashes_per_tick self) (hashes_per_tick self) (u64_add (tick_number self) 1) in
    (Ok (Some (poh_hash self)), self).
End merkle.

(** * Entries *)

Section entries.
Context `{!SolanaSdk} `{!Sha256}.

Record Entry := mkEntry { e_num_hashes : Z; e_hash : bytes; e_transactions : list Transaction }.
Definition is_tick (self : Entry) : bool := match e_transactions self with [] => true | _ => false end.

Definition hash_transactions (transactions : list Transaction) : outcome Empty_set bytes :=
  let signatures := mjoin (tx_signatures <$> transactions) in
  merkle_tree ← merkle_new signatures;
  Ok (default Hash_default (get_root merkle_tree)).

Definition saturating_pred (n : Z) : Z := Z.max 0 (n - 1).
Definition next_hash (start_hash : bytes) (num_hashes : Z) (transactions : list Transaction) : outcome Empty_set bytes :=
  if decide (num_hashes = 0 ∧ transactions = []) then Ok start_hash
  else
    poh ← poh_new start_hash None;
    run (poh_hash_n (saturating_pred num_hashes);;
         entry ← (match transactions with
                  | [] => poh_tick
                  | _ => mixin ← lift (hash_transactions transactions); poh_record mixin
                  end);
         lift (expect entry)) poh.

Definition new_entry (prev_hash : bytes) (num_hashes : Z) (transactions : list Transaction) : outcome Empty_set Entry :=
  let num_hashes := if decide (num_hashes = 0 ∧ transactions ≠ []) then 1 else num_hashes in
  hash ← next_hash prev_hash num_hashes transactions;
  Ok (mkEntry num_hashes hash transactions).
End entries.

(** * Raw blocks and labelled blocks *)

(** [size_of::<VersionedTransaction>()]. *)
Class TransactionSize := transaction_size : Z.

Module Block.
Section block.
Context `{!SolanaSdk} `{!TransactionSize}.

Inductive L2Transaction := Head (length : Z) (tx : Transaction) | Body (tx : Transaction).
Definition new_from_derived_tx (tx : Transaction) : L2Transaction := Head 1 tx.
Definition new_head (length : Z) (tx : Transaction) : L2Transaction := Head length tx.
Definition new_body (tx : Transaction) : L2Transaction := Body tx.
Definition from_tx_batch (tx_batch : list Transaction) : list L2Transaction :=
  let batch_size := len tx_batch in
  imap (λ index tx, if decide (index = 0%nat) then Head batch_size tx else Body tx) tx_batch.
Definition is_head (self : L2Transaction) : bool := match self with Head _ _ => true | Body _ => false end.
Definition is_body (self : L2Transaction) : bool := match self with Head _ _ => false | Body _ => true end.
Definition batch_length (self : L2Transaction) : option Z := match self with Head length _ => Some length | Body _ => None end.
Definition transaction (self : L2Transaction) : Transaction := match self with Head _ tx | Body tx => tx end.

Record RawBlock := mkRawBlock { raw_batches : list (list Transaction) }.
Definition from_single_batch (batch : list Transaction) : RawBlock := mkRawBlock [batch].
Record L2Block := mkL2Block { labelled : list L2Transaction }.

Definition l2_block_from (raw_block : RawBlock) : L2Block := mkL2Block (mjoin (from_tx_batch <$> raw_batches raw_block)).

Definition push_batch (batches : list (list Transaction)) (tx_batch : list Transaction) : list (list Transaction) :=
  match tx_batch with [] => batches | _ => batches ++ [tx_batch] end.
(** A head makes room for the length it carries, whatever that is: [Vec::with_capacity] panics when
    it is too large. *)
Definition raw_step {E} (acc : list (list Transaction) * list Transaction) (tx : L2Transaction)
    : outcome E (list (list Transaction) * list Transaction) :=
  let '(batches, tx_batch) := acc in
  match tx with
  | Head length tx => _ ← with_capacity transaction_size length; Ok (push_batch batches tx_batch, [tx])
  | Body tx => Ok (batches, tx_batch ++ [tx])
  end.
Fixpoint raw_steps {E} (txs : list L2Transaction) (acc : list (list Transaction) * list Transaction)
    : outcome E (list (list Transaction) * list Transaction) :=
  match txs with
  | [] => Ok acc
  | tx :: txs => acc ← raw_step acc tx; raw_steps txs acc
  end.
Definition raw_block_from {E} (value : L2Block) : outcome E RawBlock :=
  '(batches, tx_batch) ← raw_steps (labelled value) ([], []);
  Ok (mkRawBlock (push_batch batches tx_batch)).

(** Nothing of it is an error. *)
Lemma raw_steps_any {E E'} txs : ∀ acc,
  raw_steps (E:=E) txs acc = match raw_steps (E:=E') txs acc with Ok r => Ok r | _ => Panic end.
Proof.
  induction txs as [|[n tx|tx] txs IH]; intros [batches cur]; cbn; [done| |apply IH].
  unfold with_capacity. case_decide; [apply IH|done].
Qed.
Lemma raw_block_any {E E'} value block : raw_block_from (E:=E) value = Ok block → raw_block_from (E:=E') value = Ok block.
Proof.
  unfold raw_block_from. rewrite (raw_steps_any (E:=E) (E':=E')). destruct (raw_steps (E:=E') _ _) as [[]|e|]; [by intros [= <-]|done|done].
Qed.
End block.
End Block.

(** * The Merkle root, by its recursive definition *)

Section merkle_reference.
Context `{Sha : !Sha256} `{ShaLaws : !Sha256Laws}.

(** What is hashed for the level above [l]: the nodes in pairs, an odd last one with itself. *)
Fixpoint level_inputs (l : list bytes) : list bytes :=
  match l with
  | a :: b :: l => (INTERMEDIATE_PREFIX ++ a ++ b) :: level_inputs l
  | [a] => [INTERMEDIATE_PREFIX ++ a ++ a]
  | [] => []
  end.
Definition level_above (l : list bytes) : list bytes := sha256 <$> level_inputs l.

Fixpoint tree_root (fuel : nat) (l : list bytes) : option bytes :=
  match l, fuel with
  | [], _ => None
  | [root], _ => Some root
  | _, O => None
  | _, S fuel => tree_root fuel (level_above l)
  end.
Definition merkle_root (items : list bytes) : option bytes := tree_root (S (length items)) (hash_leaf <$> items).

Lemma hash_intermediate_input a b : hash_intermediate a b = sha256 (INTERMEDIATE_PREFIX ++ a ++ b).
Proof. unfold hash_intermediate, hashv. cbn [mjoin list_join]. by rewrite app_nil_r. Qed.
Lemma hash_leaf_input d : hash_leaf d = sha256 (LEAF_PREFIX ++ d).
Proof. unfold hash_leaf, hashv. cbn [mjoin list_join]. by rewrite app_nil_r. Qed.

Lemma pairs_ind (P : list bytes → Prop) :
  P [] → (∀ a, P [a]) → (∀ a b l, P l → P (a :: b :: l)) → ∀ l, P l.
Proof.
  intros Hnil Hone Htwo l. enough (P l ∧ ∀ a, P (a :: l)) by tauto.
  induction l as [|b l [IH IH']]; auto.
Qed.

Lemma length_level_inputs l : len (level_inputs l) = (len l + 1) / 2.
Proof.
  induction l as [|a|a b l IH] using pairs_ind; [done..|].
  cbn [level_inputs]. rewrite !len_cons, IH. replace (1 + (1 + len l) + 1) with (len l + 1 + 1 * 2) by lia.
  rewrite Z.div_add by lia. lia.
Qed.
Lemma length_level_above l : len (level_above l) = (len l + 1) / 2.
Proof. rewrite <- length_level_inputs. unfold level_above, len. by rewrite length_fmap. Qed.
Lemma level_above_shorter l : 1 < len l → 1 <= len (level_above l) < len l.
Proof. rewrite length_level_above. intros. split; [apply Z.div_le_lower_bound|apply Z.div_lt_upper_bound]; lia. Qed.

Lemma push_node_run (nodes : list bytes) start n i a b :
  index (E:=Empty_set) nodes (start + 2 * i) = Ok a →
  index (E:=Empty_set) nodes (start + 2 * i + if decide (2 * i + 1 < n) then 1 else 0) = Ok b →
  push_node start n i (mkMerkleTree nodes) = (Ok tt, mkMerkleTree (nodes ++ [sha256 (INTERMEDIATE_PREFIX ++ a ++ b)])).
Proof.
  intros Ha Hb. unfold push_node. rewrite run_gets. cbn [mt_nodes]. rewrite (run_lift_Ok _ _ _ _ Ha).
  destruct (decide _); [|rewrite Z.add_0_r in Hb]; rewrite (run_lift_Ok _ _ _ _ Hb);
    unfold modify; cbn [mt_nodes]; by rewrite hash_intermediate_input.
Qed.

(** The loop over a level pushes the level above it. *)
Lemma level_pushed (pre rest : list bytes) : ∀ (front acc : list bytes) (i : Z),
  len front = 2 * i →
  for_each (push_node (len pre) (len (front ++ rest))) (seqZ i (len (level_inputs rest)))
    (mkMerkleTree (pre ++ front ++ rest ++ acc)) =
    (Ok tt, mkMerkleTree (pre ++ front ++ rest ++ acc ++ level_above rest)).
Proof.
  induction rest as [|a|a b rest IH] using pairs_ind; intros front acc i Hi.
  - unfold level_above. cbn [level_inputs fmap list_fmap]. rewrite !app_nil_r. by change (seqZ i (len [])) with (@nil Z).
  - change (len (level_inputs [a])) with 1. rewrite seqZ_cons by lia. change (Z.pred 1) with 0. cbn [for_each].
    erewrite run_op.
    2:{ apply push_node_run; rewrite (app_assoc pre front); [|rewrite decide_False, Z.add_0_r];
          first [apply index_app; rewrite len_app; lia | rewrite len_app; change (len [a]) with 1; lia]. }
    change (seqZ (Z.succ i) 0) with (@nil Z). cbn [for_each]. unfold mret, st_ret, level_above. cbn [level_inputs fmap list_fmap].
    by rewrite <- !app_assoc.
  - cbn [level_inputs]. rewrite len_cons. rewrite seqZ_cons by (pose proof (len_nonneg (level_inputs rest)); lia).
    replace (Z.pred _) with (len (level_inputs rest)) by lia. cbn [for_each].
    erewrite run_op.
    2:{ apply push_node_run; rewrite (app_assoc pre front).
        - apply index_app; rewrite len_app; lia.
        - rewrite decide_True by (rewrite len_app, !len_cons; pose proof (len_nonneg rest); lia).
          change ((a :: b :: rest) ++ acc) with ([a] ++ b :: rest ++ acc). rewrite app_assoc.
          apply index_app. rewrite !len_app. change (len [a]) with 1. lia. }
    specialize (IH (front ++ [a; b]) (acc ++ [sha256 (INTERMEDIATE_PREFIX ++ a ++ b)]) (Z.succ i)).
    rewrite len_app in IH. change (len [a; b]) with 2 in IH. specialize (IH ltac:(lia)).
    rewrite <- !app_assoc in IH. cbn [app] in IH. rewrite <- !app_assoc. cbn [app].
    unfold level_above in *. cbn [level_inputs fmap list_fmap]. exact IH.
Qed.

(** From a level of at least one node, the loop ends, and the last node is the root. *)
Lemma levels_root (fuel : nat) : ∀ (pre level : list bytes),
  1 <= len level → (length level <= fuel)%nat →
  ∃ nodes, levels fuel (next_level_len (len level)) (len pre + len level) (len level) (len pre)
             (mkMerkleTree (pre ++ level)) = (Ok tt, mkMerkleTree nodes) ∧
    last nodes = tree_root fuel level.
Proof.
  induction fuel as [|fuel IH]; intros pre level Hlevel Hfuel; [unfold len in Hlevel; lia|]. cbn [levels].
  unfold next_level_len. destruct (decide (len level = 1)) as [Hone|Hmany].
  { rewrite decide_False by lia. exists (pre ++ level). split; [done|].
    destruct level as [|root [|b level]]; [done|by rewrite last_snoc|].
    rewrite !len_cons in Hone. pose proof (len_nonneg level). lia. }
  pose proof (level_above_shorter level ltac:(lia)) as Habove. rewrite <- length_level_above.
  assert (1 <= len (level_above level) ∧ (length (level_above level) <= fuel)%nat) as [Hge Hless] by (unfold len in *; lia).
  rewrite decide_True by lia.
  pose proof (level_pushed pre level [] [] 0 ltac:(done)) as Hpush. cbn [app] in Hpush. rewrite app_nil_r in Hpush.
  rewrite length_level_inputs, <- length_level_above in Hpush.
  rewrite (run_op _ _ _ _ _ Hpush).
  destruct (IH (pre ++ level) (level_above level)) as (nodes & Hrun & Hlast); [done|done|].
  exists nodes. rewrite len_app in Hrun. rewrite <- app_assoc in Hrun. split; [exact Hrun|].
  rewrite Hlast. destruct level as [|a [|b level]]; [done|done|reflexivity].
Qed.
Lemma merkle_root_spec (items : list bytes) :
  ∃ mt, merkle_new items = Ok mt ∧ get_root mt = merkle_root items.
Proof.
  unfold merkle_new, merkle_root. destruct (decide (items = [])) as [->|Hne]; [by eexists|].
  assert (1 <= len (hash_leaf <$> items)) as Hlen.
  { destruct items; [done|]. rewrite fmap_cons, len_cons. pose proof (len_nonneg (hash_leaf <$> items)). lia. }
  destruct (levels_root (S (length items)) [] (hash_leaf <$> items) Hlen) as (nodes & Hrun & Hlast).
  { rewrite length_fmap. lia. }
  cbn [app] in Hrun. change (len []) with 0 in Hrun. rewrite Z.add_0_l in Hrun.
  replace (len (hash_leaf <$> items)) with (len items) in Hrun by (unfold len; by rewrite length_fmap).
  rewrite Hrun. by exists (mkMerkleTree nodes).
Qed.

(** The tree computes its root as the recursive definition does: the leaves hashed with their own
    prefix, then level by level the pairs, an odd last node paired with itself; no items have no
    root. The loops never index out of range, and the number of items bounds the levels. *)
Theorem merkle_root_reference (items : list bytes) :
  ∃ mt, merkle_new items = Ok mt ∧ get_root mt = merkle_root items.
Proof. apply merkle_root_spec. Qed.

(** * What the root binds *)

(** Every input hashed for the tree of some items. *)
Fixpoint tree_inputs (fuel : nat) (l : list bytes) : list bytes :=
  match l, fuel with
  | _ :: _ :: _, S fuel => level_inputs l ++ tree_inputs fuel (level_above l)
  | _, _ => []
  end.
Definition merkle_inputs (items : list bytes) : list bytes :=
  ((λ item, LEAF_PREFIX ++ item) <$> items) ++ tree_inputs (S (length items)) (hash_leaf <$> items).
(** No two of these inputs collide. *)
Definition no_collision (inputs : list bytes) : Prop :=
  Forall (λ x, Forall (λ y, sha256 x = sha256 y → x = y) inputs) inputs.

Lemma no_collision_eq inputs x y : no_collision inputs → x ∈ inputs → y ∈ inputs → sha256 x = sha256 y → x = y.
Proof. unfold no_collision. intros H Hx Hy. rewrite Forall_forall in H. specialize (H _ Hx). rewrite Forall_forall in H. auto. Qed.

Lemma fmap_sha256_inj inputs l k :
  no_collision inputs → l ⊆ inputs → k ⊆ inputs → sha256 <$> l = sha256 <$> k → l = k.
Proof.
  intros Hno. revert k. induction l as [|x l IH]; intros [|y k] Hl Hk Heq; [done|discriminate..|].
  rewrite !fmap_cons in Heq. injection Heq as Hxy Heq. f_equal.
  - eapply no_collision_eq; eauto; [apply Hl|apply Hk]; left.
  - apply IH; [..|done]; intros z Hz; [apply Hl|apply Hk]; by right.
Qed.

Lemma level_inputs_inj l : ∀ k,
  length l = length k → Forall (λ h, length h = 32%nat) l → Forall (λ h, length h = 32%nat) k →
  level_inputs l = level_inputs k → l = k.
Proof.
  induction l as [|a|a b l IH] using pairs_ind; intros k Hlen Hl Hk Heq.
  - by destruct k.
  - destruct k as [|c [|d k]]; [done| |done]. cbn in Heq. injection Heq as Heq.
    rewrite !Forall_cons in *. apply app_inj_1 in Heq as [-> _]; [done|lia].
  - destruct k as [|c [|d k]]; [done|done|]. cbn in Heq. injection Heq as Heq Hrest.
    rewrite !Forall_cons in *. destruct Hl as (Ha & Hb & Hl), Hk as (Hc & Hd & Hk).
    apply app_inj_1 in Heq as [-> ->]; [|lia]. do 2 f_equal. apply IH; try done. cbn in Hlen. lia.
Qed.

Lemma level_above_hashes l : Forall (λ h, length h = 32%nat) (level_above l).
Proof. unfold level_above. apply Forall_fmap, Forall_true. intros x. apply length_sha256. Qed.

Lemma tree_root_binds (inputs : list bytes) (fuel : nat) : ∀ l k,
  no_collision inputs → tree_inputs fuel l ⊆ inputs → tree_inputs fuel k ⊆ inputs →
  length l = length k → (length l <= fuel)%nat →
  Forall (λ h, length h = 32%nat) l → Forall (λ h, length h = 32%nat) k →
  tree_root fuel l = tree_root fuel k → l = k.
Proof.
  induction fuel as [|fuel IH]; intros l k Hno Hil Hik Hlen Hfuel Hl Hk Hroot.
  { destruct l, k; try done; cbn in *; lia. }
  destruct l as [|a [|a' l]], k as [|b [|b' k]]; try done; [cbn in Hroot; congruence|].
  cbn [tree_root tree_inputs] in *. remember (a :: a' :: l) as l1 eqn:El. remember (b :: b' :: k) as k1 eqn:Ek.
  assert (1 < len l1) as H1 by (subst l1; rewrite !len_cons; pose proof (len_nonneg l); lia).
  pose proof (level_above_shorter l1 H1) as Hshort. unfold len in Hshort.
  assert (length (level_above l1) = length (level_above k1)) as Habove.
  { pose proof (length_level_above l1) as E1. pose proof (length_level_above k1) as E2. unfold len in *.
    rewrite Hlen in E1. lia. }
  assert (level_above l1 = level_above k1) as Heq.
  { apply IH; try done; [set_solver..|lia|apply level_above_hashes|apply level_above_hashes]. }
  apply level_inputs_inj; [done..|]. eapply fmap_sha256_inj; [done|set_solver|set_solver|exact Heq].
Qed.

(** C36. The root of the signatures of an entry commits to them: two lists of the same length with the
    same root are the same list, unless two of the inputs hashed for them collide. *)
Theorem merkle_root_binds (items items' : list bytes) (mt mt' : MerkleTree) :
  merkle_new items = Ok mt → merkle_new items' = Ok mt' →
  length items = length items' → no_collision (merkle_inputs items ++ merkle_inputs items') →
  get_root mt = get_root mt' → items = items'.
Proof.
  intros Hmt Hmt' Hlen Hno Hroot.
  destruct (merkle_root_spec items) as (m & Hm & Hr). destruct (merkle_root_spec items') as (m' & Hm' & Hr').
  assert (m = mt) as -> by congruence. assert (m' = mt') as -> by congruence.
  assert (merkle_root items = merkle_root items') as Heq by congruence.
  change (tree_root (S (length items)) (hash_leaf <$> items) = tree_root (S (length items')) (hash_leaf <$> items')) in Heq.
  rewrite <- Hlen in Heq.
  change (merkle_inputs items') with
    (((λ item, LEAF_PREFIX ++ item) <$> items') ++ tree_inputs (S (length items')) (hash_leaf <$> items')) in Hno.
  rewrite <- Hlen in Hno. set (hashed := (λ item, LEAF_PREFIX ++ item)) in *.
  assert (tree_inputs (S (length items)) (hash_leaf <$> items) ⊆ merkle_inputs items ∧ hashed <$> items ⊆ merkle_inputs items)
    as [Hsub Hsub'] by (split; [apply list_subseteq_app_r|apply list_subseteq_app_l]; done).
  assert (∀ l : list bytes, Forall (λ h, length h = 32%nat) (hash_leaf <$> l)) as H32.
  { intros l. apply Forall_fmap, Forall_true. intros x. cbn. rewrite hash_leaf_input. apply length_sha256. }
  assert (hash_leaf <$> items = hash_leaf <$> items') as Hleaves.
  { eapply (tree_root_binds _ (S (length items))); [exact Hno|set_solver|set_solver| | |apply H32|apply H32|exact Heq]; rewrite !length_fmap; lia. }
  assert (hashed <$> items = hashed <$> items') as Hpre.
  { eapply fmap_sha256_inj; [exact Hno|set_solver|set_solver|]. rewrite <- !list_fmap_compose.
    rewrite (list_fmap_ext _ hash_leaf), (list_fmap_ext _ hash_leaf items'); [done|..];
      intros; symmetry; apply hash_leaf_input. }
  revert Hpre. apply (inj (fmap _)).
Qed.
End merkle_reference.

(** * The hash of an entry *)

Section next_hash.
Context `{Sdk : !SolanaSdk} `{Sha : !Sha256} `{ShaLaws : !Sha256Laws}.

(** The Merkle root of all signatures, in order. *)
Definition signatures_root (transactions : list Transaction) : bytes :=
  default Hash_default (merkle_root (mjoin (tx_signatures <$> transactions))).
Definition hash_times (n : Z) (start : bytes) : bytes := Nat.iter (Z.to_nat n) hash start.

Lemma hash_transactions_spec transactions : hash_transactions transactions = Ok (signatures_root transactions).
Proof.
  unfold hash_transactions, signatures_root. destruct (merkle_root_spec (mjoin (tx_signatures <$> transactions))) as (mt & -> & <-).
  done.
Qed.

Lemma poh_new_low_power start : poh_new start None = Ok (mkPoh start 0 LOW_POWER_MODE LOW_POWER_MODE 0).
Proof. done. Qed.

Lemma poh_hash_low_power start n :
  0 <= n <= 2 ^ 64 - 2 →
  poh_hash_n n (mkPoh start 0 LOW_POWER_MODE LOW_POWER_MODE 0) =
    (Ok (bool_decide (n = 2 ^ 64 - 2)), mkPoh (hash_times n start) n LOW_POWER_MODE (2 ^ 64 - 1 - n) 0).
Proof.
  intros Hn. unfold poh_hash_n, hash_times. cbn [remaining_hashes poh_hash poh_num_hashes hashes_per_tick tick_number].
  unfold LOW_POWER_MODE. rewrite (u64_sub_small _ 1) by lia. rewrite Z.min_r by lia.
  rewrite u64_add_small, u64_sub_small by lia. rewrite decide_True by lia. rewrite Z.add_0_l. do 2 f_equal.
  by apply bool_decide_ext; lia.
Qed.

Lemma poh_tick_low_power start n k :
  run poh_tick (mkPoh start n LOW_POWER_MODE k 0) = Ok (Some (hash start)).
Proof. unfold poh_tick, run. cbn [hashes_per_tick]. rewrite decide_False; [done|]. by intros [? _]. Qed.

(** The proof-of-history steps behind an entry: [n - 1] hashes of the start, then one that mixes in
    the root of the signatures, or one more for a tick. *)
Definition entry_hash (start : bytes) (n : Z) (transactions : list Transaction) : bytes :=
  let h := hash_times (n - 1) start in
  match transactions with
  | [] => if decide (n = 0) then start else hash h
  | _ => hashv [h; signatures_root transactions]
  end.

Lemma next_hash_run start n transactions :
  0 <= n < 2 ^ 64 - 1 → next_hash start n transactions = Ok (entry_hash start n transactions).
Proof.
  intros Hn. unfold next_hash, entry_hash. destruct (decide (n = 0 ∧ transactions = [])) as [[-> ->]|Hne]; [done|].
  rewrite poh_new_low_power. unfold mbind at 1, outcome_bind. unfold run. unfold saturating_pred.
  assert (0 <= Z.max 0 (n - 1) <= 2 ^ 64 - 2) as Hpred by lia.
  rewrite (run_op _ _ _ _ _ (poh_hash_low_power start _ Hpred)).
  assert (hash_times (Z.max 0 (n - 1)) start = hash_times (n - 1) start) as ->
    by (unfold hash_times; f_equal; lia).
  destruct transactions as [|tx transactions].
  - rewrite decide_False by (intros ->; tauto).
    pose proof (poh_tick_low_power (hash_times (n - 1) start) (Z.max 0 (n - 1)) (2 ^ 64 - 1 - Z.max 0 (n - 1))) as Ht.
    unfold run in Ht. unfold mbind, st_bind. destruct (poh_tick _) as [r s]. cbn [fst] in Ht. by subst r.
  - unfold mbind at 1, st_bind at 1. rewrite (run_lift_Ok _ _ _ _ (hash_transactions_spec _)).
    unfold poh_record. cbn [remaining_hashes]. by rewrite decide_False by lia.
Qed.

(** The hash of an entry is the [num_hashes]-fold hash of the previous one, the last step mixing in
    the Merkle root of the signatures when there are transactions; nothing but zero hashes and no
    transactions leaves the hash as it is, and making it never panics. *)
Theorem next_hash_spec (start : bytes) (num_hashes : Z) (transactions : list Transaction) :
  0 <= num_hashes < 2 ^ 64 - 1 →
  next_hash start num_hashes transactions =
    Ok (match transactions with
        | [] => hash_times num_hashes start
        | _ => hashv [hash_times (num_hashes - 1) start; signatures_root transactions]
        end).
Proof.
  intros Hn. rewrite next_hash_run by done. unfold entry_hash. destruct transactions as [|tx transactions]; [|done].
  destruct (decide (num_hashes = 0)) as [->|]; [done|]. do 2 f_equal. unfold hash_times.
  replace (Z.to_nat num_hashes) with (S (Z.to_nat (num_hashes - 1))) by lia. done.
Qed.

(** With the largest count, the hashes use up the chain and mixing in transactions panics. *)
Lemma next_hash_limit start tx transactions : next_hash start (2 ^ 64 - 1) (tx :: transactions) = Panic.
Proof.
  unfold next_hash. rewrite decide_False by (intros [? ?]; discriminate). rewrite poh_new_low_power.
  unfold mbind at 1, outcome_bind. unfold run, saturating_pred. rewrite Z.max_r by lia.
  assert (0 <= 2 ^ 64 - 1 - 1 <= 2 ^ 64 - 2) as Hpred by lia.
  rewrite (run_op _ _ _ _ _ (poh_hash_low_power start _ Hpred)).
  unfold mbind at 1, st_bind at 1. rewrite (run_lift_Ok _ _ _ _ (hash_transactions_spec _)).
  unfold poh_record. cbn [remaining_hashes]. by rewrite decide_True by lia.
Qed.

(** [new_entry] counts at least one hash for transactions. *)
Lemma new_entry_spec prev n transactions :
  0 <= n < 2 ^ 64 - 1 →
  new_entry prev n transactions =
    Ok (mkEntry (if decide (n = 0 ∧ transactions ≠ []) then 1 else n) (entry_hash prev n transactions) transactions).
Proof.
  intros Hn. unfold new_entry. destruct (decide (n = 0 ∧ transactions ≠ [])) as [[-> Htx]|].
  - rewrite next_hash_run by lia. cbn. do 2 f_equal. by destruct transactions.
  - by rewrite next_hash_run by lia.
Qed.
End next_hash.

(** * Labelling a raw block *)

Section raw_blocks.
Context `{Sdk : !SolanaSdk} `{Size : !TransactionSize}.
Import Block.

Lemma raw_steps_bodies {E} batch rest : ∀ batches cur,
  raw_steps (E:=E) ((Body <$> batch) ++ rest) (batches, cur) = raw_steps rest (batches, cur ++ batch).
Proof.
  induction batch as [|tx batch IH]; intros batches cur; cbn; [by rewrite app_nil_r|].
  rewrite IH. by rewrite <- app_assoc.
Qed.

Lemma from_tx_batch_cons tx batch : from_tx_batch (tx :: batch) = Head (len (tx :: batch)) tx :: (Body <$> batch).
Proof.
  unfold from_tx_batch. cbn [imap]. rewrite decide_True by done. f_equal.
  rewrite <- (imap_const Body). apply imap_ext. intros i x _. cbn. by rewrite decide_False.
Qed.

Lemma raw_steps_batches {E} batches : ∀ done_ cur,
  Forall (λ b, len b * transaction_size <= ISIZE_MAX) batches →
  ('(done_, cur) ← raw_steps (E:=E) (mjoin (from_tx_batch <$> batches)) (done_, cur); Ok (mkRawBlock (push_batch done_ cur))) =
  Ok (mkRawBlock (push_batch done_ cur ++ filter (λ b, b ≠ []) batches)).
Proof.
  induction batches as [|[|tx batch] batches IH]; intros done_ cur Hsize.
  - cbn. by rewrite app_nil_r.
  - apply Forall_cons in Hsize as [_ Hsize]. rewrite filter_cons_False by tauto. by apply IH.
  - apply Forall_cons in Hsize as [Hlen Hsize]. rewrite filter_cons_True by done.
    change (mjoin (from_tx_batch <$> ((tx :: batch) :: batches)))
      with (from_tx_batch (tx :: batch) ++ mjoin (from_tx_batch <$> batches)).
    rewrite from_tx_batch_cons. cbn [app raw_steps raw_step]. unfold with_capacity. rewrite decide_True by done.
    cbn [mbind outcome_bind]. rewrite raw_steps_bodies, IH by done. cbn [app push_batch]. by rewrite <- app_assoc.
Qed.

(** Labelling the batches of a raw block (which are vectors, so of a size that exists) and reading
    the labels back gives the same batches, in the same order with the same transactions; only empty
    batches, which have no head, are lost. *)
Theorem raw_block_roundtrip (raw_block : RawBlock) :
  Forall (λ b, len b * transaction_size <= ISIZE_MAX) (raw_batches raw_block) →
  raw_block_from (E:=Empty_set) (l2_block_from raw_block) = Ok (mkRawBlock (filter (λ b, b ≠ []) (raw_batches raw_block))).
Proof. intros Hsize. unfold raw_block_from, l2_block_from. cbn [labelled]. by apply raw_steps_batches. Qed.
End raw_blocks.

(** * Concrete trees and entries *)

Module Examples.

#[local] Instance digest : Sha256 :=
  λ data, be_bytes 32 ((foldl (λ acc b, acc * 257 + b2z b + 1) 0 data) mod 2 ^ 256).
#[local] Instance digest_laws : Sha256Laws.
Proof. constructor. intros data. apply length_be_bytes. Qed.

Definition item (n : Z) : bytes := [z2b n].

(** The tree of an odd level pairs its last node with itself: the same root as with the last leaf twice. *)
Example duplicate_last_same_root : merkle_root [item 1; item 2; item 3] = merkle_root [item 1; item 2; item 3; item 3].
Proof. by vm_compute. Qed.

#[local] Instance no_collision_dec inputs : Decision (no_collision inputs).
Proof. unfold no_collision. apply _. Defined.

Lemma merkle_root_binds_witness :
  ∃ mt mt', merkle_new [item 1; item 2; item 3] = Ok mt ∧ merkle_new [item 1; item 2; item 4] = Ok mt' ∧
    get_root mt ≠ get_root mt'.
Proof.
  eexists _, _. split; [by vm_compute|]. split; [by vm_compute|]. intros Hroot.
  assert ([item 1; item 2; item 3] = [item 1; item 2; item 4]) as Heq.
  { eapply merkle_root_binds; [by vm_compute|by vm_compute|done| |exact Hroot].
    apply (bool_decide_unpack _). by vm_compute. }
  by injection Heq.
Defined.

#[local] Existing Instances Native.Plainly.sdk.

(** Three hashes, then the signature of one transaction. *)
Lemma next_hash_spec_witness :
  next_hash (item 5) 3 [Native.Plainly.tx 1] = Ok (hashv [hash (hash (item 5)); sha256 [byte0; z2b 1]]) ∧
  next_hash (item 5) 0 [] = Ok (item 5).
Proof.
  split.
  - rewrite (next_hash_spec (item 5) 3 [Native.Plainly.tx 1]) by lia. by vm_compute.
  - apply (next_hash_spec (item 5) 0 []). lia.
Defined.

#[local] Instance size : TransactionSize := 56.
Definition three_batches : Block.RawBlock :=
  Block.mkRawBlock [[Native.Plainly.tx 1; Native.Plainly.tx 2]; []; [Native.Plainly.tx 3]].
Lemma raw_block_roundtrip_witness :
  Block.raw_block_from (E:=Empty_set) (Block.l2_block_from three_batches) =
    Ok (Block.mkRawBlock [[Native.Plainly.tx 1; Native.Plainly.tx 2]; [Native.Plainly.tx 3]]).
Proof.
  rewrite (raw_block_roundtrip three_batches); [by vm_compute|]. repeat constructor; vm_compute; discriminate.
Defined.
(** The length a head carries is not checked: a transaction of the payload chooses it. *)
Example huge_head_panics :
  Block.raw_block_from (E:=Empty_set) (Block.mkL2Block [Block.Head (2 ^ 63) (Native.Plainly.tx 1)]) = Panic.
Proof. by vm_compute. Qed.
End Examples.
