(* ===== verification/Blockhashes.v ===== *)
(** The recent blockhashes and the leaders of the virtual machine (src/crates/executor/svm/src/): the
    queue of blockhashes (blockhash_queue.rs), the sysvar it is kept in between blocks
    (sysvar/recent_blockhashes.rs, [update_recent_blockhashes_locked] of lib.rs), and the leader
    schedule (leader_schedule.rs).

    The two constants of Solana's clock are parameters.

    [queue_refines_list]: the queue is the list of the last hashes, most recent first; registering a
    hash conses it, and an age is a position.  [rebuilt_queue_ages]: a queue rebuilt from the sysvar
    agrees with the one that wrote it, up to the entries the sysvar keeps.  [leader_at_slot_spec]: the
    leader of a slot is the last one scheduled up to it. *)
From stdpp Require Import sorting.
From S2P Require Import Prelude Blocks.
#[local] Open Scope Z_scope.

(** [solana_program::clock]. *)
Class SolanaClock := { MAX_RECENT_BLOCKHASHES : Z; MAX_PROCESSING_AGE : Z }.

(** * The queue *)

(** The fee calculator is its [lamports_per_signature]. *)
Record HashInfo := mkHashInfo { hi_fee_calculator : Z; hi_hash_index : Z; hi_timestamp : Z }.
Record BlockhashQueue := mkBlockhashQueue {
  last_hash_index : Z;
  bq_last_hash : option bytes;
  hashes : gmap bytes HashInfo;
  max_age : Z;
}.

Definition queue_new (max_age : Z) : BlockhashQueue := mkBlockhashQueue 0 None ∅ max_age.
Definition last_hash {E} (self : BlockhashQueue) : outcome E bytes := expect (bq_last_hash self).
Definition get_lamports_per_signature (self : BlockhashQueue) (hash : bytes) : option Z :=
  hi_fee_calculator <$> hashes self !! hash.
Definition is_hash_index_valid (last_hash_index max_age hash_index : Z) : bool :=
  bool_decide (u64_sub last_hash_index hash_index <= max_age).
Definition get_hash_info_if_valid (self : BlockhashQueue) (hash : bytes) (max_age : Z) : option HashInfo :=
  match hashes self !! hash with
  | Some info => if is_hash_index_valid (last_hash_index self) max_age (hi_hash_index info) then Some info else None
  | None => None
  end.
Definition is_hash_valid_for_age (self : BlockhashQueue) (hash : bytes) (max_age : Z) : bool :=
  bool_decide (is_Some (get_hash_info_if_valid self hash max_age)).
Definition get_hash_age (self : BlockhashQueue) (hash : bytes) : option Z :=
  (λ info, u64_sub (last_hash_index self) (hi_hash_index info)) <$> hashes self !! hash.

Definition register_hash (hash : bytes) (lamports_per_signature : Z) (self : BlockhashQueue) : BlockhashQueue :=
  let last_hash_index := u64_add (last_hash_index self) 1 in
  let kept :=
    if decide (Z.of_nat (size (hashes self)) >= max_age self)
    then filter (λ '(_, info), is_hash_index_valid last_hash_index (max_age self) (hi_hash_index info) = true) (hashes self)
    else hashes self in
  mkBlockhashQueue last_hash_index (Some hash)
    (<[hash := mkHashInfo lamports_per_signature last_hash_index 0]> kept) (max_age self).

(** [IterItem]: an index, a hash and the lamports per signature. *)
Definition get_recent_blockhashes (self : BlockhashQueue) : list (Z * bytes * Z) :=
  (λ '(k, v), (hi_hash_index v, k, hi_fee_calculator v)) <$> map_to_list (hashes self).

(** * The sysvar *)

Section sysvar.
Context `{Clock : !SolanaClock}.

Definition MAX_ENTRIES : nat := Z.to_nat MAX_PROCESSING_AGE.

(** [SoonRecentBlockhashes]: a hash and its fee calculator. *)
Record SoonRecentBlockhashes := mkSoonRecentBlockhashes { recent_entries : list (bytes * Z) }.
Definition soon_recent_from_iter (iter : list (Z * bytes * Z)) : SoonRecentBlockhashes :=
  mkSoonRecentBlockhashes ((λ '(_, hash, fee), (hash, fee)) <$> iter).
Definition soon_recent_size_of : Z := 40 * Z.of_nat MAX_ENTRIES + 8.

(** The [BinaryHeap] of the items and [IntoIterSorted], which pops them: items are ordered by index. *)
Definition item_ge (a b : Z * bytes * Z) : Prop := b.1.1 <= a.1.1.
#[global] Instance item_ge_dec : RelDecision item_ge.
Proof. unfold item_ge. solve_decision. Defined.
Definition into_iter_sorted (items : list (Z * bytes * Z)) : list (Z * bytes * Z) := merge_sort item_ge items.

Definition soon_recent_blockhashes (queue : BlockhashQueue) : SoonRecentBlockhashes :=
  soon_recent_from_iter (take MAX_ENTRIES (into_iter_sorted (get_recent_blockhashes queue))).

(** [collect::<HashMap>]: a later entry of the same hash replaces an earlier one. *)
Definition queue_from (recent_blockhashes : SoonRecentBlockhashes) : BlockhashQueue :=
  let entries := recent_entries recent_blockhashes in
  let infos := imap (λ index '(hash, fee), (hash, mkHashInfo fee (u64_sub (len entries) (Z.of_nat index)) 0)) entries in
  mkBlockhashQueue (len entries) (fst <$> head entries) (foldl (λ m '(k, v), <[k := v]> m) ∅ infos) MAX_RECENT_BLOCKHASHES.
Definition queue_default : BlockhashQueue := queue_new MAX_RECENT_BLOCKHASHES.
End sysvar.

(** * The leaders *)

Record LeaderSchedule := mkLeaderSchedule { leaders : list (Z * Pubkey) }.

(** [unique_by]: the first of the items with a key. *)
Fixpoint unique_by_slot (seen : list Z) (l : list (Z * Pubkey)) : list (Z * Pubkey) :=
  match l with
  | [] => []
  | (slot, leader) :: l => if decide (slot ∈ seen) then unique_by_slot seen l else (slot, leader) :: unique_by_slot (slot :: seen) l
  end.
Definition slot_le (a b : Z * Pubkey) : Prop := a.1 <= b.1.
#[global] Instance slot_le_dec : RelDecision slot_le.
Proof. unfold slot_le. solve_decision. Defined.
Definition schedule_from_iter (iter : list (Z * Pubkey)) : LeaderSchedule :=
  mkLeaderSchedule (merge_sort slot_le (unique_by_slot [] iter)).
Definition schedule_new (leaders : list (Z * Pubkey)) : LeaderSchedule := schedule_from_iter leaders.
Definition schedule_from_option (value : option Pubkey) : LeaderSchedule :=
  match value with Some pubkey => mkLeaderSchedule [(0, pubkey)] | None => mkLeaderSchedule [] end.
Definition schedule_from (pubkey : Pubkey) : LeaderSchedule := mkLeaderSchedule [(0, pubkey)].

(** [binary_search_by_key] of a sorted slice: the index of the key, or where it would be inserted. *)
Fixpoint binary_search (slot : Z) (l : list (Z * Pubkey)) : nat + nat :=
  match l with
  | [] => inr O
  | (s, _) :: l =>
      if decide (s < slot) then match binary_search slot l with inl i => inl (S i) | inr i => inr (S i) end
      else if decide (s = slot) then inl O else inr O
  end.
Definition leader_at_slot (self : LeaderSchedule) (slot : Z) : option Pubkey :=
  match binary_search slot (leaders self) with
  | inl i => snd <$> leaders self !! i
  | inr i => if decide (i = O) then None else snd <$> leaders self !! (i - 1)%nat
  end.

(** * The queue is a list *)

Section queue_list.

(** The most recent hash first, with its index. *)
Definition tagged (last : Z) (items : list (bytes * Z)) : list (bytes * HashInfo) :=
  imap (λ i '(hash, fee), (hash, mkHashInfo fee (last - Z.of_nat i) 0)) items.

(** The queue holds the [items], most recent first. *)
Record represents (queue : BlockhashQueue) (items : list (bytes * Z)) : Prop := {
  rep_hashes : hashes queue = list_to_map (tagged (last_hash_index queue) items);
  rep_last : bq_last_hash queue = fst <$> head items;
  rep_distinct : NoDup items.*1;
  rep_index : len items <= last_hash_index queue < 2 ^ 64;
}.

Lemma tagged_cons last hash fee items :
  tagged (last + 1) ((hash, fee) :: items) = (hash, mkHashInfo fee (last + 1) 0) :: tagged last items.
Proof.
  unfold tagged. rewrite imap_cons. f_equal; [do 2 f_equal; lia|]. apply imap_ext. intros i [h f] _. cbn. do 2 f_equal. lia.
Qed.
Lemma tagged_keys last items : (tagged last items).*1 = items.*1.
Proof.
  unfold tagged. rewrite fmap_imap. rewrite <- (imap_const fst). apply imap_ext. by intros i [h f] _.
Qed.
Lemma tagged_lookup last items hash info :
  NoDup items.*1 →
  list_to_map (M:=gmap bytes HashInfo) (tagged last items) !! hash = Some info ↔
  ∃ i fee, items !! i = Some (hash, fee) ∧ info = mkHashInfo fee (last - Z.of_nat i) 0.
Proof.
  intros Hnd. rewrite <- elem_of_list_to_map by (by rewrite tagged_keys). unfold tagged. rewrite elem_of_lookup_imap.
  split.
  - intros (i & [h f] & Heq & Hi). injection Heq as -> ->. by exists i, f.
  - intros (i & fee & Hi & ->). by exists i, (hash, fee).
Qed.
Lemma tagged_size last items :
  NoDup items.*1 → size (list_to_map (M:=gmap bytes HashInfo) (tagged last items)) = length items.
Proof.
  intros Hnd. rewrite map_size_list_to_map by (by rewrite tagged_keys). by rewrite <- (length_fmap fst), tagged_keys, length_fmap.
Qed.

Lemma NoDup_take_keys n (items : list (bytes * Z)) : NoDup items.*1 → NoDup (take n items).*1.
Proof. intros H. rewrite <- (take_drop n items), fmap_app, NoDup_app in H. tauto. Qed.

Lemma represents_lookup queue items hash info :
  represents queue items →
  hashes queue !! hash = Some info ↔
  ∃ i fee, items !! i = Some (hash, fee) ∧ info = mkHashInfo fee (last_hash_index queue - Z.of_nat i) 0.
Proof. intros [Hmap _ Hnd _]. rewrite Hmap. by apply tagged_lookup. Qed.

(** Dropping the old hashes keeps the [max_age] most recent ones. *)
Lemma retained items last (age : Z) :
  NoDup items.*1 → len items <= last → last + 1 < 2 ^ 64 → 0 <= age →
  filter (λ '(_, info), is_hash_index_valid (last + 1) age (hi_hash_index info) = true)
    (list_to_map (M:=gmap bytes HashInfo) (tagged last items)) = list_to_map (tagged last (take (Z.to_nat age) items)).
Proof.
  intros Hnd Hlast Hmax Hage. apply map_eq. intros hash. apply option_eq. intros info.
  rewrite map_lookup_filter_Some, !tagged_lookup by (try apply NoDup_take_keys; done). split.
  - intros [(i & fee & Hi & ->) Hvalid]. exists i, fee. split; [|done].
    unfold is_hash_index_valid in Hvalid. cbn [hi_hash_index] in Hvalid. apply bool_decide_eq_true in Hvalid.
    pose proof (lookup_lt_Some _ _ _ Hi) as Hlt. unfold len in Hlast. rewrite u64_sub_small in Hvalid by lia.
    apply lookup_take_Some. split; [done|lia].
  - intros (i & fee & Hi & ->). apply lookup_take_Some in Hi as [Hi Hage']. split; [by exists i, fee|].
    pose proof (lookup_lt_Some _ _ _ Hi) as Hlt. unfold len in Hlast.
    unfold is_hash_index_valid. cbn [hi_hash_index]. apply bool_decide_eq_true. rewrite u64_sub_small by lia. lia.
Qed.

Lemma register_represents queue items hash fee :
  represents queue items → hash ∉ items.*1 → 0 <= max_age queue → last_hash_index queue + 1 < 2 ^ 64 →
  represents (register_hash hash fee queue) ((hash, fee) :: take (Z.to_nat (max_age queue)) items).
Proof.
  intros [Hmap Hlast Hnd Hix] Hnew Hage Hmax. pose proof (len_nonneg items) as Hlen.
  assert (u64_add (last_hash_index queue) 1 = last_hash_index queue + 1) as Hnext by (apply u64_add_small; lia).
  assert (hash ∉ (take (Z.to_nat (max_age queue)) items).*1) as Hnew'.
  { intros Hin. apply Hnew. rewrite <- (take_drop (Z.to_nat (max_age queue)) items), fmap_app. set_solver. }
  constructor; unfold register_hash; cbn [hashes last_hash_index bq_last_hash head fmap option_fmap option_map]; rewrite ?Hnext.
  - rewrite tagged_cons. cbn [list_to_map foldr uncurry]. f_equal. rewrite Hmap. destruct (decide _) as [Hfull|Hfits].
    + apply retained; [done|lia|lia|done].
    + rewrite take_ge; [done|]. rewrite tagged_size in Hfits by done. lia.
  - done.
  - rewrite fmap_cons. apply NoDup_cons. split; [exact Hnew'|by apply NoDup_take_keys].
  - rewrite len_cons. unfold len in *. rewrite length_take. lia.
Qed.

Lemma get_hash_age_position queue items hash :
  represents queue items →
  get_hash_age queue hash = (Z.of_nat ∘ fst) <$> list_find (λ '(h, _), h = hash) items.
Proof.
  intros Hrep. pose proof (rep_index _ _ Hrep) as Hix. pose proof (rep_distinct _ _ Hrep) as Hnd. unfold get_hash_age.
  destruct (list_find _ items) as [[i [h f]]|] eqn:Hfind.
  - apply list_find_Some in Hfind as (Hi & -> & _).
    assert (hashes queue !! hash = Some (mkHashInfo f (last_hash_index queue - Z.of_nat i) 0)) as ->
      by (apply (represents_lookup _ _ _ _ Hrep); by exists i, f).
    pose proof (lookup_lt_Some _ _ _ Hi) as Hlt. unfold len in Hix.
    cbn. f_equal. rewrite u64_sub_small by lia. lia.
  - apply list_find_None in Hfind. destruct (hashes queue !! hash) as [info|] eqn:Hinfo; [|done].
    apply (represents_lookup _ _ _ _ Hrep) in Hinfo as (i & f & Hi & _).
    apply list_elem_of_lookup_2 in Hi. rewrite Forall_forall in Hfind. by destruct (Hfind _ Hi).
Qed.
End queue_list.

(** * The queue through the sysvar *)

Section sysvar_laws.
Context `{Clock : !SolanaClock}.

Definition items_of (last : Z) (items : list (bytes * Z)) : list (Z * bytes * Z) :=
  imap (λ i '(hash, fee), (last - Z.of_nat i, hash, fee)) items.

Lemma items_of_sorted items : ∀ last, StronglySorted item_ge (items_of last items).
Proof.
  induction items as [|[h f] items IH]; intros last; [constructor|]. unfold items_of. rewrite imap_cons. constructor.
  - rewrite (imap_ext _ (λ i '(hash, fee), (last - 1 - Z.of_nat i, hash, fee))); [apply IH|].
    intros i [h' f'] _. cbn. do 2 f_equal. lia.
  - apply Forall_forall. intros x Hx. apply elem_of_lookup_imap in Hx as (i & [h' f'] & -> & _). unfold item_ge. cbn. lia.
Qed.

#[local] Instance item_ge_trans : Transitive item_ge.
Proof. unfold item_ge. intros a b c ??. lia. Qed.
#[local] Instance item_ge_total : Total item_ge.
Proof. unfold item_ge. intros a b. lia. Qed.

Lemma items_of_inj last items x y :
  x ∈ items_of last items → y ∈ items_of last items → item_ge x y → item_ge y x → x = y.
Proof.
  unfold items_of. intros Hx Hy Hxy Hyx.
  apply elem_of_lookup_imap in Hx as (i & [h f] & -> & Hi). apply elem_of_lookup_imap in Hy as (j & [h' f'] & -> & Hj).
  unfold item_ge in *. cbn in *. assert (i = j) as -> by lia. congruence.
Qed.

Lemma recent_sorted queue items :
  represents queue items →
  into_iter_sorted (get_recent_blockhashes queue) = items_of (last_hash_index queue) items.
Proof.
  intros [Hmap _ Hnd _].
  assert (get_recent_blockhashes queue ≡ₚ items_of (last_hash_index queue) items) as Hperm.
  { unfold get_recent_blockhashes. rewrite Hmap, map_to_list_to_map by (by rewrite tagged_keys).
    unfold tagged, items_of. rewrite fmap_imap. apply reflexive_eq. apply imap_ext. by intros i [h f] _. }
  unfold into_iter_sorted. apply (StronglySorted_unique_strong item_ge).
  - intros x y Hx Hy. rewrite merge_sort_Permutation, Hperm in Hx. by apply (items_of_inj (last_hash_index queue) items).
  - apply StronglySorted_merge_sort; apply _.
  - apply items_of_sorted.
  - by rewrite merge_sort_Permutation.
Qed.

(** The sysvar lists the most recent hashes. *)
Lemma soon_recent_items queue items :
  represents queue items → recent_entries (soon_recent_blockhashes queue) = take MAX_ENTRIES items.
Proof.
  intros Hrep. unfold soon_recent_blockhashes, soon_recent_from_iter. cbn [recent_entries].
  rewrite (recent_sorted _ _ Hrep), fmap_take. f_equal. unfold items_of. rewrite fmap_imap.
  rewrite (imap_ext _ (λ _, id)); [|by intros i [h f] _]. rewrite (imap_const id). apply list_fmap_id.
Qed.

Lemma foldl_insert (l : list (bytes * HashInfo)) : ∀ m : gmap bytes HashInfo,
  NoDup l.*1 → foldl (λ m '(k, v), <[k := v]> m) m l = list_to_map l ∪ m.
Proof.
  induction l as [|[k v] l IH]; intros m Hnd; cbn; [by rewrite (left_id_L ∅ (∪))|].
  rewrite fmap_cons, NoDup_cons in Hnd. destruct Hnd as [Hk Hnd]. rewrite IH by done.
  rewrite <- insert_union_l. rewrite insert_union_r; [done|]. by apply not_elem_of_list_to_map_1.
Qed.

(** A queue read from the sysvar holds its entries. *)
Lemma queue_from_represents entries :
  NoDup entries.*1 → len entries < 2 ^ 64 → represents (queue_from (mkSoonRecentBlockhashes entries)) entries.
Proof.
  intros Hnd Hlen. pose proof (len_nonneg entries) as Hpos.
  constructor; unfold queue_from; cbn [recent_entries hashes last_hash_index bq_last_hash]; [|done|done|lia].
  replace (imap _ entries) with (tagged (len entries) entries).
  - rewrite foldl_insert by (by rewrite tagged_keys). apply (right_id_L ∅ (∪)).
  - unfold tagged. apply imap_ext. intros i [h f] Hi. pose proof (lookup_lt_Some _ _ _ Hi). cbn. do 2 f_equal.
    unfold len in *. rewrite u64_sub_small by lia. done.
Qed.

Lemma rebuilt_represents queue items :
  represents queue items → represents (queue_from (soon_recent_blockhashes queue)) (take MAX_ENTRIES items).
Proof.
  intros Hrep. destruct (soon_recent_blockhashes queue) as [entries] eqn:Heq.
  pose proof (soon_recent_items _ _ Hrep) as Hitems. rewrite Heq in Hitems. cbn in Hitems. subst entries.
  destruct Hrep as [_ _ Hnd Hix]. apply queue_from_represents; [by apply NoDup_take_keys|].
  unfold len in *. rewrite length_take. lia.
Qed.

Lemma list_find_take {A} (P : A → Prop) `{∀ x, Decision (P x)} n l :
  list_find P (take n l) = (r ← list_find P l; guard (r.1 < n)%nat;; Some r).
Proof.
  revert n. induction l as [|x l IH]; intros [|n]; cbn; try done.
  - case_decide; [done|]. by destruct (list_find P l) as [[]|].
  - case_decide; [done|]. rewrite IH. destruct (list_find P l) as [[i y]|]; [|done]. cbn.
    unfold guard. by do 2 case_decide; cbn; try lia.
Qed.

(** Between blocks the queue lives in a sysvar that keeps its most recent entries: the queue rebuilt
    from it gives each of them the age it had, and does not know the others. *)
Theorem rebuilt_queue_ages (queue : BlockhashQueue) (items : list (bytes * Z)) (hash : bytes) :
  represents queue items →
  get_hash_age (queue_from (soon_recent_blockhashes queue)) hash =
    (age ← get_hash_age queue hash; guard (age < Z.of_nat MAX_ENTRIES);; Some age).
Proof.
  intros Hrep. rewrite (get_hash_age_position _ _ _ (rebuilt_represents _ _ Hrep)), (get_hash_age_position _ _ _ Hrep).
  rewrite list_find_take. destruct (list_find _ items) as [[i [h f]]|]; [|done]. cbn. unfold guard.
  by do 2 case_decide; cbn; try lia.
Qed.
End sysvar_laws.

(** Registering hashes: from any queue that holds a list of hashes, most recent first, a new hash goes
    in front of the [max_age] most recent ones, the age of a hash is its position, and the last
    hash is the first. *)
Theorem queue_refines_list (queue : BlockhashQueue) (items : list (bytes * Z)) (hash : bytes) (fee : Z) :
  represents queue items → hash ∉ items.*1 → 0 <= max_age queue → last_hash_index queue + 1 < 2 ^ 64 →
  let items' := (hash, fee) :: take (Z.to_nat (max_age queue)) items in
  let queue' := register_hash hash fee queue in
  represents queue' items' ∧ last_hash (E:=Empty_set) queue' = Ok hash ∧
  ∀ other, get_hash_age queue' other = (Z.of_nat ∘ fst) <$> list_find (λ '(h, _), h = other) items'.
Proof.
  intros Hrep Hnew Hage Hmax items' queue'.
  pose proof (register_represents _ _ hash fee Hrep Hnew Hage Hmax) as Hrep'.
  split; [exact Hrep'|]. split; [done|]. intros other. by apply get_hash_age_position.
Qed.

(** * The leader of a slot *)

Section leader_laws.

#[local] Instance slot_le_trans : Transitive slot_le.
Proof. unfold slot_le. intros a b c ??. lia. Qed.
#[local] Instance slot_le_total : Total slot_le.
Proof. unfold slot_le. intros a b. lia. Qed.

(** The first leader a list names for a slot. *)
Definition first_leader (l : list (Z * Pubkey)) (slot : Z) : option Pubkey := snd <$> head (filter (λ x, x.1 = slot) l).

Lemma unique_by_slot_elem l : ∀ seen slot leader,
  (slot, leader) ∈ unique_by_slot seen l ↔ slot ∉ seen ∧ first_leader l slot = Some leader.
Proof.
  unfold first_leader. induction l as [|[s p] l IH]; intros seen slot leader; cbn [unique_by_slot].
  { cbn. set_solver. }
  rewrite filter_cons. cbn [fst]. destruct (decide (s = slot)) as [->|Hs].
  - destruct (decide (slot ∈ seen)); [rewrite IH; set_solver|]. rewrite elem_of_cons, IH. cbn. set_solver.
  - destruct (decide (s ∈ seen)); [by rewrite IH|]. rewrite elem_of_cons, IH. set_solver.
Qed.

Lemma unique_by_slot_distinct l : ∀ seen, NoDup (unique_by_slot seen l).*1 ∧ ∀ s, s ∈ seen → s ∉ (unique_by_slot seen l).*1.
Proof.
  induction l as [|[s p] l IH]; intros seen; cbn [unique_by_slot]; [split; [constructor|set_solver]|].
  destruct (decide (s ∈ seen)); [apply IH|]. destruct (IH (s :: seen)) as [Hnd Hseen]. rewrite fmap_cons. split.
  - apply NoDup_cons. split; [|done]. apply Hseen. left.
  - intros s' Hs'. rewrite elem_of_cons. intros [->|Hin]; [done|]. by apply (Hseen s'); [right|].
Qed.

(** What the search finds in a sorted list. *)
Lemma binary_search_split slot l :
  StronglySorted slot_le l → NoDup l.*1 →
  match binary_search slot l with
  | inl i => ∃ below leader above, l = below ++ (slot, leader) :: above ∧ length below = i ∧
                 Forall (λ x, x.1 < slot) below ∧ Forall (λ x, slot < x.1) above
  | inr i => ∃ below above, l = below ++ above ∧ length below = i ∧
                 Forall (λ x, x.1 < slot) below ∧ Forall (λ x, slot < x.1) above
  end.
Proof.
  induction l as [|[s p] l IH]; intros Hsort Hnd; cbn [binary_search]; [by exists [], []|].
  apply StronglySorted_inv in Hsort as [Hsort Hle]. rewrite fmap_cons, NoDup_cons in Hnd. destruct Hnd as [Hs Hnd].
  specialize (IH Hsort Hnd).
  assert (slot <= s → Forall (λ x : Z * Pubkey, slot < x.1) l) as Habove.
  { intros Hslot. rewrite Forall_forall in *. intros [s' p'] Hin. specialize (Hle _ Hin). unfold slot_le in Hle. cbn in *.
    assert (s' ≠ s); [|lia]. intros ->. apply Hs. change s with ((s, p').1). by apply list_elem_of_fmap_2. }
  destruct (decide (s < slot)) as [Hlt|Hge].
  - destruct (binary_search slot l) as [i|i].
    + destruct IH as (below & leader & above & -> & <- & Hb & Ha). exists ((s, p) :: below), leader, above.
      repeat split; auto.
    + destruct IH as (below & above & -> & <- & Hb & Ha). exists ((s, p) :: below), above. repeat split; auto.
  - destruct (decide (s = slot)) as [->|Hne]; [exists [], p, l|exists [], ((s, p) :: l)]; repeat split; auto.
    + apply Habove. lia.
    + constructor; [cbn; lia|]. apply Habove. lia.
Qed.

Lemma leader_in_sorted slot l leader :
  StronglySorted slot_le l → NoDup l.*1 →
  leader_at_slot (mkLeaderSchedule l) slot = Some leader ↔
  ∃ s, (s, leader) ∈ l ∧ s <= slot ∧ ∀ s' p', (s', p') ∈ l → s' <= slot → s' <= s.
Proof.
  intros Hsort Hnd. unfold leader_at_slot. cbn [leaders].
  pose proof (binary_search_split slot l Hsort Hnd) as Hsplit. destruct (binary_search slot l) as [i|i].
  - destruct Hsplit as (below & p & above & -> & <- & Hb & Ha). rewrite list_lookup_middle by done. cbn.
    rewrite Forall_forall in Hb, Ha. split.
    + intros [= ->]. exists slot. split; [set_solver|]. split; [lia|]. by intros.
    + intros (s & Hin & Hs & Hmax). apply elem_of_app in Hin as [Hin|Hin].
      * specialize (Hb _ Hin). cbn in Hb. specialize (Hmax slot p ltac:(set_solver) ltac:(lia)). lia.
      * apply elem_of_cons in Hin as [Heq|Hin]; [by injection Heq as -> ->|]. specialize (Ha _ Hin). cbn in Ha. lia.
  - destruct Hsplit as (below & above & -> & <- & Hb & Ha). rewrite Forall_forall in Ha.
    destruct below as [|x below _] using rev_ind; cbn [length].
    + rewrite decide_True by done. split; [done|]. intros (s & Hin & Hs & _). specialize (Ha _ Hin). cbn in Ha. lia.
    + rewrite length_app. cbn [length]. rewrite decide_False by lia.
      replace (length below + 1 - 1)%nat with (length below) by lia. rewrite <- app_assoc. cbn [app].
      rewrite list_lookup_middle by done. destruct x as [s p]. cbn.
      assert (∀ s' p', (s', p') ∈ below → s' <= s) as Hmax.
      { intros s' p' Hin. rewrite <- app_assoc in Hsort. apply (StronglySorted_app_1_elem_of _ _ _ (s', p') (s, p)) in Hsort;
          [done|done|set_solver]. }
      rewrite Forall_app, Forall_singleton in Hb. destruct Hb as [_ Hs]. cbn in Hs. split.
      * intros [= ->]. exists s. split; [set_solver|]. split; [lia|]. intros s' p' Hin Hs'.
        apply elem_of_app in Hin as [Hin|Hin]; [by eapply Hmax|]. apply elem_of_cons in Hin as [Heq|Hin]; [by injection Heq as -> ->|].
        specialize (Ha _ Hin). cbn in Ha. lia.
      * intros (s' & Hin & Hs' & Hbest). specialize (Hbest s p ltac:(set_solver) ltac:(lia)).
        rewrite fmap_app, fmap_app, NoDup_app in Hnd. destruct Hnd as [Hnd _]. rewrite NoDup_app in Hnd. destruct Hnd as (_ & Hnd & _).
        apply elem_of_app in Hin as [Hin|Hin].
        -- pose proof (Hmax _ _ Hin). assert (s' = s) as -> by lia. exfalso. apply (Hnd s); [|set_solver].
           change s with ((s, leader).1). by apply list_elem_of_fmap_2.
        -- apply elem_of_cons in Hin as [Heq|Hin]; [by injection Heq as -> ->|]. specialize (Ha _ Hin). cbn in Ha. lia.
Qed.

(** The leader of a slot is the one first named for the latest slot up to it that names one, and a
    slot before all of them has none. *)
Theorem leader_at_slot_spec (schedule : list (Z * Pubkey)) (slot : Z) (leader : Pubkey) :
  leader_at_slot (schedule_new schedule) slot = Some leader ↔
  ∃ s, first_leader schedule s = Some leader ∧ s <= slot ∧
    ∀ s', s < s' <= slot → first_leader schedule s' = None.
Proof.
  unfold schedule_new, schedule_from_iter. set (l := unique_by_slot [] schedule).
  assert (∀ s p, (s, p) ∈ merge_sort slot_le l ↔ first_leader schedule s = Some p) as Hin.
  { intros s p. rewrite merge_sort_Permutation. unfold l. rewrite unique_by_slot_elem. set_solver. }
  rewrite leader_in_sorted.
  - setoid_rewrite Hin. split; intros (s & Hs & Hle & Hmax); exists s; (split; [done|split; [done|]]).
    + intros s' Hs'. destruct (first_leader schedule s') as [p'|] eqn:Hp; [|done]. specialize (Hmax s' p' Hp). lia.
    + intros s' p' Hp Hs'. destruct (decide (s' <= s)); [done|]. rewrite Hmax in Hp by lia. done.
  - apply StronglySorted_merge_sort; apply _.
  - rewrite merge_sort_Permutation. apply (unique_by_slot_distinct schedule []).
Qed.
End leader_laws.

(** * A concrete queue *)

Module Examples.

#[local] Instance short_clock : SolanaClock := {| MAX_RECENT_BLOCKHASHES := 4; MAX_PROCESSING_AGE := 2 |}.
Definition blockhash (n : Z) : bytes := [z2b n].
Definition filled (hashes : list Z) : BlockhashQueue := foldl (λ q n, register_hash (blockhash n) (10 * n) q) queue_default hashes.

Lemma represents_register queue items hash fee :
  represents queue items → bool_decide (hash ∉ items.*1 ∧ 0 <= max_age queue ∧ last_hash_index queue + 1 < 2 ^ 64) = true →
  represents (register_hash hash fee queue) ((hash, fee) :: take (Z.to_nat (max_age queue)) items).
Proof. intros Hrep Hb. apply bool_decide_eq_true in Hb as (? & ? & ?). by apply register_represents. Qed.

Lemma filled_represents :
  represents (filled [1; 2; 3; 4]) [(blockhash 4, 40); (blockhash 3, 30); (blockhash 2, 20); (blockhash 1, 10)].
Proof.
  assert (represents queue_default []) as H0 by (constructor; [done|done|constructor|cbn; unfold len; cbn; lia]).
  pose proof (represents_register _ _ (blockhash 1) 10 H0 eq_refl) as H1.
  pose proof (represents_register _ _ (blockhash 2) 20 H1 eq_refl) as H2.
  pose proof (represents_register _ _ (blockhash 3) 30 H2 eq_refl) as H3.
  exact (represents_register _ _ (blockhash 4) 40 H3 eq_refl).
Qed.

Lemma queue_refines_list_witness :
  get_hash_age (register_hash (blockhash 5) 50 (filled [1; 2; 3; 4])) (blockhash 2) = Some 3.
Proof.
  destruct (queue_refines_list _ _ (blockhash 5) 50 filled_represents
    ltac:(apply (bool_decide_unpack _); by vm_compute) ltac:(by vm_compute) ltac:(by vm_compute)) as (_ & _ & Hage).
  by rewrite Hage.
Defined.

Lemma rebuilt_queue_ages_witness :
  get_hash_age (queue_from (soon_recent_blockhashes (filled [1; 2; 3; 4]))) (blockhash 3) = Some 1 ∧
  get_hash_age (queue_from (soon_recent_blockhashes (filled [1; 2; 3; 4]))) (blockhash 2) = None.
Proof.
  split; rewrite (rebuilt_queue_ages _ _ _ filled_represents); by vm_compute.
Defined.

(** A hash of age [MAX_PROCESSING_AGE] is valid for that age in the queue, and unknown to the queue
    rebuilt from its sysvar, which keeps one entry too few. *)
Example oldest_valid_hash_lost :
  is_hash_valid_for_age (filled [1; 2; 3; 4]) (blockhash 2) MAX_PROCESSING_AGE = true ∧
  is_hash_valid_for_age (queue_from (soon_recent_blockhashes (filled [1; 2; 3; 4]))) (blockhash 2) MAX_PROCESSING_AGE = false.
Proof. by vm_compute. Qed.

Example leaders_of_slots :
  let schedule := schedule_new [(5, [byte1]); (2, [byte0]); (5, [byte0])] in
  leader_at_slot schedule <$> [1; 2; 4; 5; 9] = [None; Some [byte0]; Some [byte0]; Some [byte1]; Some [byte1]].
Proof. by vm_compute. Qed.
End Examples.
