(* ===== verification/Svm.v ===== *)
(** The virtual machine (src/crates/executor/svm/src/lib.rs, types.rs, utils/): executing a transaction
    around Solana's message processor, with its fee, its rent and its blockhash; executing a block,
    whose fees go to the leader and whose entries give its blockhash; the sysvars kept between blocks.

    Solana's runtime is a parameter, in three classes: [SvmTransactions] (sanitized transactions and
    what is read of them), [SvmProgram] (fees, rent, and the message processor over a transaction
    context) and [SvmSysvars] (the sysvars and their bincode).

    [failed_transaction_changes_nothing]: a transaction answered as failed changes no account, its
    payer's included; [failed_program_commits]: a transaction whose program fails is answered as a
    success, and what it wrote is stored, when its payer can pay the fee a second time.
    [simulation_predicts] and [simulation_changes_nothing]: what a simulation shows and leaves.
    [fee_payer_validated]: what a payer is asked.  [executed_block_hash]: the blockhash of a block and
    what else its execution changes.  [fees_go_to_leader]: the end of a block. *)
From S2P Require Import Prelude Blocks TrieDB ProgramCodec Native Entries Blockhashes SvmAccounts.
#[local] Open Scope Z_scope.

(** * Solana's runtime *)

Class SvmTransactions `{!SolanaSdk} := {
  FeatureSet : Type;
  include_loaded_accounts_data_size_in_fee_calculation : FeatureSet → bool;
  remove_rounding_in_fee_calculation : FeatureSet → bool;
  validate_fee_collector_account : FeatureSet → bool;
  SanitizedTransaction : Type;
  (** [SanitizedTransaction::try_create] with a loader that knows no address lookup table. *)
  try_create : Native.Transaction → outcome TransactionError SanitizedTransaction;
  verify : SanitizedTransaction → outcome TransactionError unit;
  verify_precompiles : SanitizedTransaction → FeatureSet → outcome TransactionError unit;
  signature : SanitizedTransaction → bytes;
  (** Its message. *)
  message_account_keys : SanitizedTransaction → list Pubkey;
  recent_blockhash : SanitizedTransaction → bytes;
  fee_payer : SanitizedTransaction → Pubkey;
  is_invoked : SanitizedTransaction → nat → bool;
  is_instruction_account : SanitizedTransaction → nat → bool;
  is_writable : SanitizedTransaction → nat → bool;
  program_id_indexes : SanitizedTransaction → list Z;
  num_required_signatures_of : SanitizedTransaction → Z;
  construct_instructions_data : SanitizedTransaction → bytes;
  (** Durable nonces: the nonce account of a message, [DurableNonce::from_blockhash],
      [verify_nonce_account] with the lamports per signature and the authority it stores, and
      [get_ix_signers] of the first instruction. *)
  get_durable_nonce : SanitizedTransaction → option Pubkey;
  durable_nonce_from_blockhash : bytes → bytes;
  verify_nonce_account : AccountSharedData → bytes → option (Z * Pubkey);
  nonce_ix_signers : SanitizedTransaction → list Pubkey;
}.

Inductive SystemAccountKind := System | Nonce.

(** An instruction of a trace: its stack height, its program, its data and its accounts. *)
Record InstructionContext := mkInstructionContext {
  ic_stack_height : Z;
  ic_program_index : option Z;
  ic_data : bytes;
  ic_accounts : list (option Z);
}.
Record LogCollector := mkLogCollector { log_messages : list string; bytes_written : Z; bytes_limit : option Z; limit_warning : bool }.

Class SvmProgram `{Sdk : !SolanaSdk} `{Transactions : !SvmTransactions} `{Runtime : !SvmRuntime} := {
  account_default : AccountSharedData;
  sysvar_id : Pubkey;
  instructions_sysvar_id : Pubkey;
  incinerator_id : Pubkey;
  no_sig_tx_payer : Pubkey;
  (** Fees. *)
  ComputeBudget : Type;
  ComputeBudgetLimits : Type;
  process_compute_budget_instructions : SanitizedTransaction → outcome TransactionError ComputeBudgetLimits;
  FeeStructure : Type;
  calculate_fee : FeeStructure → SanitizedTransaction → Z → ComputeBudgetLimits → bool → bool → Z;
  get_system_account_kind : AccountSharedData → option SystemAccountKind;
  nonce_state_size : Z;
  (** [collect_rent_from_account]: the account, and the rent taken from it. *)
  RentCollector : Type;
  collect_rent_from_account : FeatureSet → RentCollector → Pubkey → AccountSharedData → AccountSharedData * Z;
  (** [TransactionContext], and the message processor, which runs the programs of a message on it. *)
  TransactionContext : Type;
  transaction_context_new : list (Pubkey * AccountSharedData) → Rent → ComputeBudget → TransactionContext;
  get_account_at_index : TransactionContext → nat → outcome InstructionError (Pubkey * AccountSharedData);
  execution_record : TransactionContext → list (Pubkey * AccountSharedData);
  return_data : TransactionContext → bytes;
  instruction_trace : TransactionContext → list (option InstructionContext);
  process_message : SanitizedTransaction → list (list Z) → bytes → FeatureSet → SysvarCache → ComputeBudget →
    ProgramCache → TransactionContext → option LogCollector →
    outcome TransactionError unit * TransactionContext * option LogCollector * Z;
}.

Section results.
Context `{Sdk : !SolanaSdk} `{Transactions : !SvmTransactions} `{Runtime : !SvmRuntime} `{Program : !SvmProgram}.

(** * Results *)

(** An inner instruction: the instruction and its stack height. *)
Record InnerInstruction := mkInnerInstruction { ii_program_id_index : Z; ii_data : bytes; ii_accounts : list Z; ii_stack_height : Z }.
Record TransactionMetadata := mkTransactionMetadata {
  tm_signature : bytes;
  tm_logs : list string;
  tm_inner_instructions : list (list InnerInstruction);
  tm_compute_units_consumed : Z;
  tm_return_data : bytes;
  tm_fee : Z;
}.
Record SimulatedTransactionInfo := mkSimulatedTransactionInfo { si_meta : TransactionMetadata; si_post_accounts : list (Pubkey * AccountSharedData) }.
Record FailedTransactionMetadata := mkFailedTransactionMetadata { fm_err : TransactionError; fm_meta : TransactionMetadata }.
(** [TransactionResult]. *)
Definition TransactionResult : Type := outcome FailedTransactionMetadata TransactionMetadata.

Record ExecutionResult := mkExecutionResult {
  xr_post_accounts : list (Pubkey * AccountSharedData);
  xr_tx_result : outcome TransactionError unit;
  xr_signature : bytes;
  xr_signature_count : Z;
  xr_compute_units_consumed : Z;
  xr_inner_instructions : list (list InnerInstruction);
  xr_return_data : bytes;
  xr_fee : Z;
}.
Definition default_signature : bytes := replicate 64 byte0.
(** [ExecutionResult { tx_result, compute_units_consumed, fee, ..Default::default() }]. *)
Definition result_and_compute_units (tx_result : outcome TransactionError unit) (compute_units_consumed fee : Z) : ExecutionResult :=
  mkExecutionResult [] tx_result default_signature 0 compute_units_consumed [] [] fee.
Definition execution_failed (e : TransactionError) : ExecutionResult := result_and_compute_units (Err e) 0 0.

(** [Vec::last_mut] and [push]. *)
Fixpoint push_last {A} (x : A) (l : list (list A)) : list (list A) :=
  match l with [] => [] | [inner] => [inner ++ [x]] | inner :: l => inner :: push_last x l end.
Definition TRANSACTION_LEVEL_STACK_HEIGHT : Z := 1.
Definition inner_instructions_step (outer_instructions : list (list InnerInstruction)) (i : option InstructionContext) :=
  match i with
  | Some context =>
      if decide (ic_stack_height context = TRANSACTION_LEVEL_STACK_HEIGHT) then outer_instructions ++ [[]]
      else push_last (mkInnerInstruction (wrap 8 (default 0 (ic_program_index context))) (ic_data context)
                        ((λ a, wrap 8 (default 0 a)) <$> ic_accounts context) (Z.min (ic_stack_height context) 255))
             outer_instructions
  | None => outer_instructions
  end.
Definition inner_instructions_list_from_instruction_trace (context : TransactionContext) : list (list InnerInstruction) :=
  foldl inner_instructions_step [] (instruction_trace context).

Definition construct_instructions_account (tx : SanitizedTransaction) : AccountSharedData :=
  mkAccount (acc_lamports account_default) (construct_instructions_data tx) sysvar_id
    (acc_executable account_default) (acc_rent_epoch account_default).

(** * The fee payer *)

Definition check_rent_state_with_account (pre_rent_state post_rent_state : RentState) (address : Pubkey) (account_index : Z)
    : outcome TransactionError unit :=
  if bool_decide (address ≠ incinerator_id) && negb (transition_allowed_from post_rent_state pre_rent_state)
  then Err (InsufficientFundsForRent (wrap 8 account_index))
  else Ok tt.

Definition validate_fee_payer (payer_address : Pubkey) (payer_account : AccountSharedData) (payer_index : Z) (rent : Rent) (fee : Z)
    : outcome TransactionError AccountSharedData :=
  if decide (acc_lamports payer_account = 0) then Err AccountNotFound
  else
    system_account_kind ← ok_or (get_system_account_kind payer_account) InvalidAccountForFee;
    let min_balance := match system_account_kind with System => 0 | Nonce => minimum_balance rent nonce_state_size end in
    let payer_lamports := acc_lamports payer_account in
    if decide (min_balance + fee <= payer_lamports) then
      let payer_pre_rent_state := rent_state_from_account payer_account rent in
      match checked_sub_lamports fee payer_account with
      | None => Panic
      | Some payer_account =>
          let payer_post_rent_state := rent_state_from_account payer_account rent in
          _ ← check_rent_state_with_account payer_pre_rent_state payer_post_rent_state payer_address payer_index;
          Ok payer_account
      end
    else Err InsufficientFundsForFee.

(** The accounts a message may write. *)
Definition writable_accounts (tx : SanitizedTransaction) (accounts : list (Pubkey * AccountSharedData)) : list (Pubkey * AccountSharedData) :=
  mjoin (imap (λ idx pair, if is_writable tx idx then [pair] else []) accounts).
Definition execution_result_if_context (tx : SanitizedTransaction) (ctx : TransactionContext)
    (result : outcome TransactionError unit) (compute_units_consumed fee : Z) : ExecutionResult :=
  mkExecutionResult (writable_accounts tx (execution_record ctx)) result (signature tx) (num_required_signatures_of tx)
    compute_units_consumed (inner_instructions_list_from_instruction_trace ctx) (return_data ctx) fee.
End results.

(** * Sysvars *)

(** A sysvar: its address, its size, and its bincode. *)
Class Sysvar (T : Type) := {
  sv_id : Pubkey;
  sv_size_of : Z;
  sv_serialize : T → bytes;
  sv_deserialize : bytes → option T;
}.

Record ClockSysvar := mkClock {
  ck_slot : Z;
  ck_epoch : Z;
  ck_leader_schedule_epoch : Z;
  ck_unix_timestamp : Z;
  ck_epoch_start_timestamp : Z;
}.

Class SvmSysvars `{Sdk : !SolanaSdk} `{Transactions : !SvmTransactions} `{Runtime : !SvmRuntime} `{Program : !SvmProgram} `{ClockC : !SolanaClock} := {
  EpochScheduleT : Type;
  get_epoch : EpochScheduleT → Z → Z;
  get_leader_schedule_epoch : EpochScheduleT → Z → Z;
  (** [f64], and [RentCollector::new]. *)
  F64 : Type;
  rent_collector_new : Z → EpochScheduleT → F64 → Rent → RentCollector;
  (** [create_program_runtime_environment_v1] and [_v2]. *)
  create_program_runtime_environments : FeatureSet → ComputeBudget → option ProgramRuntimeEnvironments;
  FeeRateGovernor : Type;
  lamports_per_signature : FeeRateGovernor → Z;
  new_derived : FeeRateGovernor → Z → FeeRateGovernor;
  SlotHistoryT : Type;
  slot_history_default : SlotHistoryT;
  slot_history_add : Z → SlotHistoryT → SlotHistoryT;
  SlotHashesT : Type;
  slot_hashes_default : SlotHashesT;
  slot_hashes_add : Z → bytes → SlotHashesT → SlotHashesT;
  (** Solana's own recent blockhashes keep [solana_max_entries]. *)
  RecentBlockhashesT : Type;
  solana_max_entries : nat;
  recent_blockhashes_from_iter : list (Z * bytes * Z) → RecentBlockhashesT;
  INITIAL_RENT_EPOCH : Z;
  clock_sysvar :: Sysvar ClockSysvar;
  slot_history_sysvar :: Sysvar SlotHistoryT;
  slot_hashes_sysvar :: Sysvar SlotHashesT;
  recent_blockhashes_sysvar :: Sysvar RecentBlockhashesT;
  (** Soon's own, by their addresses and bincode. *)
  soon_recent_id : Pubkey;
  soon_recent_serialize : SoonRecentBlockhashes → bytes;
  soon_recent_deserialize : bytes → option SoonRecentBlockhashes;
  soon_fee_rate_governor_id : Pubkey;
  soon_fee_rate_governor_serialize : FeeRateGovernor * Z → bytes;
  soon_fee_rate_governor_deserialize : bytes → option (FeeRateGovernor * Z);
}.

Section machine.
Context `{Sdk : !SolanaSdk} `{Sha : !Sha256} `{Transactions : !SvmTransactions} `{Runtime : !SvmRuntime} `{Program : !SvmProgram}.
Context `{ClockC : !SolanaClock} `{Sysvars : !SvmSysvars} {CB : Type} `{Callback : !AccountsCallback CB}.

(** [SoonFeeRateGovernor]: the governor and the signature count. *)
Record SoonFeeRateGovernor := mkSoonFeeRateGovernor { sf_fee_rate_governor : FeeRateGovernor; sf_signature_count : Z }.
Definition soon_new_derived (self : SoonFeeRateGovernor) : FeeRateGovernor :=
  new_derived (sf_fee_rate_governor self) (sf_signature_count self).
#[local] Instance soon_recent_sysvar : Sysvar SoonRecentBlockhashes :=
  {| sv_id := soon_recent_id; sv_size_of := soon_recent_size_of;
     sv_serialize := soon_recent_serialize; sv_deserialize := soon_recent_deserialize |}.
#[local] Instance soon_fee_rate_governor_sysvar : Sysvar SoonFeeRateGovernor :=
  {| sv_id := soon_fee_rate_governor_id; sv_size_of := 49;
     sv_serialize s := soon_fee_rate_governor_serialize (sf_fee_rate_governor s, sf_signature_count s);
     sv_deserialize data := (λ '(g, n), mkSoonFeeRateGovernor g n) <$> soon_fee_rate_governor_deserialize data |}.

(** * The machine *)

(** What the builder methods set, and nothing changes. *)
Record Configuration := mkConfiguration {
  sig_verify : bool;
  blockhash_verify : bool;
  compute_budget : ComputeBudget;
  feature_set : FeatureSet;
  slots_per_year : F64;
  ticks_per_slot : Z;
  hashes_per_tick : Z;
  genesis_hash : bytes;
  fee_structure : FeeStructure;
  epoch_schedule : EpochScheduleT;
  leader_schedule : LeaderSchedule;
  rent : Rent;
  clock_timestamp : Z;
  parent_slot : Z;
  parent_bank_hash : bytes;
}.
Record LiteSVM := mkLiteSVM {
  accounts : AccountsDb CB;
  log_collector : option LogCollector;
  config : Configuration;
  slot : Z;
  epoch : Z;
  signature_count : Z;
  fee_rate_governor : FeeRateGovernor;
  parent_blockhash : option bytes;
  blockhash : option bytes;
  blockhash_queue : BlockhashQueue;
  rent_collector : RentCollector;
}.
Definition set_accounts (db : AccountsDb CB) (self : LiteSVM) : LiteSVM :=
  mkLiteSVM db (log_collector self) (config self) (slot self) (epoch self) (signature_count self) (fee_rate_governor self)
    (parent_blockhash self) (blockhash self) (blockhash_queue self) (rent_collector self).
Definition set_log_collector (l : option LogCollector) (self : LiteSVM) : LiteSVM :=
  mkLiteSVM (accounts self) l (config self) (slot self) (epoch self) (signature_count self) (fee_rate_governor self)
    (parent_blockhash self) (blockhash self) (blockhash_queue self) (rent_collector self).
Definition set_slots (slot epoch : Z) (self : LiteSVM) : LiteSVM :=
  mkLiteSVM (accounts self) (log_collector self) (config self) slot epoch (signature_count self) (fee_rate_governor self)
    (parent_blockhash self) (blockhash self) (blockhash_queue self) (rent_collector self).
Definition set_signature_count (n : Z) (self : LiteSVM) : LiteSVM :=
  mkLiteSVM (accounts self) (log_collector self) (config self) (slot self) (epoch self) n (fee_rate_governor self)
    (parent_blockhash self) (blockhash self) (blockhash_queue self) (rent_collector self).
Definition set_fee_rate_governor (g : FeeRateGovernor) (self : LiteSVM) : LiteSVM :=
  mkLiteSVM (accounts self) (log_collector self) (config self) (slot self) (epoch self) (signature_count self) g
    (parent_blockhash self) (blockhash self) (blockhash_queue self) (rent_collector self).
Definition set_blockhash (h : option bytes) (self : LiteSVM) : LiteSVM :=
  mkLiteSVM (accounts self) (log_collector self) (config self) (slot self) (epoch self) (signature_count self)
    (fee_rate_governor self) (parent_blockhash self) h (blockhash_queue self) (rent_collector self).
Definition set_queue (q : BlockhashQueue) (self : LiteSVM) : LiteSVM :=
  mkLiteSVM (accounts self) (log_collector self) (config self) (slot self) (epoch self) (signature_count self)
    (fee_rate_governor self) (parent_blockhash self) (blockhash self) q (rent_collector self).
Definition set_parent_blockhash (h : option bytes) (self : LiteSVM) : LiteSVM :=
  mkLiteSVM (accounts self) (log_collector self) (config self) (slot self) (epoch self) (signature_count self)
    (fee_rate_governor self) h (blockhash self) (blockhash_queue self) (rent_collector self).
Definition set_rent_collector (c : RentCollector) (self : LiteSVM) : LiteSVM :=
  mkLiteSVM (accounts self) (log_collector self) (config self) (slot self) (epoch self) (signature_count self)
    (fee_rate_governor self) (parent_blockhash self) (blockhash self) (blockhash_queue self) c.

Abbreviation M := (ST LiteSVM).
Definition on_accounts {E A} (m : ST (AccountsDb CB) E A) : M E A := zoom accounts set_accounts m.

Definition get_lamports_per_signature (self : LiteSVM) : Z := lamports_per_signature (fee_rate_governor self).

(** ** Sysvars *)

Definition get_sysvar {T} `{!Sysvar T} : M LiteSVMError T :=
  account ← on_accounts (get_account (sv_id (T:=T)));
  account ← lift (ok_or account (MissingAccount (sv_id (T:=T))));
  lift (ok_or (sv_deserialize (acc_data account)) Bincode).
(** [unwrap_or_default]. *)
Definition get_sysvar_or {T} `{!Sysvar T} (d : T) : M LiteSVMError T :=
  catch get_sysvar (λ r, match r with Ok sysvar => mret sysvar | _ => mret d end).

(** [to_account] writes the bincode to the front of the data, and panics when it does not fit. *)
Definition update_sysvar {T} `{!Sysvar T} (sysvar : T) : M LiteSVMError unit :=
  self ← gets id;
  let size := sv_size_of (T:=T) in
  let data := sv_serialize sysvar in
  if decide (len data <= size) then
    let account := mkAccount (minimum_balance (rent (config self)) size)
                     (data ++ replicate (Z.to_nat (size - len data)) byte0) sysvar_id false INITIAL_RENT_EPOCH in
    on_accounts (add_diff_account false (sv_id (T:=T)) account)
  else panic.

(** ** Processing a transaction *)

(** What loading the accounts has found of the payer. *)
Record Loading := mkLoading { validated_fee_payer : bool; payer_key : option Pubkey; rent_debit : Z }.

Section process.
Context (self : LiteSVM) (tx : SanitizedTransaction) (fee : Z).

Definition load_key (i : nat) (key : Pubkey) : ST (AccountsDb CB * Loading) TransactionError (Pubkey * AccountSharedData) :=
  if decide (key = instructions_sysvar_id) then mret (key, construct_instructions_account tx)
  else
    account ← (λ '(db, ld), let '(r, db) := load_account key db in (map_err (λ _, AccountNotFound) r, (db, ld)));
    let account := default account_default account in
    ld ← gets snd;
    if negb (validated_fee_payer ld) && (negb (is_invoked tx i) || is_instruction_account tx i) then
      let '(account, rent_amount) := collect_rent_from_account (feature_set (config self)) (rent_collector self) key account in
      modify (prod_map id (λ ld, mkLoading (validated_fee_payer ld) (payer_key ld) rent_amount));;
      account ← lift (validate_fee_payer key account (Z.of_nat i) (rent (config self)) fee);
      modify (prod_map id (λ ld, mkLoading true (Some key) (rent_debit ld)));;
      mret (key, account)
    else if is_writable tx i then
      let '(account, rent_amount) := collect_rent_from_account (feature_set (config self)) (rent_collector self) key account in
      modify (prod_map id (λ ld, mkLoading (validated_fee_payer ld) (payer_key ld) rent_amount));;
      mret (key, account)
    else mret (key, account).

Fixpoint load_keys (i : nat) (keys : list Pubkey) : ST (AccountsDb CB * Loading) TransactionError (list (Pubkey * AccountSharedData)) :=
  match keys with
  | [] => mret []
  | key :: keys =>
      pair ← load_key i key;
      pairs ← load_keys (S i) keys;
      mret (pair :: pairs)
  end.

(** The program of an instruction, and its owner, which joins the accounts when it is not there. *)
Definition program_indices_of (builtins_start_index : nat) (program_index : Z)
    : ST (AccountsDb CB * list (Pubkey * AccountSharedData)) TransactionError (list Z) :=
  loaded ← gets snd;
  '(program_id, program_account) ← lift (index loaded program_index);
  if decide (program_id = native_loader_id) then mret []
  else if negb (acc_executable program_account) then fail InvalidProgramForExecution
  else
    let owner_id := acc_owner program_account in
    if decide (owner_id = native_loader_id) then mret [program_index]
    else if decide (owner_id ∈ (drop builtins_start_index loaded).*1) then mret [program_index]
    else
      owner_account ← (λ '(db, l), let '(r, db) := load_account owner_id db in (map_err (λ _, AccountNotFound) r, (db, l)));
      owner_account ← lift (ok_or owner_account AccountNotFound);
      if decide (acc_owner owner_account ≠ native_loader_id) then fail InvalidProgramForExecution
      else if negb (acc_executable owner_account) then fail InvalidProgramForExecution
      else
        modify (prod_map id (λ l, l ++ [(owner_id, owner_account)]));;
        mret [program_index].

Fixpoint program_indices (builtins_start_index : nat) (indexes : list Z)
    : ST (AccountsDb CB * list (Pubkey * AccountSharedData)) TransactionError (list (list Z)) :=
  match indexes with
  | [] => mret []
  | i :: indexes =>
      p ← program_indices_of builtins_start_index i;
      ps ← program_indices builtins_start_index indexes;
      mret (p :: ps)
  end.
End process.

(** The six values [process_transaction] returns. *)
Record Processed := mkProcessed {
  pr_result : outcome TransactionError unit;
  pr_compute_units_consumed : Z;
  pr_context : option TransactionContext;
  pr_fee : Z;
  pr_payer_key : option Pubkey;
  pr_fee_payer_rent_debit : Z;
}.

(** Every writable account that holds data keeps an allowed rent state. *)
Definition check_account_rent (tx : SanitizedTransaction) (context : TransactionContext) (index : nat) : M TransactionError unit :=
  if is_writable tx index then
    '(pubkey, account) ← lift (map_err (InstructionErr (wrap 8 (Z.of_nat index))) (get_account_at_index context index));
    match acc_data account with
    | [] => mret tt
    | _ =>
        self ← gets id;
        pre ← on_accounts (get_account pubkey);
        let post_rent_state := rent_state_from_account account (rent (config self)) in
        let pre_rent_state := rent_state_from_account (default account_default pre) (rent (config self)) in
        if transition_allowed_from post_rent_state pre_rent_state then mret tt
        else fail (InsufficientFundsForRent (wrap 8 (Z.of_nat index)))
    end
  else mret tt.
Definition check_accounts_rent (tx : SanitizedTransaction) (context : TransactionContext) : M TransactionError unit :=
  for_each (check_account_rent tx context) (seq 0 (length (message_account_keys tx))).

Definition process_transaction (tx : SanitizedTransaction) (lamports_per_signature : Z) (limits : ComputeBudgetLimits)
    : M Empty_set Processed := λ self,
  let fee := calculate_fee (fee_structure (config self)) tx lamports_per_signature limits
               (include_loaded_accounts_data_size_in_fee_calculation (feature_set (config self)))
               (remove_rounding_in_fee_calculation (feature_set (config self))) in
  let '(maybe_accounts, (db, ld)) := load_keys self tx fee 0 (message_account_keys tx) (accounts self, mkLoading false None 0) in
  let self := set_accounts db self in
  let failed e := mkProcessed (Err e) 0 None fee (payer_key ld) (rent_debit ld) in
  match maybe_accounts with
  | Panic => (Panic, self)
  | Err e => (Ok (failed e), self)
  | Ok loaded =>
      if negb (validated_fee_payer ld) then (Ok (failed AccountNotFound), self)
      else
        let '(maybe_program_indices, (db, loaded)) :=
          program_indices (length loaded) (program_id_indexes tx) (accounts self, loaded) in
        let self := set_accounts db self in
        match maybe_program_indices with
        | Panic => (Panic, self)
        | Err e => (Ok (failed e), self)
        | Ok program_indices =>
            let context := transaction_context_new loaded (rent (config self)) (compute_budget (config self)) in
            let '(tx_result, context, log, accumulated_consume_units) :=
              process_message tx program_indices (recent_blockhash tx) (feature_set (config self))
                (db_sysvar_cache (accounts self)) (compute_budget (config self)) (db_programs_cache (accounts self))
                context (log_collector self) in
            let self := set_log_collector log self in
            let '(rent_result, self) := check_accounts_rent tx context self in
            match tx_result, rent_result with
            | Panic, _ | _, Panic => (Panic, self)
            | _, Err err => (Ok (mkProcessed (Err err) accumulated_consume_units (Some context) fee (payer_key ld) (rent_debit ld)), self)
            | _, Ok _ => (Ok (mkProcessed tx_result accumulated_consume_units (Some context) fee (payer_key ld) (rent_debit ld)), self)
            end
        end
  end.

(** ** Checking a transaction *)

(** The nonce's data: its lamports per signature. *)
Definition check_and_load_message_nonce_account (tx : SanitizedTransaction) (next_durable_nonce : bytes) : M TransactionError (option Z) :=
  if decide (recent_blockhash tx = next_durable_nonce) then mret None
  else
    match get_durable_nonce tx with
    | None => mret None
    | Some nonce_address =>
        nonce_account ← on_accounts (get_account nonce_address);
        mret (nonce_account ← nonce_account;
              '(lamports, authority) ← verify_nonce_account nonce_account (recent_blockhash tx);
              if decide (authority ∈ nonce_ix_signers tx) then Some lamports else None)
    end.

(** [CheckedTransactionDetails]: the lamports per signature. *)
Definition check_transaction_age (tx : SanitizedTransaction) (next_durable_nonce : bytes) : M TransactionError Z :=
  queue ← gets blockhash_queue;
  match get_hash_info_if_valid queue (recent_blockhash tx) MAX_PROCESSING_AGE with
  | Some hash_info => mret (hi_fee_calculator hash_info)
  | None =>
      nonce ← check_and_load_message_nonce_account tx next_durable_nonce;
      match nonce with
      | Some lamports => mret lamports
      | None => if decide (fee_payer tx = no_sig_tx_payer) then mret 0 else fail BlockhashNotFound
      end
  end.
Definition maybe_blockhash_check (tx : SanitizedTransaction) : M TransactionError Z :=
  self ← gets id;
  if blockhash_verify (config self) then
    last_blockhash ← lift (last_hash (blockhash_queue self));
    check_transaction_age tx (durable_nonce_from_blockhash last_blockhash)
  else mret (get_lamports_per_signature self).

(** [map_err(|e| ExecutionResult { tx_result: Err(e), ..Default::default() })]. *)
Definition failing {A} (m : M TransactionError A) : M ExecutionResult A := λ s,
  let '(r, s) := m s in (map_err execution_failed r, s).

Definition check_and_process_transaction (tx : SanitizedTransaction) : M ExecutionResult Processed :=
  tx_details ← failing (maybe_blockhash_check tx);
  limits ← failing (lift (process_compute_budget_instructions tx));
  infallible (process_transaction tx tx_details limits).

(** A transaction that failed pays its fee. *)
Definition check_tx_result (result : outcome TransactionError unit) (payer_key : option Pubkey) (fee : Z)
    : M Empty_set (outcome TransactionError unit) := λ self,
  if is_ok result then (Ok result, self)
  else match payer_key with
       | Some payer =>
           let '(r, self) := on_accounts (burn false payer fee) self in
           match r with Panic => (Panic, self) | _ => (Ok (map_err (λ _, InsufficientFundsForFee) r), self) end
       | None => (Ok result, self)
       end.

(** [match .. { Ok(value) => value, Err(value) => return value }]. *)
Definition or_return {A} (m : M ExecutionResult A) (k : A → M Empty_set ExecutionResult) : M Empty_set ExecutionResult := λ s,
  match m s with
  | (Ok a, s) => k a s
  | (Err value, s) => (Ok value, s)
  | (Panic, s) => (Panic, s)
  end.

Definition execute_sanitized_transaction (tx : SanitizedTransaction) : M Empty_set ExecutionResult :=
  or_return (check_and_process_transaction tx) (λ p,
    match pr_context p with
    | Some ctx =>
        tx_result ← check_tx_result (pr_result p) (pr_payer_key p) (pr_fee p);
        mret (execution_result_if_context tx ctx tx_result (pr_compute_units_consumed p) (pr_fee p))
    | None => mret (result_and_compute_units (pr_result p) (pr_compute_units_consumed p) (pr_fee p))
    end).
Definition execute_sanitized_transaction_readonly (tx : SanitizedTransaction) : M Empty_set ExecutionResult :=
  or_return (check_and_process_transaction tx) (λ p,
    match pr_context p with
    | Some ctx => mret (execution_result_if_context tx ctx (pr_result p) (pr_compute_units_consumed p) (pr_fee p))
    | None => mret (result_and_compute_units (pr_result p) (pr_compute_units_consumed p) (pr_fee p))
    end).

Definition sanitize_transaction_no_verify_inner (tx : Native.Transaction) : M TransactionError SanitizedTransaction := lift (try_create tx).
Definition sanitize_transaction_inner (tx : Native.Transaction) : M TransactionError SanitizedTransaction :=
  self ← gets id;
  tx ← sanitize_transaction_no_verify_inner tx;
  lift (verify tx);;
  lift (verify_precompiles tx (feature_set (config self)));;
  mret tx.
Definition sanitize_transaction_no_verify (tx : Native.Transaction) : M ExecutionResult SanitizedTransaction := failing (sanitize_transaction_no_verify_inner tx).
Definition sanitize_transaction (tx : Native.Transaction) : M ExecutionResult SanitizedTransaction := failing (sanitize_transaction_inner tx).

Definition execute_transaction_no_verify (tx : Native.Transaction) : M Empty_set ExecutionResult :=
  or_return (sanitize_transaction_no_verify tx) execute_sanitized_transaction.
Definition execute_transaction (tx : Native.Transaction) : M Empty_set ExecutionResult :=
  or_return (sanitize_transaction tx) execute_sanitized_transaction.
Definition execute_transaction_readonly (tx : Native.Transaction) : M Empty_set ExecutionResult :=
  or_return (sanitize_transaction tx) execute_sanitized_transaction_readonly.
Definition execute_transaction_no_verify_readonly (tx : Native.Transaction) : M Empty_set ExecutionResult :=
  or_return (sanitize_transaction_no_verify tx) execute_sanitized_transaction_readonly.

(** ** Submitting a transaction *)

(** The messages are taken from the collector. *)
Definition take_logs : M Empty_set (list string) := λ self,
  match log_collector self with
  | Some old => (Ok (log_messages old), set_log_collector (Some (mkLogCollector [] (bytes_written old) (bytes_limit old) (limit_warning old))) self)
  | None => (Ok [], self)
  end.
Definition metadata (r : ExecutionResult) (logs : list string) : TransactionMetadata :=
  mkTransactionMetadata (xr_signature r) logs (xr_inner_instructions r) (xr_compute_units_consumed r) (xr_return_data r) (xr_fee r).

(** Storing a written account, once its rent is taken. *)
Definition store_account (meta : TransactionMetadata) (pair : Pubkey * AccountSharedData) : M FailedTransactionMetadata unit := λ self,
  let '(account, _) := collect_rent_from_account (feature_set (config self)) (rent_collector self) pair.1 pair.2 in
  let '(r, self) := on_accounts (add_diff_account false pair.1 account) self in
  (map_err (λ _, mkFailedTransactionMetadata InvalidRentPayingAccount meta) r, self).

Definition send_transaction (tx : Native.Transaction) : M FailedTransactionMetadata TransactionMetadata :=
  self ← gets id;
  r ← infallible (if sig_verify (config self) then execute_transaction tx else execute_transaction_no_verify tx);
  modify (λ self, set_signature_count (u64_add (signature_count self) (xr_signature_count r)) self);;
  logs ← infallible take_logs;
  let meta := metadata r logs in
  match xr_tx_result r with
  | Err tx_err => fail (mkFailedTransactionMetadata tx_err meta)
  | Panic => panic
  | Ok _ => for_each (store_account meta) (xr_post_accounts r);; mret meta
  end.

Definition simulate_transaction (tx : Native.Transaction) : M FailedTransactionMetadata SimulatedTransactionInfo :=
  self ← gets id;
  r ← infallible (if sig_verify (config self) then execute_transaction_readonly tx else execute_transaction_no_verify_readonly tx);
  logs ← infallible take_logs;
  let meta := metadata r logs in
  match xr_tx_result r with
  | Err tx_err => fail (mkFailedTransactionMetadata tx_err meta)
  | Panic => panic
  | Ok _ => mret (mkSimulatedTransactionInfo meta (xr_post_accounts r))
  end.

(** ** Entries *)

Definition sure {E A} (m : outcome Empty_set A) : M E A := infallible (lift m).

Definition transactions_to_entry (transactions : list Native.Transaction) (start_hash : option bytes) : M LiteSVMError Entry :=
  self ← gets id;
  start_hash ← (match start_hash with Some start_hash => mret start_hash | None => lift (last_hash (blockhash_queue self)) end);
  sure (new_entry start_hash (hashes_per_tick (config self)) transactions).

(** Empty batches, which would be ticks, are ignored. *)
Fixpoint batches_to_data_entries (batch_txs : list (list Native.Transaction)) (start_hash : option bytes) (data_entries : list Entry)
    : M LiteSVMError (list Entry) :=
  match batch_txs with
  | [] => mret data_entries
  | [] :: batch_txs => batches_to_data_entries batch_txs start_hash data_entries
  | executed_txs :: batch_txs =>
      entry ← transactions_to_entry executed_txs start_hash;
      batches_to_data_entries batch_txs (Some (e_hash entry)) (data_entries ++ [entry])
  end.

(** [for _ in 0..tick_count]. *)
Fixpoint push_ticks (tick_count : nat) (start_hash : bytes) (data_entries : list Entry) : M LiteSVMError (list Entry) :=
  match tick_count with
  | O => mret data_entries
  | S tick_count =>
      self ← gets id;
      entry ← sure (new_entry start_hash (hashes_per_tick (config self)) []);
      push_ticks tick_count (e_hash entry) (data_entries ++ [entry])
  end.
Definition complete_entries (data_entries : list Entry) : M LiteSVMError (list Entry) :=
  self ← gets id;
  last_entry ← lift (ok_or (last data_entries) NoEntries);
  let tick_count := Z.max 0 (ticks_per_slot (config self) - len (filter (λ e, is_tick e = true) data_entries)) in
  push_ticks (Z.to_nat tick_count) (e_hash last_entry) data_entries.

Definition update_recent_blockhashes_locked : M LiteSVMError unit :=
  self ← gets id;
  let sorted := into_iter_sorted (get_recent_blockhashes (blockhash_queue self)) in
  update_sysvar (recent_blockhashes_from_iter (take solana_max_entries sorted));;
  update_sysvar (soon_recent_from_iter (take MAX_ENTRIES sorted)).

Definition register_recent_blockhash (hash : bytes) : M LiteSVMError unit :=
  modify (λ self, set_queue (register_hash hash (get_lamports_per_signature self) (blockhash_queue self)) self);;
  update_recent_blockhashes_locked.

(** The hash of the last tick of the slot is the blockhash. *)
Fixpoint register_ticks (entries : list Entry) (count : Z) : M LiteSVMError unit :=
  match entries with
  | [] => mret tt
  | entry :: entries =>
      self ← gets id;
      if is_tick entry then
        let count := u64_add count 1 in
        if decide (count = ticks_per_slot (config self)) then
          modify (set_blockhash (Some (e_hash entry)));;
          register_recent_blockhash (e_hash entry)
        else register_ticks entries count
      else register_ticks entries count
  end.
Definition process_entries_and_register_blockhash (batch_txs : list (list Native.Transaction)) : M LiteSVMError unit :=
  data_entries ← batches_to_data_entries batch_txs None [];
  entries ← complete_entries data_entries;
  register_ticks entries 0.

(** ** Blocks *)

Definition update_slot_history : M LiteSVMError unit :=
  self ← gets id;
  slot_history ← get_sysvar_or slot_history_default;
  update_sysvar (slot_history_add (slot self) slot_history).
Definition update_slot_hashes : M LiteSVMError unit :=
  self ← gets id;
  slot_hashes ← get_sysvar_or slot_hashes_default;
  update_sysvar (slot_hashes_add (parent_slot (config self)) (parent_bank_hash (config self)) slot_hashes).
(** A change of epoch is not implemented. *)
Definition update_clock : M LiteSVMError unit :=
  self ← gets id;
  epoch_start_timestamp ←
    (if decide (get_epoch (epoch_schedule (config self)) (parent_slot (config self)) ≠ epoch self) then panic
     else clock ← get_sysvar; mret (ck_epoch_start_timestamp clock));
  update_sysvar (mkClock (slot self) (epoch self) (get_leader_schedule_epoch (epoch_schedule (config self)) (slot self))
                   (clock_timestamp (config self)) epoch_start_timestamp).
Definition update_fee_rate_governor : M LiteSVMError unit :=
  self ← gets id;
  update_sysvar (mkSoonFeeRateGovernor (fee_rate_governor self) (signature_count self)).

Definition result_fee (r : TransactionResult) : Z :=
  match r with Ok meta => tm_fee meta | Err err => tm_fee (fm_meta err) | Panic => 0 end.
Definition block_fees (results : list TransactionResult) : Z := foldl (λ fees r, u64_add fees (result_fee r)) 0 results.
Definition seal_block (results : list TransactionResult) : M LiteSVMError unit :=
  self ← gets id;
  let fees := block_fees results in
  (match leader_at_slot (leader_schedule (config self)) (slot self) with
   | Some fee_collector =>
       if decide (fees > 0) then on_accounts (mint (validate_fee_collector_account (feature_set (config self))) fee_collector fees)
       else mret tt
   | None => mret tt
   end);;
  update_slot_history;;
  update_fee_rate_governor.

(** The results of the transactions, failed ones included. *)
Fixpoint execute_batch_transactions (batch_txs : list Native.Transaction) : M LiteSVMError (list TransactionResult) :=
  match batch_txs with
  | [] => mret []
  | tx :: batch_txs =>
      r ← (λ self, let '(r, self) := send_transaction tx self in (match r with Panic => Panic | _ => Ok r end, self));
      rs ← execute_batch_transactions batch_txs;
      mret (r :: rs)
  end.
Fixpoint execute_batches (batches : list (list Native.Transaction)) (results : list TransactionResult) : M LiteSVMError (list TransactionResult) :=
  match batches with
  | [] => mret results
  | tx_batch :: batches =>
      res ← execute_batch_transactions tx_batch;
      execute_batches batches (results ++ res)
  end.
Definition execute_block (block : Block.RawBlock) : M LiteSVMError (list TransactionResult) :=
  let batch_txs := Block.raw_batches block in
  results ← execute_batches batch_txs [];
  seal_block results;;
  process_entries_and_register_blockhash batch_txs;;
  mret results.

(** ** Building a machine *)

Definition set_config (f : Configuration → Configuration) (self : LiteSVM) : LiteSVM :=
  mkLiteSVM (accounts self) (log_collector self) (f (config self)) (slot self) (epoch self) (signature_count self)
    (fee_rate_governor self) (parent_blockhash self) (blockhash self) (blockhash_queue self) (rent_collector self).
Definition with_parent_slot (x : Z) : LiteSVM → LiteSVM := set_config (λ c,
  mkConfiguration (sig_verify c) (blockhash_verify c) (compute_budget c) (feature_set c) (slots_per_year c) (ticks_per_slot c) (hashes_per_tick c) (genesis_hash c) (fee_structure c) (epoch_schedule c) (leader_schedule c) (rent c) (clock_timestamp c) x (parent_bank_hash c)).
Definition with_parent_bank_hash (x : bytes) : LiteSVM → LiteSVM := set_config (λ c,
  mkConfiguration (sig_verify c) (blockhash_verify c) (compute_budget c) (feature_set c) (slots_per_year c) (ticks_per_slot c) (hashes_per_tick c) (genesis_hash c) (fee_structure c) (epoch_schedule c) (leader_schedule c) (rent c) (clock_timestamp c) (parent_slot c) x).
Definition with_clock_timestamp (x : Z) : LiteSVM → LiteSVM := set_config (λ c,
  mkConfiguration (sig_verify c) (blockhash_verify c) (compute_budget c) (feature_set c) (slots_per_year c) (ticks_per_slot c) (hashes_per_tick c) (genesis_hash c) (fee_structure c) (epoch_schedule c) (leader_schedule c) (rent c) x (parent_slot c) (parent_bank_hash c)).
Definition with_compute_budget (x : ComputeBudget) : LiteSVM → LiteSVM := set_config (λ c,
  mkConfiguration (sig_verify c) (blockhash_verify c) x (feature_set c) (slots_per_year c) (ticks_per_slot c) (hashes_per_tick c) (genesis_hash c) (fee_structure c) (epoch_schedule c) (leader_schedule c) (rent c) (clock_timestamp c) (parent_slot c) (parent_bank_hash c)).
Definition with_sig_verify (x : bool) : LiteSVM → LiteSVM := set_config (λ c,
  mkConfiguration x (blockhash_verify c) (compute_budget c) (feature_set c) (slots_per_year c) (ticks_per_slot c) (hashes_per_tick c) (genesis_hash c) (fee_structure c) (epoch_schedule c) (leader_schedule c) (rent c) (clock_timestamp c) (parent_slot c) (parent_bank_hash c)).
Definition with_blockhash_verify (x : bool) : LiteSVM → LiteSVM := set_config (λ c,
  mkConfiguration (sig_verify c) x (compute_budget c) (feature_set c) (slots_per_year c) (ticks_per_slot c) (hashes_per_tick c) (genesis_hash c) (fee_structure c) (epoch_schedule c) (leader_schedule c) (rent c) (clock_timestamp c) (parent_slot c) (parent_bank_hash c)).
Definition with_genesis_hash (x : bytes) : LiteSVM → LiteSVM := set_config (λ c,
  mkConfiguration (sig_verify c) (blockhash_verify c) (compute_budget c) (feature_set c) (slots_per_year c) (ticks_per_slot c) (hashes_per_tick c) x (fee_structure c) (epoch_schedule c) (leader_schedule c) (rent c) (clock_timestamp c) (parent_slot c) (parent_bank_hash c)).
Definition with_leader_schedule (x : LeaderSchedule) : LiteSVM → LiteSVM := set_config (λ c,
  mkConfiguration (sig_verify c) (blockhash_verify c) (compute_budget c) (feature_set c) (slots_per_year c) (ticks_per_slot c) (hashes_per_tick c) (genesis_hash c) (fee_structure c) (epoch_schedule c) x (rent c) (clock_timestamp c) (parent_slot c) (parent_bank_hash c)).
Definition with_feature_set (x : FeatureSet) : LiteSVM → LiteSVM := set_config (λ c,
  mkConfiguration (sig_verify c) (blockhash_verify c) (compute_budget c) x (slots_per_year c) (ticks_per_slot c) (hashes_per_tick c) (genesis_hash c) (fee_structure c) (epoch_schedule c) (leader_schedule c) (rent c) (clock_timestamp c) (parent_slot c) (parent_bank_hash c)).
Definition with_fee_structure (x : FeeStructure) : LiteSVM → LiteSVM := set_config (λ c,
  mkConfiguration (sig_verify c) (blockhash_verify c) (compute_budget c) (feature_set c) (slots_per_year c) (ticks_per_slot c) (hashes_per_tick c) (genesis_hash c) x (epoch_schedule c) (leader_schedule c) (rent c) (clock_timestamp c) (parent_slot c) (parent_bank_hash c)).
Definition with_epoch_schedule (x : EpochScheduleT) : LiteSVM → LiteSVM := set_config (λ c,
  mkConfiguration (sig_verify c) (blockhash_verify c) (compute_budget c) (feature_set c) (slots_per_year c) (ticks_per_slot c) (hashes_per_tick c) (genesis_hash c) (fee_structure c) x (leader_schedule c) (rent c) (clock_timestamp c) (parent_slot c) (parent_bank_hash c)).
Definition with_rent (x : Rent) : LiteSVM → LiteSVM := set_config (λ c,
  mkConfiguration (sig_verify c) (blockhash_verify c) (compute_budget c) (feature_set c) (slots_per_year c) (ticks_per_slot c) (hashes_per_tick c) (genesis_hash c) (fee_structure c) (epoch_schedule c) (leader_schedule c) x (clock_timestamp c) (parent_slot c) (parent_bank_hash c)).
Definition with_log_collector (log : option LogCollector) : LiteSVM → LiteSVM := set_log_collector log.
Definition with_accounts_callback (callback : CB) (self : LiteSVM) : LiteSVM := set_accounts (set_callback callback (accounts self)) self.
Definition with_init_account (init_accounts : list (Pubkey * AccountSharedData)) (self : LiteSVM) : LiteSVM :=
  set_accounts (set_init_accounts init_accounts (accounts self)) self.

(** ** Starting on a parent *)

Definition finish_init : M LiteSVMError unit :=
  modify (λ self,
    let slot := u64_add (parent_slot (config self)) 1 in
    set_slots slot (get_epoch (epoch_schedule (config self)) slot) self);;
  modify (λ self, set_accounts (SvmAccounts.set_epoch (epoch self) (SvmAccounts.set_slot (slot self) (accounts self))) self);;
  governor ← get_sysvar;
  modify (set_fee_rate_governor (soon_new_derived governor));;
  self ← gets id;
  environments ← lift (expect (create_program_runtime_environments (feature_set (config self)) (compute_budget (config self))));
  modify (λ self, set_accounts (set_environments environments (accounts self)) self);;
  update_slot_hashes;;
  update_clock;;
  update_slot_history;;
  recent_blockhashes ← get_sysvar_or (mkSoonRecentBlockhashes []);
  self ← gets id;
  let recent_blockhashes :=
    if decide (recent_entries recent_blockhashes = [] ∧ parent_slot (config self) = 0)
    then mkSoonRecentBlockhashes [(genesis_hash (config self), 0)]
    else recent_blockhashes in
  modify (set_queue (queue_from recent_blockhashes));;
  self ← gets id;
  last_hash ← lift (last_hash (blockhash_queue self));
  modify (set_parent_blockhash (Some last_hash));;
  on_accounts fill_sysvar_cache;;
  modify (λ self, set_rent_collector
    (rent_collector_new (epoch self) (epoch_schedule (config self)) (slots_per_year (config self)) (rent (config self))) self).

(** What a new machine answers. *)
Definition get_blockhash (self : LiteSVM) : outcome LiteSVMError bytes := ok_or (blockhash self) NoBlockhash.
Definition get_parent_blockhash (self : LiteSVM) : outcome LiteSVMError bytes := ok_or (parent_blockhash self) NoBlockhash.
Definition get_balance (pubkey : Pubkey) : M LiteSVMError (option Z) :=
  account ← on_accounts (get_account pubkey);
  mret (acc_lamports <$> account).
End machine.

(** * What a transaction changes *)

Section effects.
Context `{Sdk : !SolanaSdk} `{Sha : !Sha256} `{Transactions : !SvmTransactions} `{Runtime : !SvmRuntime} `{Program : !SvmProgram}.
Context `{ClockC : !SolanaClock} `{Sysvars : !SvmSysvars} {CB : Type} `{Callback : !AccountsCallback CB} `{Laws : !CallbackLaws CB}.
Implicit Types self : LiteSVM (CB:=CB).
#[local] Hint Resolve get_account_same load_account_same : keeps.

(** Everything but the accounts, the logs and the signature count. *)
Definition same_machine self self' : Prop :=
  config self' = config self ∧ slot self' = slot self ∧ epoch self' = epoch self ∧
  fee_rate_governor self' = fee_rate_governor self ∧ parent_blockhash self' = parent_blockhash self ∧
  blockhash self' = blockhash self ∧ blockhash_queue self' = blockhash_queue self ∧ rent_collector self' = rent_collector self.
(** Nothing but the logs and the loaded programs has changed. *)
Definition calm self self' : Prop :=
  same_machine self self' ∧ signature_count self' = signature_count self ∧ same_accounts (accounts self) (accounts self').
#[local] Instance calm_preorder : PreOrder calm.
Proof.
  split.
  - intros self. split; [by repeat split|]. done.
  - intros s s' s'' ((?&?&?&?&?&?&?&?) & ? & Ha) ((?&?&?&?&?&?&?&?) & ? & Ha').
    split; [repeat split; congruence|]. split; [congruence|]. by etrans.
Qed.

Lemma calm_set_accounts self db : same_accounts (accounts self) db → calm self (set_accounts db self).
Proof. intros H. split; [by repeat split|]. done. Qed.
Lemma calm_set_log self log : calm self (set_log_collector log self).
Proof. split; [by repeat split|]. done. Qed.
Lemma on_accounts_calm {E A} (m : ST (AccountsDb CB) E A) : keeps same_accounts m → keeps calm (on_accounts m).
Proof. intros Hm. unfold on_accounts. apply (stays_zoom calm same_accounts); [|done]. intros s t. apply calm_set_accounts. Qed.
Lemma failing_calm {A} (m : ST (LiteSVM (CB:=CB)) TransactionError A) : keeps calm m → keeps calm (failing m).
Proof. intros Hm s. specialize (Hm s). unfold exec, failing in *. by destruct (m s). Qed.
Lemma lifted_calm {S} (m : ST (AccountsDb CB) InstructionError (option AccountSharedData)) :
  keeps same_accounts m →
  keeps (λ s s' : AccountsDb CB * S, same_accounts s.1 s'.1)
    (λ '(db, x), let '(r, db) := m db in (map_err (λ _, AccountNotFound) r, (db, x))).
Proof. intros Hm [db x]. specialize (Hm db). unfold exec in *. by destruct (m db). Qed.
#[local] Hint Resolve on_accounts_calm failing_calm lifted_calm : keeps.

#[local] Instance fst_preorder {S} : PreOrder (λ s s' : AccountsDb CB * S, same_accounts s.1 s'.1).
Proof. split; [by intros [db x]|]. intros [? ?] [? ?] [? ?] ? ?. cbn in *. by etrans. Qed.

Lemma modify_snd_calm {S E} (f : S → S) :
  keeps (λ s s' : AccountsDb CB * S, same_accounts s.1 s'.1) (modify (prod_map id f) : ST _ E unit).
Proof. intros [db x]. done. Qed.
#[local] Hint Resolve modify_snd_calm : keeps.

Lemma load_keys_same self tx fee keys : ∀ i,
  keeps (λ s s', same_accounts s.1 s'.1) (load_keys self tx fee i keys).
Proof.
  induction keys as [|key keys IH]; intros i; cbn [load_keys]; [keeps|].
  apply stays_bind; [apply _| |intros; keeps]. unfold load_key. keeps.
Qed.
Lemma program_indices_same start indexes :
  keeps (λ s s', same_accounts s.1 s'.1) (program_indices (CB:=CB) start indexes).
Proof.
  induction indexes as [|i indexes IH]; cbn [program_indices]; [keeps|].
  apply stays_bind; [apply _| |intros; keeps]. unfold program_indices_of. keeps.
Qed.

Lemma check_accounts_rent_calm tx context : keeps calm (check_accounts_rent (CB:=CB) tx context).
Proof. unfold check_accounts_rent, check_account_rent. keeps. Qed.

Lemma process_transaction_calm tx lamports limits : keeps calm (process_transaction (CB:=CB) tx lamports limits).
Proof.
  intros self. unfold exec, process_transaction.
  match goal with |- context [load_keys ?s ?t ?f ?i ?k ?x] =>
    pose proof (load_keys_same s t f k i x) as Hload; unfold exec in Hload; destruct (load_keys s t f i k x) as [r [db ld]] end.
  cbn [fst snd] in Hload. pose proof (calm_set_accounts self db Hload) as Hcalm.
  destruct r as [loaded|e|]; [|exact Hcalm..]. destruct (negb _); [exact Hcalm|].
  match goal with |- context [program_indices ?n ?l ?x] =>
    pose proof (program_indices_same n l x) as Hprog; unfold exec in Hprog; destruct (program_indices n l x) as [r [db' l']] end.
  cbn [fst snd] in Hprog. pose proof (calm_set_accounts (set_accounts db self) db' Hprog) as Hcalm'.
  assert (calm self (set_accounts db' (set_accounts db self))) as H2 by (by etrans). clear Hcalm Hcalm'.
  destruct r as [indices|e|]; [|exact H2..].
  destruct (process_message _ _ _ _ _ _ _ _ _) as [[[tx_result context] log] units].
  match goal with |- context [check_accounts_rent ?t ?c ?s] =>
    pose proof (check_accounts_rent_calm t c s) as Hrent; unfold exec in Hrent; destruct (check_accounts_rent t c s) as [rr self'] end.
  cbn [snd] in Hrent.
  assert (calm self self') as H3.
  { etrans; [exact H2|]. etrans; [apply (calm_set_log _ log)|exact Hrent]. }
  destruct tx_result, rr; exact H3.
Qed.
#[local] Hint Resolve process_transaction_calm : keeps.

Lemma maybe_blockhash_check_calm tx : keeps calm (maybe_blockhash_check (CB:=CB) tx).
Proof. unfold maybe_blockhash_check, check_transaction_age, check_and_load_message_nonce_account. keeps. Qed.
#[local] Hint Resolve maybe_blockhash_check_calm : keeps.

Lemma check_and_process_calm tx : keeps calm (check_and_process_transaction (CB:=CB) tx).
Proof. unfold check_and_process_transaction. keeps. Qed.
Lemma sanitize_transaction_calm tx : keeps calm (sanitize_transaction (CB:=CB) tx).
Proof. apply failing_calm. unfold sanitize_transaction_inner, sanitize_transaction_no_verify_inner. keeps. Qed.
Lemma sanitize_transaction_no_verify_calm tx : keeps calm (sanitize_transaction_no_verify (CB:=CB) tx).
Proof. unfold sanitize_transaction_no_verify, sanitize_transaction_no_verify_inner. keeps. Qed.
Lemma take_logs_calm : keeps calm (take_logs (CB:=CB)).
Proof. intros self. unfold exec, take_logs. destruct (log_collector self); cbn [snd]; [apply calm_set_log|reflexivity]. Qed.
Lemma or_return_calm {A} (m : ST (LiteSVM (CB:=CB)) ExecutionResult A) k :
  keeps calm m → (∀ a, keeps calm (k a)) → keeps calm (or_return m k).
Proof.
  intros Hm Hk self. specialize (Hm self). unfold exec, or_return in *. destruct (m self) as [[a|e|] s]; [|exact Hm..].
  etrans; [exact Hm|apply Hk].
Qed.
#[local] Hint Resolve check_and_process_calm sanitize_transaction_calm sanitize_transaction_no_verify_calm take_logs_calm : keeps.

Lemma execute_readonly_calm tx : keeps calm (execute_sanitized_transaction_readonly (CB:=CB) tx).
Proof. apply or_return_calm; [apply check_and_process_calm|]. intros p. keeps. Qed.

(** Simulating a transaction changes no account, no blockhash and no setting: what is left of it are
    the programs it loaded and its logs. *)
Theorem simulation_changes_nothing (tx : Native.Transaction) (self : LiteSVM (CB:=CB)) :
  calm self (exec (simulate_transaction tx) self).
Proof.
  revert self. change (keeps calm (simulate_transaction (CB:=CB) tx)). unfold simulate_transaction.
  keeps; (apply stays_infallible, or_return_calm; [keeps|intros; apply execute_readonly_calm]).
Qed.

(** ** Results of transactions *)

(** [fee] is taken from the balance of [payer]. *)
Definition pay (fee : Z) (payer : Pubkey) (a : AccountSharedData) self : LiteSVM (CB:=CB) :=
  set_accounts (insert_diff payer (set_lamports (acc_lamports a - fee) a) (accounts self)) self.

(** What [check_tx_result] makes of a result: an error whose fee can be paid becomes [Ok]. *)
Lemma check_tx_result_spec result payer fee self :
  result ≠ Panic →
  ∃ self1, calm self self1 ∧
    check_tx_result result payer fee self =
      match result, payer with
      | Err e, Some payer =>
          match view (accounts self) payer with
          | Some a => if decide (fee <= acc_lamports a) then (Ok (Ok tt), pay fee payer a self1) else (Ok (Err InsufficientFundsForFee), self1)
          | None => (Ok (Err InsufficientFundsForFee), self1)
          end
      | _, _ => (Ok result, self1)
      end.
Proof.
  intros Hnp. unfold check_tx_result. destruct result as [[]|e|]; [by exists self|cbn [is_ok]|done].
  destruct payer as [payer|]; [|by exists self].
  destruct (burn_run payer fee (accounts self)) as (db & Heq & Hburn).
  exists (set_accounts db self). split; [by apply calm_set_accounts, equiv_same_accounts|].
  unfold on_accounts, zoom. rewrite Hburn. destruct (view (accounts self) payer) as [a|]; [|done].
  unfold checked_sub_lamports. by case_decide.
Qed.

(** What the two ways to execute a sanitized transaction share. *)
Lemma execute_sanitized_ok tx self r self' :
  execute_sanitized_transaction_readonly tx self = (Ok r, self') → is_ok (xr_tx_result r) = true →
  execute_sanitized_transaction (CB:=CB) tx self = (Ok r, self').
Proof.
  unfold execute_sanitized_transaction, execute_sanitized_transaction_readonly, or_return.
  destruct (check_and_process_transaction tx self) as [[p|e|] s]; [|done|done].
  destruct (pr_context p) as [ctx|]; [|done]. intros [= <- <-] Hok. cbn [xr_tx_result execution_result_if_context] in Hok.
  unfold mbind, st_bind, check_tx_result. by rewrite Hok.
Qed.

Lemma execute_sanitized_err tx self r self' :
  execute_sanitized_transaction (CB:=CB) tx self = (Ok r, self') → is_err (xr_tx_result r) = true → calm self self'.
Proof.
  unfold execute_sanitized_transaction, or_return. intros Hrun Herr.
  pose proof (check_and_process_calm tx self) as Hcalm. unfold exec in Hcalm.
  destruct (check_and_process_transaction tx self) as [[p|e|] s]; [|by injection Hrun as <- <-|done]. cbn [snd] in Hcalm.
  destruct (pr_context p) as [ctx|]; [|by injection Hrun as <- <-].
  unfold mbind, st_bind in Hrun.
  destruct (decide (pr_result p = Panic)) as [Hp|Hp].
  { unfold check_tx_result in Hrun. rewrite Hp in Hrun. cbn in Hrun. destruct (pr_payer_key p) as [payer|].
    - destruct (burn_run payer (pr_fee p) (accounts s)) as (db & Heq & Hburn). unfold on_accounts, zoom in Hrun. rewrite Hburn in Hrun.
      assert (calm self (set_accounts db s)) as Hc by (etrans; [exact Hcalm|by apply calm_set_accounts, equiv_same_accounts]).
      destruct (view (accounts s) payer) as [a|]; [|by injection Hrun as <- <-].
      destruct (checked_sub_lamports _ _); injection Hrun as <- <-; [done|exact Hc].
    - by injection Hrun as <- <-. }
  destruct (check_tx_result_spec (pr_result p) (pr_payer_key p) (pr_fee p) s Hp) as (s1 & Hc1 & Hcheck).
  rewrite Hcheck in Hrun. clear Hcheck.
  assert (calm self s1) as Hc by (by etrans).
  destruct (pr_result p) as [[]|e|]; [injection Hrun as <- <-; exact Hc| |done].
  destruct (pr_payer_key p) as [payer|]; [|injection Hrun as <- <-; exact Hc].
  destruct (view (accounts s) payer) as [a|]; [|injection Hrun as <- <-; exact Hc].
  destruct (decide _); injection Hrun as <- <-; [done|exact Hc].
Qed.

(** The transaction, as [send_transaction] executes it and as [simulate_transaction] does. *)
Definition executed self (tx : Native.Transaction) : ST (LiteSVM (CB:=CB)) Empty_set ExecutionResult :=
  if sig_verify (config self) then execute_transaction tx else execute_transaction_no_verify tx.
Definition executed_readonly self (tx : Native.Transaction) : ST (LiteSVM (CB:=CB)) Empty_set ExecutionResult :=
  if sig_verify (config self) then execute_transaction_readonly tx else execute_transaction_no_verify_readonly tx.

Lemma or_return_ok {A} (m : ST (LiteSVM (CB:=CB)) ExecutionResult A) k k0 self r self' :
  (∀ a s, k0 a s = (Ok r, self') → k a s = (Ok r, self')) →
  or_return m k0 self = (Ok r, self') → or_return m k self = (Ok r, self').
Proof. intros Hk. unfold or_return. destruct (m self) as [[a|e|] s]; auto. Qed.
Lemma or_return_err {A} (m : ST (LiteSVM (CB:=CB)) ExecutionResult A) k self r self' :
  keeps calm m → (∀ a s, k a s = (Ok r, self') → calm s self') →
  or_return m k self = (Ok r, self') → calm self self'.
Proof.
  intros Hm Hk. specialize (Hm self). unfold exec, or_return in *. destruct (m self) as [[a|e|] s]; cbn [snd] in Hm; [| |done].
  - intros Hrun. etrans; [exact Hm|by eapply Hk].
  - by intros [= <- <-].
Qed.

Lemma executed_ok tx self r self' :
  executed_readonly self tx self = (Ok r, self') → is_ok (xr_tx_result r) = true → executed self tx self = (Ok r, self').
Proof.
  intros Hrun Hok. revert Hrun. unfold executed, executed_readonly. destruct (sig_verify (config self)); apply or_return_ok;
    intros a s Hrun; by apply execute_sanitized_ok.
Qed.
Lemma executed_err tx self r self' :
  executed self tx self = (Ok r, self') → is_err (xr_tx_result r) = true → calm self self'.
Proof.
  intros Hrun Herr. revert Hrun. unfold executed. destruct (sig_verify (config self)); apply or_return_err; auto with keeps;
    intros a s Hrun; by eapply execute_sanitized_err.
Qed.

(** Storing the written accounts never fails. *)
Definition stored self (accounts : list (Pubkey * AccountSharedData)) : list (Pubkey * AccountSharedData) :=
  (λ '(k, a), (k, (collect_rent_from_account (feature_set (config self)) (rent_collector self) k a).1)) <$> accounts.
Definition insert_all (db : AccountsDb CB) (l : list (Pubkey * AccountSharedData)) : AccountsDb CB :=
  foldl (λ db '(k, a), insert_diff k a db) db l.
Lemma store_accounts_run meta accs : ∀ self,
  for_each (store_account meta) accs self = (Ok tt, set_accounts (insert_all (accounts self) (stored self accs)) self).
Proof.
  induction accs as [|[k a] accs IH]; intros self; [by destruct self|]. cbn [for_each].
  unfold stored, insert_all. cbn [fmap list_fmap foldl].
  destruct (collect_rent_from_account (feature_set (config self)) (rent_collector self) k a) as [a' debit] eqn:Hrent.
  erewrite run_op; [|unfold store_account; cbn [fst snd]; rewrite Hrent; reflexivity].
  rewrite IH. cbn [fst]. done.
Qed.

Lemma take_logs_run self :
  take_logs self = (Ok (match log_collector self with Some old => log_messages old | None => [] end),
                    set_log_collector ((λ old, mkLogCollector [] (bytes_written old) (bytes_limit old) (limit_warning old)) <$> log_collector self) self).
Proof. unfold take_logs. destruct self as [? [l|] ? ? ? ? ? ? ? ? ?]; done. Qed.

(** Sending, after the execution. *)
Lemma send_transaction_run tx self r s :
  executed self tx self = (Ok r, s) →
  send_transaction tx self =
    let s := set_signature_count (u64_add (signature_count s) (xr_signature_count r)) s in
    let logs := match log_collector s with Some old => log_messages old | None => [] end in
    let s := set_log_collector ((λ old, mkLogCollector [] (bytes_written old) (bytes_limit old) (limit_warning old)) <$> log_collector s) s in
    match xr_tx_result r with
    | Ok _ => (Ok (metadata r logs), set_accounts (insert_all (accounts s) (stored s (xr_post_accounts r))) s)
    | Err e => (Err (mkFailedTransactionMetadata e (metadata r logs)), s)
    | Panic => (Panic, s)
    end.
Proof.
  intros Hexec. unfold send_transaction. rewrite run_gets. cbn [id]. fold (executed self tx).
  unfold mbind at 1, st_bind at 1, infallible. rewrite Hexec. rewrite run_modify.
  unfold mbind at 1, st_bind at 1. unfold infallible. rewrite take_logs_run. cbn zeta.
  destruct (xr_tx_result r) as [[]|err|]; [|done|done]. by erewrite run_op by apply store_accounts_run.
Qed.

(** C27. A transaction that is answered as failed changes no account, that of its payer included, no
    blockhash and no setting: a failure is not charged. The tests expect otherwise
    (executor/svm/tests/fees.rs: a failed transaction is answered as an error and its payer loses the
    fee); the code answers a failed program whose payer can pay the fee again as a success
    ([failed_program_commits]), and stores nothing for a transaction it answers as an error. *)
Theorem failed_transaction_changes_nothing (tx : Native.Transaction) (self self' : LiteSVM (CB:=CB)) (failed : FailedTransactionMetadata) :
  send_transaction tx self = (Err failed, self') →
  same_machine self self' ∧ ∀ k, view (accounts self') k = view (accounts self) k.
Proof.
  destruct (executed self tx self) as [r s] eqn:Hexec. destruct r as [r|[]|].
  - rewrite (send_transaction_run _ _ _ _ Hexec). cbn zeta. intros Hrun.
    destruct (xr_tx_result r) as [[]|err|] eqn:Hresult; [done| |done]. injection Hrun as _ <-.
    assert (calm self s) as (Hm & _ & _ & Hv) by (eapply executed_err; [exact Hexec|by rewrite Hresult]). by split.
  - unfold send_transaction. rewrite run_gets. cbn [id]. fold (executed self tx).
    unfold mbind at 1, st_bind at 1, infallible. by rewrite Hexec.
Qed.

Lemma view_insert_all l : ∀ (db db' : AccountsDb CB) k,
  (∀ k, view db' k = view db k) → view (insert_all db' l) k = view (insert_all db l) k.
Proof.
  induction l as [|[k' a] l IH]; intros db db' k Hv; [apply Hv|]. cbn. apply IH. intros k0. rewrite !view_insert_diff.
  by case_decide.
Qed.

(** C11. A transaction whose simulation succeeds does what the simulation shows: the same metadata, and
    the accounts change by those of the simulation, after their rent, and by nothing else. *)
Theorem simulation_predicts (tx : Native.Transaction) (self self0 : LiteSVM (CB:=CB)) (info : SimulatedTransactionInfo) :
  simulate_transaction tx self = (Ok info, self0) →
  ∃ self', send_transaction tx self = (Ok (si_meta info), self') ∧ same_machine self self' ∧
    ∀ k, view (accounts self') k = view (insert_all (accounts self) (stored self (si_post_accounts info))) k.
Proof.
  unfold simulate_transaction. rewrite run_gets. cbn [id]. fold (executed_readonly self tx). intros Hrun.
  destruct (executed_readonly self tx self) as [r s] eqn:Hexec. unfold mbind at 1, st_bind at 1, infallible in Hrun. rewrite Hexec in Hrun.
  destruct r as [r|[]|]; [|done]. unfold mbind at 1, st_bind at 1 in Hrun. rewrite take_logs_run in Hrun.
  destruct (xr_tx_result r) as [[]|err|] eqn:Hresult; [|done|done]. injection Hrun as <- _. cbn [si_meta si_post_accounts].
  assert (calm self s) as ((Hc & ? & ? & ? & ? & ? & ? & Hr) & _ & _ & Hv).
  { assert (keeps calm (executed_readonly self tx)) as Hk.
    { unfold executed_readonly. destruct (sig_verify _); apply or_return_calm; auto with keeps; intros; apply execute_readonly_calm. }
    specialize (Hk self). unfold exec in Hk. by rewrite Hexec in Hk. }
  rewrite (send_transaction_run tx self r s) by (apply executed_ok; [done|by rewrite Hresult]). cbn zeta. rewrite Hresult.
  eexists. split; [reflexivity|]. split; [by repeat split|].
  intros k. cbn [accounts set_accounts].
  match goal with |- view (insert_all _ (stored ?x _)) _ = _ =>
    replace (stored x (xr_post_accounts r)) with (stored self (xr_post_accounts r))
      by (unfold stored; cbn [config rent_collector set_log_collector set_signature_count]; by rewrite Hc, Hr) end.
  apply view_insert_all. exact Hv.
Qed.

(** C10. A transaction whose programs fail is answered as a success when its payer can pay the fee: the
    error is lost, and what the programs wrote before they failed is stored. *)
Theorem failed_program_commits (tx : Native.Transaction) (stx : SanitizedTransaction) (self s : LiteSVM (CB:=CB))
    (p : Processed) (ctx : TransactionContext) (e : TransactionError) (payer : Pubkey) (a : AccountSharedData) :
  sig_verify (config self) = false → try_create tx = Ok stx →
  check_and_process_transaction stx self = (Ok p, s) →
  pr_context p = Some ctx → pr_result p = Err e → pr_payer_key p = Some payer →
  view (accounts self) payer = Some a → pr_fee p <= acc_lamports a →
  ∃ meta self', send_transaction tx self = (Ok meta, self') ∧
    ∀ k, view (accounts self') k =
      view (insert_all (insert_diff payer (set_lamports (acc_lamports a - pr_fee p) a) (accounts self))
              (stored self (writable_accounts stx (execution_record ctx)))) k.
Proof.
  intros Hverify Hcreate Hprocess Hctx Hresult Hpayer Ha Hfee.
  pose proof (check_and_process_calm stx self) as Hcalm. unfold exec in Hcalm. rewrite Hprocess in Hcalm. cbn [snd] in Hcalm.
  destruct Hcalm as ((Hc & _ & _ & _ & _ & _ & _ & Hr) & _ & _ & Hv).
  destruct (check_tx_result_spec (pr_result p) (pr_payer_key p) (pr_fee p) s) as (s1 & Hcalm1 & Hcheck); [by rewrite Hresult|].
  rewrite Hresult, Hpayer, Hv, Ha, decide_True in Hcheck by done.
  destruct Hcalm1 as ((Hc1 & _ & _ & _ & _ & _ & _ & Hr1) & _ & _ & Hv1).
  pose (r := execution_result_if_context stx ctx (Ok tt) (pr_compute_units_consumed p) (pr_fee p)).
  assert (executed self tx self = (Ok r, pay (pr_fee p) payer a s1)) as Hexec.
  { unfold executed. rewrite Hverify. unfold execute_transaction_no_verify, or_return, sanitize_transaction_no_verify, failing.
    unfold sanitize_transaction_no_verify_inner, lift. rewrite Hcreate. cbn [map_err].
    unfold execute_sanitized_transaction, or_return. rewrite Hprocess, Hctx. unfold mbind, st_bind.
    rewrite Hresult, Hpayer, Hcheck. done. }
  rewrite (send_transaction_run _ _ _ _ Hexec). cbn zeta. cbn [xr_tx_result r execution_result_if_context].
  eexists _, _. split; [reflexivity|]. intros k. cbn [accounts set_accounts].
  match goal with |- view (insert_all _ (stored ?x ?l)) _ = _ =>
    replace (stored x l) with (stored self l)
      by (unfold stored; cbn [config rent_collector set_log_collector set_signature_count pay set_accounts]; by rewrite Hc1, Hc, Hr1, Hr) end.
  apply view_insert_all. intros k'. cbn [accounts set_log_collector set_signature_count pay set_accounts].
  rewrite !view_insert_diff. case_decide; [done|]. by rewrite Hv1, Hv.
Qed.

(** ** The fee payer *)

(** A payer that is accepted is a system account with lamports, keeps the minimum balance of its
    kind, loses the fee and nothing else, and, unless it is the incinerator, does not fall from rent
    exemption into paying rent. *)
Theorem fee_payer_validated (payer : Pubkey) (a a' : AccountSharedData) (index : Z) (rent_ : Rent) (fee : Z) :
  validate_fee_payer payer a index rent_ fee = Ok a' →
  a' = set_lamports (acc_lamports a - fee) a ∧ acc_lamports a ≠ 0 ∧
  (∃ kind, get_system_account_kind a = Some kind ∧
    fee + match kind with System => 0 | Nonce => minimum_balance rent_ nonce_state_size end <= acc_lamports a) ∧
  (payer ≠ incinerator_id → rent_state_from_account a rent_ = RentExempt →
    acc_lamports a' = 0 ∨ rent_state_from_account a' rent_ = RentExempt).
Proof.
  unfold validate_fee_payer. case_decide as Hzero; [done|].
  destruct (get_system_account_kind a) as [kind|]; [|done]. cbn. case_decide as Hbalance; [|done].
  unfold checked_sub_lamports. case_decide as Hfee; [|done].
  unfold check_rent_state_with_account. set (a1 := set_lamports _ a).
  destruct (bool_decide (payer ≠ incinerator_id) && negb (transition_allowed_from (rent_state_from_account a1 rent_) (rent_state_from_account a rent_)))
    eqn:Hrent; [done|]. cbn. intros [= <-]. split; [done|]. split; [done|]. split; [exists kind; split; [done|lia]|].
  intros Hinc Hexempt. rewrite bool_decide_eq_true_2 in Hrent by done. cbn in Hrent. rewrite Hexempt in Hrent.
  destruct (rent_state_from_account a1 rent_) eqn:Hstate; [left|done|by right].
  unfold rent_state_from_account in Hstate. case_decide; [done|]. by destruct (is_exempt _ _ _).
Qed.

(** ** What the transactions of a block leave alone *)

#[local] Instance same_machine_preorder : PreOrder same_machine.
Proof.
  split; [by repeat split|].
  intros s s' s'' (?&?&?&?&?&?&?&?) (?&?&?&?&?&?&?&?). repeat split; congruence.
Qed.
Lemma on_accounts_machine {E A} (m : ST (AccountsDb CB) E A) : keeps same_machine (on_accounts m).
Proof. intros s. unfold exec, on_accounts, zoom. destruct (m (accounts s)). by repeat split. Qed.
Lemma modify_machine {E} (f : LiteSVM (CB:=CB) → LiteSVM) : (∀ s, same_machine s (f s)) → keeps same_machine (modify f : ST _ E unit).
Proof. apply stays_modify. Qed.
Lemma or_return_machine {A} (m : ST (LiteSVM (CB:=CB)) ExecutionResult A) k :
  keeps same_machine m → (∀ a, keeps same_machine (k a)) → keeps same_machine (or_return m k).
Proof.
  intros Hm Hk self. specialize (Hm self). unfold exec, or_return in *. destruct (m self) as [[a|e|] s]; [|exact Hm..].
  etrans; [exact Hm|apply Hk].
Qed.
Lemma catch_machine {E E' A B} (m : ST (LiteSVM (CB:=CB)) E A) (k : outcome E A → ST (LiteSVM (CB:=CB)) E' B) :
  keeps same_machine m → (∀ r, keeps same_machine (k r)) → keeps same_machine (λ s, match m s with (Panic, s') => (Panic, s') | (r, s') => k r s' end).
Proof.
  intros Hm Hk s. specialize (Hm s). unfold exec in *. destruct (m s) as [[a|e|] s']; cbn [snd] in *; [| |done]; (etrans; [exact Hm|apply Hk]).
Qed.
#[local] Hint Resolve on_accounts_machine : keeps.

Lemma check_tx_result_machine result payer fee : keeps same_machine (check_tx_result (CB:=CB) result payer fee).
Proof.
  intros self. unfold exec, check_tx_result. destruct (is_ok result); [done|]. destruct payer as [payer|]; [|done].
  pose proof (on_accounts_machine (burn false payer fee) self) as H. unfold exec in H.
  destruct (on_accounts (burn false payer fee) self) as [[]]; exact H.
Qed.
#[local] Hint Resolve check_tx_result_machine : keeps.

Lemma set_accounts_machine self db : same_machine self (set_accounts db self).
Proof. by repeat split. Qed.
Lemma check_accounts_rent_machine tx context : keeps same_machine (check_accounts_rent (CB:=CB) tx context).
Proof. unfold check_accounts_rent, check_account_rent. keeps. Qed.
Lemma process_transaction_machine tx lamports limits : keeps same_machine (process_transaction (CB:=CB) tx lamports limits).
Proof.
  intros self. unfold exec, process_transaction. destruct (load_keys _ _ _ _ _ _) as [r [db ld]].
  destruct r as [loaded|e|]; [|apply set_accounts_machine..]. destruct (negb _); [apply set_accounts_machine|].
  destruct (program_indices _ _ _) as [r [db' l']].
  assert (same_machine self (set_accounts db' (set_accounts db self))) as Hm by by repeat split.
  destruct r as [indices|e|]; [|exact Hm..].
  destruct (process_message _ _ _ _ _ _ _ _ _) as [[[tx_result context] log] units].
  match goal with |- context [check_accounts_rent ?t ?c ?s] =>
    pose proof (check_accounts_rent_machine t c s) as Hrent; unfold exec in Hrent; destruct (check_accounts_rent t c s) as [rr self'] end.
  cbn [snd] in Hrent. assert (same_machine self self') as H3 by (etrans; [exact Hm|exact Hrent]).
  destruct tx_result, rr; exact H3.
Qed.
Lemma failing_machine {A} (m : ST (LiteSVM (CB:=CB)) TransactionError A) : keeps same_machine m → keeps same_machine (failing m).
Proof. intros Hm s. specialize (Hm s). unfold exec, failing in *. by destruct (m s). Qed.
#[local] Hint Resolve process_transaction_machine : keeps.
Lemma check_and_process_machine tx : keeps same_machine (check_and_process_transaction (CB:=CB) tx).
Proof.
  unfold check_and_process_transaction. apply stays_bind; [apply _|apply failing_machine|].
  - unfold maybe_blockhash_check, check_transaction_age, check_and_load_message_nonce_account. keeps.
  - intros details. apply stays_bind; [apply _|apply failing_machine; keeps|]. intros limits. keeps.
Qed.
Lemma sanitize_machine tx : keeps same_machine (sanitize_transaction (CB:=CB) tx) ∧ keeps same_machine (sanitize_transaction_no_verify (CB:=CB) tx).
Proof.
  split; apply failing_machine; unfold sanitize_transaction_inner, sanitize_transaction_no_verify_inner; keeps.
Qed.
Lemma take_logs_machine : keeps same_machine (take_logs (CB:=CB)).
Proof. intros self. unfold exec, take_logs. destruct (log_collector self); by repeat split. Qed.

Lemma execute_sanitized_machine tx : keeps same_machine (execute_sanitized_transaction (CB:=CB) tx).
Proof.
  apply or_return_machine; [apply check_and_process_machine|]. intros p. keeps.
Qed.
Lemma executed_machine self tx : keeps same_machine (executed self tx).
Proof.
  unfold executed. destruct (sig_verify _); (apply or_return_machine; [apply sanitize_machine|apply execute_sanitized_machine]).
Qed.
Lemma store_account_machine meta pair : keeps same_machine (store_account (CB:=CB) meta pair).
Proof.
  intros self. unfold exec, store_account. destruct (collect_rent_from_account _ _ _ _) as [a debit].
  pose proof (on_accounts_machine (add_diff_account false pair.1 a) self) as H. unfold exec in H.
  by destruct (on_accounts (add_diff_account false pair.1 a) self).
Qed.
#[local] Hint Resolve executed_machine store_account_machine : keeps.

Lemma send_transaction_machine tx : keeps same_machine (send_transaction (CB:=CB) tx).
Proof.
  unfold send_transaction. apply stays_bind; [apply _|apply stays_gets; apply _|]. intros self. fold (executed self tx).
  apply stays_bind; [apply _|apply stays_infallible, executed_machine|]. intros r.
  apply stays_bind; [apply _|by apply modify_machine|]. intros _.
  apply stays_bind; [apply _|apply stays_infallible, take_logs_machine|]. intros logs. cbn zeta. keeps.
Qed.
#[local] Hint Resolve send_transaction_machine : keeps.

Lemma execute_batch_machine batch : keeps same_machine (execute_batch_transactions (CB:=CB) batch).
Proof.
  induction batch as [|tx batch IH]; cbn [execute_batch_transactions]; [keeps|].
  apply stays_bind; [apply _| |intros; keeps]. intros self. pose proof (send_transaction_machine tx self) as H. unfold exec in *.
  by destruct (send_transaction tx self).
Qed.
#[local] Hint Resolve execute_batch_machine : keeps.
Lemma execute_batches_machine batches : ∀ results, keeps same_machine (execute_batches (CB:=CB) batches results).
Proof. induction batches as [|b batches IH]; intros results; cbn [execute_batches]; keeps. Qed.

Lemma get_sysvar_or_machine {T} `{!Sysvar T} (d : T) : keeps same_machine (get_sysvar_or (CB:=CB) d).
Proof. apply catch_machine; [unfold get_sysvar; keeps|intros r; destruct r; keeps]. Qed.
Lemma update_sysvar_machine {T} `{!Sysvar T} (x : T) : keeps same_machine (update_sysvar (CB:=CB) x).
Proof. unfold update_sysvar. keeps. Qed.
#[local] Hint Resolve get_sysvar_or_machine update_sysvar_machine : keeps.

Lemma seal_block_machine results : keeps same_machine (seal_block (CB:=CB) results).
Proof. unfold seal_block, update_slot_history, update_fee_rate_governor. keeps. Qed.

(** ** What a block does to the signature count and the logs *)

(** Neither has changed. *)
Definition uncounted self self' : Prop :=
  signature_count self' = signature_count self ∧ log_collector self' = log_collector self.
#[local] Instance uncounted_preorder : PreOrder uncounted.
Proof. split; [done|]. intros s s' s'' [H1 H2] [H1' H2']. split; congruence. Qed.
Lemma on_accounts_uncounted {E A} (m : ST (AccountsDb CB) E A) : keeps uncounted (on_accounts m).
Proof. intros s. unfold exec, on_accounts, zoom. by destruct (m (accounts s)). Qed.
#[local] Hint Resolve on_accounts_uncounted : keeps.
Lemma get_sysvar_or_uncounted {T} `{!Sysvar T} (d : T) : keeps uncounted (get_sysvar_or (CB:=CB) d).
Proof.
  intros self. unfold exec, get_sysvar_or, catch.
  assert (keeps uncounted (get_sysvar (CB:=CB) (T:=T))) as Hk by (unfold get_sysvar; keeps).
  specialize (Hk self). unfold exec in Hk. by destruct (get_sysvar self) as [[x|e|] s].
Qed.
Lemma update_sysvar_uncounted {T} `{!Sysvar T} (x : T) : keeps uncounted (update_sysvar (CB:=CB) x).
Proof. unfold update_sysvar. keeps. Qed.
#[local] Hint Resolve get_sysvar_or_uncounted update_sysvar_uncounted : keeps.
Lemma seal_block_uncounted results : keeps uncounted (seal_block (CB:=CB) results).
Proof. unfold seal_block, update_slot_history, update_fee_rate_governor. keeps. Qed.
Lemma register_recent_uncounted hash : keeps uncounted (register_recent_blockhash (CB:=CB) hash).
Proof.
  unfold register_recent_blockhash, update_recent_blockhashes_locked.
  apply stays_bind; [apply _|by apply stays_modify|]. intros _. keeps.
Qed.

(** The signatures a transaction is counted for: those it requires, or none when it is refused
    before its programs run. *)
Definition signatures_of (tx : Native.Transaction) (n : Z) : Prop :=
  n = 0 ∨ ∃ stx, try_create tx = Ok stx ∧ n = num_required_signatures_of stx.
(** The messages of the log collector have been taken. *)
Definition no_messages self : Prop := ∀ log, log_collector self = Some log → log_messages log = [].

Lemma failing_uncounted {A} (m : ST (LiteSVM (CB:=CB)) TransactionError A) self v s :
  failing m self = (Err v, s) → xr_signature_count v = 0.
Proof. unfold failing. destruct (m self) as [[a|e|] s']; [done| |done]. by intros [= <- _]. Qed.
Lemma sanitized_from tx self :
  match sanitize_transaction tx self with (Ok stx, _) => try_create tx = Ok stx | (Err v, _) => xr_signature_count v = 0 | _ => True end
  ∧ match sanitize_transaction_no_verify tx self with (Ok stx, _) => try_create tx = Ok stx | (Err v, _) => xr_signature_count v = 0 | _ => True end.
Proof.
  split.
  - destruct (sanitize_transaction tx self) as [[stx|v|] s] eqn:Hrun; [|by eapply failing_uncounted|done].
    unfold sanitize_transaction, failing in Hrun. destruct (sanitize_transaction_inner tx self) as [[stx'|e|] s'] eqn:Hin; [|done..].
    injection Hrun as -> <-. unfold sanitize_transaction_inner in Hin. rewrite run_gets in Hin.
    apply bind_Ok in Hin as (stx' & s1 & Hc & Hin). unfold sanitize_transaction_no_verify_inner, lift in Hc. injection Hc as Hc _.
    apply bind_Ok in Hin as (u & s2 & _ & Hin). apply bind_Ok in Hin as (u' & s3 & _ & Hin). injection Hin as -> _. exact Hc.
  - destruct (sanitize_transaction_no_verify tx self) as [[stx|v|] s] eqn:Hrun; [|by eapply failing_uncounted|done].
    unfold sanitize_transaction_no_verify, failing, sanitize_transaction_no_verify_inner, lift in Hrun.
    destruct (try_create tx); [|done..]. by injection Hrun as -> _.
Qed.

Lemma check_tx_result_uncounted result payer fee : keeps uncounted (check_tx_result (CB:=CB) result payer fee).
Proof.
  intros self. unfold exec, check_tx_result. destruct (is_ok result); [done|]. destruct payer as [payer|]; [|done].
  pose proof (on_accounts_uncounted (burn false payer fee) self) as H. unfold exec in H.
  destruct (on_accounts (burn false payer fee) self) as [[]]; exact H.
Qed.

Lemma execute_sanitized_counts stx self r s :
  execute_sanitized_transaction (CB:=CB) stx self = (Ok r, s) →
  signature_count s = signature_count self ∧ (xr_signature_count r = 0 ∨ xr_signature_count r = num_required_signatures_of stx).
Proof.
  unfold execute_sanitized_transaction, or_return. pose proof (check_and_process_calm stx self) as Hcalm. unfold exec in Hcalm.
  destruct (check_and_process_transaction stx self) as [[p|v|] s1] eqn:Hcheck; [| |done]; destruct Hcalm as (_ & Hn & _); cbn [snd] in Hn.
  - destruct (pr_context p) as [ctx|]; [|intros [= <- <-]; by split; [|left]]. intros Hrun.
    apply bind_Ok in Hrun as (res & s2 & Hres & Hrun). injection Hrun as <- <-.
    pose proof (check_tx_result_uncounted (pr_result p) (pr_payer_key p) (pr_fee p) s1) as [H1 _]. unfold exec in H1.
    rewrite Hres in H1. cbn [snd] in H1. split; [congruence|]. by right.
  - intros [= <- <-]. split; [done|]. left. unfold check_and_process_transaction in Hcheck.
    rewrite bind_run in Hcheck. destruct (failing (maybe_blockhash_check stx) self) as [[d|v'|] s2] eqn:H1; [| |done].
    + rewrite bind_run in Hcheck. destruct (failing (lift (process_compute_budget_instructions stx)) s2) as [[l|v'|] s3] eqn:H2; [| |done].
      * unfold infallible in Hcheck. by destruct (process_transaction stx d l s3) as [[?|[]|] ?].
      * injection Hcheck as <- <-. by eapply failing_uncounted.
    + injection Hcheck as <- <-. by eapply failing_uncounted.
Qed.

Lemma executed_counts tx self r s :
  executed self tx self = (Ok r, s) → signature_count s = signature_count self ∧ signatures_of tx (xr_signature_count r).
Proof.
  unfold executed. destruct (sanitized_from tx self) as [Hv Hn].
  destruct (sig_verify (config self)); unfold execute_transaction, execute_transaction_no_verify, or_return.
  - pose proof (sanitize_transaction_calm tx self) as (_ & Hc & _). unfold exec in Hc.
    destruct (sanitize_transaction tx self) as [[stx|v|] s1]; [| |done]; cbn [snd] in Hc.
    + intros [H1 H2]%execute_sanitized_counts. split; [congruence|]. destruct H2; [by left|right; by eexists].
    + intros [= <- <-]. split; [done|by left].
  - pose proof (sanitize_transaction_no_verify_calm tx self) as (_ & Hc & _). unfold exec in Hc.
    destruct (sanitize_transaction_no_verify tx self) as [[stx|v|] s1]; [| |done]; cbn [snd] in Hc.
    + intros [H1 H2]%execute_sanitized_counts. split; [congruence|]. destruct H2; [by left|right; by eexists].
    + intros [= <- <-]. split; [done|by left].
Qed.

Lemma send_transaction_counts tx self r self' :
  send_transaction tx self = (r, self') → r ≠ Panic →
  ∃ n, signatures_of tx n ∧ signature_count self' = u64_add (signature_count self) n ∧ no_messages self'.
Proof.
  intros Hsend Hnp. destruct (executed self tx self) as [[x|[]|] s] eqn:Hexec.
  - rewrite (send_transaction_run _ _ _ _ Hexec) in Hsend. apply executed_counts in Hexec as [Hs Hx].
    exists (xr_signature_count x). split; [done|]. cbn zeta in Hsend. rewrite Hs in Hsend.
    destruct (xr_tx_result x) as [u|e|]; injection Hsend as <- <-; [| |done]; (split; [done|]); intros log;
      cbn [log_collector set_log_collector set_accounts set_signature_count]; destruct (log_collector s); by intros [= <-].
  - unfold send_transaction in Hsend. rewrite run_gets in Hsend. cbn [id] in Hsend. fold (executed self tx) in Hsend.
    unfold mbind at 1, st_bind at 1, infallible in Hsend. rewrite Hexec in Hsend. by injection Hsend as <- _.
Qed.

(** The counts of a list of transactions, added up in order. *)
Definition counted (txs : list Native.Transaction) self self' : Prop :=
  ∃ counts, Forall2 signatures_of txs counts ∧ signature_count self' = foldl u64_add (signature_count self) counts ∧
    (txs ≠ [] → no_messages self').
Lemma counted_app txs txs' self s self' : counted txs self s → counted txs' s self' →
  (txs' = [] → self' = s) → counted (txs ++ txs') self self'.
Proof.
  intros (c & Hc & Hn & Hm) (c' & Hc' & Hn' & Hm') Hnil. exists (c ++ c'). split; [by apply Forall2_app|].
  split; [by rewrite foldl_app, <- Hn|]. intros Hne. destruct txs' as [|tx txs']; [|by apply Hm'].
  rewrite Hnil by done. apply Hm. by rewrite app_nil_r in Hne.
Qed.
Lemma execute_batch_counts batch : ∀ self rs self',
  execute_batch_transactions batch self = (Ok rs, self') → counted batch self self' ∧ (batch = [] → self' = self).
Proof.
  induction batch as [|tx batch IH]; intros self rs self' Hrun; cbn [execute_batch_transactions] in Hrun.
  - injection Hrun as _ <-. split; [|done]. exists []. by split_and!; [constructor|done|done].
  - apply bind_Ok in Hrun as (r & s & Hsend & Hrun). apply bind_Ok in Hrun as (rs' & s' & Hrest & Hrun). injection Hrun as _ <-.
    split; [|done]. destruct (IH _ _ _ Hrest) as [Hcount Hnil]. apply (counted_app [tx] batch _ s); [|done..].
    destruct (send_transaction tx self) as [r' s1] eqn:Hs. assert (r' ≠ Panic ∧ s1 = s) as [Hnp ->] by (destruct r'; naive_solver).
    destruct (send_transaction_counts _ _ _ _ Hs Hnp) as (n & Hn & Hc & Hm). exists [n]. by split_and!; [by constructor|done|done].
Qed.
Lemma execute_batches_counts batches : ∀ acc self rs self',
  execute_batches batches acc self = (Ok rs, self') → counted (concat batches) self self' ∧ (concat batches = [] → self' = self).
Proof.
  induction batches as [|batch batches IH]; intros acc self rs self' Hrun; cbn [execute_batches concat] in *.
  - injection Hrun as _ <-. split; [|done]. exists []. by split_and!; [constructor|done|done].
  - apply bind_Ok in Hrun as (res & s & Hbatch & Hrun). apply execute_batch_counts in Hbatch as [Hb Hbn].
    destruct (IH _ _ _ _ Hrun) as [Hc Hn]. split; [by apply (counted_app _ _ _ s)|].
    intros [Hb0 Hc0]%app_eq_nil. rewrite Hn by done. by apply Hbn.
Qed.

(** ** The blockhash of a block *)

(** The entries of the batches that hold transactions, chained from [h], at [n] hashes a tick. *)
Fixpoint data_entries_of (n : Z) (h : bytes) (batches : list (list Native.Transaction)) : list Entry :=
  match batches with
  | [] => []
  | [] :: batches => data_entries_of n h batches
  | batch :: batches =>
      mkEntry (if decide (n = 0) then 1 else n) (entry_hash h n batch) batch :: data_entries_of n (entry_hash h n batch) batches
  end.
(** The blockhash: the batches chained from the parent's, then the ticks of the slot. *)
Definition chain_batches (n : Z) (h : bytes) (batches : list (list Native.Transaction)) : bytes :=
  foldl (λ h batch, match batch with [] => h | _ => entry_hash h n batch end) h batches.
Definition chain_ticks (n : Z) (ticks : nat) (h : bytes) : bytes := Nat.iter ticks (λ h, entry_hash h n []) h.
Definition block_hash (n ticks : Z) (parent : bytes) (batches : list (list Native.Transaction)) : bytes :=
  chain_ticks n (Z.to_nat ticks) (chain_batches n parent batches).

Lemma sure_Ok {E A} (a : A) self : sure (E:=E) (Ok a) self = (Ok a, self).
Proof. done. Qed.

Lemma entry_batches_run n batches : ∀ h data self,
  hashes_per_tick (config self) = n → 0 <= n < 2 ^ 64 - 1 →
  batches_to_data_entries batches (Some h) data self = (Ok (data ++ data_entries_of n h batches), self).
Proof.
  induction batches as [|[|tx batch] batches IH]; intros h data self Hn Hrange; cbn [batches_to_data_entries data_entries_of].
  - by rewrite app_nil_r.
  - by apply IH.
  - assert (transactions_to_entry (tx :: batch) (Some h) self =
      (Ok (mkEntry (if decide (n = 0) then 1 else n) (entry_hash h n (tx :: batch)) (tx :: batch)), self)) as Hentry.
    { unfold transactions_to_entry. rewrite run_gets. cbn [id]. unfold mbind at 1, st_bind at 1, mret, st_ret. rewrite Hn.
      rewrite new_entry_spec by done. rewrite sure_Ok. do 3 f_equal. destruct (decide (n = 0)), (decide (n = 0 ∧ _)); naive_solver. }
    rewrite (run_op _ _ _ _ _ Hentry). rewrite IH by done. by rewrite <- app_assoc.
Qed.

Lemma entry_batches_run_start n batches h data self :
  hashes_per_tick (config self) = n → 0 <= n < 2 ^ 64 - 1 → bq_last_hash (blockhash_queue self) = Some h →
  batches_to_data_entries batches None data self = (Ok (data ++ data_entries_of n h batches), self).
Proof.
  intros Hn Hrange Hlast. revert data. induction batches as [|[|tx batch] batches IH]; intros data.
  - cbn. by rewrite app_nil_r.
  - apply IH.
  - rewrite <- (entry_batches_run n _ h data self) by done. cbn [batches_to_data_entries].
    unfold transactions_to_entry. unfold mbind, st_bind, gets. cbn -[sure new_entry]. unfold last_hash. by rewrite Hlast.
Qed.

Lemma data_entries_last n batches : ∀ h, default h (e_hash <$> last (data_entries_of n h batches)) = chain_batches n h batches.
Proof.
  induction batches as [|[|tx batch] batches IH]; intros h; cbn [data_entries_of]; [done|apply IH|].
  change (chain_batches n h ((tx :: batch) :: batches)) with (chain_batches n (entry_hash h n (tx :: batch)) batches).
  rewrite <- IH, last_cons. by destruct (last (data_entries_of n _ batches)).
Qed.
Lemma data_entries_no_ticks n batches : ∀ h, filter (λ e, is_tick e = true) (data_entries_of n h batches) = [].
Proof.
  induction batches as [|[|tx batch] batches IH]; intros h; cbn [data_entries_of]; [done|apply IH|].
  rewrite filter_cons_False by done. apply IH.
Qed.
Lemma data_entries_some n batches : ∀ h, filter (λ b, b ≠ []) batches ≠ [] → data_entries_of n h batches ≠ [].
Proof.
  induction batches as [|[|tx batch] batches IH]; intros h Hne; cbn [data_entries_of]; [done| |done].
  apply IH. by rewrite filter_cons_False in Hne by tauto.
Qed.
Lemma data_entries_none n batches : ∀ h, filter (λ b, b ≠ []) batches = [] → data_entries_of n h batches = [].
Proof.
  induction batches as [|[|tx batch] batches IH]; intros h Hnil; cbn [data_entries_of]; [done| |].
  - apply IH. by rewrite filter_cons_False in Hnil by tauto.
  - by rewrite filter_cons_True in Hnil by done.
Qed.

(** The ticks after the entries. *)
Definition tick_entries (n : Z) (ticks : nat) (h : bytes) : list Entry :=
  (λ i, mkEntry n (chain_ticks n (S i) h) []) <$> seq 0 ticks.
Lemma push_ticks_run n ticks : ∀ h data self,
  hashes_per_tick (config self) = n → 0 <= n < 2 ^ 64 - 1 →
  push_ticks ticks h data self = (Ok (data ++ tick_entries n ticks h), self).
Proof.
  induction ticks as [|ticks IH]; intros h data self Hn Hrange; cbn [push_ticks]; [by rewrite app_nil_r|].
  rewrite run_gets. cbn [id]. rewrite Hn. rewrite new_entry_spec by done. rewrite (run_op _ _ _ _ _ (sure_Ok _ _)).
  rewrite IH by done. rewrite <- app_assoc. do 3 f_equal.
  unfold tick_entries. cbn [seq fmap list_fmap app e_hash]. rewrite decide_False by naive_solver. f_equal.
  rewrite <- fmap_S_seq, <- list_fmap_compose. apply list_fmap_ext. intros i j _. unfold compose. f_equal.
  symmetry. exact (Nat.iter_succ_r (S j) _ (λ h, entry_hash h n []) h).
Qed.

(** Skipping to the last tick. *)
Lemma register_ticks_data data rest count self :
  filter (λ e, is_tick e = true) data = [] → register_ticks (data ++ rest) count self = register_ticks rest count self.
Proof.
  induction data as [|e data IH]; intros Hno; [done|]. cbn [app register_ticks]. rewrite run_gets. cbn [id].
  destruct (is_tick e) eqn:He; [by rewrite filter_cons_True in Hno|]. rewrite filter_cons_False in Hno by (by rewrite He). auto.
Qed.
Lemma register_ticks_run n h (T : nat) self : ∀ k i : nat,
  ticks_per_slot (config self) = Z.of_nat T → Z.of_nat T < 2 ^ 64 → (i + S k = T)%nat →
  register_ticks ((λ i, mkEntry n (chain_ticks n (S i) h) []) <$> seq i (S k)) (Z.of_nat i) self =
    (modify (set_blockhash (Some (chain_ticks n T h)));; register_recent_blockhash (chain_ticks n T h)) self.
Proof.
  induction k as [|k IH]; intros i HT Hmax Hi; rewrite seq_S_cons || cbn [seq]; cbn [fmap list_fmap register_ticks];
    rewrite run_gets; cbn [id is_tick e_transactions e_hash]; rewrite u64_add_small, HT by lia.
  - rewrite decide_True by lia. by replace (S i) with T by lia.
  - rewrite decide_False by lia. replace (Z.of_nat i + 1) with (Z.of_nat (S i)) by lia. apply (IH (S i)); lia || done.
Qed.

Lemma process_entries_run n parent batches self :
  hashes_per_tick (config self) = n → 0 <= n < 2 ^ 64 - 1 → 1 <= ticks_per_slot (config self) < 2 ^ 64 →
  bq_last_hash (blockhash_queue self) = Some parent →
  process_entries_and_register_blockhash batches self =
    if decide (filter (λ b, b ≠ []) batches = []) then (Err NoEntries, self)
    else (modify (set_blockhash (Some (block_hash n (ticks_per_slot (config self)) parent batches)));;
          register_recent_blockhash (block_hash n (ticks_per_slot (config self)) parent batches)) self.
Proof.
  intros Hn Hrange HT Hlast. unfold process_entries_and_register_blockhash.
  rewrite (run_op _ _ _ _ _ (entry_batches_run_start n batches parent [] self Hn Hrange Hlast)). cbn [app].
  unfold complete_entries. destruct (decide _) as [Hnil|Hsome].
  { rewrite data_entries_none by done. done. }
  pose proof (data_entries_some n batches parent Hsome) as Hne. pose proof (data_entries_last n batches parent) as Hhash.
  destruct (last (data_entries_of n parent batches)) as [e|] eqn:Hl; [cbn in Hhash|by apply last_None in Hl].
  erewrite run_op.
  2:{ rewrite run_gets. cbn [id ok_or]. erewrite run_lift_Ok by reflexivity.
      rewrite data_entries_no_ticks. change (len []) with 0. rewrite Z.sub_0_r, Z.max_r by lia. by apply push_ticks_run. }
  rewrite register_ticks_data by apply data_entries_no_ticks. rewrite Hhash.
  unfold tick_entries, block_hash. remember (Z.to_nat (ticks_per_slot (config self))) as T eqn:ET.
  destruct T as [|k]; [lia|]. apply (register_ticks_run n (chain_batches n parent batches) (S k) self k 0); lia.
Qed.

Lemma register_recent_machine hash self : same_machine (set_queue (register_hash hash (get_lamports_per_signature self) (blockhash_queue self)) self)
  (exec (register_recent_blockhash hash) self).
Proof.
  unfold exec, register_recent_blockhash. rewrite run_modify.
  assert (keeps same_machine (update_recent_blockhashes_locked (CB:=CB))) as Hk by (unfold update_recent_blockhashes_locked; keeps).
  apply Hk.
Qed.

Lemma no_batches {A} (batches : list (list A)) : concat batches = [] → filter (λ b, b ≠ []) batches = [].
Proof.
  induction batches as [|b batches IH]; [done|]. cbn [concat]. intros [-> Hb]%app_eq_nil.
  rewrite filter_cons_False by tauto. auto.
Qed.

Lemma sealed_machine batches self rs s1 u s2 :
  execute_batches (CB:=CB) batches [] self = (Ok rs, s1) → seal_block rs s1 = (Ok u, s2) → same_machine self s2.
Proof.
  intros Hbatches Hseal. etrans.
  - pose proof (execute_batches_machine batches [] self) as H. unfold exec in H. rewrite Hbatches in H. exact H.
  - pose proof (seal_block_machine rs s1) as H. unfold exec in H. by rewrite Hseal in H.
Qed.

Lemma block_hash_of (block : Block.RawBlock) (self self' : LiteSVM (CB:=CB)) (results : list TransactionResult) (parent : bytes) :
  0 <= hashes_per_tick (config self) < 2 ^ 64 - 1 → 1 <= ticks_per_slot (config self) < 2 ^ 64 →
  bq_last_hash (blockhash_queue self) = Some parent →
  execute_block block self = (Ok results, self') →
  let hash := block_hash (hashes_per_tick (config self)) (ticks_per_slot (config self)) parent (Block.raw_batches block) in
  get_blockhash self' = Ok hash ∧
  blockhash_queue self' = register_hash hash (get_lamports_per_signature self) (blockhash_queue self) ∧
  (config self', slot self', epoch self', parent_blockhash self') = (config self, slot self, epoch self, parent_blockhash self) ∧
  filter (λ b, b ≠ []) (Block.raw_batches block) ≠ [] ∧
  (fee_rate_governor self', rent_collector self') = (fee_rate_governor self, rent_collector self).
Proof.
  intros Hn HT Hlast Hrun hash. unfold execute_block in Hrun.
  apply bind_Ok in Hrun as (rs & s1 & Hbatches & Hrun). apply bind_Ok in Hrun as (u & s2 & Hseal & Hrun).
  apply bind_Ok in Hrun as (u' & s3 & Hentries & Hrun). injection Hrun as <- <-.
  assert (same_machine self s2) as Hm by (by eapply sealed_machine).
  destruct Hm as (Hc & Hs & He & Hg & Hp & Hb & Hq & Hr).
  rewrite (process_entries_run _ parent) in Hentries by (rewrite ?Hc, ?Hq; done).
  destruct (decide _) as [|Hsome]; [done|]. rewrite Hc in Hentries. fold hash in Hentries. rewrite run_modify in Hentries.
  pose proof (register_recent_machine hash (set_blockhash (Some hash) s2)) as Hreg. unfold exec in Hreg. rewrite Hentries in Hreg.
  destruct Hreg as (Hc' & Hs' & He' & Hg' & Hp' & Hb' & Hq' & Hr'). cbn [snd] in *.
  cbn [config slot epoch parent_blockhash blockhash blockhash_queue set_queue set_blockhash fee_rate_governor] in *.
  unfold get_blockhash. rewrite Hb', Hq', Hc', Hs', He', Hp', Hg', Hr'. unfold get_lamports_per_signature.
  cbn [fee_rate_governor rent_collector set_queue set_blockhash]. rewrite Hc, Hs, He, Hp, Hq, Hg, Hr. by split_and!.
Qed.
Lemma process_entries_uncounted batches parent self self' :
  0 <= hashes_per_tick (config self) < 2 ^ 64 - 1 → 1 <= ticks_per_slot (config self) < 2 ^ 64 →
  bq_last_hash (blockhash_queue self) = Some parent →
  process_entries_and_register_blockhash batches self = (Ok tt, self') → uncounted self self'.
Proof.
  intros Hn HT Hlast Hrun. rewrite (process_entries_run _ parent) in Hrun by done. destruct (decide _); [done|].
  rewrite run_modify in Hrun. set (hash := block_hash _ _ _ _) in Hrun.
  pose proof (register_recent_uncounted hash (set_blockhash (Some hash) self)) as H. unfold exec in H. by rewrite Hrun in H.
Qed.
Lemma block_counts (block : Block.RawBlock) (self self' : LiteSVM (CB:=CB)) (results : list TransactionResult) (parent : bytes) :
  0 <= hashes_per_tick (config self) < 2 ^ 64 - 1 → 1 <= ticks_per_slot (config self) < 2 ^ 64 →
  bq_last_hash (blockhash_queue self) = Some parent →
  execute_block block self = (Ok results, self') → counted (concat (Block.raw_batches block)) self self'.
Proof.
  intros Hn HT Hlast Hrun. unfold execute_block in Hrun.
  apply bind_Ok in Hrun as (rs & s1 & Hbatches & Hrun). apply bind_Ok in Hrun as (u & s2 & Hseal & Hrun).
  apply bind_Ok in Hrun as ([] & s3 & Hentries & Hrun). injection Hrun as <- <-.
  assert (same_machine self s2) as (Hc & _ & _ & _ & _ & _ & Hq & _) by (by eapply sealed_machine).
  apply process_entries_uncounted with (parent := parent) in Hentries as [Hn2 Hl2]; [|by rewrite ?Hc, ?Hq..].
  apply execute_batches_counts in Hbatches as [(counts & Hf & Hsum & Hm) _].
  pose proof (seal_block_uncounted rs s1) as [Hn1 Hl1]. unfold exec in Hn1, Hl1. rewrite Hseal in Hn1, Hl1. cbn [snd] in Hn1, Hl1.
  exists counts. split_and!; [done|congruence|]. unfold no_messages. by rewrite Hl2, Hl1.
Qed.

(** C12. Executing a block, and what it changes besides the accounts. The blockhash: the batches that
    hold transactions (there is one) are chained from the parent's blockhash, each by the root of its
    signatures, then the ticks of the slot; it does not depend on what the transactions did. The hash
    joins the queue with the lamports per signature of the machine. The signature count grows, one
    transaction after the other, by the signatures the transaction requires or by none, and the messages
    of the log collector have been taken. The configuration, the slot, the epoch, the parent's blockhash,
    the fee governor and the rent collector stay as they were. *)
Theorem executed_block_hash (block : Block.RawBlock) (self self' : LiteSVM (CB:=CB)) (results : list TransactionResult) (parent : bytes) :
  0 <= hashes_per_tick (config self) < 2 ^ 64 - 1 → 1 <= ticks_per_slot (config self) < 2 ^ 64 →
  bq_last_hash (blockhash_queue self) = Some parent →
  execute_block block self = (Ok results, self') →
  let hash := block_hash (hashes_per_tick (config self)) (ticks_per_slot (config self)) parent (Block.raw_batches block) in
  get_blockhash self' = Ok hash ∧
  blockhash_queue self' = register_hash hash (get_lamports_per_signature self) (blockhash_queue self) ∧
  (config self', slot self', epoch self', parent_blockhash self') = (config self, slot self, epoch self, parent_blockhash self) ∧
  filter (λ b, b ≠ []) (Block.raw_batches block) ≠ [] ∧
  (fee_rate_governor self', rent_collector self') = (fee_rate_governor self, rent_collector self) ∧
  ∃ counts, Forall2 signatures_of (concat (Block.raw_batches block)) counts ∧
    signature_count self' = foldl u64_add (signature_count self) counts ∧
    ∀ log, log_collector self' = Some log → log_messages log = [].
Proof.
  intros Hn HT Hlast Hrun hash.
  destruct (block_hash_of block self self' results parent Hn HT Hlast Hrun) as (H1 & H2 & H3 & H4 & H5).
  destruct (block_counts block self self' results parent Hn HT Hlast Hrun) as (counts & H6 & H7 & H8).
  split_and!; try done. exists counts. split_and!; [done..|]. apply H8. intros Hnil. apply H4.
  by apply no_batches.
Qed.

(** Starting on a parent: the slot after it, and a queue whose last hash is the parent's. *)
Lemma get_sysvar_machine {T} `{!Sysvar T} : keeps same_machine (get_sysvar (CB:=CB) (T:=T)).
Proof. unfold get_sysvar. keeps. Qed.
#[local] Hint Resolve get_sysvar_machine : keeps.
Lemma keeps_result {E A} (m : ST (LiteSVM (CB:=CB)) E A) s r s' : keeps same_machine m → m s = (r, s') → same_machine s s'.
Proof. intros Hm Hrun. specialize (Hm s). unfold exec in Hm. by rewrite Hrun in Hm. Qed.

Lemma finish_init_starts self self' :
  finish_init self = (Ok tt, self') →
  config self' = config self ∧ slot self' = u64_add (parent_slot (config self)) 1 ∧
  blockhash self' = blockhash self ∧
  ∃ parent, parent_blockhash self' = Some parent ∧ bq_last_hash (blockhash_queue self') = Some parent.
Proof.
  unfold finish_init. intros Hrun. rewrite !run_modify in Hrun.
  apply bind_Ok in Hrun as (governor & s1 & H1 & Hrun). apply keeps_result in H1; [|keeps].
  rewrite run_modify, run_gets in Hrun. cbn [id] in Hrun.
  apply bind_Ok in Hrun as (env & s2 & H2 & Hrun). injection H2 as _ <-. rewrite run_modify in Hrun.
  apply bind_Ok in Hrun as (u & s3 & H3 & Hrun). apply keeps_result in H3; [|unfold update_slot_hashes; keeps].
  apply bind_Ok in Hrun as (u' & s4 & H4 & Hrun). apply keeps_result in H4; [|unfold update_clock; keeps].
  apply bind_Ok in Hrun as (u'' & s5 & H5 & Hrun). apply keeps_result in H5; [|unfold update_slot_history; keeps].
  apply bind_Ok in Hrun as (recent & s6 & H6 & Hrun). apply keeps_result in H6; [|keeps].
  rewrite run_gets in Hrun. cbn [id] in Hrun. rewrite run_modify, run_gets in Hrun. cbn [id] in Hrun.
  apply bind_Ok in Hrun as (parent & s7 & H7 & Hrun). unfold lift in H7. injection H7 as Hlast <-.
  rewrite run_modify in Hrun. apply bind_Ok in Hrun as (u3 & s8 & H8 & Hrun). apply keeps_result in H8; [|keeps].
  unfold modify in Hrun. injection Hrun as <-.
  destruct H1 as (C1&S1&_&_&_&B1&_&_), H3 as (C3&S3&_&_&_&B3&_&_), H4 as (C4&S4&_&_&_&B4&_&_), H5 as (C5&S5&_&_&_&B5&_&_),
    H6 as (C6&S6&_&_&_&B6&_&_), H8 as (C8&S8&_&_&P8&B8&Q8&_).
  cbn in *. split; [congruence|]. split; [congruence|]. split; [congruence|]. exists parent. split; [congruence|].
  rewrite Q8. unfold last_hash, expect in Hlast. destruct (bq_last_hash _); congruence.
Qed.

(** ** The fees of a block *)

(** Only the accounts of [keys] have changed. *)
Definition only (keys : list Pubkey) self self' : Prop := ∀ k, k ∉ keys → view (accounts self') k = view (accounts self) k.
#[local] Instance only_preorder keys : PreOrder (only keys).
Proof. split; [by intros s k|]. intros s s' s'' H H' k Hk. by rewrite H', H. Qed.
Lemma calm_only {E A} keys (m : ST (LiteSVM (CB:=CB)) E A) : keeps calm m → keeps (only keys) m.
Proof. intros Hm s k _. apply Hm. Qed.

Lemma get_sysvar_or_calm {T} `{!Sysvar T} (d : T) : keeps calm (get_sysvar_or (CB:=CB) d).
Proof.
  intros self. unfold exec, get_sysvar_or, catch.
  assert (keeps calm (get_sysvar (CB:=CB) (T:=T))) as Hk by (unfold get_sysvar; keeps).
  specialize (Hk self). unfold exec in Hk. destruct (get_sysvar self) as [[x|e|] s]; exact Hk.
Qed.
Lemma update_sysvar_only {T} `{!Sysvar T} (x : T) keys : sv_id (T:=T) ∈ keys → keeps (only keys) (update_sysvar (CB:=CB) x).
Proof.
  intros Hid self k Hk. unfold exec, update_sysvar. rewrite run_gets. cbn [id].
  case_decide; [|done]. unfold on_accounts, zoom, add_diff_account, mbind, st_bind, mret, st_ret, modify. cbn [snd accounts set_accounts].
  rewrite view_insert_diff, decide_False; [done|]. by intros ->.
Qed.

(** The fees are added up with wrap-around. *)
Lemma block_fees_sum (results : list TransactionResult) :
  block_fees results =
    foldr (λ r sum, match r with Ok meta => tm_fee meta | Err failed => tm_fee (fm_meta failed) | Panic => 0 end + sum) 0 results mod 2 ^ 64.
Proof.
  unfold block_fees. assert (∀ l a, 0 <= a < 2 ^ 64 → foldl (λ fees r, u64_add fees (result_fee r)) a l =
    (a + foldr (λ r sum, match r with Ok meta => tm_fee meta | Err failed => tm_fee (fm_meta failed) | Panic => 0 end + sum) 0 l) mod 2 ^ 64) as H.
  { induction l as [|r l IH]; intros a Ha; cbn [foldl foldr]; [by rewrite Z.add_0_r, Z.mod_small|].
    rewrite IH by (apply (wrap_range 64); lia). unfold u64_add, wrap. rewrite Z.add_mod_idemp_l by lia.
    f_equal. unfold result_fee. lia. }
  apply (H _ 0). lia.
Qed.

(** C28. Sealing a block gives its leader the fees of all its transactions: those that succeeded and
    those answered as failed, added up modulo 2^64. No other account but the sysvars of the slots and
    of the fees changes. This is for a schedule that names a leader other than those sysvars, a sum
    that is not zero, and a machine whose features do not ask for the fee collector to be
    validated (the flag [validate_fee_collector_account], under which the deposit can be refused). *)
Theorem fees_go_to_leader (results : list TransactionResult) (self self' : LiteSVM (CB:=CB)) (leader : Pubkey) (fees : Z) :
  leader_at_slot (leader_schedule (config self)) (slot self) = Some leader →
  validate_fee_collector_account (feature_set (config self)) = false →
  leader ∉ [sv_id (T:=SlotHistoryT); soon_fee_rate_governor_id] →
  fees = foldr (λ r sum, match r with Ok meta => tm_fee meta | Err failed => tm_fee (fm_meta failed) | Panic => 0 end + sum) 0 results mod 2 ^ 64 →
  0 < fees → seal_block results self = (Ok tt, self') →
  (∃ a, view (accounts self') leader = Some a ∧
    acc_lamports a = default 0 (acc_lamports <$> view (accounts self) leader) + fees) ∧
  only [leader; sv_id (T:=SlotHistoryT); soon_fee_rate_governor_id] self self'.
Proof.
  intros Hleader Hflag Hnot Hsum Hfees Hrun. rewrite <- block_fees_sum in Hsum. subst fees. unfold seal_block in Hrun. rewrite run_gets in Hrun. cbn [id] in Hrun.
  rewrite Hleader, decide_True, Hflag in Hrun by lia. apply bind_Ok in Hrun as (u & s1 & Hmint & Hrun).
  assert (only [sv_id (T:=SlotHistoryT); soon_fee_rate_governor_id] s1 self') as Hrest.
  { assert (keeps (only [sv_id (T:=SlotHistoryT); soon_fee_rate_governor_id])
      (update_slot_history (CB:=CB);; update_fee_rate_governor)) as Hk.
    { unfold update_slot_history, update_fee_rate_governor.
      apply stays_bind; [apply _| |intros _; apply stays_bind; [apply _|apply stays_gets; apply _|]; intros; apply update_sysvar_only; cbn; set_solver].
      apply stays_bind; [apply _|apply stays_gets; apply _|]. intros s.
      apply stays_bind; [apply _|apply calm_only, get_sysvar_or_calm|]. intros h. apply update_sysvar_only. set_solver. }
    specialize (Hk s1). unfold exec in Hk. by rewrite Hrun in Hk. }
  unfold on_accounts, zoom in Hmint.
  destruct (mint_run leader (block_fees results) (accounts self)) as (db & Heq & Hm). rewrite Hm in Hmint. clear Hm.
  assert (∃ a, accounts s1 = insert_diff leader a db ∧ acc_lamports a = default 0 (acc_lamports <$> view (accounts self) leader) + block_fees results)
    as (a & Hs1 & Ha).
  { destruct (view (accounts self) leader) as [a|].
    - unfold checked_add_lamports, u64_checked_add in Hmint. case_decide; [|done]. injection Hmint as _ <-. by eexists.
    - injection Hmint as _ <-. by eexists. }
  split.
  - exists a. split; [|exact Ha]. rewrite (Hrest leader Hnot), Hs1, view_insert_diff. by rewrite decide_True.
  - intros k Hk. rewrite (Hrest k) by set_solver. rewrite Hs1, view_insert_diff, decide_False by set_solver. by rewrite Heq.
Qed.
End effects.
