(* ===== verification/SvmExamples.v ===== *)
(** A small machine that runs: a runtime whose one program moves lamports, on which the theorems of Svm.v
    are applied, and two of its behaviours are seen: a program that fails after it has written is
    answered as a success, and a fee nobody paid goes to the leader. *)
From S2P Require Import Prelude Blocks TrieDB ProgramCodec Native Entries Blockhashes SvmAccounts Svm.
#[local] Open Scope Z_scope.

(** * A runtime *)

Module Toy.
#[local] Existing Instances Native.Plainly.sdk Entries.Examples.digest Entries.Examples.digest_laws.
#[local] Existing Instances SvmAccounts.Plain.runtime Blockhashes.Examples.short_clock.

Definition id (n : Z) : Pubkey := [z2b n].

(** The first account pays and the second receives; the third is the program. *)
#[local] Instance transactions : SvmTransactions := {|
  FeatureSet := unit;
  include_loaded_accounts_data_size_in_fee_calculation _ := false;
  remove_rounding_in_fee_calculation _ := false;
  validate_fee_collector_account _ := false;
  SanitizedTransaction := Native.Transaction;
  try_create tx := Ok tx;
  verify _ := Ok tt;
  verify_precompiles _ _ := Ok tt;
  signature tx := default [] (head (tx_signatures tx));
  message_account_keys tx := Native.Plainly.pm_keys (tx_message tx);
  recent_blockhash tx := Native.Plainly.pm_hash (tx_message tx);
  fee_payer tx := default [] (head (Native.Plainly.pm_keys (tx_message tx)));
  is_invoked _ i := bool_decide (i = 2%nat);
  is_instruction_account _ i := bool_decide (i <> 2%nat);
  is_writable _ i := bool_decide (i <> 2%nat);
  program_id_indexes tx := ci_program_id_index <$> Native.Plainly.pm_instructions (tx_message tx);
  num_required_signatures_of _ := 1;
  construct_instructions_data _ := [];
  get_durable_nonce _ := None;
  durable_nonce_from_blockhash h := h;
  verify_nonce_account _ _ := None;
  nonce_ix_signers _ := [];
|}.

(** An instruction [[n]] moves [n] lamports; any longer one moves them and then fails. *)
Definition move (n : Z) (accs : list (Pubkey * AccountSharedData)) : list (Pubkey * AccountSharedData) :=
  match accs with
  | (k, a) :: (k', a') :: accs => (k, set_lamports (acc_lamports a - n) a) :: (k', set_lamports (acc_lamports a' + n) a') :: accs
  | _ => accs
  end.
Fixpoint run_instructions (l : list CompiledInstruction) (accs : list (Pubkey * AccountSharedData))
    : outcome TransactionError unit * list (Pubkey * AccountSharedData) :=
  match l with
  | [] => (Ok tt, accs)
  | i :: l =>
      match ci_data i with
      | [n] => run_instructions l (move (b2z n) accs)
      | n :: _ => (Err (InstructionErr 0 (OtherInstruction 0)), move (b2z n) accs)
      | [] => run_instructions l accs
      end
  end.

#[local] Instance program : SvmProgram := {|
  account_default := mkAccount 0 [] [z2b 1] false 0;
  sysvar_id := id 3;
  instructions_sysvar_id := id 4;
  incinerator_id := id 5;
  no_sig_tx_payer := id 6;
  ComputeBudget := unit;
  ComputeBudgetLimits := unit;
  process_compute_budget_instructions _ := Ok tt;
  FeeStructure := Z;
  calculate_fee fee _ _ _ _ _ := fee;
  get_system_account_kind a := if decide (acc_owner a = [z2b 1]) then Some System else None;
  nonce_state_size := 80;
  RentCollector := unit;
  collect_rent_from_account _ _ _ a := (a, 0);
  TransactionContext := list (Pubkey * AccountSharedData);
  transaction_context_new accs _ _ := accs;
  get_account_at_index ctx i := ok_or (ctx !! i) (OtherInstruction 1);
  execution_record ctx := ctx;
  return_data _ := [];
  instruction_trace _ := [];
  process_message tx _ _ _ _ _ _ ctx log :=
    let '(r, ctx) := run_instructions (Native.Plainly.pm_instructions (tx_message tx)) ctx in (r, ctx, log, 7);
|}.

Definition number_sysvar (key n : Z) : Sysvar Z :=
  {| sv_id := id key; sv_size_of := n; sv_serialize z := be_bytes 8 z; sv_deserialize data := Some (be_val (take 8 data)) |}.
#[local] Instance sysvars : SvmSysvars := {|
  EpochScheduleT := unit;
  get_epoch _ _ := 0;
  get_leader_schedule_epoch _ _ := 0;
  F64 := unit;
  rent_collector_new _ _ _ _ := tt;
  create_program_runtime_environments _ _ := Some tt;
  FeeRateGovernor := Z;
  lamports_per_signature g := g;
  new_derived g n := g + n;
  SlotHistoryT := Z;
  slot_history_default := 0;
  slot_history_add slot _ := slot;
  SlotHashesT := Z;
  slot_hashes_default := 0;
  slot_hashes_add slot _ _ := slot;
  RecentBlockhashesT := Z;
  solana_max_entries := 2;
  recent_blockhashes_from_iter l := len l;
  INITIAL_RENT_EPOCH := 0;
  clock_sysvar := {| sv_id := id 40; sv_size_of := 8; sv_serialize c := be_bytes 8 (ck_slot c);
                     sv_deserialize data := Some (mkClock (be_val data) 0 0 0 0) |};
  slot_history_sysvar := number_sysvar 41 8;
  slot_hashes_sysvar := number_sysvar 42 8;
  recent_blockhashes_sysvar := number_sysvar 43 8;
  soon_recent_id := id 44;
  soon_recent_serialize r := mjoin ((λ '(hash, fee), hash ++ be_bytes 8 fee) <$> recent_entries r);
  soon_recent_deserialize data := if decide (length data < 40)%nat then None else Some (mkSoonRecentBlockhashes [(take 32 data, be_val (take 8 (drop 32 data)))]);
  soon_fee_rate_governor_id := id 45;
  soon_fee_rate_governor_serialize s := be_bytes 8 s.1 ++ be_bytes 8 s.2;
  soon_fee_rate_governor_deserialize data := Some (be_val (take 8 data), be_val (take 8 (drop 8 data)));
|}.

(** * A machine *)

Definition wallet (n : Z) : AccountSharedData := mkAccount n [] [z2b 1] false 0.
Definition payer : Pubkey := id 20.
Definition other : Pubkey := id 21.
Definition poor : Pubkey := id 22.
Definition leader : Pubkey := id 23.
Definition mover : Pubkey := id 30.

Definition parent : bytes := replicate 32 (z2b 9).
Definition configuration : Configuration :=
  mkConfiguration false true tt tt tt 2 0 parent 5 tt (schedule_from leader) 1 0 0 parent.
Definition machine : LiteSVM (CB:=MemoryAccountsCallback) :=
  mkLiteSVM (SvmAccounts.set_callback (mem_from [(payer, wallet 100); (poor, wallet 2); (mover, mkAccount 1 [] [z2b 2] true 0)]) accounts_db_default)
    None configuration 1 0 0 3 (Some parent) None (queue_from (mkSoonRecentBlockhashes [(parent, 3)])) tt.

Definition transfer (from : Pubkey) (instructions : list bytes) : Native.Transaction :=
  mkTransaction [replicate 64 (z2b 7)] (Native.Plainly.mkPlainMessage [from; other; mover] (mkCompiledInstruction 2 <$> instructions) parent).

Definition balance (self : LiteSVM (CB:=MemoryAccountsCallback)) (k : Pubkey) : option Z := acc_lamports <$> view (accounts self) k.
End Toy.

(** * The theorems on the machine *)

Module Examples.
#[local] Existing Instances Native.Plainly.sdk Entries.Examples.digest Entries.Examples.digest_laws.
#[local] Existing Instances SvmAccounts.Plain.runtime Blockhashes.Examples.short_clock Toy.transactions Toy.program Toy.sysvars.
Import Toy.

(** A transfer of 30 lamports from the payer, at a fee of 5. *)
Example transfer_moves :
  (λ '(r, self), (is_ok r, balance self payer, balance self other)) (send_transaction (transfer payer [[z2b 30]]) machine) =
    (true, Some 65, Some 30).
Proof. by vm_compute. Qed.

(** The same transfer by a program that fails after it: the answer is [Ok], and the lamports have moved. *)
Definition failing_transfer : Native.Transaction := transfer payer [[z2b 30; z2b 0]].
Example failed_program_answered_ok :
  is_err (run (simulate_transaction failing_transfer) machine) = true ∧
  (λ '(r, self), (is_ok r, balance self payer, balance self other)) (send_transaction failing_transfer machine) =
    (true, Some 65, Some 30).
Proof. by vm_compute. Qed.

(** A block of one transaction whose payer cannot pay the fee: nothing is paid, and the leader gets it. *)
Definition unpaid_block : Block.RawBlock := Block.from_single_batch [transfer poor [[z2b 1]]].
Example unpaid_fee_minted :
  (λ '(r, self), (is_ok r, balance self poor, balance self leader)) (execute_block unpaid_block machine) =
    (true, Some 2, Some 5).
Proof. by vm_compute. Qed.

Lemma simulation_predicts_witness :
  ∃ meta self', send_transaction (transfer payer [[z2b 30]]) machine = (Ok meta, self') ∧ balance self' other = Some 30.
Proof.
  destruct (simulate_transaction (transfer payer [[z2b 30]]) machine) as [r self0] eqn:Hsim.
  assert (r = run (simulate_transaction (transfer payer [[z2b 30]])) machine) as Hr by (unfold run; by rewrite Hsim).
  vm_compute in Hr. subst r.
  destruct (simulation_predicts _ _ _ _ Hsim) as (self' & Hsend & _ & Hview). eexists _, self'. split; [exact Hsend|].
  unfold balance. rewrite Hview. by vm_compute.
Defined.

Lemma failed_transaction_changes_nothing_witness :
  ∃ failed self', send_transaction (transfer poor [[z2b 1]]) machine = (Err failed, self') ∧
    fm_err failed = InsufficientFundsForFee ∧ balance self' poor = Some 2.
Proof.
  destruct (send_transaction (transfer poor [[z2b 1]]) machine) as [r self'] eqn:Hsend.
  assert (r = run (send_transaction (transfer poor [[z2b 1]])) machine) as Hr by (unfold run; by rewrite Hsend).
  vm_compute in Hr. subst r. eexists _, self'. split; [reflexivity|]. split; [done|].
  destruct (failed_transaction_changes_nothing _ _ _ _ Hsend) as [_ Hview]. unfold balance. rewrite Hview. by vm_compute.
Defined.

Definition sanitized : SanitizedTransaction := failing_transfer.
Definition after_failure : TransactionContext :=
  [(payer, wallet 65); (other, mkAccount 30 [] [z2b 1] false 0); (mover, mkAccount 1 [] [z2b 2] true 0)].
Definition observed (r : outcome ExecutionResult Processed) : option (outcome TransactionError unit * option Pubkey * Z * option (list (Pubkey * AccountSharedData))) :=
  match r with Ok p => Some (pr_result p, pr_payer_key p, pr_fee p, pr_context p) | _ => None end.

Lemma failed_program_commits_witness :
  ∃ meta self', send_transaction failing_transfer machine = (Ok meta, self') ∧ balance self' other = Some 30.
Proof.
  destruct (check_and_process_transaction sanitized machine) as [r s] eqn:Hprocess.
  assert (observed r = Some (Err (InstructionErr 0 (OtherInstruction 0)), Some payer, 5, Some after_failure)) as Hr.
  { change r with ((r, s).1). rewrite <- Hprocess. by vm_compute. }
  destruct r as [p| |]; [|done|done]. cbn in Hr. injection Hr as Hresult Hpayer Hfee Hctx.
  assert (pr_fee p <= acc_lamports (wallet 100)) as Hpaid by (rewrite Hfee; by vm_compute).
  destruct (failed_program_commits failing_transfer sanitized machine s p after_failure _ payer (wallet 100) eq_refl eq_refl Hprocess
              Hctx Hresult Hpayer ltac:(by vm_compute) Hpaid) as (meta & self' & Hsend & Hview).
  exists meta, self'. split; [exact Hsend|]. unfold balance. rewrite Hview, Hfee. by vm_compute.
Defined.

Lemma fee_payer_validated_witness :
  ∃ a', validate_fee_payer payer (wallet 100) 0 (rent configuration) 5 = Ok a' ∧ acc_lamports a' = 95.
Proof.
  eexists. split; [by vm_compute|].
  destruct (fee_payer_validated payer (wallet 100) _ 0 (rent configuration) 5 ltac:(by vm_compute)) as (Heq & _). by rewrite Heq.
Defined.

Definition paid_block : Block.RawBlock := Block.from_single_batch [transfer payer [[z2b 30]]].
Lemma executed_block_hash_witness :
  ∃ results self', execute_block paid_block machine = (Ok results, self') ∧
    get_blockhash self' = Ok (block_hash 0 2 parent (Block.raw_batches paid_block)).
Proof.
  destruct (execute_block paid_block machine) as [r self'] eqn:Hrun.
  assert (is_ok r = true) as Hok by (change r with ((r, self').1); rewrite <- Hrun; by vm_compute).
  destruct r as [results| |]; [|done|done]. exists results, self'. split; [reflexivity|].
  exact (proj1 (executed_block_hash paid_block machine self' results parent
    ltac:(split; by vm_compute) ltac:(split; by vm_compute) ltac:(by vm_compute) Hrun)).
Defined.

(** A transaction that succeeded, one answered as failed, and another that succeeded. *)
Definition with_fee (fee : Z) : TransactionMetadata := mkTransactionMetadata [] [] [] 0 [] fee.
Definition paid : list TransactionResult :=
  [Ok (with_fee 5); Err (mkFailedTransactionMetadata InsufficientFundsForFee (with_fee 7)); Ok (with_fee 11)].
Lemma fees_go_to_leader_witness :
  ∃ self', seal_block paid machine = (Ok tt, self') ∧ balance self' leader = Some 23.
Proof.
  destruct (seal_block paid machine) as [r self'] eqn:Hrun.
  assert (is_ok r = true) as Hok by (change r with ((r, self').1); rewrite <- Hrun; by vm_compute).
  destruct r as [[]| |]; [|done|done]. exists self'. split; [reflexivity|].
  destruct (fees_go_to_leader paid machine self' leader 23 ltac:(by vm_compute) ltac:(by vm_compute)
              ltac:(apply (bool_decide_unpack _); by vm_compute) eq_refl ltac:(by vm_compute) Hrun) as [(a & Ha & Hl) _].
  unfold balance. rewrite Ha. cbn. rewrite Hl. by vm_compute.
Defined.
End Examples.
