(* ===== verification/SvmExecutor.v ===== *)
(** The executor on the virtual machine: the machine of Svm.v, over the accounts of the trie database,
    behind the interface [Executor.LiteSVM] that the block builder is written against
    (src/crates/executor/fraud/src/executor.rs, src/crates/proof/executor/src/builder/core.rs,
    src/crates/proof/executor/src/db/mod.rs).

    [built_block_hash]: the block the builder builds has the slot after its parent's and the blockhash
    that chains the batches of the payload from the parent's blockhash. *)
From S2P Require Import Prelude Blocks Types AttributesQueue Reader Rlp Mpt MptReveal MptUpdate MptMap NodeCodec TrieDB Executor ProgramCodec L1BlockInfo Native Entries Blockhashes SvmAccounts Svm SvmExamples.
#[local] Open Scope Z_scope.

(** What the start of the machine takes from Solana's crates: their constants by name, the defaults and
    constructors of the runtime's types; and the texts of errors, bincode and the comparison of accounts. *)
Class SvmBoot `{Sysvars : SvmSysvars} := {
  Entrypoint : Type;
  (** [<crate>::id()], [<module>::Entrypoint::vm] and [feature_set::<feature>::id()]. *)
  program_id_of : string → Pubkey;
  entrypoint_of : string → Entrypoint;
  feature_id_of : string → Pubkey;
  (** [FeatureSet::activate] at a slot and [FeatureSet::is_active]. *)
  activate : FeatureSet → Pubkey → Z → FeatureSet;
  is_active : FeatureSet → Pubkey → bool;
  (** [ProgramCacheEntry::new_builtin], of the slot and the length of the name. *)
  new_builtin : Z → nat → Entrypoint → ProgramCacheEntry;
  (** [EpochSchedule::custom]; a [Rent] of its fields; [years_as_slots] of the microseconds of a tick; a
      number as [f64]. *)
  epoch_schedule_custom : Z → Z → bool → EpochScheduleT;
  new_rent : Z → F64 → Z → Rent;
  years_as_slots : F64 → Z → Z → F64;
  f64_of : Z → F64;
  DEFAULT_TICKS_PER_SECOND : Z;
  DEFAULT_TICKS_PER_SLOT : Z;
  compute_budget_default : ComputeBudget;
  feature_set_default : FeatureSet;
  fee_structure_default : FeeStructure;
  epoch_schedule_default : EpochScheduleT;
  rent_default : Rent;
  fee_rate_governor_default : FeeRateGovernor;
  rent_collector_default : RentCollector;
  svm_error_text : LiteSVMError → string;
  (** [Pack::unpack] of solana_program, given the length and the method of a type that is always
      initialized. *)
  unpack_account : ∀ {A}, nat → (bytes → outcome ProgramError A) → bytes → outcome ProgramError A;
  l2_transaction_deserialize : bytes → outcome string Block.L2Transaction;
  shared_accounts_equal : AccountSharedData → AccountSharedData → bool;
}.

(** * Genesis and built-in programs (genesis.rs, builtin.rs) *)

Record BuiltinPrototype (E : Type) := mkBuiltin {
  feature_id : option Pubkey;
  program_id : Pubkey;
  name : string;
  entrypoint : E;
}.
Arguments mkBuiltin {E}.
Arguments feature_id {E}.
Arguments program_id {E}.
Arguments name {E}.
Arguments entrypoint {E}.

Section genesis.
Context `{Sysvars : SvmSysvars} `{Boot : !SvmBoot}.
#[local] Open Scope string_scope.

Definition BUILTINS : list (BuiltinPrototype Entrypoint) :=
  [mkBuiltin None (program_id_of "solana_system_program") "system_program" (entrypoint_of "solana_system_program::system_processor");
   mkBuiltin None (program_id_of "solana_vote_program") "vote_program" (entrypoint_of "solana_vote_program::vote_processor");
   mkBuiltin None (program_id_of "solana_stake_program") "stake_program" (entrypoint_of "solana_stake_program::stake_instruction");
   mkBuiltin None (program_id_of "solana_config_program") "config_program" (entrypoint_of "solana_config_program::config_processor");
   mkBuiltin None (program_id_of "bpf_loader_deprecated") "solana_bpf_loader_deprecated_program" (entrypoint_of "solana_bpf_loader_program");
   mkBuiltin None (program_id_of "bpf_loader") "solana_bpf_loader_program" (entrypoint_of "solana_bpf_loader_program");
   mkBuiltin None (program_id_of "bpf_loader_upgradeable") "solana_bpf_loader_upgradeable_program" (entrypoint_of "solana_bpf_loader_program");
   mkBuiltin None (program_id_of "solana_sdk::compute_budget") "compute_budget_program" (entrypoint_of "solana_compute_budget_program");
   mkBuiltin None (program_id_of "solana_sdk::address_lookup_table::program") "address_lookup_table_program"
     (entrypoint_of "solana_address_lookup_table_program::processor")].

Definition HASHES_PER_TICK : Z := 0.
Definition soon_compute_budget : ComputeBudget := compute_budget_default.
Definition soon_epoch_schedule : EpochScheduleT := epoch_schedule_custom 432000 432000 false.
Definition DEFAULT_LAMPORTS_PER_BYTE_YEAR : Z := 1000000 / 100 * 365 / (1024 * 1024).
Definition soon_rent : Rent := new_rent DEFAULT_LAMPORTS_PER_BYTE_YEAR (f64_of 2) 0.
Definition soon_features : list string :=
  ["blake3_syscall_enabled"; "disable_fees_sysvar"; "zk_token_sdk_enabled"; "curve25519_syscall_enabled";
   "libsecp256k1_fail_on_bad_count"; "libsecp256k1_fail_on_bad_count2";
   "error_on_syscall_bpf_function_hash_collisions"; "reject_callx_r10"; "disable_deploy_of_alloc_free_syscall";
   "add_shred_type_to_shred_seed"; "skip_rent_rewrites"; "loosen_cpi_size_restriction";
   "relax_authority_signer_check_for_lookup_table_creation"; "increase_tx_account_lock_limit";
   "enable_bpf_loader_set_authority_checked_ix"; "enable_alt_bn128_syscall";
   "simplify_alt_bn128_syscall_error_codes"; "enable_big_mod_exp_syscall"; "apply_cost_tracker_during_replay";
   "switch_to_new_elf_parser"; "include_loaded_accounts_data_size_in_fee_calculation";
   "simplify_writable_program_account_check"; "bpf_account_data_direct_mapping"; "last_restart_slot_sysvar";
   "enable_poseidon_syscall"; "remaining_compute_units_syscall_enabled"; "enable_program_runtime_v2_and_loader_v4";
   "better_error_codes_for_tx_lamport_check"; "enable_alt_bn128_compression_syscall"; "disable_rent_fees_collection";
   "enable_zk_transfer_with_fee"; "add_new_reserved_account_keys"; "merkle_conflict_duplicate_proofs";
   "enable_zk_proof_from_account"; "cost_model_requested_write_lock_cost"; "enable_gossip_duplicate_proof_ingestion";
   "enable_chained_merkle_shreds"; "remove_rounding_in_fee_calculation"; "chained_merkle_conflict_duplicate_proofs";
   "reward_full_priority_fee"; "abort_on_invalid_curve"; "get_sysvar_syscall_enabled";
   "migrate_feature_gate_program_to_core_bpf"; "migrate_config_program_to_core_bpf";
   "migrate_address_lookup_table_program_to_core_bpf"; "zk_elgamal_proof_program_enabled";
   "ed25519_precompile_verify_strict"].
Definition soon_feature_set : FeatureSet :=
  foldl (λ feature_set feature, activate feature_set (feature_id_of feature) 0) feature_set_default soon_features.
Definition soon_slots_per_year : F64 :=
  years_as_slots (f64_of 1) (1000 * 1000 / DEFAULT_TICKS_PER_SECOND) DEFAULT_TICKS_PER_SLOT.
End genesis.

Section machine.
Context `{!Rlp} `{!Keccak} `{!PathCodec} `{!TrieProvider} `{!TrieHinter} `{!TrieHash} `{!NibblesOps}.
Context `{!BridgeProgram} `{!TrieDBProvider}.
Context `{Sdk : !SolanaSdk} `{Sha : !Sha256} `{Transactions : !SvmTransactions} `{Runtime : !SvmRuntime} `{Program : !SvmProgram}.
Context `{ClockC : !SolanaClock} `{Sysvars : !SvmSysvars} `{Boot : !SvmBoot}.
Context `{Deployed : !L1BlockInfo.L1BlockInfoProgram} `{Derived : !Pda} `{Size : !TransactionSize}.

(** The trie database answers the accounts a block has not changed. *)
#[global] Instance trie_callback : AccountsCallback TrieDB :=
  {| get_account_data pubkey := λ self, (map_err (λ _, tt) (TrieDB.get_account_data pubkey self), self) |}.

Abbreviation Machine := (Svm.LiteSVM (CB:=TrieDB)).

(** [LiteSVM::default] and [LiteSVM::new_soon]. *)
Definition machine_default : Machine :=
  mkLiteSVM accounts_db_default None
    (mkConfiguration false false compute_budget_default feature_set_default soon_slots_per_year 64 0 Hash_default
       fee_structure_default epoch_schedule_default (mkLeaderSchedule []) rent_default 0 0 Hash_default)
    0 0 0 fee_rate_governor_default None None queue_default rent_collector_default.
Definition with_builtin (features : FeatureSet) (cache : ProgramCache) (builtin : BuiltinPrototype Entrypoint) : ProgramCache :=
  if match feature_id builtin with Some feature_id => negb (is_active features feature_id) | None => false end then cache
  else replenish (program_id builtin) (new_builtin 0 (String.length (name builtin)) (entrypoint builtin)) cache.
Definition with_builtins (self : Machine) : Machine :=
  set_accounts (set_programs_cache
    (foldl (with_builtin (Svm.feature_set (config self))) (db_programs_cache (accounts self)) BUILTINS) (accounts self)) self.
Definition new_soon : Machine :=
  with_feature_set soon_feature_set (with_rent soon_rent (with_epoch_schedule soon_epoch_schedule
    (with_compute_budget soon_compute_budget (with_builtins machine_default)))).

(** The machine [build_block] sets up. *)
Definition machine_for (config : SvmConfig) : Machine :=
  with_init_account (svm_init_account config)
    (with_accounts_callback (svm_accounts_callback config)
      (with_blockhash_verify true (with_sig_verify false
        (with_leader_schedule (schedule_from_iter (svm_leader_schedule config))
          (with_clock_timestamp (svm_clock_timestamp config)
            (with_parent_bank_hash (svm_parent_bank_hash config)
              (with_parent_slot (svm_parent_slot config)
                (with_genesis_hash (svm_genesis_hash config) new_soon)))))))).
Definition machine_init (config : SvmConfig) : outcome string Machine :=
  match finish_init (machine_for config) with
  | (Ok _, self) => Ok self
  | (Err e, _) => Err (svm_error_text e)
  | (Panic, _) => Panic
  end.

(** [svm.execute_block(block.into())]. *)
Definition machine_execute_block (txs : list Block.L2Transaction) : ST Machine string (list TransactionResult) := λ self,
  match Block.raw_block_from (Block.mkL2Block txs) with
  | Ok block => let '(r, self) := Svm.execute_block block self in (map_err svm_error_text r, self)
  | Err e => (Err e, self)
  | Panic => (Panic, self)
  end.
Definition machine_unix_timestamp (self : Machine) : outcome string Z :=
  clock ← map_err svm_error_text (run get_sysvar self);
  Ok (ck_unix_timestamp clock).
(** [get_l1_block_info]: what the L1 block info program stored, of which a block names three fields. *)
Definition machine_l1_block_info (self : Machine) : option Executor.L1BlockInfo :=
  match run (on_accounts (E:=Empty_set) (get_account L1BlockInfo.l1_block_info_pubkey)) self with
  | Ok (Some l1_data) =>
      match unpack_account L1BlockInfo.LEN L1BlockInfo.unpack_from_slice (acc_data l1_data) with
      | Ok info => Some (Executor.mkL1BlockInfo (L1BlockInfo.li_number info) (L1BlockInfo.li_hash info)
                           (L1BlockInfo.li_sequence_number info))
      | _ => None
      end
  | _ => None
  end.

#[global] Instance svm_machine : Executor.LiteSVM Machine Block.L2Transaction TransactionResult FeeRateGovernor := {|
  svm_init := machine_init;
  svm_execute_block := machine_execute_block;
  svm_signature_count := signature_count;
  svm_fee_rate_governor := fee_rate_governor;
  svm_unix_timestamp := machine_unix_timestamp;
  svm_slot := slot;
  svm_parent_blockhash self := map_err svm_error_text (get_parent_blockhash self);
  svm_blockhash self := map_err svm_error_text (get_blockhash self);
  svm_l1_block_info := machine_l1_block_info;
  svm_export_diff_accounts self := export_diff_accounts (accounts self);
  decode_transaction := l2_transaction_deserialize;
  accounts_equal := shared_accounts_equal;
|}.

(** C13. The block the builder builds on this machine: its number is the slot after the parent's, and its
    hash chains the batches of the payload, by their signatures, from the hash it names as its parent,
    and then the 64 ticks of the slot. What the transactions do has no part in it. *)
Theorem built_block_hash (attrs : OpPayloadAttributes) (self : StatelessL2Builder)
    (ran : BlockBuildingOutcome TransactionResult FeeRateGovernor) (svm : Machine) :
  run_block attrs self = Ok (ran, svm) →
  ∃ txs, convert_block attrs = Ok txs ∧
    let info := l2_block_info (bo_block_info ran) in
    bi_number info = u64_add (b_parent_slot self) 1 ∧
    ∃ block, Block.raw_block_from (E:=Empty_set) (Block.mkL2Block txs) = Ok block ∧
      bi_hash info = block_hash 0 64 (bi_parent_hash info) (Block.raw_batches block).
Proof.
  unfold run_block. intros Hrun.
  apply obind_Ok in Hrun as (bank & Hbank & Hrun). apply obind_Ok in Hrun as (time & Htime & Hrun).
  apply obind_Ok in Hrun as (genesis & Hgenesis & Hrun). apply obind_Ok in Hrun as (svm0 & Hinit & Hrun).
  apply obind_Ok in Hrun as (txs & Htxs & Hrun). exists txs. split; [exact Htxs|].
  destruct (Executor.execute_block txs svm0) as [r svm1] eqn:Hexec.
  apply obind_Ok in Hrun as (outcome & Hr & Hrun). injection Hrun as <- <-.
  destruct r as [o|e|]; [injection Hr as <-|done|done].
  (* the machine starts on the parent *)
  assert (finish_init (machine_for (mkSvmConfig genesis (b_parent_slot self) bank time
      (cfg_sequencer_schedules (b_config self)) (b_trie_db self) (b_last_accounts_diff self))) = (Ok tt, svm0)) as Hstart.
  { cbn [svm_init svm_machine] in Hinit. unfold machine_init in Hinit.
    destruct (finish_init _) as [[[]|e|] m]; cbn in Hinit; [by injection Hinit as ->|done|done]. }
  apply finish_init_starts in Hstart as (Hconfig & Hslot & _ & parent & Hparent & Hlast).
  cbn in Hslot.
  assert (Svm.hashes_per_tick (config svm0) = 0 ∧ ticks_per_slot (config svm0) = 64) as [Hn Ht] by (rewrite Hconfig; done).
  (* the block *)
  unfold Executor.execute_block in Hexec. apply bind_Ok in Hexec as (results & s1 & Hblock & Hexec).
  apply bind_Ok in Hexec as (info & s2 & Hinfo & Hexec). injection Hinfo as Hinfo <-.
  apply bind_Ok in Hexec as (s3 & s4 & Hgets & Hexec). injection Hgets as <- <-. injection Hexec as <- <-.
  cbn [svm_execute_block svm_machine] in Hblock. unfold machine_execute_block in Hblock.
  destruct (Block.raw_block_from (E:=string) (Block.mkL2Block txs)) as [block|e|] eqn:Hraw; [|done|done].
  destruct (Svm.execute_block block svm0) as [[rs|e|] m] eqn:Hrun; [|done|done].
  injection Hblock as <- <-. apply (Block.raw_block_any (E':=Empty_set)) in Hraw.
  destruct (block_hash_of block svm0 m rs parent)
    as (Hhash & _ & Hrest & _); [rewrite Hn; lia|rewrite Ht; lia|done|done|].
  rewrite Hn, Ht in Hhash. injection Hrest as _ Hslot' _ Hparent'.
  unfold get_l2_block_info in Hinfo.
  apply obind_Ok in Hinfo as (unix & _ & Hinfo). apply obind_Ok in Hinfo as (ph & Hph & Hinfo).
  apply obind_Ok in Hinfo as (h & Hh & Hinfo). injection Hinfo as <-.
  cbn [svm_parent_blockhash svm_blockhash svm_slot svm_machine] in *.
  unfold get_parent_blockhash in Hph. rewrite Hparent', Hparent in Hph. injection Hph as <-.
  rewrite Hhash in Hh. injection Hh as <-. cbn. split; [congruence|]. by exists block.
Qed.
End machine.

(** * A block on the small machine *)

Module Examples.
#[local] Existing Instances TrieDB.Two.keccak TrieDB.Two.bridge TrieDB.Two.provider MptMap.Small.hinter MptMap.Small.nibbles
  NodeCodec.Concrete.paths NodeCodec.Concrete.empty_root Executor.Replaying.database.
#[local] Existing Instances Native.Plainly.sdk Entries.Examples.digest Entries.Examples.size SvmAccounts.Plain.runtime
  Blockhashes.Examples.short_clock Toy.transactions Toy.program Toy.sysvars.

(** A transaction is given by the lamports it moves. *)
#[local] Instance program : L1BlockInfo.L1BlockInfoProgram :=
  {| L1BlockInfo.l1_block_info_id := Toy.id 50; L1BlockInfo.NO_SIG_TX_PAYER := Toy.id 51 |}.
#[local] Instance addresses : Pda := λ _ program_id, (program_id, byte1).
#[local] Instance boot : SvmBoot := {|
  Entrypoint := unit;
  program_id_of _ := Toy.id 60;
  entrypoint_of _ := tt;
  feature_id_of _ := Toy.id 61;
  activate features _ _ := features;
  is_active _ _ := true;
  new_builtin _ _ _ := [];
  epoch_schedule_custom _ _ _ := tt;
  new_rent _ _ _ := 1;
  years_as_slots _ _ _ := tt;
  f64_of _ := tt;
  DEFAULT_TICKS_PER_SECOND := 160;
  DEFAULT_TICKS_PER_SLOT := 64;
  compute_budget_default := tt;
  feature_set_default := tt;
  fee_structure_default := 5;
  epoch_schedule_default := tt;
  rent_default := 1;
  fee_rate_governor_default := 0;
  rent_collector_default := tt;
  svm_error_text _ := "error"%string;
  unpack_account _ n f src := if decide (length src = n) then f src else Err ProgramCodec.InvalidAccountData;
  l2_transaction_deserialize data :=
    match data with [] => Err "empty"%string | _ => Ok (Block.Head 1 (Toy.transfer Toy.payer [data])) end;
  shared_accounts_equal _ _ := false;
|}.

(** The accounts the parent left: its blockhash, its fee rate and its clock, and a payer. *)
Definition sysvar (n : Z) (data : bytes) : Pubkey * AccountSharedData := (Toy.id n, mkAccount 1 data (Toy.id 3) false 0).
Definition left_over : list (Pubkey * AccountSharedData) :=
  [sysvar 44 (Toy.parent ++ be_bytes 8 3); sysvar 45 (be_bytes 8 3 ++ be_bytes 8 0); sysvar 40 (be_bytes 8 7);
   (Toy.payer, Toy.wallet 100); (Toy.mover, mkAccount 1 [] [z2b 2] true 0)].
Definition builder : StatelessL2Builder := new_builder Executor.Replaying.config TrieDB.Two.header left_over TrieDB.Two.db.
Definition payload : OpPayloadAttributes := Executor.Replaying.payload [[z2b 30]; [z2b 7]].

Definition hash_seen (r : outcome ExecutorError (BlockBuildingOutcome TransactionResult FeeRateGovernor * Svm.LiteSVM (CB:=TrieDB)))
    : bytes * bytes :=
  match r with
  | Ok (ran, _) => (bi_hash (l2_block_info (bo_block_info ran)), bi_parent_hash (l2_block_info (bo_block_info ran)))
  | _ => ([], [])
  end.

Lemma built_block_hash_witness :
  ∃ ran svm, run_block payload builder = Ok (ran, svm) ∧
    bi_hash (l2_block_info (bo_block_info ran)) =
      block_hash 0 64 Toy.parent [[Toy.transfer Toy.payer [[z2b 30]]]; [Toy.transfer Toy.payer [[z2b 7]]]].
Proof.
  assert (is_ok (run_block payload builder) = true) as Hok by (vm_compute; reflexivity).
  assert (bool_decide ((hash_seen (run_block payload builder)).2 = Toy.parent) = true) as Hp by (vm_compute; reflexivity).
  destruct (run_block payload builder) as [[ran svm]|e|] eqn:Hrun; [|done|done].
  exists ran, svm. split; [done|]. destruct (built_block_hash payload builder ran svm Hrun) as (txs & Htxs & _ & block & Hblock & Hhash).
  apply bool_decide_eq_true in Hp. injection Htxs as <-. injection Hblock as <-.
  match type of Hhash with _ = block_hash _ _ ?parent _ => change (parent = Toy.parent) in Hp; rewrite Hp in Hhash end.
  rewrite Hhash. reflexivity.
Defined.
End Examples.
